(* ===== verification/_CoqProject ===== *)
-Q . S2P
Prelude.v
WaitLib.v
IList.v
Timer.v
KState.v
Thread.v
Sync.v
Sched.v
SchedOps.v
Kernel.v
Tick.v
SyncInv.v
KernelInv.v
Boot.v
SchedSpec.v
KernelProps.v
Mem.v
Ctype.v
CString.v
CStringProps.v
StrProps.v
Strto.v
StrtoProps.v
Page.v
Novm.v
NovmProps.v
Miniheap.v
MiniheapInv.v
Heap.v
HeapProps.v
HeapSample.v
Pow2.v
Cbuf.v
CbufProps.v
CbufSample.v
Sort.v
SortProps.v
BlockDev.v
Bio.v
BlockProps.v
BioProps.v
BioSample.v
Native.v
NativeProps.v
NativeBytes.v
ByteIo.v
Bcache.v
BcacheProps.v
Printf.v
PrintfSpec.v
PrintfProps.v
PrintfStrto.v
PrintfSample.v
Port.v
PortSpec.v
PortSim.v
PortMake.v
PortXfer.v
PortWf.v
PortProps.v
PortSample.v
FsPath.v
FsPathProps.v
Bdevs.v
BdevsProps.v
Subdev.v
SubdevProps.v
FsLib.v
Fs.v
FsProps.v
FsCalls.v
MemFs.v
MemFsProps.v
MemFsHooks.v
FsSample.v
