(* ===== verification/Prelude.v ===== *)
(** * The core of the LK kernel and of its libraries

    A model of the parts of lk-troika (the LK kernel with the Exynos boot loader
    around it) that carry its own logic, in the configuration of the Exynos
    targets: one processor, no kernel virtual memory, arm64, unsigned [char],
    [PLATFORM_HAS_DYNAMIC_TIMER], assertions on.

    ** Conventions

    Code that reads and writes shared state is a state monad with faults, [M S A]
    of this file: [None] is a failed assertion, an access through a bad pointer
    or a loop that outlives its fuel, so a theorem that a call returns [Some]
    excludes all three.  [wp m s Q] says that [m] runs from [s] and ends in [Q].
    Machine integers are [Z] with the wrap-around written out: [uw w] and [sw w]
    ([u8] ... [s64]).  Error codes are those of [include/err.h].

    ** The kernel

    - [IList] is [include/list.h]: nodes on a heap with their two links, every
      operation as its loads and stores.  [IList.list_refines]: it implements
      finite sequences.  The other files use sequences of identifiers.
    - [Timer] is the timer queue ([kernel/timer.c]) with the hardware timer; its
      invariant sorts the queue by deadlines that wrap around.
    - [KState] holds the structures of [kernel/thread.h], [wait.h], [mutex.h],
      [semaphore.h], [event.h] and the scheduler's static state; [Thread] is
      [kernel/thread.c], [Sync] is [mutex.c], [semaphore.c] and [event.c].  A call
      that blocks is split where the processor switches: the frames of the calls
      in progress are data ([Thread.frame]).
    - [Kernel] puts them together: [timer_tick], the calls a thread makes, the
      interrupts, and [step], the machine's transition; [reachable] is what
      starts at [boot].  [allowed] is the caller's side: valid objects, no lock
      taken twice, semaphore counts inside [int], no blocking in the idle thread.
      [call] lists the calls that are events; joining, detaching, blocking and
      destroying are definitions of [Thread] and [Sync] that no event runs.
    - [Sched], [SchedOps], [Tick], [SyncInv], [KernelInv], [Boot]: the invariant
      (queues against thread states, bitmap, timers, counts against waiters) and
      its preservation by each operation.  [SchedSpec] is the abstract scheduler,
      one ready list.  [KernelProps] has the theorems: safety of every step,
      mutual exclusion and hand-over of mutexes, what each call does to the count
      and the queue of a semaphore, events, the
      two refinements of the scheduler, the timer's wake-ups, and two reachable
      states in which a wake-up is lost.

    The fuel of the scheduler's search is the number of priorities, that of
    [timer_tick] one more than the queued timers; both are shown to be enough.

    ** Memory and strings

    - [Mem] is byte memory; [CString] all of [lib/libc/string] but for three
      functions, [Ctype] is [ctype.c], [Strto] the number parsers ([atoi.c],
      [strtol.c], [strtoll.c], [strtoull.c]).  Loops that run to a terminator
      have as fuel the number of mapped bytes.
    - [CStringProps], [StrProps], [StrtoProps]: what they write and return.

    ** Memory allocation

    - [Page] is the rounding of [stdlib.h] and the interface of a page allocator
      ([PageAlloc] with its laws [PageAllocLaws]); [Novm] is
      [kernel/novm/novm.c] with the wrappers of [lib/heap/page_alloc.c], and
      [NovmProps] shows that it is first fit and implements the interface.
    - [Miniheap] is [lib/heap/miniheap/miniheap.c] over any page allocator, and
      [Heap] is [lib/heap/heap_wrapper.c], [malloc] and its relatives with the
      delayed free list.  Free chunks and block headers are kept beside the
      byte memory; the invariant of [MiniheapInv] keeps them apart from the
      bytes of blocks.  [HeapProps]: safety of any sequence of calls, what an
      allocation returns, release as its inverse, reallocation, trimming and
      the start.  [HeapSample] evaluates them on the page allocator of [Novm].

    ** The circular buffer

    - [Pow2] is [include/pow2.h].  [EventLib] is what the buffer uses of an event
      ([EventOps] with its laws [EventLaws]); [KernelEvents] shows that the events
      of the kernel model implement it.
    - [Cbuf] is [lib/cbuf/cbuf.c] over byte memory and any such event; a read that
      blocks is split where its thread waits.  [CbufProps]: the ring implements a
      bounded queue of bytes.  [CbufSample] evaluates it on the kernel's events.
      The loops of a read and of a write run at most twice, which their fuel
      covers with the test that ends them.

    ** Sorting and searching

    - [Sort] is [lib/libc/qsort.c] and [lib/libc/bsearch.c]; the comparison is a
      parameter.  [SortProps]: the memory holds a list of elements, each loop
      rearranges a range of it, and the result is a sorted permutation;
      [bsearch] finds the key when the size of the elements is even.
      [SortSample] evaluates both, with an odd size for which [bsearch] fails.
      The depth of the recursion is bounded by the number of elements.

    ** Block devices

    - [BlockDev] is [bdev_t] of [lib/bio/include/lib/bio.h] and the interface of a
      driver: its hooks ([DriverOps]) and what they promise ([DriverLaws]), which
      allows any request to fail and to leave anything in its range.  [Bio] is
      the part of [lib/bio/bio.c] that transfers bytes with the default hooks,
      [Native] the part that transfers sectors and bytes over the native hooks.
      A function's local block buffer is an argument, its address.
    - [BlockProps]: whole blocks, parts of a block, sequences of transfers.
      [BioProps]: reads, writes and erasures of any range move exactly its
      bytes, or report an error.  [NativeProps]: the same for sectors, with the
      number of sectors moved before a failure, if a driver's limit on a request is
      a whole number of blocks; [NativeBytes]: the byte functions
      agree with the sector functions but for the number they return.
      [BioSample] is a driver that keeps the laws; it and [NativeSample] evaluate
      the transfers, and show where the byte functions go wrong.
      A loop's fuel is one more than the blocks or sectors that are left.

    ** The block cache

    - [ByteIo] is what a client of the block layer relies on ([ByteIoOps],
      [ByteIoLaws]): reads and writes of bytes of a device that serves them.
      [Bcache] is [lib/bcache/bcache.c] over that interface.  [BcacheProps]: the
      cache is transparent, its clients see a disk of blocks ([view]), and each
      call is a step of that disk.  [BcacheSample] shows that [bio.c] with its
      default hooks keeps the interface's laws, and runs the cache on the driver
      of [BioSample].

    ** Formatted output

    - [Printf] is [lib/libc/printf.c]: the conversions of numbers into a local
      buffer, the engine over any output function, and [snprintf] and its
      relatives, whose output is a string.  An argument is its value and whether
      it is a double; a double is its 64 bits.
    - [PrintfSpec]: formats as data, and the text C defines for them.
      [PrintfProps]: the engine puts that text out, for every output function
      that keeps [OutLaws]; a string is one.  [PrintfStrto]: numbers that are
      written are read back by the functions of [Strto].  [PrintfSample]
      evaluates formats, and shows where the code departs from C.
      The engine's fuel is the size of memory, which holds the format.

    ** Ports

    - [WaitLib] is what ports use of wait queues and of an allocator ([WaitOps],
      [AllocOps], with their laws); [KernelQueues] shows that the wait queues of
      the kernel model keep them, [HeapAlloc] that the heap does.
    - [Port] is [kernel/port.c] over those interfaces; [PortSpec] the abstract
      ports (queues of packets, [spec] for each call, what a caller must keep to;
      where the code departs from [port.h], [spec] follows the code)
      and the representation [abs].  [PortSim], [PortMake], [PortXfer],
      [PortClose]: each call does what [spec] says; [PortWf]: [spec] keeps the
      abstract invariant.  [PortProps]: the refinement, and failed calls change
      nothing.  [PortSample] puts ports on the kernel and the heap, and shows what
      the calls do to careless callers.
      The loops that wait again after a wake-up are split there, so one round is
      their fuel.

    ** The device list, subdevices and paths

    - [AllocLib] adds to the allocator of [WaitLib] that its calls return;
      [Counts] counts the entries of a map.  [Bdevs] is the device list of
      [lib/bio/bio.c] (opening, closing, initializing, registering, with the
      reference counts) and [bio_publish_subdevice] of [lib/bio/subdev.c], over
      any allocator; [BdevsProps] the invariant that every reference belongs to
      the list, to a subdevice or to an open handle, [BdevsSample] a run and what
      the code gets wrong.  The chain of parents is the fuel of [bdev_dec_ref].
    - [Subdev] is the transfer hooks of a subdevice over the interface [ByteIo]
      of its parent; [SubdevProps]: the subdevice keeps that interface's laws for
      its range, so whatever is proved of a client (the block cache) holds on it
      too.  [SubdevSample] puts one on the disk of [BioSample].
    - [FsPath] is [trim_name] and [fs_normalize_path] of [lib/fs/fs.c], with the
      path they are meant to give ([canonical]); [FsPathProps] that they give it.
      The fuel of the loop is four rounds for each byte of memory.

    ** The mount table and the file system in memory

    - [FsLib] is [struct fs_api] and what the layer relies on: the hooks of a
      file system ([FsOps], [ApiLaws]), the allocator and the device list
      ([DevOps], [DevEnv]), all over one state.  [Fs] is the rest of
      [lib/fs/fs.c] over them.  [FsProps]: the invariant [Wf], and looking up,
      taking and giving back a mount; [FsCalls]: every call keeps it, and the hook
      it runs and its answer.
    - [MemFs] is [lib/fs/memfs/memfs.c] over any allocator; [MemFsProps] its
      invariant, [MemFsHooks] what each hook returns and does to the abstract
      tables, [MemFsLaws] the refinement and that it is a file system for [Fs].
      The files of a file system bound the rounds of [free_files].
    - [FsDevices]: the device list of [Bdevs] serves both; [FsSample] puts the
      three together, with runs and what the code gets wrong.

    Small modules sit in the file of their client: [AllocLib], [Counts] and
    [EventLib] in [WaitLib.v], [KernelEvents] in [CbufSample.v], [KernelQueues]
    and [HeapAlloc] in [PortSample.v], [PortClose] in [PortXfer.v], [MemFsLaws] in
    [MemFsHooks.v], [FsDevices] in [FsSample.v], [SortSample] in [SortProps.v],
    [NativeSample] in [NativeBytes.v], [BcacheSample] in [BcacheProps.v],
    [BdevsSample] in [BdevsProps.v], [SubdevSample] in [SubdevProps.v].

    ** Not modelled

    Architecture and platform code, drivers, the console and its commands, the
    dump functions, the file systems on disk, the network stack and the boot loader's
    commands are input and output or glue over the parts above.  Locks of the
    heap and of the page allocator are left out: their critical sections are
    single operations of the model.  Thread stacks and contexts are opaque. *)
From stdpp Require Export prelude list gmap strings.


(** * Machine integers *)

Local Open Scope Z_scope.

(** [uw w x] is the value an unsigned [w]-bit C object holds after being
    assigned [x]; [sw w x] is the two's complement reading. *)
Definition uw (w x : Z) : Z := x `mod` 2 ^ w.
Definition sw (w x : Z) : Z := (x + 2 ^ (w - 1)) `mod` 2 ^ w - 2 ^ (w - 1).
Abbreviation u8 := (uw 8).
Abbreviation u16 := (uw 16).
Abbreviation u32 := (uw 32).
Abbreviation u64 := (uw 64).
Abbreviation s8 := (sw 8).
Abbreviation s32 := (sw 32).
Abbreviation s64 := (sw 64).

Create Rewrite HintDb lk.
Create Rewrite HintDb wp.

Lemma uw_range w x : 0 <= w -> 0 <= uw w x < 2 ^ w.
Proof. intros. unfold uw. apply Z.mod_pos_bound. lia. Qed.

Lemma uw_small w x : 0 <= x < 2 ^ w -> uw w x = x.
Proof. intros. by apply Z.mod_small. Qed.

Lemma sw_range w x : 0 < w -> - 2 ^ (w - 1) <= sw w x < 2 ^ (w - 1).
Proof.
  intros. unfold sw. assert (2 ^ w = 2 * 2 ^ (w - 1)) as E.
  { rewrite <- Z.pow_succ_r by lia. f_equal. lia. }
  pose proof (Z.mod_pos_bound (x + 2 ^ (w - 1)) (2 ^ w)). lia.
Qed.

Lemma sw_small w x : 0 < w -> - 2 ^ (w - 1) <= x < 2 ^ (w - 1) -> sw w x = x.
Proof.
  intros. unfold sw. assert (2 ^ w = 2 * 2 ^ (w - 1)) as E.
  { rewrite <- Z.pow_succ_r by lia. f_equal. lia. }
  rewrite Z.mod_small; lia.
Qed.

(** The two readings differ from the value by a multiple of [2 ^ w], and the
    signed one is the only such value in its range. *)
Lemma uw_eqm w x : 0 <= w -> exists k, uw w x = x + k * 2 ^ w.
Proof.
  intros. exists (- (x `div` 2 ^ w)). unfold uw. rewrite Z.mod_eq by lia. lia.
Qed.

Lemma sw_eqm w x : 0 < w -> exists k, sw w x = x + k * 2 ^ w.
Proof.
  intros. exists (- ((x + 2 ^ (w - 1)) `div` 2 ^ w)). unfold sw. rewrite Z.mod_eq by lia. lia.
Qed.

Lemma sw_unique w x y k :
  0 < w -> - 2 ^ (w - 1) <= y < 2 ^ (w - 1) -> x = y + k * 2 ^ w -> sw w x = y.
Proof.
  intros Hw Hy ->. unfold sw. assert (2 ^ w = 2 * 2 ^ (w - 1)) as E.
  { rewrite <- Z.pow_succ_r by lia. f_equal. lia. }
  replace (y + k * 2 ^ w + 2 ^ (w - 1)) with (y + 2 ^ (w - 1) + k * 2 ^ w) by lia.
  rewrite Z.mod_add, Z.mod_small by lia. lia.
Qed.

#[export] Hint Rewrite uw_small sw_small using lia : lk.

(** * Error codes ([include/err.h]) *)

Definition NO_ERROR : Z := 0.
Definition ERR_GENERIC : Z := -1.
Definition ERR_NOT_FOUND : Z := -2.
Definition ERR_NOT_READY : Z := -3.
Definition ERR_NO_MEMORY : Z := -5.
Definition ERR_INVALID_ARGS : Z := -8.
Definition ERR_OBJECT_DESTROYED : Z := -11.
Definition ERR_NOT_BLOCKED : Z := -12.
Definition ERR_TIMED_OUT : Z := -13.
Definition ERR_NOT_ALLOWED : Z := -17.
Definition ERR_TOO_BIG : Z := -25.
Definition ERR_THREAD_DETACHED : Z := -34.

(** * Stateful code that can fault

    [M S A] is C code over the state [S]: it yields a value and the new state,
    or [None] when the code hits a [DEBUG_ASSERT] that fails, calls [panic],
    or touches an object that does not exist. *)

Definition M (S A : Type) : Type := S -> option (A * S).

#[export] Instance M_ret S : MRet (M S) := fun A a s => Some (a, s).
#[export] Instance M_bind S : MBind (M S) := fun A B k m s =>
  match m s with Some (a, s') => k a s' | None => None end.

Definition get {S} : M S S := fun s => Some (s, s).
Definition gets {S A} (f : S -> A) : M S A := fun s => Some (f s, s).
Definition modify {S} (f : S -> S) : M S unit := fun s => Some (tt, f s).
Definition fault {S A} : M S A := fun _ => None.
Definition assert_ {S} (b : bool) : M S unit := fun s => if b then Some (tt, s) else None.
Definition deref {S A} (f : S -> option A) : M S A := fun s =>
  match f s with Some a => Some (a, s) | None => None end.
Definition when {S} (b : bool) (m : M S unit) : M S unit := if b then m else mret tt.

Arguments get {S} s /.
Arguments gets {S A} f s /.
Arguments modify {S} f s /.
Arguments fault {S A} s /.

(** [wp m s Q]: [m] runs from [s] without a fault and ends in [Q]. *)
Definition wp {S A} (m : M S A) (s : S) (Q : A -> S -> Prop) : Prop :=
  match m s with Some (a, s') => Q a s' | None => False end.

Section wp.
Context {S : Type}.

Lemma wp_ret {A} (a : A) (s : S) Q : wp (mret a) s Q <-> Q a s.
Proof. done. Qed.

Lemma wp_bind {A B} (m : M S A) (k : A -> M S B) s Q :
    wp (m ≫= k) s Q <-> wp m s (fun a s' => wp (k a) s' Q).
Proof. unfold wp, mbind, M_bind. by destruct (m s) as [[a s']|]. Qed.

Lemma wp_mono {A} (m : M S A) s (P Q : A -> S -> Prop) :
    wp m s P -> (forall a s', P a s' -> Q a s') -> wp m s Q.
Proof. unfold wp. destruct (m s) as [[a s']|]; eauto. Qed.

Lemma wp_get s (Q : S -> S -> Prop) : wp get s Q <-> Q s s.
Proof. done. Qed.

Lemma wp_gets {A} (f : S -> A) s Q : wp (gets f) s Q <-> Q (f s) s.
Proof. done. Qed.

Lemma wp_modify f (s : S) Q : wp (modify f) s Q <-> Q tt (f s).
Proof. done. Qed.

Lemma wp_assert b (s : S) Q : wp (assert_ b) s Q <-> b = true /\ Q tt s.
Proof. unfold wp, assert_. destruct b; intuition congruence. Qed.

Lemma wp_deref {A} (f : S -> option A) s Q :
    wp (deref f) s Q <-> exists a, f s = Some a /\ Q a s.
Proof.
  unfold wp, deref. destruct (f s) as [a|]; split; [eauto| |done|].
  - by intros (? & [= ->] & ?).
  - by intros (? & ? & ?).
Qed.

Lemma wp_when (b : bool) (m : M S unit) s Q :
    wp (when b m) s Q <-> if b then wp m s Q else Q tt s.
Proof. by destruct b. Qed.

Lemma wp_run {A} (m : M S A) s Q :
    wp m s Q <-> exists a s', m s = Some (a, s') /\ Q a s'.
Proof.
  unfold wp. destruct (m s) as [[a s']|]; split; [eauto| |done|].
  - by intros (? & ? & [= -> ->] & ?).
  - by intros (? & ? & ? & ?).
Qed.

Lemma wp_conj {A} (m : M S A) s (P Q : A -> S -> Prop) :
    wp m s P -> wp m s Q -> wp m s (fun a s' => P a s' /\ Q a s').
Proof. unfold wp. destruct (m s) as [[a s']|]; eauto. Qed.
End wp.

#[export] Hint Rewrite @wp_ret @wp_bind @wp_get @wp_gets @wp_modify @wp_assert @wp_deref : wp.

(** [wp_step] pushes [wp] through the monad's operations. *)
Ltac wp_step := autorewrite with wp; cbn beta.

(** * Boolean tests as propositions *)

Ltac bool_prop :=
  repeat match goal with
  | H : _ && _ = true |- _ => apply andb_true_iff in H as [? ?]
  | H : _ || _ = false |- _ => apply orb_false_iff in H as [? ?]
  | H : negb _ = true |- _ => apply negb_true_iff in H
  | H : negb _ = false |- _ => apply negb_false_iff in H
  | H : bool_decide _ = true |- _ => apply bool_decide_eq_true in H
  | H : bool_decide _ = false |- _ => apply bool_decide_eq_false in H
  | H : (_ =? _) = true |- _ => apply Z.eqb_eq in H
  | H : (_ =? _) = false |- _ => apply Z.eqb_neq in H
  | H : (_ <? _) = true |- _ => apply Z.ltb_lt in H
  | H : (_ <? _) = false |- _ => apply Z.ltb_ge in H
  | H : (_ <=? _) = true |- _ => apply Z.leb_le in H
  | H : (_ <=? _) = false |- _ => apply Z.leb_gt in H
  end.

(** Case analysis on the innermost test of the goal. *)
Ltac case_if :=
  match goal with
  | |- context [if ?b then _ else _] => let E := fresh "E" in destruct b eqn:E
  end; bool_prop.

(** * Lists *)

Lemma NoDup_app_cons {A} (l1 l2 : list A) x :
  NoDup (l1 ++ (x :: l2)) <-> x ∉ l1 ++ l2 /\ NoDup (l1 ++ l2).
Proof. rewrite !NoDup_app, NoDup_cons. set_solver. Qed.
