(* ===== verification/WaitLib.v ===== *)
(** What the kernel's wait queues and the heap promise to the objects built on
    them. *)
From S2P Require Import Prelude.
Local Open Scope Z_scope.

Module WaitLib.

(** A wait queue is named by the address of the object it is a field of.
    [wait_block] either returns at once or leaves the thread on the queue.
    [wait_destroy] is the part of [wait_queue_destroy] up to the switch its
    wake-up may cause, [wait_retire] the rest.  [wait_release] is the end of the
    queue's memory, [waiting] the threads of a live queue. *)
Inductive wait_result := WaitDone (r : Z) | WaitBlocked.

Class WaitOps (K : Type) := {
  wait_init : Z -> M K unit;
  wait_block : Z -> Z -> M K wait_result;
  wake_one : Z -> Z -> M K Z;
  wake_all : Z -> Z -> M K Z;
  wait_destroy : Z -> M K unit;
  wait_retire : Z -> M K unit;
  wait_release : Z -> M K unit;
  wait_yield : M K unit;
  wait_ok : K -> Prop;
  wait_self : K -> nat;
  (** the current thread may be descheduled *)
  wait_may_switch : K -> Prop;
  timeout_ok : Z -> Prop;
  waiting : K -> Z -> option (list nat);
}.

(** A change of the queues, point by point. *)
Abbreviation queues := (Z -> option (list nat)).
Definition set_queue (p : Z) (l : option (list nat)) (f : queues) : queues :=
  fun q => if q =? p then l else f q.

Class WaitLaws (K : Type) `{WaitOps K} := {
  wait_init_ok (k : K) p : wait_ok k -> waiting k p = None ->
    wp (wait_init p) k (fun _ k' => wait_ok k' /\ forall q, waiting k' q = set_queue p (Some []) (waiting k) q);
  wait_block_ok (k : K) p l timeout : wait_ok k -> wait_may_switch k -> timeout_ok timeout -> waiting k p = Some l ->
    wp (wait_block p timeout) k (fun r k' => wait_ok k' /\
      if timeout =? 0 then r = WaitDone ERR_TIMED_OUT /\ k' = k
      else r = WaitBlocked /\ forall q, waiting k' q = set_queue p (Some (l ++ [wait_self k])) (waiting k) q);
  wake_one_ok (k : K) p l err : wait_ok k -> waiting k p = Some l ->
    wp (wake_one p err) k (fun r k' => wait_ok k' /\ (wait_may_switch k -> wait_may_switch k') /\
      r = (match l with [] => 0 | _ => 1 end) /\ forall q, waiting k' q = set_queue p (Some (tail l)) (waiting k) q);
  wake_all_ok (k : K) p l err : wait_ok k -> waiting k p = Some l ->
    wp (wake_all p err) k (fun r k' => wait_ok k' /\ (wait_may_switch k -> wait_may_switch k') /\
      r = Z.of_nat (length l) /\ forall q, waiting k' q = set_queue p (Some []) (waiting k) q);
  wait_destroy_ok (k : K) p l : wait_ok k -> wait_may_switch k -> waiting k p = Some l ->
    wp (wait_destroy p) k (fun _ k' => wait_ok k' /\ forall q, waiting k' q = set_queue p (Some []) (waiting k) q);
  wait_retire_ok (k : K) p : wait_ok k -> waiting k p = Some [] ->
    wp (wait_retire p) k (fun _ k' => wait_ok k' /\ forall q, waiting k' q = set_queue p None (waiting k) q);
  wait_release_ok (k : K) p : wait_ok k -> waiting k p = None \/ waiting k p = Some [] ->
    wp (wait_release p) k (fun _ k' => wait_ok k' /\ forall q, waiting k' q = set_queue p None (waiting k) q);
  wait_yield_ok (k : K) : wait_ok k -> wait_may_switch k ->
    wp wait_yield k (fun _ k' => wait_ok k' /\ forall q, waiting k' q = waiting k q);
}.

(** [malloc], [calloc] and [free]; 0 is the null pointer. *)
Class AllocOps (H : Type) := {
  malloc : Z -> M H Z;
  calloc : Z -> Z -> M H Z;
  free : Z -> M H unit;
  alloc_ok : H -> Prop;
  allocated : H -> Z -> Prop;
}.

Definition granted `{AllocOps H} (h : H) (p : Z) (h' : H) : Prop :=
  alloc_ok h' /\ (forall q, allocated h q -> allocated h' q) /\ (p ≠ 0 -> ~ allocated h p /\ allocated h' p).

Class AllocLaws (H : Type) `{AllocOps H} := {
  malloc_ok (h : H) n : alloc_ok h -> 0 < n < 2 ^ 16 -> wp (malloc n) h (granted h);
  calloc_ok (h : H) n m : alloc_ok h -> 0 < n * m < 2 ^ 16 -> wp (calloc n m) h (granted h);
  free_ok (h : H) p : alloc_ok h -> allocated h p ->
    wp (free p) h (fun _ h' => alloc_ok h' /\ forall q, q ≠ p -> allocated h q -> allocated h' q);
}.

End WaitLib.

(** Code that does not check what [malloc] returns: an allocator that does not
    run out, and the smallest one. *)
Module AllocLib.
Import WaitLib.

Class AllocTotal (H : Type) `{AllocOps H} := {
  malloc_total (h : H) n : alloc_ok h -> 0 < n < 2 ^ 16 -> wp (malloc n) h (fun p _ => p ≠ 0);
}.

Lemma malloc_granted {H} `{AllocLaws H} `{!AllocTotal H} (h : H) n : alloc_ok h -> 0 < n < 2 ^ 16 ->
  wp (malloc n) h (fun p h' => granted h p h' /\ p ≠ 0).
Proof. intros. apply wp_conj; [by apply malloc_ok|by apply malloc_total]. Qed.

(** The next address, and the live ones below it. *)
Record bump := MkBump { b_next : Z; b_live : gset Z }.

Definition bump_malloc (n : Z) : M bump Z := fun h => Some (b_next h, MkBump (b_next h + n) ({[b_next h]} ∪ b_live h)).

#[export] Instance bump_allocs : AllocOps bump := {
  malloc := bump_malloc;
  calloc n m := bump_malloc (n * m);
  free p := modify (fun h => MkBump (b_next h) (b_live h ∖ {[p]}));
  alloc_ok h := 0 < b_next h /\ forall p, p ∈ b_live h -> p < b_next h;
  allocated h p := p ∈ b_live h;
}.

Lemma bump_granted h n : alloc_ok h -> 0 < n -> wp (bump_malloc n) h (granted h).
Proof.
  intros [Hn Hl] Hp. unfold wp, bump_malloc, granted. cbn. split_and!; [lia|intros p; rewrite elem_of_union, elem_of_singleton; intros [->|Hq%Hl]; lia|set_solver|].
  intros _. split; [|set_solver]. intros Hin%Hl. lia.
Qed.

#[export] Instance bump_laws : AllocLaws bump.
Proof.
  split.
  - intros h n Hh Hn. apply bump_granted; [done|lia].
  - intros h n m Hh Hn. apply bump_granted; [done|lia].
  - intros h p [Hn Hl] Hp. unfold wp. cbn. split_and!; [done|set_solver|set_solver].
Qed.

#[export] Instance bump_total : AllocTotal bump.
Proof. split. intros h n [Hn _] _. unfold wp. cbn. lia. Qed.

End AllocLib.

(** How many entries of a map pass a test, the currency of reference counts. *)
Module Counts.

Section counts.
Context {K A : Type} `{Countable K}.
Implicit Types (m : gmap K A) (P : A -> bool).

Definition count P m : Z := Z.of_nat (size (filter (fun kv => P kv.2 = true) m)).
Abbreviation one b := (if b then 1 else 0).

Lemma count_nonneg P m : 0 <= count P m.
Proof. unfold count. lia. Qed.

Lemma count_empty P : count P ∅ = 0.
Proof. unfold count. by rewrite map_filter_empty, map_size_empty. Qed.

Lemma count_new P m k x : m !! k = None -> count P (<[k := x]> m) = count P m + one (P x).
Proof.
  intros Hk. unfold count. destruct (P x) eqn:HP.
  - rewrite map_filter_insert_True by done. rewrite map_size_insert_None; [lia|]. apply map_lookup_filter_None. by left.
  - rewrite map_filter_insert_False by (cbn; congruence). rewrite delete_id by done. lia.
Qed.

Lemma count_delete P m k x : m !! k = Some x -> count P (delete k m) = count P m - one (P x).
Proof.
  intros Hk. rewrite <- (insert_delete_id m k x Hk) at 2. rewrite count_new by apply lookup_delete_eq. lia.
Qed.

Lemma count_update P m k x y : m !! k = Some x -> count P (<[k := y]> m) = count P m - one (P x) + one (P y).
Proof.
  intros Hk. rewrite <- insert_delete_eq, count_new by apply lookup_delete_eq. by rewrite (count_delete P m k x).
Qed.

Lemma count_ext P P' m : (forall k x, m !! k = Some x -> P x = P' x) -> count P m = count P' m.
Proof.
  intros He. unfold count. do 2 f_equal. apply map_filter_ext. intros k x Hk. cbn. by rewrite (He k x Hk).
Qed.

Lemma count_pos P m k x : m !! k = Some x -> P x = true -> 0 < count P m.
Proof. intros Hk HP. pose proof (count_delete P m k x Hk) as Hd. rewrite HP in Hd. pose proof (count_nonneg P (delete k m)). lia. Qed.

Lemma count_zero P m k x : count P m = 0 -> m !! k = Some x -> P x = false.
Proof. intros H0 Hk. destruct (P x) eqn:HP; [|done]. pose proof (count_pos P m k x Hk HP). lia. Qed.

Lemma count_size P m : count P m <= Z.of_nat (size m).
Proof.
  induction m as [|k x m Hk IH] using map_ind; [by rewrite count_empty|].
  rewrite count_new, map_size_insert_None by done. destruct (P x); lia.
Qed.

Lemma count_none P m : (forall k x, m !! k = Some x -> P x = false) -> count P m = 0.
Proof.
  induction m as [|k x m Hk IH] using map_ind; intros Hm; [apply count_empty|]. rewrite count_new by done.
  rewrite (Hm k x) by apply lookup_insert_eq. rewrite IH; [done|]. intros k' y Hy. apply (Hm k'). rewrite lookup_insert_ne; [done|congruence].
Qed.
End counts.

End Counts.

(** What the kernel's events promise to the libraries that wait on them. *)
Module EventLib.

(** One event that stays signaled until it is unsignaled ([flags] is 0), in a
    system of type [K], and [thread_preempt].  [ev_wait] is [true] when the wait
    returns at once and [false] when it leaves the thread on the wait queue. *)
Class EventOps (K : Type) := {
  ev_init : M K unit;
  ev_signal : bool -> M K Z;
  ev_unsignal : M K Z;
  ev_wait : M K bool;
  ev_preempt : M K unit;
  (** before [event_init], and after *)
  ev_absent : K -> Prop;
  ev_ok : K -> Prop;
  ev_signaled : K -> bool;
  (** the current thread may be descheduled *)
  ev_may_switch : K -> Prop;
}.

Class EventLaws (K : Type) `{EventOps K} := {
  ev_init_ok (k : K) : ev_absent k -> wp ev_init k (fun _ k' => ev_ok k' /\ ev_signaled k' = false);
  ev_signal_ok (k : K) b : ev_ok k -> (b = true -> ev_may_switch k) ->
    wp (ev_signal b) k (fun _ k' => ev_ok k' /\ ev_signaled k' = true);
  ev_unsignal_ok (k : K) : ev_ok k -> wp ev_unsignal k (fun _ k' => ev_ok k' /\ ev_signaled k' = false);
  ev_wait_ok (k : K) : ev_ok k -> ev_may_switch k ->
    wp ev_wait k (fun r k' => ev_ok k' /\ r = ev_signaled k /\ ev_signaled k' = ev_signaled k /\ (r = true -> k' = k));
  ev_preempt_ok (k : K) : ev_ok k -> wp ev_preempt k (fun _ k' => ev_ok k' /\ ev_signaled k' = ev_signaled k);
}.

End EventLib.
