(* ===== verification/IList.v ===== *)
(** The intrusive circular doubly linked lists of [include/list.h], on a heap
    of [struct list_node]s, and the proof that they implement finite sequences.
    The other components use sequences for the lists they keep. *)
From S2P Require Import Prelude.
Local Open Scope nat_scope.

Module IList.

(** * The nodes *)

(** Addresses; [NULL] is 0. *)
Abbreviation loc := nat.
Definition NULL : loc := 0.

Record list_node := Node { prev : loc; next : loc }.

Abbreviation heap := (gmap loc list_node).
Abbreviation HM := (M heap).

Definition set_prev (v : loc) (n : list_node) : list_node := Node v (next n).
Definition set_next (v : loc) (n : list_node) : list_node := Node (prev n) v.

(** [a->prev], [a->next] and the assignments to them. *)
Definition load (a : loc) : HM list_node := deref (fun h => h !! a).
Definition load_prev (a : loc) : HM loc := n ← load a; mret (prev n).
Definition load_next (a : loc) : HM loc := n ← load a; mret (next n).
Definition store_prev (a v : loc) : HM unit :=
  n ← load a; modify (<[a := set_prev v n]>).
Definition store_next (a v : loc) : HM unit :=
  n ← load a; modify (<[a := set_next v n]>).

(** * The operations *)

Definition list_initialize (l : loc) : HM unit :=
  _ ← store_next l l; store_prev l l.

Definition list_clear_node (item : loc) : HM unit :=
  _ ← store_next item NULL; store_prev item NULL.

Definition list_in_list (item : loc) : HM bool :=
  p ← load_prev item;
  n ← load_next item;
  mret (negb ((p =? NULL) && (n =? NULL))).

Definition list_add_head (l item : loc) : HM unit :=
  n ← load_next l;
  _ ← store_next item n;
  _ ← store_prev item l;
  n ← load_next l;
  _ ← store_prev n item;
  store_next l item.

Definition list_add_after : loc -> loc -> HM unit := list_add_head.

Definition list_add_tail (l item : loc) : HM unit :=
  p ← load_prev l;
  _ ← store_prev item p;
  _ ← store_next item l;
  p ← load_prev l;
  _ ← store_next p item;
  store_prev l item.

Definition list_add_before : loc -> loc -> HM unit := list_add_tail.

Definition list_delete (item : loc) : HM unit :=
  n ← load_next item;
  p ← load_prev item;
  _ ← store_prev n p;
  p ← load_prev item;
  n ← load_next item;
  _ ← store_next p n;
  _ ← store_next item NULL;
  store_prev item NULL.

Definition list_remove_head (l : loc) : HM loc :=
  n ← load_next l;
  if n =? l then mret NULL
  else item ← load_next l; _ ← list_delete item; mret item.

Definition list_remove_tail (l : loc) : HM loc :=
  p ← load_prev l;
  if p =? l then mret NULL
  else item ← load_prev l; _ ← list_delete item; mret item.

Definition list_peek_head (l : loc) : HM loc :=
  n ← load_next l; if n =? l then mret NULL else mret n.

Definition list_peek_tail (l : loc) : HM loc :=
  p ← load_prev l; if p =? l then mret NULL else mret p.

Definition list_prev (l item : loc) : HM loc :=
  p ← load_prev item; if p =? l then mret NULL else mret p.

Definition list_next (l item : loc) : HM loc :=
  n ← load_next item; if n =? l then mret NULL else mret n.

(** The wrapping variants step over the list head. *)
Definition list_prev_wrap (l item : loc) : HM loc :=
  p ← load_prev item;
  if p =? l
  then pp ← load_prev p; if pp =? l then mret NULL else mret pp
  else mret p.

Definition list_next_wrap (l item : loc) : HM loc :=
  n ← load_next item;
  if n =? l
  then nn ← load_next n; if nn =? l then mret NULL else mret nn
  else mret n.

Definition list_is_empty (l : loc) : HM bool :=
  n ← load_next l; mret (n =? l).

(** [list_for_every]: the nodes from [node] up to the head, in order. *)
Fixpoint list_for_every (fuel : nat) (l node : loc) : HM (list loc) :=
  match fuel with
  | 0 => fault
  | S fuel =>
      if node =? l then mret []
      else n ← load_next node; rest ← list_for_every fuel l n; mret (node :: rest)
  end.

Definition list_length (fuel : nat) (l : loc) : HM nat :=
  n ← load_next l; xs ← list_for_every fuel l n; mret (length xs).

(** * Links

    A heap is read through its two link functions; a store is an update of one
    of them.  [linked h xs] says consecutive nodes of [xs] point at each other. *)

Definition nxt (h : heap) (a : loc) : option loc := next <$> h !! a.
Definition prv (h : heap) (a : loc) : option loc := prev <$> h !! a.

Fixpoint linked (h : heap) (xs : list loc) : Prop :=
  match xs with
  | a :: (b :: _) as t => nxt h a = Some b /\ prv h b = Some a /\ linked h t
  | _ => True
  end.

Arguments linked _ !_ : simpl nomatch.

(** [list_repr h l xs]: the list headed by the node [l] holds [xs]. *)
Definition list_repr (h : heap) (l : loc) (xs : list loc) : Prop :=
  h !! NULL = None /\ NoDup (l :: xs) /\ linked h (l :: xs ++ [l]).

(** [same_outside h h' S]: no link of a node outside [S] changed. *)
Definition same_outside (h h' : heap) (S : list loc) : Prop :=
  forall x, x ∉ S -> nxt h' x = nxt h x /\ prv h' x = prv h x.

(** [in_list h x]: the node's links are not both cleared. *)
Definition in_list (h : heap) (x : loc) : Prop :=
  exists n, h !! x = Some n /\ (prev n ≠ NULL \/ next n ≠ NULL).

Lemma nxt_prv_dom h a : is_Some (nxt h a) <-> is_Some (prv h a).
Proof. unfold nxt, prv. by rewrite !fmap_is_Some. Qed.

Lemma nxt_None h a : h !! a = None <-> nxt h a = None.
Proof. unfold nxt. by rewrite fmap_None. Qed.

Lemma wp_load_next a h Q : wp (load_next a) h Q <-> exists v, nxt h a = Some v /\ Q v h.
Proof.
  unfold load_next, load, nxt. wp_step. split.
  - intros (n & -> & HQ). eauto.
  - intros (v & Hv & HQ). apply fmap_Some in Hv as (n & -> & ->). eauto.
Qed.

Lemma wp_load_prev a h Q : wp (load_prev a) h Q <-> exists v, prv h a = Some v /\ Q v h.
Proof.
  unfold load_prev, load, prv. wp_step. split.
  - intros (n & -> & HQ). eauto.
  - intros (v & Hv & HQ). apply fmap_Some in Hv as (n & -> & ->). eauto.
Qed.

Lemma wp_store_next a v h (Q : unit -> heap -> Prop) :
  is_Some (nxt h a) ->
  (forall h', (forall x, nxt h' x = if decide (x = a) then Some v else nxt h x) ->
     (forall x, prv h' x = prv h x) -> Q tt h') ->
  wp (store_next a v) h Q.
Proof.
  unfold store_next, load. intros [w Hw] HQ. wp_step.
  apply fmap_Some in Hw as (n & Hn & ->). exists n. split; [done|]. wp_step.
  apply HQ; intros x; unfold nxt, prv; rewrite lookup_insert;
    destruct (decide (a = x)) as [->|]; rewrite ?decide_True, ?decide_False by done;
    try done. by rewrite Hn.
Qed.

Lemma wp_store_prev a v h (Q : unit -> heap -> Prop) :
  is_Some (nxt h a) ->
  (forall h', (forall x, prv h' x = if decide (x = a) then Some v else prv h x) ->
     (forall x, nxt h' x = nxt h x) -> Q tt h') ->
  wp (store_prev a v) h Q.
Proof.
  unfold store_prev, load. intros [w Hw] HQ. wp_step.
  apply fmap_Some in Hw as (n & Hn & ->). exists n. split; [done|]. wp_step.
  apply HQ; intros x; unfold nxt, prv; rewrite lookup_insert;
    destruct (decide (a = x)) as [->|]; rewrite ?decide_True, ?decide_False by done;
    try done. by rewrite Hn.
Qed.

Lemma linked_app h xs a ys :
  linked h (xs ++ a :: ys) <-> linked h (xs ++ [a]) /\ linked h (a :: ys).
Proof.
  induction xs as [|x xs IH]; [simpl; tauto|].
  destruct xs as [|b xs]; simpl in *; [tauto|]. rewrite IH. tauto.
Qed.

(** Links into and out of the sequence are all that [linked] reads. *)
Lemma linked_ext h h' xs a :
  (forall x, x ∈ xs -> nxt h' x = nxt h x) ->
  (forall x, x ∈ tail (xs ++ [a]) -> prv h' x = prv h x) ->
  linked h (xs ++ [a]) -> linked h' (xs ++ [a]).
Proof.
  induction xs as [|x xs IH]; [done|]. intros Hn Hp.
  destruct xs as [|b xs]; simpl in *.
  - intros (? & ? & _). rewrite Hn, Hp by set_solver. done.
  - intros (? & ? & ?). rewrite Hn, Hp by set_solver. split_and!; [done..|].
    apply IH; [set_solver| |done]. intros; apply Hp; set_solver.
Qed.

Lemma list_repr_head h l xs :
  list_repr h l xs -> exists y ys, xs ++ [l] = y :: ys /\ nxt h l = Some y /\ prv h y = Some l.
Proof.
  intros (_ & _ & Hl). destruct xs as [|x xs]; simpl in *; naive_solver.
Qed.

Lemma list_repr_NULL h l xs x : list_repr h l xs -> x ∈ l :: xs -> x ≠ NULL.
Proof.
  intros (H0 & _ & Hl) Hx ->. apply nxt_None in H0.
  assert (is_Some (nxt h NULL)) as [? ?]; [|congruence].
  apply list_elem_of_split in Hx as (l1 & l2 & E).
  rewrite app_comm_cons, E, <- app_assoc in Hl. simpl in Hl.
  apply linked_app in Hl as [_ Hl]. destruct l2; simpl in Hl; naive_solver.
Qed.

(** The ring of a list may be cut at any of its nodes. *)
Lemma list_repr_rotate h l ys e zs :
  list_repr h l (ys ++ e :: zs) -> list_repr h e (zs ++ l :: ys).
Proof.
  intros (H0 & Hnd & Hl). split_and!; [done| |].
  - revert Hnd. rewrite !NoDup_cons, !NoDup_app, !NoDup_cons. set_solver.
  - rewrite <- !app_assoc, app_comm_cons in Hl. apply linked_app in Hl as [H1 H2].
    rewrite <- app_assoc. change (linked h ((e :: zs) ++ l :: (ys ++ [e]))).
    by apply linked_app.
Qed.

Lemma linked_ring h l xs :
  linked h (l :: xs ++ [l]) <->
  exists n ns, xs ++ [l] = n :: ns /\ nxt h l = Some n /\ prv h n = Some l
            /\ linked h (xs ++ [l]).
Proof.
  split.
  - destruct xs as [|x xs]; simpl.
    + intros (? & ? & _). by exists l, [].
    + intros (? & ? & ?). by exists x, (xs ++ [l]).
  - intros (n & ns & E & ? & ? & Hl). rewrite E in *. done.
Qed.

Lemma elem_of_head {A} (x y : A) xs ys a :
  xs ++ [a] = y :: ys -> x ∈ tail (xs ++ [a]) -> NoDup (xs ++ [a]) -> x ≠ y.
Proof. intros E. rewrite E. simpl. rewrite NoDup_cons. set_solver. Qed.

Lemma NoDup_snoc {A} (x : A) xs : NoDup (x :: xs) <-> NoDup (xs ++ [x]).
Proof. rewrite NoDup_app_cons, NoDup_cons, app_nil_r. done. Qed.

Lemma elem_of_ring {A} (l n : A) xs ns : xs ++ [l] = n :: ns -> n ∈ l :: xs.
Proof.
  intros E. assert (n ∈ xs ++ [l]) as Hn by (rewrite E; left). revert Hn. clear. set_solver.
Qed.

Lemma elem_of_ring_tail {A} (l x : A) xs : x ∈ tail (xs ++ [l]) -> x ∈ l :: xs.
Proof. destruct xs; simpl; set_solver. Qed.

(** [item] is spliced in between [l] and its successor. *)
Lemma splice_head h h' l item xs n ns :
  list_repr h l xs -> item ∉ l :: xs -> xs ++ [l] = n :: ns ->
  h' !! NULL = None ->
  (forall x, nxt h' x = if decide (x = l) then Some item
                        else if decide (x = item) then Some n else nxt h x) ->
  (forall x, prv h' x = if decide (x = n) then Some item
                        else if decide (x = item) then Some l else prv h x) ->
  list_repr h' l (item :: xs).
Proof.
  intros (H0 & Hnd & Hl) Hi E H0' Hn Hp.
  pose proof (elem_of_ring _ _ _ _ E) as Hnl.
  assert (l ≠ item) by (clear -Hi; set_solver).
  assert (n ≠ item) by (intros ->; done).
  assert (NoDup (xs ++ [l])) as Hnd' by by apply NoDup_snoc.
  split_and!; [done| |].
  { clear -Hnd Hi. rewrite !NoDup_cons in *. set_solver. }
  apply linked_ring in Hl as (n' & ns' & E' & _ & _ & Hl).
  rewrite E in E'. injection E' as <- <-.
  replace (l :: (item :: xs) ++ [l]) with (l :: item :: n :: ns) by (simpl; by rewrite E).
  cbn [linked].
  split_and!; [rewrite ?Hn, ?Hp; repeat case_decide; congruence..|].
  rewrite <- E. apply linked_ext with h; [| |done].
  - intros x Hx. rewrite Hn, !decide_False; [done|clear -Hi Hx; set_solver|].
    intros ->. apply NoDup_cons in Hnd as [? _]. done.
  - intros x Hx. rewrite Hp, !decide_False; [done| |by eapply elem_of_head].
    intros ->. by apply elem_of_ring_tail in Hx.
Qed.

Lemma is_Some_node h l xs x : list_repr h l xs -> x ∈ l :: xs -> is_Some (nxt h x).
Proof.
  intros (_ & _ & Hl) Hx. apply list_elem_of_split in Hx as (l1 & l2 & E).
  rewrite app_comm_cons, E, <- app_assoc in Hl. simpl in Hl.
  apply linked_app in Hl as [_ Hl]. destruct l2; simpl in Hl; naive_solver.
Qed.

(** [list_add_head]: [item] becomes the first element; no other node changes. *)
Lemma list_add_head_spec h l item xs :
  list_repr h l xs -> item ∉ l :: xs -> item ≠ NULL -> is_Some (h !! item) ->
  wp (list_add_head l item) h (fun _ h' =>
    list_repr h' l (item :: xs) /\ same_outside h h' (item :: l :: xs)).
Proof.
  intros Hr Hi Hi0 Hit. pose proof Hr as (H0 & _).
  destruct (list_repr_head _ _ _ Hr) as (n & ns & E & Hn & Hp).
  pose proof (elem_of_ring _ _ _ _ E) as Hnl.
  assert (l ≠ item) by (clear -Hi; set_solver). assert (n ≠ item) by (intros ->; done).
  assert (is_Some (nxt h item)) by (by unfold nxt; rewrite fmap_is_Some).
  pose proof (is_Some_node _ _ _ _ Hr Hnl).
  unfold list_add_head. wp_step. apply wp_load_next. exists n. split; [done|]. wp_step.
  apply wp_store_next; [done|]. intros h1 Hn1 Hp1. wp_step.
  apply wp_store_prev; [rewrite Hn1, decide_True by done; eauto|]. intros h2 Hp2 Hn2. wp_step.
  apply wp_load_next. exists n. rewrite Hn2, Hn1, decide_False by done. split; [done|]. wp_step.
  apply wp_store_prev; [rewrite Hn2, Hn1, decide_False by done; done|].
  intros h3 Hp3 Hn3. wp_step.
  apply wp_store_next; [rewrite Hn3, Hn2, Hn1, decide_False, Hn by done; eauto|].
  intros h4 Hn4 Hp4.
  assert (forall x, nxt h4 x = if decide (x = l) then Some item
                 else if decide (x = item) then Some n else nxt h x) as Hn'.
  { intros x. by rewrite Hn4, Hn3, Hn2, Hn1. }
  assert (forall x, prv h4 x = if decide (x = n) then Some item
                 else if decide (x = item) then Some l else prv h x) as Hp'.
  { intros x. by rewrite Hp4, Hp3, Hp2, Hp1. }
  split.
  - apply splice_head with h n ns; try done.
    apply nxt_None. rewrite Hn', !decide_False; [by apply nxt_None|done|].
    intros E0. symmetry in E0. revert E0. apply (list_repr_NULL h l xs); [done|left].
  - intros x Hx. rewrite Hn', Hp', !decide_False; [done|..]; intros ->; clear -Hx Hnl; set_solver.
Qed.

(** The element [item] in front of the list is unlinked. *)
Lemma unsplice_head h h' p item xs n ns :
  list_repr h p (item :: xs) -> xs ++ [p] = n :: ns -> h' !! NULL = None ->
  (forall x, x ≠ item -> nxt h' x = if decide (x = p) then Some n else nxt h x) ->
  (forall x, x ≠ item -> prv h' x = if decide (x = n) then Some p else prv h x) ->
  list_repr h' p xs.
Proof.
  intros (H0 & Hnd & Hl) E H0' Hn Hp.
  pose proof (elem_of_ring _ _ _ _ E) as Hnl.
  rewrite !NoDup_cons, not_elem_of_cons in Hnd. destruct Hnd as ((Hpi & Hpx) & Hix & Hnd).
  assert (n ≠ item) by (intros ->; clear -Hnl Hpi Hix; set_solver).
  split_and!; [done|by apply NoDup_cons|].
  apply linked_ring. exists n, ns. rewrite Hn, Hp, !decide_True by done.
  split_and!; [done..|].
  simpl in Hl. rewrite E in Hl. destruct Hl as (_ & _ & _ & _ & Hl). rewrite <- E in Hl.
  apply linked_ext with h; [| |done].
  - intros x Hx. rewrite Hn, decide_False; [done|..]; intros ->; done.
  - intros x Hx. rewrite Hp, decide_False; [done| |].
    + eapply elem_of_head; [done..|]. apply NoDup_snoc, NoDup_cons. done.
    + intros ->. apply elem_of_ring_tail in Hx. clear -Hx Hpi Hix. set_solver.
Qed.

(** Deleting a node of the ring clears its links and closes the gap. *)
Lemma list_delete_ring h p item xs :
  list_repr h p (item :: xs) ->
  wp (list_delete item) h (fun _ h' =>
    list_repr h' p xs /\ h' !! item = Some (Node NULL NULL) /\
    same_outside h h' (p :: item :: xs)).
Proof.
  intros Hr. pose proof Hr as (H0 & Hnd & Hl).
  destruct (list_repr_head h item (xs ++ [p])) as (n & ns & E & Hn & Hp).
  { apply (list_repr_rotate h p []) in Hr. done. }
  assert (nxt h p = Some item /\ prv h item = Some p) as [Hnp Hpi] by (simpl in Hl; tauto).
  assert (exists ns', xs ++ [p] = n :: ns') as [ns' E'].
  { destruct xs; simplify_eq/=; eauto. }
  pose proof (elem_of_ring _ _ _ _ E') as Hnl.
  rewrite !NoDup_cons, not_elem_of_cons in Hnd. destruct Hnd as ((Hpi' & Hpx) & Hix & Hnd).
  assert (n ≠ item) by (intros ->; clear -Hnl Hpi' Hix; set_solver).
  assert (is_Some (nxt h n)).
  { eapply is_Some_node; [done|]. clear -Hnl. set_solver. }
  unfold list_delete. wp_step. apply wp_load_next. exists n. split; [done|]. wp_step.
  apply wp_load_prev. exists p. split; [done|]. wp_step.
  apply wp_store_prev; [done|]. intros h1 Hp1 Hn1. wp_step.
  apply wp_load_prev. exists p. rewrite Hp1, decide_False by done. split; [done|]. wp_step.
  apply wp_load_next. exists n. rewrite Hn1. split; [done|]. wp_step.
  apply wp_store_next; [rewrite Hn1; eauto|]. intros h2 Hn2 Hp2. wp_step.
  apply wp_store_next; [rewrite Hn2, Hn1, decide_False by done; eauto|]. intros h3 Hn3 Hp3.
  apply wp_store_prev; [rewrite Hn3, decide_True by done; eauto|]. intros h4 Hp4 Hn4.
  assert (forall x, nxt h4 x = if decide (x = item) then Some NULL
             else if decide (x = p) then Some n else nxt h x) as Hn'.
  { intros x. by rewrite Hn4, Hn3, Hn2, Hn1. }
  assert (forall x, prv h4 x = if decide (x = item) then Some NULL
             else if decide (x = n) then Some p else prv h x) as Hp'.
  { intros x. by rewrite Hp4, Hp3, Hp2, Hp1. }
  split_and!.
  - apply unsplice_head with h item n ns'; try done.
    + apply nxt_None. rewrite Hn', !decide_False; [by apply nxt_None|..];
        intros <-; eapply list_repr_NULL; try exact Hr; try done; clear; set_solver.
    + intros x Hx. by rewrite Hn', decide_False.
    + intros x Hx. by rewrite Hp', decide_False.
  - specialize (Hn' item). specialize (Hp' item). rewrite decide_True in Hn', Hp' by done.
    unfold nxt, prv in Hn', Hp'. destruct (h4 !! item) as [[]|]; simplify_eq/=. done.
  - intros x Hx. rewrite Hn', Hp', !decide_False; [done|..]; intros ->; clear -Hx Hnl; set_solver.
Qed.

(** [list_delete] removes exactly [item], wherever it is. *)
Lemma list_delete_spec h l item ys zs :
  list_repr h l (ys ++ item :: zs) ->
  wp (list_delete item) h (fun _ h' =>
    list_repr h' l (ys ++ zs) /\ h' !! item = Some (Node NULL NULL) /\
    same_outside h h' (l :: ys ++ item :: zs)).
Proof.
  intros Hr. destruct ys as [|p ys _] using rev_ind.
  { eapply wp_mono; [by apply list_delete_ring|]. done. }
  rewrite <- app_assoc in Hr. apply list_repr_rotate in Hr.
  eapply wp_mono; [by apply list_delete_ring|]. intros _ h' (Hr' & Hc & Hs). split_and!.
  - apply list_repr_rotate in Hr'. by rewrite <- app_assoc.
  - done.
  - intros x Hx. apply Hs. clear -Hx. set_solver.
Qed.

(** [list_add_tail]: [item] becomes the last element. *)
Lemma list_add_tail_spec h l item xs :
  list_repr h l xs -> item ∉ l :: xs -> item ≠ NULL -> is_Some (h !! item) ->
  wp (list_add_tail l item) h (fun _ h' =>
    list_repr h' l (xs ++ [item]) /\ same_outside h h' (item :: l :: xs)).
Proof.
  intros Hr Hi Hi0 Hit.
  assert (exists p ys, list_repr h p ys /\ item ∉ p :: ys /\ p ∈ l :: xs /\
    (exists ns, ys ++ [p] = l :: ns) /\
    (forall h', list_repr h' p (item :: ys) -> list_repr h' l (xs ++ [item])))
    as (p & ys & Hr' & Hi' & Hpl & (ns & E) & Hback).
  { destruct xs as [|p xs _] using rev_ind; [exists l, []; split_and!; eauto; by left|].
    exists p, (l :: xs). apply list_repr_rotate in Hr. split_and!; eauto.
    - clear -Hi. set_solver.
    - clear. set_solver.
    - intros h' Hr'. apply (list_repr_rotate h' p [item]) in Hr'.
      by rewrite <- app_assoc. }
  clear Hr. destruct (list_repr_head _ _ _ Hr') as (n & ns' & E' & Hn & Hp).
  rewrite E in E'. simplify_eq. pose proof Hr' as (H0 & _).
  pose proof (elem_of_ring _ _ _ _ E) as Hln.
  assert (p ≠ item) by (clear -Hi'; set_solver). assert (n ≠ item) by (intros ->; done).
  assert (is_Some (nxt h item)) by (by unfold nxt; rewrite fmap_is_Some).
  pose proof (is_Some_node _ _ _ _ Hr' Hln).
  unfold list_add_tail. wp_step. apply wp_load_prev. exists p. split; [done|]. wp_step.
  apply wp_store_prev; [done|]. intros h1 Hp1 Hn1. wp_step.
  apply wp_store_next; [rewrite Hn1; done|]. intros h2 Hn2 Hp2. wp_step.
  apply wp_load_prev. exists p. rewrite Hp2, Hp1, decide_False by done. split; [done|]. wp_step.
  apply wp_store_next; [rewrite Hn2, Hn1, decide_False, Hn by done; eauto|].
  intros h3 Hn3 Hp3. wp_step.
  apply wp_store_prev; [rewrite Hn3, Hn2, Hn1; case_decide; [|rewrite decide_False by done]; eauto|].
  intros h4 Hp4 Hn4.
  assert (forall x, nxt h4 x = if decide (x = p) then Some item
                 else if decide (x = item) then Some n else nxt h x) as Hn'.
  { intros x. by rewrite Hn4, Hn3, Hn2, Hn1. }
  assert (forall x, prv h4 x = if decide (x = n) then Some item
                 else if decide (x = item) then Some p else prv h x) as Hp'.
  { intros x. by rewrite Hp4, Hp3, Hp2, Hp1. }
  split.
  - apply Hback. apply splice_head with h n ns'; try done.
    apply nxt_None. rewrite Hn', !decide_False; [by apply nxt_None|done|].
    intros E0. symmetry in E0. revert E0. apply (list_repr_NULL h p ys); [done|left].
  - intros x Hx. rewrite Hn', Hp', !decide_False; [done|..]; intros ->; clear -Hx Hpl; set_solver.
Qed.

(** * Operations as steps on sequences *)

Inductive list_op :=
  | AddHead (item : loc) | AddTail (item : loc)
  | AddAfter (e item : loc) | AddBefore (e item : loc)
  | Delete (item : loc) | RemoveHead | RemoveTail
  | PeekHead | PeekTail | Next (item : loc) | Prev (item : loc)
  | NextWrap (item : loc) | PrevWrap (item : loc) | IsEmpty | Length.

Inductive rval := RUnit | RLoc (x : loc) | RBool (b : bool) | RNat (n : nat).

Definition run_op (l : loc) (fuel : nat) (op : list_op) : HM rval :=
  match op with
  | AddHead i => _ ← list_add_head l i; mret RUnit
  | AddTail i => _ ← list_add_tail l i; mret RUnit
  | AddAfter e i => _ ← list_add_after e i; mret RUnit
  | AddBefore e i => _ ← list_add_before e i; mret RUnit
  | Delete i => _ ← list_delete i; mret RUnit
  | RemoveHead => x ← list_remove_head l; mret (RLoc x)
  | RemoveTail => x ← list_remove_tail l; mret (RLoc x)
  | PeekHead => x ← list_peek_head l; mret (RLoc x)
  | PeekTail => x ← list_peek_tail l; mret (RLoc x)
  | Next i => x ← list_next l i; mret (RLoc x)
  | Prev i => x ← list_prev l i; mret (RLoc x)
  | NextWrap i => x ← list_next_wrap l i; mret (RLoc x)
  | PrevWrap i => x ← list_prev_wrap l i; mret (RLoc x)
  | IsEmpty => b ← list_is_empty l; mret (RBool b)
  | Length => n ← list_length fuel l; mret (RNat n)
  end.

(** The first element of a sequence, [NULL] when there is none. *)
Definition hd_loc (xs : list loc) : loc := default NULL (head xs).

(** What each operation means for the sequence. *)
Inductive list_spec : list_op -> list loc -> rval -> list loc -> Prop :=
  | spec_add_head i xs : list_spec (AddHead i) xs RUnit (i :: xs)
  | spec_add_tail i xs : list_spec (AddTail i) xs RUnit (xs ++ [i])
  | spec_add_after e i ys zs :
      list_spec (AddAfter e i) (ys ++ e :: zs) RUnit (ys ++ e :: i :: zs)
  | spec_add_before e i ys zs :
      list_spec (AddBefore e i) (ys ++ e :: zs) RUnit (ys ++ i :: e :: zs)
  | spec_delete i ys zs : list_spec (Delete i) (ys ++ i :: zs) RUnit (ys ++ zs)
  | spec_remove_head xs : list_spec RemoveHead xs (RLoc (hd_loc xs)) (tail xs)
  | spec_remove_tail_nil : list_spec RemoveTail [] (RLoc NULL) []
  | spec_remove_tail x xs : list_spec RemoveTail (xs ++ [x]) (RLoc x) xs
  | spec_peek_head xs : list_spec PeekHead xs (RLoc (hd_loc xs)) xs
  | spec_peek_tail xs : list_spec PeekTail xs (RLoc (hd_loc (reverse xs))) xs
  | spec_next i ys zs :
      list_spec (Next i) (ys ++ i :: zs) (RLoc (hd_loc zs)) (ys ++ i :: zs)
  | spec_prev i ys zs :
      list_spec (Prev i) (ys ++ i :: zs) (RLoc (hd_loc (reverse ys))) (ys ++ i :: zs)
  | spec_next_wrap i ys zs :
      list_spec (NextWrap i) (ys ++ i :: zs) (RLoc (hd_loc (zs ++ ys ++ [i]))) (ys ++ i :: zs)
  | spec_prev_wrap i ys zs :
      list_spec (PrevWrap i) (ys ++ i :: zs)
        (RLoc (hd_loc (reverse (i :: zs ++ ys)))) (ys ++ i :: zs)
  | spec_is_empty xs : list_spec IsEmpty xs (RBool (bool_decide (xs = []))) xs
  | spec_length xs : list_spec Length xs (RNat (length xs)) xs.

(** The node an operation links in. *)
Definition new_node (op : list_op) : option loc :=
  match op with
  | AddHead i | AddTail i | AddAfter _ i | AddBefore _ i => Some i
  | _ => None
  end.

(** It is allocated and not already in the list. *)
Definition op_ok (h : heap) (l : loc) (xs : list loc) (op : list_op) : Prop :=
  forall i, new_node op = Some i -> i ∉ l :: xs /\ i ≠ NULL /\ is_Some (h !! i).

(** Links read around the ring. *)
Lemma nxt_ring h l xs y : list_repr h l xs ->
  head (xs ++ [l]) = Some y -> nxt h l = Some y.
Proof.
  intros Hr E. destruct (list_repr_head _ _ _ Hr) as (n & ns & E' & Hn & _).
  rewrite E' in E. by simplify_eq/=.
Qed.

Lemma prv_ring h l xs y : list_repr h l xs ->
  head (reverse (l :: xs)) = Some y -> prv h l = Some y.
Proof.
  intros (_ & _ & Hl) E. destruct xs as [|p xs _] using rev_ind.
  - simpl in *. simplify_eq. naive_solver.
  - rewrite reverse_cons, reverse_app in E. simplify_eq/=.
    rewrite <- app_assoc in Hl. rewrite app_comm_cons in Hl.
    apply linked_app in Hl as [_ Hl]. simpl in Hl. naive_solver.
Qed.

(** Walking from the head collects the elements; [length xs] steps suffice. *)
Lemma list_for_every_spec h l ys zs fuel :
  list_repr h l (ys ++ zs) -> length zs < fuel ->
  forall y, head (zs ++ [l]) = Some y ->
  list_for_every fuel l y h = Some (zs, h).
Proof.
  revert ys fuel. induction zs as [|z zs IH]; intros ys [|fuel] Hr Hf y E; simpl in *; try lia.
  - simplify_eq. by rewrite Nat.eqb_refl.
  - simplify_eq. destruct (Nat.eqb_spec y l) as [->|Hne].
    { destruct Hr as (_ & Hnd & _). apply NoDup_cons in Hnd as [Hnd _]. set_solver. }
    assert (exists m, head (zs ++ [l]) = Some m) as [m Hm] by (destruct zs; simpl; eauto).
    pose proof (list_repr_rotate _ _ _ _ _ Hr) as Hr'.
    assert (nxt h y = Some m) as Hy.
    { eapply nxt_ring; [done|]. destruct zs; simpl in *; congruence. }
    assert (load_next y h = Some (m, h)) as Hload.
    { unfold load_next, load, deref, mbind, M_bind. unfold nxt in Hy.
      destruct (h !! y); by simplify_eq/=. }
    unfold mbind, M_bind. rewrite Hload. rewrite (IH (ys ++ [y]) fuel) with (y:=m); [done| |lia|done].
    by rewrite <- app_assoc.
Qed.

Lemma nxt_elem h l ys i zs : list_repr h l (ys ++ i :: zs) ->
  nxt h i = Some (default l (head zs)).
Proof.
  intros Hr. apply list_repr_rotate in Hr. eapply nxt_ring; [done|]. by destruct zs.
Qed.

Lemma prv_elem h l ys i zs : list_repr h l (ys ++ i :: zs) ->
  prv h i = Some (default l (head (reverse ys))).
Proof.
  intros Hr. apply list_repr_rotate in Hr. eapply prv_ring; [done|].
  rewrite reverse_cons, reverse_app, reverse_cons, <- !app_assoc.
  by destruct (reverse ys).
Qed.

Lemma nxt_head h l xs : list_repr h l xs -> nxt h l = Some (default l (head xs)).
Proof. intros Hr. eapply nxt_ring; [done|]. by destruct xs. Qed.

Lemma prv_head h l xs : list_repr h l xs -> prv h l = Some (default l (head (reverse xs))).
Proof.
  intros Hr. eapply prv_ring; [done|]. rewrite reverse_cons. by destruct (reverse xs).
Qed.

Lemma hd_ne_head h l xs x : list_repr h l xs -> x ∈ xs -> x ≠ l.
Proof. intros (_ & Hnd & _) Hx ->. by apply NoDup_cons in Hnd as [? _]. Qed.

(** Tests against the head address decide emptiness of what is left. *)
Lemma wp_not_head {A} (x l : loc) (m1 m2 : HM A) h Q :
  x ≠ l -> wp m2 h Q -> wp (if x =? l then m1 else m2) h Q.
Proof. intros Hne. by destruct (Nat.eqb_spec x l). Qed.

Lemma wp_is_head {A} (l : loc) (m1 m2 : HM A) h Q :
  wp m1 h Q -> wp (if l =? l then m1 else m2) h Q.
Proof. by rewrite Nat.eqb_refl. Qed.

Lemma list_remove_head_spec h l xs : list_repr h l xs ->
  wp (list_remove_head l) h (fun x h' =>
    x = hd_loc xs /\ list_repr h' l (tail xs) /\ same_outside h h' (l :: xs)).
Proof.
  intros Hr. unfold list_remove_head. wp_step. apply wp_load_next.
  eexists; split; [by apply nxt_head|]. destruct xs as [|x xs]; simpl.
  { apply wp_is_head. wp_step. split_and!; [done..|]. intros ??; done. }
  apply wp_not_head; [eapply hd_ne_head; [done|left]|].
  wp_step. apply wp_load_next. eexists; split; [by apply nxt_head|]. wp_step.
  eapply wp_mono; [by apply (list_delete_spec h l x [] xs)|].
  intros _ h' (? & ? & ?). wp_step. done.
Qed.

Lemma list_remove_tail_spec h l xs x : list_repr h l (xs ++ [x]) ->
  wp (list_remove_tail l) h (fun y h' =>
    y = x /\ list_repr h' l xs /\ same_outside h h' (l :: xs ++ [x])).
Proof.
  intros Hr. unfold list_remove_tail. wp_step. apply wp_load_prev.
  eexists; split; [by apply prv_head|]. rewrite reverse_app. simpl.
  apply wp_not_head; [eapply hd_ne_head; [done|]; clear; set_solver|].
  wp_step. apply wp_load_prev. eexists; split; [by apply prv_head|].
  rewrite reverse_app. simpl. wp_step.
  eapply wp_mono; [by apply (list_delete_spec h l x xs [])|].
  intros _ h' (Hr' & ? & ?). wp_step. rewrite app_nil_r in Hr'. done.
Qed.

Lemma wp_exact {A} (m : HM A) h a :
  wp m h (fun r h' => r = a /\ h' = h) <-> m h = Some (a, h).
Proof.
  rewrite wp_run. split; [by intros (? & ? & -> & -> & ->)|]. intros ->. eauto.
Qed.

(** Follow one link; decide whether it reached the list head. *)
Ltac follow :=
  wp_step; first [apply wp_load_next | apply wp_load_prev]; eexists;
  split; [first [by eapply nxt_head | by eapply prv_head
                | by eapply nxt_elem | by eapply prv_elem]|].
Ltac off_head :=
  apply wp_not_head; [eapply hd_ne_head; [done|]; clear; set_solver|]; by wp_step.

Lemma list_peek_head_spec h l xs : list_repr h l xs ->
  list_peek_head l h = Some (hd_loc xs, h).
Proof.
  intros Hr. apply wp_exact. unfold list_peek_head. follow.
  destruct xs as [|x xs]; simpl; [by apply wp_is_head|off_head].
Qed.

Lemma list_peek_tail_spec h l xs : list_repr h l xs ->
  list_peek_tail l h = Some (hd_loc (reverse xs), h).
Proof.
  intros Hr. apply wp_exact. unfold list_peek_tail. follow.
  destruct xs as [|x xs _] using rev_ind; [by apply wp_is_head|].
  rewrite reverse_app. simpl. off_head.
Qed.

Lemma list_next_spec h l ys i zs : list_repr h l (ys ++ i :: zs) ->
  list_next l i h = Some (hd_loc zs, h).
Proof.
  intros Hr. apply wp_exact. unfold list_next. follow.
  destruct zs as [|z zs]; simpl; [by apply wp_is_head|off_head].
Qed.

Lemma list_prev_spec h l ys i zs : list_repr h l (ys ++ i :: zs) ->
  list_prev l i h = Some (hd_loc (reverse ys), h).
Proof.
  intros Hr. apply wp_exact. unfold list_prev. follow.
  destruct ys as [|y ys _] using rev_ind; simpl; [by apply wp_is_head|].
  rewrite reverse_app. simpl. off_head.
Qed.

Lemma list_next_wrap_spec h l ys i zs : list_repr h l (ys ++ i :: zs) ->
  list_next_wrap l i h = Some (hd_loc (zs ++ ys ++ [i]), h).
Proof.
  intros Hr. apply wp_exact. unfold list_next_wrap. follow.
  destruct zs as [|z zs]; simpl; [|off_head]. apply wp_is_head. follow.
  destruct ys as [|y ys]; simpl; off_head.
Qed.

Lemma list_prev_wrap_spec h l ys i zs : list_repr h l (ys ++ i :: zs) ->
  list_prev_wrap l i h = Some (hd_loc (reverse (i :: zs ++ ys)), h).
Proof.
  intros Hr. apply wp_exact. unfold list_prev_wrap. follow.
  destruct ys as [|y ys _] using rev_ind; simpl.
  - apply wp_is_head. follow. rewrite app_nil_l, app_nil_r.
    destruct zs as [|z zs _] using rev_ind; simpl; [off_head|].
    rewrite app_comm_cons, reverse_app. simpl. off_head.
  - rewrite app_comm_cons, app_assoc, !reverse_app. simpl. off_head.
Qed.

Lemma list_is_empty_spec h l xs : list_repr h l xs ->
  list_is_empty l h = Some (bool_decide (xs = []), h).
Proof.
  intros Hr. apply wp_exact. unfold list_is_empty. follow. wp_step. split; [|done].
  destruct xs as [|x xs]; simpl; [by rewrite Nat.eqb_refl|].
  apply Nat.eqb_neq. eapply hd_ne_head; [done|left].
Qed.

Lemma list_length_spec h l xs fuel : list_repr h l xs -> length xs < fuel ->
  list_length fuel l h = Some (length xs, h).
Proof.
  intros Hr Hf. apply wp_exact. unfold list_length. follow. wp_step.
  unfold wp. rewrite (list_for_every_spec h l [] xs); [|done..|by destruct xs].
  by split.
Qed.

Lemma same_outside_weaken h h' xs ys :
  same_outside h h' xs -> (forall x, x ∈ xs -> x ∈ ys) -> same_outside h h' ys.
Proof. intros Hs Hsub x Hx. apply Hs. eauto. Qed.

Lemma same_outside_refl h xs : same_outside h h xs.
Proof. by intros x _. Qed.

(** A read-only operation: its result is [v] and the heap is unchanged. *)
Lemma run_read {A} (m : HM A) (f : A -> rval) h v Q :
  m h = Some (v, h) -> Q (f v) h -> wp (x ← m; mret (f x)) h Q.
Proof. intros Hm HQ. apply wp_bind. unfold wp. by rewrite Hm. Qed.

(** An update: its postcondition is passed on. *)
Lemma run_update {A} (m : HM A) (f : A -> rval) h (P : A -> heap -> Prop) Q :
  wp m h P -> (forall a h', P a h' -> Q (f a) h') -> wp (x ← m; mret (f x)) h Q.
Proof.
  intros Hm HQ. apply wp_bind. eapply wp_mono; [done|]. intros a h' HP. apply wp_ret. eauto.
Qed.

Lemma list_add_after_spec h l ys e zs item :
  list_repr h l (ys ++ e :: zs) -> item ∉ l :: ys ++ e :: zs -> item ≠ NULL ->
  is_Some (h !! item) ->
  wp (list_add_after e item) h (fun _ h' =>
    list_repr h' l (ys ++ e :: item :: zs) /\ same_outside h h' (item :: l :: ys ++ e :: zs)).
Proof.
  intros Hr Hi ??. apply list_repr_rotate in Hr. eapply wp_mono.
  { apply list_add_head_spec; try done. clear -Hi. set_solver. }
  intros _ h' [Hr' Hs]. split.
  - apply (list_repr_rotate h' e (item :: zs)) in Hr'. done.
  - eapply same_outside_weaken; [done|]. clear. set_solver.
Qed.

Lemma list_add_before_spec h l ys e zs item :
  list_repr h l (ys ++ e :: zs) -> item ∉ l :: ys ++ e :: zs -> item ≠ NULL ->
  is_Some (h !! item) ->
  wp (list_add_before e item) h (fun _ h' =>
    list_repr h' l (ys ++ item :: e :: zs) /\ same_outside h h' (item :: l :: ys ++ e :: zs)).
Proof.
  intros Hr Hi ??. apply list_repr_rotate in Hr. eapply wp_mono.
  { apply list_add_tail_spec; try done. clear -Hi. set_solver. }
  intros _ h' [Hr' Hs]. split.
  - rewrite <- app_assoc in Hr'. apply list_repr_rotate in Hr'. by rewrite <- app_assoc in Hr'.
  - eapply same_outside_weaken; [done|]. clear. set_solver.
Qed.

Lemma not_in_list h i : h !! i = Some (Node NULL NULL) -> ~ in_list h i.
Proof. intros Hi (n & Hn & [?|?]); by simplify_eq/=. Qed.

(** C7. The pointer code of list.h implements finite sequences: on a heap in which the nodes
    of a list are linked as the sequence xs, every operation (add, delete, remove, peek,
    next, previous, is empty, length) returns what the sequence operation returns, leaves
    the list linked as its result, clears the links of the node it deletes, and touches no
    node outside the list. *)
Theorem list_refines h l xs op r xs' fuel :
  list_repr h l xs -> op_ok h l xs op -> length xs < fuel -> list_spec op xs r xs' ->
  wp (run_op l fuel op) h (fun r' h' =>
    r' = r /\ list_repr h' l xs' /\
    (forall i, op = Delete i -> ~ in_list h' i) /\
    same_outside h h' (l :: xs ++ option_list (new_node op))).
Proof.
  intros Hr Hok Hf Hs.
  assert (forall i, new_node op = Some i -> i ∉ l :: xs /\ i ≠ NULL /\ is_Some (h !! i)) as Hnew
    by done.
  destruct Hs; cbn [run_op new_node option_list] in *;
    try (destruct (Hnew _ eq_refl) as (Hi & Hi0 & Hia)); clear Hnew Hok.
  - eapply run_update; [by apply list_add_head_spec|]. intros _ h' [? Hs].
    split_and!; [done..|]. eapply same_outside_weaken; [done|]. clear. set_solver.
  - eapply run_update; [by apply list_add_tail_spec|]. intros _ h' [? Hs].
    split_and!; [done..|]. eapply same_outside_weaken; [done|]. clear. set_solver.
  - eapply run_update; [by apply list_add_after_spec|]. intros _ h' [? Hs].
    split_and!; [done..|]. eapply same_outside_weaken; [done|]. clear. set_solver.
  - eapply run_update; [by apply list_add_before_spec|]. intros _ h' [? Hs].
    split_and!; [done..|]. eapply same_outside_weaken; [done|]. clear. set_solver.
  - eapply run_update; [by apply list_delete_spec|]. intros _ h' (? & ? & Hs).
    split_and!; [done..| |].
    + intros j [= <-]. by apply not_in_list.
    + eapply same_outside_weaken; [done|]. clear. set_solver.
  - eapply run_update; [by apply list_remove_head_spec|]. intros y h' (-> & ? & Hs).
    split_and!; [done..|]. eapply same_outside_weaken; [done|]. clear. set_solver.
  - apply (run_read _ RLoc _ NULL); [|by split_and!; [..|apply same_outside_refl]].
    apply wp_exact. unfold list_remove_tail. follow. by apply wp_is_head.
  - eapply run_update; [by apply list_remove_tail_spec|]. intros y h' (-> & ? & Hs).
    split_and!; [done..|]. eapply same_outside_weaken; [done|]. clear. set_solver.
  - eapply run_read; [by apply list_peek_head_spec|]. split_and!; [done..|apply same_outside_refl].
  - eapply run_read; [by apply list_peek_tail_spec|]. split_and!; [done..|apply same_outside_refl].
  - eapply run_read; [by eapply list_next_spec|]. split_and!; [done..|apply same_outside_refl].
  - eapply run_read; [by eapply list_prev_spec|]. split_and!; [done..|apply same_outside_refl].
  - eapply run_read; [by eapply list_next_wrap_spec|]. split_and!; [done..|apply same_outside_refl].
  - eapply run_read; [by eapply list_prev_wrap_spec|]. split_and!; [done..|apply same_outside_refl].
  - eapply run_read; [by apply list_is_empty_spec|]. split_and!; [done..|apply same_outside_refl].
  - eapply run_read; [by apply list_length_spec|]. split_and!; [done..|apply same_outside_refl].
Qed.

(** A heap with the list [2; 3] headed by node 1 and a cleared node 4. *)
Definition example_heap : heap :=
  {[ 1 := Node 3 2; 2 := Node 1 3; 3 := Node 2 1; 4 := Node NULL NULL ]}.

Lemma example_heap_repr : list_repr example_heap 1 [2; 3].
Proof.
  split_and!; [done| |by cbn; split_and!].
  apply (bool_decide_unpack (NoDup [1; 2; 3])). done.
Qed.

Lemma list_refines_witness :
  wp (run_op 1 3 (AddBefore 3 4)) example_heap (fun r h' =>
    r = RUnit /\ list_repr h' 1 [2; 4; 3] /\ (forall i, AddBefore 3 4 = Delete i -> ~ in_list h' i)
    /\ same_outside example_heap h' [1; 2; 3; 4]).
Proof.
  apply (list_refines example_heap 1 [2; 3] (AddBefore 3 4) RUnit [2; 4; 3] 3).
  - apply example_heap_repr.
  - intros i [= <-]. split_and!; [|done|by eexists].
    apply (bool_decide_unpack (4 ∉ [1; 2; 3])). done.
  - simpl. lia.
  - apply (spec_add_before 3 4 [2] []).
Defined.

End IList.
