(* ===== verification/Timer.v ===== *)
(** The timer queue of [kernel/timer.c]: timer objects, the queue of pending
    timers ordered by wrap-around time, and the one-shot hardware timer it
    programs.  The callbacks run by [timer_tick] act on the whole kernel, so
    [timer_tick] itself is in [Kernel.v]. *)
From Stdlib Require Import Sorted.
From S2P Require Import Prelude.
Local Open Scope Z_scope.

(** * Threads and timers are named by their addresses *)

Abbreviation tid := nat.

(** A timer is a local variable of a thread inside [thread_sleep] or
    [wait_queue_block], or the preemption timer. *)
Inductive timer_id := TmStack (t : tid) | TmPreempt.

#[export] Instance timer_id_eq_dec : EqDecision timer_id.
Proof. solve_decision. Defined.

#[export] Instance timer_id_countable : Countable timer_id.
Proof.
  refine (inj_countable'
    (fun i => match i with TmStack t => inl t | TmPreempt => inr tt end)
    (fun i => match i with inl t => TmStack t | inr tt => TmPreempt end) _).
  by intros [].
Defined.

(** The callbacks the kernel installs. *)
Inductive timer_callback :=
  | thread_sleep_handler_cb | wait_queue_timeout_handler_cb | thread_timer_tick_cb.

#[export] Instance timer_callback_eq_dec : EqDecision timer_callback.
Proof. solve_decision. Defined.

Module Timer.

(** * State *)

Definition TIMER_MAGIC : Z := 0x74696D72.

Record timer_t := MkTimer {
  magic : Z;
  scheduled_time : Z;
  periodic_time : Z;
  callback : option timer_callback;
  arg : tid
}.

(** [timers] holds the timer objects by address and [timer_queue] the nodes of
    the pending list; [hw] is the delay given to [platform_set_oneshot_timer],
    [None] after [platform_stop_timer]; [now] is [current_time()]. *)
Record state := MkState {
  timers : gmap timer_id timer_t;
  timer_queue : list timer_id;
  hw : option Z;
  now : Z
}.

Definition with_timers x s := MkState x (timer_queue s) (hw s) (now s).
Definition with_queue x s := MkState (timers s) x (hw s) (now s).
Definition with_hw x s := MkState (timers s) (timer_queue s) x (now s).
Definition with_now x s := MkState (timers s) (timer_queue s) (hw s) x.

(** [include/sys/types.h]: comparisons of 32-bit times survive wrap-around. *)
Definition TIME_GTE (a b : Z) : bool := 0 <=? s32 (a - b).
Definition TIME_LTE (a b : Z) : bool := s32 (a - b) <=? 0.
Definition TIME_GT (a b : Z) : bool := 0 <? s32 (a - b).
Definition TIME_LT (a b : Z) : bool := s32 (a - b) <? 0.

(** * Operations *)

Definition TIMER_INITIAL_VALUE : timer_t := MkTimer TIMER_MAGIC 0 0 None 0.

Definition timer_initialize (id : timer_id) : M state unit :=
  modify (fun s => with_timers (<[id := TIMER_INITIAL_VALUE]> (timers s)) s).

(** The walk of [insert_timer_in_queue]: before the first entry that is due
    strictly later, else at the end. *)
Fixpoint insert_walk (ts : gmap timer_id timer_t) (id : timer_id) (sched : Z)
    (q : list timer_id) : option (list timer_id) :=
  match q with
  | [] => Some [id]
  | e :: q' =>
      entry ← ts !! e;
      if TIME_GT (scheduled_time entry) sched then Some (id :: e :: q')
      else r ← insert_walk ts id sched q'; Some (e :: r)
  end.

Definition insert_timer_in_queue (id : timer_id) : M state unit :=
  timer ← deref (fun s => timers s !! id);
  q ← deref (fun s => insert_walk (timers s) id (scheduled_time timer) (timer_queue s));
  modify (with_queue q).

Definition list_in_list (id : timer_id) : M state bool :=
  gets (fun s => bool_decide (id ∈ timer_queue s)).

Definition timer_set (id : timer_id) (delay period : Z) (cb : timer_callback) (a : tid) :
    M state unit :=
  timer ← deref (fun s => timers s !! id);
  _ ← assert_ (magic timer =? TIMER_MAGIC);
  linked ← list_in_list id;
  _ ← assert_ (negb linked);
  now ← gets now;
  let timer := MkTimer (magic timer) (u32 (now + delay)) period (Some cb) a in
  _ ← modify (fun s => with_timers (<[id := timer]> (timers s)) s);
  _ ← insert_timer_in_queue id;
  q ← gets timer_queue;
  when (bool_decide (head q = Some id)) (modify (with_hw (Some delay))).

Definition timer_set_oneshot (id : timer_id) (delay : Z) (cb : timer_callback) (a : tid) :
    M state unit :=
  let delay := if delay =? 0 then 1 else delay in
  timer_set id delay 0 cb a.

Definition timer_set_periodic (id : timer_id) (period : Z) (cb : timer_callback) (a : tid) :
    M state unit :=
  let period := if period =? 0 then 1 else period in
  timer_set id period period cb a.

Definition timer_cancel (id : timer_id) : M state unit :=
  timer ← deref (fun s => timers s !! id);
  _ ← assert_ (magic timer =? TIMER_MAGIC);
  oldhead ← gets (fun s => head (timer_queue s));
  _ ← modify (fun s => with_queue (filter (fun x => x ≠ id) (timer_queue s)) s);
  let timer := MkTimer (magic timer) (scheduled_time timer) 0 None 0 in
  _ ← modify (fun s => with_timers (<[id := timer]> (timers s)) s);
  newhead ← gets (fun s => head (timer_queue s));
  match newhead with
  | None => modify (with_hw None)
  | Some h =>
      when (negb (bool_decide (newhead = oldhead)))
        (entry ← deref (fun s => timers s !! h);
         now ← gets now;
         let delay := if TIME_LT (scheduled_time entry) now then 0
                      else u32 (scheduled_time entry - now) in
         modify (with_hw (Some delay)))
  end.

(** * The queue under the clock

    [due s t] is how far ahead of [current_time()] timer [t] fires, negative
    when it is late.  Comparisons are meaningful while all of them lie in a
    window of half the 32-bit range. *)

Definition HALF : Z := 2 ^ 30.

Definition due_of (now : Z) (t : timer_t) : Z := s32 (scheduled_time t - now).
Definition due (s : state) (id : timer_id) : Z :=
  match timers s !! id with Some t => due_of (now s) t | None => 0 end.

Definition in_window (d : Z) : Prop := - HALF <= d < HALF.

Lemma time_cmp now a b :
  in_window (s32 (a - now)) -> in_window (s32 (b - now)) ->
  s32 (a - b) = s32 (a - now) - s32 (b - now).
Proof.
  unfold in_window, HALF. intros Ha Hb.
  destruct (sw_eqm 32 (a - now)) as [k Hk]; [lia|].
  destruct (sw_eqm 32 (b - now)) as [j Hj]; [lia|].
  apply (sw_unique 32 _ _ (j - k)); lia.
Qed.

Lemma due_new now delay t : 0 <= delay < HALF ->
  scheduled_time t = u32 (now + delay) -> due_of now t = delay.
Proof.
  unfold due_of, HALF. intros Hd ->. destruct (uw_eqm 32 (now + delay)) as [k ->]; [lia|].
  apply (sw_unique 32 _ _ k); lia.
Qed.

Lemma due_advance now n t :
  in_window (due_of now t) -> in_window (due_of now t - n) ->
  due_of (u32 (now + n)) t = due_of now t - n.
Proof.
  unfold due_of, in_window, HALF. intros H1 H2.
  destruct (uw_eqm 32 (now + n)) as [k ->]; [lia|].
  destruct (sw_eqm 32 (scheduled_time t - now)) as [j Hj]; [lia|].
  apply (sw_unique 32 _ _ (- j - k)); lia.
Qed.

(** [wf s]: the queue has no repeats, its timers are live objects with a
    callback, they are ordered by due time, and the hardware is programmed for
    the first of them, with nothing programmed when there is none. *)
Record wf (s : state) : Prop := {
  wf_nodup : NoDup (timer_queue s);
  wf_live id : id ∈ timer_queue s ->
    exists t, timers s !! id = Some t /\ magic t = TIMER_MAGIC /\ is_Some (callback t)
              /\ in_window (due_of (now s) t);
  wf_sorted : StronglySorted (fun a b => due s a <= due s b) (timer_queue s);
  wf_hw : hw s = (fun h => Z.max 0 (due s h)) <$> head (timer_queue s)
}.

Lemma wf_due s id : wf s -> id ∈ timer_queue s -> in_window (due s id).
Proof. intros Hwf Hid. destruct (wf_live s Hwf id Hid) as (t & Ht & _ & _ & Hw). unfold due. by rewrite Ht. Qed.

Lemma StronglySorted_impl {A} (R1 R2 : A -> A -> Prop) l :
  (forall a b, a ∈ l -> b ∈ l -> R1 a b -> R2 a b) -> StronglySorted R1 l -> StronglySorted R2 l.
Proof.
  intros Himpl Hs. induction Hs as [|a l Hs IH Hf]; constructor.
  - apply IH. intros x y ??. apply Himpl; by right.
  - rewrite Forall_forall in *. intros x Hx. apply Himpl; [left|by right|by apply Hf].
Qed.

Lemma StronglySorted_filter {A} (R : A -> A -> Prop) (P : A -> Prop) `{forall x, Decision (P x)} l :
  StronglySorted R l -> StronglySorted R (filter P l).
Proof.
  induction 1 as [|a l Hs IH Hf]; [constructor|]. rewrite filter_cons. case_decide; [|done].
  constructor; [done|]. rewrite Forall_forall in *. intros x [_ Hx]%list_elem_of_filter. eauto.
Qed.

(** The walk inserts once, between the entries due earlier or at the same time
    and those due later. *)
Lemma insert_walk_spec ts id sched now q :
  in_window (s32 (sched - now)) ->
  (forall e, e ∈ q -> exists t, ts !! e = Some t /\ in_window (due_of now t)) ->
  StronglySorted (fun a b => forall ta tb, ts !! a = Some ta -> ts !! b = Some tb ->
                              due_of now ta <= due_of now tb) q ->
  exists q1 q2, q = q1 ++ q2 /\ insert_walk ts id sched q = Some (q1 ++ id :: q2) /\
    (forall e t, e ∈ q1 -> ts !! e = Some t -> due_of now t <= s32 (sched - now)) /\
    (forall e t, e ∈ q2 -> ts !! e = Some t -> s32 (sched - now) < due_of now t).
Proof.
  intros Hw Hlive Hs. induction Hs as [|e q Hs IH Hf]; simpl.
  { exists [], []. split_and!; [done..| |]; intros ?? Hin; by apply not_elem_of_nil in Hin. }
  destruct (Hlive e) as (te & He & Hwe); [left|]. rewrite He. simpl.
  unfold TIME_GT. rewrite (time_cmp now) by done. fold (due_of now te).
  destruct (Z.ltb_spec 0 (due_of now te - s32 (sched - now))).
  - exists [], (e :: q). split_and!; [done..| |].
    + intros ?? Hin. by apply not_elem_of_nil in Hin.
    + intros x t [->|Hx]%elem_of_cons Ht; [simplify_eq; lia|].
      rewrite Forall_forall in Hf. specialize (Hf x Hx te t He Ht). lia.
  - destruct IH as (q1 & q2 & -> & -> & Hle & Hgt).
    { intros x Hx. apply Hlive. by right. }
    exists (e :: q1), q2. split_and!; [done..| |done].
    intros x t [->|Hx]%elem_of_cons Ht; [simplify_eq; lia|eauto].
Qed.

(** Sortedness of the queue in [s] is sortedness of its live entries. *)
Lemma sorted_live s :
  (forall e, e ∈ timer_queue s -> is_Some (timers s !! e)) ->
  StronglySorted (fun a b => due s a <= due s b) (timer_queue s) <->
  StronglySorted (fun a b => forall ta tb, timers s !! a = Some ta -> timers s !! b = Some tb ->
                              due_of (now s) ta <= due_of (now s) tb) (timer_queue s).
Proof.
  intros Hlive. split; apply StronglySorted_impl; intros a b Ha Hb Hd.
  - intros ta tb Hta Htb. unfold due in Hd. by rewrite Hta, Htb in Hd.
  - destruct (Hlive a Ha) as [ta Hta], (Hlive b Hb) as [tb Htb].
    unfold due. rewrite Hta, Htb. by apply Hd.
Qed.

Lemma wf_sorted_live s : wf s ->
  StronglySorted (fun a b => forall ta tb, timers s !! a = Some ta -> timers s !! b = Some tb ->
                              due_of (now s) ta <= due_of (now s) tb) (timer_queue s).
Proof.
  intros Hwf. apply sorted_live; [|apply Hwf].
  intros e He. destruct (wf_live s Hwf e He) as (te & ? & _). eauto.
Qed.

Lemma StronglySorted_insert {A} (R : A -> A -> Prop) x l1 l2 :
  StronglySorted R (l1 ++ l2) -> (forall y, y ∈ l1 -> R y x) -> (forall y, y ∈ l2 -> R x y) ->
  StronglySorted R (l1 ++ x :: l2).
Proof.
  induction l1 as [|y l1 IH]; simpl; intros Hs H1 H2.
  - constructor; [done|]. by apply Forall_forall.
  - inversion_clear Hs as [|? ? Hs' Hf]. constructor.
    + apply IH; [done|..]; intros; [apply H1; by right|by apply H2].
    + rewrite Forall_app, Forall_cons in *. destruct Hf. split_and!; [done| |done].
      apply H1. left.
Qed.

Lemma due_insert s s' id t x :
  timers s' = <[id := t]> (timers s) -> now s' = now s ->
  due s' x = if decide (x = id) then due_of (now s) t else due s x.
Proof.
  intros Ht Hn. unfold due. rewrite Ht, Hn, lookup_insert. repeat case_decide; congruence.
Qed.

(** Linking a timer in at its place keeps the queue well formed. *)
Lemma link_wf s s' id t q1 q2 :
  wf s -> id ∉ timer_queue s -> timer_queue s = q1 ++ q2 ->
  magic t = TIMER_MAGIC -> is_Some (callback t) -> in_window (due_of (now s) t) ->
  (forall e, e ∈ q1 -> due s e <= due_of (now s) t) ->
  (forall e, e ∈ q2 -> due_of (now s) t < due s e) ->
  timers s' = <[id := t]> (timers s) -> timer_queue s' = q1 ++ id :: q2 -> now s' = now s ->
  hw s' = (fun h => Z.max 0 (due s' h)) <$> head (timer_queue s') ->
  wf s'.
Proof.
  intros Hwf Hid Hq Hm Hcb Hw Hle Hgt Ht Hq' Hn Hhw.
  assert (forall e, e ∈ timer_queue s -> e ≠ id) as Hne by (intros e ? ->; done).
  assert (forall x, x ∈ q1 -> x ≠ id) by (intros x Hx; apply Hne; rewrite Hq; set_solver).
  assert (forall x, x ∈ q2 -> x ≠ id) by (intros x Hx; apply Hne; rewrite Hq; set_solver).
  split; rewrite ?Hq'; rewrite ?Hq' in Hhw; [| | |done].
  - apply NoDup_app_cons. rewrite <- Hq. split; [done|apply Hwf].
  - intros e He. rewrite Ht, Hn, lookup_insert. case_decide as Hd; [subst; eauto|].
    apply (wf_live s Hwf). rewrite Hq. clear -He Hd. set_solver.
  - apply StronglySorted_insert.
    + rewrite <- Hq. eapply StronglySorted_impl; [|apply Hwf]. simpl. intros x y Hx Hy.
      rewrite !(due_insert s s' id t), !decide_False by auto. done.
    + intros y Hy. rewrite !(due_insert s s' id t), decide_False, decide_True by auto. auto.
    + intros y Hy. rewrite !(due_insert s s' id t), decide_True, decide_False by auto.
      specialize (Hgt y Hy). lia.
Qed.

(** [timer_set] links an idle timer in, [delay] ahead of the clock. *)
Lemma timer_set_wf s id delay period cb a :
  wf s -> id ∉ timer_queue s -> 0 <= delay < HALF ->
  (exists t, timers s !! id = Some t /\ magic t = TIMER_MAGIC) ->
  wp (timer_set id delay period cb a) s (fun _ s' =>
    wf s' /\ now s' = now s /\ (forall x, x ∈ timer_queue s' <-> x = id \/ x ∈ timer_queue s) /\
    timers s' = <[id := MkTimer TIMER_MAGIC (u32 (now s + delay)) period (Some cb) a]> (timers s)).
Proof.
  intros Hwf Hid Hd (t & Ht & Hm).
  set (t' := MkTimer TIMER_MAGIC (u32 (now s + delay)) period (Some cb) a).
  assert (due_of (now s) t' = delay) as Hdue by by apply due_new.
  assert (in_window delay) as Hwin by (unfold in_window, HALF in *; lia).
  assert (forall e, e ∈ timer_queue s -> id ≠ e) as Hne by (intros e ? ->; done).
  destruct (insert_walk_spec (<[id := t']> (timers s)) id (scheduled_time t') (now s)
    (timer_queue s)) as (q1 & q2 & Hq & Hwalk & Hle & Hgt).
  { by fold (due_of (now s) t'); rewrite Hdue. }
  { intros e He. destruct (wf_live s Hwf e He) as (te & ? & _ & _ & ?).
    exists te. rewrite lookup_insert_ne by auto. done. }
  { eapply StronglySorted_impl; [|by apply wf_sorted_live].
    intros x y Hx Hy HR ta tb. rewrite !lookup_insert_ne by auto. eauto. }
  fold (due_of (now s) t') in Hle, Hgt.
  assert (forall e, e ∈ timer_queue s -> exists te, <[id:=t']> (timers s) !! e = Some te
    /\ due s e = due_of (now s) te) as Hlook.
  { intros e He. destruct (wf_live s Hwf e He) as (te & Hte & _). exists te.
    unfold due. by rewrite lookup_insert_ne, Hte by auto. }
  unfold timer_set, list_in_list. wp_step. exists t. split; [done|]. wp_step.
  split; [by apply Z.eqb_eq|]. split; [by rewrite bool_decide_false|]. rewrite Hm. fold t'.
  unfold insert_timer_in_queue. wp_step. simpl. exists t'. rewrite lookup_insert_eq. split; [done|].
  wp_step. exists (q1 ++ id :: q2). split; [done|]. wp_step. simpl.
  assert (forall x, x ∈ q1 ++ id :: q2 <-> x = id \/ x ∈ timer_queue s) as Hin.
  { intros x. rewrite Hq. clear. set_solver. }
  assert (forall s2, timers s2 = <[id:=t']> (timers s) -> timer_queue s2 = q1 ++ id :: q2 ->
    now s2 = now s -> hw s2 = (fun h => Z.max 0 (due s2 h)) <$> head (q1 ++ id :: q2) -> wf s2)
    as Hlink.
  { intros s2 Ht2 Hq2 Hn2 Hh2. rewrite <- Hq2 in Hh2.
    apply (link_wf s s2 id t' q1 q2); try done; [by rewrite Hdue|..]; intros e He.
    - destruct (Hlook e) as (te & ? & ->); [rewrite Hq; set_solver|]. eauto.
    - destruct (Hlook e) as (te & ? & ->); [rewrite Hq; set_solver|]. eauto. }
  destruct q1 as [|y q1]; simpl.
  - rewrite bool_decide_true by done. wp_step. split_and!; [|done..]. apply Hlink; [done..|]. simpl.
    erewrite due_insert, decide_True, Hdue by done. f_equal. lia.
  - assert (y ≠ id) by (intros ->; apply Hid; rewrite Hq; left).
    rewrite bool_decide_false by congruence. wp_step.
    split_and!; [|done..]. apply Hlink; [done..|]. simpl.
    erewrite due_insert, decide_False by done. by rewrite (wf_hw s Hwf), Hq.
Qed.

(** [timer_cancel] unlinks the timer and reprograms the hardware if it was first. *)
Lemma timer_cancel_wf s id :
  wf s -> (exists t, timers s !! id = Some t /\ magic t = TIMER_MAGIC) ->
  wp (timer_cancel id) s (fun _ s' =>
    wf s' /\ now s' = now s /\ timer_queue s' = filter (fun x => x ≠ id) (timer_queue s) /\
    (forall x, x ≠ id -> timers s' !! x = timers s !! x) /\
    exists t', timers s' !! id = Some t' /\ magic t' = TIMER_MAGIC).
Proof.
  intros Hwf (t & Ht & Hm).
  unfold timer_cancel. wp_step. exists t. split; [done|]. wp_step.
  split; [by apply Z.eqb_eq|]. rewrite Hm. simpl.
  set (t' := MkTimer TIMER_MAGIC _ 0 None 0). set (q := filter _ _).
  assert (forall e, e ∈ q -> e ≠ id /\ e ∈ timer_queue s) as Hq.
  { intros e He. by apply list_elem_of_filter in He. }
  assert (forall s2, timers s2 = <[id:=t']> (timers s) -> timer_queue s2 = q -> now s2 = now s ->
    hw s2 = (fun h => Z.max 0 (due s h)) <$> head q -> wf s2) as Hwf2.
  { intros s2 Ht2 Hq2 Hn2 Hh2.
    assert (forall x, x ∈ q -> due s2 x = due s x) as Hdue.
    { intros x [Hx _]%Hq. by erewrite due_insert, decide_False by done. }
    split; rewrite ?Hq2.
    - apply NoDup_filter, Hwf.
    - intros e [Hne He]%Hq. rewrite Ht2, Hn2, lookup_insert_ne by done. by apply (wf_live s Hwf).
    - eapply StronglySorted_impl; [|eapply StronglySorted_filter, Hwf].
      intros x y Hx Hy. simpl. by rewrite !Hdue.
    - rewrite Hh2. destruct q as [|h q']; simpl; [done|]. by rewrite Hdue by left. }
  assert (forall x, x ≠ id -> <[id:=t']> (timers s) !! x = timers s !! x).
  { intros x ?. by rewrite lookup_insert_ne. }
  assert (exists t'', <[id:=t']> (timers s) !! id = Some t'' /\ magic t'' = TIMER_MAGIC).
  { exists t'. by rewrite lookup_insert_eq. }
  destruct q as [|h q'] eqn:Eq; simpl.
  { wp_step. split_and!; try done. by apply Hwf2. }
  destruct (Hq h) as [Hne Hh]; [left|]. destruct (wf_live s Hwf h Hh) as (th & Hth & _).
  assert (due s h = due_of (now s) th) as Hd by (unfold due; by rewrite Hth).
  wp_step. case_bool_decide as Hhead; simpl.
  - wp_step. split_and!; try done. apply Hwf2; [done..|]. simpl.
    by rewrite (wf_hw s Hwf), <- Hhead.
  - wp_step. exists th. simpl. rewrite lookup_insert_ne by done. split; [done|]. wp_step.
    split_and!; try done. apply Hwf2; [done..|]. simpl. f_equal. rewrite Hd.
    pose proof (wf_due s h Hwf Hh) as Hwh. rewrite Hd in Hwh.
    unfold TIME_LT, due_of, in_window, HALF in *. case_if; [lia|].
    destruct (sw_eqm 32 (scheduled_time th - now s)) as [k Hk]; [lia|].
    unfold uw. rewrite <- (Z.mod_add _ k) by lia. rewrite <- Hk, Z.mod_small; lia.
Qed.

(** Passing time moves every timer closer; the hardware count follows. *)
Definition advance (n : Z) (s : state) : state :=
  MkState (timers s) (timer_queue s) ((fun d => Z.max 0 (d - n)) <$> hw s) (u32 (now s + n)).

Lemma advance_wf s n :
  wf s -> 0 <= n -> (forall id, id ∈ timer_queue s -> in_window (due s id - n)) ->
  wf (advance n s).
Proof.
  intros Hwf Hn Hw.
  assert (forall id, id ∈ timer_queue s -> due (advance n s) id = due s id - n) as Hdue.
  { intros id Hid. specialize (Hw id Hid). destruct (wf_live s Hwf id Hid) as (t & Ht & _ & _ & Hwt).
    unfold due in *. simpl. rewrite Ht in *. by apply due_advance. }
  split; simpl.
  - apply Hwf.
  - intros id Hid. destruct (wf_live s Hwf id Hid) as (t & Ht & Hm & Hcb & _). exists t.
    split_and!; try done. specialize (Hw id Hid). specialize (Hdue id Hid). unfold due in *. simpl in Hdue.
    rewrite Ht in *. by rewrite Hdue.
  - eapply StronglySorted_impl; [|apply Hwf]. simpl. intros a b Ha Hb ?. rewrite !Hdue by done. lia.
  - rewrite (wf_hw s Hwf). destruct (timer_queue s) as [|h q] eqn:E; simpl; [done|].
    rewrite Hdue by left. f_equal. lia.
Qed.

End Timer.
