(* ===== verification/KState.v ===== *)
(** The state of the LK kernel as [kernel/thread.c], [kernel/timer.c],
    [kernel/mutex.c], [kernel/semaphore.c] and [kernel/event.c] share it, for
    the uniprocessor build of the Exynos platforms ([WITH_SMP := 0],
    [WITH_KERNEL_VM := 0], dynamic timer).  Objects live in finite maps from
    their addresses; an object whose memory was freed is not in its map. *)
From S2P Require Import Prelude Timer.
Local Open Scope Z_scope.

(** * Addresses of wait queues

    Every wait queue is a field of some object: a thread's
    [retcode_wait_queue], or the [wait] field of a synchronization object or of
    a port ([Port.v]). *)

Inductive wqid :=
  | WqRetcode (t : tid) | WqMutex (m : nat) | WqSem (s : nat) | WqEvent (e : nat)
  | WqPort (p : Z).

#[export] Instance wqid_eq_dec : EqDecision wqid.
Proof. solve_decision. Defined.

#[export] Instance wqid_countable : Countable wqid.
Proof.
  refine (inj_countable'
    (fun q => match q with
      | WqRetcode t => inl (inl t) | WqMutex m => inl (inr m)
      | WqSem s => inr (inl s) | WqEvent e => inr (inr (inl e)) | WqPort p => inr (inr (inr p)) end)
    (fun q => match q with
      | inl (inl t) => WqRetcode t | inl (inr m) => WqMutex m
      | inr (inl s) => WqSem s | inr (inr (inl e)) => WqEvent e | inr (inr (inr p)) => WqPort p end) _).
  by intros [].
Defined.

Module KState.

(** * Threads *)

Inductive thread_state :=
  | THREAD_SUSPENDED | THREAD_READY | THREAD_RUNNING
  | THREAD_BLOCKED | THREAD_SLEEPING | THREAD_DEATH.

#[export] Instance thread_state_eq_dec : EqDecision thread_state.
Proof. solve_decision. Defined.

Definition THREAD_MAGIC : Z := 0x74687264.

(** The bits of [flags]. *)
Definition THREAD_FLAG_DETACHED : Z := 0.
Definition THREAD_FLAG_FREE_STACK : Z := 1.
Definition THREAD_FLAG_FREE_STRUCT : Z := 2.
Definition THREAD_FLAG_REAL_TIME : Z := 3.
Definition THREAD_FLAG_IDLE : Z := 4.

Definition NUM_PRIORITIES : Z := 32.
Definition LOWEST_PRIORITY : Z := 0.
Definition HIGHEST_PRIORITY : Z := NUM_PRIORITIES - 1.
Definition IDLE_PRIORITY : Z := LOWEST_PRIORITY.
Definition DEFAULT_PRIORITY : Z := NUM_PRIORITIES / 2.

(** [thread_t] without its name, thread-local storage and saved registers,
    which scheduling does not read. *)
Record thread_t := MkThread {
  magic : Z;
  priority : Z;
  state : thread_state;
  remaining_quantum : Z;
  flags : Z;
  blocking_wait_queue : option wqid;
  wait_queue_block_ret : Z;
  stack : Z;
  stack_size : Z;
  entry : Z;
  arg : Z;
  retcode : Z
}.

Definition set_magic x t := MkThread x (priority t) (state t) (remaining_quantum t) (flags t) (blocking_wait_queue t) (wait_queue_block_ret t) (stack t) (stack_size t) (entry t) (arg t) (retcode t).
Definition set_priority x t := MkThread (magic t) x (state t) (remaining_quantum t) (flags t) (blocking_wait_queue t) (wait_queue_block_ret t) (stack t) (stack_size t) (entry t) (arg t) (retcode t).
Definition set_state x t := MkThread (magic t) (priority t) x (remaining_quantum t) (flags t) (blocking_wait_queue t) (wait_queue_block_ret t) (stack t) (stack_size t) (entry t) (arg t) (retcode t).
Definition set_remaining_quantum x t := MkThread (magic t) (priority t) (state t) x (flags t) (blocking_wait_queue t) (wait_queue_block_ret t) (stack t) (stack_size t) (entry t) (arg t) (retcode t).
Definition set_flags x t := MkThread (magic t) (priority t) (state t) (remaining_quantum t) x (blocking_wait_queue t) (wait_queue_block_ret t) (stack t) (stack_size t) (entry t) (arg t) (retcode t).
Definition set_blocking_wait_queue x t := MkThread (magic t) (priority t) (state t) (remaining_quantum t) (flags t) x (wait_queue_block_ret t) (stack t) (stack_size t) (entry t) (arg t) (retcode t).
Definition set_wait_queue_block_ret x t := MkThread (magic t) (priority t) (state t) (remaining_quantum t) (flags t) (blocking_wait_queue t) x (stack t) (stack_size t) (entry t) (arg t) (retcode t).
Definition set_retcode x t := MkThread (magic t) (priority t) (state t) (remaining_quantum t) (flags t) (blocking_wait_queue t) (wait_queue_block_ret t) (stack t) (stack_size t) (entry t) (arg t) x.

Definition has_flag (t : thread_t) (f : Z) : bool := Z.testbit (flags t) f.
Definition add_flag (f : Z) (t : thread_t) : thread_t := set_flags (Z.lor (flags t) (2 ^ f)) t.
Definition clear_flag (f : Z) (t : thread_t) : thread_t := set_flags (Z.ldiff (flags t) (2 ^ f)) t.

(** * Wait queues and synchronization objects *)

Definition WAIT_QUEUE_MAGIC : Z := 0x77616974.
Definition MUTEX_MAGIC : Z := 0x6D757478.
Definition SEMAPHORE_MAGIC : Z := 0x73656D61.
Definition EVENT_MAGIC : Z := 0x65766E74.

Record wait_queue_t := MkWq { wq_magic : Z; wq_list : list tid; wq_count : Z }.

Definition WAIT_QUEUE_INITIAL_VALUE : wait_queue_t := MkWq WAIT_QUEUE_MAGIC [] 0.

(** The [wait] field of each object is the wait queue named after it. *)
Record mutex_t := MkMutex { m_magic : Z; m_holder : option tid; m_count : Z }.
Record semaphore_t := MkSem { s_magic : Z; s_count : Z }.
Record event_t := MkEvent { e_magic : Z; e_signaled : bool; e_flags : Z }.

Definition EVENT_FLAG_AUTOUNSIGNAL : Z := 0.

(** * The kernel *)

Record kstate := MkK {
  k_threads : gmap tid thread_t;
  k_thread_list : list tid;
  k_run_queue : gmap Z (list tid);
  k_run_queue_bitmap : Z;
  k_current : tid;
  k_idle_thread : tid;
  k_wait_queues : gmap wqid wait_queue_t;
  k_ints_disabled : bool;
  k_delayed_free : list Z;
  k_timer : Timer.state;
  k_mutexes : gmap nat mutex_t;
  k_semaphores : gmap nat semaphore_t;
  k_events : gmap nat event_t
}.

Definition with_threads x s := MkK x (k_thread_list s) (k_run_queue s) (k_run_queue_bitmap s) (k_current s) (k_idle_thread s) (k_wait_queues s) (k_ints_disabled s) (k_delayed_free s) (k_timer s) (k_mutexes s) (k_semaphores s) (k_events s).
Definition with_thread_list x s := MkK (k_threads s) x (k_run_queue s) (k_run_queue_bitmap s) (k_current s) (k_idle_thread s) (k_wait_queues s) (k_ints_disabled s) (k_delayed_free s) (k_timer s) (k_mutexes s) (k_semaphores s) (k_events s).
Definition with_run_queue x s := MkK (k_threads s) (k_thread_list s) x (k_run_queue_bitmap s) (k_current s) (k_idle_thread s) (k_wait_queues s) (k_ints_disabled s) (k_delayed_free s) (k_timer s) (k_mutexes s) (k_semaphores s) (k_events s).
Definition with_run_queue_bitmap x s := MkK (k_threads s) (k_thread_list s) (k_run_queue s) x (k_current s) (k_idle_thread s) (k_wait_queues s) (k_ints_disabled s) (k_delayed_free s) (k_timer s) (k_mutexes s) (k_semaphores s) (k_events s).
Definition with_current x s := MkK (k_threads s) (k_thread_list s) (k_run_queue s) (k_run_queue_bitmap s) x (k_idle_thread s) (k_wait_queues s) (k_ints_disabled s) (k_delayed_free s) (k_timer s) (k_mutexes s) (k_semaphores s) (k_events s).
Definition with_idle_thread x s := MkK (k_threads s) (k_thread_list s) (k_run_queue s) (k_run_queue_bitmap s) (k_current s) x (k_wait_queues s) (k_ints_disabled s) (k_delayed_free s) (k_timer s) (k_mutexes s) (k_semaphores s) (k_events s).
Definition with_wait_queues x s := MkK (k_threads s) (k_thread_list s) (k_run_queue s) (k_run_queue_bitmap s) (k_current s) (k_idle_thread s) x (k_ints_disabled s) (k_delayed_free s) (k_timer s) (k_mutexes s) (k_semaphores s) (k_events s).
Definition with_ints_disabled x s := MkK (k_threads s) (k_thread_list s) (k_run_queue s) (k_run_queue_bitmap s) (k_current s) (k_idle_thread s) (k_wait_queues s) x (k_delayed_free s) (k_timer s) (k_mutexes s) (k_semaphores s) (k_events s).
Definition with_delayed_free x s := MkK (k_threads s) (k_thread_list s) (k_run_queue s) (k_run_queue_bitmap s) (k_current s) (k_idle_thread s) (k_wait_queues s) (k_ints_disabled s) x (k_timer s) (k_mutexes s) (k_semaphores s) (k_events s).
Definition with_timer x s := MkK (k_threads s) (k_thread_list s) (k_run_queue s) (k_run_queue_bitmap s) (k_current s) (k_idle_thread s) (k_wait_queues s) (k_ints_disabled s) (k_delayed_free s) x (k_mutexes s) (k_semaphores s) (k_events s).
Definition with_mutexes x s := MkK (k_threads s) (k_thread_list s) (k_run_queue s) (k_run_queue_bitmap s) (k_current s) (k_idle_thread s) (k_wait_queues s) (k_ints_disabled s) (k_delayed_free s) (k_timer s) x (k_semaphores s) (k_events s).
Definition with_semaphores x s := MkK (k_threads s) (k_thread_list s) (k_run_queue s) (k_run_queue_bitmap s) (k_current s) (k_idle_thread s) (k_wait_queues s) (k_ints_disabled s) (k_delayed_free s) (k_timer s) (k_mutexes s) x (k_events s).
Definition with_events x s := MkK (k_threads s) (k_thread_list s) (k_run_queue s) (k_run_queue_bitmap s) (k_current s) (k_idle_thread s) (k_wait_queues s) (k_ints_disabled s) (k_delayed_free s) (k_timer s) (k_mutexes s) (k_semaphores s) x.

Abbreviation K := (M kstate).

(** Timer code runs on its part of the state. *)
Definition on_timer {A} (m : M Timer.state A) : K A := fun s =>
  match m (k_timer s) with
  | Some (a, x) => Some (a, with_timer x s)
  | None => None
  end.

(** [*t], and an assignment to fields of [*t]. *)
Definition thread_at (t : tid) : K thread_t := deref (fun s => k_threads s !! t).
Definition upd_thread (t : tid) (f : thread_t -> thread_t) : K unit :=
  th ← thread_at t; modify (fun s => with_threads (<[t := f th]> (k_threads s)) s).

Definition wq_at (q : wqid) : K wait_queue_t := deref (fun s => k_wait_queues s !! q).
Definition set_wq (q : wqid) (w : wait_queue_t) : K unit :=
  modify (fun s => with_wait_queues (<[q := w]> (k_wait_queues s)) s).

(** [run_queue[p]]: an index outside the array is a fault. *)
Definition rq_at (p : Z) : K (list tid) := deref (fun s => k_run_queue s !! p).
Definition set_rq (p : Z) (l : list tid) : K unit :=
  modify (fun s => with_run_queue (<[p := l]> (k_run_queue s)) s).

(** [list_in_list (&t->queue_node)] and [list_delete] of it: a thread's queue
    node is in a run queue, in a wait queue, or in none. *)
Definition in_rq (s : kstate) (t : tid) : Prop :=
  map_Exists (fun _ l => t ∈ l) (k_run_queue s).
Definition in_wq (s : kstate) (t : tid) : Prop :=
  map_Exists (fun _ w => t ∈ wq_list w) (k_wait_queues s).
Definition queue_node_in_list (t : tid) : K bool :=
  gets (fun s => bool_decide (in_rq s t) || bool_decide (in_wq s t)).
Definition queue_node_delete (t : tid) : K unit :=
  modify (fun s => with_run_queue (filter (fun x => x ≠ t) <$> k_run_queue s)
    (with_wait_queues ((fun w => MkWq (wq_magic w) (filter (fun x => x ≠ t) (wq_list w))
      (wq_count w)) <$> k_wait_queues s) s)).

End KState.
