(* ===== verification/Thread.v ===== *)
(** The scheduler and the wait queues of [kernel/thread.c].

    A function that calls [thread_resched] in the middle runs its remaining
    code when its thread is next scheduled.  Such a function is split there:
    the first part returns [Switched fs], where [fs] names the code left to
    run, innermost first, and [Kernel.v] runs it on resumption.  Every function
    holds the thread lock throughout, so the parts are atomic. *)
From S2P Require Import Prelude Timer KState.
Local Open Scope Z_scope.

Module Thread.
Import KState.

(** What is left of a blocked call. *)
Inductive frame :=
  | FWaitQueueBlock (timed : bool)
  | FWaitQueueDestroy (q : wqid)
  | FThreadJoin (t : tid)
  | FMutexAcquire (m : nat)
  | FSemTimedWait (s : nat).

#[export] Instance frame_eq_dec : EqDecision frame.
Proof. solve_decision. Defined.

Inductive outcome := Done (r : Z) | Switched (fs : list frame).

(** [INT_RESCHEDULE] is [true]. *)
Abbreviation handler_return := bool (only parsing).
Definition INT_RESCHEDULE : handler_return := true.
Definition INT_NO_RESCHEDULE : handler_return := false.

Definition INFINITE_TIME : Z := 2 ^ 32 - 1.

(** * Run queues *)

Definition insert_in_run_queue_head (t : tid) : K unit :=
  th ← thread_at t;
  _ ← assert_ (magic th =? THREAD_MAGIC);
  _ ← assert_ (bool_decide (state th = THREAD_READY));
  linked ← queue_node_in_list t;
  _ ← assert_ (negb linked);
  q ← rq_at (priority th);
  _ ← set_rq (priority th) (t :: q);
  modify (fun s => with_run_queue_bitmap
    (Z.lor (k_run_queue_bitmap s) (Z.shiftl 1 (priority th))) s).

Definition insert_in_run_queue_tail (t : tid) : K unit :=
  th ← thread_at t;
  _ ← assert_ (magic th =? THREAD_MAGIC);
  _ ← assert_ (bool_decide (state th = THREAD_READY));
  linked ← queue_node_in_list t;
  _ ← assert_ (negb linked);
  q ← rq_at (priority th);
  _ ← set_rq (priority th) (q ++ [t]);
  modify (fun s => with_run_queue_bitmap
    (Z.lor (k_run_queue_bitmap s) (Z.shiftl 1 (priority th))) s).

(** [__builtin_clz] on a non-zero 32-bit word. *)
Definition clz32 (x : Z) : Z := 31 - Z.log2 x.

(** The scan of [get_top_thread]: the highest set bit names the queue; the
    bits of queues found empty are dropped from the local copy. *)
Fixpoint get_top_loop (fuel : nat) (local_run_queue_bitmap : Z) : K tid :=
  match fuel with
  | O => fault
  | S fuel =>
      if local_run_queue_bitmap =? 0 then gets k_idle_thread
      else
        let next_queue := 32 - 1 - clz32 local_run_queue_bitmap in
        q ← rq_at next_queue;
        match q with
        | newthread :: rest =>
            _ ← set_rq next_queue rest;
            _ ← when (bool_decide (rest = []))
                  (modify (fun s => with_run_queue_bitmap
                     (Z.ldiff (k_run_queue_bitmap s) (Z.shiftl 1 next_queue)) s));
            mret newthread
        | [] => get_top_loop fuel (Z.ldiff local_run_queue_bitmap (Z.shiftl 1 next_queue))
        end
  end.

(** Each pass clears one of the 32 bits, so 33 passes are enough. *)
Definition get_top_thread : K tid :=
  bm ← gets k_run_queue_bitmap; get_top_loop 33 bm.

(** * Rescheduling *)

Definition thread_is_realtime (t : thread_t) : bool :=
  has_flag t THREAD_FLAG_REAL_TIME && (DEFAULT_PRIORITY <? priority t).
Definition thread_is_idle (t : thread_t) : bool := has_flag t THREAD_FLAG_IDLE.
Definition thread_is_real_time_or_idle (t : thread_t) : bool :=
  has_flag t THREAD_FLAG_REAL_TIME || has_flag t THREAD_FLAG_IDLE.

Definition thread_resched : K unit :=
  current_thread ← gets k_current;
  cur ← thread_at current_thread;
  _ ← assert_ (negb (bool_decide (state cur = THREAD_RUNNING)));
  newthread ← get_top_thread;
  _ ← upd_thread newthread (set_state THREAD_RUNNING);
  let oldthread := current_thread in
  if bool_decide (newthread = oldthread) then mret tt
  else
    new ← thread_at newthread;
    _ ← when (remaining_quantum new <=? 0) (upd_thread newthread (set_remaining_quantum 5));
    new ← thread_at newthread;
    old ← thread_at oldthread;
    _ ← (if thread_is_real_time_or_idle new then
           when (negb (thread_is_real_time_or_idle old)) (on_timer (Timer.timer_cancel TmPreempt))
         else
           when (thread_is_real_time_or_idle old)
             (on_timer (Timer.timer_set_periodic TmPreempt 10 thread_timer_tick_cb 0%nat)));
    modify (with_current newthread).

Definition thread_yield : K unit :=
  current_thread ← gets k_current;
  cur ← thread_at current_thread;
  _ ← assert_ (magic cur =? THREAD_MAGIC);
  _ ← assert_ (bool_decide (state cur = THREAD_RUNNING));
  _ ← upd_thread current_thread (set_state THREAD_READY);
  _ ← upd_thread current_thread (set_remaining_quantum 0);
  _ ← when (negb (thread_is_idle cur)) (insert_in_run_queue_tail current_thread);
  thread_resched.

Definition thread_preempt : K unit :=
  current_thread ← gets k_current;
  cur ← thread_at current_thread;
  _ ← assert_ (magic cur =? THREAD_MAGIC);
  _ ← assert_ (bool_decide (state cur = THREAD_RUNNING));
  _ ← upd_thread current_thread (set_state THREAD_READY);
  _ ← when (negb (thread_is_idle cur))
        (if 0 <? remaining_quantum cur
         then insert_in_run_queue_head current_thread
         else insert_in_run_queue_tail current_thread);
  thread_resched.

Definition thread_block : K unit :=
  current_thread ← gets k_current;
  cur ← thread_at current_thread;
  _ ← assert_ (magic cur =? THREAD_MAGIC);
  _ ← assert_ (bool_decide (state cur = THREAD_BLOCKED));
  _ ← assert_ (negb (thread_is_idle cur));
  thread_resched.

Definition thread_unblock (t : tid) (resched : bool) : K unit :=
  th ← thread_at t;
  _ ← assert_ (magic th =? THREAD_MAGIC);
  _ ← assert_ (bool_decide (state th = THREAD_BLOCKED));
  _ ← assert_ (negb (thread_is_idle th));
  _ ← upd_thread t (set_state THREAD_READY);
  _ ← insert_in_run_queue_head t;
  when resched thread_resched.

Definition thread_timer_tick : K handler_return :=
  current_thread ← gets k_current;
  cur ← thread_at current_thread;
  if thread_is_real_time_or_idle cur then mret INT_NO_RESCHEDULE
  else
    let q := s32 (remaining_quantum cur - 1) in
    _ ← upd_thread current_thread (set_remaining_quantum q);
    mret (if q <=? 0 then INT_RESCHEDULE else INT_NO_RESCHEDULE).

Definition thread_sleep_handler (t : tid) : K handler_return :=
  th ← thread_at t;
  _ ← assert_ (magic th =? THREAD_MAGIC);
  _ ← assert_ (bool_decide (state th = THREAD_SLEEPING));
  _ ← upd_thread t (set_state THREAD_READY);
  _ ← insert_in_run_queue_head t;
  mret INT_RESCHEDULE.

Definition thread_sleep (delay : Z) : K unit :=
  current_thread ← gets k_current;
  cur ← thread_at current_thread;
  _ ← assert_ (magic cur =? THREAD_MAGIC);
  _ ← assert_ (bool_decide (state cur = THREAD_RUNNING));
  _ ← assert_ (negb (thread_is_idle cur));
  _ ← on_timer (Timer.timer_initialize (TmStack current_thread));
  _ ← on_timer (Timer.timer_set_oneshot (TmStack current_thread) delay
                  thread_sleep_handler_cb current_thread);
  _ ← upd_thread current_thread (set_state THREAD_SLEEPING);
  thread_resched.

Definition thread_set_priority (priority : Z) : K unit :=
  current_thread ← gets k_current;
  let priority := if priority <=? IDLE_PRIORITY then IDLE_PRIORITY + 1 else priority in
  let priority := if HIGHEST_PRIORITY <? priority then HIGHEST_PRIORITY else priority in
  _ ← upd_thread current_thread (set_priority priority);
  _ ← upd_thread current_thread (set_state THREAD_READY);
  _ ← insert_in_run_queue_head current_thread;
  thread_resched.

Definition thread_set_real_time (t : tid) : K Z :=
  th ← thread_at t;
  _ ← assert_ (magic th =? THREAD_MAGIC);
  current_thread ← gets k_current;
  _ ← when (bool_decide (t = current_thread)) (on_timer (Timer.timer_cancel TmPreempt));
  _ ← upd_thread t (add_flag THREAD_FLAG_REAL_TIME);
  mret NO_ERROR.

(** * Wait queues *)

Definition wait_queue_init (q : wqid) : K unit := set_wq q WAIT_QUEUE_INITIAL_VALUE.

Definition thread_unblock_from_wait_queue (t : tid) (wait_queue_error : Z) : K Z :=
  th ← thread_at t;
  _ ← assert_ (magic th =? THREAD_MAGIC);
  if negb (bool_decide (state th = THREAD_BLOCKED)) then mret ERR_NOT_BLOCKED
  else
    q ← deref (fun _ => blocking_wait_queue th);
    w ← wq_at q;
    _ ← assert_ (wq_magic w =? WAIT_QUEUE_MAGIC);
    linked ← queue_node_in_list t;
    _ ← assert_ linked;
    _ ← queue_node_delete t;
    w ← wq_at q;
    _ ← set_wq q (MkWq (wq_magic w) (wq_list w) (wq_count w - 1));
    _ ← upd_thread t (set_blocking_wait_queue None);
    _ ← upd_thread t (set_state THREAD_READY);
    _ ← upd_thread t (set_wait_queue_block_ret wait_queue_error);
    _ ← insert_in_run_queue_head t;
    mret NO_ERROR.

Definition wait_queue_timeout_handler (t : tid) : K handler_return :=
  th ← thread_at t;
  _ ← assert_ (magic th =? THREAD_MAGIC);
  r ← thread_unblock_from_wait_queue t ERR_TIMED_OUT;
  mret (if NO_ERROR <=? r then INT_RESCHEDULE else INT_NO_RESCHEDULE).

(** The part of [wait_queue_block] after the thread is scheduled again. *)
Definition wait_queue_block_resumed (timed : bool) : K Z :=
  current_thread ← gets k_current;
  _ ← when timed (on_timer (Timer.timer_cancel (TmStack current_thread)));
  cur ← thread_at current_thread;
  mret (wait_queue_block_ret cur).

Definition wait_queue_block (q : wqid) (timeout : Z) : K outcome :=
  current_thread ← gets k_current;
  w ← wq_at q;
  _ ← assert_ (wq_magic w =? WAIT_QUEUE_MAGIC);
  cur ← thread_at current_thread;
  _ ← assert_ (bool_decide (state cur = THREAD_RUNNING));
  if timeout =? 0 then mret (Done ERR_TIMED_OUT)
  else
    _ ← set_wq q (MkWq (wq_magic w) (wq_list w ++ [current_thread]) (wq_count w + 1));
    _ ← upd_thread current_thread (set_state THREAD_BLOCKED);
    _ ← upd_thread current_thread (set_blocking_wait_queue (Some q));
    _ ← upd_thread current_thread (set_wait_queue_block_ret NO_ERROR);
    let timed := negb (timeout =? INFINITE_TIME) in
    _ ← when timed
          (_ ← on_timer (Timer.timer_initialize (TmStack current_thread));
           on_timer (Timer.timer_set_oneshot (TmStack current_thread) timeout
                       wait_queue_timeout_handler_cb current_thread));
    _ ← thread_resched;
    mret (Switched [FWaitQueueBlock timed]).

(** Take the head of a wait queue and hand it its result. *)
Definition wait_queue_pop (q : wqid) (w : wait_queue_t) (t : tid) (rest : list tid)
    (wait_queue_error : Z) : K unit :=
  _ ← set_wq q (MkWq (wq_magic w) rest (wq_count w - 1));
  th ← thread_at t;
  _ ← assert_ (bool_decide (state th = THREAD_BLOCKED));
  _ ← upd_thread t (set_state THREAD_READY);
  _ ← upd_thread t (set_wait_queue_block_ret wait_queue_error);
  upd_thread t (set_blocking_wait_queue None).

Definition ready_current : K unit :=
  current_thread ← gets k_current;
  _ ← upd_thread current_thread (set_state THREAD_READY);
  insert_in_run_queue_head current_thread.

Definition wait_queue_wake_one (q : wqid) (reschedule : bool) (wait_queue_error : Z) : K Z :=
  w ← wq_at q;
  _ ← assert_ (wq_magic w =? WAIT_QUEUE_MAGIC);
  match wq_list w with
  | [] => mret 0
  | t :: rest =>
      _ ← wait_queue_pop q w t rest wait_queue_error;
      _ ← when reschedule ready_current;
      _ ← insert_in_run_queue_head t;
      _ ← when reschedule thread_resched;
      mret 1
  end.

(** The loop of [wait_queue_wake_all]; each pass takes one thread off. *)
Fixpoint wake_all_loop (fuel : nat) (q : wqid) (wait_queue_error ret : Z) : K Z :=
  match fuel with
  | O => fault
  | S fuel =>
      w ← wq_at q;
      match wq_list w with
      | [] => mret ret
      | t :: rest =>
          _ ← wait_queue_pop q w t rest wait_queue_error;
          _ ← insert_in_run_queue_head t;
          wake_all_loop fuel q wait_queue_error (ret + 1)
      end
  end.

Definition wait_queue_wake_all (q : wqid) (reschedule : bool) (wait_queue_error : Z) : K Z :=
  w ← wq_at q;
  _ ← assert_ (wq_magic w =? WAIT_QUEUE_MAGIC);
  _ ← when (reschedule && (0 <? wq_count w)) ready_current;
  ret ← wake_all_loop (S (length (wq_list w))) q wait_queue_error 0;
  w ← wq_at q;
  _ ← assert_ (wq_count w =? 0);
  _ ← when ((0 <? ret) && reschedule) thread_resched;
  mret ret.

(** After the wake-up, and the switch away it may cause, the queue is retired. *)
Definition wait_queue_destroy_resumed (q : wqid) : K unit :=
  w ← wq_at q; set_wq q (MkWq 0 (wq_list w) (wq_count w)).

Definition wait_queue_destroy (q : wqid) (reschedule : bool) : K outcome :=
  w ← wq_at q;
  _ ← assert_ (wq_magic w =? WAIT_QUEUE_MAGIC);
  _ ← wait_queue_wake_all q reschedule ERR_OBJECT_DESTROYED;
  mret (Switched [FWaitQueueDestroy q]).

(** * Creation, start and end of threads *)

(** [init_thread_struct]: a zeroed structure with its magic number. *)
Definition init_thread_struct : thread_t :=
  MkThread THREAD_MAGIC 0 THREAD_SUSPENDED 0 0 None 0 0 0 0 0 0.

Definition put_thread (t : tid) (th : thread_t) : K unit :=
  modify (fun s => with_threads (<[t := th]> (k_threads s)) s).

(** [free(t)]: the structure and the wait queue inside it are gone. *)
Definition free_thread (t : tid) : K unit :=
  modify (fun s => with_threads (delete t (k_threads s))
    (with_wait_queues (delete (WqRetcode t) (k_wait_queues s)) s)).

(** [thread_create_etc (t, name, entry, arg, priority, stack, stack_size)].
    [struct_mem] and [stack_mem] are what [malloc] returns where the code calls
    it, [None] and 0 for failure. *)
Definition thread_create_etc (t struct_mem : option tid)
    (entry arg priority stack stack_size stack_mem : Z) : K (option tid) :=
  match (match t with Some t => Some t | None => struct_mem end) with
  | None => mret None
  | Some t' =>
      let flags := match t with Some _ => 0 | None => 2 ^ THREAD_FLAG_FREE_STRUCT end in
      let th := init_thread_struct in
      let th := MkThread (magic th) priority THREAD_SUSPENDED (remaining_quantum th)
                  (KState.flags th) None NO_ERROR stack (KState.stack_size th) entry arg 0 in
      _ ← put_thread t' th;
      _ ← wait_queue_init (WqRetcode t');
      if (stack =? 0) && (stack_mem =? 0) then
        _ ← when (Z.testbit flags THREAD_FLAG_FREE_STRUCT) (free_thread t');
        mret None
      else
        let '(flags, stack) :=
          if stack =? 0 then (Z.lor flags (2 ^ THREAD_FLAG_FREE_STACK), stack_mem)
          else (flags, stack) in
        _ ← upd_thread t' (fun th => MkThread (magic th) (KState.priority th) (state th)
              (remaining_quantum th) flags (blocking_wait_queue th) (wait_queue_block_ret th)
              stack stack_size (KState.entry th) (KState.arg th) (retcode th));
        _ ← modify (fun s => with_thread_list (t' :: k_thread_list s) s);
        mret (Some t')
  end.

Definition thread_create (struct_mem : option tid) (entry arg priority stack_size stack_mem : Z) :
    K (option tid) :=
  thread_create_etc None struct_mem entry arg priority 0 stack_size stack_mem.

(** [thread_yield] runs after the lock is dropped, so the caller's context is
    saved there. *)
Definition thread_resume (t : tid) : K Z :=
  th ← thread_at t;
  _ ← assert_ (magic th =? THREAD_MAGIC);
  _ ← assert_ (negb (bool_decide (state th = THREAD_DEATH)));
  ints_disabled ← gets k_ints_disabled;
  if bool_decide (state th = THREAD_SUSPENDED) then
    _ ← upd_thread t (set_state THREAD_READY);
    _ ← insert_in_run_queue_head t;
    _ ← when (negb ints_disabled) thread_yield;
    mret NO_ERROR
  else mret NO_ERROR.

(** The part of [thread_join] after the thread died. *)
Definition thread_join_dead (t : tid) : K Z :=
  th ← thread_at t;
  _ ← assert_ (magic th =? THREAD_MAGIC);
  _ ← assert_ (bool_decide (state th = THREAD_DEATH));
  _ ← assert_ (bool_decide (blocking_wait_queue th = None));
  linked ← queue_node_in_list t;
  _ ← assert_ (negb linked);
  _ ← modify (fun s => with_thread_list (filter (fun x => x ≠ t) (k_thread_list s)) s);
  _ ← upd_thread t (set_magic 0);
  _ ← when (has_flag th THREAD_FLAG_FREE_STRUCT) (free_thread t);
  mret NO_ERROR.

(** It is resumed with the result [err] of [wait_queue_block]. *)
Definition thread_join_resumed (t : tid) (err : Z) : K Z :=
  if err <? 0 then mret err else thread_join_dead t.

Definition thread_join (t : tid) (timeout : Z) : K outcome :=
  th ← thread_at t;
  _ ← assert_ (magic th =? THREAD_MAGIC);
  if has_flag th THREAD_FLAG_DETACHED then mret (Done ERR_THREAD_DETACHED)
  else if negb (bool_decide (state th = THREAD_DEATH)) then
    o ← wait_queue_block (WqRetcode t) timeout;
    match o with
    | Done err => r ← thread_join_resumed t err; mret (Done r)
    | Switched fs => mret (Switched (fs ++ [FThreadJoin t]))
    end
  else r ← thread_join_dead t; mret (Done r).

Definition thread_detach (t : tid) : K outcome :=
  th ← thread_at t;
  _ ← assert_ (magic th =? THREAD_MAGIC);
  _ ← wait_queue_wake_all (WqRetcode t) false ERR_THREAD_DETACHED;
  th ← thread_at t;
  if bool_decide (state th = THREAD_DEATH) then
    _ ← upd_thread t (clear_flag THREAD_FLAG_DETACHED);
    thread_join t 0
  else
    _ ← upd_thread t (add_flag THREAD_FLAG_DETACHED);
    mret (Done NO_ERROR).

Definition thread_detach_and_resume (t : tid) : K outcome :=
  o ← thread_detach t;
  match o with
  | Done err => if err <? 0 then mret (Done err) else r ← thread_resume t; mret (Done r)
  | Switched fs => mret (Switched fs)
  end.

Definition heap_delayed_free (p : Z) : K unit :=
  modify (fun s => with_delayed_free (p :: k_delayed_free s) s).

Definition thread_exit (retcode : Z) : K unit :=
  current_thread ← gets k_current;
  cur ← thread_at current_thread;
  _ ← assert_ (magic cur =? THREAD_MAGIC);
  _ ← assert_ (bool_decide (state cur = THREAD_RUNNING));
  _ ← assert_ (negb (thread_is_idle cur));
  _ ← upd_thread current_thread (set_state THREAD_DEATH);
  _ ← upd_thread current_thread (set_retcode retcode);
  _ ← (if has_flag cur THREAD_FLAG_DETACHED then
         _ ← modify (fun s => with_thread_list
               (filter (fun x => x ≠ current_thread) (k_thread_list s)) s);
         _ ← upd_thread current_thread (set_magic 0);
         _ ← when (has_flag cur THREAD_FLAG_FREE_STACK && negb (stack cur =? 0))
               (heap_delayed_free (stack cur));
         when (has_flag cur THREAD_FLAG_FREE_STRUCT)
           (heap_delayed_free (Z.of_nat current_thread))
       else
         _ ← wait_queue_wake_all (WqRetcode current_thread) false 0; mret tt);
  thread_resched.

(** * Start of the system *)

Definition empty_run_queues : gmap Z (list tid) :=
  list_to_map ((fun i => (Z.of_nat i, [])) <$> seq 0 32).

(** [thread_init_early] on the statically allocated idle thread. *)
Definition thread_init_early (idle_thread : tid) : K unit :=
  _ ← modify (fun s => with_run_queue empty_run_queues (with_run_queue_bitmap 0
        (with_idle_thread idle_thread (with_thread_list [] s))));
  let t := init_thread_struct in
  _ ← put_thread idle_thread
        (set_flags (2 ^ THREAD_FLAG_DETACHED) (set_state THREAD_RUNNING
          (set_priority HIGHEST_PRIORITY t)));
  _ ← wait_queue_init (WqRetcode idle_thread);
  _ ← modify (fun s => with_thread_list (idle_thread :: k_thread_list s) s);
  modify (with_current idle_thread).

Definition thread_init : K unit := on_timer (Timer.timer_initialize TmPreempt).

(** The current thread becomes the idle thread and starts the scheduler. *)
Definition thread_become_idle : K unit :=
  t ← gets k_current;
  _ ← upd_thread t (set_priority IDLE_PRIORITY);
  _ ← upd_thread t (add_flag THREAD_FLAG_IDLE);
  _ ← modify (with_ints_disabled false);
  thread_yield.

End Thread.
