(* ===== verification/Sync.v ===== *)
(** Mutexes, semaphores and events: [kernel/mutex.c], [kernel/semaphore.c] and
    [kernel/event.c], on top of the wait queues of [Thread.v].  The checks that
    panic are those of a build with [LK_DEBUGLEVEL > 0]. *)
From S2P Require Import Prelude Timer KState Thread.
Local Open Scope Z_scope.

Module Sync.
Import KState Thread.

(** A blocking call whose own code goes on after the wait: [post] runs now
    when the wait returned at once, else as frame [f] on resumption. *)
Definition after_wait (o : outcome) (f : frame) (post : Z -> K Z) : K outcome :=
  match o with
  | Done r => r ← post r; mret (Done r)
  | Switched fs => mret (Switched (fs ++ [f]))
  end.

(** * Mutexes *)

Definition mutex_at (m : nat) : K mutex_t := deref (fun s => k_mutexes s !! m).
Definition set_mutex (m : nat) (x : mutex_t) : K unit :=
  modify (fun s => with_mutexes (<[m := x]> (k_mutexes s)) s).

Definition mutex_init (m : nat) : K unit :=
  _ ← set_mutex m (MkMutex MUTEX_MAGIC None 0);
  wait_queue_init (WqMutex m).

Definition mutex_destroy (m : nat) : K outcome :=
  x ← mutex_at m;
  _ ← assert_ (m_magic x =? MUTEX_MAGIC);
  current ← gets k_current;
  _ ← assert_ (negb (negb (bool_decide (m_holder x = None))
                     && negb (bool_decide (Some current = m_holder x))));
  _ ← set_mutex m (MkMutex 0 (m_holder x) 0);
  wait_queue_destroy (WqMutex m) true.

(** What follows the wait: [ret] is its result. *)
Definition mutex_acquire_resumed (m : nat) (ret : Z) : K Z :=
  if ret <? NO_ERROR then
    _ ← when (ret =? ERR_TIMED_OUT)
          (x ← mutex_at m; set_mutex m (MkMutex (m_magic x) (m_holder x) (m_count x - 1)));
    mret ret
  else
    current ← gets k_current;
    x ← mutex_at m;
    _ ← set_mutex m (MkMutex (m_magic x) (Some current) (m_count x));
    mret ret.

Definition mutex_acquire_timeout (m : nat) (timeout : Z) : K outcome :=
  x ← mutex_at m;
  _ ← assert_ (m_magic x =? MUTEX_MAGIC);
  current ← gets k_current;
  _ ← assert_ (negb (bool_decide (Some current = m_holder x)));
  let count := m_count x + 1 in
  _ ← set_mutex m (MkMutex (m_magic x) (m_holder x) count);
  if 1 <? count then
    o ← wait_queue_block (WqMutex m) timeout;
    after_wait o (FMutexAcquire m) (mutex_acquire_resumed m)
  else
    r ← mutex_acquire_resumed m NO_ERROR; mret (Done r).

Definition mutex_acquire (m : nat) : K outcome := mutex_acquire_timeout m INFINITE_TIME.

Definition is_mutex_held (m : nat) : K bool :=
  x ← mutex_at m; current ← gets k_current;
  mret (bool_decide (m_holder x = Some current)).

Definition mutex_release (m : nat) : K Z :=
  x ← mutex_at m;
  _ ← assert_ (m_magic x =? MUTEX_MAGIC);
  current ← gets k_current;
  _ ← assert_ (bool_decide (Some current = m_holder x));
  let count := m_count x - 1 in
  _ ← set_mutex m (MkMutex (m_magic x) None count);
  _ ← when (1 <=? count) (_ ← wait_queue_wake_one (WqMutex m) true NO_ERROR; mret tt);
  mret NO_ERROR.

(** * Semaphores *)

Definition sem_at (i : nat) : K semaphore_t := deref (fun s => k_semaphores s !! i).
Definition set_sem (i : nat) (x : semaphore_t) : K unit :=
  modify (fun s => with_semaphores (<[i := x]> (k_semaphores s)) s).

Definition sem_init (i : nat) (value : Z) : K unit :=
  _ ← set_sem i (MkSem SEMAPHORE_MAGIC (s32 value));
  wait_queue_init (WqSem i).

Definition sem_destroy (i : nat) : K outcome :=
  x ← sem_at i;
  _ ← set_sem i (MkSem (s_magic x) 0);
  wait_queue_destroy (WqSem i) true.

Definition sem_post (i : nat) (resched : bool) : K Z :=
  x ← sem_at i;
  let count := s32 (s_count x + 1) in
  _ ← set_sem i (MkSem (s_magic x) count);
  if count <=? 0 then wait_queue_wake_one (WqSem i) resched NO_ERROR else mret 0.

Definition sem_wait (i : nat) : K outcome :=
  x ← sem_at i;
  let count := s32 (s_count x - 1) in
  _ ← set_sem i (MkSem (s_magic x) count);
  if count <? 0 then wait_queue_block (WqSem i) INFINITE_TIME else mret (Done NO_ERROR).

Definition sem_trywait (i : nat) : K Z :=
  x ← sem_at i;
  if s_count x <=? 0 then mret ERR_NOT_READY
  else _ ← set_sem i (MkSem (s_magic x) (s32 (s_count x - 1))); mret NO_ERROR.

Definition sem_timedwait_resumed (i : nat) (ret : Z) : K Z :=
  _ ← when ((ret <? NO_ERROR) && (ret =? ERR_TIMED_OUT))
        (x ← sem_at i; set_sem i (MkSem (s_magic x) (s32 (s_count x + 1))));
  mret ret.

Definition sem_timedwait (i : nat) (timeout : Z) : K outcome :=
  x ← sem_at i;
  let count := s32 (s_count x - 1) in
  _ ← set_sem i (MkSem (s_magic x) count);
  if count <? 0 then
    o ← wait_queue_block (WqSem i) timeout;
    after_wait o (FSemTimedWait i) (sem_timedwait_resumed i)
  else mret (Done NO_ERROR).

(** * Events *)

Definition event_at (i : nat) : K event_t := deref (fun s => k_events s !! i).
Definition set_event (i : nat) (x : event_t) : K unit :=
  modify (fun s => with_events (<[i := x]> (k_events s)) s).
Definition set_signaled (i : nat) (b : bool) : K unit :=
  x ← event_at i; set_event i (MkEvent (e_magic x) b (e_flags x)).

Definition event_init (i : nat) (initial : bool) (flags : Z) : K unit :=
  _ ← set_event i (MkEvent EVENT_MAGIC initial flags);
  wait_queue_init (WqEvent i).

Definition event_destroy (i : nat) : K outcome :=
  x ← event_at i;
  _ ← assert_ (e_magic x =? EVENT_MAGIC);
  _ ← set_event i (MkEvent 0 false 0);
  wait_queue_destroy (WqEvent i) true.

Definition event_wait_timeout (i : nat) (timeout : Z) : K outcome :=
  x ← event_at i;
  _ ← assert_ (e_magic x =? EVENT_MAGIC);
  if e_signaled x then
    _ ← when (Z.testbit (e_flags x) EVENT_FLAG_AUTOUNSIGNAL) (set_signaled i false);
    mret (Done NO_ERROR)
  else wait_queue_block (WqEvent i) timeout.

Definition event_signal (i : nat) (reschedule : bool) : K Z :=
  x ← event_at i;
  _ ← assert_ (e_magic x =? EVENT_MAGIC);
  _ ← (if negb (e_signaled x) then
         if Z.testbit (e_flags x) EVENT_FLAG_AUTOUNSIGNAL then
           n ← wait_queue_wake_one (WqEvent i) reschedule NO_ERROR;
           when (n <=? 0) (set_signaled i true)
         else
           _ ← set_signaled i true;
           _ ← wait_queue_wake_all (WqEvent i) reschedule NO_ERROR;
           mret tt
       else mret tt);
  mret NO_ERROR.

Definition event_unsignal (i : nat) : K Z :=
  x ← event_at i;
  _ ← assert_ (e_magic x =? EVENT_MAGIC);
  _ ← set_signaled i false;
  mret NO_ERROR.

End Sync.
