(* ===== verification/Sched.v ===== *)
(** The scheduler's invariant and the effect of its primitives.

    [sinv X ...] relates the threads' records to the run queues and wait queues
    for every thread outside [X], the threads in transit: a function that moves
    a thread takes it off one queue, changes its record, and puts it on another,
    and the thread is in [X] in between. *)
From S2P Require Import Prelude Timer KState Thread.
Local Open Scope Z_scope.

Module Sched.
Import KState Thread.

Section invariant.
Context (thr : gmap tid thread_t) (wq : gmap wqid wait_queue_t) (idle : tid).

(** Where a thread's record says its queue node is. *)
Definition runnable (t : tid) (p : Z) : Prop :=
    exists th, thr !! t = Some th /\ state th = THREAD_READY /\ priority th = p /\ t ≠ idle.
Definition waiting (t : tid) (q : wqid) : Prop :=
    exists th, thr !! t = Some th /\ state th = THREAD_BLOCKED /\ blocking_wait_queue th = Some q.

(** A record on its own: its priority is an index of [run_queue], it is
    live unless dead, and exactly the idle thread is flagged idle. *)
Definition thr_ok (t : tid) (th : thread_t) : Prop :=
    0 <= priority th < NUM_PRIORITIES /\ (state th ≠ THREAD_DEATH -> magic th = THREAD_MAGIC) /\
    (thread_is_idle th = true <-> t = idle) /\
    (t = idle -> state th = THREAD_READY \/ state th = THREAD_RUNNING).

(** [blocking_wait_queue] is set exactly while the thread is blocked. *)
Definition link_ok (th : thread_t) : Prop :=
    if decide (state th = THREAD_BLOCKED) then
      exists q w, blocking_wait_queue th = Some q /\ wq !! q = Some w /\ wq_magic w = WAIT_QUEUE_MAGIC
    else blocking_wait_queue th = None.
End invariant.

Record sinv (X : gset tid) (thr : gmap tid thread_t) (rq : gmap Z (list tid)) (bm : Z)
    (wq : gmap wqid wait_queue_t) (idle : tid) : Prop := {
  si_rq_dom p : is_Some (rq !! p) <-> 0 <= p < NUM_PRIORITIES;
  si_rq p l t : rq !! p = Some l -> t ∈ l <-> t ∉ X /\ runnable thr idle t p;
  si_rq_nodup p l : rq !! p = Some l -> NoDup l;
  si_bm_nonneg : 0 <= bm;
  si_bm p : 0 <= p -> Z.testbit bm p = true <-> exists l, rq !! p = Some l /\ l ≠ [];
  si_wq q w t : wq !! q = Some w -> t ∈ wq_list w <-> t ∉ X /\ waiting thr t q;
  si_wq_nodup q w : wq !! q = Some w -> NoDup (wq_list w);
  si_wq_count q w : wq !! q = Some w -> wq_count w = Z.of_nat (length (wq_list w));
  si_thr t th : thr !! t = Some th -> thr_ok idle t th;
  si_link t th : thr !! t = Some th -> t ∉ X -> link_ok wq th;
  si_idle : is_Some (thr !! idle)
}.

(** The invariant of a kernel state. *)
Abbreviation SINV X s :=
  (sinv X (k_threads s) (k_run_queue s) (k_run_queue_bitmap s) (k_wait_queues s) (k_idle_thread s)).

(** * Moving a thread *)

Section moves.
Context (X : gset tid) (thr : gmap tid thread_t) (rq : gmap Z (list tid)) (bm : Z)
    (wq : gmap wqid wait_queue_t) (idle : tid).
Hypothesis Hinv : sinv X thr rq bm wq idle.

Lemma runnable_insert_ne t t' th p : t' ≠ t ->
    runnable (<[t := th]> thr) idle t' p <-> runnable thr idle t' p.
Proof. intros. unfold runnable. by setoid_rewrite lookup_insert_ne; [|done]. Qed.

Lemma waiting_insert_ne t t' th q : t' ≠ t ->
    waiting (<[t := th]> thr) t' q <-> waiting thr t' q.
Proof. intros. unfold waiting. by setoid_rewrite lookup_insert_ne; [|done]. Qed.

(** A thread in transit is on no queue, and its record may change freely. *)
Lemma sinv_upd t th :
    t ∈ X -> thr_ok idle t th -> sinv X (<[t := th]> thr) rq bm wq idle.
Proof.
  intros Ht Hok. destruct Hinv. split; try done.
  - intros p l t' Hp. rewrite (si_rq0 p l t' Hp).
    destruct (decide (t' = t)) as [->|]; [tauto|]. by rewrite runnable_insert_ne.
  - intros q w t' Hq. rewrite (si_wq0 q w t' Hq).
    destruct (decide (t' = t)) as [->|]; [tauto|]. by rewrite waiting_insert_ne.
  - intros t' th'. rewrite lookup_insert. case_decide; [intros [= <-]; by subst|eauto].
  - intros t' th'. rewrite lookup_insert. case_decide; [|eauto].
    intros [= <-] ?. by subst.
  - rewrite lookup_insert. case_decide; eauto.
Qed.

(** A thread on no queue goes in transit. *)
Lemma sinv_unpark t th :
    thr !! t = Some th -> (state th = THREAD_READY -> t = idle) -> state th ≠ THREAD_BLOCKED ->
    sinv ({[t]} ∪ X) thr rq bm wq idle.
Proof.
  intros Ht Hr Hb. destruct Hinv. split; try done.
  - intros p l t' Hp. rewrite (si_rq0 p l t' Hp).
    destruct (decide (t' = t)) as [->|]; [|set_solver].
    split; [|set_solver]. intros [_ (th' & ? & ? & ? & ?)]. simplify_eq. naive_solver.
  - intros q w t' Hq. rewrite (si_wq0 q w t' Hq).
    destruct (decide (t' = t)) as [->|]; [|set_solver].
    split; [|set_solver]. intros [_ (th' & ? & ? & ?)]. by simplify_eq.
  - intros t' th' ? ?. eapply si_link0; [done|set_solver].
Qed.

(** A thread in transit that belongs on no queue stops being in transit. *)
Lemma sinv_park t th :
    thr !! t = Some th -> (state th = THREAD_READY -> t = idle) -> link_ok wq th ->
    state th ≠ THREAD_BLOCKED -> t ∈ X -> sinv (X ∖ {[t]}) thr rq bm wq idle.
Proof.
  intros Ht Hr Hl Hb HX. destruct Hinv. split; try done.
  - intros p l t' Hp. rewrite (si_rq0 p l t' Hp).
    destruct (decide (t' = t)) as [->|]; [|set_solver].
    split; [tauto|]. intros [_ (th' & ? & ? & ? & ?)]. simplify_eq. naive_solver.
  - intros q w t' Hq. rewrite (si_wq0 q w t' Hq).
    destruct (decide (t' = t)) as [->|]; [|set_solver].
    split; [tauto|]. intros [_ (th' & ? & ? & ?)]. by simplify_eq.
  - intros t' th' Ht' ?. destruct (decide (t' = t)) as [->|]; [by simplify_eq|].
    eapply si_link0; [done|set_solver].
Qed.

(** Bit [p] of the bitmap after inserting into, or emptying, queue [p]. *)
Lemma testbit_shiftl_1 p i : 0 <= p -> 0 <= i -> Z.testbit (Z.shiftl 1 p) i = (i =? p).
Proof.
  intros. rewrite Z.shiftl_spec by lia. destruct (Z.eqb_spec i p) as [->|].
  - by rewrite Z.sub_diag.
  - destruct (Z.lt_ge_cases i p); [by rewrite Z.testbit_neg_r by lia|].
    apply (Z.bits_above_log2 1); simpl; lia.
Qed.

(** A ready thread in transit goes into its run queue. *)
Lemma sinv_rq_insert t th l l' :
    thr !! t = Some th -> t ∈ X -> state th = THREAD_READY -> t ≠ idle ->
    blocking_wait_queue th = None ->
    rq !! priority th = Some l -> (forall x, x ∈ l' <-> x = t \/ x ∈ l) -> NoDup l' -> l' ≠ [] ->
    sinv (X ∖ {[t]}) thr (<[priority th := l']> rq) (Z.lor bm (Z.shiftl 1 (priority th))) wq idle.
Proof.
  intros Ht HX Hst Hi Hb Hl Hl' Hnd Hne. pose proof Hinv as []. 
  assert (0 <= priority th < NUM_PRIORITIES) as Hp by (apply si_rq_dom0; eauto).
  split; try done.
  - intros p. rewrite lookup_insert. case_decide; [subst|done]. split; eauto.
  - intros p l0 t'. rewrite lookup_insert. case_decide; [subst; intros [= <-]|].
    + rewrite Hl', (si_rq0 _ l t' Hl). destruct (decide (t' = t)) as [->|]; [|set_solver].
      split; [|tauto]. intros _. split; [set_solver|]. exists th. done.
    + intros Hp'. rewrite (si_rq0 p l0 t' Hp'). destruct (decide (t' = t)) as [->|]; [|set_solver].
      split; [tauto|]. intros [_ (th' & ? & ? & ? & ?)]. by simplify_eq.
  - intros p l0. rewrite lookup_insert. case_decide; [by intros [= <-]|eauto].
  - apply Z.lor_nonneg. split; [done|]. apply Z.shiftl_nonneg. lia.
  - intros p Hp'. rewrite Z.lor_spec, testbit_shiftl_1, lookup_insert by lia.
    case_decide as E; [subst|].
    + rewrite Z.eqb_refl, orb_true_r. naive_solver.
    + rewrite (proj2 (Z.eqb_neq p (priority th))), orb_false_r by done. by apply si_bm0.
  - intros q w t' Hq. rewrite (si_wq0 q w t' Hq). destruct (decide (t' = t)) as [->|]; [|set_solver].
    split; [tauto|]. intros [_ (th' & ? & ? & ?)]. by simplify_eq.
  - intros t' th' Ht' ?. destruct (decide (t' = t)) as [->|]; [|eapply si_link0; [done|set_solver]].
    simplify_eq. unfold link_ok. by rewrite decide_False by congruence.
Qed.

(** The head of a run queue is taken off it. *)
Lemma sinv_rq_take p t l :
    rq !! p = Some (t :: l) ->
    sinv ({[t]} ∪ X) thr (<[p := l]> rq)
      (if decide (l = []) then Z.ldiff bm (Z.shiftl 1 p) else bm) wq idle.
Proof.
  intros Hl. pose proof Hinv as [].
  assert (0 <= p < NUM_PRIORITIES) as Hp by (apply si_rq_dom0; eauto).
  pose proof (si_rq_nodup0 _ _ Hl) as [Hnt Hnd]%NoDup_cons.
  assert (t ∉ X /\ runnable thr idle t p) as [HtX Hrun].
  { apply (si_rq0 _ _ _ Hl). left. }
  split; try done.
  - intros p'. rewrite lookup_insert. case_decide; [subst|done]. split; eauto.
  - intros p' l0 t'. rewrite lookup_insert. case_decide; [subst; intros [= <-]|].
    + pose proof (si_rq0 _ _ t' Hl) as Hs. rewrite elem_of_cons in Hs.
      destruct (decide (t' = t)) as [->|]; set_solver.
    + intros Hp'. rewrite (si_rq0 p' l0 t' Hp'). destruct (decide (t' = t)) as [->|]; [|set_solver].
      split; [|set_solver]. intros [_ (th' & ? & ? & ? & ?)].
      destruct Hrun as (th & ? & ? & ? & ?). by simplify_eq.
  - intros p' l0. rewrite lookup_insert. case_decide; [by intros [= <-]|eauto].
  - case_decide; [|done]. by apply Z.ldiff_nonneg; left.
  - intros p' Hp'. rewrite lookup_insert. case_decide as El; [subst l|].
    + rewrite Z.ldiff_spec, testbit_shiftl_1 by lia. case_decide as E; [subst|].
      * rewrite Z.eqb_refl, andb_false_r. naive_solver.
      * rewrite (proj2 (Z.eqb_neq p' p)), andb_true_r by done. by apply si_bm0.
    + rewrite (si_bm0 p' Hp'). case_decide; [subst|done].
      split; intros _; eauto.
  - intros q w t' Hq. rewrite (si_wq0 q w t' Hq). destruct (decide (t' = t)) as [->|]; [|set_solver].
    split; [|set_solver]. intros [_ (th' & ? & ? & ?)].
    destruct Hrun as (th & ? & ? & ? & ?). simplify_eq. congruence.
  - intros t' th' ? ?. eapply si_link0; [done|set_solver].
Qed.

(** The wait queue a thread in transit is put on, and the one it leaves. *)
Lemma sinv_wq_insert t th q w :
    thr !! t = Some th -> t ∈ X -> state th = THREAD_BLOCKED -> blocking_wait_queue th = Some q ->
    wq !! q = Some w -> wq_magic w = WAIT_QUEUE_MAGIC ->
    sinv (X ∖ {[t]}) thr rq bm
      (<[q := MkWq (wq_magic w) (wq_list w ++ [t]) (wq_count w + 1)]> wq) idle.
Proof.
  intros Ht HX Hst Hb Hq Hm. pose proof Hinv as [].
  assert (t ∉ wq_list w) as Hnt by (rewrite (si_wq0 _ _ _ Hq); tauto).
  split; try done.
  - intros p l t' Hp. rewrite (si_rq0 p l t' Hp). destruct (decide (t' = t)) as [->|]; [|set_solver].
    split; [tauto|]. intros [_ (th' & ? & ? & ? & ?)]. simplify_eq. congruence.
  - intros q' w' t'. rewrite lookup_insert. case_decide; [subst; intros [= <-]; simpl|].
    + rewrite elem_of_app, (si_wq0 _ _ t' Hq), list_elem_of_singleton.
      destruct (decide (t' = t)) as [->|]; [|set_solver].
      split; [|tauto]. intros _. split; [set_solver|]. by exists th.
    + intros Hq'. rewrite (si_wq0 _ _ t' Hq'). destruct (decide (t' = t)) as [->|]; [|set_solver].
      split; [tauto|]. intros [_ (th' & ? & ? & ?)]. simplify_eq.
  - intros q' w'. rewrite lookup_insert. case_decide; [subst; intros [= <-]; simpl|eauto].
    apply NoDup_app. split_and!; [eauto|set_solver|apply NoDup_singleton].
  - intros q' w'. rewrite lookup_insert. case_decide; [subst; intros [= <-]; simpl|eauto].
    rewrite length_app, (si_wq_count0 _ _ Hq). simpl. lia.
  - intros t' th' Ht' HX'. destruct (decide (t' = t)) as [->|].
    + simplify_eq. unfold link_ok. rewrite decide_True by done.
      eexists q, _. rewrite lookup_insert_eq. done.
    + pose proof (si_link0 _ _ Ht' ltac:(set_solver)) as Hl. unfold link_ok in *.
      case_decide; [|done]. destruct Hl as (q' & w' & ? & ? & ?).
      destruct (decide (q' = q)) as [->|].
      * eexists q, _. rewrite lookup_insert_eq. done.
      * exists q', w'. by rewrite lookup_insert_ne.
Qed.

Lemma sinv_wq_take t q w l' :
    wq !! q = Some w -> t ∈ wq_list w -> NoDup l' -> (forall x, x ∈ l' <-> x ≠ t /\ x ∈ wq_list w) ->
    sinv ({[t]} ∪ X) thr rq bm (<[q := MkWq (wq_magic w) l' (wq_count w - 1)]> wq) idle.
Proof.
  intros Hq Ht Hnd Hl'. pose proof Hinv as [].
  assert (t ∉ X /\ waiting thr t q) as [HtX (th & Hth & Hst & Hb)] by by apply (si_wq0 _ _ _ Hq).
  split; try done.
  - intros p l t' Hp. rewrite (si_rq0 p l t' Hp). destruct (decide (t' = t)) as [->|]; [|set_solver].
    split; [|set_solver]. intros [_ (th' & ? & ? & ? & ?)]. simplify_eq. congruence.
  - intros q' w' t'. rewrite lookup_insert. case_decide; [subst; intros [= <-]; simpl|].
    + rewrite Hl', (si_wq0 _ _ t' Hq). set_solver.
    + intros Hq'. rewrite (si_wq0 _ _ t' Hq'). destruct (decide (t' = t)) as [->|]; [|set_solver].
      split; [|set_solver]. intros [_ (th' & ? & ? & ?)]. simplify_eq.
  - intros q' w'. rewrite lookup_insert. case_decide; [subst; by intros [= <-]|eauto].
  - intros q' w'. rewrite lookup_insert. case_decide; [subst; intros [= <-]; simpl|eauto].
    rewrite (si_wq_count0 _ _ Hq). assert (wq_list w ≡ₚ t :: l') as ->; [|simpl; lia].
    apply NoDup_Permutation; [eauto|constructor; [rewrite Hl'; tauto|done]|].
    intros x. rewrite elem_of_cons, Hl'. destruct (decide (x = t)); naive_solver.
  - intros t' th' Ht' HX'. pose proof (si_link0 _ _ Ht' ltac:(set_solver)) as Hl. unfold link_ok in *.
    case_decide; [|done]. destruct Hl as (q' & w' & ? & ? & ?).
    destruct (decide (q' = q)) as [->|].
    + eexists q, _. rewrite lookup_insert_eq. simplify_eq. done.
    + exists q', w'. by rewrite lookup_insert_ne.
Qed.
End moves.

(** * Effects of the primitives *)

Lemma wp_thread_at t s Q : wp (thread_at t) s Q <-> exists th, k_threads s !! t = Some th /\ Q th s.
Proof. apply (wp_deref (fun s => k_threads s !! t)). Qed.

Lemma wp_upd_thread t f s (Q : unit -> kstate -> Prop) th :
  k_threads s !! t = Some th ->
  Q tt (with_threads (<[t := f th]> (k_threads s)) s) -> wp (upd_thread t f) s Q.
Proof. intros Ht HQ. unfold upd_thread. wp_step. apply wp_thread_at. eauto. Qed.

Lemma wp_on_timer {A} (m : M Timer.state A) s (Q : A -> kstate -> Prop) :
  wp m (k_timer s) (fun a x => Q a (with_timer x s)) -> wp (on_timer m) s Q.
Proof. unfold wp, on_timer. by destruct (m (k_timer s)) as [[??]|]. Qed.

Lemma sinv_not_linked X s t : SINV X s -> t ∈ X ->
  bool_decide (in_rq s t) || bool_decide (in_wq s t) = false.
Proof.
  intros Hinv Ht. apply orb_false_iff. split; apply bool_decide_eq_false.
  - intros (p & l & Hp & Hin). apply (si_rq _ _ _ _ _ _ Hinv _ _ _ Hp) in Hin. tauto.
  - intros (q & w & Hq & Hin). apply (si_wq _ _ _ _ _ _ Hinv _ _ _ Hq) in Hin. tauto.
Qed.

(** The state after run queue [p] was set to [l] by an insertion. *)
Definition rq_insert (p : Z) (l : list tid) (s : kstate) : kstate :=
  with_run_queue_bitmap (Z.lor (k_run_queue_bitmap s) (Z.shiftl 1 p))
    (with_run_queue (<[p := l]> (k_run_queue s)) s).

Section insert.
Context (X : gset tid) (s : kstate) (t : tid) (th : thread_t).
Hypothesis Hinv : SINV ({[t]} ∪ X) s.
Hypothesis HX : t ∉ X.
Hypothesis Ht : k_threads s !! t = Some th.
Hypothesis Hready : state th = THREAD_READY.
Hypothesis Hidle : t ≠ k_idle_thread s.
Hypothesis Hlink : blocking_wait_queue th = None.

Lemma insert_pre : exists l, k_run_queue s !! priority th = Some l /\ t ∉ l /\ NoDup l /\
    magic th = THREAD_MAGIC.
Proof.
  destruct (si_thr _ _ _ _ _ _ Hinv _ _ Ht) as (Hp & Hm & _).
  apply (si_rq_dom _ _ _ _ _ _ Hinv) in Hp as [l Hl]. exists l. split_and!; [done|..].
  - rewrite (si_rq _ _ _ _ _ _ Hinv _ _ _ Hl). set_solver.
  - eapply si_rq_nodup; eauto.
  - apply Hm. congruence.
Qed.

Lemma insert_post l l' :
    k_run_queue s !! priority th = Some l -> (forall x, x ∈ l' <-> x = t \/ x ∈ l) -> NoDup l' ->
    SINV X (rq_insert (priority th) l' s).
Proof.
  intros Hl Hl' Hnd. replace X with (({[t]} ∪ X) ∖ {[t]}) by set_solver. simpl.
  eapply sinv_rq_insert; try done; [set_solver|]. intros ->. eapply not_elem_of_nil, Hl'. by left.
Qed.

Lemma wp_insert_head (Q : unit -> kstate -> Prop) :
    (forall l, k_run_queue s !! priority th = Some l -> SINV X (rq_insert (priority th) (t :: l) s) ->
      Q tt (rq_insert (priority th) (t :: l) s)) ->
    wp (insert_in_run_queue_head t) s Q.
Proof.
  intros HQ. destruct insert_pre as (l & Hl & Hnt & Hnd & Hm).
  unfold insert_in_run_queue_head, rq_at, set_rq, queue_node_in_list.
  wp_step. apply wp_thread_at. exists th. split; [done|]. wp_step. rewrite Hm, Hready.
  do 2 (split; [done|]). rewrite (sinv_not_linked _ _ _ Hinv) by set_solver. split; [done|].
  exists l. split; [done|]. apply HQ; [done|]. eapply insert_post; [done|set_solver|by constructor].
Qed.

Lemma wp_insert_tail (Q : unit -> kstate -> Prop) :
    (forall l, k_run_queue s !! priority th = Some l -> SINV X (rq_insert (priority th) (l ++ [t]) s) ->
      Q tt (rq_insert (priority th) (l ++ [t]) s)) ->
    wp (insert_in_run_queue_tail t) s Q.
Proof.
  intros HQ. destruct insert_pre as (l & Hl & Hnt & Hnd & Hm).
  unfold insert_in_run_queue_tail, rq_at, set_rq, queue_node_in_list.
  wp_step. apply wp_thread_at. exists th. split; [done|]. wp_step. rewrite Hm, Hready.
  do 2 (split; [done|]). rewrite (sinv_not_linked _ _ _ Hinv) by set_solver. split; [done|].
  exists l. split; [done|]. apply HQ; [done|]. eapply insert_post; [done|set_solver|].
  apply NoDup_app_cons. rewrite app_nil_r. done.
Qed.
End insert.

(** * The choice of the next thread *)

(** Highest non-empty priority, first in line. *)
Definition best (s : kstate) (p : Z) (t : tid) (l : list tid) : Prop :=
  k_run_queue s !! p = Some (t :: l) /\
  forall p' l', k_run_queue s !! p' = Some l' -> l' ≠ [] -> p' <= p.

(** Taking the head of queue [p], with its bit cleared when it empties. *)
Definition rq_take (p : Z) (l : list tid) (s : kstate) : kstate :=
  with_run_queue_bitmap (if decide (l = []) then Z.ldiff (k_run_queue_bitmap s) (Z.shiftl 1 p)
                         else k_run_queue_bitmap s)
    (with_run_queue (<[p := l]> (k_run_queue s)) s).

Lemma get_top_loop_S n bm : get_top_loop (S n) bm =
  if bm =? 0 then gets k_idle_thread
  else
    q ← rq_at (32 - 1 - clz32 bm);
    match q with
    | newthread :: rest =>
        _ ← set_rq (32 - 1 - clz32 bm) rest;
        _ ← when (bool_decide (rest = []))
              (modify (fun s => with_run_queue_bitmap
                 (Z.ldiff (k_run_queue_bitmap s) (Z.shiftl 1 (32 - 1 - clz32 bm))) s));
        mret newthread
    | [] => get_top_loop n (Z.ldiff bm (Z.shiftl 1 (32 - 1 - clz32 bm)))
    end.
Proof. done. Qed.

#[local] Opaque get_top_loop.

Lemma get_top_thread_spec X s : SINV X s ->
  wp get_top_thread s (fun t s' =>
    (t = k_idle_thread s /\ s' = s /\ (forall p l, k_run_queue s !! p = Some l -> l = [])) \/
    (exists p l, best s p t l /\ s' = rq_take p l s)).
Proof.
  intros Hinv. pose proof Hinv as [].  unfold get_top_thread. wp_step.
  rewrite get_top_loop_S. destruct (Z.eqb_spec (k_run_queue_bitmap s) 0) as [E|E].
  - wp_step. left. split_and!; [done..|]. intros p l Hp. destruct (decide (l = [])); [done|].
    assert (0 <= p) by (apply mk_is_Some, si_rq_dom0 in Hp; lia).
    assert (Z.testbit (k_run_queue_bitmap s) p = true) as Hb by (apply si_bm0; eauto).
    by rewrite E, Z.bits_0 in Hb.
  - assert (0 < k_run_queue_bitmap s) as Hpos by lia.
    set (p := Z.log2 (k_run_queue_bitmap s)).
    assert (32 - 1 - clz32 (k_run_queue_bitmap s) = p) as -> by (unfold clz32; lia).
    assert (0 <= p) by apply Z.log2_nonneg.
    assert (Z.testbit (k_run_queue_bitmap s) p = true) as Hb by by apply Z.bit_log2.
    apply si_bm0 in Hb as (l & Hl & Hne); [|done]. unfold rq_at. wp_step. exists l. split; [done|].
    destruct l as [|t l]; [done|]. unfold set_rq. wp_step.
    assert (best s p t l) as Hbest.
    { split; [done|]. intros p' l' Hp' Hl'.
      assert (0 <= p') by (apply mk_is_Some, si_rq_dom0 in Hp'; lia).
      destruct (Z.le_gt_cases p' p); [done|].
      assert (Z.testbit (k_run_queue_bitmap s) p' = true) as Hb by (apply si_bm0; eauto).
      rewrite Z.bits_above_log2 in Hb; [done|lia|done]. }
    case_bool_decide as El; wp_step; right; exists p, l; (split; [done|]); unfold rq_take; simpl.
    + by rewrite decide_True.
    + rewrite decide_False by done. by destruct s.
Qed.

#[local] Opaque get_top_thread.

(** * Timers of threads

    [pend] holds the threads inside [wait_queue_block], with whether they set a
    timeout.  A thread's stack timer is queued only while it sleeps or has a
    pending timeout; a sleeping thread's always is, and a blocked thread's when
    it has a timeout; blocked threads are inside [wait_queue_block]. *)

Definition timer_live (tm : Timer.state) (i : timer_id) : Prop :=
  exists x, Timer.timers tm !! i = Some x /\ Timer.magic x = Timer.TIMER_MAGIC.

Record tinv (pend : gmap tid bool) (thr : gmap tid thread_t) (tm : Timer.state) : Prop := {
  ti_wf : Timer.wf tm;
  ti_preempt_live : timer_live tm TmPreempt;
  ti_preempt x : TmPreempt ∈ Timer.timer_queue tm -> Timer.timers tm !! TmPreempt = Some x ->
    Timer.callback x = Some thread_timer_tick_cb /\ 0 < Timer.periodic_time x < Timer.HALF;
  ti_stack t x : TmStack t ∈ Timer.timer_queue tm -> Timer.timers tm !! TmStack t = Some x ->
    Timer.arg x = t /\ Timer.periodic_time x = 0 /\
    ((Timer.callback x = Some thread_sleep_handler_cb /\
        exists th, thr !! t = Some th /\ state th = THREAD_SLEEPING) \/
     (Timer.callback x = Some wait_queue_timeout_handler_cb /\ pend !! t = Some true));
  ti_sleep t th : thr !! t = Some th -> state th = THREAD_SLEEPING ->
    TmStack t ∈ Timer.timer_queue tm;
  ti_pend t b : pend !! t = Some b ->
    (exists th, thr !! t = Some th /\
      (state th = THREAD_BLOCKED \/ state th = THREAD_READY \/ state th = THREAD_RUNNING)) /\
    (b = true -> timer_live tm (TmStack t));
  ti_blocked t th : thr !! t = Some th -> state th = THREAD_BLOCKED ->
    exists b, pend !! t = Some b /\ (b = true -> TmStack t ∈ Timer.timer_queue tm)
}.

Abbreviation TINV pend s := (tinv pend (k_threads s) (k_timer s)).

(** The preemption timer runs exactly while an ordinary thread does. *)
Definition armed (s : kstate) : Prop :=
  forall th, k_threads s !! k_current s = Some th ->
    TmPreempt ∈ Timer.timer_queue (k_timer s) <-> thread_is_real_time_or_idle th = false.

(** A kernel about to choose a thread, and one running it. *)
Record pre_ok (pend : gmap tid bool) (s : kstate) : Prop := {
  pre_sinv : SINV ∅ s;
  pre_tinv : TINV pend s;
  pre_armed : armed s;
  pre_none t th : k_threads s !! t = Some th -> state th ≠ THREAD_RUNNING;
  pre_cur : is_Some (k_threads s !! k_current s)
}.

Record ok (pend : gmap tid bool) (s : kstate) : Prop := {
  ok_sinv : SINV ∅ s;
  ok_tinv : TINV pend s;
  ok_armed : armed s;
  ok_running : exists th, k_threads s !! k_current s = Some th /\ state th = THREAD_RUNNING;
  ok_unique t th : k_threads s !! t = Some th -> state th = THREAD_RUNNING -> t = k_current s
}.

(** A change of a thread's record that the timers do not see. *)
Lemma tinv_upd pend thr tm t th th' :
  tinv pend thr tm -> thr !! t = Some th ->
  (state th = THREAD_SLEEPING <-> state th' = THREAD_SLEEPING) ->
  (is_Some (pend !! t) ->
    state th' = THREAD_BLOCKED \/ state th' = THREAD_READY \/ state th' = THREAD_RUNNING) ->
  (state th' = THREAD_BLOCKED -> state th = THREAD_BLOCKED \/ pend !! t = Some false) ->
  tinv pend (<[t := th']> thr) tm.
Proof.
  intros [] Ht Hs Hp Hb. split; try done.
  - intros t' x Hin Hx. destruct (ti_stack0 t' x Hin Hx) as (? & ? & Hcase).
    split_and!; [done..|]. destruct Hcase as [(? & th0 & Hth0 & ?)|?]; [left|by right].
    split; [done|]. rewrite lookup_insert. case_decide; [|by exists th0].
    subst. simplify_eq. exists th'. split; [done|]. by apply Hs.
  - intros t' th0. rewrite lookup_insert. case_decide; [|eauto]. intros [= <-] Hst. subst.
    eapply ti_sleep0; [done|]. by apply Hs.
  - intros t' b Hb'. destruct (ti_pend0 t' b Hb') as [(th0 & ? & ?) ?]. split; [|done].
    rewrite lookup_insert. case_decide; [subst|by exists th0]. exists th'. eauto.
  - intros t' th0. rewrite lookup_insert. case_decide; [|eauto]. intros [= <-] Hst. subst.
    destruct (Hb Hst) as [Hst'|Hf]; [by eapply ti_blocked0|by exists false].
Qed.

(** Stopping and starting the preemption timer. *)
Lemma timer_live_ext tm tm' i :
  Timer.timers tm' !! i = Timer.timers tm !! i -> timer_live tm i -> timer_live tm' i.
Proof. unfold timer_live. by intros ->. Qed.

Lemma tinv_cancel pend thr tm i :
  tinv pend thr tm -> timer_live tm i ->
  (forall t th, i = TmStack t -> thr !! t = Some th ->
     state th ≠ THREAD_SLEEPING /\ state th ≠ THREAD_BLOCKED) ->
  wp (Timer.timer_cancel i) tm (fun _ tm' => tinv pend thr tm' /\
    Timer.timer_queue tm' = filter (fun x => x ≠ i) (Timer.timer_queue tm)).
Proof.
  intros Hti (x & Hx & Hm) Hns. pose proof Hti as [].
  eapply wp_mono; [by apply Timer.timer_cancel_wf; eauto|].
  intros _ tm' (Hwf & Hn & Hq & Hne & Hlive). split; [|done].
  assert (forall j, timer_live tm j -> timer_live tm' j) as Hlive'.
  { intros j Hj. destruct (decide (j = i)) as [->|]; [done|].
    eapply timer_live_ext; [by apply Hne|done]. }
  split; try done.
  - by apply Hlive'.
  - intros y Hin. rewrite Hq in Hin. apply list_elem_of_filter in Hin as [? ?].
    rewrite Hne by done. by apply ti_preempt0.
  - intros t y Hin. rewrite Hq in Hin. apply list_elem_of_filter in Hin as [? ?].
    rewrite Hne by done. by apply ti_stack0.
  - intros t th Ht Hst. rewrite Hq. apply list_elem_of_filter. split; [|eauto].
    intros <-. by destruct (Hns t th eq_refl Ht).
  - intros t b Hb. destruct (ti_pend0 t b Hb) as [? ?]. eauto.
  - intros t th Ht Hst. destruct (ti_blocked0 t th Ht Hst) as (b & ? & Hb). exists b. split; [done|].
    intros Hb'. rewrite Hq. apply list_elem_of_filter. split; [|auto]. intros <-. by destruct (Hns t th eq_refl Ht).
Qed.

Lemma tinv_arm pend thr tm :
  tinv pend thr tm -> TmPreempt ∉ Timer.timer_queue tm ->
  wp (Timer.timer_set_periodic TmPreempt 10 thread_timer_tick_cb 0%nat) tm
    (fun _ tm' => tinv pend thr tm' /\ TmPreempt ∈ Timer.timer_queue tm').
Proof.
  intros Hti Hnin. pose proof Hti as [].
  unfold Timer.timer_set_periodic. cbn [Z.eqb].
  eapply wp_mono; [apply Timer.timer_set_wf; [done|done|unfold Timer.HALF; lia|done]|].
  intros _ tm' (Hwf & Hn & Hq & Ht'). split; [|rewrite Hq; by left].
  assert (forall t, Timer.timers tm' !! TmStack t = Timer.timers tm !! TmStack t) as Hs.
  { intros t. by rewrite Ht', lookup_insert_ne. }
  split; try done.
  - eexists. rewrite Ht', lookup_insert_eq. done.
  - intros x _. rewrite Ht', lookup_insert_eq. intros [= <-]. simpl.
    split; [done|]. unfold Timer.HALF. lia.
  - intros t x. rewrite Hq, Hs. intros [?|?]; [done|]. by apply ti_stack0.
  - intros t th ??. rewrite Hq. right. eauto.
  - intros t b Hb. destruct (ti_pend0 t b Hb) as [? Hl]. split; [done|]. intros ->.
    eapply timer_live_ext; eauto.
  - intros t th Ht Hst. destruct (ti_blocked0 t th Ht Hst) as (b & ? & Hb). exists b. split; [done|].
    intros Hb'. rewrite Hq. right. auto.
Qed.

(** * Rescheduling *)

(** What a reschedule does not touch: everything but the run queues, the
    preemption timer, the current thread, and the state and quantum of the
    thread it picks. *)
Record resched_frame (s s' : kstate) : Prop := {
  rf_wq : k_wait_queues s' = k_wait_queues s;
  rf_mutexes : k_mutexes s' = k_mutexes s;
  rf_semaphores : k_semaphores s' = k_semaphores s;
  rf_events : k_events s' = k_events s;
  rf_idle : k_idle_thread s' = k_idle_thread s;
  rf_ints : k_ints_disabled s' = k_ints_disabled s;
  rf_list : k_thread_list s' = k_thread_list s;
  rf_free : k_delayed_free s' = k_delayed_free s;
  rf_thr : exists th, k_threads s !! k_current s' = Some th /\ exists q,
    k_threads s' = <[k_current s' := set_remaining_quantum q (set_state THREAD_RUNNING th)]>
                     (k_threads s)
}.

(** The thread it picks is the first of the highest non-empty run queue, the
    idle thread when all are empty, and it leaves its queue. *)
Definition picked (s s' : kstate) : Prop :=
  (k_current s' = k_idle_thread s /\ (forall p l, k_run_queue s !! p = Some l -> l = []) /\
    k_run_queue s' = k_run_queue s) \/
  (exists p l, best s p (k_current s') l /\ k_run_queue s' = <[p := l]> (k_run_queue s)).

(** [get_top_thread] leaves the thread it returns in transit and ready. *)
Lemma get_top_thread_ready pend s : pre_ok pend s ->
  wp get_top_thread s (fun t s' => exists th,
    k_threads s !! t = Some th /\ state th = THREAD_READY /\ SINV {[t]} s' /\
    (exists rq bm, s' = with_run_queue_bitmap bm (with_run_queue rq s)) /\
    ((t = k_idle_thread s /\ (forall p l, k_run_queue s !! p = Some l -> l = []) /\
      k_run_queue s' = k_run_queue s) \/
     (exists p l, best s p t l /\ k_run_queue s' = <[p := l]> (k_run_queue s)))).
Proof.
  intros []. eapply wp_mono; [exact (get_top_thread_spec _ _ pre_sinv0)|].
  intros t s' [(-> & -> & Hemp)|(p & l & Hbest & ->)].
  - destruct (si_idle _ _ _ _ _ _ pre_sinv0) as [th Hth]. exists th.
    destruct (si_thr _ _ _ _ _ _ pre_sinv0 _ _ Hth) as (_ & _ & _ & [?|?]);
      [done| |by apply pre_none0 in Hth].
    split_and!; [done..| | |left; done].
    + replace {[k_idle_thread s]} with ({[k_idle_thread s]} ∪ (∅ : gset tid)) by set_solver.
      eapply sinv_unpark; [done..|congruence].
    + exists (k_run_queue s), (k_run_queue_bitmap s). by destruct s.
  - pose proof Hbest as [Hp _].
    assert (runnable (k_threads s) (k_idle_thread s) t p) as (th & ? & ? & _).
    { apply (si_rq _ _ _ _ _ _ pre_sinv0 _ _ _ Hp). left. }
    exists th. split_and!; [done..| | |right; eauto].
    + replace {[t]} with ({[t]} ∪ (∅ : gset tid)) by set_solver. by apply sinv_rq_take.
    + by eexists _, _.
Qed.

(** The preemption timer is switched over from the old thread to the new. *)
Lemma switch_timer pend thr tm (old new : thread_t) :
  tinv pend thr tm ->
  TmPreempt ∈ Timer.timer_queue tm <-> thread_is_real_time_or_idle old = false ->
  forall s (Q : unit -> kstate -> Prop), k_timer s = tm ->
  (forall tm', tinv pend thr tm' ->
     (TmPreempt ∈ Timer.timer_queue tm' <-> thread_is_real_time_or_idle new = false) ->
     Q tt (with_timer tm' s)) ->
  wp (if thread_is_real_time_or_idle new then
        when (negb (thread_is_real_time_or_idle old)) (on_timer (Timer.timer_cancel TmPreempt))
      else
        when (thread_is_real_time_or_idle old)
          (on_timer (Timer.timer_set_periodic TmPreempt 10 thread_timer_tick_cb 0%nat))) s Q.
Proof.
  intros Hti Harm s Q Htm HQ. subst tm.
  assert (forall b, (TmPreempt ∈ Timer.timer_queue (k_timer s) <-> b = false) ->
    b = thread_is_real_time_or_idle new -> Q tt s) as Hsame.
  { intros b Hb Hb'. specialize (HQ (k_timer s) Hti). rewrite <- Hb' in HQ.
    specialize (HQ Hb). by destruct s. }
  destruct (thread_is_real_time_or_idle new) eqn:En, (thread_is_real_time_or_idle old) eqn:Eo;
    cbn [negb when]; wp_step; [by eapply Hsame| | |by eapply Hsame].
  - apply wp_on_timer. eapply wp_mono; [apply tinv_cancel; [done|by apply (ti_preempt_live _ _ _ Hti)|done]|].
    intros [] tm' [? Hq]. apply HQ; [done|]. rewrite Hq, list_elem_of_filter. split; [tauto|done].
  - apply wp_on_timer. eapply wp_mono; [apply tinv_arm; [done|]|].
    + intros Hin. by apply Harm in Hin.
    + intros [] tm' [? Hq]. by apply HQ.
Qed.

(** A used-up quantum is refilled. *)
Lemma wp_refill t th s (Q : unit -> kstate -> Prop) :
  k_threads s !! t = Some th ->
  (forall q s', s' = with_threads (<[t := set_remaining_quantum q (set_state THREAD_RUNNING th)]>
      (k_threads s)) s -> Q tt s') ->
  let s' := with_threads (<[t := set_state THREAD_RUNNING th]> (k_threads s)) s in
  wp (when (remaining_quantum (set_state THREAD_RUNNING th) <=? 0)
        (upd_thread t (set_remaining_quantum 5))) s' Q.
Proof.
  intros Ht HQ s'. apply wp_when. case_if.
  - eapply wp_upd_thread; [apply lookup_insert_eq|]. apply (HQ 5). simpl. by rewrite insert_insert_eq.
  - apply (HQ (remaining_quantum th)). unfold s'. by destruct th.
Qed.

Lemma thread_resched_spec pend s : pre_ok pend s ->
  wp thread_resched s (fun _ s' => ok pend s' /\ resched_frame s s' /\ picked s s').
Proof.
  intros Hpre. pose proof Hpre as []. destruct pre_cur0 as [cur Hcur].
  unfold thread_resched. wp_step. apply wp_thread_at. exists cur. split; [done|]. wp_step.
  split. { apply negb_true_iff, bool_decide_eq_false. eauto. }
  eapply wp_mono; [exact (get_top_thread_ready pend s Hpre)|].
  intros t s1 (th & Ht & Hst & Hsinv & (rq & bm & ->) & Hpick). simpl in Hsinv, Hpick.
  set (s1 := with_run_queue_bitmap bm (with_run_queue rq s)) in *.
  pose proof (si_thr _ _ _ _ _ _ pre_sinv0 _ _ Ht) as (Hprio & Hmagic & Hidle & _).
  assert (link_ok (k_wait_queues s) th) as Hlink by (eapply (si_link _ _ _ _ _ _ pre_sinv0); [done|set_solver]).
  assert (blocking_wait_queue th = None) as Hbwq.
  { unfold link_ok in Hlink. by rewrite decide_False in Hlink by congruence. }
  (* the state once the new thread runs with quantum [q] *)
  assert (forall q, let thr := <[t := set_remaining_quantum q (set_state THREAD_RUNNING th)]>
      (k_threads s) in sinv ∅ thr rq bm (k_wait_queues s) (k_idle_thread s) /\
      tinv pend thr (k_timer s)) as Hrun.
  { intros q. split.
    - replace ∅ with ({[t]} ∖ {[t]} : gset tid) by (clear; set_solver).
      eapply sinv_park; [|by rewrite lookup_insert_eq|done| |done|clear; set_solver].
      + eapply sinv_upd; [done|clear; set_solver|]. repeat split; simpl; try lia; try apply Hidle; [|by right].
        intros _. apply Hmagic. congruence.
      + unfold link_ok. by rewrite decide_False.
    - eapply tinv_upd; [done..| | |]; simpl; [by rewrite Hst; split|auto|done]. }
  assert (forall q, let thr := <[t := set_remaining_quantum q (set_state THREAD_RUNNING th)]>
      (k_threads s) in forall t' th', thr !! t' = Some th' -> state th' = THREAD_RUNNING -> t' = t)
    as Huniq.
  { intros q thr t' th'. unfold thr. rewrite lookup_insert. case_decide; [by subst|].
    intros Ht' Hr. by apply pre_none0 in Ht'. }
  wp_step. eapply wp_upd_thread; [done|]. case_bool_decide as Hsame.
  - wp_step. subst t.
    replace (set_state THREAD_RUNNING th) with
      (set_remaining_quantum (remaining_quantum th) (set_state THREAD_RUNNING th)) by by destruct th.
    destruct (Hrun (remaining_quantum th)) as [? ?]. split_and!; [split; simpl; try done| |done].
    + intros th'. simpl. rewrite lookup_insert_eq. intros [= <-]. exact (pre_armed0 th Ht).
    + eexists. by rewrite lookup_insert_eq.
    + by apply Huniq.
    + split; try done. simpl. eauto.
  - wp_step. apply wp_thread_at. eexists. simpl. rewrite lookup_insert_eq. split; [done|]. wp_step.
    (* the quantum is refilled when it is used up *)
    apply (wp_refill t th s1); [done|]. intros q s2 Hs2. wp_step. simpl in Hs2.
    apply wp_thread_at. exists (set_remaining_quantum q (set_state THREAD_RUNNING th)).
    subst s2. simpl. rewrite lookup_insert_eq. split; [done|]. wp_step.
    apply wp_thread_at. exists cur. simpl. rewrite lookup_insert_ne by done. split; [done|]. wp_step.
    destruct (Hrun q) as [Hsinv' Htinv'].
    eapply switch_timer; [exact Htinv'|by apply pre_armed0|done|].
    intros tm' Htm' Harm'. wp_step. simpl.
    split_and!; [split; simpl; try done|split; simpl; try done; eauto|done].
    + intros th'. simpl. rewrite lookup_insert_eq. intros [= <-]. exact Harm'.
    + eexists. by rewrite lookup_insert_eq.
    + by apply Huniq.
Qed.

(** What holds after the reschedule that ends an operation, from the state [s1]
    it was called in. *)
Definition rescheduled (pend : gmap tid bool) (s1 s' : kstate) : Prop :=
  pre_ok pend s1 /\ ok pend s' /\ resched_frame s1 s' /\ picked s1 s'.

Lemma wp_resched pend s (Q : unit -> kstate -> Prop) :
  pre_ok pend s -> (forall s', rescheduled pend s s' -> Q tt s') -> wp thread_resched s Q.
Proof.
  intros Hpre HQ. eapply wp_mono; [by apply (thread_resched_spec pend)|].
  intros [] s' (? & ? & ?). by apply HQ.
Qed.

(** * The running thread *)

Lemma ok_current pend s : ok pend s -> exists th,
  k_threads s !! k_current s = Some th /\ state th = THREAD_RUNNING /\
  magic th = THREAD_MAGIC /\ blocking_wait_queue th = None /\
  (thread_is_idle th = true <-> k_current s = k_idle_thread s) /\
  0 <= priority th < NUM_PRIORITIES.
Proof.
  intros []. destruct ok_running0 as (th & Hth & Hst). exists th.
  destruct (si_thr _ _ _ _ _ _ ok_sinv0 _ _ Hth) as (? & Hm & Hi & _).
  pose proof (si_link _ _ _ _ _ _ ok_sinv0 _ _ Hth ltac:(set_solver)) as Hl.
  unfold link_ok in Hl. rewrite decide_False in Hl by congruence.
  do 2 (split; [done|]). split; [apply Hm; congruence|]. done.
Qed.

(** The record of the running thread is replaced by [th'], and the thread is in
    transit: it is about to be queued, to sleep, to block or to end. *)
Section leave.
Context (pend : gmap tid bool) (s : kstate) (th th' : thread_t).
Hypothesis Hok : ok pend s.
Hypothesis Hth : k_threads s !! k_current s = Some th.
Hypothesis Hprio : 0 <= priority th' < NUM_PRIORITIES.
Hypothesis Hflags : flags th' = flags th.
Hypothesis Hmagic : state th' ≠ THREAD_DEATH -> magic th' = magic th.

Lemma leave_sinv :
    (k_current s = k_idle_thread s -> state th' = THREAD_READY \/ state th' = THREAD_RUNNING) ->
    sinv ({[k_current s]} ∪ ∅) (<[k_current s := th']> (k_threads s)) (k_run_queue s)
      (k_run_queue_bitmap s) (k_wait_queues s) (k_idle_thread s).
Proof.
  intros Hi. destruct (ok_current _ _ Hok) as (th0 & Hth0 & Hst & Hm & Hb & Hidle & _).
  assert (th0 = th) as -> by congruence.
  apply sinv_upd; [|set_solver|].
  - eapply sinv_unpark; [apply Hok|done|congruence|congruence].
  - unfold thread_is_idle, has_flag in *. rewrite <- Hflags in Hidle.
    repeat split; try apply Hidle; try lia; [|done]. intros Hd. rewrite <- Hm. by apply Hmagic.
Qed.

Lemma leave_armed s1 :
    k_current s1 = k_current s -> k_timer s1 = k_timer s ->
    k_threads s1 = <[k_current s := th']> (k_threads s) -> armed s1.
Proof.
  intros Hc Ht Hthr th0. rewrite Hc, Ht, Hthr, lookup_insert_eq. intros [= <-].
  unfold thread_is_real_time_or_idle, has_flag. rewrite Hflags. by apply (ok_armed _ _ Hok).
Qed.

Lemma leave_none : state th' ≠ THREAD_RUNNING ->
    forall t th0, <[k_current s := th']> (k_threads s) !! t = Some th0 -> state th0 ≠ THREAD_RUNNING.
Proof.
  intros Hst t th0. rewrite lookup_insert. case_decide as E; [by intros [= <-]|].
  intros Ht Hr. apply E. symmetry. by eapply ok_unique.
Qed.

Lemma leave_tinv : state th' = THREAD_READY ->
    tinv pend (<[k_current s := th']> (k_threads s)) (k_timer s).
Proof.
  intros Hst. destruct (ok_current _ _ Hok) as (th0 & Hth0 & Hst0 & _).
  eapply tinv_upd; [apply Hok|done|rewrite Hst, Hst0; by split|rewrite Hst; auto|by rewrite Hst].
Qed.

(** Queued again, at either end. *)
Lemma leave_requeued l' p :
    state th' = THREAD_READY -> p = priority th' ->
    let s1 := with_threads (<[k_current s := th']> (k_threads s)) s in
    SINV ∅ (rq_insert p l' s1) -> pre_ok pend (rq_insert p l' s1).
Proof.
  intros Hst -> s1 Hsinv. split; simpl; [done|by apply leave_tinv| | |].
  - eapply leave_armed; done.
  - apply leave_none. congruence.
  - rewrite lookup_insert_eq. done.
Qed.

(** The idle thread is left off the queues. *)
Lemma leave_idle :
    state th' = THREAD_READY -> blocking_wait_queue th' = None -> k_current s = k_idle_thread s ->
    pre_ok pend (with_threads (<[k_current s := th']> (k_threads s)) s).
Proof.
  intros Hst Hb Hi. split; simpl; [|by apply leave_tinv| | |].
  - replace ∅ with (({[k_current s]} ∪ ∅) ∖ {[k_current s]} : gset tid) by set_solver.
    eapply sinv_park; [apply leave_sinv; auto|apply lookup_insert_eq|done| |congruence|set_solver].
    unfold link_ok. by rewrite decide_False by congruence.
  - eapply leave_armed; done.
  - apply leave_none. congruence.
  - rewrite lookup_insert_eq. done.
Qed.
End leave.

Lemma requeue_head pend s th th' (Q : unit -> kstate -> Prop) :
  ok pend s -> k_threads s !! k_current s = Some th ->
  0 <= priority th' < NUM_PRIORITIES -> flags th' = flags th -> magic th' = magic th ->
  state th' = THREAD_READY -> blocking_wait_queue th' = None -> k_current s ≠ k_idle_thread s ->
  let s1 := with_threads (<[k_current s := th']> (k_threads s)) s in
  (forall l, k_run_queue s !! priority th' = Some l ->
    pre_ok pend (rq_insert (priority th') (k_current s :: l) s1) ->
    Q tt (rq_insert (priority th') (k_current s :: l) s1)) ->
  wp (insert_in_run_queue_head (k_current s)) s1 Q.
Proof.
  intros Hok Hth Hp Hf Hm Hst Hb Hi s1 HQ.
  eapply (wp_insert_head ∅ s1); [|set_solver|apply lookup_insert_eq|done..|].
  - unfold s1. simpl. eapply leave_sinv; eauto; congruence.
  - intros l Hl Hs. apply HQ; [done|]. eapply leave_requeued; eauto.
Qed.

Lemma requeue_tail pend s th th' (Q : unit -> kstate -> Prop) :
  ok pend s -> k_threads s !! k_current s = Some th ->
  0 <= priority th' < NUM_PRIORITIES -> flags th' = flags th -> magic th' = magic th ->
  state th' = THREAD_READY -> blocking_wait_queue th' = None -> k_current s ≠ k_idle_thread s ->
  let s1 := with_threads (<[k_current s := th']> (k_threads s)) s in
  (forall l, k_run_queue s !! priority th' = Some l ->
    pre_ok pend (rq_insert (priority th') (l ++ [k_current s]) s1) ->
    Q tt (rq_insert (priority th') (l ++ [k_current s]) s1)) ->
  wp (insert_in_run_queue_tail (k_current s)) s1 Q.
Proof.
  intros Hok Hth Hp Hf Hm Hst Hb Hi s1 HQ.
  eapply (wp_insert_tail ∅ s1); [|set_solver|apply lookup_insert_eq|done..|].
  - unfold s1. simpl. eapply leave_sinv; eauto; congruence.
  - intros l Hl Hs. apply HQ; [done|]. eapply leave_requeued; eauto.
Qed.


End Sched.
