(* ===== verification/SchedOps.v ===== *)
(** The operations of [kernel/thread.c] keep the scheduler's invariant, and what
    each does to the queues. *)
From S2P Require Import Prelude Timer KState Thread Sched.
Local Open Scope Z_scope.

Module SchedOps.
Import KState Thread Sched.

#[local] Opaque get_top_loop get_top_thread thread_resched.

(** Successive writes to a thread are one write. *)
Lemma with_threads_twice x y s : with_threads x (with_threads y s) = with_threads x s.
Proof. done. Qed.
Lemma k_threads_with_threads x s : k_threads (with_threads x s) = x.
Proof. done. Qed.

Ltac merge_upd :=
  rewrite ?with_threads_twice, ?k_threads_with_threads; rewrite ?insert_insert_eq.
Ltac upd_thread_step :=
  eapply wp_upd_thread;
  [first [eassumption | rewrite ?k_threads_with_threads; apply lookup_insert_eq]
  | merge_upd; wp_step].

(** Reading a thread known to be live. *)
Ltac thread_step :=
  apply wp_thread_at; eexists; split; [first [eassumption | apply lookup_insert_eq]|]; wp_step.

(** * Operations of the running thread *)

(** [requeued s th' l']: the running thread's record becomes [th'] and run
    queue [priority th'] becomes [l']. *)
Definition requeued (s : kstate) (th' : thread_t) (l' : list tid) : kstate :=
  rq_insert (priority th') l' (with_threads (<[k_current s := th']> (k_threads s)) s).

Lemma thread_yield_spec pend s th : ok pend s -> k_threads s !! k_current s = Some th ->
  wp thread_yield s (fun _ s' =>
    let th' := set_remaining_quantum 0 (set_state THREAD_READY th) in
    if thread_is_idle th
    then rescheduled pend (with_threads (<[k_current s := th']> (k_threads s)) s) s'
    else exists l, k_run_queue s !! priority th = Some l /\
      rescheduled pend (requeued s th' (l ++ [k_current s])) s').
Proof.
  intros Hok Hth. destruct (ok_current _ _ Hok) as (th0 & Hth0 & Hst & Hm & Hb & Hidle & Hp).
  assert (th0 = th) as -> by congruence.
  unfold thread_yield. wp_step. thread_step. rewrite Hm, Hst. do 2 (split; [done|]).
  upd_thread_step. upd_thread_step. destruct (thread_is_idle th) eqn:Ei; simpl.
  - wp_step. eapply wp_resched; [|done].
    eapply leave_idle; try done. by apply Hidle.
  - apply (requeue_tail pend s th (set_remaining_quantum 0 (set_state THREAD_READY th)));
      try done; [intros E; by apply Hidle in E; congruence|].
    intros l Hl Hpre. eapply wp_resched; [done|]. eauto.
Qed.

Lemma thread_preempt_spec pend s th : ok pend s -> k_threads s !! k_current s = Some th ->
  wp thread_preempt s (fun _ s' =>
    let th' := set_state THREAD_READY th in
    if thread_is_idle th
    then rescheduled pend (with_threads (<[k_current s := th']> (k_threads s)) s) s'
    else exists l, k_run_queue s !! priority th = Some l /\
      rescheduled pend (requeued s th'
        (if 0 <? remaining_quantum th then k_current s :: l else l ++ [k_current s])) s').
Proof.
  intros Hok Hth. destruct (ok_current _ _ Hok) as (th0 & Hth0 & Hst & Hm & Hb & Hidle & Hp).
  assert (th0 = th) as -> by congruence.
  unfold thread_preempt. wp_step. thread_step. rewrite Hm, Hst. do 2 (split; [done|]).
  upd_thread_step. destruct (thread_is_idle th) eqn:Ei; simpl.
  - wp_step. eapply wp_resched; [|done]. eapply leave_idle; try done. by apply Hidle.
  - assert (k_current s ≠ k_idle_thread s) by (intros E; by apply Hidle in E).
    case_if.
    + apply (requeue_head pend s th (set_state THREAD_READY th)); try done.
      intros l Hl Hpre. eapply wp_resched; [done|]. eauto.
    + apply (requeue_tail pend s th (set_state THREAD_READY th)); try done.
      intros l Hl Hpre. eapply wp_resched; [done|]. eauto.
Qed.

(** The priority [thread_set_priority] assigns: clamped above the idle thread's. *)
Definition clamp_priority (p : Z) : Z :=
  Z.min HIGHEST_PRIORITY (Z.max (IDLE_PRIORITY + 1) p).

Lemma thread_set_priority_spec pend s th p :
  ok pend s -> k_threads s !! k_current s = Some th -> k_current s ≠ k_idle_thread s ->
  wp (thread_set_priority p) s (fun _ s' =>
    exists l, k_run_queue s !! clamp_priority p = Some l /\
      rescheduled pend (requeued s (set_state THREAD_READY (KState.set_priority (clamp_priority p) th))
        (k_current s :: l)) s').
Proof.
  intros Hok Hth Hi. destruct (ok_current _ _ Hok) as (th0 & Hth0 & Hst & Hm & Hb & Hidle & Hp).
  assert (th0 = th) as -> by congruence.
  unfold thread_set_priority. wp_step.
  assert (forall q, (if HIGHEST_PRIORITY <? (if q <=? IDLE_PRIORITY then IDLE_PRIORITY + 1 else q)
    then HIGHEST_PRIORITY else if q <=? IDLE_PRIORITY then IDLE_PRIORITY + 1 else q)
    = clamp_priority q) as ->.
  { intros q. unfold clamp_priority, HIGHEST_PRIORITY, IDLE_PRIORITY, LOWEST_PRIORITY, NUM_PRIORITIES.
    destruct (Z.leb_spec q 0); case_if; lia. }
  assert (0 <= clamp_priority p < NUM_PRIORITIES) as Hc.
  { unfold clamp_priority, HIGHEST_PRIORITY, IDLE_PRIORITY, LOWEST_PRIORITY, NUM_PRIORITIES. lia. }
  upd_thread_step. upd_thread_step.
  apply (requeue_head pend s th (set_state THREAD_READY (KState.set_priority (clamp_priority p) th)));
    try done.
  intros l Hl Hpre. eapply wp_resched; [done|]. eauto.
Qed.

(** * Operations with threads in transit *)

(** The invariant while the threads of [X] are between queues; the current
    thread is running when [run], and no thread is otherwise. *)
Record mid (X : gset tid) (run : bool) (pend : gmap tid bool) (s : kstate) : Prop := {
  mid_sinv : SINV X s;
  mid_tinv : TINV pend s;
  mid_armed : armed s;
  mid_cur : exists th, k_threads s !! k_current s = Some th /\
    (run = true -> state th = THREAD_RUNNING);
  mid_run t th : k_threads s !! t = Some th -> state th = THREAD_RUNNING ->
    run = true /\ t = k_current s
}.

Lemma ok_mid pend s : ok pend s -> mid ∅ true pend s.
Proof.
  intros []. split; try done.
  - destruct ok_running0 as (th & ? & ?). by exists th.
  - intros t th Ht Hr. split; [done|]. by eapply ok_unique0.
Qed.
Lemma mid_ok pend s : mid ∅ true pend s -> ok pend s.
Proof.
  intros []. split; try done.
  - destruct mid_cur0 as (th & ? & Hr). exists th. split; [done|]. by apply Hr.
  - intros t th Ht Hr. by apply (mid_run0 t th).
Qed.
Lemma mid_pre_ok pend s : mid ∅ false pend s -> pre_ok pend s.
Proof.
  intros []. split; try done.
  - intros t th Ht Hr. by destruct (mid_run0 t th Ht Hr).
  - destruct mid_cur0 as (th & ? & _). eauto.
Qed.

(** The same record up to its queueing: state, quantum, wait queue, result. *)
Definition same_thread (th th' : thread_t) : Prop :=
  priority th' = priority th /\ magic th' = magic th /\ flags th' = flags th.

Lemma thr_ok_same idle t th th' :
  thr_ok idle t th -> same_thread th th' -> state th ≠ THREAD_DEATH ->
  (t = idle -> state th' = THREAD_READY \/ state th' = THREAD_RUNNING) -> thr_ok idle t th'.
Proof.
  intros (Hp & Hm & Hi & _) (Ep & Em & Ef) Hd Hs. unfold thr_ok, thread_is_idle, has_flag in *.
  rewrite Ep, Em, Ef. repeat split; try apply Hi; try lia; [|done]. intros _. by apply Hm.
Qed.

Lemma armed_upd s t th th' :
  armed s -> k_threads s !! t = Some th -> flags th' = flags th ->
  armed (with_threads (<[t := th']> (k_threads s)) s).
Proof.
  intros Ha Ht Hf th0. simpl. rewrite lookup_insert. case_decide; [|apply Ha].
  intros [= <-]. subst. unfold thread_is_real_time_or_idle, has_flag. rewrite Hf. by apply Ha.
Qed.

(** A thread in transit gets a new record that does not run. *)
Lemma mid_upd X run pend s t th th' :
  mid X run pend s -> t ∈ X -> k_threads s !! t = Some th -> (run = true -> t ≠ k_current s) ->
  thr_ok (k_idle_thread s) t th' -> flags th' = flags th -> state th' ≠ THREAD_RUNNING ->
  (state th = THREAD_SLEEPING <-> state th' = THREAD_SLEEPING) ->
  (is_Some (pend !! t) ->
    state th' = THREAD_BLOCKED \/ state th' = THREAD_READY \/ state th' = THREAD_RUNNING) ->
  (state th' = THREAD_BLOCKED -> state th = THREAD_BLOCKED \/ pend !! t = Some false) ->
  mid X run pend (with_threads (<[t := th']> (k_threads s)) s).
Proof.
  intros [] HX Ht Hc Hok Hf Hr Hs Hp Hb. split; simpl.
  - by apply sinv_upd.
  - by eapply tinv_upd.
  - by eapply armed_upd.
  - destruct mid_cur0 as (thc & Hthc & Hrun). rewrite lookup_insert. case_decide as E; [|eauto].
    eexists. split; [done|]. intros Hr'. by destruct (Hc Hr').
  - intros t' th0. rewrite lookup_insert. case_decide; [by intros [= <-]|apply mid_run0].
Qed.

(** A ready thread in transit is queued, at the head. *)
Lemma mid_insert_head X run pend s t th :
  mid ({[t]} ∪ X) run pend s -> t ∉ X -> k_threads s !! t = Some th ->
  state th = THREAD_READY -> t ≠ k_idle_thread s -> blocking_wait_queue th = None ->
  wp (insert_in_run_queue_head t) s (fun _ s' => mid X run pend s' /\
    exists l, k_run_queue s !! priority th = Some l /\ s' = rq_insert (priority th) (t :: l) s).
Proof.
  intros [] HX Ht Hst Hi Hb. eapply (wp_insert_head X s); [done..|].
  intros l Hl Hs. split; [|eauto]. by split.
Qed.

(** * What other components see of a kernel state *)

Record view := MkView {
  v_wq : gmap wqid wait_queue_t;
  v_ret : gmap tid Z;
  v_mutexes : gmap nat mutex_t;
  v_semaphores : gmap nat semaphore_t;
  v_events : gmap nat event_t;
  v_idle : tid;
  v_ints : bool
}.

Definition rets (thr : gmap tid thread_t) : gmap tid Z := wait_queue_block_ret <$> thr.
Definition view_of (s : kstate) : view :=
  MkView (k_wait_queues s) (rets (k_threads s)) (k_mutexes s) (k_semaphores s) (k_events s)
    (k_idle_thread s) (k_ints_disabled s).

Lemma rets_upd thr t th th' :
  thr !! t = Some th -> wait_queue_block_ret th' = wait_queue_block_ret th ->
  rets (<[t := th']> thr) = rets thr.
Proof.
  intros Ht He. unfold rets. rewrite fmap_insert, He. apply insert_id.
  by rewrite lookup_fmap, Ht.
Qed.

Lemma view_resched s s' : resched_frame s s' -> view_of s' = view_of s.
Proof.
  intros []. unfold view_of. destruct rf_thr0 as (th & Hth & q & ->).
  rewrite (rets_upd _ _ th) by done. congruence.
Qed.

Lemma view_rescheduled pend s s' : rescheduled pend s s' -> view_of s' = view_of s.
Proof. intros (_ & _ & Hf & _). by apply view_resched. Qed.

Lemma view_rq_insert p l s : view_of (rq_insert p l s) = view_of s.
Proof. done. Qed.

Lemma view_upd s t th th' :
  k_threads s !! t = Some th -> wait_queue_block_ret th' = wait_queue_block_ret th ->
  view_of (with_threads (<[t := th']> (k_threads s)) s) = view_of s.
Proof. intros. unfold view_of. simpl. by erewrite rets_upd. Qed.

(** * Wake-ups *)

(** A thread taken off a wait queue with result [err]. *)
Definition woken (err : Z) (th : thread_t) : thread_t :=
  set_blocking_wait_queue None (set_wait_queue_block_ret err (set_state THREAD_READY th)).

Definition popped (q : wqid) (w : wait_queue_t) (t : tid) (th : thread_t) (l : list tid)
    (err : Z) (s : kstate) : kstate :=
  with_threads (<[t := woken err th]> (k_threads s))
    (with_wait_queues (<[q := MkWq (wq_magic w) l (wq_count w - 1)]> (k_wait_queues s)) s).

(** A thread on wait queue [q] is blocked there. *)
Lemma on_wq X run pend s q w t :
  mid X run pend s -> k_wait_queues s !! q = Some w -> t ∈ wq_list w ->
  t ∉ X /\ t ≠ k_idle_thread s /\ exists th, k_threads s !! t = Some th /\
    state th = THREAD_BLOCKED /\ blocking_wait_queue th = Some q /\ (run = true -> t ≠ k_current s) /\
    is_Some (pend !! t) /\ thr_ok (k_idle_thread s) t th.
Proof.
  intros [] Hq Ht.
  destruct (proj1 (si_wq _ _ _ _ _ _ mid_sinv0 _ _ t Hq) Ht) as (HX & th & Hth & Hst & Hb).
  pose proof (si_thr _ _ _ _ _ _ mid_sinv0 _ _ Hth) as Hok. split; [done|].
  split. { intros Hi. pose proof Hok as (_ & _ & _ & [?|?]); [done|congruence..]. }
  exists th. split_and!; [done..| | |done].
  - intros -> ->. destruct mid_cur0 as (th' & Hth' & Hr). rewrite Hth in Hth'. simplify_eq.
    rewrite Hst in Hr. by discriminate Hr.
  - destruct (ti_blocked _ _ _ mid_tinv0 _ _ Hth Hst) as (b & -> & _). done.
Qed.

Lemma mid_popped X run pend s q w t th l err :
  mid X run pend s -> k_wait_queues s !! q = Some w -> t ∈ wq_list w ->
  k_threads s !! t = Some th -> NoDup l -> (forall x, x ∈ l <-> x ≠ t /\ x ∈ wq_list w) ->
  mid ({[t]} ∪ X) run pend (popped q w t th l err s).
Proof.
  intros Hmid Hq Ht Hth Hnd Hl.
  destruct (on_wq _ _ _ _ _ _ _ Hmid Hq Ht) as (HX & Hi & th' & ? & Hst & Hb & Hc & Hp & Hok).
  simplify_eq.
  eapply (mid_upd _ _ _ (with_wait_queues (<[q := MkWq (wq_magic w) l (wq_count w - 1)]>
    (k_wait_queues s)) s)); try done; simpl.
  - destruct Hmid. split; try done. by eapply sinv_wq_take.
  - clear. set_solver.
  - eapply thr_ok_same; [done|done|congruence|done].
  - by rewrite Hst.
  - auto.
Qed.

Lemma view_popped q w t th l err s :
  view_of (popped q w t th l err s) =
    MkView (<[q := MkWq (wq_magic w) l (wq_count w - 1)]> (k_wait_queues s))
      (<[t := err]> (rets (k_threads s))) (k_mutexes s) (k_semaphores s) (k_events s)
      (k_idle_thread s) (k_ints_disabled s).
Proof. unfold view_of, popped, rets. simpl. by rewrite fmap_insert. Qed.

Lemma wp_pop X run pend s q w t rest err (Q : unit -> kstate -> Prop) :
  mid X run pend s -> k_wait_queues s !! q = Some w -> wq_list w = t :: rest ->
  (forall th, k_threads s !! t = Some th -> t ∉ X -> t ≠ k_idle_thread s ->
    mid ({[t]} ∪ X) run pend (popped q w t th rest err s) -> Q tt (popped q w t th rest err s)) ->
  wp (wait_queue_pop q w t rest err) s Q.
Proof.
  intros Hmid Hq Hl HQ. assert (t ∈ wq_list w) as Ht by (rewrite Hl; left).
  destruct (on_wq _ _ _ _ _ _ _ Hmid Hq Ht) as (HX & Hi & th & Hth & Hst & _).
  unfold wait_queue_pop, set_wq. wp_step. thread_step. rewrite Hst. split; [done|].
  eapply wp_upd_thread; [eassumption|]. wp_step. upd_thread_step.
  eapply wp_upd_thread; [rewrite ?k_threads_with_threads; apply lookup_insert_eq|]. merge_upd.
  apply HQ; [done..|]. eapply mid_popped; try done.
  - pose proof (si_wq_nodup _ _ _ _ _ _ (mid_sinv _ _ _ _ Hmid) _ _ Hq) as Hnd.
    rewrite Hl in Hnd. by apply NoDup_cons in Hnd as [_ ?].
  - pose proof (si_wq_nodup _ _ _ _ _ _ (mid_sinv _ _ _ _ Hmid) _ _ Hq) as Hnd.
    rewrite Hl in *. apply NoDup_cons in Hnd as [Hnt _]. intros x. rewrite elem_of_cons.
    clear -Hnt. split; [|tauto]. intros Hx. split; [|by right]. by intros ->.
Qed.

(** The popped thread is queued. *)
Lemma wp_insert_popped X run pend s q w t th l err (Q : unit -> kstate -> Prop) s1 :
  s1 = popped q w t th l err s -> mid ({[t]} ∪ X) run pend s1 -> t ∉ X -> t ≠ k_idle_thread s ->
  (forall s2 l', k_run_queue s1 !! priority th = Some l' -> s2 = rq_insert (priority th) (t :: l') s1 ->
    mid X run pend s2 -> Q tt s2) ->
  wp (insert_in_run_queue_head t) s1 Q.
Proof.
  intros -> Hmid HX Hi HQ.
  eapply wp_mono; [eapply (mid_insert_head X run pend _ t (woken err th)); [done|done|apply lookup_insert_eq|done..]|].
  intros [] s2 (Hm & l' & Hl' & Hs2). by eapply HQ.
Qed.

(** The running thread makes way. *)
Lemma wp_ready_current X pend s (Q : unit -> kstate -> Prop) :
  mid X true pend s -> k_current s ∉ X -> k_current s ≠ k_idle_thread s ->
  (forall th l s', k_threads s !! k_current s = Some th -> 
     k_run_queue s !! priority th = Some l ->
     s' = requeued s (set_state THREAD_READY th) (k_current s :: l) ->
     mid X false pend s' -> Q tt s') ->
  wp ready_current s Q.
Proof.
  intros Hmid HX Hi HQ. pose proof Hmid as []. destruct mid_cur0 as (th & Hth & Hst).
  specialize (Hst eq_refl). unfold ready_current. wp_step. upd_thread_step.
  pose proof (si_link _ _ _ _ _ _ mid_sinv0 _ _ Hth HX) as Hl. unfold link_ok in Hl.
  rewrite decide_False in Hl by congruence.
  pose proof (si_thr _ _ _ _ _ _ mid_sinv0 _ _ Hth) as Hok.
  assert (mid ({[k_current s]} ∪ X) false pend
    (with_threads (<[k_current s := set_state THREAD_READY th]> (k_threads s)) s)) as Hm1.
  { split; simpl.
    - apply sinv_upd; [|clear; set_solver|eapply thr_ok_same; [done|done|congruence|done]].
      eapply sinv_unpark; [done|done|congruence|congruence].
    - eapply tinv_upd; [done|done|rewrite Hst; simpl; by split|simpl; auto|simpl; done].
    - by eapply armed_upd.
    - eexists. rewrite lookup_insert_eq. split; [done|discriminate].
    - intros t th0. rewrite lookup_insert. case_decide as E; [by intros [= <-]|].
      intros Ht Hr. destruct (mid_run0 _ _ Ht Hr) as [_ ->]. done. }
  eapply wp_mono; [eapply (mid_insert_head X); [exact Hm1|done|apply lookup_insert_eq|done..]|].
  intros [] s2 (Hm & l' & Hl' & Hs2). eapply HQ; [done| |done|done]. done.
Qed.

(** [wait_queue_wake_one]: the longest waiting thread is made ready with the
    given result and leaves the queue. *)
Definition wake_view (q : wqid) (w : wait_queue_t) (t : tid) (l : list tid) (err : Z)
    (v : view) : view :=
  MkView (<[q := MkWq (wq_magic w) l (wq_count w - 1)]> (v_wq v)) (<[t := err]> (v_ret v))
    (v_mutexes v) (v_semaphores v) (v_events v) (v_idle v) (v_ints v).

Lemma wake_one_spec pend s q w b err :
  ok pend s -> k_wait_queues s !! q = Some w -> wq_magic w = WAIT_QUEUE_MAGIC ->
  (b = true -> k_current s ≠ k_idle_thread s) ->
  wp (wait_queue_wake_one q b err) s (fun r s' => ok pend s' /\
    match wq_list w with
    | [] => r = 0 /\ s' = s
    | t :: rest => r = 1 /\ view_of s' = wake_view q w t rest err (view_of s) /\
        (b = false -> k_current s' = k_current s)
    end).
Proof.
  intros Hok Hq Hm Hi. unfold wait_queue_wake_one, wq_at. wp_step.
  exists w. split; [done|]. wp_step. rewrite Hm. split; [done|].
  destruct (wq_list w) as [|t rest] eqn:Hl; wp_step; [done|].
  eapply wp_pop; [by apply ok_mid|done|done|]. intros th Hth _ Hti Hmid. wp_step.
  assert (view_of (popped q w t th rest err s) = wake_view q w t rest err (view_of s)) as Hv.
  { apply view_popped. }
  destruct b; cbn [when]; wp_step.
  - assert (k_current s ≠ t) as Hne.
    { intros <-. destruct (on_wq _ _ _ _ _ _ (k_current s) (ok_mid _ _ Hok) Hq) as (_ & _ & ? & _ & _ & _ & Hc & _).
      - rewrite Hl. left.
      - by apply Hc. }
    eapply wp_ready_current; [done|clear -Hne; simpl; set_solver|simpl; auto|].
    intros thc lc s1 Hthc Hlc -> Hm1. wp_step.
    eapply wp_mono; [eapply (mid_insert_head ∅ false pend _ t (woken err th)); try done|].
    { simpl. rewrite lookup_insert_ne by done. apply lookup_insert_eq. }
    intros [] s2 (Hm2 & l2 & Hl2 & ->). wp_step. eapply wp_resched; [by apply mid_pre_ok|].
    intros s3 Hs3. wp_step. split; [apply Hs3|]. split_and!; [done| |done].
    rewrite (view_rescheduled _ _ _ Hs3), <- Hv. rewrite view_rq_insert. unfold requeued.
    rewrite view_rq_insert. apply view_upd with thc; done.
  - eapply wp_insert_popped; [done|done|clear; set_solver|done|].
    intros s2 l' Hl' -> Hm2. wp_step. split; [by apply mid_ok|]. done.
Qed.

(** [wait_queue_wake_all]: every waiting thread is made ready. *)
Definition wake_all_view (q : wqid) (w : wait_queue_t) (l : list tid) (err : Z) (v : view) : view :=
  MkView (<[q := MkWq (wq_magic w) [] (wq_count w - Z.of_nat (length l))]> (v_wq v))
    (gset_to_gmap err (list_to_set l) ∪ v_ret v)
    (v_mutexes v) (v_semaphores v) (v_events v) (v_idle v) (v_ints v).

Lemma wake_all_view_cons q w t l err v :
  wake_all_view q (MkWq (wq_magic w) l (wq_count w - 1)) l err (wake_view q w t l err v) =
  wake_all_view q w (t :: l) err v.
Proof.
  unfold wake_all_view, wake_view. cbn [wq_magic wq_count v_wq v_ret v_mutexes v_semaphores v_events v_idle v_ints]. f_equal.
  - rewrite insert_insert_eq. f_equal. f_equal. simpl. lia.
  - apply map_eq. intros x. rewrite !lookup_union, !lookup_gset_to_gmap, lookup_insert.
    destruct (decide (x ∈ l)) as [Hx|Hx].
    + rewrite !option_guard_True; [|rewrite elem_of_list_to_set; by right|by rewrite elem_of_list_to_set].
      by case_decide; destruct (v_ret v !! x).
    + rewrite (option_guard_False (x ∈ list_to_set l)) by (by rewrite elem_of_list_to_set).
      case_decide as E.
      * subst. rewrite option_guard_True by (rewrite elem_of_list_to_set; left). by destruct (v_ret v !! x).
      * rewrite option_guard_False by (rewrite elem_of_list_to_set, elem_of_cons; naive_solver). done.
Qed.

Lemma wake_all_loop_spec fuel run pend s q w err ret :
  mid ∅ run pend s -> k_wait_queues s !! q = Some w -> (length (wq_list w) < fuel)%nat ->
  wp (wake_all_loop fuel q err ret) s (fun r s' => mid ∅ run pend s' /\
    r = ret + Z.of_nat (length (wq_list w)) /\ k_current s' = k_current s /\
    view_of s' = wake_all_view q w (wq_list w) err (view_of s)).
Proof.
  revert s w ret. induction fuel as [|fuel IH]; intros s w ret Hmid Hq Hf; [lia|].
  cbn [wake_all_loop]. unfold wq_at. wp_step. exists w. split; [done|].
  destruct (wq_list w) as [|t rest] eqn:Hl; wp_step.
  - split_and!; [done|simpl; lia|done|]. unfold wake_all_view. simpl.
    replace (list_to_set []) with (∅ : gset tid) by done.
    rewrite gset_to_gmap_empty, map_empty_union, insert_id; [done|].
    rewrite Hq. destruct w. simpl in *. subst. f_equal. f_equal. lia.
  - eapply wp_pop; [done..|]. intros th Hth _ Hti Hm1. wp_step.
    eapply wp_insert_popped; [done|done|clear; set_solver|done|].
    intros s2 l' Hl' -> Hm2.
    eapply wp_mono; [eapply IH; [done|apply lookup_insert_eq|simpl in *; lia]|].
    intros r s3 (Hm3 & -> & Hc & Hv). split_and!; [done|simpl; lia|done|].
    rewrite Hv, view_rq_insert, view_popped. cbn [wq_list].
    apply (wake_all_view_cons q w t rest err (view_of s)).
Qed.

Lemma wake_all_spec pend s q w b err :
  ok pend s -> k_wait_queues s !! q = Some w -> wq_magic w = WAIT_QUEUE_MAGIC ->
  (b = true -> k_current s ≠ k_idle_thread s) ->
  wp (wait_queue_wake_all q b err) s (fun r s' => ok pend s' /\
    r = Z.of_nat (length (wq_list w)) /\ (b = false -> k_current s' = k_current s) /\
    view_of s' = wake_all_view q w (wq_list w) err (view_of s)).
Proof.
  intros Hok Hq Hm Hi. unfold wait_queue_wake_all, wq_at. wp_step.
  exists w. split; [done|]. wp_step. rewrite Hm. split; [done|].
  pose proof (si_wq_count _ _ _ _ _ _ (ok_sinv _ _ Hok) _ _ Hq) as Hcount.
  set (go := b && (0 <? wq_count w)).
  assert (forall s1 (run : bool), mid ∅ run pend s1 -> run = negb go -> view_of s1 = view_of s ->
    k_wait_queues s1 !! q = Some w -> (b = false -> k_current s1 = k_current s) ->
    wp (ret ← wake_all_loop (S (length (wq_list w))) q err 0;
        w ← wq_at q;
        _ ← assert_ (wq_count w =? 0);
        _ ← when ((0 <? ret) && b) thread_resched;
        mret ret) s1 (fun r s' => ok pend s' /\
    r = Z.of_nat (length (wq_list w)) /\ (b = false -> k_current s' = k_current s) /\
    view_of s' = wake_all_view q w (wq_list w) err (view_of s))) as Hloop.
  { intros s1 run Hm1 Hrun Hv1 Hq1 Hc1. wp_step.
    eapply wp_mono; [eapply (wake_all_loop_spec _ _ _ _ q w); [done|done|lia]|].
    intros r s2 (Hm2 & -> & Hc2 & Hv2). unfold wq_at. wp_step.
    assert (k_wait_queues s2 !! q = Some (MkWq (wq_magic w) [] 0)) as Hq2.
    { replace (k_wait_queues s2) with (v_wq (view_of s2)) by done. rewrite Hv2. simpl.
      rewrite lookup_insert_eq. f_equal. f_equal. lia. }
    eexists. split; [exact Hq2|]. wp_step. split; [done|]. rewrite Z.add_0_l, <- Hcount.
    rewrite Hv1 in Hv2. destruct go eqn:Hgo; subst go run.
    - rewrite andb_comm, Hgo. cbn [when]. eapply wp_resched; [by apply mid_pre_ok|].
      intros s3 Hs3. wp_step. split; [apply Hs3|]. split; [done|]. split.
      + intros ->. done.
      + by rewrite (view_rescheduled _ _ _ Hs3).
    - rewrite andb_comm, Hgo. cbn [when]. wp_step. split; [by apply mid_ok|]. split; [done|]. split; [|done].
      intros Hb. rewrite Hc2. auto. }
  wp_step. apply wp_when. destruct go eqn:Hgo.
  - apply andb_true_iff in Hgo as [-> _].
    eapply wp_ready_current; [by apply ok_mid|clear; set_solver|auto|].
    intros th l s1 Hth Hl -> Hm1. eapply Hloop; [done|done| |done|done].
    unfold requeued. rewrite view_rq_insert. by apply view_upd with th.
  - eapply Hloop; [by apply ok_mid|done..].
Qed.

(** * Taking a thread off its wait queue *)

Lemma filter_absent (t : tid) (l : list tid) : t ∉ l -> filter (fun x => x ≠ t) l = l.
Proof.
  induction l as [|y l IH]; [done|]. rewrite not_elem_of_cons. intros [? ?].
  rewrite filter_cons_True by done. by rewrite IH.
Qed.

Lemma queue_node_delete_blocked X s q w t (Q : unit -> kstate -> Prop) :
  SINV X s -> k_wait_queues s !! q = Some w -> t ∈ wq_list w ->
  Q tt (with_wait_queues (<[q := MkWq (wq_magic w) (filter (fun x => x ≠ t) (wq_list w))
    (wq_count w)]> (k_wait_queues s)) s) ->
  wp (queue_node_delete t) s Q.
Proof.
  intros Hinv Hq Ht HQ. pose proof Hinv as [].
  destruct (proj1 (si_wq0 _ _ t Hq) Ht) as (HX & th & Hth & Hst & Hb).
  unfold queue_node_delete. wp_step.
  assert ((filter (fun x => x ≠ t) <$> k_run_queue s) = k_run_queue s) as ->.
  { apply map_eq. intros p. rewrite lookup_fmap. destruct (k_run_queue s !! p) as [l|] eqn:Hp; [|done].
    simpl. f_equal. apply filter_absent. rewrite (si_rq0 _ _ _ Hp).
    intros [_ (th' & ? & ? & _)]. congruence. }
  match goal with |- context [with_wait_queues ?m] => replace m with
    (<[q := MkWq (wq_magic w) (filter (fun x => x ≠ t) (wq_list w)) (wq_count w)]> (k_wait_queues s)) end;
    [by destruct s|].
  apply map_eq. intros q'. rewrite lookup_fmap, lookup_insert. case_decide as E.
  - subst. by rewrite Hq.
  - destruct (k_wait_queues s !! q') as [[m l c]|] eqn:Hq'; [|done]. simpl. do 2 f_equal.
    symmetry. apply filter_absent. pose proof (si_wq0 _ _ t Hq') as Hw. simpl in Hw. rewrite Hw.
    intros [_ (th' & ? & ? & ?)]. congruence.
Qed.

(** A blocked thread is pulled out of its queue; any other is left alone. *)
Definition unblocked (q : wqid) (w : wait_queue_t) (t : tid) (th : thread_t) (err : Z)
    (s : kstate) : kstate :=
  popped q w t th (filter (fun x => x ≠ t) (wq_list w)) err s.

Lemma unblock_from_wait_queue_spec s t th err :
  SINV ∅ s -> k_threads s !! t = Some th -> magic th = THREAD_MAGIC ->
  wp (thread_unblock_from_wait_queue t err) s (fun r s' => SINV ∅ s' /\
    if bool_decide (state th = THREAD_BLOCKED) then
      exists q w l, r = NO_ERROR /\ blocking_wait_queue th = Some q /\ k_wait_queues s !! q = Some w /\
        k_run_queue s !! priority th = Some l /\ t ∈ wq_list w /\
        s' = rq_insert (priority th) (t :: l) (unblocked q w t th err s)
    else r = ERR_NOT_BLOCKED /\ s' = s).
Proof.
  intros Hinv Hth Hm. unfold thread_unblock_from_wait_queue. wp_step. thread_step.
  rewrite Hm. split; [done|]. case_bool_decide as Hst; cbn [negb]; [|wp_step; done].
  pose proof Hinv as []. pose proof (si_link0 _ _ Hth ltac:(set_solver)) as Hl.
  unfold link_ok in Hl. rewrite decide_True in Hl by done. destruct Hl as (q & w & Hb & Hq & Hwm).
  assert (t ∈ wq_list w) as Hin.
  { apply (si_wq0 _ _ _ Hq). split; [set_solver|]. by exists th. }
  assert (t ≠ k_idle_thread s) as Hi.
  { intros Hi. destruct (si_thr0 _ _ Hth) as (_ & _ & _ & [?|?]); [done|congruence..]. }
  wp_step. exists q. split; [done|]. unfold wq_at, queue_node_in_list, set_wq. wp_step.
  exists w. split; [done|]. wp_step. rewrite Hwm. split; [done|]. split.
  { apply orb_true_iff. right. apply bool_decide_eq_true. exists q, w. done. }
  eapply queue_node_delete_blocked; [done|done|done|]. wp_step. eexists. split; [apply lookup_insert_eq|].
  wp_step. eapply wp_upd_thread; [exact Hth|]. wp_step. upd_thread_step. upd_thread_step.
  match goal with |- wp (insert_in_run_queue_head t) ?s1 _ => replace s1 with (unblocked q w t th err s) end.
  2:{ unfold unblocked, popped. simpl. rewrite insert_insert_eq. done. }
  assert (SINV ({[t]} ∪ ∅) (unblocked q w t th err s)) as Hu.
  { unfold unblocked, popped. simpl. apply sinv_upd; [|clear; set_solver|].
    - eapply sinv_wq_take; [done..|apply NoDup_filter; eauto|].
      intros x. rewrite list_elem_of_filter. done.
    - eapply thr_ok_same; [by apply si_thr0|done|congruence|done]. }
  eapply (wp_insert_head ∅ _ _ (woken err th)); [exact Hu|clear; set_solver|apply lookup_insert_eq|done..|].
  intros l Hl2 Hs2. wp_step. split; [done|]. exists q, w, l. done.
Qed.

Lemma wait_queue_timeout_handler_spec s t th :
  SINV ∅ s -> k_threads s !! t = Some th -> magic th = THREAD_MAGIC ->
  wp (wait_queue_timeout_handler t) s (fun r s' => SINV ∅ s' /\
    if bool_decide (state th = THREAD_BLOCKED) then
      exists q w l, r = INT_RESCHEDULE /\ blocking_wait_queue th = Some q /\ k_wait_queues s !! q = Some w /\
        k_run_queue s !! priority th = Some l /\ t ∈ wq_list w /\
        s' = rq_insert (priority th) (t :: l) (unblocked q w t th ERR_TIMED_OUT s)
    else r = INT_NO_RESCHEDULE /\ s' = s).
Proof.
  intros Hinv Hth Hm. unfold wait_queue_timeout_handler. wp_step. thread_step.
  rewrite Hm. split; [done|]. eapply wp_mono; [by apply unblock_from_wait_queue_spec|].
  intros r s' [Hs' Hcase]. wp_step. split; [done|]. case_bool_decide.
  - destruct Hcase as (q & w & l & -> & ?). by exists q, w, l.
  - by destruct Hcase as [-> ->].
Qed.

(** The sleep timer's callback makes its thread ready. *)
Lemma thread_sleep_handler_spec s t th :
  SINV ∅ s -> k_threads s !! t = Some th -> state th = THREAD_SLEEPING ->
  wp (thread_sleep_handler t) s (fun r s' => SINV ∅ s' /\ r = INT_RESCHEDULE /\
    exists l, k_run_queue s !! priority th = Some l /\
      s' = rq_insert (priority th) (t :: l)
        (with_threads (<[t := set_state THREAD_READY th]> (k_threads s)) s)).
Proof.
  intros Hinv Hth Hst. pose proof Hinv as [].
  pose proof (si_thr0 _ _ Hth) as Hok. pose proof Hok as (_ & Hm & _ & Hi).
  unfold thread_sleep_handler. wp_step. thread_step. rewrite Hm, Hst by congruence.
  split; [done|]. split; [done|]. upd_thread_step.
  assert (t ≠ k_idle_thread s) as Hni by (intros E; destruct (Hi E); congruence).
  pose proof (si_link0 _ _ Hth ltac:(set_solver)) as Hl. unfold link_ok in Hl.
  rewrite decide_False in Hl by congruence.
  eapply (wp_insert_head ∅ _ _ (set_state THREAD_READY th));
    [|clear; set_solver|apply lookup_insert_eq|done..|].
  - simpl. apply sinv_upd; [|clear; set_solver|eapply thr_ok_same; [done|done|congruence|done]].
    eapply sinv_unpark; [done|done|congruence|congruence].
  - intros l Hl2 Hs2. wp_step. eauto.
Qed.

(** The preemption tick uses up the quantum of an ordinary thread. *)
Lemma thread_timer_tick_spec s th : k_threads s !! k_current s = Some th ->
  wp thread_timer_tick s (fun r s' =>
    if thread_is_real_time_or_idle th then r = INT_NO_RESCHEDULE /\ s' = s
    else let q := s32 (remaining_quantum th - 1) in
      r = (q <=? 0) /\
      s' = with_threads (<[k_current s := set_remaining_quantum q th]> (k_threads s)) s).
Proof.
  intros Hth. unfold thread_timer_tick. wp_step. thread_step.
  destruct (thread_is_real_time_or_idle th); wp_step; [done|].
  eapply wp_upd_thread; [done|]. wp_step. split; [by case_if|done].
Qed.

(** * Blocking *)

Lemma timer_initialize_wf s id : Timer.wf s -> id ∉ Timer.timer_queue s ->
  Timer.wf (Timer.with_timers (<[id := Timer.TIMER_INITIAL_VALUE]> (Timer.timers s)) s).
Proof.
  intros Hwf Hid. set (s' := Timer.with_timers _ s).
  assert (forall x, x ∈ Timer.timer_queue s -> Timer.timers s' !! x = Timer.timers s !! x) as Hl.
  { intros x Hx. unfold s'. simpl. rewrite lookup_insert_ne; [done|]. by intros ->. }
  assert (forall x, x ∈ Timer.timer_queue s -> Timer.due s' x = Timer.due s x) as Hdue.
  { intros x Hx. unfold Timer.due. by rewrite Hl. }
  split; simpl.
  - apply Hwf.
  - intros x Hx. rewrite Hl by done. by apply (Timer.wf_live s Hwf).
  - eapply Timer.StronglySorted_impl; [|apply Hwf]. simpl. intros a b Ha Hb. by rewrite !Hdue.
  - rewrite (Timer.wf_hw s Hwf). destruct (Timer.timer_queue s) as [|h q] eqn:E; simpl; [done|].
    by rewrite Hdue by left.
Qed.

(** Delays the comparison of times can handle. *)
Definition delay_ok (d : Z) : Prop := 0 <= d < Timer.HALF.

(** A thread's idle stack timer is set up for one shot. *)
Lemma arm_stack tm t delay cb (Q : unit -> Timer.state -> Prop) :
  Timer.wf tm -> TmStack t ∉ Timer.timer_queue tm -> delay_ok delay ->
  (forall tm' x, Timer.wf tm' -> Timer.now tm' = Timer.now tm ->
     (forall j, j ∈ Timer.timer_queue tm' <-> j = TmStack t \/ j ∈ Timer.timer_queue tm) ->
     Timer.timers tm' = <[TmStack t := x]> (Timer.timers tm) ->
     Timer.magic x = Timer.TIMER_MAGIC -> Timer.arg x = t -> Timer.periodic_time x = 0 ->
     Timer.callback x = Some cb -> Q tt tm') ->
  wp (Timer.timer_initialize (TmStack t)) tm (fun _ tm1 =>
    wp (Timer.timer_set_oneshot (TmStack t) delay cb t) tm1 Q).
Proof.
  intros Hwf Hnin [Hd0 Hd] HQ. unfold Timer.timer_initialize. wp_step.
  unfold Timer.timer_set_oneshot.
  eapply wp_mono; [apply Timer.timer_set_wf|].
  - by apply timer_initialize_wf.
  - done.
  - unfold Timer.HALF in *. case_if; lia.
  - simpl. rewrite lookup_insert_eq. by eexists.
  - intros [] tm' (Hwf' & Hn & Hq & Ht). simpl in Ht. rewrite insert_insert_eq in Ht.
    by eapply (HQ tm' _ Hwf' Hn Hq Ht).
Qed.

(** The stack timer of the running thread is idle. *)
Lemma stack_timer_idle pend thr tm t th : tinv pend thr tm -> thr !! t = Some th ->
  state th ≠ THREAD_SLEEPING -> pend !! t ≠ Some true -> TmStack t ∉ Timer.timer_queue tm.
Proof.
  intros [] Ht Hs Hp Hin. destruct (Timer.wf_live _ ti_wf0 _ Hin) as (x & Hx & _).
  destruct (ti_stack0 t x Hin Hx) as (_ & _ & [(_ & th' & ? & ?)|[_ ?]]); [|done].
  congruence.
Qed.

(** The timer part of entering [wait_queue_block], timed or not. *)
Lemma tinv_block_untimed pend thr tm t th :
  tinv pend thr tm -> thr !! t = Some th -> state th = THREAD_RUNNING -> pend !! t = None ->
  tinv (<[t := false]> pend) thr tm.
Proof.
  intros [] Ht Hst Hp. split; try done.
  - intros t' x Hin Hx. destruct (ti_stack0 t' x Hin Hx) as (? & ? & [?|[? ?]]); split_and!; eauto.
    right. split; [done|]. rewrite lookup_insert_ne; [done|]. intros ->. congruence.
  - intros t' b. rewrite lookup_insert. case_decide; [|apply ti_pend0]. intros [= <-]. subst.
    split; [eauto|done].
  - intros t' th' Ht' Hst'. rewrite lookup_insert. case_decide; [by exists false|eauto].
Qed.

Lemma tinv_armed_stack pend pend' thr thr' tm tm' t x cb :
  tinv pend thr tm -> Timer.wf tm' ->
  (forall j, j ∈ Timer.timer_queue tm' <-> j = TmStack t \/ j ∈ Timer.timer_queue tm) ->
  Timer.timers tm' = <[TmStack t := x]> (Timer.timers tm) ->
  Timer.magic x = Timer.TIMER_MAGIC -> Timer.arg x = t -> Timer.periodic_time x = 0 ->
  Timer.callback x = Some cb ->
  (forall t', t' ≠ t -> thr' !! t' = thr !! t' /\ pend' !! t' = pend !! t') ->
  match cb with
  | thread_sleep_handler_cb => exists th, thr' !! t = Some th /\ state th = THREAD_SLEEPING /\ pend' !! t = None
  | wait_queue_timeout_handler_cb =>
      exists th, thr' !! t = Some th /\ pend' !! t = Some true /\ state th ≠ THREAD_SLEEPING /\
      (state th = THREAD_BLOCKED \/ state th = THREAD_READY \/ state th = THREAD_RUNNING)
  | thread_timer_tick_cb => False
  end -> tinv pend' thr' tm'.
Proof.
  intros [] Hwf Hq Htm Hm Ha Hper Hcb Hoth Hcase.
  assert (forall j, j ≠ TmStack t -> Timer.timers tm' !! j = Timer.timers tm !! j) as Hlk.
  { intros j ?. by rewrite Htm, lookup_insert_ne. }
  split; try done.
  - eapply timer_live_ext; [by apply Hlk|done].
  - intros y. rewrite Hq, Hlk by done. intros [?|?]; [done|]. by apply ti_preempt0.
  - intros t' y. rewrite Hq. intros [[= ->]|Hin].
    + rewrite Htm, lookup_insert_eq. intros [= <-]. split_and!; [done..|].
      destruct cb; [|destruct Hcase as (th & ? & ? & _); by right|done].
      destruct Hcase as (th & ? & ? & _). left. eauto.
    + destruct (decide (t' = t)) as [->|Hne].
      * rewrite Htm, lookup_insert_eq. intros [= <-]. split_and!; [done..|].
        destruct cb; [|destruct Hcase as (th & ? & ? & _); by right|done].
        destruct Hcase as (th & ? & ? & _). left. eauto.
      * rewrite Hlk by congruence. destruct (Hoth _ Hne) as [-> ->]. by apply ti_stack0.
  - intros t' th' Ht' Hst. rewrite Hq. destruct (decide (t' = t)) as [->|Hne]; [by left|right].
    destruct (Hoth _ Hne) as [E _]. rewrite E in Ht'. eauto.
  - intros t' b. destruct (decide (t' = t)) as [->|Hne].
    + intros Hp. destruct cb; [destruct Hcase as (? & ? & ? & ?); congruence| |done].
      destruct Hcase as (th & ? & ? & ? & ?). split; [eauto|]. intros _.
      exists x. by rewrite Htm, lookup_insert_eq.
    + destruct (Hoth _ Hne) as [-> ->]. intros Hp. destruct (ti_pend0 t' b Hp) as [? Hl].
      split; [done|]. intros Hb. eapply timer_live_ext; [apply Hlk; congruence|auto].
  - intros t' th'. destruct (decide (t' = t)) as [->|Hne].
    + intros Ht' Hst. destruct cb; [destruct Hcase as (? & ? & ? & ?); congruence| |done].
      destruct Hcase as (th & ? & -> & _). exists true. split; [done|]. intros _. rewrite Hq. by left.
    + destruct (Hoth _ Hne) as [-> ->]. intros Ht' Hst. destruct (ti_blocked0 _ _ Ht' Hst) as (b & ? & Hb).
      exists b. split; [done|]. intros Hb'. rewrite Hq. right. auto.
Qed.

(** The running thread put on a wait queue. *)
Definition blocked (q : wqid) (th : thread_t) : thread_t :=
  set_wait_queue_block_ret NO_ERROR (set_blocking_wait_queue (Some q) (set_state THREAD_BLOCKED th)).

Definition enqueued (q : wqid) (w : wait_queue_t) (th : thread_t) (s : kstate) : kstate :=
  with_threads (<[k_current s := blocked q th]> (k_threads s))
    (with_wait_queues (<[q := MkWq (wq_magic w) (wq_list w ++ [k_current s]) (wq_count w + 1)]>
      (k_wait_queues s)) s).

Lemma enqueued_pre_ok pend pend' s q w th tm' :
  ok pend s -> k_threads s !! k_current s = Some th -> k_current s ≠ k_idle_thread s ->
  k_wait_queues s !! q = Some w -> wq_magic w = WAIT_QUEUE_MAGIC ->
  tinv pend' (<[k_current s := blocked q th]> (k_threads s)) tm' ->
  (TmPreempt ∈ Timer.timer_queue tm' <-> TmPreempt ∈ Timer.timer_queue (k_timer s)) ->
  pre_ok pend' (with_timer tm' (enqueued q w th s)).
Proof.
  intros Hok Hth Hi Hq Hm Hti Hpre.
  destruct (ok_current _ _ Hok) as (th0 & Hth0 & Hst & Hmag & Hb & Hidle & Hp).
  assert (th0 = th) as -> by congruence. split; simpl.
  - replace ∅ with (({[k_current s]} ∪ ∅) ∖ {[k_current s]} : gset tid) by (clear; set_solver).
    eapply sinv_wq_insert; [|apply lookup_insert_eq|clear; set_solver|done..].
    eapply leave_sinv; done.
  - done.
  - intros th1. simpl. rewrite lookup_insert_eq, Hpre. intros [= <-].
    exact (ok_armed _ _ Hok th Hth).
  - by eapply leave_none.
  - rewrite lookup_insert_eq. done.
Qed.

(** The timer side of blocking, with or without a timeout. *)
Lemma wp_block_timer pend s q w th timeout (Q : unit -> kstate -> Prop) :
  ok pend s -> k_threads s !! k_current s = Some th -> pend !! k_current s = None ->
  timeout = INFINITE_TIME \/ delay_ok timeout ->
  let timed := negb (timeout =? INFINITE_TIME) in
  (forall tm', tinv (<[k_current s := timed]> pend) (<[k_current s := blocked q th]> (k_threads s)) tm' ->
    (TmPreempt ∈ Timer.timer_queue tm' <-> TmPreempt ∈ Timer.timer_queue (k_timer s)) ->
    Q tt (with_timer tm' (enqueued q w th s))) ->
  wp (when timed
        (_ ← on_timer (Timer.timer_initialize (TmStack (k_current s)));
         on_timer (Timer.timer_set_oneshot (TmStack (k_current s)) timeout
                     wait_queue_timeout_handler_cb (k_current s)))) (enqueued q w th s) Q.
Proof.
  intros Hok Hth Hp Hd timed HQ.
  destruct (ok_current _ _ Hok) as (th0 & Hth0 & Hst & _).
  assert (th0 = th) as -> by congruence.
  assert (TINV pend s) as Hti by apply Hok.
  apply wp_when. unfold timed in *. destruct (Z.eqb_spec timeout INFINITE_TIME) as [E|E]; cbn [negb] in *.
  - specialize (HQ (k_timer s)). apply HQ; [|done].
    eapply tinv_upd; [by eapply tinv_block_untimed|exact Hth|by rewrite Hst|simpl; auto|].
    intros _. right. by rewrite lookup_insert_eq.
  - destruct Hd as [?|Hd]; [done|]. wp_step. apply wp_on_timer.
    eapply wp_mono; [eapply (arm_stack _ _ timeout wait_queue_timeout_handler_cb (fun _ tm' => Q tt (with_timer tm' (enqueued q w th s)))); [apply Hti| |done|]|].
    + eapply stack_timer_idle; [done|done|congruence|congruence].
    + intros tm' x Hwf Hn Hq Htm Hm Ha Hper Hcb.
      apply HQ; [|rewrite Hq; clear; naive_solver].
      eapply tinv_armed_stack; try done.
      * intros t' Hne. rewrite !lookup_insert_ne by done. done.
      * exists (blocked q th). rewrite !lookup_insert_eq. split_and!; [done..|by left].
    + intros [] tm1 Hw. simpl. apply wp_on_timer. simpl. eapply wp_mono; [exact Hw|].
      intros [] tm'. done.
Qed.

Definition enqueue_view (q : wqid) (w : wait_queue_t) (t : tid) (v : view) : view :=
  MkView (<[q := MkWq (wq_magic w) (wq_list w ++ [t]) (wq_count w + 1)]> (v_wq v))
    (<[t := NO_ERROR]> (v_ret v)) (v_mutexes v) (v_semaphores v) (v_events v) (v_idle v) (v_ints v).

Lemma wait_queue_block_spec pend s q w timeout :
  ok pend s -> k_current s ≠ k_idle_thread s -> pend !! k_current s = None ->
  k_wait_queues s !! q = Some w -> wq_magic w = WAIT_QUEUE_MAGIC ->
  timeout = INFINITE_TIME \/ delay_ok timeout ->
  wp (wait_queue_block q timeout) s (fun o s' =>
    if timeout =? 0 then o = Done ERR_TIMED_OUT /\ s' = s
    else
      let timed := negb (timeout =? INFINITE_TIME) in
      o = Switched [FWaitQueueBlock timed] /\ ok (<[k_current s := timed]> pend) s' /\
      view_of s' = enqueue_view q w (k_current s) (view_of s)).
Proof.
  intros Hok Hi Hp Hq Hm Hd.
  destruct (ok_current _ _ Hok) as (th & Hth & Hst & _).
  unfold wait_queue_block, wq_at, set_wq. wp_step. exists w. split; [done|]. wp_step.
  rewrite Hm. split; [done|]. thread_step. rewrite Hst. split; [done|].
  case_if; [wp_step; done|]. wp_step.
  eapply wp_upd_thread; [eassumption|]. wp_step. upd_thread_step. upd_thread_step.
  rewrite <- Hm. eapply (wp_block_timer pend s q w th); [done..|]. intros tm' Htm' Hpre. wp_step.
  eapply wp_resched; [by eapply enqueued_pre_ok|].
  intros s' Hs'. wp_step. split_and!; [done|apply Hs'|].
  rewrite (view_rescheduled _ _ _ Hs'). unfold view_of, enqueue_view, rets. simpl.
  by rewrite fmap_insert, Hm.
Qed.

(** A thread that has left [wait_queue_block]. *)
Lemma tinv_unpend pend thr tm t th :
  tinv pend thr tm -> thr !! t = Some th -> state th ≠ THREAD_BLOCKED ->
  (TmStack t ∉ Timer.timer_queue tm \/ pend !! t ≠ Some true) -> tinv (delete t pend) thr tm.
Proof.
  intros [] Ht Hst Hq. split; try done.
  - intros t' x Hin Hx. destruct (ti_stack0 t' x Hin Hx) as (? & ? & [?|[? ?]]); split_and!; eauto.
    right. split; [done|]. rewrite lookup_delete_ne; [done|]. intros ->. by destruct Hq.
  - intros t' b. rewrite lookup_delete. case_decide; [done|]. apply ti_pend0.
  - intros t' th' Ht' Hst'. rewrite lookup_delete. case_decide; [congruence|eauto].
Qed.

Lemma wait_queue_block_resumed_spec pend s timed :
  ok pend s -> pend !! k_current s = Some timed ->
  wp (wait_queue_block_resumed timed) s (fun r s' =>
    rets (k_threads s) !! k_current s = Some r /\ ok (delete (k_current s) pend) s' /\
    k_current s' = k_current s /\ view_of s' = view_of s).
Proof.
  intros Hok Hp. destruct (ok_current _ _ Hok) as (th & Hth & Hst & _).
  assert (TINV pend s) as Hti by apply Hok.
  assert (forall tm', tinv (delete (k_current s) pend) (k_threads s) tm' ->
    (TmPreempt ∈ Timer.timer_queue tm' <-> TmPreempt ∈ Timer.timer_queue (k_timer s)) ->
    wp (cur ← thread_at (k_current s); mret (wait_queue_block_ret cur)) (with_timer tm' s)
      (fun r s' => rets (k_threads s) !! k_current s = Some r /\ ok (delete (k_current s) pend) s' /\
        k_current s' = k_current s /\ view_of s' = view_of s)) as Hret.
  { intros tm' Htm' Hpre. wp_step. thread_step. split_and!; [by unfold rets; rewrite lookup_fmap, Hth| |done|done].
    pose proof Hok as []. split; simpl; try done. intros th0 Hth0. simpl. rewrite Hpre.
    exact (ok_armed0 _ Hth0). }
  unfold wait_queue_block_resumed. wp_step. apply wp_when. destruct timed.
  - apply wp_on_timer. eapply wp_mono; [apply (tinv_cancel pend (k_threads s)); [done| |]|].
    + by apply (ti_pend _ _ _ Hti _ _ Hp).
    + intros t th' [= <-] Ht'. split; congruence.
    + intros [] tm' [Htm' Hq]. apply Hret.
      * eapply tinv_unpend; [done..|congruence|]. left. rewrite Hq, list_elem_of_filter. tauto.
      * rewrite Hq, list_elem_of_filter. clear. naive_solver.
  - specialize (Hret (k_timer s)). replace (with_timer (k_timer s) s) with s in Hret by by destruct s.
    apply Hret; [|done]. eapply tinv_unpend; [done..|congruence|]. right. congruence.
Qed.

Lemma thread_sleep_spec pend s th delay :
  ok pend s -> k_threads s !! k_current s = Some th -> k_current s ≠ k_idle_thread s ->
  pend !! k_current s = None -> delay_ok delay ->
  wp (thread_sleep delay) s (fun _ s' => exists tm',
    rescheduled pend (with_timer tm'
      (with_threads (<[k_current s := set_state THREAD_SLEEPING th]> (k_threads s)) s)) s').
Proof.
  intros Hok Hth Hi Hp Hd. destruct (ok_current _ _ Hok) as (th0 & Hth0 & Hst & Hm & Hb & Hidle & Hpr).
  assert (th0 = th) as -> by congruence. assert (TINV pend s) as Hti by apply Hok.
  match goal with |- wp _ _ ?Q => set (Post := Q) end.
  unfold thread_sleep. wp_step. thread_step. rewrite Hm, Hst. do 2 (split; [done|]).
  split. { apply negb_true_iff, not_true_iff_false. by rewrite Hidle. }
  apply wp_on_timer. eapply wp_mono; [eapply (arm_stack _ _ delay thread_sleep_handler_cb (fun _ tm' =>
    wp (_ ← upd_thread (k_current s) (set_state THREAD_SLEEPING); thread_resched) (with_timer tm' s) Post));
    [apply Hti| |done|]|].
  - eapply stack_timer_idle; [done|done|congruence|congruence].
  - intros tm' x Hwf Hn Hq Htm Hmx Ha Hper Hcb. wp_step.
    eapply wp_upd_thread; [exact Hth|].
    eapply wp_resched; [|intros s' Hs'; exists tm'; exact Hs'].
    assert (k_current s = k_idle_thread s -> THREAD_SLEEPING = THREAD_READY \/ THREAD_SLEEPING = THREAD_RUNNING) by done.
    split; simpl.
    + replace ∅ with (({[k_current s]} ∪ ∅) ∖ {[k_current s]} : gset tid) by (clear; set_solver).
      eapply sinv_park; [by eapply leave_sinv|apply lookup_insert_eq|done| |done|clear; set_solver].
      unfold link_ok. by rewrite decide_False.
    + eapply tinv_armed_stack; try done.
      * intros t' Hne. rewrite !lookup_insert_ne by done. done.
      * exists (set_state THREAD_SLEEPING th). rewrite !lookup_insert_eq. done.
    + intros th1. simpl. rewrite lookup_insert_eq. intros [= <-].
      rewrite Hq. pose proof (ok_armed _ _ Hok _ Hth) as Harm. cbn -[thread_is_real_time_or_idle] in Harm.
      split; [intros [?|?]; [done|by apply Harm]|]. intros ?. right. by apply Harm.
    + by eapply leave_none.
    + rewrite lookup_insert_eq. done.
  - intros [] tm1 Hw. wp_step. apply wp_on_timer. simpl. eapply wp_mono; [exact Hw|].
    intros [] tm' Hw'. wp_step. exact (proj1 (wp_bind _ _ _ _) Hw').
Qed.

(** * Flags, resumption, creation and exit *)

(** A record changes without the queues noticing. *)
Lemma sinv_same X thr rq bm wq idle t th th' :
  sinv X thr rq bm wq idle -> thr !! t = Some th ->
  state th' = state th -> priority th' = priority th ->
  blocking_wait_queue th' = blocking_wait_queue th -> thr_ok idle t th' ->
  sinv X (<[t := th']> thr) rq bm wq idle.
Proof.
  intros [] Ht Hs Hp Hb Hok.
  assert (forall t' p, runnable (<[t := th']> thr) idle t' p <-> runnable thr idle t' p) as Hr.
  { intros t' p. unfold runnable. rewrite lookup_insert. case_decide as E; [subst|done].
    rewrite Ht. split; intros (x & [= <-] & ?); eexists; (split; [done|]); congruence. }
  assert (forall t' q, waiting (<[t := th']> thr) t' q <-> waiting thr t' q) as Hw.
  { intros t' q. unfold waiting. rewrite lookup_insert. case_decide as E; [subst|done].
    rewrite Ht. split; intros (x & [= <-] & ?); eexists; (split; [done|]); congruence. }
  split; try done.
  - intros p l t' Hl. rewrite Hr. by apply si_rq0.
  - intros q w t' Hq. rewrite Hw. by apply si_wq0.
  - intros t' th0. rewrite lookup_insert. case_decide; [intros [= <-]; by subst|eauto].
  - intros t' th0. rewrite lookup_insert. case_decide; [|eauto]. intros [= <-] HX. subst.
    specialize (si_link0 _ _ Ht HX). unfold link_ok in *. by rewrite Hs, Hb.
  - rewrite lookup_insert. case_decide; eauto.
Qed.

Lemma real_time_flag th : thread_is_real_time_or_idle (add_flag THREAD_FLAG_REAL_TIME th) = true /\
  thread_is_idle (add_flag THREAD_FLAG_REAL_TIME th) = thread_is_idle th.
Proof.
  unfold thread_is_real_time_or_idle, thread_is_idle, has_flag, add_flag.
  cbn [flags set_flags]. rewrite !Z.lor_spec.
  replace (Z.testbit (2 ^ THREAD_FLAG_REAL_TIME) THREAD_FLAG_REAL_TIME) with true by done.
  replace (Z.testbit (2 ^ THREAD_FLAG_REAL_TIME) THREAD_FLAG_IDLE) with false by done.
  by rewrite orb_true_r, orb_false_r.
Qed.

Lemma thread_set_real_time_spec pend s t th :
  ok pend s -> k_threads s !! t = Some th -> magic th = THREAD_MAGIC -> state th ≠ THREAD_DEATH ->
  wp (thread_set_real_time t) s (fun r s' => r = NO_ERROR /\ ok pend s' /\
    k_threads s' = <[t := add_flag THREAD_FLAG_REAL_TIME th]> (k_threads s) /\
    k_current s' = k_current s /\ view_of s' = view_of s).
Proof.
  intros Hok Hth Hm Hd. pose proof Hok as []. set (th' := add_flag THREAD_FLAG_REAL_TIME th).
  destruct (real_time_flag th) as [Hrt Hidle].
  assert (forall tm', tinv pend (k_threads s) tm' ->
    (forall th0, <[t := th']> (k_threads s) !! k_current s = Some th0 ->
      TmPreempt ∈ Timer.timer_queue tm' <-> thread_is_real_time_or_idle th0 = false) ->
    ok pend (with_threads (<[t := th']> (k_threads s)) (with_timer tm' s))) as Hfin.
  { intros tm' Htm' Harm. split; simpl.
    - eapply sinv_same; [done|done|done..|].
      destruct (si_thr _ _ _ _ _ _ ok_sinv0 _ _ Hth) as (? & ? & Hi & Hs).
      split; [done|]. split; [done|]. split; [unfold th'; rewrite Hidle; exact Hi|exact Hs].
    - eapply tinv_upd; [done|done|done| |].
      + intros [b Hb]. destruct (ti_pend _ _ _ Htm' _ _ Hb) as [(th0 & ? & ?) _]. by simplify_eq.
      + intros Hst. by left.
    - exact Harm.
    - destruct ok_running0 as (thc & Hc & Hst). rewrite lookup_insert. case_decide; [|eauto].
      exists th'. simplify_eq. done.
    - intros t' th0. rewrite lookup_insert. case_decide; [|eauto]. intros [= <-] Hr. subst. by eapply ok_unique0. }
  unfold thread_set_real_time. wp_step. thread_step. rewrite Hm. split; [done|]. wp_step.
  apply wp_when. case_bool_decide as E.
  - apply wp_on_timer. eapply wp_mono; [apply tinv_cancel; [done|by apply (ti_preempt_live _ _ _ ok_tinv0)|done]|].
    intros [] tm' [Htm' Hq]. wp_step. eapply wp_upd_thread; [exact Hth|]. wp_step.
    split; [done|]. split; [|split; [done|split; [done|exact (view_upd s t th th' Hth eq_refl)]]]. apply Hfin; [done|].
    intros th0. rewrite E, lookup_insert_eq. intros [= <-]. unfold th'. rewrite Hrt, Hq.
    rewrite list_elem_of_filter. split; [tauto|done].
  - wp_step. eapply wp_upd_thread; [exact Hth|]. wp_step.
    split; [done|]. split; [|split; [done|split; [done|exact (view_upd s t th th' Hth eq_refl)]]].
    specialize (Hfin (k_timer s)). replace (with_timer (k_timer s) s) with s in Hfin by by destruct s.
    apply Hfin; [done|]. intros th0. rewrite lookup_insert_ne by done. apply ok_armed0.
Qed.

(** [thread_resume] of a suspended thread; a thread in another state is left alone. *)
Lemma thread_resume_spec pend s t th :
  ok pend s -> k_threads s !! t = Some th -> magic th = THREAD_MAGIC -> state th ≠ THREAD_DEATH ->
  wp (thread_resume t) s (fun r s' => r = NO_ERROR /\ ok pend s' /\
    view_of s' = view_of s /\
    if bool_decide (state th = THREAD_SUSPENDED) then
      exists l, k_run_queue s !! priority th = Some l /\
      let s1 := rq_insert (priority th) (t :: l)
        (with_threads (<[t := set_state THREAD_READY th]> (k_threads s)) s) in
      if k_ints_disabled s then s' = s1 else exists s2, rescheduled pend s2 s'
    else s' = s).
Proof.
  intros Hok Hth Hm Hd. pose proof Hok as [].
  unfold thread_resume. wp_step. thread_step. rewrite Hm. split; [done|]. wp_step. split.
  { apply negb_true_iff, bool_decide_eq_false. done. }
  case_bool_decide as Hst; [|wp_step; done].
  wp_step. upd_thread_step.
  pose proof (si_thr _ _ _ _ _ _ ok_sinv0 _ _ Hth) as Hto. pose proof Hto as (_ & _ & _ & Hi).
  assert (t ≠ k_idle_thread s) as Hni by (intros E; destruct (Hi E); congruence).
  pose proof (si_link _ _ _ _ _ _ ok_sinv0 _ _ Hth ltac:(set_solver)) as Hl. unfold link_ok in Hl.
  rewrite decide_False in Hl by congruence.
  assert (t ≠ k_current s) as Hnc.
  { intros ->. destruct ok_running0 as (thc & Hc & ?). congruence. }
  eapply wp_mono; [eapply (mid_insert_head ∅ true pend _ t (set_state THREAD_READY th)); try done|].
  - eapply mid_upd with th; try done.
    + pose proof (ok_mid _ _ Hok) as []. split; try done. eapply sinv_unpark; [done|done|congruence|congruence].
    + clear. set_solver.
    + eapply thr_ok_same; [done|done|congruence|done].
    + rewrite Hst. done.
    + intros [b Hb]. destruct (ti_pend _ _ _ ok_tinv0 _ _ Hb) as [(y & ? & ?) _]. simplify_eq.
      rewrite Hst in *. naive_solver.
  - simpl. apply lookup_insert_eq.
  - intros [] s1 (Hm1 & l & Hl1 & ->). simpl in Hl1. apply mid_ok in Hm1.
    assert (view_of (rq_insert (priority th) (t :: l)
        (with_threads (<[t := set_state THREAD_READY th]> (k_threads s)) s)) = view_of s) as Hv.
    { rewrite view_rq_insert. by apply view_upd with th. }
    apply wp_bind, wp_when. destruct (k_ints_disabled s) eqn:Hints; cbn [negb].
    + wp_step. split_and!; try done. eauto.
    + destruct (ok_running _ _ Hm1) as (thc & Hthc & _).
      eapply wp_mono; [by eapply thread_yield_spec|]. intros [] s' Hs'. wp_step. split; [done|].
      assert (exists s2, rescheduled pend s2 s' /\ view_of s2 = view_of s) as (s2 & Hr & Hv2).
      { destruct (thread_is_idle thc).
        - eexists. split; [exact Hs'|]. rewrite <- Hv. by apply view_upd with thc.
        - destruct Hs' as (l' & _ & Hs'). eexists. split; [exact Hs'|]. rewrite <- Hv.
          unfold requeued. rewrite view_rq_insert. by apply view_upd with thc. }
      split; [apply Hr|]. split; [|eauto]. by rewrite (view_rescheduled _ _ _ Hr).
Qed.

(** A new thread and the wait queue inside it. *)
Definition with_new_thread (t : tid) (th : thread_t) (s : kstate) : kstate :=
  with_threads (<[t := th]> (k_threads s))
    (with_wait_queues (<[WqRetcode t := WAIT_QUEUE_INITIAL_VALUE]> (k_wait_queues s)) s).

Lemma ok_new_thread pend s t th :
  ok pend s -> k_threads s !! t = None -> pend !! t = None -> k_wait_queues s !! WqRetcode t = None ->
  state th = THREAD_SUSPENDED -> blocking_wait_queue th = None -> magic th = THREAD_MAGIC ->
  0 <= priority th < NUM_PRIORITIES -> thread_is_idle th = false ->
  ok pend (with_new_thread t th s).
Proof.
  intros [[] [] ? ? ?] Hf Hp Hq Hst Hb Hm Hpr Hid.
  assert (t ≠ k_idle_thread s) as Hi by (intros ->; by destruct si_idle0; simplify_eq).
  assert (forall t' p, runnable (<[t := th]> (k_threads s)) (k_idle_thread s) t' p <->
    runnable (k_threads s) (k_idle_thread s) t' p) as Hr.
  { intros t' p. unfold runnable. rewrite lookup_insert. case_decide as E; [subst|done].
    rewrite Hf. split; intros (x & Hx & Hxs & ?); [simplify_eq; congruence|done]. }
  assert (forall t' q, waiting (<[t := th]> (k_threads s)) t' q <-> waiting (k_threads s) t' q) as Hw.
  { intros t' q. unfold waiting. rewrite lookup_insert. case_decide as E; [subst|done].
    rewrite Hf. split; intros (x & Hx & Hxs & ?); [simplify_eq; congruence|done]. }
  assert (forall t0 x, k_threads s !! t0 = Some x -> t0 ≠ t) as Hne by (intros t0 x ? ->; congruence).
  split; [split| split| | |]; simpl; try done.
  - intros p l t' Hl. rewrite Hr. eauto.
  - intros q w t'. rewrite Hw, lookup_insert. case_decide; [|eauto]. subst. intros [= <-].
    split; [by intros ?%elem_of_nil|]. intros [_ (x & Hx & Hxs & Hxb)].
    specialize (si_link0 _ _ Hx (not_elem_of_empty _)). unfold link_ok in si_link0.
    rewrite decide_True in si_link0 by done. destruct si_link0 as (q & w & ? & ? & _). simplify_eq.
  - intros q w. rewrite lookup_insert. case_decide; [|eauto]. intros [= <-]. constructor.
  - intros q w. rewrite lookup_insert. case_decide; [|eauto]. by intros [= <-].
  - intros t' x. rewrite lookup_insert. case_decide; [|eauto]. intros [= <-]. subst.
    split; [done|]. split; [done|]. split; [|done]. rewrite Hid. done.
  - intros t' x. rewrite lookup_insert. case_decide; intros Hx HX; simplify_eq.
    + unfold link_ok. rewrite decide_False; [done|congruence].
    + specialize (si_link0 _ _ Hx HX). unfold link_ok in *. case_decide; [|done].
      destruct si_link0 as (q & w & ? & ? & ?). exists q, w. rewrite lookup_insert_ne; [done|]. intros <-. congruence.
  - rewrite lookup_insert. case_decide; eauto.
  - intros t' x Hin Hx. destruct (ti_stack0 t' x Hin Hx) as (? & ? & [(? & y & Hy & ?)|[? ?]]); split_and!; eauto.
    left. split; [done|]. exists y. rewrite lookup_insert_ne; [done|]. intros ->. by eapply Hne.
  - intros t' x. rewrite lookup_insert. case_decide; [|eauto]. intros [= <-]. congruence.
  - intros t' b Hb'. destruct (ti_pend0 t' b Hb') as [(y & ? & ?) ?]. split; [|done]. exists y.
    rewrite lookup_insert_ne; [done|]. intros ->. by eapply Hne.
  - intros t' x. rewrite lookup_insert. case_decide; [|eauto]. intros [= <-]. congruence.
  - intros x. simpl. destruct ok_running0 as (y & Hy & _). rewrite lookup_insert_ne; [apply ok_armed0|].
    intros ->. by eapply Hne.
  - destruct ok_running0 as (y & Hy & ?). exists y. rewrite lookup_insert_ne; [done|]. intros ->. by eapply Hne.
  - intros t' x. rewrite lookup_insert. case_decide; [|eauto]. intros [= <-]. congruence.
Qed.

Lemma ok_thread_list pend l s : ok pend s -> ok pend (with_thread_list l s).
Proof. by intros []. Qed.

(** The structure [thread_create_etc] fills in. *)
Definition created (entry arg priority flags stack stack_size : Z) : thread_t :=
  MkThread THREAD_MAGIC priority THREAD_SUSPENDED 0 flags None NO_ERROR stack stack_size entry arg 0.

Lemma thread_create_etc_spec pend s t struct_mem entry arg prio stk sz stack_mem :
  ok pend s -> 0 <= prio < NUM_PRIORITIES ->
  let flag := match t with Some _ => 0 | None => 2 ^ THREAD_FLAG_FREE_STRUCT end in
  let where_ := match t with Some t => Some t | None => struct_mem end in
  (forall t', where_ = Some t' -> k_threads s !! t' = None /\ pend !! t' = None /\
     k_wait_queues s !! WqRetcode t' = None) ->
  wp (thread_create_etc t struct_mem entry arg prio stk sz stack_mem) s (fun r s' => ok pend s' /\
    match where_ with
    | None => r = None /\ s' = s
    | Some t' =>
        if (stk =? 0) && (stack_mem =? 0) then r = None /\
          s' = match t with Some _ => with_new_thread t' (created entry arg prio 0 stk 0) s | None => s end
        else r = Some t' /\ s' = with_thread_list (t' :: k_thread_list s)
          (with_new_thread t' (if stk =? 0 then created entry arg prio (Z.lor flag (2 ^ THREAD_FLAG_FREE_STACK)) stack_mem sz
             else created entry arg prio flag stk sz) s)
    end).
Proof.
  intros Hok Hprio flag where_ Hfresh. unfold thread_create_etc. fold where_.
  destruct where_ as [t'|] eqn:Ew; [|wp_step; done].
  destruct (Hfresh t' eq_refl) as (Hf & Hp & Hq). cbn zeta. fold flag.
  assert (forall fl st sz', Z.testbit fl THREAD_FLAG_IDLE = false ->
    ok pend (with_new_thread t' (created entry arg prio fl st sz') s)) as Hnew.
  { intros fl st sz' Hfl. by apply ok_new_thread. }
  unfold put_thread, wait_queue_init, set_wq. wp_step.
  match goal with |- wp _ ?s1 _ => replace s1 with (with_new_thread t' (created entry arg prio 0 stk 0) s) by done end.
  destruct ((stk =? 0) && (stack_mem =? 0)); wp_step.
  - apply wp_when. unfold flag. destruct t; cbn [Z.testbit].
    + rewrite Z.bits_0. wp_step. split; [by apply Hnew|done].
    + unfold free_thread. rewrite Z.pow2_bits_true by done. wp_step.
      assert (with_threads (delete t' (k_threads (with_new_thread t' (created entry arg prio 0 stk 0) s)))
        (with_wait_queues (delete (WqRetcode t') (k_wait_queues (with_new_thread t' (created entry arg prio 0 stk 0) s)))
          (with_new_thread t' (created entry arg prio 0 stk 0) s)) = s) as ->; [|done].
      simpl. rewrite !delete_insert_id by done. by destruct s.
  - destruct (stk =? 0); wp_step; (eapply wp_upd_thread; [apply lookup_insert_eq|]); merge_upd; wp_step.
    all: simpl; rewrite insert_insert_eq; (split; [|done]).
    all: apply ok_thread_list.
    + refine (Hnew (Z.lor flag (2 ^ THREAD_FLAG_FREE_STACK)) stack_mem sz _). by destruct t.
    + refine (Hnew flag stk sz _). by destruct t.
Qed.

(** [wait_queue_wake_all] without a reschedule works for a running thread and
    for one that just stopped running. *)
Lemma wake_all_quiet run pend s q w err :
  mid ∅ run pend s -> k_wait_queues s !! q = Some w -> wq_magic w = WAIT_QUEUE_MAGIC ->
  wp (wait_queue_wake_all q false err) s (fun r s' => mid ∅ run pend s' /\
    r = Z.of_nat (length (wq_list w)) /\ k_current s' = k_current s /\
    view_of s' = wake_all_view q w (wq_list w) err (view_of s)).
Proof.
  intros Hmid Hq Hm. unfold wait_queue_wake_all, wq_at. wp_step.
  exists w. split; [done|]. wp_step. rewrite Hm. split; [done|]. cbn [andb when]. wp_step.
  pose proof (si_wq_count _ _ _ _ _ _ (mid_sinv _ _ _ _ Hmid) _ _ Hq) as Hcount.
  eapply wp_mono; [eapply (wake_all_loop_spec _ _ _ _ q w); [done|done|lia]|].
  intros r s2 (Hm2 & -> & Hc2 & Hv2). unfold wq_at. wp_step.
  exists (MkWq (wq_magic w) [] 0). split.
  { replace (k_wait_queues s2) with (v_wq (view_of s2)) by done. rewrite Hv2. simpl.
    rewrite lookup_insert_eq. do 2 f_equal. lia. }
  wp_step. split; [done|]. rewrite andb_false_r. cbn [when]. wp_step. done.
Qed.

(** The dying thread is off every queue. *)
Lemma leave_dead pend s th th' s1 :
  ok pend s -> k_threads s !! k_current s = Some th -> k_current s ≠ k_idle_thread s ->
  pend !! k_current s = None -> state th' = THREAD_DEATH -> flags th' = flags th ->
  priority th' = priority th -> blocking_wait_queue th' = None ->
  s1 = with_threads (<[k_current s := th']> (k_threads s)) s -> mid ∅ false pend s1.
Proof.
  intros Hok Hth Hi Hp Hst Hf Hpr Hb ->.
  destruct (ok_current _ _ Hok) as (th0 & Hth0 & Hst0 & _ & _ & _ & Hprio).
  assert (th0 = th) as -> by congruence. split; simpl.
  - replace ∅ with (({[k_current s]} ∪ ∅) ∖ {[k_current s]} : gset tid) by (clear; set_solver).
    eapply sinv_park; [eapply leave_sinv; try done; congruence|apply lookup_insert_eq|congruence| |congruence|clear; set_solver].
    unfold link_ok. by rewrite decide_False by congruence.
  - eapply tinv_upd; [apply Hok|done|rewrite Hst, Hst0; done|rewrite Hp; by intros [? ?]|by rewrite Hst].
  - eapply (armed_upd s _ th); [apply Hok|done|done].
  - eexists. rewrite lookup_insert_eq. split; [done|discriminate].
  - intros t th1. rewrite lookup_insert. case_decide as E; [intros [= <-]; congruence|].
    intros Ht Hr. exfalso. apply E. symmetry. by eapply ok_unique.
Qed.

Lemma mid_frame X run pend s s' : mid X run pend s ->
  k_threads s' = k_threads s -> k_run_queue s' = k_run_queue s ->
  k_run_queue_bitmap s' = k_run_queue_bitmap s -> k_wait_queues s' = k_wait_queues s ->
  k_idle_thread s' = k_idle_thread s -> k_timer s' = k_timer s -> k_current s' = k_current s ->
  mid X run pend s'.
Proof.
  intros [] E1 E2 E3 E4 E5 E6 E7.
  split; rewrite ?E1, ?E2, ?E3, ?E4, ?E5, ?E6, ?E7; try done.
  intros th. rewrite E1, E6, E7. apply mid_armed0.
Qed.

Definition exit_view (cur : tid) (detached : bool) (w : wait_queue_t) (v : view) : view :=
  if detached then v else wake_all_view (WqRetcode cur) w (wq_list w) 0 v.

Lemma thread_exit_spec pend s th w r :
  ok pend s -> k_threads s !! k_current s = Some th -> k_current s ≠ k_idle_thread s ->
  pend !! k_current s = None ->
  k_wait_queues s !! WqRetcode (k_current s) = Some w -> wq_magic w = WAIT_QUEUE_MAGIC ->
  wp (thread_exit r) s (fun _ s' => ok pend s' /\
    view_of s' = exit_view (k_current s) (has_flag th THREAD_FLAG_DETACHED) w (view_of s)).
Proof.
  intros Hok Hth Hi Hp Hq Hwm. destruct (ok_current _ _ Hok) as (th0 & Hth0 & Hst & Hm & Hb & Hidle & Hpr).
  assert (th0 = th) as -> by congruence.
  unfold thread_exit. wp_step. thread_step. rewrite Hm, Hst. do 2 (split; [done|]).
  split. { apply negb_true_iff, not_true_iff_false. by rewrite Hidle. }
  upd_thread_step. upd_thread_step.
  set (s1 := with_threads (<[k_current s := set_retcode r (set_state THREAD_DEATH th)]> (k_threads s)) s).
  assert (forall s2, mid ∅ false pend s2 -> forall v, view_of s2 = v ->
    wp thread_resched s2 (fun _ s' => ok pend s' /\ view_of s' = v)) as Hgo.
  { intros s2 Hs2 v <-. eapply wp_resched; [by apply mid_pre_ok|].
    intros s' Hs'. split; [apply Hs'|by rewrite (view_rescheduled _ _ _ Hs')]. }
  assert (view_of s1 = view_of s) as Hv1 by by apply view_upd with th.
  destruct (has_flag th THREAD_FLAG_DETACHED) eqn:Hdet; cbn [exit_view].
  - wp_step. eapply wp_upd_thread; [apply lookup_insert_eq|]. merge_upd. wp_step.
    set (s2 := with_threads _ (with_thread_list _ _)).
    assert (mid ∅ false pend s2) as Hm2.
    { set (th2 := set_magic 0 (set_retcode r (set_state THREAD_DEATH th))).
      apply (mid_frame ∅ false pend (with_threads (<[k_current s := th2]> (k_threads s)) s) s2);
        [|unfold s2; simpl; by rewrite ?insert_insert_eq|done..].
      by apply (leave_dead pend s th th2). }
    assert (view_of s2 = view_of s) as Hv2.
    { unfold view_of, s2. simpl. rewrite ?insert_insert_eq. by rewrite (rets_upd _ _ th). }
    apply wp_when. unfold heap_delayed_free. case_if; wp_step; apply wp_when; case_if; wp_step;
      (apply Hgo; [first [exact Hm2|eapply mid_frame; [exact Hm2|done..]]|exact Hv2]).
  - wp_step. eapply wp_mono; [eapply (wake_all_quiet false pend s1 (WqRetcode (k_current s)) w);
      [by apply (leave_dead pend s th (set_retcode r (set_state THREAD_DEATH th)))|done|done]|].
    intros n s2 (Hm2 & _ & _ & Hv2). wp_step. apply Hgo; [done|]. rewrite Hv2, Hv1. done.
Qed.

End SchedOps.
