(* ===== verification/Kernel.v ===== *)
(** The kernel as a machine: the timer interrupt of [kernel/timer.c], blocked
    calls resumed where [thread_resched] left them, and the events that drive
    the system - calls of the running thread, interrupts and the passing of
    time.  Interrupts are disabled while a kernel function holds the thread
    lock, so events are atomic. *)
From S2P Require Import Prelude Timer KState Thread Sync.
Local Open Scope Z_scope.

Module Kernel.
Import KState Thread Sync.

(** * The timer interrupt *)

Definition run_callback (cb : timer_callback) (arg : tid) : K handler_return :=
  match cb with
  | thread_sleep_handler_cb => thread_sleep_handler arg
  | wait_queue_timeout_handler_cb => wait_queue_timeout_handler arg
  | thread_timer_tick_cb => thread_timer_tick
  end.

(** The body of the loop of [timer_tick] for the timer at the head of the queue. *)
Definition fire (now : Z) (id : timer_id) (rest : list timer_id) (timer : Timer.timer_t) :
    K handler_return :=
  _ ← assert_ (Timer.magic timer =? Timer.TIMER_MAGIC);
  _ ← on_timer (modify (Timer.with_queue rest));
  let periodic := 0 <? Timer.periodic_time timer in
  cb ← deref (fun _ : kstate => Timer.callback timer);
  r ← run_callback cb (Timer.arg timer);
  linked ← on_timer (Timer.list_in_list id);
  timer ← deref (fun s : kstate => Timer.timers (k_timer s) !! id);
  _ ← when (periodic && negb linked && (0 <? Timer.periodic_time timer))
        (_ ← on_timer (modify (fun tm => Timer.with_timers
               (<[id := Timer.MkTimer (Timer.magic timer) (u32 (now + Timer.periodic_time timer))
                         (Timer.periodic_time timer) (Timer.callback timer) (Timer.arg timer)]>
                 (Timer.timers tm)) tm));
         on_timer (Timer.insert_timer_in_queue id));
  mret r.

Fixpoint timer_tick_loop (fuel : nat) (now : Z) (ret : handler_return) : K handler_return :=
  match fuel with
  | O => fault
  | S fuel =>
      q ← gets (fun s : kstate => Timer.timer_queue (k_timer s));
      match q with
      | [] => mret ret
      | id :: rest =>
          timer ← deref (fun s : kstate => Timer.timers (k_timer s) !! id);
          if Timer.TIME_LT now (Timer.scheduled_time timer) then mret ret
          else
            r ← fire now id rest timer;
            timer_tick_loop fuel now (if (r : handler_return) then INT_RESCHEDULE else ret)
      end
  end.

(** A periodic timer put back is due again only after [now], so each queued
    timer fires at most once: one more pass than there are timers is enough. *)
Definition timer_tick : K handler_return :=
  now ← gets (fun s : kstate => Timer.now (k_timer s));
  n ← gets (fun s : kstate => length (Timer.timer_queue (k_timer s)));
  ret ← timer_tick_loop (S n) now INT_NO_RESCHEDULE;
  q ← gets (fun s : kstate => Timer.timer_queue (k_timer s));
  match q with
  | [] => mret ret
  | id :: _ =>
      timer ← deref (fun s : kstate => Timer.timers (k_timer s) !! id);
      _ ← assert_ (Timer.TIME_GT (Timer.scheduled_time timer) now);
      _ ← on_timer (modify (Timer.with_hw (Some (u32 (Timer.scheduled_time timer - now)))));
      mret ret
  end.

(** * Calls *)

(** What the running thread may ask the kernel. *)
Inductive call :=
  | CThreadCreate (t : tid) (entry arg priority stack stack_size stack_mem : Z)
  | CThreadResume (t : tid)
  | CThreadYield
  | CThreadSleep (delay : Z)
  | CThreadExit (retcode : Z)
  | CThreadSetPriority (priority : Z)
  | CThreadSetRealTime (t : tid)
  | CMutexInit (m : nat)
  | CMutexAcquireTimeout (m : nat) (timeout : Z)
  | CMutexRelease (m : nat)
  | CSemInit (i : nat) (value : Z)
  | CSemPost (i : nat) (resched : bool)
  | CSemWait (i : nat)
  | CSemTrywait (i : nat)
  | CSemTimedwait (i : nat) (timeout : Z)
  | CEventInit (i : nat) (initial : bool) (flags : Z)
  | CEventWaitTimeout (i : nat) (timeout : Z)
  | CEventSignal (i : nat) (reschedule : bool)
  | CEventUnsignal (i : nat).

Definition done (m : K Z) : K outcome := r ← m; mret (Done r).
Definition void (m : K unit) : K outcome := _ ← m; mret (Done NO_ERROR).

Definition run_call (c : call) : K outcome :=
  match c with
  | CThreadCreate t entry arg priority stack stack_size stack_mem =>
      r ← thread_create_etc (Some t) None entry arg priority stack stack_size stack_mem;
      mret (Done (match r with Some t => Z.of_nat t | None => 0 end))
  | CThreadResume t => done (thread_resume t)
  | CThreadYield => void thread_yield
  | CThreadSleep delay => void (thread_sleep delay)
  | CThreadExit retcode => void (thread_exit retcode)
  | CThreadSetPriority priority => void (thread_set_priority priority)
  | CThreadSetRealTime t => done (thread_set_real_time t)
  | CMutexInit m => void (mutex_init m)
  | CMutexAcquireTimeout m timeout => mutex_acquire_timeout m timeout
  | CMutexRelease m => done (mutex_release m)
  | CSemInit i value => void (sem_init i value)
  | CSemPost i resched => done (sem_post i resched)
  | CSemWait i => sem_wait i
  | CSemTrywait i => done (sem_trywait i)
  | CSemTimedwait i timeout => sem_timedwait i timeout
  | CEventInit i initial flags => void (event_init i initial flags)
  | CEventWaitTimeout i timeout => event_wait_timeout i timeout
  | CEventSignal i reschedule => done (event_signal i reschedule)
  | CEventUnsignal i => done (event_unsignal i)
  end.

(** What a driver's interrupt handler may ask it; none of these reschedules. *)
Inductive irq_call := ISemPost (i : nat) | IEventSignal (i : nat).

Definition run_irq_call (c : irq_call) : K Z :=
  match c with ISemPost i => sem_post i false | IEventSignal i => event_signal i false end.

(** The code left to run after [thread_resched] returns, innermost first, each
    part given the result of the one before. *)
Definition run_frame (f : frame) (r : Z) : K Z :=
  match f with
  | FWaitQueueBlock timed => wait_queue_block_resumed timed
  | FWaitQueueDestroy q => _ ← wait_queue_destroy_resumed q; mret r
  | FThreadJoin t => thread_join_resumed t r
  | FMutexAcquire m => mutex_acquire_resumed m r
  | FSemTimedWait i => sem_timedwait_resumed i r
  end.

Fixpoint run_frames (fs : list frame) (r : Z) : K Z :=
  match fs with
  | [] => mret r
  | f :: fs => r ← run_frame f r; run_frames fs r
  end.

(** * The machine *)

(** The kernel and, for each thread inside a blocked call, the rest of the call. *)
Record machine := MkMachine { kernel : kstate; conts : gmap tid (list frame) }.

Inductive event :=
  | ECall (c : call)
  | EResume
  | EIrq (c : irq_call) (ret : handler_return)
  | ETick
  | EAdvance (n : Z).

(** The end of an interrupt: [thread_preempt] when the handler asked for it. *)
Definition irq_exit (ret : handler_return) : K unit := when ret thread_preempt.

(** [platform_set_oneshot_timer] disarms the timer when it fires. *)
Definition take_timer_irq : K unit :=
  _ ← on_timer (modify (Timer.with_hw None));
  ret ← timer_tick;
  irq_exit ret.

(** The current thread goes on, or is left in the middle of a call. *)
Definition after_call (cur : tid) (C : gmap tid (list frame)) (o : outcome) : gmap tid (list frame) :=
  match o with Done _ => C | Switched fs => <[cur := fs]> C end.

Definition step (m : machine) (e : event) : option machine :=
  let s := kernel m in
  match e with
  | ECall c =>
      r ← run_call c s;
      Some (MkMachine r.2 (after_call (k_current s) (conts m) r.1))
  | EResume =>
      fs ← conts m !! k_current s;
      r ← run_frames fs NO_ERROR s;
      Some (MkMachine r.2 (delete (k_current s) (conts m)))
  | EIrq c ret =>
      r ← (_ ← run_irq_call c; irq_exit ret) s;
      Some (MkMachine r.2 (conts m))
  | ETick =>
      r ← take_timer_irq s;
      Some (MkMachine r.2 (conts m))
  | EAdvance n => Some (MkMachine (with_timer (Timer.advance n (k_timer s)) s) (conts m))
  end.

Fixpoint run (m : machine) (es : list event) : option machine :=
  match es with
  | [] => Some m
  | e :: es => m' ← step m e; run m' es
  end.

(** * Boot *)

(** Zeroed memory, and the clock at 0. *)
Definition zero_kstate : kstate :=
  MkK ∅ [] ∅ 0 0%nat 0%nat ∅ true [] (Timer.MkState ∅ [] None 0) ∅ ∅ ∅.

(** The boot thread initialises the scheduler and becomes the idle thread. *)
Definition boot_thread (idle : tid) : K unit :=
  _ ← thread_init_early idle;
  _ ← thread_init;
  thread_become_idle.

Definition boot : option machine :=
  r ← boot_thread 0%nat zero_kstate; Some (MkMachine r.2 ∅).

(** * The rules of use

    [allowed m e]: event [e] may happen in [m].  While the current thread still
    has to leave the kernel, the lock is held and only that can happen.  A call
    obeys the documented rules: objects are initialised once and exist, a mutex
    is released by its holder and not taken again by it, delays stay within the
    range 32-bit time comparisons handle, the count of a semaphore stays inside
    the range of [int], the idle thread does not block. *)

Definition delay_okb (d : Z) : bool := (0 <=? d) && (d <? Timer.HALF).
Definition timeout_okb (d : Z) : bool := (d =? INFINITE_TIME) || delay_okb d.

Definition thread_okb (s : kstate) (t : tid) : bool :=
  match k_threads s !! t with
  | Some th => (magic th =? THREAD_MAGIC) && negb (bool_decide (state th = THREAD_DEATH))
  | None => false
  end.

Definition is_idle (s : kstate) : bool := bool_decide (k_current s = k_idle_thread s).
Definition has {A} (m : gmap nat A) (i : nat) : bool := bool_decide (is_Some (m !! i)).
(** One more unit or one less is still an [int]. *)
Definition sem_fits (s : kstate) (i : nat) : bool :=
  match k_semaphores s !! i with
  | Some x => (- 2 ^ 31 <? s_count x) && (s_count x <? 2 ^ 31 - 1) | None => false end.
Definition no_wq (s : kstate) (q : wqid) : bool := bool_decide (k_wait_queues s !! q = None).

Definition call_ok (m : machine) (c : call) : bool :=
  let s := kernel m in
  match c with
  | CThreadCreate t _ _ p _ _ _ =>
      bool_decide (k_threads s !! t = None) && no_wq s (WqRetcode t) &&
      bool_decide (conts m !! t = None) && (0 <=? p) && (p <? NUM_PRIORITIES)
  | CThreadResume t | CThreadSetRealTime t => thread_okb s t
  | CThreadYield => true
  | CThreadSleep d => negb (is_idle s) && delay_okb d
  | CThreadExit _ | CThreadSetPriority _ => negb (is_idle s)
  | CMutexInit i => negb (has (k_mutexes s) i) && no_wq s (WqMutex i)
  | CMutexAcquireTimeout i timeout =>
      negb (is_idle s) && timeout_okb timeout &&
      match k_mutexes s !! i with
      | Some x => negb (bool_decide (m_holder x = Some (k_current s))) | None => false end
  | CMutexRelease i =>
      negb (is_idle s) &&
      match k_mutexes s !! i with
      | Some x => bool_decide (m_holder x = Some (k_current s)) | None => false end
  | CSemInit i value =>
      negb (has (k_semaphores s) i) && no_wq s (WqSem i) && (0 <=? value) && (value <? 2 ^ 31)
  | CSemPost i resched => sem_fits s i && negb (resched && is_idle s)
  | CSemWait i => negb (is_idle s) && sem_fits s i
  | CSemTrywait i => sem_fits s i
  | CSemTimedwait i timeout => negb (is_idle s) && sem_fits s i && timeout_okb timeout
  | CEventInit i _ _ => negb (has (k_events s) i) && no_wq s (WqEvent i)
  | CEventWaitTimeout i timeout => negb (is_idle s) && has (k_events s) i && timeout_okb timeout
  | CEventSignal i reschedule => has (k_events s) i && negb (reschedule && is_idle s)
  | CEventUnsignal i => has (k_events s) i
  end.

Definition irq_ok (s : kstate) (c : irq_call) : bool :=
  match c with ISemPost i => sem_fits s i | IEventSignal i => has (k_events s) i end.

(** Interrupts are served before a timer is half the window late. *)
Definition advance_ok (tm : Timer.state) (n : Z) : bool :=
  (0 <=? n) &&
  forallb (fun id => (- Timer.HALF <=? Timer.due tm id - n) && (Timer.due tm id - n <? Timer.HALF))
    (Timer.timer_queue tm).

(** A wait that timed out puts its unit back. *)
Definition resume_ok (m : machine) : bool :=
  forallb (fun f => match f with FSemTimedWait i => sem_fits (kernel m) i | _ => true end)
    (default [] (conts m !! k_current (kernel m))).

Definition allowed (m : machine) (e : event) : bool :=
  let s := kernel m in
  let in_call := has (conts m) (k_current s) in
  match e with
  | ECall c => negb in_call && call_ok m c
  | EResume => in_call && resume_ok m
  | EIrq c _ => negb in_call && irq_ok s c
  | ETick => negb in_call
  | EAdvance n => advance_ok (k_timer s) n
  end.

(** Runs whose every event is allowed. *)
Fixpoint legal (m : machine) (es : list event) : bool :=
  match es with
  | [] => true
  | e :: es => allowed m e && match step m e with Some m' => legal m' es | None => true end
  end.

Inductive reachable : machine -> Prop :=
  | reachable_boot m : boot = Some m -> reachable m
  | reachable_step m e m' : reachable m -> allowed m e = true -> step m e = Some m' -> reachable m'.

End Kernel.
