(* ===== verification/Tick.v ===== *)
(** The timer interrupt keeps the kernel's invariant: [timer_tick] fires the
    timers that are due, at most once each, and programs the hardware again. *)
From Stdlib Require Import Sorted.
From S2P Require Import Prelude Timer KState Thread Sched SchedOps Kernel.
Local Open Scope Z_scope.

Module Tick.
Import KState Thread Sched SchedOps Kernel.

(** Inside the interrupt the hardware timer is stopped; the queue is as it would
    be with the hardware programmed for it. *)
Definition fix_hw (tm : Timer.state) : Timer.state :=
  Timer.with_hw ((fun h => Z.max 0 (Timer.due tm h)) <$> head (Timer.timer_queue tm)) tm.

Definition fixed (s : kstate) : kstate := with_timer (fix_hw (k_timer s)) s.

Lemma wf_fix tm : Timer.wf tm -> fix_hw tm = tm.
Proof. intros Hwf. unfold fix_hw. rewrite <- (Timer.wf_hw _ Hwf). by destruct tm. Qed.

Lemma wf_dequeue tm id rest :
  Timer.wf (fix_hw tm) -> Timer.timer_queue tm = id :: rest ->
  Timer.wf (fix_hw (Timer.with_queue rest tm)).
Proof.
  intros [] Hq. simpl in *. rewrite Hq in *. split; simpl; [| | |done].
  - by apply NoDup_cons in wf_nodup as [_ ?].
  - intros x Hx. apply wf_live. by right.
  - by inversion wf_sorted.
Qed.

(** The clock and the hardware timer are left alone. *)
Definition same_clock (tm tm' : Timer.state) : Prop :=
  Timer.now tm' = Timer.now tm /\ Timer.hw tm' = Timer.hw tm.

(** * Timers that leave the queue *)

Section dequeue.
Context (pend : gmap tid bool) (thr : gmap tid thread_t) (tm : Timer.state).
Context (t : tid) (rest : list timer_id) (x : Timer.timer_t).
Hypothesis Hti : tinv pend thr (fix_hw tm).
Hypothesis Hq : Timer.timer_queue tm = TmStack t :: rest.
Hypothesis Hx : Timer.timers tm !! TmStack t = Some x.

Lemma head_not_in_rest : TmStack t ∉ rest.
Proof.
  pose proof (Timer.wf_nodup _ (ti_wf _ _ _ Hti)) as Hnd. simpl in Hnd. rewrite Hq in Hnd.
  by apply NoDup_cons in Hnd as [? _].
Qed.

Lemma tinv_dequeue thr' :
    (forall t', t' ≠ t -> thr' !! t' = thr !! t') ->
    (forall th', thr' !! t = Some th' -> state th' ≠ THREAD_SLEEPING /\ state th' ≠ THREAD_BLOCKED) ->
    (is_Some (pend !! t) -> exists th, thr' !! t = Some th /\
      (state th = THREAD_BLOCKED \/ state th = THREAD_READY \/ state th = THREAD_RUNNING)) ->
    tinv pend thr' (fix_hw (Timer.with_queue rest tm)).
Proof.
  intros Hoth Ht Hp. pose proof Hti as []. pose proof head_not_in_rest as Hnin. simpl in *.
  split; simpl; try done.
  - eapply wf_dequeue; [done|exact Hq].
  - intros y Hy. apply ti_preempt0. rewrite Hq. by right.
  - intros t' y Hy Hty. assert (t' ≠ t) by (by intros ->).
    rewrite Hoth by done. apply ti_stack0; [|done]. rewrite Hq. by right.
  - intros t' th' Ht' Hst. destruct (decide (t' = t)) as [->|Hne]; [by apply Ht in Ht' as [? _]|].
    rewrite Hoth in Ht' by done. pose proof (ti_sleep0 _ _ Ht' Hst) as Hin.
    rewrite Hq in Hin. apply elem_of_cons in Hin as [?|?]; [congruence|done].
  - intros t' b Hb. destruct (ti_pend0 t' b Hb) as [? Hl]. split; [|done].
    destruct (decide (t' = t)) as [->|Hne]; [by apply Hp|]. by rewrite Hoth.
  - intros t' th' Ht' Hst. destruct (decide (t' = t)) as [->|Hne]; [by apply Ht in Ht' as [_ ?]|].
    rewrite Hoth in Ht' by done. destruct (ti_blocked0 _ _ Ht' Hst) as (b & ? & Hb). exists b. split; [done|].
    intros Hb'. specialize (Hb Hb'). rewrite Hq in Hb. apply elem_of_cons in Hb as [?|?]; [congruence|done].
Qed.
End dequeue.

(** The preemption timer goes back into the queue, one period ahead. *)
Lemma tinv_refire pend thr tm rest x :
  tinv pend thr (fix_hw tm) -> Timer.timer_queue tm = TmPreempt :: rest ->
  Timer.timers tm !! TmPreempt = Some x ->
  let x' := Timer.MkTimer (Timer.magic x) (u32 (Timer.now tm + Timer.periodic_time x))
              (Timer.periodic_time x) (Timer.callback x) (Timer.arg x) in
  let tm1 := Timer.with_timers (<[TmPreempt := x']> (Timer.timers tm)) (Timer.with_queue rest tm) in
  wp (Timer.insert_timer_in_queue TmPreempt) tm1 (fun _ tm' =>
    tinv pend thr (fix_hw tm') /\ same_clock tm tm' /\
    Timer.timers tm' = Timer.timers tm1 /\
    exists q1 q2, rest = q1 ++ q2 /\ Timer.timer_queue tm' = q1 ++ TmPreempt :: q2 /\
      0 < Timer.due tm' TmPreempt).
Proof.
  intros Hti Hq Hx x' tm1. pose proof Hti as [].
  destruct (ti_preempt0 x) as [Hcb Hper]; [simpl; rewrite Hq; left|done|].
  assert (Timer.wf (fix_hw (Timer.with_queue rest tm))) as Hwf0 by (eapply wf_dequeue; [done|exact Hq]).
  assert (TmPreempt ∉ rest) as Hnin.
  { pose proof (Timer.wf_nodup _ ti_wf0) as Hnd. simpl in Hnd. rewrite Hq in Hnd.
    by apply NoDup_cons in Hnd as [? _]. }
  assert (forall e, e ∈ rest -> TmPreempt ≠ e) as Hne by (intros e ? <-; done).
  assert (Timer.due_of (Timer.now tm) x' = Timer.periodic_time x) as Hdue.
  { apply Timer.due_new; [lia|done]. }
  assert (Timer.magic x = Timer.TIMER_MAGIC) as Hmag.
  { destruct ti_preempt_live0 as (y & Hy & ?). simpl in Hy. by simplify_eq. }
  destruct (Timer.insert_walk_spec (Timer.timers tm1) TmPreempt (Timer.scheduled_time x') (Timer.now tm) rest)
    as (q1 & q2 & Hr & Hwalk & Hle & Hgt).
  { fold (Timer.due_of (Timer.now tm) x'). rewrite Hdue. unfold Timer.in_window, Timer.HALF in *. lia. }
  { intros e He. destruct (Timer.wf_live _ Hwf0 e He) as (te & ? & _ & _ & ?).
    exists te. simpl. rewrite lookup_insert_ne by auto. done. }
  { eapply Timer.StronglySorted_impl; [|exact (Timer.wf_sorted_live _ Hwf0)].
    intros a b Ha Hb HR ta tb. simpl in *. rewrite !lookup_insert_ne by auto. eauto. }
  unfold Timer.insert_timer_in_queue. wp_step. exists x'. simpl. rewrite lookup_insert_eq. split; [done|].
  wp_step. exists (q1 ++ TmPreempt :: q2). split; [exact Hwalk|]. wp_step.
  fold (Timer.due_of (Timer.now tm) x') in Hle, Hgt. rewrite Hdue in Hle, Hgt.
  assert (forall e, e ∈ rest -> exists te, Timer.timers tm !! e = Some te) as Hlook.
  { intros e He. destruct (Timer.wf_live _ Hwf0 e He) as (te & ? & _). by exists te. }
  set (tm2 := Timer.with_queue (q1 ++ TmPreempt :: q2) tm1).
  assert (Timer.wf (fix_hw tm2)) as Hwf2.
  { apply (Timer.link_wf (fix_hw (Timer.with_queue rest tm)) (fix_hw tm2) TmPreempt x' q1 q2); try done; simpl.
    - change (Timer.in_window (Timer.due_of (Timer.now tm) x')). rewrite Hdue. unfold Timer.in_window, Timer.HALF in *. lia.
    - intros e He. rewrite Hdue. destruct (Hlook e) as [te Hte]; [rewrite Hr; set_solver|].
      unfold Timer.due. simpl. rewrite Hte. eapply Hle; [done|]. simpl.
      rewrite lookup_insert_ne; [done|]. apply Hne. rewrite Hr. set_solver.
    - intros e He. rewrite Hdue. destruct (Hlook e) as [te Hte]; [rewrite Hr; set_solver|].
      unfold Timer.due. simpl. rewrite Hte. eapply Hgt; [done|]. simpl.
      rewrite lookup_insert_ne; [done|]. apply Hne. rewrite Hr. set_solver. }
  assert (forall j, j ∈ q1 ++ TmPreempt :: q2 <-> j = TmPreempt \/ j ∈ rest) as Hin.
  { intros j. rewrite Hr. clear. set_solver. }
  assert (forall t, Timer.timers tm1 !! TmStack t = Timer.timers tm !! TmStack t) as Hst.
  { intros t. simpl. by rewrite lookup_insert_ne. }
  split; [|split; [done|split; [done|exists q1, q2; split; [done|split; [done|]]]]].
  - split; simpl; try done.
    + exists x'. simpl. rewrite lookup_insert_eq. done.
    + intros y _. rewrite lookup_insert_eq. intros [= <-]. done.
    + intros t y. rewrite Hin. intros [?|Hy]; [done|]. rewrite lookup_insert_ne by done.
      apply ti_stack0. simpl. rewrite Hq. by right.
    + intros t th Ht Hslp. rewrite Hin. right. pose proof (ti_sleep0 _ _ Ht Hslp) as Hi. simpl in Hi.
      rewrite Hq in Hi. by apply elem_of_cons in Hi as [?|?].
    + intros t b Hb. destruct (ti_pend0 t b Hb) as [? Hl]. split; [done|]. intros ->.
      eapply timer_live_ext; [|by apply Hl]. apply Hst.
    + intros t th Ht Hbl. destruct (ti_blocked0 _ _ Ht Hbl) as (b & ? & Hb). exists b. split; [done|].
      intros Hb'. specialize (Hb Hb'). simpl in Hb. rewrite Hq in Hb. rewrite Hin. right.
      by apply elem_of_cons in Hb as [?|?].
  - unfold Timer.due. simpl. rewrite lookup_insert_eq, Hdue. lia.
Qed.

(** * Firing one timer *)

(** The number of queued timers that are due. *)
Definition late (tm : Timer.state) : nat :=
  length (filter (fun id => Timer.due tm id <= 0) (Timer.timer_queue tm)).

Lemma length_filter_ext {A} (P Q : A -> Prop) `{forall x, Decision (P x)} `{forall x, Decision (Q x)} l :
  (forall x, x ∈ l -> P x <-> Q x) -> length (filter P l) = length (filter Q l).
Proof.
  induction l as [|a l IH]; intros He; [done|]. rewrite !filter_cons.
  specialize (IH ltac:(intros; apply He; by right)). specialize (He a ltac:(left)).
  repeat case_decide; simpl; tauto || lia.
Qed.

Lemma late_dequeue tm id rest :
  Timer.timer_queue tm = id :: rest -> Timer.due tm id <= 0 ->
  late tm = S (late (Timer.with_queue rest tm)).
Proof.
  intros Hq Hd. unfold late. rewrite Hq, filter_cons_True by done. done.
Qed.

Lemma late_refire tm tm' rest q1 q2 :
  rest = q1 ++ q2 -> Timer.timer_queue tm' = q1 ++ TmPreempt :: q2 -> TmPreempt ∉ rest ->
  0 < Timer.due tm' TmPreempt -> (forall x, x ≠ TmPreempt -> Timer.due tm' x = Timer.due tm x) ->
  late tm' = late (Timer.with_queue rest tm).
Proof.
  intros Hr Hq Hn Hd He. unfold late. rewrite Hq. simpl.
  rewrite filter_app, filter_cons_False, <- filter_app, <- Hr by lia.
  apply length_filter_ext. intros x Hx. rewrite He; [done|]. by intros ->.
Qed.

(** What a timer's callback shows other components: nothing, or a thread whose
    timed wait is over. *)
Inductive fired (pend : gmap tid bool) (v : view) : view -> Prop :=
  | fired_none : fired pend v v
  | fired_timeout q w t : v_wq v !! q = Some w -> t ∈ wq_list w -> pend !! t = Some true ->
      fired pend v (wake_view q w t (filter (fun x => x ≠ t) (wq_list w)) ERR_TIMED_OUT v).

(** The state between two firings. *)
Definition ticking (pend : gmap tid bool) (s : kstate) : Prop := ok pend (fixed s).

(** Stack timers only leave the queue. *)
Definition stack_kept (tm tm' : Timer.state) : Prop :=
  forall t, TmStack t ∈ Timer.timer_queue tm' ->
    TmStack t ∈ Timer.timer_queue tm /\ Timer.timers tm' !! TmStack t = Timer.timers tm !! TmStack t.

Definition fire_post (pend : gmap tid bool) (s : kstate) (s' : kstate) : Prop :=
  ticking pend s' /\ stack_kept (k_timer s) (k_timer s') /\ (late (k_timer s') < late (k_timer s))%nat /\
  same_clock (k_timer s) (k_timer s') /\ k_current s' = k_current s /\
  fired pend (view_of s) (view_of s').

(** The tail of [fire] for a timer that is not periodic. *)
Lemma wp_oneshot_tail s id timer now (r : handler_return) (Q : handler_return -> kstate -> Prop) y :
  Timer.periodic_time timer = 0 -> Timer.timers (k_timer s) !! id = Some y -> Q r s ->
  wp (linked ← on_timer (Timer.list_in_list id);
      timer0 ← deref (fun s : kstate => Timer.timers (k_timer s) !! id);
      _ ← when ((0 <? Timer.periodic_time timer) && negb linked && (0 <? Timer.periodic_time timer0))
        (_ ← on_timer (modify (fun tm => Timer.with_timers
               (<[id := Timer.MkTimer (Timer.magic timer0) (u32 (now + Timer.periodic_time timer0))
                         (Timer.periodic_time timer0) (Timer.callback timer0) (Timer.arg timer0)]>
                 (Timer.timers tm)) tm));
         on_timer (Timer.insert_timer_in_queue id));
      mret r) s Q.
Proof.
  intros Hp Hy HQ. wp_step. apply wp_on_timer. unfold Timer.list_in_list. wp_step.
  exists y. split; [done|]. rewrite Hp. cbn [Z.ltb Z.compare andb when]. wp_step. by destruct s.
Qed.

Lemma ticking_of pend s s0 th' t :
  ticking pend s0 -> SINV ∅ s -> k_threads s = <[t := th']> (k_threads s0) ->
  k_current s = k_current s0 -> t ≠ k_current s0 -> state th' ≠ THREAD_RUNNING ->
  (TmPreempt ∈ Timer.timer_queue (k_timer s) <-> TmPreempt ∈ Timer.timer_queue (k_timer s0)) ->
  tinv pend (k_threads s) (fix_hw (k_timer s)) -> ticking pend s.
Proof.
  intros [] Hs Ht Hc Hne Hst Hp Hti. split; try done; simpl.
  - intros th. simpl. rewrite Hc, Ht, lookup_insert_ne, Hp by done. apply ok_armed0.
  - destruct ok_running0 as (th & ? & ?). exists th. by rewrite Hc, Ht, lookup_insert_ne.
  - intros t' th. rewrite Ht, lookup_insert, Hc. case_decide; [by intros [= <-]|]. apply ok_unique0.
Qed.

Section fire.
Context (pend : gmap tid bool) (s : kstate) (rest : list timer_id).
Hypothesis Htick : ticking pend s.

Let s1 : kstate := with_timer (Timer.with_queue rest (k_timer s)) s.

Lemma dequeue_kept id : Timer.timer_queue (k_timer s) = id :: rest ->
    stack_kept (k_timer s) (Timer.with_queue rest (k_timer s)).
Proof. intros Hq t Hin. simpl in Hin. split; [|done]. rewrite Hq. by right. Qed.

Lemma fire_sleep t th x :
    Timer.timer_queue (k_timer s) = TmStack t :: rest ->
    Timer.timers (k_timer s) !! TmStack t = Some x -> Timer.periodic_time x = 0 ->
    Timer.due (k_timer s) (TmStack t) <= 0 ->
    k_threads s !! t = Some th -> state th = THREAD_SLEEPING ->
    wp (r ← thread_sleep_handler t;
        linked ← on_timer (Timer.list_in_list (TmStack t));
        timer0 ← deref (fun s : kstate => Timer.timers (k_timer s) !! TmStack t);
        _ ← when ((0 <? Timer.periodic_time x) && negb linked && (0 <? Timer.periodic_time timer0))
          (_ ← on_timer (modify (fun tm => Timer.with_timers
                 (<[TmStack t := Timer.MkTimer (Timer.magic timer0) (u32 (Timer.now (k_timer s) + Timer.periodic_time timer0))
                           (Timer.periodic_time timer0) (Timer.callback timer0) (Timer.arg timer0)]>
                   (Timer.timers tm)) tm));
           on_timer (Timer.insert_timer_in_queue (TmStack t)));
        mret r) s1 (fun _ s' => fire_post pend s s').
Proof.
  intros Hq Hx Hp Hd Hth Hst. pose proof Htick as [].
  apply wp_bind. eapply wp_mono; [by eapply (thread_sleep_handler_spec s1 t th)|].
  intros r s2 (Hs2 & -> & l & Hl & ->). eapply wp_oneshot_tail; [done|exact Hx|].
  split; [|split; [by apply (dequeue_kept (TmStack t))|split; [rewrite (late_dequeue _ _ _ Hq Hd); simpl; lia|split; [done|split; [done|]]]]].
  - eapply (ticking_of _ _ s); [done|exact Hs2|done|done| |done|simpl; rewrite Hq|].
    + intros ->. destruct ok_running0 as (y & Hy & ?). simpl in Hy. congruence.
    + rewrite elem_of_cons. clear. naive_solver.
    + apply (tinv_dequeue pend (k_threads s) (k_timer s) t rest); [apply ok_tinv0|done|..]; simpl.
      * intros t' ?. by rewrite lookup_insert_ne.
      * intros th'. rewrite lookup_insert_eq. by intros [= <-].
      * intros _. rewrite lookup_insert_eq. eauto.
  - rewrite view_rq_insert. change (view_of s) with (view_of s1).
    rewrite (view_upd s1 t th); [constructor|done|done].
Qed.

Lemma fire_wait_timeout t x :
    Timer.timer_queue (k_timer s) = TmStack t :: rest ->
    Timer.timers (k_timer s) !! TmStack t = Some x -> Timer.periodic_time x = 0 ->
    Timer.due (k_timer s) (TmStack t) <= 0 -> pend !! t = Some true ->
    wp (r ← wait_queue_timeout_handler t;
        linked ← on_timer (Timer.list_in_list (TmStack t));
        timer0 ← deref (fun s : kstate => Timer.timers (k_timer s) !! TmStack t);
        _ ← when ((0 <? Timer.periodic_time x) && negb linked && (0 <? Timer.periodic_time timer0))
          (_ ← on_timer (modify (fun tm => Timer.with_timers
                 (<[TmStack t := Timer.MkTimer (Timer.magic timer0) (u32 (Timer.now (k_timer s) + Timer.periodic_time timer0))
                           (Timer.periodic_time timer0) (Timer.callback timer0) (Timer.arg timer0)]>
                   (Timer.timers tm)) tm));
           on_timer (Timer.insert_timer_in_queue (TmStack t)));
        mret r) s1 (fun _ s' => fire_post pend s s').
Proof.
  intros Hq Hx Hp Hd Hpd. pose proof Htick as [].
  destruct (ti_pend _ _ _ ok_tinv0 _ _ Hpd) as [(th & Hth & Hcase) _]. simpl in Hth.
  assert (magic th = THREAD_MAGIC) as Hm.
  { apply (si_thr _ _ _ _ _ _ ok_sinv0 _ _ Hth). destruct Hcase as [E|[E|E]]; by rewrite E. }
  apply wp_bind. eapply wp_mono; [by eapply (wait_queue_timeout_handler_spec s1 t th)|].
  intros r s2 (Hs2 & Hr). case_bool_decide as Hst.
  - destruct Hr as (q & w & l & -> & Hb & Hw & Hl & Hin & ->).
    eapply wp_oneshot_tail; [done|exact Hx|].
    split; [|split; [by apply (dequeue_kept (TmStack t))|split; [rewrite (late_dequeue _ _ _ Hq Hd); simpl; lia|split; [done|split; [done|]]]]].
    + eapply (ticking_of _ _ s); [done|exact Hs2|done|done| |done|simpl; rewrite Hq|].
      * intros ->. destruct ok_running0 as (y & Hy & ?). simpl in Hy. congruence.
      * rewrite elem_of_cons. clear. naive_solver.
      * apply (tinv_dequeue pend (k_threads s) (k_timer s) t rest); [apply ok_tinv0|done|..]; simpl.
        -- intros t' ?. by rewrite lookup_insert_ne.
        -- intros th'. rewrite lookup_insert_eq. by intros [= <-].
        -- intros _. rewrite lookup_insert_eq. eauto.
    + rewrite view_rq_insert. unfold unblocked. rewrite view_popped.
      apply (fired_timeout pend (view_of s) q w t Hw Hin Hpd).
  - destruct Hr as [-> ->]. eapply wp_oneshot_tail; [done|exact Hx|].
    split; [|split; [by apply (dequeue_kept (TmStack t))|split; [rewrite (late_dequeue _ _ _ Hq Hd); simpl; lia|split; [done|split; [done|constructor]]]]].
    split; try done; simpl.
    { apply (tinv_dequeue pend (k_threads s) (k_timer s) t rest); [apply ok_tinv0|done|done|..].
      - intros th' Hth'. simplify_eq. split; [|done]. destruct Hcase as [E|[E|E]]; by rewrite E.
      - eauto. }
    intros y Hy. specialize (ok_armed0 y Hy). simpl in *. rewrite <- ok_armed0, Hq, elem_of_cons. clear. naive_solver.
Qed.
End fire.

(** The preemption timer ticks and goes back into the queue. *)
Lemma fire_preempt pend s rest x :
  ticking pend s -> Timer.timer_queue (k_timer s) = TmPreempt :: rest ->
  Timer.timers (k_timer s) !! TmPreempt = Some x -> Timer.due (k_timer s) TmPreempt <= 0 ->
  wp (fire (Timer.now (k_timer s)) TmPreempt rest x) s (fun _ s' => fire_post pend s s').
Proof.
  intros Htick Hq Hx Hd. pose proof Htick as [].
  destruct (ti_preempt _ _ _ ok_tinv0 x) as [Hcb Hper]; [simpl; rewrite Hq; left|done|].
  assert (Timer.magic x = Timer.TIMER_MAGIC) as Hmag.
  { destruct (ti_preempt_live _ _ _ ok_tinv0) as (y & Hy & ?). simpl in Hy. by simplify_eq. }
  assert (TmPreempt ∉ rest) as Hnin.
  { pose proof (Timer.wf_nodup _ (ti_wf _ _ _ ok_tinv0)) as Hnd. simpl in Hnd. rewrite Hq in Hnd.
    by apply NoDup_cons in Hnd as [? _]. }
  destruct ok_running0 as (th & Hth & Hst). simpl in Hth.
  unfold fire. wp_step. split; [by rewrite Hmag|]. apply wp_on_timer. wp_step.
  exists thread_timer_tick_cb. split; [done|]. cbn [run_callback].
  set (s1 := with_timer _ s).
  apply wp_bind. eapply wp_mono; [exact (thread_timer_tick_spec s1 th Hth)|].
  intros r s2 Hr. rewrite (proj1 (ok_armed0 th Hth)) in Hr by (simpl; rewrite Hq; left).
  destruct Hr as [_ ->]. wp_step. apply wp_on_timer. unfold Timer.list_in_list. wp_step.
  exists x. split; [exact Hx|]. rewrite bool_decide_eq_false_2 by exact Hnin.
  rewrite (proj2 (Z.ltb_lt _ _)) by lia. cbn [andb negb when]. wp_step. apply wp_on_timer. wp_step.
  apply wp_on_timer. simpl.
  eapply wp_mono; [exact (tinv_refire pend _ _ rest x ok_tinv0 Hq Hx)|].
  intros [] tm' (Hti & [Hn Hh] & Htm & q1 & q2 & Hrest & Hq' & Hdue). wp_step.
  set (q := s32 (remaining_quantum th - 1)).
  assert (TmPreempt ∈ Timer.timer_queue tm') as Hin by (rewrite Hq'; set_solver).
  assert (forall th', flags th' = flags th -> thread_is_real_time_or_idle th' = false) as Hrt.
  { intros th' Hf. unfold thread_is_real_time_or_idle, has_flag. rewrite Hf.
    apply (ok_armed0 th Hth). simpl. rewrite Hq. left. }
  split; [|split; [|split; [|split; [done|split; [done|]]]]].
  - split; simpl.
    + eapply sinv_same; [apply ok_sinv0|exact Hth|done..|].
      exact (si_thr _ _ _ _ _ _ ok_sinv0 _ _ Hth).
    + eapply tinv_upd; [exact Hti|exact Hth|done| |].
      * simpl. rewrite Hst. auto.
      * simpl. by rewrite Hst.
    + intros th'. simpl. rewrite lookup_insert_eq. intros [= <-]. rewrite Hrt by done. done.
    + eexists. rewrite lookup_insert_eq. done.
    + intros t th'. rewrite lookup_insert. case_decide; [by intros _ _|]. apply ok_unique0.
  - intros t. cbn [k_timer with_timer]. rewrite Htm, Hq', Hq. simpl. rewrite lookup_insert_ne by done.
    intros Hin'. split; [|done]. right. rewrite Hrest. set_solver.
  - rewrite (late_dequeue _ _ _ Hq Hd). cbn [k_timer with_timer].
    rewrite (late_refire (k_timer s) tm' rest q1 q2); [lia|done..|].
    intros y Hy. unfold Timer.due. rewrite Htm, Hn. simpl. by rewrite lookup_insert_ne.
  - match goal with |- fired _ _ (view_of ?s') => assert (view_of s' = view_of s) as -> end; [|constructor].
    exact (view_upd s _ th (set_remaining_quantum q th) Hth eq_refl).
Qed.

Lemma fire_spec pend s id rest x :
  ticking pend s -> Timer.timer_queue (k_timer s) = id :: rest ->
  Timer.timers (k_timer s) !! id = Some x -> Timer.due (k_timer s) id <= 0 ->
  wp (fire (Timer.now (k_timer s)) id rest x) s (fun _ s' => fire_post pend s s').
Proof.
  intros Htick Hq Hx Hd. destruct id as [t|]; [|by apply fire_preempt].
  pose proof Htick as [].
  destruct (ti_stack _ _ _ ok_tinv0 t x) as (Ha & Hp & Hcase); [simpl; rewrite Hq; left|exact Hx|].
  destruct (Timer.wf_live _ (ti_wf _ _ _ ok_tinv0) (TmStack t)) as (y & Hy & Hm & _);
    [simpl; rewrite Hq; left|]. simpl in Hy. simplify_eq.
  unfold fire. wp_step. split; [by rewrite Hm|]. apply wp_on_timer. wp_step.
  destruct Hcase as [[Hcb (th & Hth & Hst)]|[Hcb Hpd]]; eexists; (split; [exact Hcb|]); cbn [run_callback].
  - by eapply fire_sleep.
  - by eapply fire_wait_timeout.
Qed.

(** * The loop *)

Inductive fired_many (pend : gmap tid bool) (v : view) : view -> Prop :=
  | fired_many_nil : fired_many pend v v
  | fired_many_cons v1 v2 : fired pend v v1 -> fired_many pend v1 v2 -> fired_many pend v v2.

(** No queued timer is due. *)
Definition all_early (tm : Timer.state) : Prop :=
  forall id, id ∈ Timer.timer_queue tm -> 0 < Timer.due tm id.

Definition tick_post (pend : gmap tid bool) (s s' : kstate) : Prop :=
  ticking pend s' /\ stack_kept (k_timer s) (k_timer s') /\ all_early (k_timer s') /\
  same_clock (k_timer s) (k_timer s') /\ k_current s' = k_current s /\
  fired_many pend (view_of s) (view_of s').

Lemma stack_kept_trans tm1 tm2 tm3 : stack_kept tm1 tm2 -> stack_kept tm2 tm3 -> stack_kept tm1 tm3.
Proof. intros H1 H2 t Ht. destruct (H2 t Ht) as [Hq ->]. by apply H1. Qed.

(** The loop's test compares the head's time with the clock. *)
Lemma TIME_LT_due tm id x : Timer.in_window (Timer.due_of (Timer.now tm) x) ->
  Timer.timers tm !! id = Some x ->
  Timer.TIME_LT (Timer.now tm) (Timer.scheduled_time x) = (0 <? Timer.due tm id).
Proof.
  intros Hw Hx. unfold Timer.TIME_LT, Timer.due. rewrite Hx.
  unfold Timer.due_of, Timer.in_window, Timer.HALF in *.
  assert (s32 (Timer.now tm - Timer.scheduled_time x) = - s32 (Timer.scheduled_time x - Timer.now tm)) as ->.
  { destruct (sw_eqm 32 (Timer.scheduled_time x - Timer.now tm)) as [k Hk]; [lia|].
    apply (sw_unique 32 _ _ k); lia. }
  destruct (Z.ltb_spec 0 (s32 (Timer.scheduled_time x - Timer.now tm))); [apply Z.ltb_lt|apply Z.ltb_ge]; lia.
Qed.

Lemma timer_tick_loop_spec fuel pend s ret :
  ticking pend s -> (late (k_timer s) < fuel)%nat ->
  wp (timer_tick_loop fuel (Timer.now (k_timer s)) ret) s (fun _ s' => tick_post pend s s').
Proof.
  revert s ret. induction fuel as [|fuel IH]; intros s ret Htick Hf; [lia|].
  cbn [timer_tick_loop]. wp_step.
  pose proof (ti_wf _ _ _ (ok_tinv _ _ Htick)) as Hwf.
  destruct (Timer.timer_queue (k_timer s)) as [|id rest] eqn:Hq; wp_step.
  { split; [done|]. split; [done|]. split; [|split; [done|split; [done|constructor]]]. intros id. rewrite Hq. by intros ?%elem_of_nil. }
  destruct (Timer.wf_live _ Hwf id) as (x & Hx & Hm & _ & Hw); [simpl; rewrite Hq; left|]. simpl in Hx, Hw.
  exists x. split; [done|]. erewrite TIME_LT_due by done. case_if; wp_step.
  - split; [done|]. split; [done|]. split; [|split; [done|split; [done|constructor]]]. intros id' Hin.
    pose proof (Timer.wf_sorted _ Hwf) as Hs. simpl in Hs. rewrite Hq in Hs, Hin.
    apply elem_of_cons in Hin as [->|Hin]; [done|]. inversion Hs as [|? ? _ Hall]; subst.
    rewrite Forall_forall in Hall. specialize (Hall _ Hin). change (Timer.due (k_timer s) id <= Timer.due (k_timer s) id') in Hall. lia.
  - eapply wp_mono; [by eapply fire_spec|]. intros r s1 (Ht1 & Hk1 & Hl1 & [Hn1 Hh1] & Hc1 & Hv1).
    rewrite <- Hn1. eapply wp_mono; [apply IH; [done|lia]|].
    intros r2 s2 (? & Hk2 & ? & [? ?] & ? & ?).
    split; [done|]. split; [by eapply stack_kept_trans|]. split; [done|]. split; [split; congruence|]. split; [congruence|by econstructor].
Qed.

(** [timer_tick] from a state whose hardware timer has just fired: no timer is
    left due, and the hardware is programmed for the first of those pending. *)
Lemma timer_tick_spec pend s : ok pend s ->
  wp timer_tick (with_timer (Timer.with_hw None (k_timer s)) s) (fun _ s' => ok pend s' /\
    stack_kept (k_timer s) (k_timer s') /\ all_early (k_timer s') /\ Timer.now (k_timer s') = Timer.now (k_timer s) /\
    k_current s' = k_current s /\ fired_many pend (view_of s) (view_of s')).
Proof.
  intros Hok. set (s0 := with_timer _ s). pose proof (ti_wf _ _ _ (ok_tinv _ _ Hok)) as Hwf.
  assert (ticking pend s0) as Htick.
  { unfold ticking, fixed, s0. cbn [k_timer with_timer].
    assert (fix_hw (Timer.with_hw None (k_timer s)) = k_timer s) as ->; [|by destruct s].
    rewrite <- (wf_fix _ Hwf). done. }
  unfold timer_tick. wp_step.
  assert (late (k_timer s0) < S (length (Timer.timer_queue (k_timer s0))))%nat as Hl.
  { unfold late. pose proof (length_filter (fun id => Timer.due (k_timer s0) id <= 0)
      (Timer.timer_queue (k_timer s0))). lia. }
  eapply wp_mono; [by apply (timer_tick_loop_spec _ pend)|].
  intros r s1 (Ht1 & Hk1 & He1 & [Hn1 Hh1] & Hc1 & Hv1). wp_step.
  pose proof (ti_wf _ _ _ (ok_tinv _ _ Ht1)) as Hwf1.
  destruct (Timer.timer_queue (k_timer s1)) as [|id rest] eqn:Hq; wp_step.
  - split; [|split_and!; done].
    assert (s1 = fixed s1) as ->; [|done].
    unfold fixed, fix_hw. rewrite Hq. simpl in Hh1 |- *. rewrite <- Hh1. by destruct s1 as [? ? ? ? ? ? ? ? ? []].
  - destruct (Timer.wf_live _ Hwf1 id) as (x & Hx & Hm & _ & Hw); [simpl; rewrite Hq; left|]. simpl in Hx, Hw.
    exists x. split; [done|]. wp_step.
    assert (0 < Timer.due (k_timer s1) id) as Hd by (apply He1; rewrite Hq; left).
    unfold Timer.due in Hd. rewrite Hx in Hd. unfold Timer.due_of in Hd.
    rewrite <- Hn1. split; [by apply Z.ltb_lt|]. apply wp_on_timer. wp_step.
    split; [|split_and!; done].
    assert (with_timer (Timer.with_hw (Some (u32 (Timer.scheduled_time x - Timer.now (k_timer s1)))) (k_timer s1)) s1
      = fixed s1) as ->; [|done].
    unfold fixed, fix_hw. rewrite Hq. simpl. do 3 f_equal. unfold Timer.due. rewrite Hx.
    unfold Timer.due_of, Timer.in_window, Timer.HALF in *.
    destruct (sw_eqm 32 (Timer.scheduled_time x - Timer.now (k_timer s1))) as [k Hk]; [lia|].
    rewrite Z.max_r by lia. unfold uw. rewrite <- (Z.mod_add _ k) by lia. rewrite <- Hk, Z.mod_small; lia.
Qed.

End Tick.
