(* ===== verification/SyncInv.v ===== *)
(** What mutexes, semaphores and events keep true of the wait queues and of the
    threads inside their calls, as a property of the [view] the scheduler shows
    and of the code left to run ([conts] of the machine). *)
From S2P Require Import Prelude Timer KState Thread Sched SchedOps.
Local Open Scope Z_scope.

Module SyncInv.
Import KState Thread Sched SchedOps.

Abbreviation contmap := (gmap tid (list frame)).

(** * Counting threads *)

Definition cnt (P : tid -> list frame -> bool) (C : contmap) : Z :=
  Z.of_nat (size (filter (fun x => P x.1 x.2 = true) C)).

Definition ind (P : tid -> list frame -> bool) (C : contmap) (t : tid) : Z :=
  match C !! t with Some fs => if P t fs then 1 else 0 | None => 0 end.

Lemma cnt_delete P C t : cnt P C = cnt P (delete t C) + ind P C t.
Proof.
  unfold cnt, ind. destruct (C !! t) as [fs|] eqn:Ht.
  - rewrite <- (insert_delete_id C t fs) at 1 by done.
    destruct (P t fs) eqn:HP.
    + rewrite map_filter_insert_True by done. rewrite map_size_insert_None; [lia|].
      apply map_lookup_filter_None_2. left. apply lookup_delete_eq.
    + rewrite map_filter_insert_False by (simpl; congruence). rewrite delete_delete_eq. lia.
  - rewrite delete_id by done. lia.
Qed.

Lemma cnt_eq P P' C C' :
  (forall t fs, C !! t = Some fs /\ P t fs = true <-> C' !! t = Some fs /\ P' t fs = true) ->
  cnt P C = cnt P' C'.
Proof.
  intros He. unfold cnt. do 2 f_equal. apply map_eq. intros t. apply option_eq. intros fs.
  rewrite !map_lookup_filter_Some. apply He.
Qed.

(** One thread changes; the counts differ by what it counts for. *)
Lemma cnt_change P P' C C' t :
  (forall t' fs, t' ≠ t -> C !! t' = Some fs /\ P t' fs = true <-> C' !! t' = Some fs /\ P' t' fs = true) ->
  cnt P' C' = cnt P C + ind P' C' t - ind P C t.
Proof.
  intros He. rewrite (cnt_delete P C t), (cnt_delete P' C' t).
  rewrite (cnt_eq P P' (delete t C) (delete t C')); [lia|].
  intros t' fs. rewrite !lookup_delete. case_decide; [split; by intros [? _]|]. apply He. congruence.
Qed.

Lemma ind_range P C t : 0 <= ind P C t <= 1.
Proof. unfold ind. destruct (C !! t) as [fs|]; [destruct (P t fs)|]; lia. Qed.

Lemma ind_le_cnt P C t : ind P C t <= cnt P C.
Proof. rewrite (cnt_delete P C t). unfold cnt. lia. Qed.

Lemma cnt_nonneg P C : 0 <= cnt P C.
Proof. unfold cnt. lia. Qed.

(** * The invariant *)

(** The call a thread on wait queue [q] is in. *)
Definition waits_on (q : wqid) (fs : list frame) : bool :=
  match q, fs with
  | WqMutex m, [FWaitQueueBlock _; FMutexAcquire m'] => bool_decide (m = m')
  | WqSem _, [FWaitQueueBlock timed] => negb timed
  | WqSem i, [FWaitQueueBlock _; FSemTimedWait i'] => bool_decide (i = i')
  | WqEvent _, [FWaitQueueBlock _] => true
  | _, _ => false
  end.

Definition on_q (v : view) (q : wqid) (t : tid) : bool :=
  match v_wq v !! q with Some w => bool_decide (t ∈ wq_list w) | None => false end.

Definition live (v : view) (q : wqid) : Prop :=
  exists w, v_wq v !! q = Some w /\ wq_magic w = WAIT_QUEUE_MAGIC.

Definition frames_ok (v : view) (fs : list frame) : Prop :=
  match fs with
  | [FWaitQueueBlock _] => True
  | [FWaitQueueBlock _; FMutexAcquire m] => is_Some (v_mutexes v !! m)
  | [FWaitQueueBlock _; FSemTimedWait i] => is_Some (v_semaphores v !! i)
  | _ => False
  end.

(** Wait queues hold each thread once. *)
Record view_wf (v : view) : Prop := {
  vw_nodup q w : v_wq v !! q = Some w -> NoDup (wq_list w);
  vw_one q q' t : on_q v q t = true -> on_q v q' t = true -> q = q'
}.

(** Threads on wait queues are inside the matching call, and the result a
    thread inside a call has been handed is success or a timeout. *)
Record base (v : view) (C : contmap) : Prop := {
  b_wait q t : on_q v q t = true -> exists fs, C !! t = Some fs /\ waits_on q fs = true;
  b_frames t fs : C !! t = Some fs -> frames_ok v fs;
  b_ret t fs : C !! t = Some fs -> v_ret v !! t = Some NO_ERROR \/ v_ret v !! t = Some ERR_TIMED_OUT;
  b_retcode t : is_Some (v_ret v !! t) -> live v (WqRetcode t)
}.

(** A thread that was handed mutex [m] and has not run since. *)
Definition granted (v : view) (m : nat) (t : tid) (fs : list frame) : bool :=
  waits_on (WqMutex m) fs && negb (on_q v (WqMutex m) t) && bool_decide (v_ret v !! t = Some NO_ERROR).

Definition acquiring (m : nat) (_ : tid) (fs : list frame) : bool := waits_on (WqMutex m) fs.

Definition held (x : mutex_t) : Z := if m_holder x then 1 else 0.

(** [count] is the holder and the threads inside [mutex_acquire], and [d] more
    while a call is being entered or left; at most one thread holds the mutex or
    is about to. *)
Definition mutex_ok (d : Z) (v : view) (C : contmap) (m : nat) (x : mutex_t) : Prop :=
  m_magic x = MUTEX_MAGIC /\ live v (WqMutex m) /\
  m_count x = held x + cnt (acquiring m) C + d /\ held x + cnt (granted v m) C <= 1.

(** A thread whose [sem_timedwait] timed out and that has not run since. *)
Definition expired (v : view) (i : nat) (t : tid) (fs : list frame) : bool :=
  match fs with
  | [FWaitQueueBlock _; FSemTimedWait i'] =>
      bool_decide (i = i') && negb (on_q v (WqSem i) t) && bool_decide (v_ret v !! t = Some ERR_TIMED_OUT)
  | _ => false
  end.

Definition waiters (v : view) (q : wqid) : Z :=
  match v_wq v !! q with Some w => Z.of_nat (length (wq_list w)) | None => 0 end.

(** A negative [count] is covered by threads still waiting or timed out: the
    semaphore never let more through than it was posted. *)
Definition sem_ok (d : Z) (v : view) (C : contmap) (i : nat) (x : semaphore_t) : Prop :=
  live v (WqSem i) /\ 0 <= s_count x + waiters v (WqSem i) + cnt (expired v i) C + d.

(** Nobody waits on a signaled event. *)
Definition event_ok (v : view) (i : nat) (x : event_t) : Prop :=
  e_magic x = EVENT_MAGIC /\ live v (WqEvent i) /\
  (e_signaled x = true -> waiters v (WqEvent i) = 0).

(** The objects, in the middle of a call: [dm] and [ds] are the differences
    of the object the call is about, zero between calls. *)
Record vinvx (dm ds : nat -> Z) (v : view) (C : contmap) : Prop := {
  vi_base : base v C;
  vi_mutex m x : v_mutexes v !! m = Some x -> mutex_ok (dm m) v C m x;
  vi_sem i x : v_semaphores v !! i = Some x -> sem_ok (ds i) v C i x;
  vi_event i x : v_events v !! i = Some x -> event_ok v i x
}.

Definition zero : nat -> Z := fun _ => 0.
Definition at_ (i : nat) (d : Z) : nat -> Z := fun j => if decide (j = i) then d else 0.

Abbreviation vinv := (vinvx zero zero).

(** * Changes at one thread *)

(** The step changes the situation of thread [t] only. *)
Record local_at (t : tid) (v v' : view) (C C' : contmap) : Prop := {
  la_conts t' : t' ≠ t -> C' !! t' = C !! t';
  la_ret t' : t' ≠ t -> v_ret v' !! t' = v_ret v !! t';
  la_onq q t' : t' ≠ t -> on_q v' q t' = on_q v q t'
}.

Section local.
Context (t : tid) (v v' : view) (C C' : contmap).
Hypothesis Hl : local_at t v v' C C'.

Lemma local_acquiring m :
    cnt (acquiring m) C' = cnt (acquiring m) C + ind (acquiring m) C' t - ind (acquiring m) C t.
Proof. apply cnt_change. intros t' fs Hne. by rewrite (la_conts _ _ _ _ _ Hl). Qed.

Lemma local_granted m :
    cnt (granted v' m) C' = cnt (granted v m) C + ind (granted v' m) C' t - ind (granted v m) C t.
Proof.
  apply cnt_change. intros t' fs Hne. unfold granted.
  by rewrite (la_conts _ _ _ _ _ Hl), (la_ret _ _ _ _ _ Hl), (la_onq _ _ _ _ _ Hl).
Qed.

Lemma local_expired i :
    cnt (expired v' i) C' = cnt (expired v i) C + ind (expired v' i) C' t - ind (expired v i) C t.
Proof.
  apply cnt_change. intros t' fs Hne. unfold expired.
  by rewrite (la_conts _ _ _ _ _ Hl), (la_ret _ _ _ _ _ Hl), (la_onq _ _ _ _ _ Hl).
Qed.
End local.

(** * Steps *)

Lemma waits_on_inv q fs : waits_on q fs = true ->
  (exists m b, q = WqMutex m /\ fs = [FWaitQueueBlock b; FMutexAcquire m]) \/
  (exists i, q = WqSem i /\ fs = [FWaitQueueBlock false]) \/
  (exists i b, q = WqSem i /\ fs = [FWaitQueueBlock b; FSemTimedWait i]) \/
  (exists i b, q = WqEvent i /\ fs = [FWaitQueueBlock b]).
Proof.
  destruct q as [|m|i|i|]; [done| | | |done]; (destruct fs as [|[] [|[] []]]; try done); simpl; intros H0.
  - bool_prop. subst. left. eauto.
  - bool_prop. subst. right; left. eauto.
  - bool_prop. subst. do 2 right; left. eauto.
  - do 3 right. eauto.
Qed.

(** A thread leaves wait queue [q] with result [err]. *)
Section wake.
Context (v : view) (C : contmap) (q : wqid) (w : wait_queue_t) (t : tid) (l : list tid) (err : Z).
Hypothesis Hwf : view_wf v.
Hypothesis Hq : v_wq v !! q = Some w.
Hypothesis Hp : wq_list w ≡ₚ t :: l.
Let v' : view := wake_view q w t l err v.

Lemma wake_onq q' t' : on_q v' q' t' = on_q v q' t' && negb (bool_decide (q' = q /\ t' = t)).
Proof.
  pose proof (vw_nodup _ Hwf _ _ Hq) as Hnd. rewrite Hp in Hnd. apply NoDup_cons in Hnd as [Hn _].
  unfold on_q, v'. simpl. rewrite lookup_insert. case_decide as E.
  - subst. rewrite Hq. simpl. apply Bool.eq_iff_eq_true. rewrite andb_true_iff, negb_true_iff.
    rewrite !bool_decide_eq_true, bool_decide_eq_false, Hp, elem_of_cons.
    split; [|naive_solver]. intros Hin. split; [by right|]. intros [_ ->]. done.
  - rewrite bool_decide_eq_false_2 by naive_solver. by rewrite andb_true_r.
Qed.

Lemma wake_on : on_q v q t = true.
Proof. unfold on_q. rewrite Hq. apply bool_decide_eq_true. rewrite Hp. left. Qed.

Lemma wake_live q' : live v q' -> live v' q'.
Proof.
  intros (w' & Hw' & Hm). unfold live, v'. simpl. destruct (decide (q' = q)) as [->|].
  - eexists. rewrite lookup_insert_eq. split; [done|]. simpl. congruence.
  - exists w'. by rewrite lookup_insert_ne.
Qed.

Lemma wake_waiters q' : waiters v' q' = waiters v q' - (if decide (q' = q) then 1 else 0).
Proof.
  unfold waiters, v'. simpl. rewrite lookup_insert. destruct (decide (q = q')) as [<-|].
  - rewrite decide_True, Hq, Hp by done. simpl. lia.
  - rewrite decide_False by congruence. lia.
Qed.

Lemma wake_local : local_at t v v' C C.
Proof.
  split; [done| |].
  - intros t' ?. unfold v'. simpl. by rewrite lookup_insert_ne.
  - intros q' t' ?. rewrite wake_onq, bool_decide_eq_false_2 by naive_solver. by rewrite andb_true_r.
Qed.

Lemma wake_base : err = NO_ERROR \/ err = ERR_TIMED_OUT -> base v C -> base v' C.
Proof.
  intros He []. split.
  - intros q' t' Hon. rewrite wake_onq in Hon. apply andb_true_iff in Hon as [? _]. eauto.
  - exact b_frames0.
  - intros t' fs Ht'. unfold v'. simpl. destruct (decide (t' = t)) as [->|].
    + rewrite lookup_insert_eq. naive_solver.
    + rewrite lookup_insert_ne by done. eauto.
  - intros t'. unfold v'. simpl. intros Ht'. apply wake_live, b_retcode0.
    rewrite lookup_insert in Ht'. case_decide; [subst t'|done].
    destruct (b_wait0 _ _ wake_on) as (fs & Hfs & _). destruct (b_ret0 _ _ Hfs) as [->| ->]; eauto.
Qed.

(** The counts that the thread leaves and joins. *)
Lemma wake_step dm ds :
    vinvx dm ds v C ->
    match q with
    | WqMutex m => err = ERR_TIMED_OUT \/ err = NO_ERROR /\
        forall x, v_mutexes v !! m = Some x -> held x + cnt (granted v m) C = 0
    | WqSem i => err = ERR_TIMED_OUT /\ (exists fs, C !! t = Some (FWaitQueueBlock true :: fs)) \/
        err = NO_ERROR /\ forall x, v_semaphores v !! i = Some x ->
          1 <= s_count x + waiters v (WqSem i) + cnt (expired v i) C + ds i
    | _ => err = ERR_TIMED_OUT \/ err = NO_ERROR
    end ->
    vinvx dm ds v' C.
Proof.
  pose proof wake_on as Hwon. pose proof wake_waiters as Hww. pose proof wake_live as Hwl.
  pose proof wake_local as Hloc. pose proof wake_base as Hbase.
  intros [] Hcond. pose proof vi_base0 as [].
  destruct (b_wait0 _ _ Hwon) as (fs & Hfs & Hon).
  assert (forall q', on_q v' q' t = on_q v q' t && negb (bool_decide (q' = q))) as Honq.
  { intros q'. rewrite wake_onq. f_equal. f_equal. apply bool_decide_ext. naive_solver. }
  assert (forall m, ind (granted v m) C t = 0) as Hg0.
  { intros m. unfold ind, granted. rewrite Hfs. destruct (waits_on (WqMutex m) fs) eqn:Hm; [|done].
    destruct (waits_on_inv _ _ Hon) as [(?&?&->&->)|[(?&->&->)|[(?&?&->&->)|(?&?&->&->)]]]; try done.
    simpl in Hm. bool_prop. subst. by rewrite Hwon. }
  assert (forall m, q ≠ WqMutex m -> ind (granted v' m) C t = 0) as Hg1.
  { intros m Hne. unfold ind, granted. rewrite Hfs. destruct (waits_on (WqMutex m) fs) eqn:Hm; [|done].
    destruct (waits_on_inv _ _ Hon) as [(?&?&->&->)|[(?&->&->)|[(?&?&->&->)|(?&?&->&->)]]]; try done.
    simpl in Hm. bool_prop. by subst. }
  assert (forall i, ind (expired v i) C t = 0) as He0.
  { intros i. unfold ind, expired. rewrite Hfs.
    destruct (waits_on_inv _ _ Hon) as [(?&?&->&->)|[(?&->&->)|[(i'&?&->&->)|(?&?&->&->)]]]; try done.
    destruct (decide (i = i')) as [->|]; [|by rewrite bool_decide_eq_false_2].
    by rewrite Hwon, andb_false_r. }
  split.
  - apply Hbase; [|done]. clear -Hcond. destruct q; naive_solver.
  - intros m x Hx. destruct (vi_mutex0 m x Hx) as (? & ? & ? & Hle). split; [done|].
    split; [by apply Hwl|]. split; [done|].
    rewrite (local_granted t v v' C C Hloc), Hg0.
    pose proof (ind_range (granted v' m) C t). destruct (decide (q = WqMutex m)) as [Eq|Hne]; [|rewrite Hg1 by done; lia].
    rewrite Eq in Hcond. destruct Hcond as [Herr|[_ Hz]]; [|specialize (Hz _ Hx); lia].
    assert (ind (granted v' m) C t = 0) as ->; [|lia].
    unfold ind, granted. rewrite Hfs. unfold v'. simpl. rewrite lookup_insert_eq, Herr.
    rewrite (bool_decide_eq_false_2 (Some _ = _)) by done. by rewrite andb_false_r.
  - intros i x Hx. destruct (vi_sem0 i x Hx) as (? & Hle). split; [by apply Hwl|].
    rewrite Hww, (local_expired t v v' C C Hloc), He0.
    pose proof (ind_range (expired v' i) C t). case_decide as Eq; [|lia]. subst q.
    destruct Hcond as [[Herr [fs' Hfs']]|[_ Hz]]; [|specialize (Hz _ Hx); lia].
    assert (ind (expired v' i) C t = 1) as ->; [|lia].
    rewrite Hfs in Hfs'. simplify_eq. unfold ind. rewrite Hfs.
    destruct (waits_on_inv _ _ Hon) as [(?&?&?&?)|[(?&?&?)|[(i'&?&[= <-]&[= <- ->])|(?&?&?&?)]]]; try done.
    unfold expired. rewrite Honq, !bool_decide_eq_true_2, andb_false_r; try done.
    unfold v'. simpl. by rewrite lookup_insert_eq.
  - intros i x Hx. destruct (vi_event0 i x Hx) as (? & ? & Hs). split; [done|].
    split; [by apply Hwl|]. intros Hsig. rewrite Hww. case_decide as Eq; [|by rewrite Hs].
    exfalso. specialize (Hs Hsig). subst q. unfold waiters in Hs. rewrite Hq, Hp in Hs. simpl in Hs. lia.
Qed.
End wake.

(** The running thread enters wait queue [q], leaving the call [fs] unfinished. *)
Section enqueue.
Context (v : view) (C : contmap) (q : wqid) (w : wait_queue_t) (t : tid) (fs : list frame).
Hypothesis Hwf : view_wf v.
Hypothesis Hq : v_wq v !! q = Some w.
Hypothesis Hnone : C !! t = None.
Hypothesis Hfs : waits_on q fs = true.
Hypothesis Hok : frames_ok v fs.
Hypothesis Hret : is_Some (v_ret v !! t).
Let v' : view := enqueue_view q w t v.
Let C' : contmap := <[t := fs]> C.

Lemma enqueue_onq q' t' : on_q v' q' t' = on_q v q' t' || bool_decide (q' = q /\ t' = t).
Proof.
  unfold on_q, v'. simpl. rewrite lookup_insert. case_decide as E.
  - subst q'. rewrite Hq. simpl. apply Bool.eq_iff_eq_true. rewrite orb_true_iff.
    rewrite !bool_decide_eq_true, elem_of_app, list_elem_of_singleton. clear. naive_solver.
  - rewrite (bool_decide_eq_false_2 (_ /\ _)) by naive_solver. by rewrite orb_false_r.
Qed.

Lemma enqueue_live q' : live v q' -> live v' q'.
Proof.
  intros (w' & Hw' & Hm). unfold live, v'. simpl. destruct (decide (q' = q)) as [->|].
  - eexists. rewrite lookup_insert_eq. split; [done|]. simpl. congruence.
  - exists w'. by rewrite lookup_insert_ne.
Qed.

Lemma enqueue_waiters q' : waiters v' q' = waiters v q' + (if decide (q' = q) then 1 else 0).
Proof.
  unfold waiters, v'. simpl. rewrite lookup_insert. destruct (decide (q = q')) as [<-|].
  - rewrite decide_True, Hq by done. simpl. rewrite length_app. simpl. lia.
  - rewrite decide_False by congruence. lia.
Qed.

Lemma enqueue_local : local_at t v v' C C'.
Proof.
  split.
  - intros t' ?. unfold C'. by rewrite lookup_insert_ne.
  - intros t' ?. unfold v'. simpl. by rewrite lookup_insert_ne.
  - intros q' t' ?. rewrite enqueue_onq, bool_decide_eq_false_2 by naive_solver. by rewrite orb_false_r.
Qed.

Lemma enqueue_base : base v C -> base v' C'.
Proof.
  intros []. split.
  - intros q' t' Hon. rewrite enqueue_onq in Hon. apply orb_true_iff in Hon as [Hon|Hon].
    + destruct (b_wait0 _ _ Hon) as (fs' & Hfs' & ?). exists fs'. unfold C'.
      rewrite lookup_insert_ne; [done|]. intros ->. congruence.
    + bool_prop. destruct Hon as [-> ->]. exists fs. unfold C'. by rewrite lookup_insert_eq.
  - intros t' fs'. unfold C'. rewrite lookup_insert. case_decide; [by intros [= <-]|].
    apply b_frames0.
  - intros t' fs'. unfold C', v'. simpl. rewrite !lookup_insert. case_decide; [by left|]. apply b_ret0.
  - intros t'. unfold v'. simpl. intros Ht'. apply enqueue_live, b_retcode0.
    rewrite lookup_insert in Ht'. case_decide; [by subst t'|done].
Qed.

(** The object of [q] had one thread fewer than its count says. *)
Lemma enqueue_step dm ds :
    vinvx dm ds v C ->
    (forall i x, v_events v !! i = Some x -> q = WqEvent i -> e_signaled x = false) ->
    vinvx (fun m => dm m - (if decide (q = WqMutex m) then 1 else 0))
          (fun i => ds i - (if decide (q = WqSem i) then 1 else 0)) v' C'.
Proof.
  pose proof enqueue_waiters as Hww. pose proof enqueue_live as Hwl.
  pose proof enqueue_local as Hloc. pose proof enqueue_base as Hbase.
  intros [] Hev.
  assert (forall P, ind P C t = 0) as H0 by (intros P; unfold ind; by rewrite Hnone).
  assert (C' !! t = Some fs) as HC' by (unfold C'; by rewrite lookup_insert_eq).
  assert (on_q v' q t = true) as Hon by (rewrite enqueue_onq; by rewrite bool_decide_eq_true_2, orb_true_r).
  assert (forall m, ind (acquiring m) C' t = if decide (q = WqMutex m) then 1 else 0) as Ha.
  { intros m. unfold ind. rewrite HC'. unfold acquiring.
    destruct (waits_on_inv _ _ Hfs) as [(?&?&->&->)|[(?&->&->)|[(?&?&->&->)|(?&?&->&->)]]]; try done.
    simpl. case_decide as E; [injection E as ->; by rewrite bool_decide_eq_true_2|].
    rewrite bool_decide_eq_false_2; [done|]. intros ->. done. }
  assert (forall m, ind (granted v' m) C' t = 0) as Hg.
  { intros m. unfold ind. rewrite HC'. unfold granted.
    destruct (waits_on_inv _ _ Hfs) as [(m'&?&->&->)|[(?&->&->)|[(?&?&->&->)|(?&?&->&->)]]]; try done.
    destruct (waits_on (WqMutex m) _) eqn:E; [|done]. simpl in E. bool_prop. subst. by rewrite Hon. }
  assert (forall i, ind (expired v' i) C' t = 0) as He.
  { intros i. unfold ind. rewrite HC'. unfold expired.
    destruct (waits_on_inv _ _ Hfs) as [(?&?&->&->)|[(?&->&->)|[(i'&?&->&->)|(?&?&->&->)]]]; try done.
    destruct (bool_decide (i = i')) eqn:E; [|done]. bool_prop. subst. by rewrite Hon. }
  split.
  - by apply Hbase.
  - intros m x Hx. destruct (vi_mutex0 m x Hx) as (? & ? & ? & ?). split; [done|]. split; [by apply Hwl|].
    rewrite (local_acquiring t v v' C C' Hloc), (local_granted t v v' C C' Hloc), !H0, Ha, Hg.
    case_decide; lia.
  - intros i x Hx. destruct (vi_sem0 i x Hx) as (? & ?). split; [by apply Hwl|].
    rewrite Hww, (local_expired t v v' C C' Hloc), H0, He. repeat case_decide; congruence || lia.
  - intros i x Hx. destruct (vi_event0 i x Hx) as (? & ? & Hs). split; [done|]. split; [by apply Hwl|].
    intros Hsig. rewrite Hww. case_decide as E; [|by rewrite Hs].
    by rewrite (Hev _ _ Hx) in Hsig.
Qed.
End enqueue.

(** The running thread has left [wait_queue_block]; its call is still to take
    the result into account. *)
Section resume.
Context (v : view) (C : contmap) (t : tid) (fs : list frame).
Hypothesis Hfs : C !! t = Some fs.
Hypothesis Hoff : forall q, on_q v q t = false.
Let C' : contmap := delete t C.

Lemma resume_local : local_at t v v C C'.
Proof. split; [|done..]. intros t' ?. unfold C'. by rewrite lookup_delete_ne. Qed.

Lemma resume_step :
    vinv v C ->
    vinvx (fun m => ind (acquiring m) C t) (fun i => ind (expired v i) C t) v C' /\
    (forall m x, v_mutexes v !! m = Some x ->
      held x + cnt (granted v m) C' + ind (granted v m) C t <= 1).
Proof.
  intros [[] ? ? ?].
  assert (forall P, ind P C' t = 0) as H0 by (intros P; unfold ind, C'; by rewrite lookup_delete_eq).
  assert (forall m, cnt (granted v m) C' = cnt (granted v m) C - ind (granted v m) C t) as Hg.
  { intros m. rewrite (local_granted t v v C C' resume_local), H0. lia. }
  split; [split|].
  - split; try done.
    + intros q t' Hon. destruct (b_wait0 _ _ Hon) as (fs' & ? & ?). exists fs'. unfold C'.
      rewrite lookup_delete_ne; [done|]. intros <-. by rewrite Hoff in Hon.
    + intros t' fs'. unfold C'. rewrite lookup_delete. case_decide; [done|]. apply b_frames0.
    + intros t' fs'. unfold C'. rewrite lookup_delete. case_decide; [done|]. apply b_ret0.
  - intros m x Hx. destruct (vi_mutex0 m x Hx) as (? & ? & Hc & Hle). split; [done|]. split; [done|].
    rewrite Hc, (local_acquiring t v v C C' resume_local), H0, Hg. unfold zero.
    pose proof (ind_range (granted v m) C t). lia.
  - intros i x Hx. destruct (vi_sem0 i x Hx) as (? & Hle). split; [done|]. unfold zero in Hle.
    rewrite (local_expired t v v C C' resume_local), H0. lia.
  - exact vi_event0.
  - intros m x Hx. destruct (vi_mutex0 m x Hx) as (_ & _ & _ & Hle). rewrite Hg. lia.
Qed.
End resume.

(** * Objects *)

Definition v_with_mutexes x v := MkView (v_wq v) (v_ret v) x (v_semaphores v) (v_events v) (v_idle v) (v_ints v).
Definition v_with_semaphores x v := MkView (v_wq v) (v_ret v) (v_mutexes v) x (v_events v) (v_idle v) (v_ints v).
Definition v_with_events x v := MkView (v_wq v) (v_ret v) (v_mutexes v) (v_semaphores v) x (v_idle v) (v_ints v).

Lemma frames_ok_mono v v' fs :
  (forall m, is_Some (v_mutexes v !! m) -> is_Some (v_mutexes v' !! m)) ->
  (forall i, is_Some (v_semaphores v !! i) -> is_Some (v_semaphores v' !! i)) ->
  frames_ok v fs -> frames_ok v' fs.
Proof. destruct fs as [|[] [|[] []]]; simpl; auto. Qed.

Lemma is_Some_insert {A} (m : gmap nat A) i j x : is_Some (m !! j) -> is_Some (<[i := x]> m !! j).
Proof. rewrite lookup_insert. case_decide; eauto. Qed.

(** One object's record changes: only its own clause is to be shown again. *)
Lemma set_mutex_step v C dm dm' ds m x' :
  vinvx dm ds v C -> (forall m', m' ≠ m -> dm' m' = dm m') ->
  mutex_ok (dm' m) v C m x' -> vinvx dm' ds (v_with_mutexes (<[m := x']> (v_mutexes v)) v) C.
Proof.
  intros [[] ? ? ?] Hd Hm. split; [split; try done| |done|done].
  - intros t fs Ht. eapply frames_ok_mono, (b_frames0 _ _ Ht); simpl; [|done]. intros. by apply is_Some_insert.
  - intros m' x. simpl. rewrite lookup_insert. case_decide; [intros [= <-]; by subst|].
    intros Hx. rewrite Hd by congruence. by apply vi_mutex0.
Qed.

Lemma set_sem_step v C dm ds ds' i x' :
  vinvx dm ds v C -> (forall i', i' ≠ i -> ds' i' = ds i') ->
  sem_ok (ds' i) v C i x' -> vinvx dm ds' (v_with_semaphores (<[i := x']> (v_semaphores v)) v) C.
Proof.
  intros [[] ? ? ?] Hd Hm. split; [split; try done|done| |done].
  - intros t fs Ht. eapply frames_ok_mono, (b_frames0 _ _ Ht); simpl; [done|]. intros. by apply is_Some_insert.
  - intros i' x. simpl. rewrite lookup_insert. case_decide; [intros [= <-]; by subst|].
    intros Hx. rewrite Hd by congruence. by apply vi_sem0.
Qed.

Lemma set_event_step v C dm ds i x' :
  vinvx dm ds v C -> event_ok v i x' ->
  vinvx dm ds (v_with_events (<[i := x']> (v_events v)) v) C.
Proof.
  intros [[] ? ? ?] Hm. split; [split; try done|done|done|].
  intros i' x. simpl. rewrite lookup_insert. case_decide; [intros [= <-]; by subst|]. apply vi_event0.
Qed.

Lemma vinvx_ext dm ds dm' ds' v C : vinvx dm ds v C -> (forall m, dm m = dm' m) -> (forall i, ds i = ds' i) ->
  vinvx dm' ds' v C.
Proof. intros [] Hm Hs. split; [done| | |done]; intros; [rewrite <- Hm|rewrite <- Hs]; eauto. Qed.

(** A new, empty wait queue. *)
Lemma new_wq_onq v v' q t : v_wq v !! q = None ->
  v_wq v' = <[q := WAIT_QUEUE_INITIAL_VALUE]> (v_wq v) -> forall q', on_q v' q' t = on_q v q' t.
Proof.
  intros Hq Hv q'. unfold on_q. rewrite Hv, lookup_insert. case_decide; [subst; by rewrite Hq|done].
Qed.

Lemma new_wq_waiters v v' q : v_wq v !! q = None ->
  v_wq v' = <[q := WAIT_QUEUE_INITIAL_VALUE]> (v_wq v) -> forall q', waiters v' q' = waiters v q'.
Proof.
  intros Hq Hv q'. unfold waiters. rewrite Hv, lookup_insert. case_decide; [subst; by rewrite Hq|done].
Qed.

Lemma new_wq_live v v' q : v_wq v !! q = None ->
  v_wq v' = <[q := WAIT_QUEUE_INITIAL_VALUE]> (v_wq v) ->
  live v' q /\ forall q', live v q' -> live v' q'.
Proof.
  intros Hq Hv. unfold live. rewrite Hv. split; [eexists; rewrite lookup_insert_eq; done|].
  intros q' (w & Hw & Hm). exists w. rewrite lookup_insert_ne; [done|]. intros ->. congruence.
Qed.

Lemma new_wq_step v C q : vinv v C -> v_wq v !! q = None ->
  vinv (MkView (<[q := WAIT_QUEUE_INITIAL_VALUE]> (v_wq v)) (v_ret v) (v_mutexes v) (v_semaphores v)
    (v_events v) (v_idle v) (v_ints v)) C.
Proof.
  intros [[] ? ? ?] Hq. set (v' := MkView _ _ _ _ _ _ _).
  pose proof (fun t => new_wq_onq v v' q t Hq eq_refl) as Hon.
  pose proof (new_wq_waiters v v' q Hq eq_refl) as Hw.
  destruct (new_wq_live v v' q Hq eq_refl) as [_ Hl].
  assert (forall m, cnt (granted v' m) C = cnt (granted v m) C) as Hg.
  { intros m. apply cnt_eq. intros t fs. unfold granted. by rewrite Hon. }
  assert (forall i, cnt (expired v' i) C = cnt (expired v i) C) as He.
  { intros i. apply cnt_eq. intros t fs. unfold expired. by rewrite Hon. }
  split; [split; try done| | |].
  - intros q' t. rewrite Hon. apply b_wait0.
  - intros t Ht. by apply Hl, b_retcode0.
  - intros m x Hx. destruct (vi_mutex0 m x Hx) as (? & ? & ? & ?). split; [done|]. split; [by apply Hl|]. by rewrite Hg.
  - intros i x Hx. destruct (vi_sem0 i x Hx) as (? & ?). split; [by apply Hl|]. by rewrite Hw, He.
  - intros i x Hx. destruct (vi_event0 i x Hx) as (? & ? & ?). split; [done|]. split; [by apply Hl|]. by rewrite Hw.
Qed.

Lemma cnt_zero P C : (forall t fs, C !! t = Some fs -> P t fs = false) -> cnt P C = 0.
Proof.
  intros HP. rewrite (cnt_eq P P C ∅); [unfold cnt; by rewrite map_filter_empty, map_size_empty|].
  intros t fs. split; [|by intros [? _]]. intros [Ht Hp]. by rewrite (HP _ _ Ht) in Hp.
Qed.

Lemma frames_mutex m fs v : frames_ok v fs -> waits_on (WqMutex m) fs = true -> is_Some (v_mutexes v !! m).
Proof.
  intros Hf Hw. destruct (waits_on_inv _ _ Hw) as [(?&?&[= <-]&->)|[(?&?&?)|[(?&?&?&?)|(?&?&?&?)]]]; done.
Qed.

(** New objects, with their wait queues just made. *)
Lemma new_mutex_step v C m : vinv v C -> v_mutexes v !! m = None -> live v (WqMutex m) ->
  vinv (v_with_mutexes (<[m := MkMutex MUTEX_MAGIC None 0]> (v_mutexes v)) v) C.
Proof.
  intros Hv Hm Hl. eapply set_mutex_step; [done|done|].
  assert (forall t fs, C !! t = Some fs -> waits_on (WqMutex m) fs = false) as Hno.
  { intros t fs Ht. destruct (waits_on (WqMutex m) fs) eqn:E; [|done].
    destruct (frames_mutex m fs v) as [x Hx]; [by eapply b_frames; [apply Hv|]|done|congruence]. }
  split; [done|]. split; [done|]. unfold held, zero. simpl. rewrite !cnt_zero; [lia| |].
  - intros t fs Ht. unfold granted. by rewrite (Hno _ _ Ht).
  - intros t fs Ht. by apply Hno with t.
Qed.

Lemma new_sem_step v C i n : vinv v C -> live v (WqSem i) -> 0 <= n ->
  vinv (v_with_semaphores (<[i := MkSem SEMAPHORE_MAGIC n]> (v_semaphores v)) v) C.
Proof.
  intros Hv Hl Hn. eapply set_sem_step; [done|done|]. split; [done|]. unfold zero, waiters.
  pose proof (cnt_nonneg (expired v i) C). simpl. destruct (v_wq v !! WqSem i); lia.
Qed.

(** A thread outside every call gets a result: nothing depends on it. *)
Lemma set_ret_step v C t r : vinv v C -> C !! t = None -> live v (WqRetcode t) ->
  vinv (MkView (v_wq v) (<[t := r]> (v_ret v)) (v_mutexes v) (v_semaphores v) (v_events v)
    (v_idle v) (v_ints v)) C.
Proof.
  intros [[] ? ? ?] Ht Hl. set (v' := MkView _ _ _ _ _ _ _).
  assert (forall t' fs, C !! t' = Some fs -> v_ret v' !! t' = v_ret v !! t') as Hr.
  { intros t' fs Ht'. simpl. rewrite lookup_insert_ne; [done|]. intros ->. congruence. }
  assert (forall m, cnt (granted v' m) C = cnt (granted v m) C) as Hg.
  { intros m. apply cnt_eq. intros t' fs. unfold granted.
    split; intros [Hc ?]; (split; [done|]); [rewrite <- (Hr _ _ Hc)|rewrite (Hr _ _ Hc)]; done. }
  assert (forall i, cnt (expired v' i) C = cnt (expired v i) C) as He.
  { intros i. apply cnt_eq. intros t' fs. unfold expired.
    split; intros [Hc ?]; (split; [done|]); [rewrite <- (Hr _ _ Hc)|rewrite (Hr _ _ Hc)]; done. }
  split; [split; try done| | |done].
  - intros t' fs Ht'. rewrite (Hr _ _ Ht'). by eapply b_ret0.
  - intros t'. simpl. rewrite lookup_insert. case_decide; [by subst|]. apply b_retcode0.
  - intros m x Hx. destruct (vi_mutex0 m x Hx) as (? & ? & ? & ?). split_and!; try done. by rewrite Hg.
  - intros i x Hx. destruct (vi_sem0 i x Hx) as (? & ?). split; [done|]. by rewrite He.
Qed.

(** Everybody leaves the wait queue of an event. *)
Lemma wake_all_event_step v C i w : vinv v C -> v_wq v !! WqEvent i = Some w ->
  vinv (wake_all_view (WqEvent i) w (wq_list w) NO_ERROR v) C.
Proof.
  intros [[] ? ? ?] Hq. set (v' := wake_all_view _ _ _ _ _).
  assert (forall q t, on_q v' q t = on_q v q t && negb (bool_decide (q = WqEvent i))) as Hon.
  { intros q t. unfold on_q, v'. simpl. rewrite lookup_insert. case_decide as E.
    - subst q. rewrite Hq. simpl. rewrite (bool_decide_eq_true_2 (_ = _)) by done. by rewrite andb_false_r.
    - rewrite (bool_decide_eq_false_2 (_ = _)) by congruence. by rewrite andb_true_r. }
  assert (forall q, live v q -> live v' q) as Hl.
  { intros q (w' & Hw' & Hm). unfold live, v'. simpl. destruct (decide (q = WqEvent i)) as [->|].
    - eexists. rewrite lookup_insert_eq. split; [done|]. simpl. congruence.
    - exists w'. by rewrite lookup_insert_ne. }
  assert (forall t, v_ret v' !! t = if bool_decide (t ∈ wq_list w) then Some NO_ERROR else v_ret v !! t) as Hr.
  { intros t. unfold v'. simpl. rewrite lookup_union, lookup_gset_to_gmap. case_bool_decide as E.
    - rewrite option_guard_True by by rewrite elem_of_list_to_set. by destruct (v_ret v !! t).
    - rewrite option_guard_False by by rewrite elem_of_list_to_set. by destruct (v_ret v !! t). }
  assert (forall t fs, C !! t = Some fs -> t ∈ wq_list w -> exists b, fs = [FWaitQueueBlock b]) as Hfr.
  { intros t fs Ht Hin. destruct (b_wait0 (WqEvent i) t) as (fs' & Hfs' & Hw').
    - unfold on_q. rewrite Hq. by apply bool_decide_eq_true_2.
    - simplify_eq. destruct (waits_on_inv _ _ Hw') as [(?&?&?&?)|[(?&?&?)|[(?&?&?&?)|(?&?&?&->)]]]; try done. eauto. }
  assert (forall m, cnt (granted v' m) C = cnt (granted v m) C) as Hg.
  { intros m. apply cnt_eq. intros t fs. unfold granted. rewrite Hon, Hr.
    rewrite (bool_decide_eq_false_2 (_ = _)), andb_true_r by done.
    destruct (bool_decide (t ∈ wq_list w)) eqn:E; [apply bool_decide_eq_true in E|done].
    split; intros [Ht Hp]; destruct (Hfr _ _ Ht E) as [b ->]; by simpl in Hp. }
  assert (forall j, cnt (expired v' j) C = cnt (expired v j) C) as He.
  { intros j. apply cnt_eq. intros t fs. unfold expired. rewrite Hon, Hr.
    rewrite (bool_decide_eq_false_2 (WqSem j = _)), andb_true_r by done.
    destruct (bool_decide (t ∈ wq_list w)) eqn:E; [apply bool_decide_eq_true in E|done].
    split; intros [Ht Hp]; destruct (Hfr _ _ Ht E) as [b ->]; by simpl in Hp. }
  assert (forall q, q ≠ WqEvent i -> waiters v' q = waiters v q) as Hw.
  { intros q Hne. unfold waiters, v'. simpl. by rewrite lookup_insert_ne. }
  split; [split; try done| | |].
  - intros q t Ho. rewrite Hon in Ho. apply andb_true_iff in Ho as [? _]. by apply b_wait0.
  - intros t fs Ht. rewrite Hr. case_bool_decide; [by left|eauto].
  - intros t Ht. apply Hl. rewrite Hr in Ht. case_bool_decide as E; [|by apply b_retcode0].
    destruct (b_wait0 (WqEvent i) t) as (fs & Hfs & _).
    { unfold on_q. rewrite Hq. by apply bool_decide_eq_true_2. }
    destruct (b_ret0 _ _ Hfs) as [Hx|Hx]; apply b_retcode0; rewrite Hx; done.
  - intros m x Hx. destruct (vi_mutex0 m x Hx) as (? & ? & ? & ?). split; [done|]. split; [by apply Hl|]. by rewrite Hg.
  - intros j x Hx. destruct (vi_sem0 j x Hx) as (? & ?). split; [by apply Hl|]. by rewrite Hw, He.
  - intros j x Hx. destruct (vi_event0 j x Hx) as (? & ? & Hs). split; [done|]. split; [by apply Hl|].
    intros Hsig. destruct (decide (j = i)) as [->|]; [|rewrite Hw; [auto|congruence]].
    unfold waiters, v'. simpl. by rewrite lookup_insert_eq.
Qed.

(** Waking nobody changes nothing. *)
Lemma wake_all_empty v q w err : v_wq v !! q = Some w -> wq_list w = [] ->
  wake_all_view q w (wq_list w) err v = v.
Proof.
  intros Hq Hl. unfold wake_all_view. rewrite Hl. simpl.
  replace (list_to_set []) with (∅ : gset tid) by done. rewrite gset_to_gmap_empty, map_empty_union.
  rewrite insert_id; [by destruct v|]. rewrite Hq. destruct w. simpl in *. subst. do 2 f_equal. lia.
Qed.

(** * Views of kernel states *)

Definition pend_of (C : contmap) : gmap tid bool :=
  omap (fun fs => match fs with FWaitQueueBlock timed :: _ => Some timed | _ => None end) C.

Lemma pend_of_none C t : C !! t = None -> pend_of C !! t = None.
Proof. intros Ht. unfold pend_of. by rewrite lookup_omap, Ht. Qed.

Lemma pend_of_true C t b : pend_of C !! t = Some b -> exists fs, C !! t = Some (FWaitQueueBlock b :: fs).
Proof.
  unfold pend_of. rewrite lookup_omap. destruct (C !! t) as [[|[] fs]|]; simpl; try done.
  intros [= ->]. eauto.
Qed.

Lemma pend_of_insert C t b fs : pend_of (<[t := FWaitQueueBlock b :: fs]> C) = <[t := b]> (pend_of C).
Proof. unfold pend_of. by erewrite omap_insert_Some. Qed.

Lemma pend_of_delete C t : pend_of (delete t C) = delete t (pend_of C).
Proof. unfold pend_of. by rewrite omap_delete. Qed.

Lemma view_wf_ok pend s : ok pend s -> view_wf (view_of s).
Proof.
  intros Hok. pose proof (ok_sinv _ _ Hok) as []. split; simpl.
  - intros q w. apply si_wq_nodup0.
  - intros q q' t. unfold on_q. simpl.
    destruct (k_wait_queues s !! q) as [w|] eqn:Hq, (k_wait_queues s !! q') as [w'|] eqn:Hq'; try done.
    rewrite !bool_decide_eq_true, (si_wq0 _ _ _ Hq), (si_wq0 _ _ _ Hq').
    intros [_ (th & ? & ? & ?)] [_ (th' & ? & ? & ?)]. congruence.
Qed.

(** The running thread is on no wait queue. *)
Lemma current_off_q pend s q : ok pend s -> on_q (view_of s) q (k_current s) = false.
Proof.
  intros Hok. destruct (ok_current _ _ Hok) as (th & Hth & Hst & _). unfold on_q. simpl.
  destruct (k_wait_queues s !! q) as [w|] eqn:Hq; [|done]. apply bool_decide_eq_false_2.
  rewrite (si_wq _ _ _ _ _ _ (ok_sinv _ _ Hok) _ _ _ Hq). intros [_ (th' & ? & ? & _)]. congruence.
Qed.

(** A timeout pulls one thread out of its queue. *)
Lemma filter_perm (t : tid) l : NoDup l -> t ∈ l -> l ≡ₚ t :: filter (fun x => x ≠ t) l.
Proof.
  intros Hnd Ht. apply NoDup_Permutation; [done| |].
  - constructor; [rewrite list_elem_of_filter; tauto|by apply NoDup_filter].
  - intros x. rewrite elem_of_cons, list_elem_of_filter. destruct (decide (x = t)); naive_solver.
Qed.

Lemma view_wf_wake v q w t l err : view_wf v -> v_wq v !! q = Some w -> wq_list w ≡ₚ t :: l ->
  view_wf (wake_view q w t l err v).
Proof.
  intros Hwf Hq Hp. pose proof (wake_onq v q w t l err Hwf Hq Hp) as Hon. split; simpl.
  - intros q' w'. rewrite lookup_insert. case_decide; [|apply Hwf]. intros [= <-]. simpl.
    pose proof (vw_nodup _ Hwf _ _ Hq) as Hnd. rewrite Hp in Hnd. by apply NoDup_cons in Hnd as [_ ?].
  - intros q1 q2 t'. rewrite !Hon, !andb_true_iff. intros [? _] [? _]. by eapply vw_one.
Qed.

End SyncInv.
