(* ===== verification/KernelInv.v ===== *)
(** Every event the rules of use allow runs without a failed assertion and keeps
    the kernel's invariant. *)
From S2P Require Import Prelude Timer KState Thread Sync Sched SchedOps Kernel Tick SyncInv.
Local Open Scope Z_scope.

Module KernelInv.
Import KState Thread Sync Sched SchedOps Kernel Tick SyncInv.

#[local] Opaque get_top_loop get_top_thread thread_resched.

(** The invariant of the machine: the scheduler's, the timers', and that of the
    synchronization objects. *)
Record Inv (m : machine) : Prop := {
  inv_ok : ok (pend_of (conts m)) (kernel m);
  inv_sync : vinv (view_of (kernel m)) (conts m)
}.

(** * Operations other components do not see *)

Definition quiet (C : contmap) (s s' : kstate) : Prop :=
  ok (pend_of C) s' /\ view_of s' = view_of s.

Lemma quiet_Inv C s s' : Inv (MkMachine s C) -> quiet C s s' -> Inv (MkMachine s' C).
Proof. intros [Hok Hv] [? E]. split; [done|]. simpl in *. by rewrite E. Qed.

Lemma rescheduled_quiet C s s1 s' :
  rescheduled (pend_of C) s1 s' -> view_of s1 = view_of s -> quiet C s s'.
Proof. intros Hr E. split; [apply Hr|]. rewrite <- E. by eapply view_rescheduled. Qed.

Section quiet.
Context (C : contmap) (s : kstate).
Hypothesis Hok : ok (pend_of C) s.

Lemma cur_thread : exists th, k_threads s !! k_current s = Some th.
Proof. destruct (ok_current _ _ Hok) as (th & ? & _). eauto. Qed.

Lemma yield_quiet : wp thread_yield s (fun _ s' => quiet C s s').
Proof.
  destruct cur_thread as [th Hth]. eapply wp_mono; [by eapply thread_yield_spec|].
  intros [] s' Hs'. cbn zeta in Hs'. destruct (thread_is_idle th).
  - eapply rescheduled_quiet; [exact Hs'|]. by apply view_upd with th.
  - destruct Hs' as (l & _ & Hs'). eapply rescheduled_quiet; [exact Hs'|].
    unfold requeued. rewrite view_rq_insert. by apply view_upd with th.
Qed.

Lemma preempt_quiet : wp thread_preempt s (fun _ s' => quiet C s s').
Proof.
  destruct cur_thread as [th Hth]. eapply wp_mono; [by eapply thread_preempt_spec|].
  intros [] s' Hs'. cbn zeta in Hs'. destruct (thread_is_idle th).
  - eapply rescheduled_quiet; [exact Hs'|]. by apply view_upd with th.
  - destruct Hs' as (l & _ & Hs'). eapply rescheduled_quiet; [exact Hs'|].
    unfold requeued. rewrite view_rq_insert. by apply view_upd with th.
Qed.

Lemma set_priority_quiet p : k_current s ≠ k_idle_thread s ->
    wp (thread_set_priority p) s (fun _ s' => quiet C s s').
Proof.
  intros Hi. destruct cur_thread as [th Hth].
  eapply wp_mono; [by eapply thread_set_priority_spec|].
  intros [] s' (l & _ & Hs'). eapply rescheduled_quiet; [exact Hs'|].
  unfold requeued. rewrite view_rq_insert. by apply view_upd with th.
Qed.

Lemma sleep_quiet d : k_current s ≠ k_idle_thread s -> C !! k_current s = None -> delay_ok d ->
    wp (thread_sleep d) s (fun _ s' => quiet C s s').
Proof.
  intros Hi HC Hd. destruct cur_thread as [th Hth].
  eapply wp_mono; [eapply (thread_sleep_spec (pend_of C)); try done; by apply pend_of_none|].
  intros [] s' (tm' & Hs'). eapply rescheduled_quiet; [exact Hs'|].
  exact (view_upd s _ th (set_state THREAD_SLEEPING th) Hth eq_refl).
Qed.

Lemma thread_okb_spec t : thread_okb s t = true -> exists th, k_threads s !! t = Some th /\
    magic th = THREAD_MAGIC /\ state th ≠ THREAD_DEATH.
Proof.
  unfold thread_okb. destruct (k_threads s !! t) as [th|]; [|done]. intros H0. bool_prop. eauto.
Qed.

Lemma set_real_time_quiet t : thread_okb s t = true ->
    wp (thread_set_real_time t) s (fun _ s' => quiet C s s').
Proof.
  intros (th & ? & ? & ?)%thread_okb_spec. eapply wp_mono; [by eapply thread_set_real_time_spec|].
  intros r s' (_ & ? & _ & _ & ?). done.
Qed.

Lemma resume_quiet t : thread_okb s t = true ->
    wp (thread_resume t) s (fun _ s' => quiet C s s').
Proof.
  intros (th & ? & ? & ?)%thread_okb_spec. eapply wp_mono; [by eapply thread_resume_spec|].
  intros r s' (_ & ? & ? & _). done.
Qed.
End quiet.

(** * Creation and exit *)

Lemma create_Inv m t entry arg p stk sz mem :
  Inv m -> call_ok m (CThreadCreate t entry arg p stk sz mem) = true ->
  wp (thread_create_etc (Some t) None entry arg p stk sz mem) (kernel m) (fun _ s' => Inv (MkMachine s' (conts m))).
Proof.
  intros [Hok Hv] Hc. destruct m as [s C]. simpl in *. bool_prop. unfold no_wq in *. bool_prop.
  eapply wp_mono; [eapply (thread_create_etc_spec (pend_of C)); [done|done|]|].
  { intros t' [= <-]. split_and!; try done. by apply pend_of_none. }
  intros r s' [Hok' Hs']. split; [exact Hok'|]. simpl.
  assert (exists th, wait_queue_block_ret th = NO_ERROR /\ view_of s' = view_of (with_new_thread t th s)) as (th & Hth & ->).
  { destruct ((stk =? 0) && (mem =? 0)); destruct Hs' as [_ ->]; eexists; (split; [|done]); [done|]. by case_if. }
  unfold view_of, with_new_thread, rets. simpl. rewrite fmap_insert, Hth.
  refine (set_ret_step (MkView (<[WqRetcode t := WAIT_QUEUE_INITIAL_VALUE]> (k_wait_queues s))
    (rets (k_threads s)) (k_mutexes s) (k_semaphores s) (k_events s) (k_idle_thread s) (k_ints_disabled s)) C t NO_ERROR _ _ _).
  - by apply (new_wq_step (view_of s)).
  - done.
  - eexists. simpl. rewrite lookup_insert_eq. done.
Qed.

Lemma exit_Inv m r :
  Inv m -> conts m !! k_current (kernel m) = None -> k_current (kernel m) ≠ k_idle_thread (kernel m) ->
  wp (thread_exit r) (kernel m) (fun _ s' => Inv (MkMachine s' (conts m))).
Proof.
  intros [Hok Hv] HC Hi. destruct m as [s C]. simpl in *.
  destruct (cur_thread C s Hok) as [th Hth]. pose proof (vi_base _ _ _ _ Hv) as Hb.
  destruct (b_retcode _ _ Hb (k_current s)) as (w & Hw & Hm).
  { simpl. unfold rets. rewrite lookup_fmap, Hth. eauto. }
  assert (wq_list w = []) as Hnil.
  { destruct (wq_list w) as [|t l] eqn:El; [done|].
    destruct (b_wait _ _ Hb (WqRetcode (k_current s)) t) as (fs & _ & ?); [|done].
    unfold on_q. rewrite Hw, El. apply bool_decide_eq_true_2. left. }
  eapply wp_mono; [eapply (thread_exit_spec (pend_of C)); try done; by apply pend_of_none|].
  intros [] s' [Hok' Hv']. split; [exact Hok'|]. simpl. rewrite Hv'. unfold exit_view.
  case_if; [done|]. by rewrite wake_all_empty.
Qed.

(** * Synchronization objects *)

Lemma ok_mutexes pend x s : ok pend s -> ok pend (with_mutexes x s).
Proof. by intros []. Qed.
Lemma ok_semaphores pend x s : ok pend s -> ok pend (with_semaphores x s).
Proof. by intros []. Qed.
Lemma ok_events pend x s : ok pend s -> ok pend (with_events x s).
Proof. by intros []. Qed.

Lemma timeout_okb_spec d : timeout_okb d = true -> d = INFINITE_TIME \/ delay_ok d.
Proof.
  unfold timeout_okb, delay_okb, delay_ok. intros [H0|H0]%orb_true_iff; bool_prop; [by left|right; lia].
Qed.

Lemma is_idle_false s : is_idle s = false -> k_current s ≠ k_idle_thread s.
Proof. unfold is_idle. intros H0. by bool_prop. Qed.

Lemma cnt_zero_inv P C t fs : cnt P C = 0 -> C !! t = Some fs -> P t fs = false.
Proof.
  intros Hc Ht. pose proof (ind_le_cnt P C t) as Hle. unfold ind in Hle. rewrite Ht in Hle.
  destruct (P t fs); [lia|done].
Qed.

Lemma cnt_granted_zero v m C : cnt (acquiring m) C = 0 -> cnt (granted v m) C = 0.
Proof.
  intros Hc. apply cnt_zero. intros t fs Ht. pose proof (cnt_zero_inv _ _ _ _ Hc Ht) as Ha.
  unfold granted. unfold acquiring in Ha. by rewrite Ha.
Qed.

(** Waking one thread of wait queue [q], from the view's side. *)
Definition may_grant (ds : nat -> Z) (v : view) (C : contmap) (q : wqid) : Prop :=
  match q with
  | WqMutex m => forall x, v_mutexes v !! m = Some x -> held x + cnt (granted v m) C = 0
  | WqSem i => forall x, v_semaphores v !! i = Some x ->
      1 <= s_count x + waiters v (WqSem i) + cnt (expired v i) C + ds i
  | _ => True
  end.

Lemma wake_one_vinv C s q b dm ds :
  ok (pend_of C) s -> vinvx dm ds (view_of s) C -> live (view_of s) q ->
  (b = true -> k_current s ≠ k_idle_thread s) -> may_grant ds (view_of s) C q ->
  wp (wait_queue_wake_one q b NO_ERROR) s (fun r s' => ok (pend_of C) s' /\
    (r = 0 /\ s' = s /\ waiters (view_of s) q = 0 \/ r = 1 /\ vinvx dm ds (view_of s') C /\
      v_events (view_of s') = v_events (view_of s))).
Proof.
  intros Hok Hv (w & Hw & Hm) Hb Hg.
  eapply wp_mono; [by eapply wake_one_spec|]. intros r s' [Hok' Hcase]. split; [done|].
  destruct (wq_list w) as [|t l] eqn:El.
  - left. destruct Hcase as [-> ->]. split_and!; [done..|]. unfold waiters. by rewrite Hw, El.
  - right. destruct Hcase as (-> & Hv' & _). rewrite Hv'. split_and!; [done| |done].
    apply (wake_step (view_of s) C q w t l NO_ERROR); [by eapply view_wf_ok|done|by rewrite El|done|].
    destruct q; [by right|right; by split|right; by split|by right..].
Qed.

Lemma mutex_release_Inv m i : Inv m -> call_ok m (CMutexRelease i) = true ->
  wp (mutex_release i) (kernel m) (fun _ s' => Inv (MkMachine s' (conts m))).
Proof.
  intros [Hok Hv] Hc. destruct m as [s C]. simpl in *. apply andb_true_iff in Hc as [Hi Hc].
  bool_prop. apply is_idle_false in Hi. destruct (k_mutexes s !! i) as [x|] eqn:Hx; [|done]. bool_prop.
  unfold mutex_release, mutex_at, set_mutex. wp_step. exists x. split; [done|]. wp_step.
  pose proof (vi_mutex _ _ _ _ Hv i x Hx) as (Hm & Hl & Hcount & Hheld).
  assert (held x = 1) as Hh by (unfold held; by rewrite Hc).
  rewrite Hm. split; [done|]. split; [by apply bool_decide_eq_true_2|].
  set (x' := MkMutex _ None _). set (s1 := with_mutexes _ s).
  assert (vinv (view_of s1) C) as Hv1.
  { apply (set_mutex_step (view_of s) C zero zero zero i x' Hv); [done|].
    split; [done|]. split; [done|]. unfold x', held, zero in *. simpl. lia. }
  apply wp_when. case_if; wp_step.
  - eapply wp_mono; [eapply (wake_one_vinv C s1 (WqMutex i) true zero zero); [by apply ok_mutexes|done|done|done|]|].
    + intros y. simpl. rewrite lookup_insert_eq. intros [= <-].
      change (held x' + cnt (granted (view_of s) i) C = 0). unfold held at 1, x'. simpl.
      pose proof (cnt_nonneg (granted (view_of s) i) C). lia.
    + intros r s2 [Hok2 [(_ & -> & _)|(_ & Hv2 & _)]]; wp_step; by split.
  - split; [by apply ok_mutexes|done].
Qed.

(** Blocking on the wait queue of an object whose count already includes the
    running thread. *)
Lemma block_vinv C s q fs timeout dm ds :
  ok (pend_of C) s -> k_current s ≠ k_idle_thread s -> C !! k_current s = None ->
  vinvx dm ds (view_of s) C -> live (view_of s) q ->
  timeout = INFINITE_TIME \/ delay_ok timeout ->
  (forall timed, timed = negb (timeout =? INFINITE_TIME) ->
    waits_on q (FWaitQueueBlock timed :: fs) = true /\ frames_ok (view_of s) (FWaitQueueBlock timed :: fs)) ->
  (forall i x, v_events (view_of s) !! i = Some x -> q = WqEvent i -> e_signaled x = false) ->
  wp (wait_queue_block q timeout) s (fun o s' =>
    if timeout =? 0 then o = Done ERR_TIMED_OUT /\ s' = s
    else exists timed, o = Switched [FWaitQueueBlock timed] /\
      let C' := <[k_current s := FWaitQueueBlock timed :: fs]> C in
      ok (pend_of C') s' /\
      vinvx (fun m => dm m - (if decide (q = WqMutex m) then 1 else 0))
            (fun i => ds i - (if decide (q = WqSem i) then 1 else 0)) (view_of s') C').
Proof.
  intros Hok Hi HC Hv (w & Hw & Hm) Ht Hfs Hev.
  eapply wp_mono; [eapply (wait_queue_block_spec (pend_of C)); try done; by apply pend_of_none|].
  intros o s' Ho. case_if; [done|]. destruct Ho as (-> & Hok' & Hv').
  eexists. split; [done|]. destruct (Hfs _ eq_refl) as [Hwo Hfo]. cbn zeta.
  rewrite pend_of_insert. split; [done|]. rewrite Hv'.
  apply enqueue_step; try done.
  simpl. unfold rets. rewrite lookup_fmap. destruct (cur_thread C s Hok) as [th ->]. eauto.
Qed.

Lemma mutex_acquire_Inv m i timeout : Inv m -> conts m !! k_current (kernel m) = None ->
  call_ok m (CMutexAcquireTimeout i timeout) = true ->
  wp (mutex_acquire_timeout i timeout) (kernel m) (fun o s' =>
    Inv (MkMachine s' (after_call (k_current (kernel m)) (conts m) o))).
Proof.
  intros [Hok Hv] HC Hc. destruct m as [s C]. simpl in *. apply andb_true_iff in Hc as [Hc Hx].
  bool_prop. apply is_idle_false in H. apply timeout_okb_spec in H0.
  destruct (k_mutexes s !! i) as [x|] eqn:Ex; [|done]. bool_prop.
  pose proof (vi_mutex _ _ _ _ Hv i x Ex) as (Hm & Hl & Hcount & Hheld). unfold zero in Hcount.
  unfold mutex_acquire_timeout, mutex_at, set_mutex. wp_step. exists x. split; [done|]. wp_step.
  rewrite Hm. split; [done|]. split. { apply negb_true_iff, bool_decide_eq_false_2. congruence. }
  set (x1 := MkMutex _ (m_holder x) _). set (s1 := with_mutexes _ s).
  assert (k_mutexes s1 !! i = Some x1) as Hx1 by (simpl; apply lookup_insert_eq).
  assert (vinvx (at_ i 1) zero (view_of s1) C) as Hv1.
  { apply (set_mutex_step (view_of s) C zero (at_ i 1) zero i x1 Hv).
    - intros m' ?. unfold at_. by rewrite decide_False.
    - split; [done|]. split; [done|]. unfold at_. rewrite decide_True by done.
      unfold held, x1 in *. simpl. lia. }
  case_if.
  - wp_step. eapply wp_mono; [eapply (block_vinv C s1 (WqMutex i) [FMutexAcquire i] timeout (at_ i 1) zero); try done|].
    + by apply ok_mutexes.
    + intros timed _. simpl. split; [by apply bool_decide_eq_true_2|]. rewrite lookup_insert_eq. eauto.
    + intros o s' Ho. destruct (Z.eqb_spec timeout 0).
      * destruct Ho as [-> ->]. cbn [after_wait]. unfold mutex_acquire_resumed. cbn [Z.ltb NO_ERROR ERR_TIMED_OUT Z.compare Z.eqb Pos.eqb when].
        unfold mutex_at, set_mutex. wp_step. exists x1. split; [done|]. wp_step. split; [by do 2 apply ok_mutexes|].
        cbn [after_call conts kernel].
        apply (set_mutex_step (view_of s1) C (at_ i 1) zero zero i _ Hv1).
        { intros m' ?. unfold at_. by rewrite decide_False. }
        split; [done|]. split; [done|]. unfold held, x1, zero in *. simpl.
        change (cnt (granted (view_of s1) i) C) with (cnt (granted (view_of s) i) C). lia.
      * destruct Ho as (timed & -> & Hok' & Hv'). cbn [after_wait]. wp_step. split; [done|].
        eapply vinvx_ext; [exact Hv'| |].
        { intros m'. unfold at_, zero. repeat case_decide; congruence || lia. }
        { intros j. unfold zero. by rewrite decide_False. }
  - wp_step. unfold mutex_acquire_resumed. cbn [Z.ltb NO_ERROR Z.compare]. unfold mutex_at, set_mutex. wp_step.
    exists x1. split; [done|]. wp_step. split; [by do 2 apply ok_mutexes|]. cbn [after_call conts kernel].
    apply (set_mutex_step (view_of s1) C (at_ i 1) zero zero i _ Hv1).
    { intros m' ?. unfold at_. by rewrite decide_False. }
    pose proof (cnt_nonneg (acquiring i) C). unfold held in Hcount at 1.
    assert (cnt (acquiring i) C = 0) as Ha by (destruct (m_holder x); lia).
    assert (m_count x = 0) as Hc0 by (destruct (m_holder x); lia).
    split; [done|]. split; [done|]. unfold held, x1, zero. simpl.
    rewrite (cnt_granted_zero _ _ _ Ha), Ha, Hc0. lia.
Qed.

(** The semaphore's record after its count changed by [n]. *)
Lemma sem_count_step v C ds ds' i x n :
  vinvx zero ds v C -> v_semaphores v !! i = Some x -> (forall j, j ≠ i -> ds' j = ds j) ->
  (0 <= s_count x + waiters v (WqSem i) + cnt (expired v i) C + ds i ->
   0 <= s_count x + n + waiters v (WqSem i) + cnt (expired v i) C + ds' i) ->
  vinvx zero ds' (v_with_semaphores (<[i := MkSem (s_magic x) (s_count x + n)]> (v_semaphores v)) v) C.
Proof.
  intros Hv Hx Hd Hle. eapply set_sem_step; [exact Hv|done|].
  destruct (vi_sem _ _ _ _ Hv i x Hx) as (? & ?). split; [done|]. simpl. lia.
Qed.

Lemma has_spec {A} (m : gmap nat A) i : has m i = true -> exists x, m !! i = Some x.
Proof. unfold has. intros H0. by apply bool_decide_eq_true in H0. Qed.

Lemma waiters_nonneg v q : 0 <= waiters v q.
Proof. unfold waiters. destruct (v_wq v !! q); lia. Qed.

Lemma sem_fits_spec s i : sem_fits s i = true -> exists x, k_semaphores s !! i = Some x /\ - 2 ^ 31 < s_count x < 2 ^ 31 - 1.
Proof. unfold sem_fits. destruct (k_semaphores s !! i) as [x|]; [|done]. intros Hx. bool_prop. by exists x. Qed.

Lemma sem_post_Inv s C i b : Inv (MkMachine s C) -> sem_fits s i = true ->
  (b = true -> k_current s ≠ k_idle_thread s) ->
  wp (sem_post i b) s (fun _ s' => Inv (MkMachine s' C)).
Proof.
  intros [Hok Hv] (x & Hx & Hfit)%sem_fits_spec Hb. simpl in *.
  destruct (vi_sem _ _ _ _ Hv i x Hx) as (Hl & Hle). unfold zero in Hle.
  unfold sem_post, sem_at, set_sem. wp_step. exists x. split; [done|]. wp_step. rewrite sw_small by lia.
  set (x1 := MkSem _ _). set (s1 := with_semaphores _ s).
  assert (vinv (view_of s1) C) as Hv1.
  { apply (sem_count_step (view_of s) C zero zero i x 1 Hv Hx); [done|]. unfold zero. lia. }
  case_if; wp_step; [|split; [by apply ok_semaphores|done]].
  eapply wp_mono; [eapply (wake_one_vinv C s1 (WqSem i) b zero zero); [by apply ok_semaphores|done|done|done|]|].
  - intros y. simpl. rewrite lookup_insert_eq. intros [= <-]. unfold zero, x1. simpl.
    change (waiters (view_of s1) (WqSem i)) with (waiters (view_of s) (WqSem i)).
    change (cnt (expired (view_of s1) i) C) with (cnt (expired (view_of s) i) C). lia.
  - intros r s2 [Hok2 [(_ & -> & _)|(_ & Hv2 & _)]]; wp_step; by split.
Qed.

(** The waits on a semaphore share the decrement and the block. *)
Lemma sem_block_vinv C s i x fs timeout :
  Inv (MkMachine s C) -> k_current s ≠ k_idle_thread s -> C !! k_current s = None ->
  k_semaphores s !! i = Some x -> timeout = INFINITE_TIME \/ delay_ok timeout ->
  (fs = [] /\ timeout = INFINITE_TIME \/ fs = [FSemTimedWait i]) ->
  let s1 := with_semaphores (<[i := MkSem (s_magic x) (s_count x - 1)]> (k_semaphores s)) s in
  wp (wait_queue_block (WqSem i) timeout) s1 (fun o s' =>
    if timeout =? 0 then o = Done ERR_TIMED_OUT /\ s' = s1 /\ vinvx zero (at_ i 1) (view_of s1) C /\ ok (pend_of C) s1
    else exists timed, o = Switched [FWaitQueueBlock timed] /\
      Inv (MkMachine s' (<[k_current s := FWaitQueueBlock timed :: fs]> C))).
Proof.
  intros [Hok Hv] Hi HC Hx Ht Hfs s1. simpl in *.
  destruct (vi_sem _ _ _ _ Hv i x Hx) as (Hl & Hle).
  assert (vinvx zero (at_ i 1) (view_of s1) C) as Hv1.
  { apply (sem_count_step (view_of s) C zero (at_ i 1) i x (-1) Hv Hx).
    - intros j ?. unfold at_. by rewrite decide_False.
    - unfold at_, zero. rewrite decide_True by done. lia. }
  eapply wp_mono; [eapply (block_vinv C s1 (WqSem i) fs timeout zero (at_ i 1)); try done|].
  - by apply ok_semaphores.
  - intros timed ->. destruct Hfs as [[-> ->]| ->]; simpl; [done|].
    split; [by apply bool_decide_eq_true_2|]. rewrite lookup_insert_eq. eauto.
  - intros o s' Ho. case_if.
    + destruct Ho as [-> ->]. split_and!; [done..|]. by apply ok_semaphores.
    + destruct Ho as (timed & -> & Hok' & Hv'). exists timed. split; [done|]. split; [done|].
      eapply vinvx_ext; [exact Hv'| |].
      { intros m'. unfold zero. by rewrite decide_False. }
      { intros j. unfold at_, zero. repeat case_decide; congruence || lia. }
Qed.

Lemma sem_decrement_Inv C s i x : Inv (MkMachine s C) -> k_semaphores s !! i = Some x ->
  0 <= s_count x - 1 ->
  Inv (MkMachine (with_semaphores (<[i := MkSem (s_magic x) (s_count x - 1)]> (k_semaphores s)) s) C).
Proof.
  intros [Hok Hv] Hx Hc. split; [by apply ok_semaphores|].
  apply (sem_count_step (view_of s) C zero zero i x (-1) Hv Hx); [done|].
  unfold zero. pose proof (waiters_nonneg (view_of s) (WqSem i)).
  pose proof (cnt_nonneg (expired (view_of s) i) C). lia.
Qed.

Lemma sem_wait_Inv s C i : Inv (MkMachine s C) -> C !! k_current s = None ->
  call_ok (MkMachine s C) (CSemWait i) = true ->
  wp (sem_wait i) s (fun o s' => Inv (MkMachine s' (after_call (k_current s) C o))).
Proof.
  intros HI HC Hc. simpl in Hc. bool_prop. apply is_idle_false in H. apply sem_fits_spec in H0 as (x & Hx & Hfit).
  unfold sem_wait, sem_at, set_sem. wp_step. exists x. split; [done|]. wp_step. rewrite sw_small by lia. case_if; wp_step.
  - eapply wp_mono; [eapply (sem_block_vinv C s i x [] INFINITE_TIME); try done; by left|].
    intros o s' Ho. cbn [Z.eqb INFINITE_TIME] in Ho. destruct Ho as (timed & -> & HI'). done.
  - by apply sem_decrement_Inv.
Qed.

Lemma sem_trywait_Inv s C i : Inv (MkMachine s C) -> call_ok (MkMachine s C) (CSemTrywait i) = true ->
  wp (sem_trywait i) s (fun _ s' => Inv (MkMachine s' C)).
Proof.
  intros HI Hc. simpl in Hc. apply sem_fits_spec in Hc as (x & Hx & Hfit).
  unfold sem_trywait, sem_at, set_sem. wp_step. exists x. split; [done|]. wp_step. case_if; wp_step; [done|].
  rewrite sw_small by lia. apply sem_decrement_Inv; [done|done|lia].
Qed.

Lemma sem_timedwait_Inv s C i timeout : Inv (MkMachine s C) -> C !! k_current s = None ->
  call_ok (MkMachine s C) (CSemTimedwait i timeout) = true ->
  wp (sem_timedwait i timeout) s (fun o s' => Inv (MkMachine s' (after_call (k_current s) C o))).
Proof.
  intros HI HC Hc. simpl in Hc. bool_prop. apply is_idle_false in H. apply sem_fits_spec in H1 as (x & Hx & Hfit).
  apply timeout_okb_spec in H0.
  unfold sem_timedwait, sem_at, set_sem. wp_step. exists x. split; [done|]. wp_step. rewrite (sw_small 32 (s_count x - 1)) by lia. case_if; wp_step.
  - eapply wp_mono; [eapply (sem_block_vinv C s i x [FSemTimedWait i] timeout); try done; by right|].
    intros o s' Ho. destruct (Z.eqb_spec timeout 0);
      [|destruct Ho as (timed & -> & HI'); cbn [after_wait]; wp_step; done].
    destruct Ho as (-> & -> & Hv1 & Hok1). cbn [after_wait]. unfold sem_timedwait_resumed, sem_at, set_sem.
    cbn [Z.ltb NO_ERROR ERR_TIMED_OUT Z.compare Z.eqb Pos.eqb when andb]. wp_step. set (s1 := with_semaphores _ s) in *.
    eexists. split; [apply lookup_insert_eq|]. cbn [s_count s_magic]. rewrite sw_small by lia. wp_step. split; [by apply ok_semaphores|].
    eapply (sem_count_step (view_of s1) C (at_ i 1) zero i (MkSem (s_magic x) (s_count x - 1)) 1 Hv1); [apply lookup_insert_eq| |].
    + intros j ?. unfold at_. by rewrite decide_False.
    + unfold at_, zero. rewrite decide_True by done. lia.
  - by apply sem_decrement_Inv.
Qed.

(** ** Events *)

Lemma set_signaled_Inv s C i b x (Q : unit -> kstate -> Prop) :
  Inv (MkMachine s C) -> k_events s !! i = Some x ->
  (b = true -> waiters (view_of s) (WqEvent i) = 0) ->
  (forall s', Inv (MkMachine s' C) -> Q tt s') -> wp (set_signaled i b) s Q.
Proof.
  intros [Hok Hv] Hx Hb HQ. unfold set_signaled, event_at, set_event. wp_step.
  exists x. split; [done|]. wp_step. apply HQ. split; [by apply ok_events|].
  apply (set_event_step (view_of s) C zero zero i _ Hv).
  destruct (vi_event _ _ _ _ Hv i x Hx) as (? & ? & ?). done.
Qed.

Lemma event_wait_Inv s C i timeout : Inv (MkMachine s C) -> C !! k_current s = None ->
  call_ok (MkMachine s C) (CEventWaitTimeout i timeout) = true ->
  wp (event_wait_timeout i timeout) s (fun o s' => Inv (MkMachine s' (after_call (k_current s) C o))).
Proof.
  intros HI HC Hc. simpl in Hc. bool_prop. apply is_idle_false in H. apply has_spec in H1 as [x Hx].
  apply timeout_okb_spec in H0. pose proof HI as [Hok Hv].
  destruct (vi_event _ _ _ _ Hv i x Hx) as (Hm & Hl & Hs).
  unfold event_wait_timeout, event_at. wp_step. exists x. split; [done|]. wp_step.
  rewrite Hm. split; [done|]. destruct (e_signaled x) eqn:Hsig; wp_step.
  - apply wp_when. case_if; wp_step; [|done].
    eapply set_signaled_Inv; [done|done|done|]. intros s' HI'. by wp_step.
  - eapply wp_mono; [eapply (block_vinv C s (WqEvent i) [] timeout zero zero); try done|].
    + intros j y Hy [= <-]. simpl in Hy. congruence.
    + intros o s' Ho. destruct (Z.eqb_spec timeout 0); [by destruct Ho as [-> ->]|].
      destruct Ho as (timed & -> & Hok' & Hv'). split; [done|]. eapply vinvx_ext; [exact Hv'| |].
      { intros m'. unfold zero. by rewrite decide_False. }
      { intros j. unfold zero. by rewrite decide_False. }
Qed.

Lemma event_unsignal_Inv s C i : Inv (MkMachine s C) -> has (k_events s) i = true ->
  wp (event_unsignal i) s (fun _ s' => Inv (MkMachine s' C)).
Proof.
  intros HI [x Hx]%has_spec. pose proof HI as [Hok Hv].
  destruct (vi_event _ _ _ _ Hv i x Hx) as (Hm & Hl & Hs).
  unfold event_unsignal, event_at. wp_step. exists x. split; [done|]. wp_step. rewrite Hm. split; [done|].
  eapply set_signaled_Inv; [done|done|done|]. intros s' HI'. by wp_step.
Qed.

Lemma event_signal_Inv s C i b : Inv (MkMachine s C) -> has (k_events s) i = true ->
  (b = true -> k_current s ≠ k_idle_thread s) ->
  wp (event_signal i b) s (fun _ s' => Inv (MkMachine s' C)).
Proof.
  intros HI [x Hx]%has_spec Hb. pose proof HI as [Hok Hv]. simpl in Hok, Hv.
  destruct (vi_event _ _ _ _ Hv i x Hx) as (Hm & Hl & Hs).
  unfold event_signal, event_at. wp_step. exists x. split; [done|]. wp_step. rewrite Hm. split; [done|].
  destruct (e_signaled x) eqn:Hsig; cbn [negb]; [wp_step; done|]. case_if; wp_step.
  - eapply wp_mono; [by eapply (wake_one_vinv C s (WqEvent i) b zero zero)|].
    intros r s' [Hok' [(-> & -> & Hz)|(-> & Hv' & _)]]; cbn [Z.leb Z.compare when].
    + eapply set_signaled_Inv; [done|done|done|]. intros s' HI'. by wp_step.
    + wp_step. by split.
  - unfold set_signaled, event_at, set_event. wp_step. exists x. split; [done|]. wp_step.
    set (s1 := with_events _ s). destruct Hl as (w & Hw & Hwm).
    eapply wp_mono; [eapply (wake_all_spec (pend_of C) s1 (WqEvent i) w b NO_ERROR); [by apply ok_events|done..]|].
    intros r s' (Hok' & _ & _ & Hv'). wp_step. split; [done|]. cbn [kernel conts]. rewrite Hv'.
    pose proof (wake_all_event_step _ _ _ _ Hv Hw) as Hv2.
    apply (set_event_step _ _ _ _ i (MkEvent (e_magic x) true (e_flags x)) Hv2).
    split; [done|]. split; [|intros _; unfold waiters; simpl; by rewrite lookup_insert_eq].
    eexists. simpl. rewrite lookup_insert_eq. done.
Qed.

(** ** New objects *)

Lemma ok_new_wq pend s q : ok pend s -> k_wait_queues s !! q = None ->
  ok pend (with_wait_queues (<[q := WAIT_QUEUE_INITIAL_VALUE]> (k_wait_queues s)) s).
Proof.
  intros [[] ? ? ? ?] Hq. split; [split|..]; simpl; try done.
  - intros q' w t. rewrite lookup_insert. case_decide; [|eauto]. subst. intros [= <-].
    split; [by intros ?%elem_of_nil|]. intros [_ (x & Hx & Hxs & Hxb)].
    specialize (si_link0 _ _ Hx (not_elem_of_empty _)). unfold link_ok in si_link0.
    rewrite decide_True in si_link0 by done. destruct si_link0 as (q & w & ? & ? & _). simplify_eq.
  - intros q' w. rewrite lookup_insert. case_decide; [|eauto]. intros [= <-]. constructor.
  - intros q' w. rewrite lookup_insert. case_decide; [|eauto]. by intros [= <-].
  - intros t x Hx HX. specialize (si_link0 _ _ Hx HX). unfold link_ok in *. case_decide; [|done].
    destruct si_link0 as (q' & w & ? & ? & ?). exists q', w. rewrite lookup_insert_ne; [done|]. intros <-. congruence.
Qed.

Lemma init_live v q : live (MkView (<[q := WAIT_QUEUE_INITIAL_VALUE]> (v_wq v)) (v_ret v) (v_mutexes v)
  (v_semaphores v) (v_events v) (v_idle v) (v_ints v)) q.
Proof. eexists. simpl. rewrite lookup_insert_eq. done. Qed.

Lemma has_false {A} (m : gmap nat A) i : has m i = false -> m !! i = None.
Proof. unfold has. intros H0. apply bool_decide_eq_false in H0. by apply eq_None_not_Some. Qed.

Lemma mutex_init_Inv s C i : Inv (MkMachine s C) -> call_ok (MkMachine s C) (CMutexInit i) = true ->
  wp (mutex_init i) s (fun _ s' => Inv (MkMachine s' C)).
Proof.
  intros [Hok Hv] Hc. simpl in *. unfold no_wq in Hc. bool_prop. apply has_false in H.
  unfold mutex_init, set_mutex, wait_queue_init, set_wq. wp_step. split.
  - by apply ok_new_wq; [apply ok_mutexes|].
  - apply (new_mutex_step (MkView (<[WqMutex i := WAIT_QUEUE_INITIAL_VALUE]> (v_wq (view_of s))) _ _ _ _ _ _));
      [by apply new_wq_step|done|apply init_live].
Qed.

Lemma sem_init_Inv s C i n : Inv (MkMachine s C) -> call_ok (MkMachine s C) (CSemInit i n) = true ->
  wp (sem_init i n) s (fun _ s' => Inv (MkMachine s' C)).
Proof.
  intros [Hok Hv] Hc. simpl in *. unfold no_wq in Hc. bool_prop.
  unfold sem_init, set_sem, wait_queue_init, set_wq. wp_step. rewrite sw_small by lia. split.
  - by apply ok_new_wq; [apply ok_semaphores|].
  - apply (new_sem_step (MkView (<[WqSem i := WAIT_QUEUE_INITIAL_VALUE]> (v_wq (view_of s))) _ _ _ _ _ _));
      [by apply new_wq_step|apply init_live|done].
Qed.

Lemma event_init_Inv s C i b fl : Inv (MkMachine s C) -> call_ok (MkMachine s C) (CEventInit i b fl) = true ->
  wp (event_init i b fl) s (fun _ s' => Inv (MkMachine s' C)).
Proof.
  intros [Hok Hv] Hc. simpl in *. unfold no_wq in Hc. bool_prop.
  unfold event_init, set_event, wait_queue_init, set_wq. wp_step. split.
  - by apply ok_new_wq; [apply ok_events|].
  - apply (set_event_step (MkView (<[WqEvent i := WAIT_QUEUE_INITIAL_VALUE]> (v_wq (view_of s))) _ _ _ _ _ _));
      [by apply new_wq_step|].
    split; [done|]. split; [apply init_live|]. intros _. unfold waiters. simpl. by rewrite lookup_insert_eq.
Qed.

(** * Leaving a blocked call *)

Section resumed.
Context (s : kstate) (C : contmap) (timed : bool) (t : tid) (r : Z).
Hypothesis Hret : v_ret (view_of s) !! t = Some r.
Hypothesis Hoff : forall q, on_q (view_of s) q t = false.
Let C' : contmap := delete t C.
Hypothesis Hok : ok (pend_of C') s.
Hypothesis Hv : vinvx (fun m => ind (acquiring m) C t) (fun i => ind (expired (view_of s) i) C t) (view_of s) C'.
Hypothesis Hcur : k_current s = t.
Hypothesis Hres : r = NO_ERROR \/ r = ERR_TIMED_OUT.

(** [mutex_acquire_timeout] after the wait. *)
Lemma mutex_acquire_resumed_Inv m :
    C !! t = Some [FWaitQueueBlock timed; FMutexAcquire m] -> is_Some (k_mutexes s !! m) ->
    (forall m x, v_mutexes (view_of s) !! m = Some x ->
      held x + cnt (granted (view_of s) m) C' + ind (granted (view_of s) m) C t <= 1) ->
    wp (mutex_acquire_resumed m r) s (fun _ s' => Inv (MkMachine s' C')).
Proof.
  intros Hfs [x Hx] Hgr. specialize (Hgr m x Hx).
  destruct (vi_mutex _ _ _ _ Hv m x Hx) as (Hm & Hl & Hcount & Hheld).
  assert (forall m', ind (acquiring m') C t = if decide (m' = m) then 1 else 0) as Ha.
  { intros m'. unfold ind. rewrite Hfs. unfold acquiring. simpl. case_decide; by case_bool_decide. }
  assert (forall i, ind (expired (view_of s) i) C t = 0) as He.
  { intros i. unfold ind. by rewrite Hfs. }
  rewrite Ha, decide_True in Hcount by done.
  assert (forall x', mutex_ok 0 (view_of s) C' m x' ->
    Inv (MkMachine (with_mutexes (<[m := x']> (k_mutexes s)) s) C')) as Hfin.
  { intros x' Hx'. split; [by apply ok_mutexes|].
    eapply vinvx_ext; [eapply (set_mutex_step (view_of s) C' _ zero _ m x' Hv)|done|exact He]; [|done].
    intros m' ?. cbn beta. by rewrite Ha, decide_False. }
  unfold mutex_acquire_resumed, mutex_at, set_mutex. destruct Hres as [-> | ->].
  - cbn [Z.ltb NO_ERROR Z.compare]. wp_step. exists x. split; [done|]. wp_step. apply Hfin.
    assert (ind (granted (view_of s) m) C t = 1) as Hg1.
    { unfold ind. rewrite Hfs. unfold granted. simpl. rewrite Hoff, !bool_decide_eq_true_2 by done. done. }
    split; [done|]. split; [done|]. pose proof (cnt_nonneg (granted (view_of s) m) C').
    unfold held in *. simpl. destruct (m_holder x); lia.
  - cbn [Z.ltb NO_ERROR ERR_TIMED_OUT Z.compare Z.eqb Pos.eqb when]. wp_step. exists x. split; [done|]. wp_step.
    apply Hfin. split; [done|]. split; [done|]. unfold held in *. simpl. lia.
Qed.

(** [sem_timedwait] after the wait. *)
Lemma sem_timedwait_resumed_Inv i :
    C !! t = Some [FWaitQueueBlock timed; FSemTimedWait i] -> sem_fits s i = true ->
    wp (sem_timedwait_resumed i r) s (fun _ s' => Inv (MkMachine s' C')).
Proof.
  intros Hfs (x & Hx & Hfit)%sem_fits_spec.
  assert (forall m', ind (acquiring m') C t = 0) as Ha.
  { intros m'. unfold ind. by rewrite Hfs. }
  assert (forall i', ind (expired (view_of s) i') C t =
    if decide (i' = i /\ r = ERR_TIMED_OUT) then 1 else 0) as He.
  { intros i'. unfold ind. rewrite Hfs. unfold expired. rewrite Hoff, Hret.
    rewrite !(bool_decide_decide). repeat case_decide; simpl; naive_solver. }
  assert (vinvx zero (fun i' => if decide (i' = i /\ r = ERR_TIMED_OUT) then 1 else 0) (view_of s) C') as Hv'.
  { by eapply vinvx_ext. }
  unfold sem_timedwait_resumed, sem_at, set_sem. destruct Hres as [-> | ->].
  - cbn [Z.ltb NO_ERROR Z.compare when andb]. wp_step. split; [done|].
    eapply vinvx_ext; [exact Hv'|done|]. intros i'. unfold zero. rewrite decide_False; [done|]. by intros [_ ?].
  - cbn [Z.ltb NO_ERROR ERR_TIMED_OUT Z.compare Z.eqb Pos.eqb when andb]. wp_step. exists x. split; [done|].
    wp_step. rewrite sw_small by lia. split; [by apply ok_semaphores|].
    eapply (sem_count_step (view_of s) C' _ zero i x 1 Hv' Hx).
    + intros j ?. rewrite decide_False; [done|]. by intros [? _].
    + rewrite decide_True by done. unfold zero. lia.
Qed.
End resumed.

Lemma resume_Inv s C fs : Inv (MkMachine s C) -> C !! k_current s = Some fs -> resume_ok (MkMachine s C) = true ->
  wp (run_frames fs NO_ERROR) s (fun _ s' => Inv (MkMachine s' (delete (k_current s) C))).
Proof.
  intros [Hok Hv] Hfs Hfits. unfold resume_ok in Hfits. simpl in *. rewrite Hfs in Hfits. pose proof (vi_base _ _ _ _ Hv) as Hb.
  pose proof (b_frames _ _ Hb _ _ Hfs) as Hf.
  assert (exists timed rest, fs = FWaitQueueBlock timed :: rest) as (timed & rest & ->).
  { destruct fs as [|[] ?]; try done. eauto. }
  assert (pend_of C !! k_current s = Some timed) as Hp.
  { unfold pend_of. by rewrite lookup_omap, Hfs. }
  assert (forall q, on_q (view_of s) q (k_current s) = false) as Hoff.
  { intros q. by eapply current_off_q. }
  destruct (resume_step _ _ _ Hoff Hv) as [Hv1 Hgr].
  cbn [run_frames run_frame]. wp_step.
  eapply wp_mono; [by apply (wait_queue_block_resumed_spec (pend_of C))|].
  intros r s1 (Hr & Hok1 & Hc1 & Hview). rewrite <- pend_of_delete in Hok1.
  change (rets (k_threads s)) with (v_ret (view_of s)) in Hr.
  assert (r = NO_ERROR \/ r = ERR_TIMED_OUT) as Hres.
  { destruct (b_ret _ _ Hb _ _ Hfs) as [E|E]; rewrite E in Hr; injection Hr as <-; auto. }
  assert (k_semaphores s1 = k_semaphores s) as Hsem by exact (f_equal v_semaphores Hview).
  rewrite <- Hview in Hr, Hf, Hoff, Hv1, Hgr. clear Hb Hv Hok Hp Hview.
  destruct rest as [|f [|]]; [|destruct f; try done|by destruct f].
  - cbn [run_frames]. wp_step. split; [done|]. eapply vinvx_ext; [exact Hv1| |];
      intros j; unfold ind, zero; by rewrite Hfs.
  - cbn [run_frames run_frame]. wp_step.
    eapply wp_mono; [eapply (mutex_acquire_resumed_Inv s1 C timed (k_current s) r); done|].
    intros r' s2 HI. by wp_step.
  - cbn [run_frames run_frame]. wp_step.
    match goal with |- wp (sem_timedwait_resumed ?j _) _ _ => assert (sem_fits s1 j = true) as Hfit1 end.
    { cbn in Hfits. rewrite andb_true_r in Hfits. unfold sem_fits in *. by rewrite Hsem. }
    eapply wp_mono; [eapply (sem_timedwait_resumed_Inv s1 C timed (k_current s) r); done|].
    intros r' s2 HI. by wp_step.
Qed.

(** * Interrupts and time *)

Lemma fired_vinv C v v' : view_wf v -> vinv v C -> fired (pend_of C) v v' -> view_wf v' /\ vinv v' C.
Proof.
  intros Hwf Hv [|q w t Hw Hin Hp]; [done|].
  pose proof (filter_perm _ _ (vw_nodup _ Hwf _ _ Hw) Hin) as Hperm.
  split; [by eapply view_wf_wake|]. eapply wake_step; try done.
  destruct (pend_of_true _ _ _ Hp) as [fs Hfs].
  destruct q; [by left|by left|left; eauto|by left..].
Qed.

Lemma fired_many_vinv C v v' : view_wf v -> vinv v C -> fired_many (pend_of C) v v' -> vinv v' C.
Proof.
  intros Hwf Hv Hf. induction Hf as [|v v1 v2 H1 _ IH]; [done|].
  destruct (fired_vinv _ _ _ Hwf Hv H1). by apply IH.
Qed.

Lemma irq_exit_Inv s C ret : Inv (MkMachine s C) ->
  wp (irq_exit ret) s (fun _ s' => Inv (MkMachine s' C)).
Proof.
  intros HI. pose proof HI as [Hok Hv]. unfold irq_exit. apply wp_when. destruct ret; [|done].
  eapply wp_mono; [by apply (preempt_quiet C)|]. intros [] s' Hq. by eapply quiet_Inv.
Qed.

Lemma tick_Inv s C : Inv (MkMachine s C) -> wp take_timer_irq s (fun _ s' => Inv (MkMachine s' C)).
Proof.
  intros [Hok Hv]. unfold take_timer_irq. wp_step. apply wp_on_timer. wp_step.
  eapply wp_mono; [by eapply timer_tick_spec|].
  intros r s1 (Hok1 & _ & _ & _ & _ & Hf). apply irq_exit_Inv. split; [done|].
  exact (fired_many_vinv C _ _ (view_wf_ok _ _ Hok) Hv Hf).
Qed.

Lemma advance_Inv s C n : Inv (MkMachine s C) -> advance_ok (k_timer s) n = true ->
  Inv (MkMachine (with_timer (Timer.advance n (k_timer s)) s) C).
Proof.
  intros [Hok Hv] Ha. split; [|exact Hv]. unfold advance_ok in Ha. bool_prop.
  cbn [conts kernel] in *. pose proof Hok as [? [] ? ? ?].
  split; try done. split; try done. simpl. apply Timer.advance_wf; [done|done|].
  intros id Hid. rewrite forallb_forall in H0. specialize (H0 id ltac:(by apply list_elem_of_In)).
  bool_prop. unfold Timer.in_window. lia.
Qed.

(** * Every allowed event *)

Lemma void_Inv C cur m s : wp m s (fun _ s' => Inv (MkMachine s' C)) ->
  wp (void m) s (fun o s' => Inv (MkMachine s' (after_call cur C o))).
Proof. intros Hm. unfold void. wp_step. eapply wp_mono; [exact Hm|]. intros [] s' HI. by wp_step. Qed.

Lemma done_Inv C cur m s : wp m s (fun _ s' => Inv (MkMachine s' C)) ->
  wp (Kernel.done m) s (fun o s' => Inv (MkMachine s' (after_call cur C o))).
Proof. intros Hm. unfold Kernel.done. wp_step. eapply wp_mono; [exact Hm|]. intros r s' HI. by wp_step. Qed.

Lemma quiet_wp {A} (m : K A) C s : Inv (MkMachine s C) -> wp m s (fun _ s' => quiet C s s') ->
  wp m s (fun _ s' => Inv (MkMachine s' C)).
Proof. intros HI Hm. eapply wp_mono; [exact Hm|]. intros a s' Hq. by eapply quiet_Inv. Qed.

Lemma resched_flag_ok s b : negb (b && is_idle s) = true -> b = true -> k_current s ≠ k_idle_thread s.
Proof. intros Hb ->. bool_prop. by apply is_idle_false. Qed.

Lemma call_Inv s C c : Inv (MkMachine s C) -> C !! k_current s = None ->
  call_ok (MkMachine s C) c = true ->
  wp (run_call c) s (fun o s' => Inv (MkMachine s' (after_call (k_current s) C o))).
Proof.
  intros HI HC Hc. pose proof HI as [Hok Hv]. simpl in Hok.
  destruct c; cbn [run_call]; try apply void_Inv; try apply done_Inv.
  - wp_step. eapply wp_mono; [by apply (create_Inv _ _ _ _ _ _ _ _ HI Hc)|]. intros r s' HI'. by wp_step.
  - by apply quiet_wp, resume_quiet.
  - by apply quiet_wp, yield_quiet.
  - simpl in Hc. unfold delay_okb in Hc. bool_prop. apply quiet_wp, sleep_quiet; try done. by apply is_idle_false.
  - simpl in Hc. bool_prop. by apply (exit_Inv (MkMachine s C) _ HI HC), is_idle_false.
  - simpl in Hc. bool_prop. apply quiet_wp, set_priority_quiet; try done. by apply is_idle_false.
  - by apply quiet_wp, set_real_time_quiet.
  - by apply mutex_init_Inv.
  - by apply (mutex_acquire_Inv _ _ _ HI HC Hc).
  - by apply (mutex_release_Inv _ _ HI Hc).
  - by apply sem_init_Inv.
  - simpl in Hc. apply andb_true_iff in Hc as [? ?]. apply sem_post_Inv; try done. by apply resched_flag_ok.
  - by apply sem_wait_Inv.
  - by apply sem_trywait_Inv.
  - by apply sem_timedwait_Inv.
  - by apply event_init_Inv.
  - by apply event_wait_Inv.
  - simpl in Hc. apply andb_true_iff in Hc as [? ?]. apply event_signal_Inv; try done. by apply resched_flag_ok.
  - by apply event_unsignal_Inv.
Qed.

Lemma wp_step_some {A} (m : K A) s (f : A * kstate -> machine) (P : machine -> Prop) :
  wp m s (fun a s' => P (f (a, s'))) -> exists m', (r ← m s; Some (f r)) = Some m' /\ P m'.
Proof. unfold wp. destruct (m s) as [[a s']|]; [|done]. simpl. eauto. Qed.

Lemma step_Inv m e : Inv m -> allowed m e = true -> exists m', step m e = Some m' /\ Inv m'.
Proof.
  destruct m as [s C]. intros HI Ha. destruct e; unfold allowed in Ha; cbn [kernel conts] in Ha; unfold step; cbn [kernel conts].
  - bool_prop. apply (wp_step_some _ _ (fun r => MkMachine r.2 (after_call (k_current s) C r.1))).
    by apply call_Inv; [|by apply has_false|].
  - apply andb_true_iff in Ha as [Ha Hfit]. apply has_spec in Ha as [fs Hfs]. rewrite Hfs. simpl.
    apply (wp_step_some _ _ (fun r => MkMachine r.2 (delete (k_current s) C))). by apply resume_Inv.
  - bool_prop. apply (wp_step_some _ _ (fun r => MkMachine r.2 C)). wp_step.
    apply (wp_mono _ _ (fun _ s' => Inv (MkMachine s' C))); [|intros r s' HI'; by apply irq_exit_Inv].
    destruct c; simpl in *; [apply sem_post_Inv|apply event_signal_Inv]; done.
  - bool_prop. apply (wp_step_some _ _ (fun r => MkMachine r.2 C)). by apply tick_Inv.
  - eexists. split; [done|]. by apply advance_Inv.
Qed.

End KernelInv.
