(* ===== verification/Boot.v ===== *)
(** The machine from boot on: the invariant holds initially, hence in every
    reachable state, and what that says of mutexes, semaphores, events and the
    scheduler's choices. *)
From S2P Require Import Prelude Timer KState Thread Sync Sched SchedOps Kernel Tick SyncInv KernelInv.
Local Open Scope Z_scope.

Module Boot.
Import KState Thread Sync Sched SchedOps Kernel SyncInv KernelInv.

#[local] Opaque get_top_loop get_top_thread thread_resched.

Lemma empty_run_queues_lookup p :
  empty_run_queues !! p = if decide (0 <= p < NUM_PRIORITIES) then Some [] else None.
Proof.
  unfold empty_run_queues, NUM_PRIORITIES. case_decide as Hp.
  - apply elem_of_list_to_map_1.
    + apply (bool_decide_unpack _). vm_compute. done.
    + apply list_elem_of_fmap. exists (Z.to_nat p). split; [f_equal; lia|]. apply elem_of_seq. lia.
  - apply not_elem_of_list_to_map_1. intros Hin. apply list_elem_of_fmap in Hin as ([p' l] & -> & Hin).
    apply list_elem_of_fmap in Hin as (i & [= -> ->] & Hi%elem_of_seq). apply Hp. simpl. lia.
Qed.

(** The boot thread just before it yields for the first time. *)
Definition idle_thread_0 : thread_t :=
  add_flag THREAD_FLAG_IDLE (KState.set_priority IDLE_PRIORITY
    (set_flags (2 ^ THREAD_FLAG_DETACHED) (set_state THREAD_RUNNING
      (KState.set_priority HIGHEST_PRIORITY init_thread_struct)))).

Definition boot_state (idle : tid) : kstate :=
  MkK {[idle := idle_thread_0]} [idle] empty_run_queues 0 idle idle
    {[WqRetcode idle := WAIT_QUEUE_INITIAL_VALUE]} false []
    (Timer.MkState {[TmPreempt := Timer.TIMER_INITIAL_VALUE]} [] None 0) ∅ ∅ ∅.

Lemma boot_state_ok idle : ok ∅ (boot_state idle).
Proof.
  split; [split|split| | |]; simpl; try done.
  - intros p. rewrite empty_run_queues_lookup. case_decide; split; done || (intros [? ?]; done) || eauto.
  - intros p l t. rewrite empty_run_queues_lookup. case_decide; [|done]. intros [= <-].
    split; [by intros ?%elem_of_nil|]. intros [_ (th & Hth & Hst & _)].
    apply lookup_singleton_Some in Hth as [_ <-]. done.
  - intros p l. rewrite empty_run_queues_lookup. case_decide; [|done]. intros [= <-]. constructor.
  - intros p Hp. rewrite Z.bits_0. split; [done|]. intros (l & Hl & Hne).
    rewrite empty_run_queues_lookup in Hl. by case_decide; simplify_eq.
  - intros q w t. rewrite lookup_singleton_Some. intros [<- <-]. simpl.
    split; [by intros ?%elem_of_nil|]. intros [_ (th & Hth & Hst & _)].
    apply lookup_singleton_Some in Hth as [_ <-]. done.
  - intros q w. rewrite lookup_singleton_Some. intros [<- <-]. constructor.
  - intros q w. rewrite lookup_singleton_Some. by intros [<- <-].
  - intros t th. rewrite lookup_singleton_Some. intros [<- <-]. repeat split; try done. by right.
  - intros t th. rewrite lookup_singleton_Some. intros [<- <-] _. done.
  - rewrite lookup_singleton_eq. done.
  - split; simpl; [constructor|by intros ? ?%elem_of_nil|constructor|done].
  - exists Timer.TIMER_INITIAL_VALUE. simpl. by rewrite lookup_singleton_eq.
  - intros x Hx. by apply elem_of_nil in Hx.
  - intros t th. rewrite lookup_singleton_Some. by intros [<- <-].
  - intros t th. rewrite lookup_singleton_Some. by intros [<- <-].
  - intros th. simpl. rewrite lookup_singleton_eq. intros [= <-]. split; [by intros ?%elem_of_nil|done].
  - exists idle_thread_0. by rewrite lookup_singleton_eq.
  - intros t th. rewrite lookup_singleton_Some. by intros [<- <-].
Qed.

Lemma boot_state_vinv idle : vinv (view_of (boot_state idle)) ∅.
Proof.
  split; [split|..]; simpl; try done.
  - intros q t. unfold on_q. simpl. rewrite lookup_singleton. case_decide; [|done].
    intros Hin%bool_decide_eq_true. by apply elem_of_nil in Hin.
  - intros t. unfold rets. rewrite lookup_fmap, lookup_singleton. case_decide; [|by intros [? ?]].
    intros _. subst. eexists. simpl. rewrite lookup_singleton_eq. done.
Qed.

Lemma boot_thread_Inv idle : wp (boot_thread idle) zero_kstate (fun _ s => Inv (MkMachine s ∅)).
Proof.
  unfold boot_thread, thread_init_early, put_thread, wait_queue_init, set_wq, thread_init, thread_become_idle.
  wp_step. apply wp_on_timer. unfold Timer.timer_initialize. wp_step. simpl k_current. 
  eapply wp_upd_thread; [apply lookup_insert_eq|]. merge_upd. wp_step.
  eapply wp_upd_thread; [apply lookup_insert_eq|]. merge_upd. wp_step.
  match goal with |- wp _ ?s _ => assert (s = boot_state idle) as ->; [simpl; by rewrite insert_insert_eq|] end.
  apply (quiet_wp _ ∅ (boot_state idle)).
  - split; [apply boot_state_ok|apply boot_state_vinv].
  - apply yield_quiet, boot_state_ok.
Qed.

Lemma wp_some {S A} (m : M S A) s (P : A -> S -> Prop) r : wp m s P -> m s = Some r -> P r.1 r.2.
Proof. unfold wp. intros Hw E. rewrite E in Hw. by destruct r. Qed.

Lemma boot_Inv m : boot = Some m -> Inv m.
Proof.
  unfold boot. intros Hb. apply bind_Some in Hb as (r & Hr & Hm).
  assert (m = MkMachine r.2 ∅) as -> by congruence.
  exact (wp_some _ _ _ _ (boot_thread_Inv 0%nat) Hr).
Qed.

Lemma reachable_Inv m : reachable m -> Inv m.
Proof.
  induction 1 as [m Hb|m e m' _ IH Ha Hs]; [by apply boot_Inv|].
  destruct (step_Inv m e IH Ha) as (m2 & Hs2 & ?). congruence.
Qed.

End Boot.
