(* ===== verification/SchedSpec.v ===== *)
(** What the scheduler promises: a priority queue of ready threads, first in
    first out within a priority.  The 32 run queues and the bitmap implement it. *)
From Stdlib Require Import Sorted.
From S2P Require Import Prelude Timer KState Thread Sched SchedOps.
Local Open Scope Z_scope.

Module SchedSpec.
Import KState Thread Sched SchedOps.

(** * The specification *)

(** Ready threads in the order they will run, with their priorities. *)
Definition ready_queue : Type := list (Z * tid).

(** Behind the threads of its own priority, or ahead of them. *)
Fixpoint insert_tail (p : Z) (t : tid) (l : ready_queue) : ready_queue :=
  match l with
  | [] => [(p, t)]
  | (p', t') :: l' => if p <=? p' then (p', t') :: insert_tail p t l' else (p, t) :: l
  end.

Fixpoint insert_head (p : Z) (t : tid) (l : ready_queue) : ready_queue :=
  match l with
  | [] => [(p, t)]
  | (p', t') :: l' => if p <? p' then (p', t') :: insert_head p t l' else (p, t) :: l
  end.

(** * The implementation's queues, flattened *)

Definition flat (rq : gmap Z (list tid)) (ps : list Z) : ready_queue :=
  ps ≫= fun p => pair p <$> default [] (rq !! p).

Definition priorities : list Z := reverse (Z.of_nat <$> seq 0 32).

Definition ready (s : kstate) : ready_queue := flat (k_run_queue s) priorities.

Lemma priorities_spec p : p ∈ priorities <-> 0 <= p < NUM_PRIORITIES.
Proof.
  unfold priorities, NUM_PRIORITIES. rewrite elem_of_reverse, list_elem_of_fmap. split.
  - intros (i & -> & Hi%elem_of_seq). lia.
  - intros. exists (Z.to_nat p). split; [lia|]. apply elem_of_seq. lia.
Qed.

Lemma priorities_sorted : StronglySorted Z.gt priorities.
Proof. unfold priorities. simpl. repeat constructor. Qed.

Lemma flat_cons rq p ps : flat rq (p :: ps) = (pair p <$> default [] (rq !! p)) ++ flat rq ps.
Proof. done. Qed.

Lemma flat_insert_ne rq p q ps : p ∉ ps -> flat (<[p := q]> rq) ps = flat rq ps.
Proof.
  induction ps as [|p' ps IH]; [done|]. rewrite not_elem_of_cons. intros [Hne Hn].
  rewrite !flat_cons, IH by done. by rewrite lookup_insert_ne by done.
Qed.

Lemma flat_in rq ps p t : (p, t) ∈ flat rq ps -> p ∈ ps.
Proof.
  induction ps as [|p' ps IH]; [by intros ?%elem_of_nil|]. rewrite flat_cons, elem_of_app.
  intros [Hin|Hin]; [|right; auto]. apply list_elem_of_fmap in Hin as (x & [= <- <-] & _). left.
Qed.

Lemma insert_tail_skip p t q p' l : p <= p' ->
  insert_tail p t ((pair p' <$> q) ++ l) = (pair p' <$> q) ++ insert_tail p t l.
Proof.
  intros Hp. induction q as [|x q IH]; [done|]. simpl. rewrite (proj2 (Z.leb_le _ _)) by done. by f_equal.
Qed.

Lemma insert_head_skip p t q p' l : p < p' ->
  insert_head p t ((pair p' <$> q) ++ l) = (pair p' <$> q) ++ insert_head p t l.
Proof.
  intros Hp. induction q as [|x q IH]; [done|]. simpl. rewrite (proj2 (Z.ltb_lt _ _)) by done. by f_equal.
Qed.

Lemma insert_tail_here p t l : (forall p' t', (p', t') ∈ l -> p' < p) -> insert_tail p t l = (p, t) :: l.
Proof.
  destruct l as [|[p' t'] l]; [done|]. intros Hl. simpl.
  rewrite (proj2 (Z.leb_gt _ _)); [done|]. apply (Hl p' t'). left.
Qed.

Lemma insert_head_here p t l : (forall p' t', (p', t') ∈ l -> p' <= p) -> insert_head p t l = (p, t) :: l.
Proof.
  destruct l as [|[p' t'] l]; [done|]. intros Hl. simpl.
  rewrite (proj2 (Z.ltb_ge _ _)); [done|]. apply (Hl p' t'). left.
Qed.

Section flat.
Context (rq : gmap Z (list tid)) (p : Z) (t : tid) (q : list tid).
Hypothesis Hq : rq !! p = Some q.

Lemma flat_later ps : StronglySorted Z.gt (p :: ps) -> p ∉ ps /\ forall p' t', (p', t') ∈ flat rq ps -> p' < p.
Proof.
  intros Hs. inversion Hs as [|? ? Hs' Hf]; subst. rewrite Forall_forall in Hf. split.
  - intros Hin. specialize (Hf _ Hin). lia.
  - intros p' t' Hin%flat_in. specialize (Hf _ Hin). lia.
Qed.

Lemma flat_insert_tail ps : StronglySorted Z.gt ps -> p ∈ ps ->
    flat (<[p := q ++ [t]]> rq) ps = insert_tail p t (flat rq ps).
Proof.
  induction ps as [|p0 ps IH]; intros Hs Hin; [by apply elem_of_nil in Hin|].
  rewrite !flat_cons. destruct (decide (p0 = p)) as [->|Hne].
  - destruct (flat_later ps Hs) as [Hn Hlt]. rewrite lookup_insert_eq, flat_insert_ne, Hq by done. simpl.
    rewrite insert_tail_skip by lia. rewrite insert_tail_here by done.
    rewrite fmap_app, <- app_assoc. done.
  - apply elem_of_cons in Hin as [?|Hin]; [congruence|]. inversion Hs as [|? ? Hs' Hf]; subst.
    rewrite Forall_forall in Hf. specialize (Hf _ Hin).
    rewrite lookup_insert_ne by done. rewrite insert_tail_skip by lia. by rewrite IH.
Qed.

Lemma flat_insert_head ps : StronglySorted Z.gt ps -> p ∈ ps ->
    flat (<[p := t :: q]> rq) ps = insert_head p t (flat rq ps).
Proof.
  induction ps as [|p0 ps IH]; intros Hs Hin; [by apply elem_of_nil in Hin|].
  rewrite !flat_cons. destruct (decide (p0 = p)) as [->|Hne].
  - destruct (flat_later ps Hs) as [Hn Hlt]. rewrite lookup_insert_eq, flat_insert_ne, Hq by done. simpl.
    rewrite insert_head_here; [done|]. intros p' t' [Hi|Hi]%elem_of_app.
    + apply list_elem_of_fmap in Hi as (? & [= -> ->] & _). lia.
    + specialize (Hlt _ _ Hi). lia.
  - apply elem_of_cons in Hin as [?|Hin]; [congruence|]. inversion Hs as [|? ? Hs' Hf]; subst.
    rewrite Forall_forall in Hf. specialize (Hf _ Hin).
    rewrite lookup_insert_ne by done. rewrite insert_head_skip by lia. by rewrite IH.
Qed.

(** The best thread is the first. *)
Lemma flat_take ps l : StronglySorted Z.gt ps -> p ∈ ps -> q = t :: l ->
    (forall p' l', p' ∈ ps -> rq !! p' = Some l' -> l' ≠ [] -> p' <= p) ->
    flat rq ps = (p, t) :: flat (<[p := l]> rq) ps.
Proof.
  intros Hs Hin El Hmax. induction ps as [|p0 ps IH]; [by apply elem_of_nil in Hin|].
  rewrite !flat_cons. destruct (decide (p0 = p)) as [->|Hne].
  - destruct (flat_later ps Hs) as [Hn Hlt]. rewrite lookup_insert_eq, flat_insert_ne, Hq by done.
    by rewrite El.
  - apply elem_of_cons in Hin as [?|Hin]; [congruence|]. inversion Hs as [|? ? Hs' Hf]; subst.
    rewrite Forall_forall in Hf. pose proof (Hf _ Hin).
    assert (default [] (rq !! p0) = []) as E0.
    { destruct (rq !! p0) as [l0|] eqn:E; [|done]. simpl. destruct (decide (l0 = [])); [done|].
      pose proof (Hmax p0 l0 ltac:(left) E ltac:(done)). lia. }
    rewrite lookup_insert_ne, E0 by done. simpl. apply IH; [done|done|].
    intros p' l' ? . apply Hmax. by right.
Qed.
End flat.

Lemma flat_empty rq ps : (forall p l, p ∈ ps -> rq !! p = Some l -> l = []) -> flat rq ps = [].
Proof.
  induction ps as [|p ps IH]; intros He; [done|]. rewrite flat_cons, IH.
  - destruct (rq !! p) as [l|] eqn:E; [|done]. by rewrite (He p l ltac:(left) E).
  - intros p' l ?. apply He. by right.
Qed.

#[local] Opaque priorities flat.

(** * Refinement *)

Section refinement.
Context (pend : gmap tid bool).

Lemma rq_prio s p l : SINV ∅ s -> k_run_queue s !! p = Some l -> p ∈ priorities.
Proof. intros Hs Hl. apply priorities_spec. apply (si_rq_dom _ _ _ _ _ _ Hs). eauto. Qed.

(** A reschedule takes the first ready thread, and the idle thread when there
    is none. *)
Lemma picked_ready s s' : SINV ∅ s -> picked s s' ->
    (ready s = [] /\ k_current s' = k_idle_thread s /\ ready s' = []) \/
    exists p, ready s = (p, k_current s') :: ready s'.
Proof.
  intros Hs [(Hc & He & Hr)|(p & l & [Hp Hmax] & Hr)].
  - left. assert (ready s = []) as E; [|unfold ready in *; by rewrite Hr].
    apply flat_empty. intros p l _. apply He.
  - right. exists p. unfold ready. rewrite Hr.
    apply (flat_take _ _ _ _ Hp _ l); [apply priorities_sorted|by eapply rq_prio|done|].
    intros p' l' _. apply Hmax.
Qed.

Lemma ready_requeued_tail s th' l : SINV ∅ s -> k_run_queue s !! priority th' = Some l ->
    ready (requeued s th' (l ++ [k_current s])) = insert_tail (priority th') (k_current s) (ready s).
Proof.
  intros Hs Hl.
  exact (flat_insert_tail _ _ (k_current s) _ Hl _ priorities_sorted (rq_prio _ _ _ Hs Hl)).
Qed.

Lemma ready_requeued_head s th' l : SINV ∅ s -> k_run_queue s !! priority th' = Some l ->
    ready (requeued s th' (k_current s :: l)) = insert_head (priority th') (k_current s) (ready s).
Proof.
  intros Hs Hl.
  exact (flat_insert_head _ _ (k_current s) _ Hl _ priorities_sorted (rq_prio _ _ _ Hs Hl)).
Qed.

Lemma insert_tail_nonempty p t l : insert_tail p t l ≠ [].
Proof. destruct l as [|[? ?] ?]; simpl; [done|]. by case_if. Qed.
Lemma insert_head_nonempty p t l : insert_head p t l ≠ [].
Proof. destruct l as [|[? ?] ?]; simpl; [done|]. by case_if. Qed.

(** The next thread is the first of [l], which becomes the ready queue. *)
Definition runs_first (l : ready_queue) (idle : tid) (s' : kstate) : Prop :=
    match l with
    | [] => k_current s' = idle /\ ready s' = []
    | (_, t) :: l' => k_current s' = t /\ ready s' = l'
    end.

Lemma rescheduled_first s s' : rescheduled pend s s' -> runs_first (ready s) (k_idle_thread s) s'.
Proof.
  intros (Hpre & _ & _ & Hp). destruct (picked_ready s s') as [(-> & ? & ?)|[p ->]]; [apply Hpre|done|done|done].
Qed.

Lemma yield_first s th : ok pend s -> k_threads s !! k_current s = Some th ->
    wp thread_yield s (fun _ s' =>
      runs_first (if thread_is_idle th then ready s else insert_tail (priority th) (k_current s) (ready s))
        (k_idle_thread s) s').
Proof.
  intros Hok Hth. eapply wp_mono; [by eapply thread_yield_spec|]. intros [] s'. simpl.
  destruct (thread_is_idle th); [intros Hr; by apply rescheduled_first in Hr|].
  intros (l & Hl & Hr). apply rescheduled_first in Hr.
  rewrite ready_requeued_tail in Hr by (apply Hok || done). exact Hr.
Qed.

Lemma preempt_first s th : ok pend s -> k_threads s !! k_current s = Some th ->
    wp thread_preempt s (fun _ s' =>
      runs_first (if thread_is_idle th then ready s
                  else if 0 <? remaining_quantum th
                       then insert_head (priority th) (k_current s) (ready s)
                       else insert_tail (priority th) (k_current s) (ready s))
        (k_idle_thread s) s').
Proof.
  intros Hok Hth. eapply wp_mono; [by eapply thread_preempt_spec|]. intros [] s'. simpl.
  destruct (thread_is_idle th); [intros Hr; by apply rescheduled_first in Hr|].
  intros (l & Hl & Hr). apply rescheduled_first in Hr. case_if.
  - rewrite ready_requeued_head in Hr by (apply Hok || done). exact Hr.
  - rewrite ready_requeued_tail in Hr by (apply Hok || done). exact Hr.
Qed.

Lemma set_priority_first s p : ok pend s -> k_current s ≠ k_idle_thread s ->
    wp (thread_set_priority p) s (fun _ s' =>
      runs_first (insert_head (clamp_priority p) (k_current s) (ready s)) (k_idle_thread s) s').
Proof.
  intros Hok Hi. destruct (ok_current _ _ Hok) as (th & Hth & _).
  eapply wp_mono; [by eapply thread_set_priority_spec|]. intros [] s' (l & Hl & Hr).
  apply rescheduled_first in Hr. rewrite ready_requeued_head in Hr by (apply Hok || done). exact Hr.
Qed.
End refinement.

End SchedSpec.
