(* ===== verification/KernelProps.v ===== *)
(** What the invariant means for programs: every run obeying the rules of use
    is free of failed assertions, threads are scheduled by priority and in
    turn, mutexes exclude, semaphores and events keep count, timers fire when due.
    It also exhibits a run that loses a wake-up. *)
From S2P Require Import Prelude Timer KState Thread Sync Sched SchedOps SchedSpec Kernel Tick SyncInv KernelInv Boot.
Local Open Scope Z_scope.

Module KernelProps.
Import KState Thread Sync Sched SchedOps SchedSpec Kernel Tick SyncInv KernelInv Boot.

(** * Runs from boot *)

Lemma run_reachable m es m' : reachable m -> legal m es = true -> run m es = Some m' -> reachable m'.
Proof.
  revert m. induction es as [|e es IH]; intros m Hr Hl He; simpl in *; [by simplify_eq|].
  apply andb_true_iff in Hl as [Ha Hl]. destruct (step m e) as [m1|] eqn:Hs; [|done].
  simpl in He. eapply IH; [by eapply reachable_step|done|done].
Qed.

(** The machine after the events [es] from boot, when they are allowed and it
    passes the test [P]. *)
Definition run_from_boot (es : list event) (P : machine -> bool) : bool :=
  match boot with
  | Some m => legal m es && match run m es with Some m' => P m' | None => false end
  | None => false
  end.

Lemma run_from_boot_reachable es P : run_from_boot es P = true -> exists m, reachable m /\ P m = true.
Proof.
  unfold run_from_boot. destruct boot as [m|] eqn:Hb; [|done]. intros [Hl Hr]%andb_true_iff.
  destruct (run m es) as [m'|] eqn:He; [|done]. exists m'. split; [|done].
  eapply run_reachable; [by apply reachable_boot|done|done].
Qed.

(** Thread 1 creates thread 2, both of priority 10, and yields to it. *)
Definition start (t : tid) (p : Z) : list event :=
  [ECall (CThreadCreate t 0 0 p 1 4096 0); ECall (CThreadResume t)].
Definition two_threads : list event := start 1 10 ++ start 2 10.

(** * Safety *)

(** C1. From every state reachable from boot, every event the rules of use allow runs to the
    end without a failed assertion, a null dereference or an endless loop, and keeps the
    kernel invariant: run queues, wait queues and the timer queue agree with the states of
    the threads, the bitmap with the queues, the counts with the waiters. The events:
    thread_create, resume, yield, sleep, exit, set_priority, set_real_time; mutex_init,
    acquire_timeout, release; sem_init, post, wait, trywait, timedwait; event_init,
    wait_timeout, signal, unsignal; a blocked call going on; an interrupt that posts or
    signals; the timer tick; the clock. Not among them: thread_join, detach, block,
    unblock, destroy calls, direct wait_queue_* calls. The rules: objects exist and are
    initialised once, priorities of new threads below 32, semaphore counts stay in int, a
    mutex is released by its holder and not taken twice, the idle thread makes no call
    that blocks, reschedules or ends it, delays are below 2^31, ticks not that late. *)
Theorem kernel_step_safe m e :
  reachable m -> allowed m e = true -> exists m', step m e = Some m' /\ Inv m'.
Proof. intros Hr Ha. by apply step_Inv; [apply reachable_Inv|]. Qed.

Lemma kernel_step_safe_witness :
  exists m, reachable m /\ allowed m (ECall CThreadYield) = true /\
    exists m', step m (ECall CThreadYield) = Some m' /\ Inv m'.
Proof.
  destruct (run_from_boot_reachable two_threads (fun m => allowed m (ECall CThreadYield)))
    as (m & Hr & Ha); [vm_compute; reflexivity|].
  exists m. split; [exact Hr|]. split; [exact Ha|]. exact (kernel_step_safe m _ Hr Ha).
Defined.

(** The boot sequence (thread_init_early, thread_init, thread_become_idle) runs without a
    failed assertion and establishes the kernel invariant. *)
Theorem boot_safe : exists m, boot = Some m /\ Inv m.
Proof.
  destruct boot as [m|] eqn:Hb; [|by vm_compute in Hb]. exists m. split; [done|]. by apply boot_Inv.
Qed.

(** * Mutexes *)

(** C2. In every reachable state the count of a mutex is the number of its holder (0 or 1) and
    of the threads inside mutex_acquire, and at most one thread holds the mutex or has
    been handed it: mutual exclusion, waiting threads that were granted the lock and have
    not run yet included. *)
Theorem mutex_exclusion m i x :
  reachable m -> k_mutexes (kernel m) !! i = Some x ->
  m_count x = held x + cnt (acquiring i) (conts m) /\
  held x + cnt (granted (view_of (kernel m)) i) (conts m) <= 1.
Proof.
  intros Hr Hx. destruct (reachable_Inv m Hr) as [_ Hv].
  destruct (vi_mutex _ _ _ _ Hv i x Hx) as (_ & _ & Hc & Hle). unfold zero in Hc. split; [lia|done].
Qed.

(** Thread 1 takes the mutex and sleeps; thread 2 waits for it; thread 1 wakes up. *)
Definition contended : list event :=
  start 1 20 ++ [ECall (CMutexInit 0)] ++ start 2 10 ++
  [ECall (CMutexAcquireTimeout 0 INFINITE_TIME); ECall (CThreadSleep 5);
   ECall (CMutexAcquireTimeout 0 INFINITE_TIME); EAdvance 5; ETick].

Definition holds (i : nat) (t : tid) (m : machine) : bool :=
  match k_mutexes (kernel m) !! i with Some x => bool_decide (m_holder x = Some t) | None => false end.

Lemma mutex_exclusion_witness : exists m x, reachable m /\ k_mutexes (kernel m) !! 0%nat = Some x /\
  m_holder x = Some 1%nat /\
  m_count x = held x + cnt (acquiring 0) (conts m) /\
  held x + cnt (granted (view_of (kernel m)) 0) (conts m) <= 1.
Proof.
  destruct (run_from_boot_reachable contended (holds 0 1)) as (m & Hr & Hh); [vm_compute; reflexivity|].
  unfold holds in Hh. destruct (k_mutexes (kernel m) !! 0%nat) as [x|] eqn:Hx; [|discriminate Hh].
  apply bool_decide_eq_true in Hh. exists m, x. split; [exact Hr|]. split; [exact Hx|]. split; [exact Hh|].
  exact (mutex_exclusion m 0 x Hr Hx).
Defined.

Definition head_of (q : wqid) (s : kstate) : option (tid * list tid) :=
  match k_wait_queues s !! q with
  | Some w => match wq_list w with [] => None | t :: l => Some (t, l) end
  | None => None
  end.

(** C3. mutex_release by its holder, when threads wait, takes the first waiter off the wait
    queue, sets its wait result to NO_ERROR and leaves the mutex without a holder:
    ownership goes to the thread that has waited longest. *)
Theorem mutex_release_hands_over m i t l :
  reachable m -> allowed m (ECall (CMutexRelease i)) = true ->
  head_of (WqMutex i) (kernel m) = Some (t, l) ->
  exists m' w', step m (ECall (CMutexRelease i)) = Some m' /\
    k_wait_queues (kernel m') !! WqMutex i = Some w' /\ wq_list w' = l /\
    option_map wait_queue_block_ret (k_threads (kernel m') !! t) = Some NO_ERROR /\
    option_map m_holder (k_mutexes (kernel m') !! i) = Some None.
Proof.
  intros Hr Ha Hh. destruct (reachable_Inv m Hr) as [Hok Hv]. destruct m as [s C]. simpl in *.
  unfold head_of in Hh. destruct (k_wait_queues s !! WqMutex i) as [w|] eqn:Hw; [|done].
  destruct (wq_list w) as [|t' l'] eqn:El; [done|]. injection Hh as <- <-.
  apply andb_true_iff in Ha as [_ Ha]. apply andb_true_iff in Ha as [Hi Hx].
  apply negb_true_iff, is_idle_false in Hi. destruct (k_mutexes s !! i) as [x|] eqn:Ex; [|done].
  apply bool_decide_eq_true in Hx.
  destruct (vi_mutex _ _ _ _ Hv i x Ex) as (Hm & (w0 & Hw0 & Hwm) & Hcount & Hheld).
  simpl in Hw0. simplify_eq. unfold held, zero in Hcount. rewrite Hx in Hcount. simpl in Hcount.
  assert (1 <= cnt (acquiring i) C) as Hpos.
  { destruct (b_wait _ _ (vi_base _ _ _ _ Hv) (WqMutex i) t') as (fs & Hfs & Hwo).
    - unfold on_q. simpl. rewrite Hw, El. apply bool_decide_eq_true. left.
    - pose proof (ind_le_cnt (acquiring i) C t') as Hle. unfold ind in Hle.
      rewrite Hfs in Hle. unfold acquiring in Hle at 1. by rewrite Hwo in Hle. }
  assert (wp (done (mutex_release i)) s (fun o s' => o = Done NO_ERROR /\ view_of s' =
    wake_view (WqMutex i) w t' l' NO_ERROR
      (v_with_mutexes (<[i := MkMutex (m_magic x) None (m_count x - 1)]> (k_mutexes s)) (view_of s)))) as Hwp.
  { unfold Kernel.done, mutex_release, mutex_at, set_mutex. wp_step. exists x. split; [done|]. wp_step.
    rewrite Hm. split; [done|]. split; [by apply bool_decide_eq_true_2|].
    rewrite (proj2 (Z.leb_le _ _)) by lia. cbn [when]. wp_step.
    eapply wp_mono; [eapply (wake_one_spec (pend_of C) _ (WqMutex i) w true); [by apply ok_mutexes|done|done|done]|].
    rewrite El. intros r s' (_ & _ & Hv' & _). wp_step. split; [done|]. by rewrite Hv'. }
  apply wp_run in Hwp as (o & s' & Hrun & -> & Hv').
  eexists (MkMachine s' C), _. split; [unfold step; simpl; by rewrite Hrun|].
  simpl. assert (k_wait_queues s' = v_wq (view_of s')) as -> by done. rewrite Hv'. simpl.
  rewrite lookup_insert_eq. split; [done|]. split; [done|]. split.
  - assert (rets (k_threads s') !! t' = Some NO_ERROR) as Hret.
    { change (v_ret (view_of s') !! t' = Some NO_ERROR). rewrite Hv'. simpl. by rewrite lookup_insert_eq. }
    unfold rets in Hret. by rewrite lookup_fmap in Hret.
  - assert (k_mutexes s' = v_mutexes (view_of s')) as -> by done. rewrite Hv'. simpl.
    by rewrite lookup_insert_eq.
Qed.

Lemma mutex_release_hands_over_witness : exists m, reachable m /\
  allowed m (ECall (CMutexRelease 0)) = true /\ head_of (WqMutex 0) (kernel m) = Some (2%nat, []) /\
  exists m' w', step m (ECall (CMutexRelease 0)) = Some m' /\
    k_wait_queues (kernel m') !! WqMutex 0 = Some w' /\ wq_list w' = [] /\
    option_map wait_queue_block_ret (k_threads (kernel m') !! 2%nat) = Some NO_ERROR /\
    option_map m_holder (k_mutexes (kernel m') !! 0%nat) = Some None.
Proof.
  destruct (run_from_boot_reachable contended (fun m => allowed m (ECall (CMutexRelease 0)) &&
    bool_decide (head_of (WqMutex 0) (kernel m) = Some (2%nat, [])))) as (m & Hr & Hc); [vm_compute; reflexivity|].
  apply andb_true_iff in Hc as [Ha Hh]. apply bool_decide_eq_true in Hh.
  exists m. split; [exact Hr|]. split; [exact Ha|]. split; [exact Hh|].
  exact (mutex_release_hands_over m 0 2%nat [] Hr Ha Hh).
Defined.

(** The mutex is free when the thread it was handed to comes to take it. *)
Lemma handover_wp s C b i : Inv (MkMachine s C) ->
  C !! k_current s = Some [FWaitQueueBlock b; FMutexAcquire i] ->
  rets (k_threads s) !! k_current s = Some NO_ERROR ->
  exists x, k_mutexes s !! i = Some x /\ m_holder x = None /\
  wp (run_frames [FWaitQueueBlock b; FMutexAcquire i] NO_ERROR) s (fun r s' => r = NO_ERROR /\
    option_map m_holder (k_mutexes s' !! i) = Some (Some (k_current s)) /\ k_current s' = k_current s).
Proof.
  intros [Hok Hv] Hfs Hret. simpl in *.
  destruct (b_frames _ _ (vi_base _ _ _ _ Hv) _ _ Hfs) as [x Hx]. simpl in Hx. exists x. split; [done|].
  assert (m_holder x = None) as Hn.
  { destruct (vi_mutex _ _ _ _ Hv i x Hx) as (_ & _ & _ & Hle).
    pose proof (ind_le_cnt (granted (view_of s) i) C (k_current s)) as Hge. unfold ind in Hge. rewrite Hfs in Hge.
    unfold granted in Hge at 1. rewrite (current_off_q (pend_of C)) in Hge by done.
    change (v_ret (view_of s)) with (rets (k_threads s)) in Hge. rewrite Hret in Hge. simpl in Hge.
    rewrite !bool_decide_eq_true_2 in Hge by done. unfold held in Hle. destruct (m_holder x); [|done]. simpl in Hge. lia. }
  split; [done|]. cbn [run_frames run_frame]. wp_step.
  eapply wp_mono; [apply (wait_queue_block_resumed_spec (pend_of C)); [done|]|].
  { unfold pend_of. by rewrite lookup_omap, Hfs. }
  intros r s1 (Hr & _ & Hc & Hview). rewrite Hret in Hr. injection Hr as <-.
  unfold mutex_acquire_resumed, mutex_at, set_mutex. cbn [Z.ltb NO_ERROR Z.compare]. wp_step.
  assert (k_mutexes s1 = k_mutexes s) as Hm by exact (f_equal v_mutexes Hview).
  exists x. rewrite Hm. split; [done|]. wp_step. split; [done|]. split; [|done].
  simpl. rewrite lookup_insert_eq. simpl. by rewrite Hc.
Qed.

(** C23. A thread that resumes inside mutex_acquire with the result NO_ERROR finds the mutex
    free, becomes its holder and returns from the call. *)
Theorem mutex_handover m b i :
  reachable m ->
  conts m !! k_current (kernel m) = Some [FWaitQueueBlock b; FMutexAcquire i] ->
  rets (k_threads (kernel m)) !! k_current (kernel m) = Some NO_ERROR ->
  option_map m_holder (k_mutexes (kernel m) !! i) = Some None /\
  exists m', step m EResume = Some m' /\ k_current (kernel m') = k_current (kernel m) /\
    conts m' !! k_current (kernel m) = None /\
    option_map m_holder (k_mutexes (kernel m') !! i) = Some (Some (k_current (kernel m))).
Proof.
  intros Hr Hfs Hret. pose proof (reachable_Inv m Hr) as HI. destruct m as [s C]. cbn [kernel conts] in *.
  destruct (handover_wp s C b i HI Hfs Hret) as (x & Hx & Hn & Hwp). rewrite Hx. simpl. split; [by rewrite Hn|].
  apply wp_run in Hwp as (r & s' & Hrun & _ & Hh & Hc). eexists. unfold step. cbn [kernel conts].
  rewrite Hfs. cbn [mbind option_bind]. rewrite Hrun. split; [done|]. cbn [kernel conts snd].
  split; [done|]. split; [by rewrite lookup_delete_eq|done].
Qed.

(** Thread 1 released the mutex and went back to sleep; thread 2 is scheduled. *)
Definition handed_over : list event := contended ++ [ECall (CMutexRelease 0); ECall (CThreadSleep 100)].

Lemma mutex_handover_witness : exists m b, reachable m /\
  conts m !! k_current (kernel m) = Some [FWaitQueueBlock b; FMutexAcquire 0] /\
  rets (k_threads (kernel m)) !! k_current (kernel m) = Some NO_ERROR /\
  option_map m_holder (k_mutexes (kernel m) !! 0%nat) = Some None /\
  exists m', step m EResume = Some m' /\ k_current (kernel m') = k_current (kernel m) /\
    conts m' !! k_current (kernel m) = None /\
    option_map m_holder (k_mutexes (kernel m') !! 0%nat) = Some (Some (k_current (kernel m))).
Proof.
  destruct (run_from_boot_reachable handed_over (fun m =>
    bool_decide (conts m !! k_current (kernel m) = Some [FWaitQueueBlock false; FMutexAcquire 0]) &&
    bool_decide (rets (k_threads (kernel m)) !! k_current (kernel m) = Some NO_ERROR)))
    as (m & Hr & Hc); [vm_compute; reflexivity|].
  apply andb_true_iff in Hc as [H1 H2]. apply bool_decide_eq_true in H1, H2.
  exists m, false. split; [exact Hr|]. split; [exact H1|]. split; [exact H2|].
  exact (mutex_handover m false 0 Hr H1 H2).
Defined.

(** * Semaphores and events *)

(** The count of semaphore [i] and the threads on its wait queue, and the result
    the wait of thread [t] has been handed. *)
Definition sem_of (s : kstate) (i : nat) : option (Z * list tid) :=
  x ← k_semaphores s !! i; w ← k_wait_queues s !! WqSem i; Some (s_count x, wq_list w).
Definition result_of (s : kstate) (t : tid) : option Z := wait_queue_block_ret <$> k_threads s !! t.

(** Semaphore [i] gets count [n] and queue [q], the others keep theirs. *)
Definition sem_becomes (s : kstate) (i : nat) (n : Z) (q : list tid) (s' : kstate) : Prop :=
  forall j, sem_of s' j = if decide (j = i) then Some (n, q) else sem_of s j.

Lemma sem_of_inv s i n q : sem_of s i = Some (n, q) -> exists x w, k_semaphores s !! i = Some x /\
  k_wait_queues s !! WqSem i = Some w /\ s_count x = n /\ wq_list w = q.
Proof.
  unfold sem_of. destruct (k_semaphores s !! i) as [x|]; [|done]. simpl.
  destruct (k_wait_queues s !! WqSem i) as [w|]; [|done]. simpl. intros [= <- <-]. by exists x, w.
Qed.

(** The semaphores after one record and one queue were set. *)
Lemma sem_becomes_set s s' i x w : k_semaphores s' = <[i := x]> (k_semaphores s) ->
  k_wait_queues s' = <[WqSem i := w]> (k_wait_queues s) ->
  sem_becomes s i (s_count x) (wq_list w) s'.
Proof.
  intros Hx Hw j. unfold sem_of. rewrite Hx, Hw, !lookup_insert.
  destruct (decide (j = i)) as [->|Hj]; [by rewrite !decide_True by done|by rewrite !decide_False by congruence].
Qed.

(** ... or the record alone. *)
Lemma sem_becomes_count s s' i x w : k_semaphores s' = <[i := x]> (k_semaphores s) ->
  k_wait_queues s' = k_wait_queues s -> k_wait_queues s !! WqSem i = Some w ->
  sem_becomes s i (s_count x) (wq_list w) s'.
Proof. intros Hx Hw Hi. apply sem_becomes_set; [done|]. by rewrite Hw, insert_id. Qed.

(** What a wait on a semaphore with count [n] and queue [q] does: it takes a unit
    and returns, or the caller joins the end of the queue. *)
Definition sem_waited (m : machine) (i : nat) (n : Z) (q : list tid) (fs : list frame)
    (o : outcome) (s' : kstate) : Prop :=
  let s := kernel m in
  if 0 <? n then o = Done NO_ERROR /\ sem_becomes s i (n - 1) q s'
  else o = Switched fs /\ sem_becomes s i (n - 1) (q ++ [k_current s]) s'.

Definition sem_posted (s : kstate) (i : nat) (n : Z) (q : list tid) (r : Z) (s' : kstate) : Prop :=
  match (if n <? 0 then q else []) with
  | [] => r = 0 /\ sem_becomes s i (n + 1) q s'
  | t :: l => r = 1 /\ sem_becomes s i (n + 1) l s' /\ result_of s' t = Some NO_ERROR
  end.

(** Call [c], when it is allowed, returns to the machine with an outcome and a state that [P] holds of. *)
Definition answers (m : machine) (c : call) (P : outcome -> kstate -> Prop) : Prop :=
  allowed m (ECall c) = true -> exists o s', run_call c (kernel m) = Some (o, s') /\ P o s'.

Section semaphore.
Context (s : kstate) (C : gmap tid (list frame)) (i : nat) (n : Z) (q : list tid).
Hypothesis HI : Inv (MkMachine s C).
Hypothesis Hs : sem_of s i = Some (n, q).

Lemma sem_known : sem_fits s i = true -> exists x w, k_semaphores s !! i = Some x /\
  k_wait_queues s !! WqSem i = Some w /\ s_count x = n /\ wq_list w = q /\
  wq_magic w = WAIT_QUEUE_MAGIC /\ - 2 ^ 31 < n < 2 ^ 31 - 1.
Proof.
  intros (x & Hx & Hfit)%sem_fits_spec. destruct (sem_of_inv _ _ _ _ Hs) as (x' & w & Hx' & Hw & <- & <-).
  simplify_eq. exists x, w. split_and!; try done; try lia.
  destruct HI as [_ Hv]. destruct (vi_sem _ _ _ _ Hv i x Hx) as ((w' & Hw' & Hm) & _). simpl in Hw'. by simplify_eq.
Qed.

Lemma sem_post_counts b : sem_fits s i = true -> (b = true -> k_current s ≠ k_idle_thread s) ->
  wp (sem_post i b) s (sem_posted s i n q).
Proof.
  intros (x & w & Hx & Hw & Hn & Hq & Hm & Hfit)%sem_known Hb. destruct HI as [Hok _]. simpl in Hok.
  unfold sem_post, sem_at, set_sem, sem_posted. wp_step. exists x. split; [done|]. wp_step.
  rewrite sw_small by lia. rewrite Hn. destruct (Z.leb_spec (n + 1) 0); wp_step.
  - rewrite (proj2 (Z.ltb_lt n 0)) by lia.
    eapply wp_mono; [eapply (wake_one_spec (pend_of C) _ (WqSem i) w b); [by apply ok_semaphores|done|done|done]|].
    rewrite Hq. intros r s' [_ Hr]. destruct q as [|t l].
    + destruct Hr as [-> ->]. split; [done|]. rewrite <- Hq. by eapply (sem_becomes_count s _ i (MkSem _ _)).
    + destruct Hr as (-> & Hv & _). split; [done|]. split.
      * eapply (sem_becomes_set s s' i (MkSem _ _) (MkWq _ l _));
          [exact (f_equal v_semaphores Hv)|exact (f_equal v_wq Hv)].
      * pose proof (f_equal (fun v => v_ret v !! t) Hv) as Ht. simpl in Ht. rewrite lookup_insert_eq in Ht.
        unfold rets in Ht. by rewrite lookup_fmap in Ht.
  - rewrite (proj2 (Z.ltb_ge n 0)) by lia. split; [done|]. rewrite <- Hq.
    by eapply (sem_becomes_count s _ i (MkSem _ _)).
Qed.

Lemma sem_trywait_counts : sem_fits s i = true -> wp (sem_trywait i) s (fun r s' =>
  if n <=? 0 then r = ERR_NOT_READY /\ s' = s else r = NO_ERROR /\ sem_becomes s i (n - 1) q s').
Proof.
  intros (x & w & Hx & Hw & Hn & Hq & Hm & Hfit)%sem_known.
  unfold sem_trywait, sem_at, set_sem. wp_step. exists x. split; [done|]. rewrite Hn. case_if; wp_step; [done|].
  rewrite sw_small by lia. split; [done|]. rewrite <- Hq. by eapply (sem_becomes_count s _ i (MkSem _ _)).
Qed.

(** The wait of a caller that found no unit. *)
Lemma sem_block_counts x w d : C !! k_current s = None -> k_current s ≠ k_idle_thread s ->
  k_wait_queues s !! WqSem i = Some w -> wq_magic w = WAIT_QUEUE_MAGIC -> wq_list w = q -> s_count x = n - 1 ->
  d = INFINITE_TIME \/ delay_ok d ->
  let s1 := with_semaphores (<[i := x]> (k_semaphores s)) s in
  wp (wait_queue_block (WqSem i) d) s1 (fun o s' =>
    if d =? 0 then o = Done ERR_TIMED_OUT /\ s' = s1
    else o = Switched [FWaitQueueBlock (negb (d =? INFINITE_TIME))] /\
      sem_becomes s i (n - 1) (q ++ [k_current s]) s').
Proof.
  intros HC Hi Hw Hm Hq Hn Hd s1. destruct HI as [Hok _]. simpl in Hok.
  eapply wp_mono; [apply (wait_queue_block_spec (pend_of C) s1 (WqSem i) w); try done; [by apply ok_semaphores|by apply pend_of_none]|].
  intros o s' Ho. case_if; [done|]. destruct Ho as (-> & _ & Hv). split; [done|]. rewrite <- Hq, <- Hn.
  eapply (sem_becomes_set s s' i x (MkWq _ (wq_list w ++ [k_current s]) _));
    [exact (f_equal v_semaphores Hv)|exact (f_equal v_wq Hv)].
Qed.

Lemma sem_wait_counts : C !! k_current s = None -> k_current s ≠ k_idle_thread s -> sem_fits s i = true ->
  wp (sem_wait i) s (sem_waited (MkMachine s C) i n q [FWaitQueueBlock false]).
Proof.
  intros HC Hi (x & w & Hx & Hw & Hn & Hq & Hm & Hfit)%sem_known.
  unfold sem_wait, sem_at, set_sem, sem_waited. cbn [kernel]. wp_step. exists x. split; [done|]. wp_step.
  rewrite sw_small by lia. rewrite Hn. destruct (Z.ltb_spec (n - 1) 0); wp_step.
  - rewrite (proj2 (Z.ltb_ge 0 n)) by lia.
    eapply wp_mono; [eapply (sem_block_counts (MkSem _ (n - 1))); try done; by left|]. intros o s' Ho. exact Ho.
  - rewrite (proj2 (Z.ltb_lt 0 n)) by lia. split; [done|]. rewrite <- Hq. by eapply (sem_becomes_count s _ i (MkSem _ _)).
Qed.

Lemma sem_timedwait_counts d : C !! k_current s = None -> k_current s ≠ k_idle_thread s -> sem_fits s i = true ->
  d = INFINITE_TIME \/ delay_ok d ->
  wp (sem_timedwait i d) s (fun o s' =>
    if (n <=? 0) && (d =? 0) then o = Done ERR_TIMED_OUT /\ sem_becomes s i n q s'
    else sem_waited (MkMachine s C) i n q [FWaitQueueBlock (negb (d =? INFINITE_TIME)); FSemTimedWait i] o s').
Proof.
  intros HC Hi (x & w & Hx & Hw & Hn & Hq & Hm & Hfit)%sem_known Hd.
  unfold sem_timedwait, sem_at, set_sem, sem_waited. cbn [kernel]. wp_step. exists x. split; [done|]. wp_step.
  rewrite (sw_small 32 (s_count x - 1)) by lia. rewrite Hn. destruct (Z.ltb_spec (n - 1) 0); wp_step.
  - rewrite (proj2 (Z.ltb_ge 0 n)), (proj2 (Z.leb_le n 0)) by lia. cbn [andb].
    eapply wp_mono; [eapply (sem_block_counts (MkSem _ (n - 1))); done|]. intros o s' Ho.
    destruct (Z.eqb_spec d 0).
    + destruct Ho as [-> ->]. cbn [after_wait]. unfold sem_timedwait_resumed, sem_at, set_sem.
      cbn [Z.ltb NO_ERROR ERR_TIMED_OUT Z.compare Z.eqb Pos.eqb when andb]. wp_step.
      eexists. split; [apply lookup_insert_eq|]. cbn [s_count s_magic]. rewrite sw_small by lia. wp_step. split; [done|].
      rewrite <- Hq. replace (n - 1 + 1) with n by lia. eapply (sem_becomes_count s _ i (MkSem _ n)); try done.
      simpl. by rewrite insert_insert_eq.
    + destruct Ho as [-> Ho]. cbn [after_wait]. wp_step. done.
  - rewrite (proj2 (Z.ltb_lt 0 n)), (proj2 (Z.leb_gt n 0)) by lia. cbn [andb]. split; [done|].
    rewrite <- Hq. by eapply (sem_becomes_count s _ i (MkSem _ _)).
Qed.

Lemma sem_resumed_counts timed : C !! k_current s = Some [FWaitQueueBlock timed; FSemTimedWait i] ->
  sem_fits s i = true ->
  wp (run_frames [FWaitQueueBlock timed; FSemTimedWait i] NO_ERROR) s (fun r s' =>
    result_of s (k_current s) = Some r /\ sem_becomes s i (if r =? ERR_TIMED_OUT then n + 1 else n) q s').
Proof.
  intros HC (x & w & Hx & Hw & Hn & Hq & Hm & Hfit)%sem_known. destruct HI as [Hok Hv]. simpl in Hok, Hv.
  cbn [run_frames run_frame]. wp_step.
  eapply wp_mono; [apply (wait_queue_block_resumed_spec (pend_of C)); [done|]|].
  { unfold pend_of. by rewrite lookup_omap, HC. }
  intros r s1 (Hr & _ & _ & Hview). unfold result_of. unfold rets in Hr. rewrite lookup_fmap in Hr.
  assert (k_semaphores s1 = k_semaphores s) as Hse by exact (f_equal v_semaphores Hview).
  assert (k_wait_queues s1 = k_wait_queues s) as Hwq by exact (f_equal v_wq Hview).
  unfold sem_timedwait_resumed, sem_at, set_sem. wp_step. apply wp_when.
  destruct (Z.eqb_spec r ERR_TIMED_OUT) as [->|Hne].
  - cbn [Z.ltb NO_ERROR ERR_TIMED_OUT Z.compare andb]. wp_step. exists x. rewrite Hse. split; [done|]. wp_step.
    split; [done|]. rewrite sw_small by lia. rewrite Hn, <- Hq.
    eapply (sem_becomes_count s _ i (MkSem _ (n + 1))); [simpl; by rewrite Hse|done|done].
  - rewrite andb_false_r. wp_step. split; [done|].
    rewrite (proj2 (Z.eqb_neq r ERR_TIMED_OUT)) by done. rewrite <- Hn, <- Hq.
    eapply (sem_becomes_count s _ i x); [by rewrite Hse, insert_id|done|done].
Qed.
End semaphore.

(** C4. A semaphore counts exactly. In every reachable state its count plus its waiting
    threads plus those whose wait timed out and who have not put their unit back is never
    negative. sem_post adds one and, when the count was negative, takes the first waiter
    off the queue with NO_ERROR; sem_trywait takes one from a positive count, else returns
    ERR_NOT_READY and changes nothing; sem_wait and sem_timedwait take one and return when
    the count was positive, else the caller joins the end of the queue (with timeout 0,
    sem_timedwait returns ERR_TIMED_OUT and gives the unit back); a sem_timedwait that
    goes on returns its result and, when it timed out, adds one. No call changes another
    semaphore's count or queue. The calls are those the rules of use allow: the count, an
    int, stays inside its range, and the idle thread does not block. *)
Theorem sem_never_overgrants m i n q :
  reachable m -> sem_of (kernel m) i = Some (n, q) ->
  0 <= n + Z.of_nat (length q) + cnt (expired (view_of (kernel m)) i) (conts m) /\
  (forall b, answers m (CSemPost i b) (fun o s' => exists r, o = Done r /\ sem_posted (kernel m) i n q r s')) /\
  answers m (CSemTrywait i) (fun o s' =>
    if n <=? 0 then o = Done ERR_NOT_READY /\ s' = kernel m
    else o = Done NO_ERROR /\ sem_becomes (kernel m) i (n - 1) q s') /\
  answers m (CSemWait i) (sem_waited m i n q [FWaitQueueBlock false]) /\
  (forall d, answers m (CSemTimedwait i d) (fun o s' =>
    if (n <=? 0) && (d =? 0) then o = Done ERR_TIMED_OUT /\ sem_becomes (kernel m) i n q s'
    else sem_waited m i n q [FWaitQueueBlock (negb (d =? INFINITE_TIME)); FSemTimedWait i] o s')) /\
  (forall timed, conts m !! k_current (kernel m) = Some [FWaitQueueBlock timed; FSemTimedWait i] ->
    allowed m EResume = true ->
    exists r s', run_frames [FWaitQueueBlock timed; FSemTimedWait i] NO_ERROR (kernel m) = Some (r, s') /\
      result_of (kernel m) (k_current (kernel m)) = Some r /\
      sem_becomes (kernel m) i (if r =? ERR_TIMED_OUT then n + 1 else n) q s').
Proof.
  intros Hr Hs. pose proof (reachable_Inv m Hr) as HI. destruct m as [s C]. cbn [kernel conts] in *.
  split.
  { destruct (sem_of_inv _ _ _ _ Hs) as (x & w & Hx & Hw & <- & <-). destruct HI as [_ Hv].
    destruct (vi_sem _ _ _ _ Hv i x Hx) as (_ & Hle). unfold zero, waiters in Hle. simpl in Hle. rewrite Hw in Hle.
    simpl. lia. }
  unfold answers, allowed. cbn [kernel conts run_call].
  split_and!.
  - intros b [HC [Hf Hb]%andb_true_iff]%andb_true_iff. apply wp_run. unfold Kernel.done. wp_step.
    eapply wp_mono; [apply (sem_post_counts s C i n q HI Hs b Hf); by apply resched_flag_ok|].
    intros r s' Hp. wp_step. by exists r.
  - intros [HC Hf]%andb_true_iff. apply wp_run. unfold Kernel.done. wp_step.
    eapply wp_mono; [by apply (sem_trywait_counts s C i n q HI Hs)|]. intros r s' Hp. wp_step.
    case_if; destruct Hp as [-> Hp]; done.
  - intros [HC [Hi Hf]%andb_true_iff]%andb_true_iff. apply wp_run. bool_prop.
    apply (sem_wait_counts s C i n q HI Hs); [by apply has_false|by apply is_idle_false|done].
  - intros d [HC [[Hi Hf]%andb_true_iff Hd]%andb_true_iff]%andb_true_iff. apply wp_run. bool_prop.
    apply (sem_timedwait_counts s C i n q HI Hs); [by apply has_false|by apply is_idle_false|done|by apply timeout_okb_spec].
  - intros timed HC [_ Hf]%andb_true_iff. apply wp_run. unfold resume_ok in Hf. cbn [kernel conts] in Hf.
    rewrite HC in Hf. cbn in Hf. rewrite andb_true_r in Hf. by apply (sem_resumed_counts s C i n q HI Hs).
Qed.

(** Two threads wait on a semaphore that was never posted, thread 1 runs. *)
Definition sem_waiters : list event :=
  start 1 20 ++ [ECall (CSemInit 0 0)] ++ start 2 10 ++ start 3 5 ++
  [ECall (CSemTimedwait 0 7); ECall (CSemWait 0)].

Lemma sem_never_overgrants_witness : exists m o s', reachable m /\
  sem_of (kernel m) 0 = Some (-2, [1%nat; 2%nat]) /\ k_current (kernel m) = 3%nat /\
  run_call (CSemPost 0 false) (kernel m) = Some (o, s') /\
  sem_of s' 0 = Some (-1, [2%nat]) /\ result_of s' 1 = Some NO_ERROR.
Proof.
  destruct (run_from_boot_reachable sem_waiters (fun m =>
    bool_decide (sem_of (kernel m) 0 = Some (-2, [1%nat; 2%nat])) && bool_decide (k_current (kernel m) = 3%nat) &&
    allowed m (ECall (CSemPost 0 false)))) as (m & Hr & Hc); [vm_compute; reflexivity|].
  apply andb_true_iff in Hc as [Hc Ha]. apply andb_true_iff in Hc as [Hs Hcur].
  apply bool_decide_eq_true in Hs, Hcur.
  destruct (sem_never_overgrants m 0 (-2) [1%nat; 2%nat] Hr Hs) as (_ & Hpost & _).
  destruct (Hpost false Ha) as (o & s' & Hrun & r & _ & _ & Hb & Hres).
  exists m, o, s'. split; [exact Hr|]. split; [exact Hs|]. split; [exact Hcur|]. split; [exact Hrun|].
  split; [exact (Hb 0%nat)|exact Hres].
Defined.

(** In every reachable state no thread waits on an event that is signaled. *)
Theorem signaled_event_has_no_waiter m i x t :
  reachable m -> k_events (kernel m) !! i = Some x -> e_signaled x = true ->
  on_q (view_of (kernel m)) (WqEvent i) t = false.
Proof.
  intros Hr Hx Hs. destruct (reachable_Inv m Hr) as [_ Hv].
  destruct (vi_event _ _ _ _ Hv i x Hx) as (_ & (w & Hw & _) & Hz). specialize (Hz Hs).
  unfold on_q, waiters in *. rewrite Hw in *. destruct (wq_list w); [|simpl in Hz; lia].
  apply bool_decide_eq_false_2, not_elem_of_nil.
Qed.

(** Thread 2 waits for the event, thread 1 signals it. *)
Definition signaled : list event :=
  start 1 10 ++ [ECall (CEventInit 0 false 0)] ++ start 2 20 ++
  [ECall (CEventWaitTimeout 0 INFINITE_TIME); ECall (CEventSignal 0 false)].

Lemma signaled_event_has_no_waiter_witness : exists m x, reachable m /\
  k_events (kernel m) !! 0%nat = Some x /\ e_signaled x = true /\
  on_q (view_of (kernel m)) (WqEvent 0) 2 = false.
Proof.
  destruct (run_from_boot_reachable signaled (fun m =>
    match k_events (kernel m) !! 0%nat with Some x => e_signaled x | None => false end))
    as (m & Hr & Hc); [vm_compute; reflexivity|].
  destruct (k_events (kernel m) !! 0%nat) as [x|] eqn:Hx; [|discriminate Hc].
  exists m, x. split; [exact Hr|]. split; [exact Hx|]. split; [exact Hc|].
  exact (signaled_event_has_no_waiter m 0 x 2%nat Hr Hx Hc).
Defined.

(** * Scheduling *)

(** C5. thread_yield refines the abstract scheduler, one ready list ordered by priority and by
    arrival: the caller joins behind the ready threads of its priority and the head of the
    list runs, the idle thread when the list is empty; the bitmap and the 32 run queues
    behave as that list. *)
Theorem yield_takes_turns m th :
  reachable m -> conts m !! k_current (kernel m) = None ->
  k_threads (kernel m) !! k_current (kernel m) = Some th ->
  exists m', step m (ECall CThreadYield) = Some m' /\
    runs_first (if thread_is_idle th then ready (kernel m)
                else insert_tail (priority th) (k_current (kernel m)) (ready (kernel m)))
      (k_idle_thread (kernel m)) (kernel m').
Proof.
  intros Hr HC Hth. destruct (reachable_Inv m Hr) as [Hok _].
  pose proof (yield_first _ _ _ Hok Hth) as Hwp. apply wp_run in Hwp as ([] & s' & Hrun & Hp).
  eexists. unfold step. cbn [run_call]. unfold void, mbind, M_bind. rewrite Hrun. split; [done|exact Hp].
Qed.

Definition ready_is (l : ready_queue) (m : machine) : bool :=
  bool_decide (ready (kernel m) = l) && bool_decide (conts m !! k_current (kernel m) = None) &&
  bool_decide (option_map thread_is_idle (k_threads (kernel m) !! k_current (kernel m)) = Some false).

Lemma yield_takes_turns_witness : exists m th, reachable m /\
  ready (kernel m) = [(10, 3%nat); (10, 1%nat)] /\
  exists m', step m (ECall CThreadYield) = Some m' /\
    runs_first (if thread_is_idle th then ready (kernel m)
                else insert_tail (priority th) (k_current (kernel m)) (ready (kernel m)))
      (k_idle_thread (kernel m)) (kernel m').
Proof.
  destruct (run_from_boot_reachable (two_threads ++ start 3 10 ++ [ECall CThreadYield; ECall CThreadYield])
    (ready_is [(10, 3%nat); (10, 1%nat)])) as (m & Hr & Hc); [vm_compute; reflexivity|].
  unfold ready_is in Hc. apply andb_true_iff in Hc as [Hc Hi]. apply andb_true_iff in Hc as [Hq HC].
  apply bool_decide_eq_true in Hq, HC, Hi.
  destruct (k_threads (kernel m) !! k_current (kernel m)) as [th|] eqn:Hth; [|discriminate Hi].
  exists m, th. split; [exact Hr|]. split; [exact Hq|]. exact (yield_takes_turns m th Hr HC Hth).
Defined.

(** C6. thread_preempt refines the abstract scheduler: a thread with quantum left joins ahead
    of the ready threads of its priority, one whose quantum is used up behind them, the
    idle thread does not join; the head of the list runs. *)
Theorem preempt_keeps_place m th :
  reachable m -> k_threads (kernel m) !! k_current (kernel m) = Some th ->
  exists s', thread_preempt (kernel m) = Some (tt, s') /\
    runs_first (if thread_is_idle th then ready (kernel m)
                else if 0 <? remaining_quantum th
                     then insert_head (priority th) (k_current (kernel m)) (ready (kernel m))
                     else insert_tail (priority th) (k_current (kernel m)) (ready (kernel m)))
      (k_idle_thread (kernel m)) s'.
Proof.
  intros Hr Hth. destruct (reachable_Inv m Hr) as [Hok _].
  pose proof (preempt_first _ _ _ Hok Hth) as Hwp. apply wp_run in Hwp as ([] & s' & Hrun & Hp). eauto.
Qed.

Lemma preempt_keeps_place_witness : exists m th s', reachable m /\
  thread_is_idle th = false /\ ready (kernel m) = [(10, 3%nat); (10, 1%nat)] /\
  thread_preempt (kernel m) = Some (tt, s') /\
    runs_first (if thread_is_idle th then ready (kernel m)
                else if 0 <? remaining_quantum th
                     then insert_head (priority th) (k_current (kernel m)) (ready (kernel m))
                     else insert_tail (priority th) (k_current (kernel m)) (ready (kernel m)))
      (k_idle_thread (kernel m)) s'.
Proof.
  destruct (run_from_boot_reachable (two_threads ++ start 3 10 ++ [ECall CThreadYield; ECall CThreadYield])
    (ready_is [(10, 3%nat); (10, 1%nat)])) as (m & Hr & Hc); [vm_compute; reflexivity|].
  unfold ready_is in Hc. apply andb_true_iff in Hc as [Hc Hi]. apply andb_true_iff in Hc as [Hq HC].
  apply bool_decide_eq_true in Hq, HC, Hi.
  destruct (k_threads (kernel m) !! k_current (kernel m)) as [th|] eqn:Hth; [|discriminate Hi].
  destruct (preempt_keeps_place m th Hr Hth) as (s' & Hs & Hf).
  injection Hi as Hi. exists m, th, s'. split; [exact Hr|]. split; [exact Hi|]. split; [exact Hq|].
  split; [exact Hs|exact Hf].
Defined.

(** * The timer interrupt *)

(** [thread_preempt] puts nobody to sleep. *)
Lemma preempt_states pend s : ok pend s ->
  wp thread_preempt s (fun _ s' => forall t th', k_threads s' !! t = Some th' ->
    state th' = THREAD_SLEEPING \/ state th' = THREAD_BLOCKED ->
    exists th, k_threads s !! t = Some th /\ state th = state th').
Proof.
  intros Hok. destruct (ok_current _ _ Hok) as (th & Hth & _).
  eapply wp_mono; [by eapply thread_preempt_spec|]. intros [] s' Hs'. cbn zeta in Hs'.
  assert (exists s1, k_threads s1 = <[k_current s := set_state THREAD_READY th]> (k_threads s) /\
    rescheduled pend s1 s') as (s1 & Hs1 & (_ & _ & Hf & _)).
  { destruct (thread_is_idle th); [|destruct Hs' as (l & _ & Hs')]; eexists; (split; [|exact Hs']); done. }
  destruct (rf_thr _ _ Hf) as (tc & _ & q & ->). rewrite Hs1. intros t th'.
  rewrite lookup_insert. case_decide; [intros [= <-]; simpl; by intros [?|?]|].
  rewrite lookup_insert. case_decide; [intros [= <-]; simpl; by intros [?|?]|]. eauto.
Qed.

(** A thread inside a sleep, or a wait with a timeout, whose time has come. *)
Definition overdue (m : machine) (t : tid) : Prop :=
  (exists th, k_threads (kernel m) !! t = Some th /\ (state th = THREAD_SLEEPING \/
     state th = THREAD_BLOCKED /\ pend_of (conts m) !! t = Some true)) /\
  Timer.due (k_timer (kernel m)) (TmStack t) <= 0.

(** C8. A tick of the timer wakes every thread whose sleep or wait with timeout is due: after
    it no such thread sleeps, and none is blocked with its timer still pending. *)
Theorem tick_wakes_overdue m t :
  reachable m -> conts m !! k_current (kernel m) = None -> overdue m t ->
  exists m', step m ETick = Some m' /\
    forall th, k_threads (kernel m') !! t = Some th ->
      state th ≠ THREAD_SLEEPING /\ (state th = THREAD_BLOCKED -> pend_of (conts m) !! t = Some false).
Proof.
  intros Hr HC [(th0 & Hth0 & Hcase) Hdue]. destruct (reachable_Inv m Hr) as [Hok _]. destruct m as [s C]. cbn [kernel conts] in *.
  assert (wp take_timer_irq s (fun _ s' => forall th, k_threads s' !! t = Some th ->
    state th ≠ THREAD_SLEEPING /\ (state th = THREAD_BLOCKED -> pend_of C !! t = Some false))) as Hwp.
  { unfold take_timer_irq. wp_step. apply wp_on_timer. wp_step.
    eapply wp_mono; [by eapply timer_tick_spec|].
    intros r s1 (Hok1 & Hk & He & Hn & _). pose proof (ok_tinv _ _ Hok1) as [].
    assert (TmStack t ∉ Timer.timer_queue (k_timer s1)) as Hnq.
    { intros Hin. destruct (Hk t Hin) as [_ Ht]. specialize (He _ Hin).
      unfold Timer.due in He, Hdue. rewrite Ht, Hn in He. lia. }
    assert (forall th, k_threads s1 !! t = Some th -> state th ≠ THREAD_SLEEPING /\
      (state th = THREAD_BLOCKED -> pend_of C !! t = Some false)) as Hgoal.
    { intros th Hth. split; [intros Hs; apply Hnq; eauto|]. intros Hb.
      destruct (ti_blocked0 _ _ Hth Hb) as ([] & Hp & Hq); [by specialize (Hq eq_refl)|done]. }
    unfold irq_exit. apply wp_when. destruct r; [|exact Hgoal].
    eapply wp_mono; [by eapply preempt_states|]. intros [] s2 Hst th Hth.
    split; [intros Hs|intros Hb]; (destruct (Hst t th Hth) as (th1 & Hth1 & E); [by auto|]);
      destruct (Hgoal th1 Hth1) as [H1 H2]; [congruence|apply H2; congruence]. }
  apply wp_run in Hwp as ([] & s' & Hrun & Hp). eexists. unfold step. cbn [kernel conts]. rewrite Hrun.
  split; [done|exact Hp].
Qed.

(** Thread 1 sleeps for 5 and its time is up. *)
Definition slept : list event := start 1 20 ++ [ECall (CThreadSleep 5); EAdvance 6].

Lemma tick_wakes_overdue_witness : exists m, reachable m /\ conts m !! k_current (kernel m) = None /\ overdue m 1 /\
  exists m', step m ETick = Some m' /\
    forall th, k_threads (kernel m') !! 1%nat = Some th ->
      state th ≠ THREAD_SLEEPING /\ (state th = THREAD_BLOCKED -> pend_of (conts m) !! 1%nat = Some false).
Proof.
  destruct (run_from_boot_reachable slept (fun m =>
    bool_decide (conts m !! k_current (kernel m) = None) &&
    bool_decide (option_map state (k_threads (kernel m) !! 1%nat) = Some THREAD_SLEEPING) &&
    (Timer.due (k_timer (kernel m)) (TmStack 1) <=? 0))) as (m & Hr & Hc); [vm_compute; reflexivity|].
  apply andb_true_iff in Hc as [Hc Hd]. apply andb_true_iff in Hc as [HC Hs].
  apply bool_decide_eq_true in HC, Hs. apply Z.leb_le in Hd.
  assert (overdue m 1) as Ho.
  { split; [|exact Hd]. destruct (k_threads (kernel m) !! 1%nat) as [th|]; [|discriminate Hs].
    exists th. split; [reflexivity|left; simpl in Hs; congruence]. }
  exists m. split; [exact Hr|]. split; [exact HC|]. split; [exact Ho|].
  exact (tick_wakes_overdue m 1%nat Hr HC Ho).
Defined.

(** * Lost wake-ups

    A thread whose timed wait expired still counts as waiting until it runs.
    In between, a release finds nobody to wake and a new acquirer still has to
    wait: it waits for a mutex nobody holds, and nobody will release it. *)

Definition lost : list event :=
  start 1 20 ++ [ECall (CMutexInit 0); ECall (CSemInit 0 0)] ++ start 2 10 ++ start 3 15.

Definition lost_mutex : list event :=
  lost ++ [ECall (CMutexAcquireTimeout 0 INFINITE_TIME); ECall (CThreadSleep 5); ECall (CThreadSleep 10);
   ECall (CMutexAcquireTimeout 0 7); EAdvance 5; ETick; EAdvance 2; ETick; EAdvance 3; ETick;
   ECall (CMutexRelease 0); ECall (CThreadExit 0); ECall (CMutexAcquireTimeout 0 INFINITE_TIME); EResume].

(** A released mutex stays free with a thread in its queue: the wake-up is lost. *)
Theorem mutex_wakeup_lost : exists m, reachable m /\
  option_map m_holder (k_mutexes (kernel m) !! 0%nat) = Some None /\
  on_q (view_of (kernel m)) (WqMutex 0) 3 = true /\
  map_to_list (conts m) = [(3%nat, [FWaitQueueBlock false; FMutexAcquire 0])].
Proof.
  destruct (run_from_boot_reachable lost_mutex (fun m =>
    bool_decide (option_map m_holder (k_mutexes (kernel m) !! 0%nat) = Some None) &&
    on_q (view_of (kernel m)) (WqMutex 0) 3 &&
    bool_decide (map_to_list (conts m) = [(3%nat, [FWaitQueueBlock false; FMutexAcquire 0])])))
    as (m & Hr & Hc); [by vm_compute|]. bool_prop. eauto.
Qed.

(** The same race on a semaphore: two posts, one wait still blocked, and a
    positive count, which makes further posts wake nobody. *)
Definition lost_sem : list event :=
  lost ++ [ECall (CThreadSleep 5); ECall (CThreadSleep 10);
   ECall (CSemTimedwait 0 7); EAdvance 5; ETick; EAdvance 2; ETick; EAdvance 3; ETick;
   ECall (CSemPost 0 false); ECall (CThreadSleep 10); ECall (CSemWait 0); EResume; EAdvance 10; ETick;
   ECall (CSemPost 0 false)].

(** A posted semaphore keeps its count with a thread in its queue. *)
Theorem sem_wakeup_lost : exists m, reachable m /\
  option_map s_count (k_semaphores (kernel m) !! 0%nat) = Some 1 /\
  on_q (view_of (kernel m)) (WqSem 0) 3 = true.
Proof.
  destruct (run_from_boot_reachable lost_sem (fun m =>
    bool_decide (option_map s_count (k_semaphores (kernel m) !! 0%nat) = Some 1) &&
    on_q (view_of (kernel m)) (WqSem 0) 3)) as (m & Hr & Hc); [by vm_compute|]. bool_prop. eauto.
Qed.

End KernelProps.
