(* ===== verification/Mem.v ===== *)
(** Byte memory, as the string and buffer routines of [lib/] use it.  An access
    outside what is mapped is a fault.  [char] is unsigned, as on the ARM
    targets of this tree. *)
From S2P Require Import Prelude.
Local Open Scope Z_scope.

Module Mem.

(** Addresses to bytes. *)
Abbreviation mem := (gmap Z Z).

Definition rd (p : Z) : M mem Z := deref (fun m : mem => m !! p).
Definition wr (p b : Z) : M mem unit := _ ← rd p; modify (fun m : mem => <[p := u8 b]> m).

(** Loops that advance through memory stop at a fault after at most as many
    steps as there are mapped bytes. *)
Definition with_fuel {A} (f : nat -> M mem A) : M mem A := fun m => f (S (size m)) m.

(** * Contents *)

Definition byte (b : Z) : Prop := 0 <= b < 256.

Definition bytes_at (m : mem) (p : Z) (l : list Z) : Prop :=
  forall i b, l !! i = Some b -> m !! (p + Z.of_nat i) = Some b.

(** [n] mapped bytes. *)
Definition mapped (m : mem) (p : Z) (n : nat) : Prop :=
  forall i, (i < n)%nat -> is_Some (m !! (p + Z.of_nat i)).

(** A NUL-terminated string. *)
Definition cstr (m : mem) (p : Z) (l : list Z) : Prop :=
  bytes_at m p (l ++ [0]) /\ Forall (fun b => b ≠ 0 /\ byte b) l.

(** Ranges that do not overlap. *)
Definition disjoint_ranges (p : Z) (n : nat) (q : Z) (k : nat) : Prop :=
  p + Z.of_nat n <= q \/ q + Z.of_nat k <= p.

(** The bytes [l] stored from [p] on. *)
Fixpoint put (m : mem) (p : Z) (l : list Z) : mem :=
  match l with [] => m | b :: l => put (<[p := b]> m) (p + 1) l end.

(** ** Laws *)

Lemma bytes_at_nil m p : bytes_at m p [].
Proof. intros i b Hi. by rewrite lookup_nil in Hi. Qed.

Lemma bytes_at_cons m p b l : bytes_at m p (b :: l) <-> m !! p = Some b /\ bytes_at m (p + 1) l.
Proof.
  split.
  - intros Hb. split.
    + specialize (Hb 0%nat b eq_refl). by rewrite Z.add_0_r in Hb.
    + intros i c Hi. specialize (Hb (S i) c Hi). by replace (p + 1 + Z.of_nat i) with (p + Z.of_nat (S i)) by lia.
  - intros [Hp Hl] [|i] c Hi; simpl in Hi; [simplify_eq; by rewrite Z.add_0_r|].
    specialize (Hl i c Hi). by replace (p + Z.of_nat (S i)) with (p + 1 + Z.of_nat i) by lia.
Qed.

Lemma bytes_at_app m p l1 l2 :
  bytes_at m p (l1 ++ l2) <-> bytes_at m p l1 /\ bytes_at m (p + Z.of_nat (length l1)) l2.
Proof.
  revert p. induction l1 as [|b l1 IH]; intros p; simpl.
  - rewrite Z.add_0_r. split; [|tauto]. split; [apply bytes_at_nil|done].
  - rewrite !bytes_at_cons, IH. replace (p + 1 + Z.of_nat (length l1)) with (p + Z.of_nat (S (length l1))) by lia.
    tauto.
Qed.

Lemma cstr_nil m p : cstr m p [] <-> m !! p = Some 0.
Proof.
  unfold cstr. rewrite app_nil_l, bytes_at_cons. split; [tauto|]. intros Hp. split; [|constructor].
  split; [done|apply bytes_at_nil].
Qed.

Lemma cstr_cons m p b l : cstr m p (b :: l) <-> m !! p = Some b /\ b ≠ 0 /\ byte b /\ cstr m (p + 1) l.
Proof.
  unfold cstr. simpl. rewrite bytes_at_cons, Forall_cons. tauto.
Qed.

Lemma mapped_succ m p n : mapped m p (S n) <-> is_Some (m !! p) /\ mapped m (p + 1) n.
Proof.
  split.
  - intros Hm. split; [specialize (Hm 0%nat ltac:(lia)); by rewrite Z.add_0_r in Hm|].
    intros i Hi. specialize (Hm (S i) ltac:(lia)). by replace (p + 1 + Z.of_nat i) with (p + Z.of_nat (S i)) by lia.
  - intros [Hp Hm] [|i] Hi; [by rewrite Z.add_0_r|].
    replace (p + Z.of_nat (S i)) with (p + 1 + Z.of_nat i) by lia. apply Hm. lia.
Qed.

Lemma bytes_at_mapped m p l : bytes_at m p l -> mapped m p (length l).
Proof. intros Hb i Hi. apply lookup_lt_is_Some in Hi as [b Hi]. eauto. Qed.

Lemma mapped_le m p n k : mapped m p n -> (k <= n)%nat -> mapped m p k.
Proof. intros Hm Hk i Hi. apply Hm. lia. Qed.

(** The size of the memory bounds the length of what is in it. *)
Lemma mapped_size m p n : mapped m p n -> (n <= size m)%nat.
Proof.
  intros Hm. set (K := list_to_set ((fun i => p + Z.of_nat i) <$> seq 0 n) : gset Z).
  assert (K ⊆ dom m) as Hsub.
  { intros a. unfold K. rewrite elem_of_list_to_set, list_elem_of_fmap. intros (i & -> & Hi%elem_of_seq).
    apply elem_of_dom, Hm. lia. }
  apply subseteq_size in Hsub. rewrite size_dom in Hsub. unfold K in Hsub.
  rewrite size_list_to_set in Hsub; [by rewrite length_fmap, length_seq in Hsub|].
  apply NoDup_fmap_2_strong; [|apply NoDup_seq]. intros x y _ _ E. lia.
Qed.

Lemma cstr_fuel m p l : cstr m p l -> (length l < size m)%nat.
Proof.
  intros [Hb _]. apply bytes_at_mapped, mapped_size in Hb. rewrite length_app in Hb. simpl in Hb. lia.
Qed.

(** ** Reading after a write *)

Lemma put_lookup_out m p l a : a < p \/ p + Z.of_nat (length l) <= a -> put m p l !! a = m !! a.
Proof.
  revert m p. induction l as [|b l IH]; intros m p Ha; [done|]. simpl in *.
  rewrite IH by lia. by rewrite lookup_insert_ne by lia.
Qed.

Lemma put_bytes_at m p l : bytes_at (put m p l) p l.
Proof.
  revert m p. induction l as [|b l IH]; intros m p; [apply bytes_at_nil|]. simpl.
  apply bytes_at_cons. split; [|apply IH]. rewrite put_lookup_out by lia. by rewrite lookup_insert_eq.
Qed.

Lemma put_app m p l1 l2 : put m p (l1 ++ l2) = put (put m p l1) (p + Z.of_nat (length l1)) l2.
Proof.
  revert m p. induction l1 as [|b l1 IH]; intros m p; simpl; [by rewrite Z.add_0_r|].
  rewrite IH. f_equal. lia.
Qed.

Lemma put_bytes_other m p l q k : bytes_at m q k -> disjoint_ranges p (length l) q (length k) ->
  bytes_at (put m p l) q k.
Proof.
  intros Hb Hd i b Hi. rewrite put_lookup_out; [by apply Hb|].
  apply lookup_lt_Some in Hi. unfold disjoint_ranges in Hd. lia.
Qed.

Lemma put_mapped m p l q n : mapped m q n -> mapped (put m p l) q n.
Proof.
  revert m p. induction l as [|b l IH]; intros m p Hm; [done|]. simpl. apply IH.
  intros i Hi. rewrite lookup_insert. case_decide; [done|]. by apply Hm.
Qed.

Lemma put_size m p l : mapped m p (length l) -> size (put m p l) = size m.
Proof.
  revert m p. induction l as [|b l IH]; intros m p Hm; [done|]. simpl in *.
  apply mapped_succ in Hm as [[c Hc] Hm]. rewrite IH.
  - rewrite map_size_insert, Hc. done.
  - intros i Hi. rewrite lookup_insert. case_decide; [done|]. by apply Hm.
Qed.

Lemma insert_put m p b l : is_Some (m !! p) -> put m p (b :: l) = put (<[p := b]> m) (p + 1) l.
Proof. done. Qed.

(** * Access *)

Lemma wp_rd p b m (Q : Z -> mem -> Prop) : m !! p = Some b -> Q b m -> wp (rd p) m Q.
Proof. intros Hp HQ. unfold rd. apply wp_deref. eauto. Qed.

Lemma wp_wr p b m (Q : unit -> mem -> Prop) : is_Some (m !! p) -> Q tt (<[p := u8 b]> m) -> wp (wr p b) m Q.
Proof. intros [c Hp] HQ. unfold wr. wp_step. by eapply wp_rd. Qed.

Lemma wp_with_fuel {A} (f : nat -> M mem A) m Q : wp (f (S (size m))) m Q -> wp (with_fuel f) m Q.
Proof. done. Qed.

Lemma u8_byte b : byte b -> u8 b = b.
Proof. intros. by apply uw_small. Qed.

End Mem.
