(* ===== verification/Ctype.v ===== *)
(** Character classes, [lib/libc/ctype.c]. *)
From S2P Require Import Prelude.
Local Open Scope Z_scope.

Module Ctype.

(** Character constants. *)
Definition chr_tab : Z := 9.
Definition chr_nl : Z := 10.
Definition chr_vt : Z := 11.
Definition chr_ff : Z := 12.
Definition chr_cr : Z := 13.
Definition chr_space : Z := 32.
Definition chr_plus : Z := 43.
Definition chr_minus : Z := 45.
Definition chr_0 : Z := 48.
Definition chr_9 : Z := 57.
Definition chr_A : Z := 65.
Definition chr_F : Z := 70.
Definition chr_X : Z := 88.
Definition chr_Z : Z := 90.
Definition chr_a : Z := 97.
Definition chr_f : Z := 102.
Definition chr_x : Z := 120.
Definition chr_z : Z := 122.

Definition isblank (c : Z) : bool := (c =? chr_space) || (c =? chr_tab).
Definition isspace (c : Z) : bool :=
  (c =? chr_space) || (c =? chr_ff) || (c =? chr_nl) || (c =? chr_cr) || (c =? chr_tab) || (c =? chr_vt).
Definition islower (c : Z) : bool := (chr_a <=? c) && (c <=? chr_z).
Definition isupper (c : Z) : bool := (chr_A <=? c) && (c <=? chr_Z).
Definition isdigit (c : Z) : bool := (chr_0 <=? c) && (c <=? chr_9).
Definition isalpha (c : Z) : bool := isupper c || islower c.
Definition isalnum (c : Z) : bool := isalpha c || isdigit c.
Definition isxdigit (c : Z) : bool :=
  isdigit c || ((chr_a <=? c) && (c <=? chr_f)) || ((chr_A <=? c) && (c <=? chr_F)).
Definition isgraph (c : Z) : bool := (chr_space <? c) && (c <? 0x7f).
Definition iscntrl (c : Z) : bool := (c <? chr_space) || (c =? 0x7f).
Definition isprint (c : Z) : bool := (0x20 <=? c) && (c <? 0x7f).
Definition ispunct (c : Z) : bool := isgraph c && negb (isalnum c).
Definition tolower (c : Z) : Z :=
  if (chr_A <=? c) && (c <=? chr_Z) then c + (chr_a - chr_A) else c.
Definition toupper (c : Z) : Z :=
  if (chr_a <=? c) && (c <=? chr_z) then c + (chr_A - chr_a) else c.

(** The tests as ranges. *)
Ltac ctype :=
  unfold isblank, isspace, isxdigit, isalnum, isalpha, isdigit, isupper, islower, isprint, ispunct,
    isgraph, iscntrl, tolower, toupper,
    chr_tab, chr_nl, chr_vt, chr_ff, chr_cr, chr_space, chr_plus, chr_minus, chr_0, chr_9, chr_A,
    chr_F, chr_X, chr_Z, chr_a, chr_f, chr_x, chr_z in *.

End Ctype.
