(* ===== verification/CString.v ===== *)
(** The memory and string functions of [lib/libc/string], in their C versions.
    A loop that runs until it meets a byte in memory has the memory's size as
    fuel; a loop over a count is by recursion on the count. *)
From S2P Require Import Prelude Mem Ctype.
Local Open Scope Z_scope.

Module CString.
Import Mem.

(** * Memory *)

(** [n] bytes moved one by one, upwards and downwards. *)
Fixpoint copy_up (n : nat) (d s : Z) : M mem unit :=
  match n with
  | O => mret tt
  | S n => b ← rd s; _ ← wr d b; copy_up n (d + 1) (s + 1)
  end.

Fixpoint copy_down (n : nat) (d s : Z) : M mem unit :=
  match n with
  | O => mret tt
  | S n => b ← rd (s - 1); _ ← wr (d - 1) b; copy_down n (d - 1) (s - 1)
  end.

(** [sizeof (long)] bytes read together, then written together. *)
Definition lsize : Z := 8.
Definition lmask : Z := lsize - 1.

Fixpoint rd_bytes (n : nat) (p : Z) : M mem (list Z) :=
  match n with
  | O => mret []
  | S n => b ← rd p; l ← rd_bytes n (p + 1); mret (b :: l)
  end.
Fixpoint wr_bytes (l : list Z) (p : Z) : M mem unit :=
  match l with
  | [] => mret tt
  | b :: l => _ ← wr p b; wr_bytes l (p + 1)
  end.
Definition copy_word (d s : Z) : M mem unit := l ← rd_bytes 8 s; wr_bytes l d.

Fixpoint copy_words_up (n : nat) (d s : Z) : M mem unit :=
  match n with
  | O => mret tt
  | S n => _ ← copy_word d s; copy_words_up n (d + lsize) (s + lsize)
  end.
Fixpoint copy_words_down (n : nat) (d s : Z) : M mem unit :=
  match n with
  | O => mret tt
  | S n => _ ← copy_word (d - lsize) (s - lsize); copy_words_down n (d - lsize) (s - lsize)
  end.

(** The bytes moved one by one to reach a word boundary, all of them when the
    pointers are not aligned alike; [len] is an [int]. *)
Definition up_head (d s count : Z) : Z :=
  if negb (Z.land (Z.lor d s) lmask =? 0) then
    if negb (Z.land (Z.lxor d s) lmask =? 0) || (count <? lsize) then s32 count
    else lsize - Z.land d lmask
  else 0.

Definition move_up (d s count : Z) : M mem unit :=
  let len := up_head d s count in
  let n := Z.max 0 len in
  _ ← copy_up (Z.to_nat n) d s;
  let '(d, s) := (d + n, s + n) in
  let count := u64 (count - len) in
  let len := Z.max 0 (s32 (count / lsize)) in
  _ ← copy_words_up (Z.to_nat len) d s;
  let '(d, s) := (d + len * lsize, s + len * lsize) in
  copy_up (Z.to_nat (Z.land count lmask)) d s.

Definition memcpy (dest src count : Z) : M mem Z :=
  if (count =? 0) || (dest =? src) then mret dest
  else _ ← move_up dest src count; mret dest.

Definition down_head (d s count : Z) : Z :=
  if negb (Z.land (Z.lor d s) lmask =? 0) then
    if negb (Z.land (Z.lxor d s) lmask =? 0) || (count <=? lsize) then s32 count
    else Z.land d lmask
  else 0.

Definition move_down (d s count : Z) : M mem unit :=
  let '(d, s) := (d + count, s + count) in
  let len := down_head d s count in
  let n := Z.max 0 len in
  _ ← copy_down (Z.to_nat n) d s;
  let '(d, s) := (d - n, s - n) in
  let count := u64 (count - len) in
  let len := Z.max 0 (s32 (count / lsize)) in
  _ ← copy_words_down (Z.to_nat len) d s;
  let '(d, s) := (d - len * lsize, s - len * lsize) in
  copy_down (Z.to_nat (Z.land count lmask)) d s.

Definition memmove (dest src count : Z) : M mem Z :=
  if (count =? 0) || (dest =? src) then mret dest
  else _ ← (if s64 dest <? s64 src then move_up dest src count else move_down dest src count); mret dest.

Definition bcopy (src dest count : Z) : M mem unit := _ ← memcpy dest src count; mret tt.

(** [memset]: bytes up to a word boundary, then words, then bytes. *)
Fixpoint fill (n : nat) (p c : Z) : M mem unit :=
  match n with O => mret tt | S n => _ ← wr p c; fill n (p + 1) c end.

(** A 64-bit word stored in little-endian order. *)
Definition word_bytes (w : Z) : list Z := (fun i => u8 (Z.shiftr w (8 * Z.of_nat i))) <$> seq 0 8.
Fixpoint fill_words (n : nat) (p w : Z) : M mem unit :=
  match n with O => mret tt | S n => _ ← wr_bytes (word_bytes w) p; fill_words n (p + 8) w end.

Definition memset (s c count : Z) : M mem Z :=
  let len := Z.land (u64 (- s)) 7 in
  let cc := Z.land c 0xff in
  _ ← (if len <? count then
         let count := count - len in
         let cc := Z.lor cc (Z.shiftl cc 8) in
         let cc := Z.lor cc (Z.shiftl cc 16) in
         let cc := Z.lor cc (Z.shiftl cc 32) in
         _ ← fill (Z.to_nat len) s c;
         let xs := s + len in
         let n := count / 8 in
         _ ← fill_words (Z.to_nat n) xs cc;
         fill (Z.to_nat (Z.land count 7)) (xs + 8 * n) c
       else fill (Z.to_nat count) s c);
  mret s.

Definition bzero (dst count : Z) : M mem unit := _ ← memset dst 0 count; mret tt.

Fixpoint memchr_loop (n : nat) (b x : Z) : M mem (option Z) :=
  match n with
  | O => mret None
  | S n => y ← rd b; if y =? x then mret (Some b) else memchr_loop n (b + 1) x
  end.
Definition memchr (buf c len : Z) : M mem (option Z) := memchr_loop (Z.to_nat len) buf (Z.land c 0xff).

Fixpoint memcmp_loop (n : nat) (su1 su2 res : Z) : M mem Z :=
  match n with
  | O => mret res
  | S n =>
      a ← rd su1; b ← rd su2;
      let res := s8 (a - b) in
      if negb (res =? 0) then mret res else memcmp_loop n (su1 + 1) (su2 + 1) res
  end.
Definition memcmp (cs ct count : Z) : M mem Z := memcmp_loop (Z.to_nat count) cs ct 0.

(** * Strings *)

Fixpoint strlen_loop (fuel : nat) (s i : Z) : M mem Z :=
  match fuel with
  | O => fault
  | S fuel => b ← rd (s + i); if b =? 0 then mret i else strlen_loop fuel s (i + 1)
  end.
Definition strlen (s : Z) : M mem Z := with_fuel (fun n => strlen_loop n s 0).

Fixpoint strnlen_loop (count : nat) (s sc : Z) : M mem Z :=
  match count with
  | O => mret (sc - s)
  | S count => b ← rd sc; if b =? 0 then mret (sc - s) else strnlen_loop count s (sc + 1)
  end.
Definition strnlen (s count : Z) : M mem Z := strnlen_loop (Z.to_nat count) s s.

(** The copy loop of [strcpy]: it ends after copying the NUL. *)
Fixpoint copy_str (fuel : nat) (dest src : Z) : M mem unit :=
  match fuel with
  | O => fault
  | S fuel => b ← rd src; _ ← wr dest b; if b =? 0 then mret tt else copy_str fuel (dest + 1) (src + 1)
  end.
Definition strcpy (dest src : Z) : M mem Z := _ ← with_fuel (fun n => copy_str n dest src); mret dest.

(** The walk to the end of the destination. *)
Fixpoint find_end (fuel : nat) (dest : Z) : M mem Z :=
  match fuel with
  | O => fault
  | S fuel => b ← rd dest; if b =? 0 then mret dest else find_end fuel (dest + 1)
  end.
Definition strcat (dest src : Z) : M mem Z :=
  d ← with_fuel (fun n => find_end n dest);
  _ ← with_fuel (fun n => copy_str n d src);
  mret dest.

Fixpoint strncat_loop (count : nat) (dest src : Z) : M mem unit :=
  match count with
  | O => mret tt
  | S count =>
      b ← rd src; _ ← wr dest b;
      if b =? 0 then mret tt
      else match count with
           | O => wr (dest + 1) 0
           | _ => strncat_loop count (dest + 1) (src + 1)
           end
  end.
Definition strncat (dest src count : Z) : M mem Z :=
  _ ← (if 0 <? count then
         d ← with_fuel (fun n => find_end n dest); strncat_loop (Z.to_nat count) d src
       else mret tt);
  mret dest.

Fixpoint strncpy_loop (count : nat) (dest src : Z) : M mem unit :=
  match count with
  | O => mret tt
  | S count => b ← rd src; _ ← wr dest b; if b =? 0 then mret tt else strncpy_loop count (dest + 1) (src + 1)
  end.
Definition strncpy (dest src count : Z) : M mem Z := _ ← strncpy_loop (Z.to_nat count) dest src; mret dest.

(** [for (i = 0; i < n && src[i]; i++) dst[i] = src[i];] *)
Fixpoint lcopy (n : nat) (dst src i : Z) : M mem Z :=
  match n with
  | O => mret i
  | S n =>
      b ← rd (src + i);
      if b =? 0 then mret i else _ ← wr (dst + i) b; lcopy n dst src (i + 1)
  end.
Definition strlcpy (dst src s : Z) : M mem Z :=
  if s =? 0 then strlen src
  else
    i ← lcopy (Z.to_nat (s - 1)) dst src 0;
    _ ← wr (dst + i) 0;
    n ← strlen (src + i); mret (i + n).

Definition strlcat (dst src s : Z) : M mem Z :=
  j ← strnlen dst s;
  if s =? 0 then n ← strlen src; mret (j + n)
  else
    let dst := dst + j in
    i ← lcopy (Z.to_nat (s - 1)) dst src 0;
    _ ← wr (dst + i) 0;
    n ← strlen (src + i); mret (j + i + n).

Fixpoint strcmp_loop (fuel : nat) (cs ct : Z) : M mem Z :=
  match fuel with
  | O => fault
  | S fuel =>
      a ← rd cs; b ← rd ct;
      let res := s8 (a - b) in
      if negb (res =? 0) || (a =? 0) then mret res else strcmp_loop fuel (cs + 1) (ct + 1)
  end.
Definition strcmp (cs ct : Z) : M mem Z := with_fuel (fun n => strcmp_loop n cs ct).
Definition strcoll (s1 s2 : Z) : M mem Z := strcmp s1 s2.

Fixpoint strncmp_loop (count : nat) (cs ct res : Z) : M mem Z :=
  match count with
  | O => mret res
  | S count =>
      a ← rd cs; b ← rd ct;
      let res := s8 (a - b) in
      if negb (res =? 0) || (a =? 0) then mret res else strncmp_loop count (cs + 1) (ct + 1) res
  end.
Definition strncmp (cs ct count : Z) : M mem Z := strncmp_loop (Z.to_nat count) cs ct 0.

(** The do-while of [strnicmp], with [len > 0] passes left. *)
Fixpoint strnicmp_loop (len : nat) (s1 s2 : Z) (c1 c2 : Z) : M mem (Z * Z) :=
  match len with
  | O => mret (c1, c2)
  | S len =>
      c1 ← rd s1; c2 ← rd s2;
      if (c1 =? 0) || (c2 =? 0) then mret (c1, c2)
      else if c1 =? c2 then strnicmp_loop len (s1 + 1) (s2 + 1) c1 c2
      else
        let '(c1, c2) := (Ctype.tolower c1, Ctype.tolower c2) in
        if negb (c1 =? c2) then mret (c1, c2) else strnicmp_loop len (s1 + 1) (s2 + 1) c1 c2
  end.
Definition strnicmp (s1 s2 len : Z) : M mem Z :=
  r ← strnicmp_loop (Z.to_nat len) s1 s2 0 0; mret (r.1 - r.2).

Fixpoint strchr_loop (fuel : nat) (s c : Z) : M mem (option Z) :=
  match fuel with
  | O => fault
  | S fuel =>
      b ← rd s;
      if b =? c then mret (Some s) else if b =? 0 then mret None else strchr_loop fuel (s + 1) c
  end.
Definition strchr (s c : Z) : M mem (option Z) := with_fuel (fun n => strchr_loop n s (u8 c)).

Fixpoint strrchr_loop (fuel : nat) (s c : Z) (last : option Z) : M mem (option Z) :=
  match fuel with
  | O => fault
  | S fuel =>
      b ← rd s;
      if b =? 0 then mret last else strrchr_loop fuel (s + 1) c (if b =? c then Some s else last)
  end.
Definition strrchr (s c : Z) : M mem (option Z) :=
  with_fuel (fun n => strrchr_loop n s c (if c =? 0 then Some s else None)).

(** The inner loops of [strspn] and [strpbrk]: is [b] in the set at [a]? *)
Fixpoint in_set (fuel : nat) (b a : Z) : M mem bool :=
  match fuel with
  | O => fault
  | S fuel => x ← rd a; if x =? 0 then mret false else if b =? x then mret true else in_set fuel b (a + 1)
  end.

Fixpoint strspn_loop (fuel : nat) (p accept count : Z) : M mem Z :=
  match fuel with
  | O => fault
  | S fuel =>
      b ← rd p;
      if b =? 0 then mret count
      else
        found ← with_fuel (fun n => in_set n b accept);
        if negb found then mret count else strspn_loop fuel (p + 1) accept (count + 1)
  end.
Definition strspn (s accept : Z) : M mem Z := with_fuel (fun n => strspn_loop n s accept 0).

Fixpoint strpbrk_loop (fuel : nat) (sc1 ct : Z) : M mem (option Z) :=
  match fuel with
  | O => fault
  | S fuel =>
      b ← rd sc1;
      if b =? 0 then mret None
      else
        found ← with_fuel (fun n => in_set n b ct);
        if (found : bool) then mret (Some sc1) else strpbrk_loop fuel (sc1 + 1) ct
  end.
Definition strpbrk (cs ct : Z) : M mem (option Z) := with_fuel (fun n => strpbrk_loop n cs ct).

(** [l1 - l2 + 1] places to try, none when [l1 < l2]. *)
Fixpoint strstr_loop (n : nat) (s1 s2 l2 : Z) : M mem (option Z) :=
  match n with
  | O => mret None
  | S n => r ← memcmp s1 s2 l2; if r =? 0 then mret (Some s1) else strstr_loop n (s1 + 1) s2 l2
  end.
Definition strstr (s1 s2 : Z) : M mem (option Z) :=
  n2 ← strlen s2;
  let l2 := s32 n2 in
  if l2 =? 0 then mret (Some s1)
  else n1 ← strlen s1; let l1 := s32 n1 in strstr_loop (Z.to_nat (l1 - l2 + 1)) s1 s2 l2.

(** [strtok] with its static pointer passed in and returned. *)
Definition strtok (saved s : option Z) (ct : Z) : M mem (option Z * option Z) :=
  match (match s with Some s => Some s | None => saved end) with
  | None => mret (None, saved)
  | Some sbegin =>
      n ← strspn sbegin ct;
      let sbegin := sbegin + n in
      b ← rd sbegin;
      if b =? 0 then mret (None, None)
      else
        send ← strpbrk sbegin ct;
        match send with
        | Some e =>
            b ← rd e;
            if b =? 0 then mret (Some sbegin, Some e)
            else _ ← wr e 0; mret (Some sbegin, Some (e + 1))
        | None => mret (Some sbegin, None)
        end
  end.

(** [copy] is what [malloc] returned, [None] for failure. *)
Definition strdup (str : Z) (copy : option Z) : M mem (option Z) :=
  n ← strlen str;
  match copy with
  | None => mret None
  | Some c => _ ← memcpy c str (n + 1); mret (Some c)
  end.

Definition strxfrm (dest src n : Z) : M mem Z :=
  len ← strlen src;
  _ ← (if negb (n =? 0) then
         let copy_len := if len <? n then len else n - 1 in
         _ ← memcpy dest src copy_len; wr (dest + copy_len) 0
       else mret tt);
  mret len.

End CString.
