(* ===== verification/CStringProps.v ===== *)
(** What the memory and string functions do, against list functions. *)
From S2P Require Import Prelude Mem Ctype CString.
Local Open Scope Z_scope.

Module CStringProps.
Import Mem CString.

(** * Copying *)

Lemma put_lookup m p l a :
  put m p l !! a = if decide (p <= a < p + Z.of_nat (length l)) then l !! Z.to_nat (a - p) else m !! a.
Proof.
  case_decide; [|apply put_lookup_out; lia].
  destruct (l !! Z.to_nat (a - p)) as [b|] eqn:Hl.
  - pose proof (put_bytes_at m p l _ _ Hl) as Hb. by replace (p + Z.of_nat (Z.to_nat (a - p))) with a in Hb by lia.
  - apply lookup_ge_None in Hl. lia.
Qed.

(** Stores that change nothing, commute, or are written over. *)
Lemma put_same m p l : bytes_at m p l -> put m p l = m.
Proof.
  intros Hl. apply map_eq. intros x. rewrite put_lookup. case_decide as Hx; [|done].
  destruct (lookup_lt_is_Some_2 l (Z.to_nat (x - p))) as [b Hb]; [lia|]. rewrite Hb. symmetry.
  replace x with (p + Z.of_nat (Z.to_nat (x - p))) by lia. by apply Hl.
Qed.

Lemma put_comm m p l q k : disjoint_ranges p (length l) q (length k) -> put (put m p l) q k = put (put m q k) p l.
Proof.
  intros Hd. unfold disjoint_ranges in Hd. apply map_eq. intros x. rewrite !put_lookup. repeat case_decide; try done; lia.
Qed.

Lemma put_put m p l k : length l = length k -> put (put m p l) p k = put m p k.
Proof. intros Hl. apply map_eq. intros x. rewrite !put_lookup, Hl. by repeat case_decide. Qed.

(** Part of a stored sequence replaced. *)
Lemma put_replace m p (l1 l2 l3 k : list Z) : length k = length l2 ->
  put (put m p (l1 ++ l2 ++ l3)) (p + Z.of_nat (length l1)) k = put m p (l1 ++ k ++ l3).
Proof.
  intros Hk. rewrite !put_app, Hk. rewrite (put_comm _ _ l3) by (unfold disjoint_ranges; lia).
  by rewrite put_put by done.
Qed.

Lemma put_snoc m p l b : put m p (l ++ [b]) = put (<[p + Z.of_nat (length l) := b]> m) p l.
Proof.
  apply map_eq. intros a. rewrite !put_lookup, length_app. simpl. rewrite lookup_insert.
  repeat case_decide; try lia; subst.
  - by rewrite lookup_app_l by lia.
  - rewrite lookup_app_r by lia. by replace (Z.to_nat (p + Z.of_nat (length l) - p) - length l)%nat with 0%nat by lia.
  - done.
Qed.

Definition may_copy_up (d s : Z) (n : nat) : Prop := d <= s \/ disjoint_ranges d n s n.
Definition may_copy_down (d s : Z) (n : nat) : Prop := s <= d \/ disjoint_ranges d n s n.

Lemma bytes_at_insert_ne m p b q l : bytes_at m q l -> p < q \/ q + Z.of_nat (length l) <= p ->
  bytes_at (<[p := b]> m) q l.
Proof.
  intros Hl Hp i c Hi. rewrite lookup_insert_ne; [by apply Hl|].
  apply lookup_lt_Some in Hi. lia.
Qed.

Lemma mapped_insert m p b q n : mapped m q n -> mapped (<[p := b]> m) q n.
Proof. intros Hm i Hi. rewrite lookup_insert. case_decide; [done|]. by apply Hm. Qed.

Lemma copy_up_spec l : forall m d s, bytes_at m s l -> mapped m d (length l) -> Forall byte l ->
  may_copy_up d s (length l) -> wp (copy_up (length l) d s) m (fun _ m' => m' = put m d l).
Proof.
  induction l as [|b l IH]; intros m d s Hs Hd Hb Hc; simpl; [by wp_step|].
  apply bytes_at_cons in Hs as [Hs Hl]. apply mapped_succ in Hd as [Hd Hdl].
  apply Forall_cons in Hb as [Hb Hbl]. unfold may_copy_up, disjoint_ranges in *. simpl in Hc.
  wp_step. eapply wp_rd; [done|]. wp_step. apply wp_wr; [done|]. rewrite u8_byte by done.
  apply IH; [|by apply mapped_insert|done|lia]. apply bytes_at_insert_ne; [done|lia].
Qed.

Lemma rd_bytes_spec l m p (Q : list Z -> mem -> Prop) : bytes_at m p l -> Q l m -> wp (rd_bytes (length l) p) m Q.
Proof.
  revert p Q. induction l as [|b l IH]; intros p Q Hl HQ; simpl; [by wp_step|].
  apply bytes_at_cons in Hl as [Hb Hl]. wp_step. eapply wp_rd; [done|]. wp_step.
  apply IH; [done|]. by wp_step.
Qed.

Lemma wr_bytes_spec l : forall m p (Q : unit -> mem -> Prop), mapped m p (length l) -> Forall byte l ->
  Q tt (put m p l) -> wp (wr_bytes l p) m Q.
Proof.
  induction l as [|b l IH]; intros m p Q Hm Hb HQ; simpl; [by wp_step|].
  apply mapped_succ in Hm as [Hp Hm]. apply Forall_cons in Hb as [Hb Hl].
  wp_step. apply wp_wr; [done|]. rewrite u8_byte by done. apply IH; [by apply mapped_insert|done|done].
Qed.

Lemma copy_word_spec l m d s (Q : unit -> mem -> Prop) : length l = 8%nat -> bytes_at m s l ->
  mapped m d 8 -> Forall byte l -> Q tt (put m d l) -> wp (copy_word d s) m Q.
Proof.
  intros Hl Hs Hd Hb HQ. unfold copy_word. wp_step. rewrite <- Hl. apply rd_bytes_spec; [done|].
  apply wr_bytes_spec; [by rewrite Hl|done|done].
Qed.

Lemma mapped_add m p n k : mapped m p (n + k) <-> mapped m p n /\ mapped m (p + Z.of_nat n) k.
Proof.
  split.
  - intros Hm. split; [intros i Hi; apply Hm; lia|]. intros i Hi. specialize (Hm (n + i)%nat ltac:(lia)).
    by replace (p + Z.of_nat n + Z.of_nat i) with (p + Z.of_nat (n + i)) by lia.
  - intros [Hn Hk] i Hi. destruct (decide (i < n)%nat); [by apply Hn|].
    specialize (Hk (i - n)%nat ltac:(lia)). by replace (p + Z.of_nat n + Z.of_nat (i - n)) with (p + Z.of_nat i) in Hk by lia.
Qed.

(** [n] words, then the rest. *)
Lemma split8 (l : list Z) n : length l = (8 * S n)%nat ->
  exists l1 l2, l = l1 ++ l2 /\ length l1 = 8%nat /\ length l2 = (8 * n)%nat.
Proof.
  intros Hl. exists (take 8 l), (drop 8 l). rewrite take_drop, length_take, length_drop. split; [done|lia].
Qed.

Lemma copy_words_up_spec n : forall l m d s, length l = (8 * n)%nat -> bytes_at m s l ->
  mapped m d (length l) -> Forall byte l -> may_copy_up d s (length l) ->
  wp (copy_words_up n d s) m (fun _ m' => m' = put m d l).
Proof.
  induction n as [|n IH]; intros l m d s Hl Hs Hd Hb Hc; cbn [copy_words_up].
  { destruct l; [by wp_step|simpl in Hl; lia]. }
  destruct (split8 l n Hl) as (l1 & l2 & -> & Hl1 & Hl2). rewrite length_app in *.
  apply bytes_at_app in Hs as [Hs1 Hs2]. apply Forall_app in Hb as [Hb1 Hb2].
  apply mapped_add in Hd as [Hd1 Hd2]. rewrite Hl1 in *.
  wp_step. apply (copy_word_spec l1); try done. rewrite put_app, Hl1.
  unfold may_copy_up, disjoint_ranges, lsize in *.
  eapply wp_mono; [apply (IH l2); try done|].
  - apply put_bytes_other; [done|]. unfold disjoint_ranges. rewrite Hl1. lia.
  - by apply put_mapped.
  - lia.
  - done.
Qed.

Lemma copy_down_spec l : forall m d s, bytes_at m s l -> mapped m d (length l) -> Forall byte l ->
  may_copy_down d s (length l) ->
  wp (copy_down (length l) (d + Z.of_nat (length l)) (s + Z.of_nat (length l))) m (fun _ m' => m' = put m d l).
Proof.
  induction l as [|b l IH] using rev_ind; intros m d s Hs Hd Hb Hc; simpl; [by wp_step|].
  rewrite length_app in *. simpl in *. rewrite Nat.add_1_r in *. simpl.
  apply bytes_at_app in Hs as [Hs Hlast]. apply bytes_at_cons in Hlast as [Hlast _].
  apply Forall_app in Hb as [Hb Hb1]. apply Forall_cons in Hb1 as [Hb1 _].
  pose proof (Hd (length l) ltac:(lia)) as Hdl.
  unfold may_copy_down, disjoint_ranges in *.
  replace (s + Z.of_nat (S (length l)) - 1) with (s + Z.of_nat (length l)) by lia.
  replace (d + Z.of_nat (S (length l)) - 1) with (d + Z.of_nat (length l)) by lia.
  wp_step. eapply wp_rd; [done|]. wp_step. apply wp_wr; [done|]. rewrite u8_byte by done.
  rewrite put_snoc. apply IH; [|by apply mapped_insert, (mapped_le _ _ (S (length l))); [|lia]|done|lia].
  apply bytes_at_insert_ne; [done|lia].
Qed.

Lemma copy_words_down_spec n : forall l m d s, length l = (8 * n)%nat -> bytes_at m s l ->
  mapped m d (length l) -> Forall byte l -> may_copy_down d s (length l) ->
  wp (copy_words_down n (d + Z.of_nat (length l)) (s + Z.of_nat (length l))) m (fun _ m' => m' = put m d l).
Proof.
  induction n as [|n IH]; intros l m d s Hl Hs Hd Hb Hc; cbn [copy_words_down].
  { destruct l; [by wp_step|simpl in Hl; lia]. }
  assert (exists l1 l2, l = l1 ++ l2 /\ length l2 = 8%nat /\ length l1 = (8 * n)%nat) as (l1 & l2 & -> & Hl2 & Hl1).
  { exists (take (8 * n) l), (drop (8 * n) l). rewrite take_drop, length_take, length_drop. split; [done|lia]. }
  rewrite length_app in *.
  apply bytes_at_app in Hs as [Hs1 Hs2]. apply Forall_app in Hb as [Hb1 Hb2].
  apply mapped_add in Hd as [Hd1 Hd2]. rewrite Hl2 in *. unfold may_copy_down, disjoint_ranges, lsize in *.
  replace (d + Z.of_nat (length l1 + 8) - 8) with (d + Z.of_nat (length l1)) by lia.
  replace (s + Z.of_nat (length l1 + 8) - 8) with (s + Z.of_nat (length l1)) by lia.
  wp_step. apply (copy_word_spec l2); try done.
  eapply wp_mono; [apply (IH l1); try done|].
  - apply put_bytes_other; [done|]. unfold disjoint_ranges. rewrite Hl2. lia.
  - by apply put_mapped.
  - lia.
  - intros _ m' ->. apply map_eq. intros a. rewrite !put_lookup, length_app.
    repeat case_decide; try lia; [by rewrite lookup_app_l by lia|rewrite lookup_app_r by lia; f_equal; lia|done].
Qed.

(** The three parts of a move add up to [count] bytes. *)
Lemma land_lmask x : Z.land x lmask = x mod 8.
Proof. change lmask with (Z.ones 3). by rewrite Z.land_ones by lia. Qed.

Lemma split3 (l : list Z) len : 0 <= len <= Z.of_nat (length l) -> 
  let rest := Z.of_nat (length l) - len in
  exists l1 l2 l3, l = l1 ++ l2 ++ l3 /\ length l1 = Z.to_nat len /\
    length l2 = (8 * Z.to_nat (rest / 8))%nat /\ length l3 = Z.to_nat (rest mod 8).
Proof.
  intros Hlen rest. exists (take (Z.to_nat len) l), (take (8 * Z.to_nat (rest / 8)) (drop (Z.to_nat len) l)),
    (drop (8 * Z.to_nat (rest / 8)) (drop (Z.to_nat len) l)).
  rewrite !take_drop, !length_take, !length_drop.
  pose proof (Z.div_mod rest 8 ltac:(lia)). pose proof (Z.mod_pos_bound rest 8 ltac:(lia)).
  assert (0 <= rest / 8) by (apply Z.div_pos; lia). split; [done|]. unfold rest in *. lia.
Qed.

Lemma up_head_range d s count : 0 <= count < 2 ^ 31 -> 0 <= up_head d s count <= count.
Proof.
  intros Hc. unfold up_head. rewrite !land_lmask. pose proof (Z.mod_pos_bound d 8 ltac:(lia)).
  unfold lsize. repeat case_if; rewrite ?sw_small by lia; try lia.
Qed.

Lemma down_head_range d s count : 0 <= count < 2 ^ 31 -> 0 <= down_head d s count <= count.
Proof.
  intros Hc. unfold down_head. rewrite !land_lmask. pose proof (Z.mod_pos_bound d 8 ltac:(lia)).
  unfold lsize. repeat case_if; rewrite ?sw_small by lia; try lia.
Qed.

Lemma rest_range rest : 0 <= rest < 2 ^ 31 ->
  u64 rest = rest /\ Z.max 0 (s32 (rest / lsize)) = rest / 8 /\ 0 <= rest / 8.
Proof.
  intros. assert (0 <= rest / 8) by (apply Z.div_pos; lia). assert (rest / 8 <= rest) by (apply Z.div_le_upper_bound; lia).
  unfold lsize. rewrite uw_small, sw_small by lia. lia.
Qed.

Section move.
Context (m : mem) (d s : Z) (l : list Z).
Let count : Z := Z.of_nat (length l).
Hypothesis Hs : bytes_at m s l.
Hypothesis Hd : mapped m d (length l).
Hypothesis Hb : Forall byte l.
Hypothesis Hcount : count < 2 ^ 31.

Lemma move_up_spec : may_copy_up d s (length l) ->
    wp (move_up d s count) m (fun _ m' => m' = put m d l).
Proof.
  intros Hc. pose proof (up_head_range d s count ltac:(lia)) as Hr. unfold move_up.
  set (len := up_head d s count) in *. rewrite Z.max_r by lia.
  destruct (split3 l len ltac:(unfold count in *; lia)) as (l1 & l2 & l3 & -> & H1 & H2 & H3).
  fold count in H2, H3. cbn zeta in H2, H3. destruct (rest_range (count - len) ltac:(lia)) as (-> & -> & Hq).
  rewrite land_lmask. clearbody len. pose proof (Z.mod_pos_bound (count - len) 8 ltac:(lia)).
  unfold count in *. rewrite !length_app in *. clear count.
  apply bytes_at_app in Hs as [Hs1 Hs']. apply bytes_at_app in Hs' as [Hs2 Hs3].
  apply Forall_app in Hb as [Hb1 Hb']. apply Forall_app in Hb' as [Hb2 Hb3].
  apply mapped_add in Hd as [Hd1 Hd']. apply mapped_add in Hd' as [Hd2 Hd3].
  unfold may_copy_up, disjoint_ranges in *. rewrite !put_app.
  wp_step. rewrite <- H1. eapply wp_mono; [apply (copy_up_spec l1); try done; unfold may_copy_up, disjoint_ranges; lia|].
  intros _ m1 ->. cbn beta iota zeta. wp_step.
  replace (d + len) with (d + Z.of_nat (length l1)) by lia. replace (s + len) with (s + Z.of_nat (length l1)) by lia.
  eapply wp_mono; [apply (copy_words_up_spec _ l2); try done; unfold may_copy_up, disjoint_ranges|].
  { apply put_bytes_other; [done|]. unfold disjoint_ranges. lia. }
  { by apply put_mapped. }
  { lia. }
  intros _ m2 ->. cbn beta iota zeta.
  match goal with |- context [copy_up _ (?x + _ * lsize) (?y + _ * lsize)] =>
    replace (x + (Z.of_nat (length l1 + (length l2 + length l3)) - len) / 8 * lsize) with (x + Z.of_nat (length l2)) by (unfold lsize; lia);
    replace (y + (Z.of_nat (length l1 + (length l2 + length l3)) - len) / 8 * lsize) with (y + Z.of_nat (length l2)) by (unfold lsize; lia) end.
  rewrite <- H3. apply copy_up_spec; [|by do 2 apply put_mapped|done|unfold may_copy_up, disjoint_ranges; lia].
  apply put_bytes_other; [|unfold disjoint_ranges; lia]. apply put_bytes_other; [done|unfold disjoint_ranges; lia].
Qed.

(** Downwards, the same pieces from the end. *)
Lemma move_down_spec : may_copy_down d s (length l) ->
    wp (move_down d s count) m (fun _ m' => m' = put m d l).
Proof.
  intros Hc. unfold move_down.
  pose proof (down_head_range (d + count) (s + count) count ltac:(lia)) as Hr.
  set (len := down_head (d + count) (s + count) count) in *. rewrite Z.max_r by lia.
  set (rest := count - len).
  destruct (rest_range rest ltac:(unfold rest; lia)) as (-> & -> & Hq). rewrite land_lmask.
  pose proof (Z.mod_pos_bound rest 8 ltac:(lia)). pose proof (Z.div_mod rest 8 ltac:(lia)).
  assert (exists l1 l2 l3, l = l1 ++ l2 ++ l3 /\ length l1 = Z.to_nat (rest mod 8) /\
    length l2 = (8 * Z.to_nat (rest / 8))%nat /\ length l3 = Z.to_nat len) as (l1 & l2 & l3 & El & H1 & H2 & H3).
  { exists (take (Z.to_nat (rest mod 8)) l), (take (8 * Z.to_nat (rest / 8)) (drop (Z.to_nat (rest mod 8)) l)),
      (drop (8 * Z.to_nat (rest / 8)) (drop (Z.to_nat (rest mod 8)) l)).
    rewrite !take_drop, !length_take, !length_drop. split; [done|]. unfold rest, count in *. lia. }
  clearbody len. unfold rest, count in *. clear rest count. rewrite El in *. rewrite !length_app in *. 
  apply bytes_at_app in Hs as [Hs1 Hs']. apply bytes_at_app in Hs' as [Hs2 Hs3].
  apply Forall_app in Hb as [Hb1 Hb']. apply Forall_app in Hb' as [Hb2 Hb3].
  apply mapped_add in Hd as [Hd1 Hd']. apply mapped_add in Hd' as [Hd2 Hd3].
  unfold may_copy_down, disjoint_ranges in *.
  wp_step. rewrite <- H3.
  match goal with |- wp (copy_down _ ?x ?y) _ _ =>
    replace x with (d + Z.of_nat (length l1) + Z.of_nat (length l2) + Z.of_nat (length l3)) by lia;
    replace y with (s + Z.of_nat (length l1) + Z.of_nat (length l2) + Z.of_nat (length l3)) by lia end.
  eapply wp_mono; [apply (copy_down_spec l3); try done; unfold may_copy_down, disjoint_ranges; lia|].
  intros _ m1 ->. cbn beta iota zeta. wp_step.
  match goal with |- wp (copy_words_down _ ?x ?y) _ _ =>
    replace x with (d + Z.of_nat (length l1) + Z.of_nat (length l2)) by lia;
    replace y with (s + Z.of_nat (length l1) + Z.of_nat (length l2)) by lia end.
  eapply wp_mono; [apply (copy_words_down_spec _ l2); try done; unfold may_copy_down, disjoint_ranges|].
  { apply put_bytes_other; [done|]. unfold disjoint_ranges. lia. }
  { by apply put_mapped. }
  { lia. }
  intros _ m2 ->. cbn beta iota zeta. rewrite <- H1.
  match goal with |- wp (copy_down _ ?x ?y) _ _ =>
    replace x with (d + Z.of_nat (length l1)) by (unfold lsize; lia);
    replace y with (s + Z.of_nat (length l1)) by (unfold lsize; lia) end.
  eapply wp_mono; [apply (copy_down_spec l1); [|by do 2 apply put_mapped|done|unfold may_copy_down, disjoint_ranges; lia]|].
  { apply put_bytes_other; [|unfold disjoint_ranges; lia]. apply put_bytes_other; [done|unfold disjoint_ranges; lia]. }
  intros _ m3 ->. apply map_eq. intros a. rewrite !put_lookup, !length_app. repeat case_decide; try lia.
  - by rewrite lookup_app_l by lia.
  - rewrite lookup_app_r, lookup_app_l by lia. f_equal. lia.
  - rewrite !lookup_app_r by lia. f_equal. lia.
  - done.
Qed.
End move.

Lemma memcpy_wp m d s l : bytes_at m s l -> mapped m d (length l) -> Forall byte l ->
  Z.of_nat (length l) < 2 ^ 31 -> may_copy_up d s (length l) ->
  wp (memcpy d s (Z.of_nat (length l))) m (fun r m' => r = d /\ m' = put m d l).
Proof.
  intros Hs Hd Hb Hc Hm. unfold memcpy. case_if.
  - apply orb_true_iff in E as [E|E]; bool_prop.
    + destruct l; [by wp_step|simpl in E; lia].
    + subst s. wp_step. split; [done|]. symmetry. apply map_eq. intros a. rewrite put_lookup.
      case_decide; [|done]. destruct (l !! Z.to_nat (a - d)) as [b|] eqn:Hl.
      * specialize (Hs _ _ Hl). by replace (d + Z.of_nat (Z.to_nat (a - d))) with a in Hs by lia.
      * apply lookup_ge_None in Hl. lia.
  - wp_step. eapply wp_mono; [by apply move_up_spec|]. intros _ m' ->. by wp_step.
Qed.

Lemma memmove_wp m d s l : bytes_at m s l -> mapped m d (length l) -> Forall byte l ->
  Z.of_nat (length l) < 2 ^ 31 -> 0 <= d < 2 ^ 63 -> 0 <= s < 2 ^ 63 ->
  wp (memmove d s (Z.of_nat (length l))) m (fun r m' => r = d /\ m' = put m d l).
Proof.
  intros Hs Hd Hb Hc Hdr Hsr. unfold memmove. case_if.
  - apply orb_true_iff in E as [E|E]; bool_prop.
    + destruct l; [by wp_step|simpl in E; lia].
    + subst s. pose proof (memcpy_wp m d d l Hs Hd Hb Hc (or_introl (Z.le_refl d))) as Hw.
      unfold memcpy in Hw. rewrite Z.eqb_refl, orb_true_r in Hw. exact Hw.
  - rewrite !sw_small by lia. wp_step. case_if.
    + eapply wp_mono; [apply move_up_spec; try done; left; lia|]. intros _ m' ->. by wp_step.
    + eapply wp_mono; [apply move_down_spec; try done; left; lia|]. intros _ m' ->. by wp_step.
Qed.

(** C24. memmove writes at the destination the bytes the source held before the call, whatever
    the overlap and the alignment of the two ranges, and so does memcpy when the ranges
    are disjoint or the destination lies below the source; no other byte changes. The
    length is below 2^31, the range of the int counters. *)
Theorem copies_move_bytes m d s l :
  bytes_at m s l -> mapped m d (length l) -> Forall byte l -> Z.of_nat (length l) < 2 ^ 31 ->
  0 <= d < 2 ^ 63 -> 0 <= s < 2 ^ 63 ->
  memmove d s (Z.of_nat (length l)) m = Some (d, put m d l) /\
  (d <= s \/ disjoint_ranges d (length l) s (length l) ->
    memcpy d s (Z.of_nat (length l)) m = Some (d, put m d l)).
Proof.
  intros Hs Hd Hb Hc Hdr Hsr. split; [|intros Hm].
  - destruct (proj1 (wp_run _ _ _) (memmove_wp m d s l Hs Hd Hb Hc Hdr Hsr)) as (? & ? & -> & -> & ->). done.
  - destruct (proj1 (wp_run _ _ _) (memcpy_wp m d s l Hs Hd Hb Hc Hm)) as (? & ? & -> & -> & ->). done.
Qed.

(** Twenty bytes at 100 moved three up, over themselves. *)
Definition sample_bytes : list Z := Z.of_nat <$> seq 1 20.
Definition sample_mem : mem := put (put ∅ 100 (replicate 64 0)) 100 sample_bytes.

Lemma bytes_at_check (m : mem) p l :
  forallb (fun i => bool_decide (m !! (p + Z.of_nat i) = l !! i)) (seq 0 (length l)) = true -> bytes_at m p l.
Proof.
  intros Hc i b Hi. rewrite forallb_forall in Hc.
  assert (In i (seq 0 (length l))) as Hin by (apply in_seq; apply lookup_lt_Some in Hi; lia).
  specialize (Hc i Hin). apply bool_decide_eq_true in Hc. congruence.
Qed.

Lemma mapped_check (m : mem) p n :
  forallb (fun i => bool_decide (is_Some (m !! (p + Z.of_nat i)))) (seq 0 n) = true -> mapped m p n.
Proof.
  intros Hc i Hi. rewrite forallb_forall in Hc. assert (In i (seq 0 n)) as Hin by (apply in_seq; lia).
  specialize (Hc i Hin). by apply bool_decide_eq_true in Hc.
Qed.

Lemma byte_check l : forallb (fun b => (0 <=? b) && (b <? 256)) l = true -> Forall byte l.
Proof.
  intros Hc. apply Forall_forall. intros b Hb. rewrite forallb_forall in Hc.
  specialize (Hc b ltac:(by apply list_elem_of_In)). bool_prop. unfold byte. lia.
Qed.

Lemma copies_move_bytes_witness :
  memmove 103 100 20 sample_mem = Some (103, put sample_mem 103 sample_bytes) /\
  (103 <= 100 \/ disjoint_ranges 103 20 100 20 -> memcpy 103 100 20 sample_mem = Some (103, put sample_mem 103 sample_bytes)).
Proof.
  apply (copies_move_bytes sample_mem 103 100 sample_bytes).
  - apply bytes_at_check. vm_compute. reflexivity.
  - apply mapped_check. vm_compute. reflexivity.
  - apply byte_check. vm_compute. reflexivity.
  - vm_compute. reflexivity.
  - split; vm_compute; [discriminate|reflexivity].
  - split; vm_compute; [discriminate|reflexivity].
Defined.

(** * Filling *)

Lemma fill_spec n : forall m p c, mapped m p n ->
  wp (fill n p c) m (fun _ m' => m' = put m p (replicate n (u8 c))).
Proof.
  induction n as [|n IH]; intros m p c Hm; simpl; [by wp_step|].
  apply mapped_succ in Hm as [Hp Hm]. wp_step. apply wp_wr; [done|]. by apply IH, mapped_insert.
Qed.

Definition repeat_word (c : Z) : Z :=
  let cc := Z.lor c (Z.shiftl c 8) in
  let cc := Z.lor cc (Z.shiftl cc 16) in
  Z.lor cc (Z.shiftl cc 32).

(** The word [memset] builds is the byte eight times over: all 256 cases. *)
Lemma repeat_word_bytes c : byte c -> word_bytes (repeat_word c) = replicate 8 c.
Proof.
  intros Hc. assert (forallb (fun i => bool_decide (word_bytes (repeat_word (Z.of_nat i)) = replicate 8 (Z.of_nat i)))
    (seq 0 256) = true) as Hall by by vm_compute.
  rewrite forallb_forall in Hall. unfold byte in Hc. specialize (Hall (Z.to_nat c) ltac:(apply in_seq; lia)).
  apply bool_decide_eq_true in Hall. by rewrite Z2Nat.id in Hall by lia.
Qed.

Lemma fill_words_spec n : forall m p c, byte c -> mapped m p (8 * n) ->
  wp (fill_words n p (repeat_word c)) m (fun _ m' => m' = put m p (replicate (8 * n) c)).
Proof.
  induction n as [|n IH]; intros m p c Hc Hm; cbn [fill_words]; [by wp_step|].
  rewrite repeat_word_bytes by done. wp_step.
  replace (8 * S n)%nat with (8 + 8 * n)%nat in * by lia. apply mapped_add in Hm as [H1 H2].
  apply wr_bytes_spec; [done|by apply Forall_replicate|].
  rewrite replicate_add, put_app, length_replicate. apply IH; [done|by apply put_mapped].
Qed.

Lemma u8_land c : Z.land c 0xff = u8 c.
Proof. change 0xff with (Z.ones 8). by rewrite Z.land_ones by lia. Qed.

Lemma u8_range c : byte (u8 c).
Proof. exact (uw_range 8 c ltac:(lia)). Qed.

Lemma memset_wp m s c n : mapped m s n ->
  wp (memset s c (Z.of_nat n)) m (fun r m' => r = s /\ m' = put m s (replicate n (u8 c))).
Proof.
  intros Hm. unfold memset. change 7 with lmask. rewrite !land_lmask, u8_land. 
  set (len := u64 (- s) mod 8). assert (0 <= len < 8) by (apply Z.mod_pos_bound; lia). clearbody len.
  wp_step. case_if.
  - fold (repeat_word (u8 c)). set (k := Z.of_nat n - len).
    assert (exists a b, n = (Z.to_nat len + (8 * a + b))%nat /\ k / 8 = Z.of_nat a /\ k mod 8 = Z.of_nat b)
      as (a & b & -> & Ha & Hb).
    { exists (Z.to_nat (k / 8)), (Z.to_nat (k mod 8)).
      assert (0 <= k / 8) by (apply Z.div_pos; lia). pose proof (Z.mod_pos_bound k 8 ltac:(lia)).
      pose proof (Z.div_mod k 8 ltac:(lia)). lia. }
    rewrite Ha, Hb, !Nat2Z.id. clearbody k. apply mapped_add in Hm as [H1 H2]. apply mapped_add in H2 as [H2 H3].
    rewrite Z2Nat.id in * by lia. wp_step. eapply wp_mono; [by apply fill_spec|]. intros _ m1 ->. wp_step.
    eapply wp_mono; [apply fill_words_spec; [apply u8_range|by apply put_mapped]|]. intros _ m2 ->.
    replace (s + len + 8 * Z.of_nat a) with (s + len + Z.of_nat (8 * a)) by lia.
    eapply wp_mono; [apply fill_spec; by do 2 apply put_mapped|]. intros _ m3 ->. wp_step. split; [done|].
    rewrite !replicate_add, !put_app, !length_replicate. by rewrite Z2Nat.id by lia.
  - rewrite Nat2Z.id. eapply wp_mono; [by apply fill_spec|]. intros _ m1 ->. by wp_step.
Qed.

(** [memset] sets exactly the requested bytes, through its unaligned head, its words and its tail. *)
Theorem memset_fills m s c n :
  mapped m s n -> memset s c (Z.of_nat n) m = Some (s, put m s (replicate n (u8 c))).
Proof. intros Hm. destruct (proj1 (wp_run _ _ _) (memset_wp m s c n Hm)) as (? & ? & -> & -> & ->). done. Qed.

Lemma memset_fills_witness : memset 101 (-1) 30 sample_mem = Some (101, put sample_mem 101 (replicate 30 255)).
Proof. apply (memset_fills sample_mem 101 (-1) 30). apply mapped_check. vm_compute. reflexivity. Defined.

End CStringProps.
