(* ===== verification/StrProps.v ===== *)
(** What the string functions do, against list functions: lengths and copies,
    comparison, search, spans and tokens. *)
From S2P Require Import Prelude Mem Ctype CString CStringProps.
Local Open Scope Z_scope.

Module StrProps.
Import Mem CString CStringProps.

(** * Running memory code forward *)

Lemma bind_some {S A B} (x : M S A) (k : A -> M S B) s a s' : x s = Some (a, s') -> (x ≫= k) s = k a s'.
Proof. unfold mbind, M_bind. by intros ->. Qed.

Lemma rd_some m p b : m !! p = Some b -> rd p m = Some (b, m).
Proof. unfold rd, deref. by intros ->. Qed.

Lemma wr_some m p b : is_Some (m !! p) -> wr p b m = Some (tt, <[p := u8 b]> m).
Proof. intros [c Hc]. unfold wr. by rewrite (bind_some _ _ _ _ _ (rd_some _ _ _ Hc)). Qed.

Lemma wr_byte m p b : is_Some (m !! p) -> byte b -> wr p b m = Some (tt, <[p := b]> m).
Proof. intros Hp Hb. by rewrite wr_some, u8_byte. Qed.

Ltac run H := rewrite (bind_some _ _ _ _ _ H); cbn beta iota zeta.

Lemma byte_0 : byte 0.
Proof. unfold byte. lia. Qed.

(** A string's bytes differ from NUL, its end is one. *)
Lemma eqb_nul b : b ≠ 0 -> (b =? 0) = false.
Proof. apply Z.eqb_neq. Qed.

Lemma cstr_insert m p l q b : cstr m p l -> q < p \/ p + Z.of_nat (length l) < q -> cstr (<[q := b]> m) p l.
Proof.
  intros [Hb Hf] Hq. split; [|done]. intros i c Hi. rewrite lookup_insert_ne; [by apply Hb|].
  apply lookup_lt_Some in Hi. rewrite length_app in Hi. simpl in Hi. lia.
Qed.

Lemma cstr_app m p k l : cstr m p (k ++ l) -> cstr m (p + Z.of_nat (length k)) l.
Proof.
  intros [Hb Hf]. rewrite <- app_assoc in Hb. apply bytes_at_app in Hb as [_ Hb].
  apply Forall_app in Hf as [_ Hf]. done.
Qed.

Lemma cstr_bytes m p l : cstr m p l -> Forall byte (l ++ [0]).
Proof.
  intros [_ Hf]. apply Forall_app. split; [|by constructor; [apply byte_0|]].
  eapply Forall_impl; [exact Hf|]. by intros b [_ ?].
Qed.

Lemma cstr_nonzero m p l : cstr m p l -> Forall (fun b => b ≠ 0) l.
Proof. intros [_ Hf]. eapply Forall_impl; [exact Hf|]. by intros b [? _]. Qed.

(** * Lengths *)

Lemma strlen_loop_run l : forall fuel s i m, cstr m (s + i) l -> (length l < fuel)%nat ->
  strlen_loop fuel s i m = Some (i + Z.of_nat (length l), m).
Proof.
  induction l as [|b l IH]; intros [|fuel] s i m Hc Hf; simpl in Hf; try lia; cbn [strlen_loop].
  - apply cstr_nil in Hc. run (rd_some _ _ _ Hc). simpl. by rewrite Z.add_0_r.
  - apply cstr_cons in Hc as (Hp & Hb & _ & Hl). run (rd_some _ _ _ Hp). rewrite eqb_nul by done.
    rewrite IH; [|by rewrite Z.add_assoc|lia]. simpl length. do 2 f_equal. lia.
Qed.

Lemma strlen_run m s l : cstr m s l -> strlen s m = Some (Z.of_nat (length l), m).
Proof.
  intros Hc. unfold strlen, with_fuel. pose proof (cstr_fuel _ _ _ Hc).
  rewrite (strlen_loop_run l); [done|by rewrite Z.add_0_r|lia].
Qed.

Lemma strnlen_loop_run l : forall n s sc m, bytes_at m sc (take n (l ++ [0])) -> Forall (fun b => b ≠ 0) l ->
  strnlen_loop n s sc m = Some (sc - s + Z.of_nat (Nat.min n (length l)), m).
Proof.
  induction l as [|b l IH]; intros [|n] s sc m Hc Hf; cbn [strnlen_loop]; try by rewrite Z.add_0_r.
  - apply bytes_at_cons in Hc as [Hp _]. run (rd_some _ _ _ Hp). simpl. by rewrite Z.add_0_r.
  - apply bytes_at_cons in Hc as [Hp Hc]. apply Forall_cons in Hf as [Hb Hf].
    run (rd_some _ _ _ Hp). rewrite eqb_nul, IH by done. simpl length. do 2 f_equal. lia.
Qed.

Lemma bytes_at_take m p l n : bytes_at m p l -> bytes_at m p (take n l).
Proof. intros Hb i b Hi. apply Hb. apply lookup_take_Some in Hi as [? _]. done. Qed.

(** * Copies *)

Lemma copy_str_run l : forall fuel d s m, cstr m s l -> mapped m d (S (length l)) ->
  disjoint_ranges d (S (length l)) s (S (length l)) -> (length l < fuel)%nat ->
  copy_str fuel d s m = Some (tt, put m d (l ++ [0])).
Proof.
  induction l as [|b l IH]; intros [|fuel] d s m Hc Hd Hdis Hf; simpl in Hf; try lia; cbn [copy_str].
  - apply cstr_nil in Hc. apply mapped_succ in Hd as [Hd _]. run (rd_some _ _ _ Hc).
    run (wr_byte _ _ _ Hd byte_0). done.
  - apply cstr_cons in Hc as (Hp & Hb & Hbb & Hl). apply mapped_succ in Hd as [Hd Hdl]. simpl in Hdis.
    unfold disjoint_ranges in Hdis. run (rd_some _ _ _ Hp). run (wr_byte _ _ _ Hd Hbb). rewrite eqb_nul by done.
    rewrite IH; [done| |by intros i Hi; rewrite lookup_insert; case_decide; [done|apply Hdl]| |lia].
    + apply cstr_insert; [done|lia].
    + unfold disjoint_ranges. lia.
Qed.

Lemma find_end_run k : forall fuel d m, cstr m d k -> (length k < fuel)%nat ->
  find_end fuel d m = Some (d + Z.of_nat (length k), m).
Proof.
  induction k as [|b k IH]; intros [|fuel] d m Hc Hf; simpl in Hf; try lia; cbn [find_end].
  - apply cstr_nil in Hc. run (rd_some _ _ _ Hc). simpl. by rewrite Z.add_0_r.
  - apply cstr_cons in Hc as (Hp & Hb & _ & Hl). run (rd_some _ _ _ Hp). rewrite eqb_nul by done.
    rewrite IH; [|done|lia]. simpl length. do 2 f_equal. lia.
Qed.

(** [strncpy] copies as much of the string and its NUL as fits in [n]. *)
Lemma strncpy_loop_run l : forall n d s m, cstr m s l ->
  mapped m d (Nat.min n (S (length l))) -> disjoint_ranges d n s (S (length l)) ->
  strncpy_loop n d s m = Some (tt, put m d (take n (l ++ [0]))).
Proof.
  induction l as [|b l IH]; intros [|n] d s m Hc Hd Hdis; cbn [strncpy_loop]; try done; simpl in Hd, Hdis.
  - apply cstr_nil in Hc. apply mapped_succ in Hd as [Hd _]. run (rd_some _ _ _ Hc).
    run (wr_byte _ _ _ Hd byte_0). simpl. by rewrite take_nil.
  - apply cstr_cons in Hc as (Hp & Hb & Hbb & Hl). apply mapped_succ in Hd as [Hd Hdl].
    unfold disjoint_ranges in Hdis. run (rd_some _ _ _ Hp). run (wr_byte _ _ _ Hd Hbb). rewrite eqb_nul by done.
    rewrite IH; [done| |by intros i Hi; rewrite lookup_insert; case_decide; [done|apply Hdl]|].
    + apply cstr_insert; [done|lia].
    + unfold disjoint_ranges. lia.
Qed.

(** [strncat] appends at most [n] bytes and always a NUL. *)
Lemma strncat_loop_run l : forall n d s m, cstr m s l ->
  mapped m d (S (Nat.min (S n) (length l))) -> disjoint_ranges d (S (S n)) s (S (length l)) ->
  strncat_loop (S n) d s m = Some (tt, put m d (take (S n) l ++ [0])).
Proof.
  induction l as [|b l IH]; intros n d s m Hc Hd Hdis; simpl in Hd, Hdis.
  - cbn [strncat_loop]. apply cstr_nil in Hc. apply mapped_succ in Hd as [Hd _]. run (rd_some _ _ _ Hc).
    run (wr_byte _ _ _ Hd byte_0). done.
  - apply cstr_cons in Hc as (Hp & Hb & Hbb & Hl). apply mapped_succ in Hd as [Hd Hdl].
    unfold disjoint_ranges in Hdis. cbn [strncat_loop]. run (rd_some _ _ _ Hp). run (wr_byte _ _ _ Hd Hbb).
    rewrite eqb_nul by done. apply mapped_succ in Hdl as Hdl'. destruct Hdl' as [Hd1 _].
    destruct n as [|n].
    + rewrite wr_byte; [by destruct l| |exact byte_0]. rewrite lookup_insert. by case_decide.
    + rewrite IH; [done| |by intros i Hi; rewrite lookup_insert; case_decide; [done|apply Hdl]|].
      * apply cstr_insert; [done|lia].
      * unfold disjoint_ranges. lia.
Qed.

Lemma lcopy_run l : forall n d s i m, cstr m (s + i) l ->
  mapped m (d + i) (Nat.min n (length l)) -> disjoint_ranges (d + i) n (s + i) (S (length l)) ->
  lcopy n d s i m = Some (i + Z.of_nat (Nat.min n (length l)), put m (d + i) (take n l)).
Proof.
  induction l as [|b l IH]; intros [|n] d s i m Hc Hd Hdis; cbn [lcopy]; simpl in Hd, Hdis;
    try by rewrite Z.add_0_r.
  - apply cstr_nil in Hc. run (rd_some _ _ _ Hc). simpl. by rewrite Z.add_0_r.
  - apply cstr_cons in Hc as (Hp & Hb & Hbb & Hl). apply mapped_succ in Hd as [Hd Hdl].
    unfold disjoint_ranges in Hdis. run (rd_some _ _ _ Hp). rewrite eqb_nul by done. run (wr_byte _ _ _ Hd Hbb).
    rewrite IH; rewrite ?Z.add_assoc.
    + cbn [take put length Nat.min]. rewrite Nat2Z.inj_succ. f_equal. f_equal. lia.
    + apply cstr_insert; [done|lia].
    + by intros j Hj; rewrite lookup_insert; case_decide; [done|apply Hdl].
    + unfold disjoint_ranges. lia.
Qed.

Lemma strnlen_run m s l n : cstr m s l ->
  strnlen s (Z.of_nat n) m = Some (Z.of_nat (Nat.min n (length l)), m).
Proof.
  intros Hc. unfold strnlen. rewrite Nat2Z.id, (strnlen_loop_run l); [do 2 f_equal; lia| |by eapply cstr_nonzero].
  by apply bytes_at_take, Hc.
Qed.

Lemma mapped_app m p n k : mapped m p (n + k) -> mapped m (p + Z.of_nat n) k.
Proof.
  intros Hm i Hi. specialize (Hm (n + i)%nat ltac:(lia)).
  by replace (p + Z.of_nat n + Z.of_nat i) with (p + Z.of_nat (n + i)) by lia.
Qed.

(** C25. strlen, strnlen, strcpy, strncpy, strcat and strncat on zero-terminated strings: the
    length, the bytes written with the terminator, the destination returned; for strncpy
    that it stops at the terminator or at the bound (it does not pad). *)
Theorem strings_are_copied m d s k l n :
  cstr m s l -> cstr m d k ->
  strlen s m = Some (Z.of_nat (length l), m) /\
  strnlen s (Z.of_nat n) m = Some (Z.of_nat (Nat.min n (length l)), m) /\
  (mapped m d (S (length l)) -> disjoint_ranges d (S (length l)) s (S (length l)) ->
    strcpy d s m = Some (d, put m d (l ++ [0]))) /\
  (mapped m d (Nat.min n (S (length l))) -> disjoint_ranges d n s (S (length l)) ->
    strncpy d s (Z.of_nat n) m = Some (d, put m d (take n (l ++ [0])))) /\
  (mapped m d (length k + S (length l)) ->
    disjoint_ranges d (length k + S (length l)) s (S (length l)) ->
    strcat d s m = Some (d, put m (d + Z.of_nat (length k)) (l ++ [0]))) /\
  (mapped m d (length k + S (Nat.min n (length l))) ->
    disjoint_ranges d (length k + S n) s (S (length l)) ->
    strncat d s (Z.of_nat n) m =
      Some (d, match n with O => m | _ => put m (d + Z.of_nat (length k)) (take n l ++ [0]) end)).
Proof.
  intros Hs Hk. pose proof (cstr_fuel _ _ _ Hs). pose proof (cstr_fuel _ _ _ Hk).
  split; [by apply strlen_run|]. split; [by apply strnlen_run|]. repeat split; intros Hm Hd; unfold disjoint_ranges in Hd.
  - unfold strcpy, with_fuel. erewrite bind_some; [done|]. apply copy_str_run; [done|done|done|lia].
  - unfold strncpy. rewrite Nat2Z.id. erewrite bind_some; [done|]. by apply strncpy_loop_run.
  - unfold strcat, with_fuel. erewrite bind_some; [|apply (find_end_run k); [done|lia]].
    erewrite bind_some; [done|].
    apply copy_str_run; [done|by apply mapped_app|unfold disjoint_ranges; lia|lia].
  - unfold strncat. destruct n as [|n]; [done|]. rewrite (proj2 (Z.ltb_lt 0 (Z.of_nat (S n)))) by lia.
    rewrite Nat2Z.id. unfold with_fuel. erewrite bind_some; [done|].
    erewrite bind_some; [|apply (find_end_run k); [done|lia]].
    apply strncat_loop_run; [done|by apply mapped_app|unfold disjoint_ranges; lia].
Qed.

(** [foo] at 100 and [barbaz] at 200. *)
Definition foo : list Z := [102; 111; 111].
Definition barbaz : list Z := [98; 97; 114; 98; 97; 122].
Definition str_mem : mem := put (put (put ∅ 100 (replicate 200 0)) 100 foo) 200 barbaz.

Lemma cstr_check (m : mem) p l :
  forallb (fun i => bool_decide (m !! (p + Z.of_nat i) = (l ++ [0]) !! i)) (seq 0 (S (length l))) &&
  forallb (fun b => (0 <? b) && (b <? 256)) l = true -> cstr m p l.
Proof.
  rewrite andb_true_iff, !forallb_forall. intros [Hb Hf]. split.
  - intros i b Hi. assert (In i (seq 0 (S (length l)))) as Hin.
    { apply in_seq. apply lookup_lt_Some in Hi. rewrite length_app in Hi. simpl in Hi. lia. }
    specialize (Hb i Hin). apply bool_decide_eq_true in Hb. congruence.
  - apply Forall_forall. intros b Hin. specialize (Hf b ltac:(by apply list_elem_of_In)). bool_prop.
    unfold byte. lia.
Qed.

Lemma strings_are_copied_witness :
  cstr str_mem 200 barbaz /\ cstr str_mem 100 foo /\ strlen 200 str_mem = Some (6, str_mem).
Proof.
  assert (cstr str_mem 200 barbaz) as Hs by (apply cstr_check; vm_compute; reflexivity).
  assert (cstr str_mem 100 foo) as Hk by (apply cstr_check; vm_compute; reflexivity).
  split; [exact Hs|]. split; [exact Hk|].
  exact (proj1 (strings_are_copied str_mem 100 200 foo barbaz 4 Hs Hk)).
Defined.

(** The common end of [strlcpy] and [strlcat]. *)
Lemma lcopy_nul_run {A} (f : Z -> Z -> A) m d s l n :
  cstr m s l -> mapped m d (S (Nat.min n (length l))) -> disjoint_ranges d (S n) s (S (length l)) ->
  (i ← lcopy n d s 0; _ ← wr (d + i) 0; k ← strlen (s + i); mret (f i k)) m =
  let i := Z.of_nat (Nat.min n (length l)) in
  Some (f i (Z.of_nat (length l) - i), put m d (take n l ++ [0])).
Proof.
  intros Hs Hm Hd. unfold disjoint_ranges in Hd.
  erewrite bind_some; [|apply (lcopy_run l); rewrite ?Z.add_0_r; [done|by eapply mapped_le; [exact Hm|lia]|unfold disjoint_ranges; lia]].
  rewrite Z.add_0_r, Z.add_0_l.
  erewrite bind_some; [|apply wr_byte; [|exact byte_0]; apply (put_mapped _ _ _ _ _ Hm); lia].
  assert (put m d (take n l ++ [0]) = <[d + Z.of_nat (Nat.min n (length l)):=0]> (put m d (take n l))) as Hput.
  { by rewrite put_app, length_take. }
  rewrite <- Hput. erewrite bind_some; [|apply (strlen_run _ _ (drop n l))].
  - rewrite length_drop. unfold mret, M_ret. cbn zeta. do 3 f_equal. lia.
  - assert (cstr (put m d (take n l ++ [0])) s l) as Hs'.
    { destruct Hs as [Hb Hf]. split; [|done]. apply put_bytes_other; [done|].
      unfold disjoint_ranges. rewrite !length_app, length_take. simpl. lia. }
    rewrite <- (take_drop n l) in Hs' at 2. apply cstr_app in Hs'. by rewrite length_take in Hs'.
Qed.

(** C26. strlcpy writes at most its size bytes, always terminated, and returns the length of
    the source; with size 0 it and strlcat write nothing and return that length. strlcat,
    where j is the length of the destination or the size if that is smaller, writes at j
    at most size - 1 bytes of the source and a terminator, and returns j plus the length
    of the source: behind a destination shorter than the size, and inside one that is not.
    The strings do not overlap, and what is written is mapped memory. *)
Theorem strlcpy_bounded m d s k l n :
  cstr m s l -> cstr m d k ->
  strlcpy d s 0 m = Some (Z.of_nat (length l), m) /\ strlcat d s 0 m = Some (Z.of_nat (length l), m) /\
  (mapped m d (S (Nat.min n (length l))) -> disjoint_ranges d (S n) s (S (length l)) ->
    strlcpy d s (Z.of_nat (S n)) m = Some (Z.of_nat (length l), put m d (take n l ++ [0]))) /\
  let j := Nat.min (S n) (length k) in
  (mapped m d (j + S (Nat.min n (length l))) ->
   disjoint_ranges d (j + S n) s (S (length l)) ->
    strlcat d s (Z.of_nat (S n)) m =
      Some (Z.of_nat (j + length l), put m (d + Z.of_nat j) (take n l ++ [0]))).
Proof.
  intros Hs Hk. split; [by apply strlen_run|]. split.
  { unfold strlcat. erewrite bind_some; [|by apply (strnlen_run _ _ k 0)]. simpl. by erewrite bind_some; [|by apply strlen_run]. }
  split; intros Hm; [intros Hd|intros Hmm Hd]; unfold disjoint_ranges in Hd.
  - unfold strlcpy. rewrite (proj2 (Z.eqb_neq (Z.of_nat (S n)) 0)) by lia.
    replace (Z.to_nat (Z.of_nat (S n) - 1)) with n by lia.
    rewrite (lcopy_nul_run Z.add _ _ _ l) by (done || unfold disjoint_ranges; lia).
    cbn zeta. do 2 f_equal. lia.
  - unfold strlcat. erewrite bind_some; [|by apply (strnlen_run _ _ k)]. change (Nat.min (S n) (length k)) with Hm.
    rewrite (proj2 (Z.eqb_neq (Z.of_nat (S n)) 0)) by lia.
    replace (Z.to_nat (Z.of_nat (S n) - 1)) with n by lia. cbn zeta.
    rewrite (lcopy_nul_run (fun i n => Z.of_nat Hm + i + n) _ _ _ l);
      [|done|by apply mapped_app|unfold disjoint_ranges; lia].
    cbn zeta. do 2 f_equal. lia.
Qed.

Lemma strlcpy_bounded_witness :
  strlcpy 100 200 4 str_mem = Some (6, put str_mem 100 (take 3 barbaz ++ [0])).
Proof.
  assert (cstr str_mem 200 barbaz) as Hs by (apply cstr_check; vm_compute; reflexivity).
  assert (cstr str_mem 100 foo) as Hk by (apply cstr_check; vm_compute; reflexivity).
  refine (proj1 (proj2 (proj2 (strlcpy_bounded str_mem 100 200 foo barbaz 3 Hs Hk))) _ _).
  - apply mapped_check. vm_compute. reflexivity.
  - left. vm_compute. discriminate.
Defined.

(** The bound [strlcat] keeps is not the size of the buffer: told that the
    buffer at 100 has 6 bytes, it writes the byte at 107. *)
Lemma strlcat_overruns :
  option_map (fun r : Z * mem => r.2 !! 107) (strlcat 100 200 6 str_mem) = Some (Some 97) /\ str_mem !! 107 = Some 0.
Proof. split; vm_compute; reflexivity. Qed.

(** * Comparison *)

(** The difference at the first place where two byte strings differ. *)
Fixpoint diff (l1 l2 : list Z) : Z :=
  match l1, l2 with
  | a :: l1, b :: l2 => if a =? b then diff l1 l2 else a - b
  | _, _ => 0
  end.

(** Lexicographic order, a proper prefix first. *)
Fixpoint lex (l1 l2 : list Z) : comparison :=
  match l1, l2 with
  | [], [] => Eq
  | [], _ :: _ => Lt
  | _ :: _, [] => Gt
  | a :: l1, b :: l2 => match a ?= b with Eq => lex l1 l2 | c => c end
  end.

Definition ascii (b : Z) : Prop := 0 < b < 128.

Lemma s8_sub a b : byte a -> byte b -> (s8 (a - b) =? 0) = (a =? b).
Proof.
  unfold byte. intros Ha Hb. destruct (a =? b) eqn:E; bool_prop.
  - subst. by rewrite Z.sub_diag.
  - apply Z.eqb_neq. intros Hz. destruct (sw_eqm 8 (a - b) ltac:(lia)) as [k Hk]. rewrite Hz in Hk.
    change (2 ^ 8) with 256 in Hk. assert (k = 0) by lia. subst. lia.
Qed.

Lemma diff_nil_r l : diff l [] = 0.
Proof. by destruct l. Qed.

Lemma memcmp_loop_run l1 : forall l2 p q m, length l1 = length l2 -> bytes_at m p l1 -> bytes_at m q l2 ->
  Forall byte l1 -> Forall byte l2 -> memcmp_loop (length l1) p q 0 m = Some (s8 (diff l1 l2), m).
Proof.
  induction l1 as [|a l1 IH]; intros [|b l2] p q m Hlen H1 H2 F1 F2; simpl in Hlen; try lia; [done|].
  apply bytes_at_cons in H1 as [H1 H1']. apply bytes_at_cons in H2 as [H2 H2'].
  apply Forall_cons in F1 as [Ha F1]. apply Forall_cons in F2 as [Hb F2]. cbn [memcmp_loop length diff].
  run (rd_some _ _ _ H1). run (rd_some _ _ _ H2). rewrite s8_sub by done.
  destruct (a =? b) eqn:E; simpl; [|done]. bool_prop. subst. rewrite Z.sub_diag. change (s8 0) with 0.
  apply IH; auto with lia.
Qed.

Lemma strcmp_loop_run l1 : forall l2 fuel p q m, cstr m p l1 -> cstr m q l2 -> (length l1 < fuel)%nat ->
  strcmp_loop fuel p q m = Some (s8 (diff (l1 ++ [0]) (l2 ++ [0])), m).
Proof.
  induction l1 as [|a l1 IH]; intros l2 [|fuel] p q m H1 H2 Hf; simpl in Hf; try lia; cbn [strcmp_loop].
  - apply cstr_nil in H1. destruct l2 as [|b l2].
    + apply cstr_nil in H2. run (rd_some _ _ _ H1). run (rd_some _ _ _ H2). done.
    + apply cstr_cons in H2 as (H2 & Hb & _ & _). run (rd_some _ _ _ H1). run (rd_some _ _ _ H2).
      rewrite orb_true_r. unfold diff. cbn [app]. rewrite (proj2 (Z.eqb_neq 0 b)) by done. done.
  - apply cstr_cons in H1 as (H1 & Ha & Hab & H1'). run (rd_some _ _ _ H1).
    destruct l2 as [|b l2].
    + apply cstr_nil in H2. run (rd_some _ _ _ H2). rewrite (eqb_nul a), orb_false_r, s8_sub by (done || exact byte_0).
      cbn [app diff]. by rewrite eqb_nul.
    + apply cstr_cons in H2 as (H2 & Hb & Hbb & H2'). run (rd_some _ _ _ H2). rewrite (eqb_nul a), orb_false_r, s8_sub by done.
      cbn [app diff]. destruct (a =? b); simpl; [|done]. apply IH; [done|done|lia].
Qed.

Lemma strncmp_loop_run n : forall l1 l2 p q m, cstr m p l1 -> cstr m q l2 ->
  strncmp_loop n p q 0 m = Some (s8 (diff (take n (l1 ++ [0])) (take n (l2 ++ [0]))), m).
Proof.
  induction n as [|n IH]; intros l1 l2 p q m H1 H2; [by rewrite !take_0|]. cbn [strncmp_loop].
  destruct l1 as [|a l1].
  - apply cstr_nil in H1. run (rd_some _ _ _ H1). destruct l2 as [|b l2].
    + apply cstr_nil in H2. run (rd_some _ _ _ H2). simpl. by rewrite !take_nil.
    + apply cstr_cons in H2 as (H2 & Hb & _ & _). run (rd_some _ _ _ H2).
      rewrite orb_true_r. unfold diff. cbn [app take]. rewrite (proj2 (Z.eqb_neq 0 b)) by done. done.
  - apply cstr_cons in H1 as (H1 & Ha & Hab & H1'). run (rd_some _ _ _ H1).
    destruct l2 as [|b l2].
    + apply cstr_nil in H2. run (rd_some _ _ _ H2). rewrite (eqb_nul a), orb_false_r, s8_sub by (done || exact byte_0).
      cbn [app diff take]. by rewrite eqb_nul.
    + apply cstr_cons in H2 as (H2 & Hb & Hbb & H2'). run (rd_some _ _ _ H2). rewrite (eqb_nul a), orb_false_r, s8_sub by done.
      cbn [app diff take]. destruct (a =? b) eqn:E; simpl; [|done]. bool_prop. subst. rewrite Z.sub_diag.
      change (s8 0) with 0. by apply IH.
Qed.

(** The truncated difference is zero only between equal strings, and has the
    sign of the lexicographic order on ASCII. *)
Lemma diff_cstr_zero l1 : forall l2, Forall (fun b => b ≠ 0 /\ byte b) l1 -> Forall (fun b => b ≠ 0 /\ byte b) l2 ->
  s8 (diff (l1 ++ [0]) (l2 ++ [0])) = 0 <-> l1 = l2.
Proof.
  induction l1 as [|a l1 IH]; intros [|b l2] F1 F2; try apply Forall_cons in F1 as [[Ha Hab] F1];
    try apply Forall_cons in F2 as [[Hb Hbb] F2]; cbn [app diff].
  - done.
  - rewrite (proj2 (Z.eqb_neq 0 b)) by done. split; [|done]. intros Hz%Z.eqb_eq.
    rewrite s8_sub in Hz by (done || exact byte_0). bool_prop. congruence.
  - rewrite eqb_nul by done. split; [|done]. intros Hz%Z.eqb_eq.
    rewrite s8_sub in Hz by (done || exact byte_0). bool_prop. congruence.
  - destruct (a =? b) eqn:E; bool_prop.
    + subst. rewrite IH by done. split; congruence.
    + split; [|congruence]. intros Hz%Z.eqb_eq. rewrite s8_sub in Hz by done. bool_prop. done.
Qed.

Lemma diff_mem_zero l1 : forall l2, length l1 = length l2 -> Forall byte l1 -> Forall byte l2 ->
  s8 (diff l1 l2) = 0 <-> l1 = l2.
Proof.
  induction l1 as [|a l1 IH]; intros [|b l2] Hlen F1 F2; simpl in Hlen; try lia; [done|].
  apply Forall_cons in F1 as [Ha F1]. apply Forall_cons in F2 as [Hb F2]. cbn [diff].
  destruct (a =? b) eqn:E; bool_prop.
  - subst. rewrite IH by auto with lia. split; congruence.
  - split; [|congruence]. intros Hz%Z.eqb_eq. rewrite s8_sub in Hz by done. bool_prop. done.
Qed.

Lemma diff_lex l1 : forall l2, Forall ascii l1 -> Forall ascii l2 ->
  (s8 (diff (l1 ++ [0]) (l2 ++ [0])) ?= 0) = lex l1 l2.
Proof.
  unfold ascii. induction l1 as [|a l1 IH]; intros [|b l2] F1 F2; try apply Forall_cons in F1 as [Ha F1];
    try apply Forall_cons in F2 as [Hb F2]; cbn [app diff lex].
  - done.
  - rewrite (proj2 (Z.eqb_neq 0 b)), sw_small by lia. apply Z.compare_lt_iff. lia.
  - rewrite (proj2 (Z.eqb_neq a 0)), sw_small by lia. apply Z.compare_gt_iff. lia.
  - destruct (Z.compare_spec a b) as [->| |].
    + rewrite Z.eqb_refl. by apply IH.
    + rewrite (proj2 (Z.eqb_neq a b)), sw_small by lia. apply Z.compare_lt_iff. lia.
    + rewrite (proj2 (Z.eqb_neq a b)), sw_small by lia. apply Z.compare_gt_iff. lia.
Qed.

(** A prefix of a string with its NUL compares like the prefix as a string. *)
Lemma diff_take n l1 : forall l2, diff (take n (l1 ++ [0])) (take n (l2 ++ [0])) = diff (take n l1 ++ [0]) (take n l2 ++ [0]).
Proof.
  revert l1. induction n as [|n IH]; intros l1 l2; [done|]. destruct l1 as [|a l1], l2 as [|b l2]; cbn [app take diff].
  - by rewrite !take_nil.
  - rewrite take_nil. by destruct (take n (l2 ++ [0])), (take n l2 ++ [0]).
  - rewrite take_nil. case_if; [|done]. by rewrite !diff_nil_r.
  - by rewrite IH.
Qed.

(** C27. strcmp, strcoll, strncmp and memcmp return 0 exactly on equal strings (equal
    prefixes, for strncmp), and on ASCII strings the sign of the result is the
    lexicographic order. *)
Theorem comparison_orders m p q l1 l2 n :
  cstr m p l1 -> cstr m q l2 ->
  exists r rn rm,
    strcmp p q m = Some (r, m) /\ strcoll p q m = Some (r, m) /\
    strncmp p q (Z.of_nat n) m = Some (rn, m) /\
    (length l1 = length l2 -> memcmp p q (Z.of_nat (length l1)) m = Some (rm, m)) /\
    (r = 0 <-> l1 = l2) /\ (rn = 0 <-> take n l1 = take n l2) /\ (length l1 = length l2 -> rm = 0 <-> l1 = l2) /\
    (Forall ascii l1 -> Forall ascii l2 ->
      (r ?= 0) = lex l1 l2 /\ (rn ?= 0) = lex (take n l1) (take n l2) /\
      (length l1 = length l2 -> (rm ?= 0) = lex l1 l2)).
Proof.
  intros H1 H2. pose proof (cstr_fuel _ _ _ H1). pose proof H1 as [B1 F1]. pose proof H2 as [B2 F2].
  assert (Forall byte l1) as Y1 by (eapply Forall_impl; [exact F1|]; by intros ? [_ ?]).
  assert (Forall byte l2) as Y2 by (eapply Forall_impl; [exact F2|]; by intros ? [_ ?]).
  exists (s8 (diff (l1 ++ [0]) (l2 ++ [0]))), (s8 (diff (take n l1 ++ [0]) (take n l2 ++ [0]))), (s8 (diff l1 l2)).
  assert (strcmp p q m = Some (s8 (diff (l1 ++ [0]) (l2 ++ [0])), m)) as Hcmp.
  { unfold strcmp, with_fuel. apply strcmp_loop_run; [done|done|lia]. }
  split; [exact Hcmp|]. split; [exact Hcmp|].
  split; [unfold strncmp; rewrite Nat2Z.id, <- diff_take; by apply strncmp_loop_run|].
  split. { intros Hlen. unfold memcmp. rewrite Nat2Z.id. apply bytes_at_app in B1 as [? _].
           apply bytes_at_app in B2 as [? _]. by apply memcmp_loop_run. }
  split; [by apply diff_cstr_zero|]. split; [apply diff_cstr_zero; by apply Forall_take|].
  split; [intros; by apply diff_mem_zero|]. intros A1 A2. split; [by apply diff_lex|].
  split; [apply diff_lex; by apply Forall_take|]. intros Hlen. rewrite <- diff_lex by done. f_equal. f_equal.
  clear -Hlen. revert l2 Hlen. induction l1 as [|a l1 IH]; intros [|b l2] Hlen; simpl in *; try lia.
  case_if; [|done]. apply IH. lia.
Qed.

Lemma comparison_orders_witness : exists r, strcmp 100 200 str_mem = Some (r, str_mem) /\ (r ?= 0) = Gt.
Proof.
  assert (cstr str_mem 100 foo) as H1 by (apply cstr_check; vm_compute; reflexivity).
  assert (cstr str_mem 200 barbaz) as H2 by (apply cstr_check; vm_compute; reflexivity).
  destruct (comparison_orders str_mem 100 200 foo barbaz 3 H1 H2)
    as (r & rn & rm & Hr & _ & _ & _ & _ & _ & _ & Ha).
  exists r. split; [exact Hr|]. apply Ha; unfold ascii; repeat constructor.
Defined.

(** Beyond ASCII the order is not the one of [unsigned char]: the difference
    of [01] and [ff] truncates to 2. *)
Lemma strcmp_wrong_sign :
  (strcmp 10 20 (put (put ∅ 10 [1; 0]) 20 [255; 0])) ≫= (fun r => Some (0 <? r.1)) = Some true.
Proof. vm_compute. reflexivity. Qed.

(** * Search *)

(** The index of the first element that [f] accepts. *)
Fixpoint first_index (f : Z -> bool) (l : list Z) : option nat :=
  match l with
  | [] => None
  | b :: l => if f b then Some 0%nat else S <$> first_index f l
  end.

Lemma first_index_Some f l : forall i,
  first_index f l = Some i <->
  (exists b, l !! i = Some b /\ f b = true) /\ (forall j b, (j < i)%nat -> l !! j = Some b -> f b = false).
Proof.
  induction l as [|a l IH]; intros i; simpl.
  - split; [done|]. intros [(b & Hb & _) _]. by rewrite lookup_nil in Hb.
  - destruct (f a) eqn:Ha.
    + split; [intros [= <-]; split; [by exists a|lia]|]. intros [_ Hj]. destruct i as [|i]; [done|].
      specialize (Hj 0%nat a ltac:(lia) eq_refl). congruence.
    + destruct i as [|i].
      * split; [by destruct (first_index f l)|]. intros [(b & [= <-] & Hb) _]. congruence.
      * transitivity (first_index f l = Some i); [destruct (first_index f l); simpl; split; congruence|].
        rewrite IH. split; intros [He Hj]; (split; [exact He|]).
        -- intros [|j] b Hlt Hb; simpl in Hb; [congruence|]. apply (Hj j); [lia|done].
        -- intros j b Hlt Hb. apply (Hj (S j)); [lia|done].
Qed.

Lemma first_index_None f l : first_index f l = None <-> Forall (fun b => f b = false) l.
Proof.
  induction l as [|a l IH]; simpl; [by split|]. rewrite Forall_cons, <- IH.
  destruct (f a), (first_index f l); naive_solver.
Qed.

Definition ptr_at (s : Z) (i : nat) : Z := s + Z.of_nat i.

Lemma ptr_at_S s (o : option nat) : ptr_at (s + 1) <$> o = ptr_at s <$> (S <$> o).
Proof. destruct o; simpl; [|done]. unfold ptr_at. f_equal. lia. Qed.

Lemma strchr_loop_run l : forall fuel s c m, cstr m s l -> (length l < fuel)%nat ->
  strchr_loop fuel s c m = Some (ptr_at s <$> first_index (Z.eqb c) (l ++ [0]), m).
Proof.
  induction l as [|b l IH]; intros [|fuel] s c m Hc Hf; simpl in Hf; try lia; cbn [strchr_loop app first_index].
  - apply cstr_nil in Hc. run (rd_some _ _ _ Hc). rewrite (Z.eqb_sym 0). case_if; [|done].
    unfold mret, M_ret, ptr_at. simpl. by rewrite Z.add_0_r.
  - apply cstr_cons in Hc as (Hp & Hb & _ & Hl). run (rd_some _ _ _ Hp). rewrite (Z.eqb_sym b). case_if.
    + unfold mret, M_ret, ptr_at. simpl. by rewrite Z.add_0_r.
    + rewrite eqb_nul, IH, ptr_at_S by (done || lia). done.
Qed.

Lemma memchr_loop_run l : forall b x m, bytes_at m b l ->
  memchr_loop (length l) b x m = Some (ptr_at b <$> first_index (Z.eqb x) l, m).
Proof.
  induction l as [|y l IH]; intros b x m Hc; cbn [memchr_loop length first_index]; [done|].
  apply bytes_at_cons in Hc as [Hp Hl]. run (rd_some _ _ _ Hp). rewrite (Z.eqb_sym y). case_if.
  - unfold mret, M_ret, ptr_at. simpl. by rewrite Z.add_0_r.
  - by rewrite IH, ptr_at_S.
Qed.

(** The last occurrence. *)
Fixpoint last_index (f : Z -> bool) (l : list Z) : option nat :=
  match l with
  | [] => None
  | b :: l => match last_index f l with Some i => Some (S i) | None => if f b then Some 0%nat else None end
  end.

Lemma strrchr_loop_run l : forall fuel s c last m, cstr m s l -> (length l < fuel)%nat ->
  strrchr_loop fuel s c last m =
    Some (match last_index (Z.eqb c) l with Some i => Some (ptr_at s i) | None => last end, m).
Proof.
  induction l as [|b l IH]; intros [|fuel] s c last m Hc Hf; simpl in Hf; try lia; cbn [strrchr_loop last_index].
  - apply cstr_nil in Hc. by run (rd_some _ _ _ Hc).
  - apply cstr_cons in Hc as (Hp & Hb & _ & Hl). run (rd_some _ _ _ Hp). rewrite (Z.eqb_sym b c), eqb_nul, IH by (done || lia).
    destruct (last_index _ l) as [i|]; [unfold ptr_at; do 3 f_equal; lia|].
    case_if; [|done]. unfold ptr_at. simpl. by rewrite Z.add_0_r.
Qed.

Definition elem (k : list Z) (b : Z) : bool := bool_decide (b ∈ k).

Lemma in_set_run k : forall fuel b a m, cstr m a k -> (length k < fuel)%nat ->
  in_set fuel b a m = Some (elem k b, m).
Proof.
  induction k as [|x k IH]; intros [|fuel] b a m Hc Hf; simpl in Hf; try lia; cbn [in_set].
  - apply cstr_nil in Hc. run (rd_some _ _ _ Hc). done.
  - apply cstr_cons in Hc as (Hp & Hx & _ & Hk). run (rd_some _ _ _ Hp). rewrite eqb_nul by done.
    unfold elem in *. case_if.
    + subst. rewrite bool_decide_eq_true_2; [done|apply list_elem_of_here].
    + rewrite IH by (done || lia). unfold elem. f_equal. f_equal. apply bool_decide_ext. set_solver.
Qed.

Lemma in_set_fuel k b a m : cstr m a k -> with_fuel (fun n => in_set n b a) m = Some (elem k b, m).
Proof. intros Hc. unfold with_fuel. apply in_set_run; [done|]. pose proof (cstr_fuel _ _ _ Hc). lia. Qed.

(** The length of the longest prefix that [f] accepts throughout. *)
Definition span (f : Z -> bool) (l : list Z) : nat := default (length l) (first_index (fun b => negb (f b)) l).

Lemma strspn_loop_run k l : forall fuel p a n m, cstr m p l -> cstr m a k -> (length l < fuel)%nat ->
  strspn_loop fuel p a n m = Some (n + Z.of_nat (span (elem k) l), m).
Proof.
  induction l as [|b l IH]; intros [|fuel] p a n m Hc Ha Hf; simpl in Hf; try lia; cbn [strspn_loop].
  - apply cstr_nil in Hc. run (rd_some _ _ _ Hc). simpl. by rewrite Z.add_0_r.
  - apply cstr_cons in Hc as (Hp & Hb & _ & Hl). run (rd_some _ _ _ Hp). rewrite eqb_nul by done.
    run (in_set_fuel _ b _ _ Ha). unfold span in *. cbn [first_index]. destruct (elem k b); cbn [negb].
    + rewrite IH by (done || lia). f_equal. f_equal. destruct (first_index _ l); simpl; lia.
    + unfold mret, M_ret. f_equal. f_equal. simpl. lia.
Qed.

Lemma strpbrk_loop_run k l : forall fuel p a m, cstr m p l -> cstr m a k -> (length l < fuel)%nat ->
  strpbrk_loop fuel p a m = Some (ptr_at p <$> first_index (elem k) l, m).
Proof.
  induction l as [|b l IH]; intros [|fuel] p a m Hc Ha Hf; simpl in Hf; try lia; cbn [strpbrk_loop first_index].
  - apply cstr_nil in Hc. by run (rd_some _ _ _ Hc).
  - apply cstr_cons in Hc as (Hp & Hb & _ & Hl). run (rd_some _ _ _ Hp). rewrite eqb_nul by done.
    run (in_set_fuel _ b _ _ Ha). destruct (elem k b).
    + unfold mret, M_ret, ptr_at. simpl. by rewrite Z.add_0_r.
    + by rewrite IH, ptr_at_S by (done || lia).
Qed.

Lemma strspn_run k l p a m : cstr m p l -> cstr m a k -> strspn p a m = Some (Z.of_nat (span (elem k) l), m).
Proof.
  intros Hc Ha. unfold strspn, with_fuel. pose proof (cstr_fuel _ _ _ Hc). by rewrite (strspn_loop_run k l) by (done || lia).
Qed.

Lemma strpbrk_run k l p a m : cstr m p l -> cstr m a k -> strpbrk p a m = Some (ptr_at p <$> first_index (elem k) l, m).
Proof.
  intros Hc Ha. unfold strpbrk, with_fuel. pose proof (cstr_fuel _ _ _ Hc). by rewrite (strpbrk_loop_run k l) by (done || lia).
Qed.

(** The place of the first occurrence of [k]. *)
Definition starts (k l : list Z) : bool := bool_decide (take (length k) l = k).
Fixpoint find_sub (k l : list Z) : option nat :=
  if starts k l then Some 0%nat
  else match l with [] => None | _ :: l => S <$> find_sub k l end.

Lemma find_sub_short k l : (length l < length k)%nat -> find_sub k l = None.
Proof.
  intros Hlen. assert (forall l, (length l < length k)%nat -> starts k l = false) as Hst.
  { intros l' Hl'. apply bool_decide_eq_false_2. intros E. apply (f_equal length) in E.
    rewrite length_take in E. lia. }
  induction l as [|a l IH]; cbn [find_sub]; rewrite Hst by done; [done|].
  rewrite IH; [done|simpl in Hlen; lia].
Qed.

Lemma find_sub_Some k l : forall i, find_sub k l = Some i ->
  starts k (drop i l) = true /\ forall j, (j < i)%nat -> starts k (drop j l) = false.
Proof.
  induction l as [|a l IH]; intros i; cbn [find_sub]; destruct (starts k _) eqn:E; try done;
    try (intros [= <-]; split; [done|lia]).
  destruct (find_sub k l) as [i'|]; [|done]. intros [= <-]. destruct (IH i' eq_refl) as [H1 H2].
  split; [done|]. intros [|j] Hj; [done|]. simpl. apply H2. lia.
Qed.

Lemma find_sub_None k l : find_sub k l = None -> forall i, starts k (drop i l) = false.
Proof.
  induction l as [|a l IH]; cbn [find_sub]; destruct (starts k _) eqn:E; try done.
  - intros _ i. by rewrite drop_nil.
  - intros Hn [|i]; [done|]. simpl. apply IH. by destruct (find_sub k l).
Qed.

Lemma strstr_loop_run k m s2 : cstr m s2 k -> k ≠ [] -> forall l s1, cstr m s1 l ->
  strstr_loop (S (length l) - length k) s1 s2 (Z.of_nat (length k)) m = Some (ptr_at s1 <$> find_sub k l, m).
Proof.
  intros Hk Hne. induction l as [|a l IH]; intros s1 Hl.
  - rewrite find_sub_short by (destruct k; simpl; [done|lia]).
    by replace (S (length []) - length k)%nat with 0%nat by (destruct k; simpl; [done|lia]).
  - destruct (decide (length (a :: l) < length k)%nat) as [Hlt|Hge].
    + rewrite find_sub_short by done. by replace (S (length (a :: l)) - length k)%nat with 0%nat by lia.
    + replace (S (length (a :: l)) - length k)%nat with (S (S (length l) - length k)) by (simpl in *; lia).
      assert (memcmp s1 s2 (Z.of_nat (length k)) m = Some (s8 (diff (take (length k) (a :: l)) k), m)) as Hm.
      { unfold memcmp. rewrite Nat2Z.id.
        assert (length (take (length k) (a :: l)) = length k) as Hlen by (rewrite length_take; lia).
        rewrite <- Hlen at 1. destruct Hl as [B F], Hk as [B' F']. apply bytes_at_app in B as [B _].
        apply bytes_at_app in B' as [B' _]. apply memcmp_loop_run; try done; [by apply bytes_at_take|apply Forall_take|];
          (eapply Forall_impl; [eassumption|]; by intros ? [_ ?]). }
      cbn [strstr_loop]. run Hm. cbn [find_sub]. unfold starts.
      assert ((s8 (diff (take (length k) (a :: l)) k) =? 0) = bool_decide (take (length k) (a :: l) = k)) as ->.
      { apply eq_true_iff_eq. rewrite Z.eqb_eq, bool_decide_eq_true. apply diff_mem_zero.
        - rewrite length_take. lia.
        - apply Forall_take. eapply Forall_impl; [exact (proj2 Hl)|]. by intros ? [_ ?].
        - eapply Forall_impl; [exact (proj2 Hk)|]. by intros ? [_ ?]. }
      case_bool_decide.
      * unfold mret, M_ret, ptr_at. simpl. by rewrite Z.add_0_r.
      * apply cstr_cons in Hl as (_ & _ & _ & Hl). by rewrite IH, ptr_at_S.
Qed.



(** [strrchr] of NUL is the start of the string, not its end. *)
Lemma strrchr_of_nul : strrchr 200 0 str_mem = Some (Some 200, str_mem).
Proof. vm_compute. reflexivity. Qed.

(** * Tokens *)

Lemma span_app f l1 l2 : Forall (fun b => f b = true) l1 ->
  match l2 with [] => True | b :: _ => f b = false end -> span f (l1 ++ l2) = length l1.
Proof.
  intros H1 H2. unfold span. induction H1 as [|b l1 Hb H1 IH]; simpl.
  - destruct l2 as [|b l2]; simpl; [done|by rewrite H2].
  - rewrite Hb. simpl. destruct (first_index _ (l1 ++ l2)); simpl in *; lia.
Qed.

(** strtok skips the separators, returns the start of the token behind them, ends the
    token by writing a zero over the separator that follows it and remembers the byte
    after; at the end of the string it remembers nothing, and it returns a null pointer
    when only separators are left. *)
Theorem strtok_splits m s ct k a t r saved :
  cstr m s (a ++ t ++ r) -> cstr m ct k ->
  Forall (fun b => b ∈ k) a -> Forall (fun b => b ∉ k) t ->
  match r with [] => True | b :: _ => b ∈ k end -> (t = [] -> r = []) ->
  let p := ptr_at s (length a) in
  let e := ptr_at p (length t) in
  strtok saved (Some s) ct m =
    match t, r with
    | [], _ => Some ((None, None), m)
    | _, [] => Some ((Some p, None), m)
    | _, _ => Some ((Some p, Some (e + 1)), <[e := 0]> m)
    end.
Proof.
  intros Hs Hk Ha Ht Hr Hn p e.
  unfold strtok. cbn beta iota.
  assert (span (elem k) (a ++ t ++ r) = length a) as Hspan.
  { apply span_app.
    - eapply Forall_impl; [exact Ha|]. intros b. apply bool_decide_eq_true_2.
    - destruct t as [|b t]; [by rewrite (Hn eq_refl)|].
      apply Forall_cons in Ht as [Hb _]. by apply bool_decide_eq_false_2. }
  erewrite bind_some; [|by apply (strspn_run k)]. rewrite Hspan. cbn zeta. fold (ptr_at s (length a)). fold p.
  apply cstr_app in Hs as Hp. fold (ptr_at s (length a)) in Hp. fold p in Hp. destruct t as [|b t].
  - rewrite (Hn eq_refl) in Hp. apply cstr_nil in Hp. by run (rd_some _ _ _ Hp).
  - pose proof Hp as Hp'. cbn [app] in Hp'. apply cstr_cons in Hp' as (Hp0 & Hb & _ & _).
    run (rd_some _ _ _ Hp0). rewrite eqb_nul by done. erewrite bind_some; [|by apply (strpbrk_run k)].
    assert (first_index (elem k) (b :: t) = None) as Hfn.
    { apply first_index_None. eapply Forall_impl; [exact Ht|]. intros x. apply bool_decide_eq_false_2. }
    destruct r as [|d r].
    + rewrite app_nil_r, Hfn. done.
    + assert (first_index (elem k) ((b :: t) ++ d :: r) = Some (length (b :: t))) as ->.
      { clear -Hfn Hr. induction (b :: t) as [|x l IH]; cbn [app first_index].
        - unfold elem. by rewrite bool_decide_eq_true_2.
        - cbn [first_index] in Hfn. destruct (elem k x); [done|].
          rewrite IH; [done|]. by destruct (first_index _ l). }
      cbn [fmap option_fmap option_map]. fold e. apply cstr_app in Hp. fold (ptr_at p (length (b :: t))) in Hp. fold e in Hp.
      apply cstr_cons in Hp as (Hd & Hdn & _ & _). run (rd_some _ _ _ Hd). rewrite eqb_nul by done.
      erewrite bind_some; [done|]. apply wr_byte; [by eexists|exact byte_0].
Qed.

Lemma strtok_splits_witness : strtok None (Some 200) 150 (<[150 := 97]> str_mem) =
  Some ((Some 200, Some 202), <[201 := 0]> (<[150 := 97]> str_mem)).
Proof.
  assert (cstr (<[150 := 97]> str_mem) 200 barbaz) as H1 by (apply cstr_check; vm_compute; reflexivity).
  assert (cstr (<[150 := 97]> str_mem) 150 [97]) as H2 by (apply cstr_check; vm_compute; reflexivity).
  refine (strtok_splits (<[150 := 97]> str_mem) 200 150 [97] [] [98] [97; 114; 98; 97; 122] None H1 H2 _ _ _ _).
  - constructor.
  - apply Forall_singleton. by apply (bool_decide_eq_true_1 (98 ∉ [97])).
  - by apply (bool_decide_eq_true_1 (97 ∈ [97])).
  - discriminate.
Defined.

End StrProps.
