(* ===== verification/Strto.v ===== *)
(** Numbers out of strings: [lib/libc/atoi.c], [strtol.c], [strtoll.c] and
    [string/strtoull.c].  [long] and [long long] have 64 bits. *)
From S2P Require Import Prelude Mem Ctype.
Local Open Scope Z_scope.

Module Strto.
Import Mem Ctype.

Definition LONG_MIN : Z := - 2 ^ 63.
Definition LONG_MAX : Z := 2 ^ 63 - 1.
Definition ULONG_MAX : Z := 2 ^ 64 - 1.
Definition EINVAL : Z := 22.
Definition ERANGE : Z := 34.

(** * atoi.c *)

Definition hexval (c : Z) : Z :=
  if (chr_0 <=? c) && (c <=? chr_9) then c - chr_0
  else if (chr_a <=? c) && (c <=? chr_f) then c - chr_a + 10
  else if (chr_A <=? c) && (c <=? chr_F) then c - chr_A + 10
  else 0.

(** The accumulating loops, [wrap] being the type of the accumulator. *)
Fixpoint ato_hex (wrap : Z -> Z) (fuel : nat) (num value : Z) : M mem Z :=
  match fuel with
  | O => fault
  | S fuel =>
      c ← rd num;
      if negb (c =? 0) && isxdigit c then ato_hex wrap fuel (num + 1) (wrap (value * 16 + hexval c))
      else mret value
  end.
Fixpoint ato_dec (wrap : Z -> Z) (fuel : nat) (num value : Z) : M mem Z :=
  match fuel with
  | O => fault
  | S fuel =>
      c ← rd num;
      if negb (c =? 0) && isdigit c then ato_dec wrap fuel (num + 1) (wrap (value * 10 + c - chr_0))
      else mret value
  end.

(** [num[0] == '0' && num[1] == 'x']: the second byte is read only then. *)
Definition has_0x (num : Z) : M mem bool :=
  a ← rd num;
  if a =? chr_0 then b ← rd (num + 1); mret (b =? chr_x) else mret false.

Definition atol (num : Z) : M mem Z :=
  hex ← has_0x num;
  if (hex : bool) then with_fuel (fun n => ato_hex s64 n (num + 2) 0)
  else
    c ← rd num;
    let neg := c =? chr_minus in
    let num := if neg then num + 1 else num in
    value ← with_fuel (fun n => ato_dec s64 n num 0);
    mret (if neg then s64 (- value) else value).

Definition atoul (num : Z) : M mem Z :=
  hex ← has_0x num;
  if (hex : bool) then with_fuel (fun n => ato_hex u64 n (num + 2) 0)
  else with_fuel (fun n => ato_dec u64 n num 0).

Definition atoull (num : Z) : M mem Z :=
  hex ← has_0x num;
  if (hex : bool) then with_fuel (fun n => ato_hex u64 n (num + 2) 0)
  else with_fuel (fun n => ato_dec u64 n num 0).

Definition atoi (num : Z) : M mem Z := v ← atol num; mret (s32 v).
Definition atoui (num : Z) : M mem Z := v ← atoul num; mret (u32 v).

(** * strtoul *)

(** What a conversion returns: the value, what [*endptr] is set to and what
    [errno] is set to, if it is. *)
Record conv := Conv { c_val : Z; c_end : option Z; c_errno : option Z }.

Fixpoint skip_space (fuel : nat) (nptr : Z) : M mem Z :=
  match fuel with
  | O => fault
  | S fuel => c ← rd nptr; if isspace c then skip_space fuel (nptr + 1) else mret nptr
  end.

(** The value of a character as a digit, -1 for none. *)
Definition digit_val (c : Z) : Z :=
  if (chr_A <=? c) && (c <=? chr_Z) then c - chr_A + 10
  else if (chr_a <=? c) && (c <=? chr_z) then c - chr_a + 10
  else if (chr_0 <=? c) && (c <=? chr_9) then c - chr_0
  else -1.

Fixpoint strtoul_loop (fuel : nat) (nptr base ret : Z) (errno : option Z) : M mem conv :=
  match fuel with
  | O => fault
  | S fuel =>
      c ← rd nptr;
      let v := digit_val c in
      if (v <? 0) || (base <=? v) then mret (Conv ret (Some nptr) errno)
      else
        let new_ret := u64 (ret * base) in
        if negb (new_ret / base =? ret) || (u64 (new_ret + v) <? new_ret) || (ret =? ULONG_MAX)
        then strtoul_loop fuel (nptr + 1) base ULONG_MAX (Some ERANGE)
        else strtoul_loop fuel (nptr + 1) base (u64 (new_ret + v)) errno
  end.

(** The sign and what follows it. *)
Definition take_sign (nptr : Z) : M mem (bool * Z) :=
  c ← rd nptr;
  mret (if c =? chr_plus then (false, nptr + 1)
        else if c =? chr_minus then (true, nptr + 1) else (false, nptr)).

(** The base, 0 meaning that the prefix decides, and what follows the prefix. *)
Definition take_prefix (nptr base : Z) : M mem (Z * Z) :=
  hex ← (if (base =? 0) || (base =? 16) then has_0x nptr else mret false);
  if (hex : bool) then mret (16, nptr + 2)
  else if base =? 0 then c ← rd nptr; mret (if c =? chr_0 then (8, nptr + 1) else (10, nptr))
  else mret (base, nptr).

Definition strtoul (nptr base : Z) : M mem conv :=
  if (base <? 0) || (base =? 1) || (36 <? base) then mret (Conv 0 None (Some EINVAL))
  else
    nptr ← with_fuel (fun n => skip_space n nptr);
    sg ← take_sign nptr;
    pf ← take_prefix sg.2 base;
    r ← with_fuel (fun n => strtoul_loop n pf.2 pf.1 0 None);
    mret (Conv (if sg.1 && negb (c_val r =? ULONG_MAX) then u64 (- c_val r) else c_val r) (c_end r) (c_errno r)).

(** * strtol and strtoll *)

(** [do { c = *s++; } while (isspace(c));] *)
Fixpoint next_nonspace (fuel : nat) (s : Z) : M mem (Z * Z) :=
  match fuel with
  | O => fault
  | S fuel => c ← rd s; if isspace c then next_nonspace fuel (s + 1) else mret (c, s + 1)
  end.

(** The digit loop with the current character [c], the pointer [s] past it and
    [any]: 0 no digit yet, 1 some, -1 overflow. *)
Fixpoint strtol_loop (lo hi cutoff cutlim base : Z) (neg : bool) (fuel : nat)
    (c s acc any : Z) (errno : option Z) : M mem (Z * Z * Z * option Z) :=
  match fuel with
  | O => fault
  | S fuel =>
      let next := fun acc any errno =>
        c ← rd s; strtol_loop lo hi cutoff cutlim base neg fuel c (s + 1) acc any errno in
      let stop := mret (acc, any, s, errno) in
      let digit := fun c =>
        if base <=? c then stop
        else if any <? 0 then next acc any errno
        else if neg then
          if (acc <? cutoff) || ((acc =? cutoff) && (cutlim <? c)) then next lo (-1) (Some ERANGE)
          else next (acc * base - c) 1 errno
        else
          if (cutoff <? acc) || ((acc =? cutoff) && (cutlim <? c)) then next hi (-1) (Some ERANGE)
          else next (acc * base + c) 1 errno in
      if isdigit c then digit (c - chr_0)
      else if isalpha c then digit (c - (if isupper c then chr_A - 10 else chr_a - 10))
      else stop
  end.

(** The sign, with the character after it. *)
Definition strtol_sign (c s : Z) : M mem (bool * Z * Z) :=
  if c =? chr_minus then c ← rd s; mret (true, c, s + 1)
  else if c =? chr_plus then c ← rd s; mret (false, c, s + 1)
  else mret (false, c, s).

(** The base that [0x] or [0X] selects. *)
Definition strtol_prefix (c s base : Z) : M mem (Z * Z * Z) :=
  if ((base =? 0) || (base =? 16)) && (c =? chr_0) then
    x ← rd s;
    if (x =? chr_x) || (x =? chr_X) then c ← rd (s + 1); mret (c, s + 2, 16) else mret (c, s, base)
  else mret (c, s, base).

(** The largest value that takes another digit, and the largest digit it takes. *)
Definition strtol_cutoff (lo hi : Z) (neg : bool) (base : Z) : Z * Z :=
  let cutoff := if neg then lo else hi in
  let cutlim := Z.rem cutoff base in
  let cutoff := Z.quot cutoff base in
  if neg then
    let '(cutoff, cutlim) := if 0 <? cutlim then (cutoff + 1, cutlim - base) else (cutoff, cutlim) in
    (cutoff, - cutlim)
  else (cutoff, cutlim).

(** [strtol] on a type that ranges from [lo] to [hi]. *)
Definition strtol_range (lo hi nptr base : Z) : M mem conv :=
  cs ← with_fuel (fun n => next_nonspace n nptr);
  sg ← strtol_sign cs.1 cs.2;
  let '(neg, c, s) := sg in
  pf ← strtol_prefix c s base;
  let '(c, s, base) := pf in
  let base := if base =? 0 then (if c =? chr_0 then 8 else 10) else base in
  let '(cutoff, cutlim) := strtol_cutoff lo hi neg base in
  r ← with_fuel (fun n => strtol_loop lo hi cutoff cutlim base neg n c s 0 0 None);
  let '(acc, any, s, errno) := r in
  mret (Conv acc (Some (if any =? 0 then nptr else s - 1)) errno).

Definition strtol (nptr base : Z) : M mem conv := strtol_range LONG_MIN LONG_MAX nptr base.
Definition strtoll (nptr base : Z) : M mem conv := strtol_range LONG_MIN LONG_MAX nptr base.

(** * strtoull *)

Fixpoint strtoull_loop (fuel : nat) (cp base result : Z) : M mem (Z * Z) :=
  match fuel with
  | O => fault
  | S fuel =>
      c ← rd cp;
      let value := if isdigit c then c - chr_0 else (if islower c then toupper c else c) - chr_A + 10 in
      if isxdigit c && (value <? base) then strtoull_loop fuel (cp + 1) base (u64 (result * base + value))
      else mret (result, cp)
  end.

Definition strtoull (cp base : Z) : M mem conv :=
  c ← rd cp;
  pf ← (if c =? chr_0 then
          let cp := cp + 1 in
          x ← rd cp;
          hex ← (if x =? chr_x then d ← rd (cp + 1); mret (isxdigit d) else mret false);
          let '(base, cp) := if (hex : bool) then (16, cp + 1) else (base, cp) in
          mret (if base =? 0 then 8 else base, cp)
        else mret (base, cp));
  let '(base, cp) := pf in
  let base := if base =? 0 then 10 else base in
  r ← with_fuel (fun n => strtoull_loop n cp base 0);
  mret (Conv r.1 (Some r.2) None).

End Strto.
