(* ===== verification/StrtoProps.v ===== *)
(** Conversions compute the value of the digits, kept within the range of the
    type. *)
From S2P Require Import Prelude Mem Ctype CString CStringProps StrProps Strto.
Local Open Scope Z_scope.

Module StrtoProps.
Import Mem Ctype StrProps Strto.

Definition dig (base c : Z) : bool := (0 <=? digit_val c) && (digit_val c <? base).

(** The value of digits, most significant first. *)
Definition value (base acc : Z) (l : list Z) : Z := fold_left (fun a c => a * base + digit_val c) l acc.

Definition sign_of (sg : list Z) : bool := bool_decide (sg = [chr_minus]).
Definition is_sign (sg : list Z) : Prop := sg = [] \/ sg = [chr_plus] \/ sg = [chr_minus].

Definition no_0x (l : list Z) : bool :=
  match l with
  | a :: b :: _ => negb ((a =? chr_0) && ((b =? chr_x) || (b =? chr_X)))
  | _ => true
  end.

(** [prefix base pre rest b]: asked for base [base], a conversion takes [pre]
    for the prefix of [pre ++ rest] and reads on in base [b]. *)
Inductive prefix : Z -> list Z -> list Z -> Z -> Prop :=
  | PExplicit b rest : 2 <= b <= 36 -> (b = 16 -> no_0x rest = true) -> prefix b [] rest b
  | PHex b rest : b = 0 \/ b = 16 -> prefix b [chr_0; chr_x] rest 16
  | PDec c rest : c ≠ chr_0 -> prefix 0 [] (c :: rest) 10
  | POct rest : no_0x (chr_0 :: rest) = true -> prefix 0 [chr_0] rest 8.

(** Where the digits end. *)
Definition ends (base : Z) (r : list Z) : Prop := match r with [] => True | c :: _ => dig base c = false end.

Ltac run H := rewrite (bind_some _ _ _ _ _ H); cbn beta iota zeta.

Lemma dig_range base c : dig base c = true -> 0 <= digit_val c < base.
Proof. unfold dig. intros. bool_prop. lia. Qed.

Lemma dig_char base c : dig base c = true ->
  isspace c = false /\ c ≠ 0 /\ c ≠ chr_plus /\ c ≠ chr_minus.
Proof.
  intros Hd%dig_range. unfold digit_val in Hd. ctype.
  repeat match type of Hd with context [if ?b then _ else _] => destruct b eqn:?; bool_prop end; try lia;
    (split; [repeat (apply orb_false_iff; split); apply Z.eqb_neq; lia|lia]).
Qed.

Lemma value_cons base acc c l : value base acc (c :: l) = value base (acc * base + digit_val c) l.
Proof. done. Qed.

Lemma value_ge base acc l : 1 <= base -> 0 <= acc -> Forall (fun c => dig base c = true) l -> acc <= value base acc l.
Proof.
  intros Hb. revert acc. induction l as [|c l IH]; intros acc Ha Hl; [done|].
  apply Forall_cons in Hl as [Hc%dig_range Hl]. rewrite value_cons.
  transitivity (acc * base + digit_val c); [nia|]. apply IH; [nia|done].
Qed.

(** The read of the character at which a scan stops. *)
Lemma cstr_head m p r : cstr m p r -> m !! p = Some (hd 0 r).
Proof. destruct r; [by intros ?%cstr_nil|by intros (? & _)%cstr_cons]. Qed.

Lemma ends_dig base r : ends base r -> dig base (hd 0 r) = false.
Proof. by destruct r. Qed.

(** * strtoul *)

Lemma skip_space_run w : forall fuel p m r, cstr m p (w ++ r) -> Forall (fun c => isspace c = true) w ->
  isspace (hd 0 r) = false -> (length w < fuel)%nat ->
  skip_space fuel p m = Some (p + Z.of_nat (length w), m).
Proof.
  induction w as [|c w IH]; intros [|fuel] p m r Hc Hw Hr Hf; simpl in Hf; try lia; cbn [skip_space app] in *.
  - run (rd_some _ _ _ (cstr_head _ _ _ Hc)). rewrite Hr. unfold mret, M_ret. simpl. by rewrite Z.add_0_r.
  - apply cstr_cons in Hc as (Hp & _ & _ & Hc). apply Forall_cons in Hw as [Hcs Hw].
    run (rd_some _ _ _ Hp). rewrite Hcs, (IH _ _ _ r) by (done || lia). simpl length. do 2 f_equal. lia.
Qed.

Definition sat (hi v : Z) : Z := Z.min v hi.
Definition over (hi v : Z) : option Z := if hi <? v then Some ERANGE else None.

Lemma sat_above hi v : hi <= v -> sat hi v = hi.
Proof. unfold sat. lia. Qed.
Lemma sat_below hi v : v <= hi -> sat hi v = v.
Proof. unfold sat. lia. Qed.
Lemma over_above hi v : hi < v -> over hi v = Some ERANGE.
Proof. unfold over. intros H%Z.ltb_lt. by rewrite H. Qed.
Lemma over_below hi v : v <= hi -> over hi v = None.
Proof. unfold over. intros H%Z.ltb_ge. by rewrite H. Qed.

(** One digit: the overflow test of [strtoul] is exact. *)
Lemma strtoul_digit base v d : 2 <= base <= 36 -> 0 <= v -> 0 <= d < base ->
  let ret := sat ULONG_MAX v in
  let new_ret := u64 (ret * base) in
  if negb (new_ret / base =? ret) || (u64 (new_ret + d) <? new_ret) || (ret =? ULONG_MAX)
  then ULONG_MAX < v * base + d
  else u64 (new_ret + d) = v * base + d /\ v * base + d <= ULONG_MAX.
Proof.
  intros Hb Hv Hd ret new_ret. unfold sat, ULONG_MAX in *.
  assert (0 <= ret <= 2 ^ 64 - 1) by (unfold ret; lia).
  destruct (decide (ret * base < 2 ^ 64)) as [Hlt|Hge].
  - assert (new_ret = ret * base) as E by (unfold new_ret; apply uw_small; nia).
    rewrite E, Z.div_mul, Z.eqb_refl by lia. cbn [negb orb].
    assert (ret = v) as -> by (unfold ret in *; nia).
    destruct (decide (v * base + d < 2 ^ 64)) as [Hs|Hs].
    + rewrite (uw_small 64 (v * base + d)) by nia. rewrite (proj2 (Z.ltb_ge _ _)) by lia. cbn [orb].
      case_if; [nia|lia].
    + assert (u64 (v * base + d) = v * base + d - 2 ^ 64) as ->.
      { unfold uw. symmetry. apply (Z.mod_unique_pos _ _ 1); lia. }
      rewrite (proj2 (Z.ltb_lt _ _)) by lia. cbn [orb]. lia.
  - destruct (uw_eqm 64 (ret * base) ltac:(lia)) as [k Hk]. fold new_ret in Hk.
    assert (0 <= new_ret < 2 ^ 64) by (apply (uw_range 64); lia).
    assert (new_ret / base < ret). { apply Z.div_lt_upper_bound; [lia|]. nia. }
    rewrite (proj2 (Z.eqb_neq _ _)) by lia. cbn [negb orb]. unfold ret in *. nia.
Qed.

Lemma strtoul_loop_run base l : 2 <= base <= 36 -> forall fuel p v m r,
  cstr m p (l ++ r) -> Forall (fun c => dig base c = true) l -> ends base r -> 0 <= v -> (length l < fuel)%nat ->
  strtoul_loop fuel p base (sat ULONG_MAX v) (over ULONG_MAX v) m =
    Some (Conv (sat ULONG_MAX (value base v l)) (Some (p + Z.of_nat (length l))) (over ULONG_MAX (value base v l)), m).
Proof.
  intros Hb. induction l as [|c l IH]; intros [|fuel] p v m r Hc Hl Hr Hv Hf; simpl in Hf; try lia;
    cbn [strtoul_loop app] in *.
  - run (rd_some _ _ _ (cstr_head _ _ _ Hc)). apply ends_dig in Hr. unfold dig in Hr.
    assert ((digit_val (hd 0 r) <? 0) || (base <=? digit_val (hd 0 r)) = true) as ->.
    { apply andb_false_iff in Hr as [Hr|Hr]; bool_prop; apply orb_true_iff; [left|right]; lia. }
    simpl. by rewrite Z.add_0_r.
  - apply cstr_cons in Hc as (Hp & _ & _ & Hc). apply Forall_cons in Hl as [Hd%dig_range Hl].
    run (rd_some _ _ _ Hp). rewrite (proj2 (Z.ltb_ge _ _)), (proj2 (Z.leb_gt _ _)) by lia. cbn [orb].
    pose proof (strtoul_digit base v (digit_val c) Hb Hv Hd) as Hs. cbn zeta in Hs. rewrite value_cons.
    replace (p + Z.of_nat (length (c :: l))) with (p + 1 + Z.of_nat (length l)) by (simpl; lia).
    rewrite <- (IH fuel (p + 1) (v * base + digit_val c) m r) by (done || nia || lia).
    destruct (_ || _).
    + by rewrite sat_above, over_above by lia.
    + destruct Hs as [-> Hs]. by rewrite sat_below, !over_below by nia.
Qed.

(** Running a piece of code that only reads. *)
Lemma take_sign_run p m sg c r : is_sign sg -> cstr m p (sg ++ c :: r) -> c ≠ chr_plus -> c ≠ chr_minus ->
  take_sign p m = Some ((sign_of sg, p + Z.of_nat (length sg)), m).
Proof.
  intros Hsg Hc H1 H2. unfold take_sign. run (rd_some _ _ _ (cstr_head _ _ _ Hc)).
  destruct Hsg as [-> | [-> | -> ]]; unfold mret, M_ret; cbn [hd app]; simpl length.
  - rewrite (proj2 (Z.eqb_neq c chr_plus)), (proj2 (Z.eqb_neq c chr_minus)), Z.add_0_r by done. done.
  - done.
  - done.
Qed.

Definition is_0x (l : list Z) : bool :=
  match l with a :: b :: _ => (a =? chr_0) && (b =? chr_x) | _ => false end.

Lemma is_0x_first c l : c ≠ chr_0 -> is_0x (c :: l) = false.
Proof. intros Hc. unfold is_0x. destruct l; [done|]. by rewrite (proj2 (Z.eqb_neq c chr_0)). Qed.

Lemma has_0x_run p m l : cstr m p l -> has_0x p m = Some (is_0x l, m).
Proof.
  intros Hc. unfold has_0x. run (rd_some _ _ _ (cstr_head _ _ _ Hc)). destruct l as [|a l]; [done|].
  cbn [hd app]. destruct (a =? chr_0) eqn:E; [|unfold is_0x; rewrite E; by destruct l]. apply cstr_cons in Hc as (_ & _ & _ & Hc).
  run (rd_some _ _ _ (cstr_head _ _ _ Hc)). unfold is_0x. rewrite E. by destruct l.
Qed.

Lemma no_0x_false l : no_0x l = true -> is_0x l = false.
Proof.
  destruct l as [|a [|b l]]; [done|done|]. simpl. rewrite negb_true_iff, !andb_false_iff, orb_false_iff. tauto.
Qed.

Lemma take_prefix_run p m base pre rest b : cstr m p (pre ++ rest) -> prefix base pre rest b ->
  take_prefix p base m = Some ((b, p + Z.of_nat (length pre)), m).
Proof.
  intros Hc Hp. unfold take_prefix. destruct Hp as [b rest Hb H16|b rest Hb|c rest Hn|rest Hx]; cbn [app length] in *.
  - rewrite (proj2 (Z.eqb_neq b 0)) by lia. cbn [orb]. case_if.
    + subst b. erewrite bind_some; [|by apply has_0x_run]. rewrite no_0x_false by auto. by rewrite Z.add_0_r.
    + unfold mret, M_ret, mbind, M_bind. by rewrite Z.add_0_r.
  - assert ((b =? 0) || (b =? 16) = true) as -> by (destruct Hb as [-> | -> ]; done).
    erewrite bind_some; [|by apply has_0x_run]. done.
  - erewrite bind_some; [|by apply has_0x_run]. rewrite is_0x_first by done.
    cbn [Z.eqb]. run (rd_some _ _ _ (cstr_head _ _ _ Hc)). cbn [hd app].
    rewrite (proj2 (Z.eqb_neq c chr_0)), Z.add_0_r by done. done.
  - erewrite bind_some; [|by apply has_0x_run]. rewrite (no_0x_false _ Hx).
    cbn [Z.eqb]. run (rd_some _ _ _ (cstr_head _ _ _ Hc)). done.
Qed.

(** What a numeral is: white space, a sign, a prefix and digits. *)
Record numeral (base : Z) (w sg pre l r : list Z) (b : Z) : Prop := {
  nu_space : Forall (fun c => isspace c = true) w;
  nu_sign : is_sign sg;
  nu_prefix : prefix base pre (l ++ r) b;
  nu_digits : Forall (fun c => dig b c = true) l;
  nu_ends : ends b r;
  nu_some : l ≠ [];
}.

(** The first character after white space and sign. *)
Lemma numeral_first base w sg pre l r b : numeral base w sg pre l r b ->
  exists c t, pre ++ l ++ r = c :: t /\ isspace c = false /\ c ≠ chr_plus /\ c ≠ chr_minus.
Proof.
  intros [_ _ Hp Hd _ Hs]. destruct l as [|d l]; [done|]. apply Forall_cons in Hd as [Hd _].
  pose proof (dig_char _ _ Hd) as (H1 & _ & H2 & H3).
  inversion Hp; subst; cbn [app]; eexists _, _; (split; [reflexivity|]); done.
Qed.

Lemma numeral_base base w sg pre l r b : numeral base w sg pre l r b -> 2 <= b <= 36.
Proof. intros [_ _ Hp _ _ _]. inversion Hp; lia. Qed.

Lemma skip_run base w sg pre l r b m p : numeral base w sg pre l r b -> cstr m p (w ++ sg ++ pre ++ l ++ r) ->
  isspace (hd 0 (sg ++ pre ++ l ++ r)) = false.
Proof.
  intros Hn Hc. destruct (numeral_first _ _ _ _ _ _ _ Hn) as (c & t & -> & Hs & _).
  destruct (nu_sign _ _ _ _ _ _ _ Hn) as [-> | [-> | -> ]]; done.
Qed.

Definition negated (sg : list Z) (v : Z) : Z := if sign_of sg && negb (v =? ULONG_MAX) then u64 (- v) else v.

Lemma strtoul_run m p base w sg pre l r b :
  cstr m p (w ++ sg ++ pre ++ l ++ r) -> numeral base w sg pre l r b ->
  strtoul p base m =
    Some (Conv (negated sg (sat ULONG_MAX (value b 0 l)))
            (Some (p + Z.of_nat (length (w ++ sg ++ pre ++ l)))) (over ULONG_MAX (value b 0 l)), m).
Proof.
  intros Hc Hn. pose proof (cstr_fuel _ _ _ Hc) as Hf. pose proof (numeral_base _ _ _ _ _ _ _ Hn) as Hb.
  destruct (numeral_first _ _ _ _ _ _ _ Hn) as (c & t & Et & Hcs & Hcp & Hcm). unfold strtoul.
  assert ((base <? 0) || (base =? 1) || (36 <? base) = false) as ->.
  { destruct (nu_prefix _ _ _ _ _ _ _ Hn); try done; repeat (apply orb_false_iff; split);
      try apply Z.ltb_ge; try apply Z.eqb_neq; lia. }
  unfold with_fuel. erewrite bind_some;
    [|apply (skip_space_run w _ _ _ (sg ++ pre ++ l ++ r)); [done|apply Hn|by eapply skip_run|rewrite length_app in Hf; lia]].
  apply cstr_app in Hc. set (p1 := p + Z.of_nat (length w)) in *.
  pose proof Hc as Hc'. rewrite Et in Hc'.
  erewrite bind_some; [|by apply (take_sign_run _ _ sg c t); [apply Hn| | |]]. cbn [fst snd].
  apply cstr_app in Hc. set (p2 := p1 + Z.of_nat (length sg)) in *.
  erewrite bind_some; [|by apply (take_prefix_run _ _ _ pre (l ++ r) b); [|apply Hn]]. cbn [fst snd].
  apply cstr_app in Hc. set (p3 := p2 + Z.of_nat (length pre)) in *.
  pose proof (strtoul_loop_run b l Hb (S (size m)) p3 0 m r Hc (nu_digits _ _ _ _ _ _ _ Hn)
    (nu_ends _ _ _ _ _ _ _ Hn) ltac:(lia)) as Hloop.
  rewrite sat_below, over_below in Hloop by (unfold ULONG_MAX; lia).
  erewrite bind_some; [|apply Hloop; rewrite !length_app in Hf; lia].
  unfold mret, M_ret. cbn [c_val c_end c_errno fst snd]. rewrite !length_app.
  replace (p + Z.of_nat (length w + (length sg + (length pre + length l)))) with (p3 + Z.of_nat (length l))
    by (unfold p3, p2, p1; lia). done.
Qed.

(** * strtol *)

Lemma strtol_char {A} (f : Z -> A) (stop : A) c :
  (if isdigit c then f (c - chr_0)
   else if isalpha c then f (c - (if isupper c then chr_A - 10 else chr_a - 10))
   else stop) = if digit_val c <? 0 then stop else f (digit_val c).
Proof.
  unfold digit_val. ctype.
  destruct ((48 <=? c) && (c <=? 57)) eqn:E1; destruct ((65 <=? c) && (c <=? 90)) eqn:E2;
    destruct ((97 <=? c) && (c <=? 122)) eqn:E3; bool_prop; try lia; cbn [orb];
    rewrite ?(proj2 (Z.ltb_ge _ _)) by lia; try done; f_equal; lia.
Qed.

(** One digit: the cut-off test of [strtol] is exact. *)
Lemma cutoff_exact bnd b v d : 2 <= b -> 0 <= v -> 0 <= d < b -> 0 <= bnd ->
  ((bnd / b <? v) || ((v =? bnd / b) && (bnd mod b <? d))) = (bnd <? v * b + d).
Proof.
  intros Hb Hv Hd Hbnd. pose proof (Z.div_mod bnd b ltac:(lia)). pose proof (Z.mod_pos_bound bnd b ltac:(lia)).
  apply eq_true_iff_eq. rewrite orb_true_iff, andb_true_iff, !Z.ltb_lt, Z.eqb_eq. split; [nia|].
  intros Hlt. destruct (decide (bnd / b < v)); [by left|right]. assert (v = bnd / b) by nia. nia.
Qed.

Lemma strtol_loop_S lo hi cutoff cutlim b neg fuel c s acc any errno :
  let next := fun acc any errno =>
    c ← rd s; strtol_loop lo hi cutoff cutlim b neg fuel c (s + 1) acc any errno in
  let stop := mret (acc, any, s, errno) in
  let d := digit_val c in
  strtol_loop lo hi cutoff cutlim b neg (S fuel) c s acc any errno =
    if d <? 0 then stop
    else if b <=? d then stop
    else if any <? 0 then next acc any errno
    else if neg then
      if (acc <? cutoff) || ((acc =? cutoff) && (cutlim <? d)) then next lo (-1) (Some ERANGE)
      else next (acc * b - d) 1 errno
    else
      if (cutoff <? acc) || ((acc =? cutoff) && (cutlim <? d)) then next hi (-1) (Some ERANGE)
      else next (acc * b + d) 1 errno.
Proof.
  cbv zeta. match goal with |- _ = (if _ then ?stop else ?body) =>
    let f := eval pattern (digit_val c) in body in match f with ?f _ => exact (strtol_char f stop c) end end.
Qed.

Definition any_of (bnd v : Z) (seen : bool) : Z := if bnd <? v then -1 else if seen then 1 else 0.

Section strtol.
Context (lo hi b : Z) (neg : bool).
Hypothesis Hb : 2 <= b <= 36.
Hypothesis Hlo : lo <= 0.
Hypothesis Hhi : 0 <= hi.
(** The largest magnitude of the sign. *)
Let bnd := if neg then - lo else hi.
Let sgn v := if neg then - v else v.

Lemma strtol_step v d (k : Z -> Z -> option Z -> M mem (Z * Z * Z * option Z)) m seen :
    0 <= v -> 0 <= d < b ->
    (if any_of bnd v seen <? 0 then k (sgn (sat bnd v)) (any_of bnd v seen) (over bnd v)
     else if neg then
       if (sgn (sat bnd v) <? sgn (bnd / b)) || ((sgn (sat bnd v) =? sgn (bnd / b)) && (bnd mod b <? d))
       then k lo (-1) (Some ERANGE) else k (sgn (sat bnd v) * b - d) 1 (over bnd v)
     else
       if (sgn (bnd / b) <? sgn (sat bnd v)) || ((sgn (sat bnd v) =? sgn (bnd / b)) && (bnd mod b <? d))
       then k hi (-1) (Some ERANGE) else k (sgn (sat bnd v) * b + d) 1 (over bnd v)) m =
    k (sgn (sat bnd (v * b + d))) (any_of bnd (v * b + d) true) (over bnd (v * b + d)) m.
Proof using Hb Hlo Hhi.
  intros Hv Hd. assert (0 <= bnd) by (unfold bnd; destruct neg; lia).
  unfold any_of. destruct (bnd <? v) eqn:E; bool_prop.
  - cbn [Z.ltb Z.compare]. rewrite (proj2 (Z.ltb_lt _ _)) by nia.
    rewrite !sat_above, !over_above by nia. done.
  - replace ((if seen then 1 else 0) <? 0) with false by (by destruct seen).
    rewrite (sat_below _ v), (over_below _ v) by lia.
    assert ((if neg then (sgn v <? sgn (bnd / b)) || ((sgn v =? sgn (bnd / b)) && (bnd mod b <? d))
      else (sgn (bnd / b) <? sgn v) || ((sgn v =? sgn (bnd / b)) && (bnd mod b <? d))) = (bnd <? v * b + d)) as Hcut.
    { rewrite <- cutoff_exact by lia. unfold sgn. destruct neg; [|done]. f_equal; [|f_equal].
      - apply eq_true_iff_eq. rewrite !Z.ltb_lt. lia.
      - apply eq_true_iff_eq. rewrite !Z.eqb_eq. lia. }
    unfold sgn, bnd in *. destruct neg; rewrite Hcut; destruct (_ <? v * b + d) eqn:E'; bool_prop;
      rewrite ?sat_above, ?over_above, ?sat_below, ?over_below by lia; try done; f_equal; lia.
Qed.

Lemma strtol_loop_run l : forall fuel c s v seen m r,
    cstr m (s - 1) (l ++ r) -> c = hd 0 (l ++ r) -> Forall (fun c => dig b c = true) l -> ends b r -> 0 <= v ->
    (length l < fuel)%nat ->
    strtol_loop lo hi (sgn (bnd / b)) (bnd mod b) b neg fuel c s (sgn (sat bnd v)) (any_of bnd v seen) (over bnd v) m =
      Some (sgn (sat bnd (value b v l)), any_of bnd (value b v l) (seen || negb (bool_decide (l = []))),
            s + Z.of_nat (length l), over bnd (value b v l), m).
Proof using Hb Hlo Hhi.
  induction l as [|d l IH]; intros [|fuel] c s v seen m r Hc -> Hl Hr Hv Hf; simpl in Hf; try lia;
    rewrite strtol_loop_S; cbv zeta.
  - cbn [app]. apply ends_dig in Hr. unfold dig in Hr. apply andb_false_iff in Hr as [Hr|Hr]; bool_prop.
    + rewrite (proj2 (Z.ltb_lt _ _)) by lia. rewrite bool_decide_eq_true_2, orb_false_r by done.
      simpl. by rewrite Z.add_0_r.
    + destruct (digit_val _ <? 0); [|rewrite (proj2 (Z.leb_le _ _)) by lia];
        rewrite bool_decide_eq_true_2, orb_false_r by done; simpl; by rewrite Z.add_0_r.
  - cbn [app hd] in *. apply cstr_cons in Hc as (_ & _ & _ & Hc). apply Forall_cons in Hl as [Hd%dig_range Hl].
    rewrite Z.sub_add in Hc. rewrite (proj2 (Z.ltb_ge (digit_val d) 0)), (proj2 (Z.leb_gt b (digit_val d))) by lia.
    rewrite (strtol_step v (digit_val d) (fun acc any errno =>
      c ← rd s; strtol_loop lo hi (sgn (bnd / b)) (bnd mod b) b neg fuel c (s + 1) acc any errno) m seen Hv Hd).
    erewrite bind_some; [|apply rd_some; by apply cstr_head].
    rewrite (IH fuel _ (s + 1) (v * b + digit_val d) true m r);
      [|by rewrite Z.add_simpl_r|done|done|done|nia|lia].
    rewrite value_cons. rewrite (bool_decide_eq_false_2 (d :: l = [])) by done. cbn [negb orb].
    rewrite orb_true_r. by replace (s + Z.of_nat (length (d :: l))) with (s + 1 + Z.of_nat (length l)) by (simpl; lia).
Qed.
End strtol.

Lemma next_nonspace_run w : forall fuel p m r, cstr m p (w ++ r) -> Forall (fun c => isspace c = true) w ->
  isspace (hd 0 r) = false -> (length w < fuel)%nat ->
  next_nonspace fuel p m = Some ((hd 0 r, p + Z.of_nat (length w) + 1), m).
Proof.
  induction w as [|c w IH]; intros [|fuel] p m r Hc Hw Hr Hf; simpl in Hf; try lia; cbn [next_nonspace app] in *.
  - run (rd_some _ _ _ (cstr_head _ _ _ Hc)). rewrite Hr. unfold mret, M_ret. simpl. by rewrite Z.add_0_r.
  - apply cstr_cons in Hc as (Hp & _ & _ & Hc). apply Forall_cons in Hw as [Hcs Hw].
    run (rd_some _ _ _ Hp). rewrite Hcs, (IH _ _ _ r) by (done || lia). simpl length. do 3 f_equal. lia.
Qed.

Lemma strtol_sign_run p m sg c r : is_sign sg -> cstr m p (sg ++ c :: r) -> c ≠ chr_plus -> c ≠ chr_minus ->
  strtol_sign (hd 0 (sg ++ c :: r)) (p + 1) m = Some ((sign_of sg, c, p + Z.of_nat (length sg) + 1), m).
Proof.
  intros Hsg Hc H1 H2. unfold strtol_sign. destruct Hsg as [-> | [-> | -> ]]; cbn [hd app length] in *.
  - rewrite (proj2 (Z.eqb_neq c chr_plus)), (proj2 (Z.eqb_neq c chr_minus)), Z.add_0_r by done. done.
  - change (chr_plus =? chr_minus) with false. change (chr_plus =? chr_plus) with true. cbn beta iota.
    apply cstr_cons in Hc as (_ & _ & _ & Hc). by run (rd_some _ _ _ (cstr_head _ _ _ Hc)).
  - change (chr_minus =? chr_minus) with true. cbn beta iota.
    apply cstr_cons in Hc as (_ & _ & _ & Hc). by run (rd_some _ _ _ (cstr_head _ _ _ Hc)).
Qed.

(** After the prefix: the current character is the first of [k], the digits
    with the octal [0] among them. *)
Lemma strtol_prefix_run p m base pre l r b : cstr m p (pre ++ l ++ r) -> prefix base pre (l ++ r) b ->
  Forall (fun c => dig b c = true) l ->
  exists q k base', strtol_prefix (hd 0 (pre ++ l ++ r)) (p + 1) base m = Some ((hd 0 (k ++ r), q + 1, base'), m) /\
    (if base' =? 0 then (if hd 0 (k ++ r) =? chr_0 then 8 else 10) else base') = b /\
    cstr m q (k ++ r) /\ q + Z.of_nat (length k) = p + Z.of_nat (length (pre ++ l)) /\
    value b 0 k = value b 0 l /\ Forall (fun c => dig b c = true) k /\ (l ≠ [] -> k ≠ []).
Proof.
  intros Hc Hp Hd. unfold strtol_prefix. remember (l ++ r) as rest eqn:Er.
  destruct Hp as [b rest Hb H16|b rest Hb|c rest Hn|rest Hx]; cbn [app] in *.
  - exists p, l, b. rewrite <- Er, (proj2 (Z.eqb_neq b 0)) by lia. split_and!; try done.
    cbn [orb]. destruct ((b =? 16) && (hd 0 rest =? chr_0)) eqn:E; [|done]. bool_prop. subst b.
    specialize (H16 eq_refl). destruct rest as [|a rest]; [done|]. cbn [hd] in *.
    apply cstr_cons in Hc as (_ & _ & _ & Hc). run (rd_some _ _ _ (cstr_head _ _ _ Hc)).
    destruct rest as [|x rest]; [done|]. cbn [no_0x hd] in *. destruct (a =? chr_0) eqn:E; [|bool_prop; done].
    cbn [andb] in H16. apply negb_true_iff in H16. by rewrite H16.
  - exists (p + 2), l, 16. rewrite <- Er. apply cstr_cons in Hc as (_ & _ & _ & Hc).
    pose proof (cstr_head _ _ _ Hc) as Hx. apply cstr_cons in Hc as (_ & _ & _ & Hc). cbn [hd] in *.
    assert (((b =? 0) || (b =? 16)) && (chr_0 =? chr_0) = true) as -> by (destruct Hb as [-> | -> ]; done).
    replace (p + 1 + 1) with (p + 2) in Hc by lia.
    run (rd_some _ _ _ Hx). change ((chr_x =? chr_x) || (chr_x =? chr_X)) with true. cbn beta iota.
    replace (p + 1 + 1) with (p + 2) by lia. run (rd_some _ _ _ (cstr_head _ _ _ Hc)).
    split_and!; try done; [by replace (p + 1 + 2) with (p + 2 + 1) by lia|simpl; lia].
  - exists p, l, 0. rewrite <- Er. cbn [hd]. rewrite (proj2 (Z.eqb_neq c chr_0)) by done. by split_and!.
  - exists p, (chr_0 :: l), 0. cbn [app]. rewrite <- Er. cbn [hd length]. split_and!; try done.
    + pose proof (cstr_cons m p chr_0 rest) as [Hcc _]. apply Hcc in Hc as (_ & _ & _ & Hc).
      change (((0 =? 0) || (0 =? 16)) && (chr_0 =? chr_0)) with true. cbn beta iota.
      run (rd_some _ _ _ (cstr_head _ _ _ Hc)). destruct rest as [|x rest]; [done|]. cbn [no_0x hd] in *.
      change (chr_0 =? chr_0) with true in Hx. cbn [andb] in Hx. apply negb_true_iff in Hx. by rewrite Hx.
    + by constructor.
Qed.

Lemma strtol_cutoff_eq lo hi (neg : bool) b : lo <= 0 -> 0 <= hi -> 2 <= b ->
  let bnd : Z := if (neg : bool) then - lo else hi in
  strtol_cutoff lo hi neg b = (if neg then - (bnd / b) else bnd / b, bnd mod b).
Proof.
  intros Hlo Hhi Hb. unfold strtol_cutoff. destruct neg; cbn zeta.
  - assert (Z.rem lo b = - ((- lo) mod b)) as Er.
    { rewrite <- (Z.opp_involutive lo) at 1. by rewrite Z.rem_opp_l, Z.rem_mod_nonneg by lia. }
    assert (Z.quot lo b = - ((- lo) / b)) as Eq.
    { rewrite <- (Z.opp_involutive lo) at 1. by rewrite Z.quot_opp_l, Z.quot_div_nonneg by lia. }
    pose proof (Z.mod_pos_bound (- lo) b ltac:(lia)). rewrite Er, Eq, (proj2 (Z.ltb_ge _ _)) by lia.
    by rewrite Z.opp_involutive.
  - by rewrite Z.rem_mod_nonneg, Z.quot_div_nonneg by lia.
Qed.

Definition signed_sat (lo hi : Z) (sg : list Z) (v : Z) : Z := if sign_of sg then - sat (- lo) v else sat hi v.
Definition signed_over (lo hi : Z) (sg : list Z) (v : Z) : option Z := over (if sign_of sg then - lo else hi) v.

Lemma strtol_run lo hi m p base w sg pre l r b :
  cstr m p (w ++ sg ++ pre ++ l ++ r) -> numeral base w sg pre l r b -> lo <= 0 -> 0 <= hi ->
  strtol_range lo hi p base m =
    Some (Conv (signed_sat lo hi sg (value b 0 l))
            (Some (p + Z.of_nat (length (w ++ sg ++ pre ++ l)))) (signed_over lo hi sg (value b 0 l)), m).
Proof.
  intros Hc Hn Hlo Hhi. pose proof (cstr_fuel _ _ _ Hc) as Hf. pose proof (numeral_base _ _ _ _ _ _ _ Hn) as Hb.
  destruct (numeral_first _ _ _ _ _ _ _ Hn) as (c & t & Et & Hcs & Hcp & Hcm). unfold strtol_range, with_fuel.
  erewrite bind_some;
    [|apply (next_nonspace_run w _ _ _ (sg ++ pre ++ l ++ r)); [done|apply Hn|by eapply skip_run|rewrite length_app in Hf; lia]].
  apply cstr_app in Hc. set (p1 := p + Z.of_nat (length w)) in *. cbn [fst snd].
  pose proof Hc as Hc'. rewrite Et in Hc' |- *.
  erewrite bind_some; [|by apply (strtol_sign_run _ _ sg c t); [apply Hn| | |]]. cbn beta iota.
  apply cstr_app in Hc. set (p2 := p1 + Z.of_nat (length sg)) in *.
  destruct (strtol_prefix_run _ _ _ _ _ _ _ Hc (nu_prefix _ _ _ _ _ _ _ Hn) (nu_digits _ _ _ _ _ _ _ Hn))
    as (q & k & base' & Hpf & Hbb & Hk & Hq & Hv & Hdk & Hne).
  rewrite Et in Hpf. cbn [hd] in Hpf. run Hpf. rewrite Hbb, strtol_cutoff_eq by lia. cbn zeta.
  pose proof (strtol_loop_run lo hi b (sign_of sg) Hb Hlo Hhi k (S (size m)) _ (q + 1) 0 false m r
    ltac:(by rewrite Z.add_simpl_r) eq_refl Hdk (nu_ends _ _ _ _ _ _ _ Hn) ltac:(lia)) as Hloop.
  unfold any_of in Hloop. set (bnd := if sign_of sg then - lo else hi) in *.
  assert (0 <= bnd) by (unfold bnd; destruct (sign_of sg); lia).
  rewrite sat_below, over_below, (proj2 (Z.ltb_ge bnd 0)) in Hloop by lia.
  replace (if sign_of sg then - 0 else 0) with 0 in Hloop by (by destruct (sign_of sg)).
  assert (length k < S (size m))%nat as Hfk.
  { pose proof (cstr_fuel _ _ _ Hk) as Hfk. rewrite length_app in Hfk. lia. }
  specialize (Hloop Hfk). rewrite Hv, bool_decide_eq_false_2 in Hloop by (by apply Hne, Hn). cbn [negb orb] in Hloop.
  assert (forall V, (if (if bnd <? V then -1 else 1) =? 0 then p else q + 1 + Z.of_nat (length k) - 1) =
    p + Z.of_nat (length (w ++ sg ++ pre ++ l))) as Hend.
  { intros V. transitivity (q + Z.of_nat (length k)); [destruct (bnd <? V); simpl; lia|].
    rewrite Hq, !length_app. unfold p2, p1. lia. }
  unfold signed_sat, signed_over. destruct (sign_of sg); cbn beta iota zeta in *;
    (erewrite bind_some; [|exact Hloop]); cbn beta iota; unfold mret, M_ret; by rewrite Hend.
Qed.

(** C29. strtoul, strtol and strtoll read white space, a sign, the prefix of the base and
    digits, stop at the first byte that is no digit, return the value with its sign when
    it is in range and the nearest bound with ERANGE when it is not, and set the end
    pointer behind the last digit. *)
Theorem conversions_saturate m p base w sg pre l r b :
  cstr m p (w ++ sg ++ pre ++ l ++ r) -> numeral base w sg pre l r b ->
  let v := value b 0 l in
  let e := Some (p + Z.of_nat (length (w ++ sg ++ pre ++ l))) in
  strtoul p base m =
    Some (Conv (if sign_of sg && (v <? ULONG_MAX) then u64 (- v) else Z.min v ULONG_MAX) e
               (if ULONG_MAX <? v then Some ERANGE else None), m) /\
  (let r := if sign_of sg then Conv (Z.max (- v) LONG_MIN) e (if - v <? LONG_MIN then Some ERANGE else None)
            else Conv (Z.min v LONG_MAX) e (if LONG_MAX <? v then Some ERANGE else None) in
   strtol p base m = Some (r, m) /\ strtoll p base m = Some (r, m)).
Proof.
  intros Hc Hn. cbn zeta. set (v := value b 0 l). split.
  - rewrite (strtoul_run _ _ _ _ _ _ _ _ _ Hc Hn). fold v. unfold negated, sat, over. do 3 f_equal.
    destruct (sign_of sg); [|done]. cbn [andb]. destruct (v <? ULONG_MAX) eqn:E; bool_prop.
    + rewrite Z.min_l, (proj2 (Z.eqb_neq _ _)) by lia. done.
    + rewrite Z.min_r, Z.eqb_refl by lia. done.
  - unfold strtol, strtoll. rewrite (strtol_run _ _ _ _ _ _ _ _ _ _ _ Hc Hn) by (unfold LONG_MIN, LONG_MAX; lia).
    fold v. unfold signed_sat, signed_over, sat, over. destruct (sign_of sg); [|done].
    replace (- LONG_MIN <? v) with (- v <? LONG_MIN).
    + replace (- Z.min v (- LONG_MIN)) with (Z.max (- v) LONG_MIN) by lia. done.
    + apply eq_true_iff_eq. rewrite !Z.ltb_lt. lia.
Qed.

(** [" -0x1fz"] in base 0: minus 31, up to the [z]. *)
Definition sample_numeral : list Z := [32; 45; 48; 120; 49; 102; 122].

Lemma conversions_saturate_witness :
  strtol 50 0 (put ∅ 50 (sample_numeral ++ [0])) =
    Some (Conv (-31) (Some 56) None, put ∅ 50 (sample_numeral ++ [0])).
Proof.
  refine (proj1 (proj2 (conversions_saturate (put ∅ 50 (sample_numeral ++ [0])) 50 0 [32] [45] [48; 120] [49; 102] [122] 16 _ _))).
  - apply cstr_check. vm_compute. reflexivity.
  - split; [by repeat constructor|by right; right|by apply PHex; left|by repeat constructor|done|done].
Defined.

(** * atoi and its relatives *)

Lemma uw_step w a k c : 0 <= w -> uw w (uw w a * k + c) = uw w (a * k + c).
Proof.
  intros. destruct (uw_eqm w a ltac:(lia)) as [j ->]. unfold uw.
  replace ((a + j * 2 ^ w) * k + c) with (a * k + c + (j * k) * 2 ^ w) by ring. apply Z.mod_add. lia.
Qed.

Lemma sw_step w a k c : 0 < w -> sw w (sw w a * k + c) = sw w (a * k + c).
Proof.
  intros. destruct (sw_eqm w a ltac:(lia)) as [j ->]. unfold sw.
  replace ((a + j * 2 ^ w) * k + c + 2 ^ (w - 1)) with (a * k + c + 2 ^ (w - 1) + (j * k) * 2 ^ w) by ring.
  by rewrite Z.mod_add by lia.
Qed.

Lemma dig10 c : dig 10 c = isdigit c.
Proof. unfold dig, digit_val. ctype. apply eq_true_iff_eq. repeat case_if; rewrite !andb_true_iff, !Z.leb_le, Z.ltb_lt; lia. Qed.

Lemma ato_dec_run wrap l : (forall a c, wrap (wrap a * 10 + c) = wrap (a * 10 + c)) ->
  forall fuel p a m r, cstr m p (l ++ r) -> Forall (fun c => dig 10 c = true) l -> ends 10 r -> (length l < fuel)%nat ->
  ato_dec wrap fuel p (wrap a) m = Some (wrap (value 10 a l), m).
Proof.
  intros Hw. induction l as [|c l IH]; intros [|fuel] p a m r Hc Hl Hr Hf; simpl in Hf; try lia; cbn [ato_dec app] in *.
  - run (rd_some _ _ _ (cstr_head _ _ _ Hc)). apply ends_dig in Hr. rewrite dig10 in Hr. by rewrite Hr, andb_false_r.
  - apply cstr_cons in Hc as (Hp & Hn & _ & Hc). apply Forall_cons in Hl as [Hd Hl].
    run (rd_some _ _ _ Hp). rewrite eqb_nul by done. rewrite dig10 in Hd. rewrite Hd. cbn [negb andb].
    assert (c - chr_0 = digit_val c) as Hv.
    { unfold digit_val. ctype. bool_prop. rewrite (proj2 (Z.leb_gt 65 c)), (proj2 (Z.leb_gt 97 c)) by lia. cbn [andb].
      by rewrite (proj2 (Z.leb_le 48 c)), (proj2 (Z.leb_le c 57)) by lia. }
    replace (wrap a * 10 + c - chr_0) with (wrap a * 10 + digit_val c) by lia.
    rewrite Hw, value_cons. apply (IH _ _ _ _ r); [done|done|done|lia].
Qed.

(** atol, atoi, atoul, atoull and atoui on decimal digits return the value read modulo
    the width of their type, and stop at the first byte that is no digit. *)
Theorem ato_wraps m p (neg : bool) l r :
  cstr m p ((if neg then [chr_minus] else []) ++ l ++ r) ->
  Forall (fun c => isdigit c = true) l -> l ≠ [] ->
  match r with [] => True | c :: _ => isdigit c = false end -> is_0x (l ++ r) = false ->
  let v := value 10 0 l in
  atol p m = Some (s64 (if neg then - v else v), m) /\
  atoi p m = Some (s32 (s64 (if neg then - v else v)), m) /\
  (neg = false -> atoul p m = Some (u64 v, m) /\ atoull p m = Some (u64 v, m) /\ atoui p m = Some (u32 (u64 v), m)).
Proof.
  intros Hc Hl Hne Hr H0x. cbn zeta. set (v := value 10 0 l).
  assert (Forall (fun c => dig 10 c = true) l) as Hd by (eapply Forall_impl; [exact Hl|]; intros c; by rewrite dig10).
  assert (ends 10 r) as He by (destruct r; [done|]; unfold ends; by rewrite dig10).
  pose proof (cstr_fuel _ _ _ Hc) as Hf. rewrite !length_app in Hf.
  assert (has_0x p m = Some (false, m)) as H0.
  { rewrite (has_0x_run _ _ _ Hc). destruct neg; cbn [app]; [by rewrite is_0x_first|by rewrite H0x]. }
  assert (atol p m = Some (s64 (if neg then - v else v), m)) as Hatol.
  { unfold atol. run H0. run (rd_some _ _ _ (cstr_head _ _ _ Hc)). apply cstr_app in Hc as Hc'.
    assert ((hd 0 ((if neg then [chr_minus] else []) ++ l ++ r) =? chr_minus) = neg) as ->.
    { destruct neg; [done|]. destruct l as [|c l]; [done|]. apply Forall_cons in Hl as [Hcd _]. cbn [app hd].
      apply Z.eqb_neq. ctype. bool_prop. lia. }
    unfold with_fuel.
    replace (if neg then p + 1 else p) with (p + Z.of_nat (length (if neg then [chr_minus] else []))) by (destruct neg; simpl; lia).
    erewrite bind_some; [|apply (ato_dec_run s64 l (fun a c => sw_step 64 a 10 c ltac:(lia)) _ _ 0 m r Hc' Hd He); lia].
    fold v. destruct neg; [|done]. unfold mret, M_ret. do 2 f_equal.
    replace (- s64 v) with (s64 v * (-1) + 0) by lia. rewrite sw_step by lia. f_equal. lia. }
  split; [exact Hatol|]. split; [unfold atoi; by rewrite (bind_some _ _ _ _ _ Hatol)|]. intros ->. cbn [app] in Hc.
  assert (atoul p m = Some (u64 v, m)) as Hu.
  { unfold atoul. run H0. unfold with_fuel.
    apply (ato_dec_run u64 l (fun a c => uw_step 64 a 10 c ltac:(lia)) _ _ 0 m r Hc Hd He). simpl in Hf. lia. }
  split; [exact Hu|]. split; [exact Hu|]. unfold atoui. by rewrite (bind_some _ _ _ _ _ Hu).
Qed.

Lemma ato_wraps_witness : atoi 50 (put ∅ 50 [45; 49; 50; 0]) = Some (-12, put ∅ 50 [45; 49; 50; 0]).
Proof.
  refine (proj1 (proj2 (ato_wraps (put ∅ 50 [45; 49; 50; 0]) 50 true [49; 50] [] _ _ _ _ _))).
  - apply cstr_check. vm_compute. reflexivity.
  - repeat constructor.
  - discriminate.
  - exact I.
  - reflexivity.
Defined.

End StrtoProps.
