(* ===== verification/Page.v ===== *)
(** Pages, rounding, and what a page allocator promises to the heap. *)
From S2P Require Import Prelude.
Local Open Scope Z_scope.

Module Page.

(** 4 KiB pages, the default of [arch/defines.h]. *)
Definition PAGE_SIZE_SHIFT : Z := 12.
Definition PAGE_SIZE : Z := Z.shiftl 1 PAGE_SIZE_SHIFT.
Lemma PAGE_SIZE_eq : PAGE_SIZE = 4096.
Proof. reflexivity. Qed.

(** [ROUNDUP] and [ROUNDDOWN] of [stdlib.h] on 64-bit values. *)
Definition ROUNDUP (a b : Z) : Z := Z.land (u64 (a + (b - 1))) (Z.lnot (b - 1)).
Definition ROUNDDOWN (a b : Z) : Z := Z.land a (Z.lnot (b - 1)).

Lemma land_lnot_ones a n : 0 <= n -> 0 <= a -> Z.land a (Z.lnot (2 ^ n - 1)) = a - a mod 2 ^ n.
Proof.
  intros Hn Ha. replace (2 ^ n - 1) with (Z.ones n) by (rewrite Z.ones_equiv; lia).
  rewrite <- Z.ldiff_land, Z.ldiff_ones_r, Z.shiftl_mul_pow2, Z.shiftr_div_pow2 by lia.
  rewrite (Z.mod_eq a) by lia. lia.
Qed.

Lemma ROUNDDOWN_spec a n : 0 <= n -> 0 <= a -> ROUNDDOWN a (2 ^ n) = a - a mod 2 ^ n.
Proof. apply land_lnot_ones. Qed.

Lemma ROUNDUP_spec a n : 0 <= n -> 0 <= a -> a + (2 ^ n - 1) < 2 ^ 64 ->
  let r := ROUNDUP a (2 ^ n) in a <= r < a + 2 ^ n /\ r mod 2 ^ n = 0.
Proof.
  intros Hn Ha Hlt. unfold ROUNDUP. rewrite uw_small, land_lnot_ones by lia. cbn zeta.
  pose proof (Z.mod_pos_bound (a + (2 ^ n - 1)) (2 ^ n) ltac:(lia)). split; [lia|].
  rewrite (Z.mod_eq (a + (2 ^ n - 1))) by lia.
  replace (a + (2 ^ n - 1) - (a + (2 ^ n - 1) - 2 ^ n * ((a + (2 ^ n - 1)) / 2 ^ n)))
    with ((a + (2 ^ n - 1)) / 2 ^ n * 2 ^ n) by lia. apply Z.mod_mul. lia.
Qed.

Lemma ROUNDUP_range a n : 0 <= n -> 0 <= ROUNDUP a (2 ^ n) < 2 ^ 64 /\ ROUNDUP a (2 ^ n) mod 2 ^ n = 0.
Proof.
  intros Hn. unfold ROUNDUP. pose proof (uw_range 64 (a + (2 ^ n - 1)) ltac:(lia)) as Hu.
  set (v := u64 (a + (2 ^ n - 1))) in *. rewrite land_lnot_ones by lia.
  pose proof (Z.mod_pos_bound v (2 ^ n) ltac:(lia)). pose proof (Z.mod_le v (2 ^ n) ltac:(lia) ltac:(lia)).
  split; [lia|]. rewrite (Z.mod_eq v) by lia.
  replace (v - (v - 2 ^ n * (v / 2 ^ n))) with (v / 2 ^ n * 2 ^ n) by lia. apply Z.mod_mul. lia.
Qed.

Lemma ROUNDUP_aligned a n : 0 <= n -> 0 <= a -> a + (2 ^ n - 1) < 2 ^ 64 -> a mod 2 ^ n = 0 -> ROUNDUP a (2 ^ n) = a.
Proof.
  intros Hn Ha Hlt Hal. destruct (ROUNDUP_spec a n Hn Ha Hlt) as [Hr Hm].
  rewrite Z.mod_eq in Hal, Hm by lia. set (x := _ / _) in Hal. set (y := _ / _) in Hm.
  assert (0 < 2 ^ n) by lia. assert (x = y) by nia. subst y. nia.
Qed.

(** The pages of a range of [n] pages from [p] on. *)
Definition in_pages (p n q : Z) : Prop := exists i, 0 <= i < n /\ q = p + i * PAGE_SIZE.

(** * The interface *)

Class PageAlloc (P : Type) := {
  page_alloc : Z -> M P (option Z);
  page_free : Z -> Z -> M P unit;
(** some memory to start with, and its size *)
  page_first_alloc : M P (option Z * Z);
(** the state is consistent; pages it can hand out; pages handed out *)
  pa_wf : P -> Prop;
  pa_managed : P -> Z -> Prop;
  pa_busy : P -> Z -> Prop;
}.

Class PageAllocLaws (P : Type) `{PageAlloc P} := {
  pa_managed_aligned (s : P) q : pa_wf s -> pa_managed s q -> q mod PAGE_SIZE = 0;
  pa_busy_managed (s : P) q : pa_busy s q -> pa_managed s q;
  pa_alloc_ok (s : P) n : pa_wf s -> 0 <= n < 2 ^ 64 ->
    wp (page_alloc n) s (fun r s' =>
      pa_wf s' /\ (forall q, pa_managed s' q <-> pa_managed s q) /\
      match r with
      | Some p =>
          0 < n /\ 0 < p /\ p mod PAGE_SIZE = 0 /\ p + n * PAGE_SIZE < 2 ^ 64 /\
          (forall q, in_pages p n q -> pa_managed s q /\ ~ pa_busy s q) /\
          (forall q, pa_busy s' q <-> pa_busy s q \/ in_pages p n q)
      | None => forall q, pa_busy s' q <-> pa_busy s q
      end);
  pa_free_ok (s : P) p n : pa_wf s -> 0 <= n -> p mod PAGE_SIZE = 0 ->
    (forall q, in_pages p n q -> pa_busy s q) ->
    wp (page_free p n) s (fun _ s' =>
      pa_wf s' /\ (forall q, pa_managed s' q <-> pa_managed s q) /\
      (forall q, pa_busy s' q <-> pa_busy s q /\ ~ in_pages p n q));
}.

End Page.
