(* ===== verification/Novm.v ===== *)
(** The page allocator without virtual memory, [kernel/novm/novm.c], and the
    wrapper [lib/heap/page_alloc.c] around it. *)
From S2P Require Import Prelude Page.
Local Open Scope Z_scope.

Module Novm.
Import Page.

(** [map] holds a byte per page at address [map_at]; NULL is [None]. *)
Record novm_arena := MkArena {
  pages : Z;
  map_at : Z;
  map : list Z;
  base : Z;
  size : Z;
  unaligned_area : option Z;
  unaligned_size : Z;
}.

Definition set_map (x : list Z) (n : novm_arena) : novm_arena :=
  MkArena (pages n) (map_at n) x (base n) (size n) (unaligned_area n) (unaligned_size n).
Definition set_unaligned (a : option Z) (z : Z) (n : novm_arena) : novm_arena :=
  MkArena (pages n) (map_at n) (map n) (base n) (size n) a z.

(** The static array of arenas, all zero at first. *)
Abbreviation arenas := (list novm_arena).
Definition zero_arena : novm_arena := MkArena 0 0 [] 0 0 None 0.

Definition MINIMUM_USEFUL_UNALIGNED_SIZE : Z := 64.
Definition NOVM_ARENA_ANY : Z := 2 ^ 32 - 1.

Definition arena_at (i : nat) : M arenas novm_arena := deref (fun s : arenas => s !! i).
Definition set_arena (i : nat) (n : novm_arena) : M arenas unit := modify (fun s : arenas => <[i := n]> s).

(** Returns [ranges_found] and the ranges filled in. *)
Definition novm_get_arenas (s : arenas) (number_of_ranges : Z) : Z * list (Z * Z) :=
  let seen := take (Z.to_nat number_of_ranges) s in
  (Z.of_nat (foldl (fun r p => if 0 <? pages p.2 then S p.1 else r) 0%nat (imap pair seen)),
   (fun n => (base n, u64 (Z.shiftl (pages n) PAGE_SIZE_SHIFT))) <$> seen).

Definition in_arena (n : novm_arena) (p : Z) : bool :=
  if size n =? 0 then false else (base n <=? p) && (p <? base n + size n).

(** [while (start - arena_start < map_size)]: a page at a time for the map. *)
Fixpoint grab_map (fuel : nat) (arena_start start size map_size : Z) : option (Z * Z * Z) :=
  match fuel with
  | O => None
  | S fuel =>
      if u64 (start - arena_start) <? map_size
      then grab_map fuel arena_start (u64 (start + PAGE_SIZE)) (u64 (size - PAGE_SIZE)) (u64 (map_size - 1))
      else Some (start, size, map_size)
  end.

Definition novm_init_helper (n : novm_arena) (arena_start arena_size : Z)
    (default_map : option Z) (default_map_size : Z) : option novm_arena :=
  let start := ROUNDUP arena_start PAGE_SIZE in
  let size := u64 (ROUNDDOWN (u64 (arena_start + arena_size)) PAGE_SIZE - start) in
  let map_size := Z.shiftr size PAGE_SIZE_SHIFT in
  let own := match default_map with None => true | Some _ => default_map_size <? map_size end in
  '(start, size, map_size, at_, ua, us) ←
    (if own then
       '(start, size, map_size) ← grab_map (S (Z.to_nat map_size)) arena_start start size map_size;
       let rest := arena_start + ROUNDUP map_size 4 in
       Some (if MINIMUM_USEFUL_UNALIGNED_SIZE <=? start - rest
             then (start, size, map_size, arena_start, Some rest, start - rest)
             else (start, size, map_size, arena_start, unaligned_area n, unaligned_size n))
     else
       let at_ := default 0 default_map in
       Some (if MINIMUM_USEFUL_UNALIGNED_SIZE <=? u64 (start - arena_start)
             then (start, size, map_size, at_, Some arena_start, u64 (start - arena_start))
             else (start, size, map_size, at_, unaligned_area n, unaligned_size n)));
  Some (MkArena map_size at_ (replicate (Z.to_nat map_size) 0) start size ua us).

(** The first arena without pages; too many arenas is a panic. *)
Definition novm_add_arena (arena_start arena_size : Z) : M arenas unit := fun s =>
  match list_find (fun n => pages n = 0) s with
  | Some (i, n) => n' ← novm_init_helper n arena_start arena_size None 0; Some (tt, <[i := n']> s)
  | None => None
  end.

(** The inner loop: the first of the pages [i + j, ...] in use, [rem] pages
    being left to look at. *)
Fixpoint first_busy (map : list Z) (i j rem : nat) : option (option nat) :=
  match rem with
  | O => Some None
  | S rem => c ← map !! (i + j)%nat; if negb (c =? 0) then Some (Some j) else first_busy map i (S j) rem
  end.

Fixpoint alloc_search (fuel : nat) (map : list Z) (last i pages : nat) : option (option nat) :=
  match fuel with
  | O => None
  | S fuel =>
      if (last <? i)%nat then Some None
      else
        busy ← first_busy map i 0 pages;
        match busy with
        | None => Some (Some i)
        | Some j => alloc_search fuel map last (i + j + 1) pages
        end
  end.

(** [memset(map + i, v, n)] within the map. *)
Definition fill_map (i n : nat) (v : Z) (map : list Z) : option (list Z) :=
  if (i + n <=? length map)%nat then Some (take i map ++ replicate n v ++ drop (i + n) map) else None.

Definition novm_alloc_helper (i : nat) (pages_ : Z) : M arenas (option Z) :=
  n ← arena_at i;
  if (pages_ =? 0) || (pages n <? pages_) then mret None
  else
    r ← deref (fun _ => alloc_search (S (length (map n))) (map n) (Z.to_nat (pages n - pages_)) 0 (Z.to_nat pages_));
    match r with
    | Some k =>
        m ← deref (fun _ => fill_map k (Z.to_nat pages_) 1 (map n));
        _ ← set_arena i (set_map m n);
        mret (Some (base n + Z.shiftl (Z.of_nat k) PAGE_SIZE_SHIFT))
    | None => mret None
    end.

Fixpoint alloc_arenas (count i : nat) (pages_ arena_bitmap : Z) : M arenas (option Z) :=
  match count with
  | O => mret None
  | S count =>
      r ← (if Z.testbit arena_bitmap (Z.of_nat i) then novm_alloc_helper i pages_ else mret None);
      match r with Some p => mret (Some p) | None => alloc_arenas count (S i) pages_ arena_bitmap end
  end.
Definition novm_alloc_pages (pages_ arena_bitmap : Z) : M arenas (option Z) :=
  s ← get; alloc_arenas (length s) 0 pages_ arena_bitmap.

Definition find_arena (p : Z) : M arenas (option (nat * novm_arena)) :=
  gets (fun s : arenas => list_find (fun n => in_arena n p = true) s).

Definition novm_free_pages (address pages_ : Z) : M arenas unit :=
  r ← find_arena address;
  match r with
  | None => mret tt
  | Some (i, n) =>
      let index := Z.shiftr (address - base n) PAGE_SIZE_SHIFT in
      m ← deref (fun _ => fill_map (Z.to_nat index) (Z.to_nat pages_) 0 (map n));
      set_arena i (set_map m n)
  end.

(** Marks page by page, and stops at a page in use with those before it marked. *)
Fixpoint mark_specific (rem : nat) (index : nat) (map : list Z) : option (Z * list Z) :=
  match rem with
  | O => Some (NO_ERROR, map)
  | S rem =>
      c ← map !! index;
      if negb (c =? 0) then Some (ERR_NO_MEMORY, map) else mark_specific rem (S index) (<[index := 1]> map)
  end.
Definition novm_alloc_specific_pages (address pages_ : Z) : M arenas Z :=
  r ← find_arena address;
  match r with
  | None => mret ERR_NOT_FOUND
  | Some (i, n) =>
      let index := Z.shiftr (address - base n) PAGE_SIZE_SHIFT in
      em ← deref (fun _ => mark_specific (Z.to_nat pages_) (Z.to_nat index) (map n));
      _ ← set_arena i (set_map em.2 n);
      mret em.1
  end.

(** Returns the pointer and [*size_return]. *)
Definition novm_alloc_unaligned : M arenas (option Z * Z) :=
  n ← arena_at 0;
  match unaligned_area n with
  | Some a => _ ← set_arena 0 (set_unaligned None 0 n); mret (Some a, unaligned_size n)
  | None => p ← novm_alloc_pages 1 NOVM_ARENA_ANY; mret (p, PAGE_SIZE)
  end.

(** * The page allocator's wrapper, [lib/heap/page_alloc.c] *)

(** [PAGE_ALLOC_ANY_ARENA] is -1, which is every bit of the bitmap. *)
Definition PAGE_ALLOC_ANY_ARENA : Z := -1.
Definition page_alloc (pages_ arena : Z) : M arenas (option Z) := novm_alloc_pages pages_ (u32 arena).
Definition page_free (ptr pages_ : Z) : M arenas unit := novm_free_pages ptr pages_.
Definition page_get_arenas (s : arenas) (number_of_ranges : Z) : Z * list (Z * Z) := novm_get_arenas s number_of_ranges.
Definition page_first_alloc : M arenas (option Z * Z) := novm_alloc_unaligned.

End Novm.
