(* ===== verification/NovmProps.v ===== *)
(** The page allocator hands out the first run of free pages, takes back what
    it handed out, and keeps its interface. *)
From S2P Require Import Prelude Page Novm.
Local Open Scope Z_scope.

Module NovmProps.
Import Page Novm.

(** * Searching the map *)

(** [n] free pages from page [i] on. *)
Definition free_run (m : list Z) (i n : nat) : Prop := forall j, (j < n)%nat -> m !! (i + j)%nat = Some 0.

Lemma first_busy_spec m i rem : forall j, (i + j + rem <= length m)%nat ->
  exists r, first_busy m i j rem = Some r /\
    match r with
    | None => free_run m (i + j) rem
    | Some k => (j <= k < j + rem)%nat /\ exists c, m !! (i + k)%nat = Some c /\ c ≠ 0
    end.
Proof.
  induction rem as [|rem IH]; intros j Hlen; cbn [first_busy].
  - exists None. split; [done|]. intros k Hk. lia.
  - destruct (lookup_lt_is_Some_2 m (i + j)) as [c Hc]; [lia|]. rewrite Hc. cbn [mbind option_bind]. case_if.
    + exists (Some j). split; [done|]. split; [lia|eauto].
    + destruct (IH (S j) ltac:(lia)) as (r & -> & Hr). exists r. split; [done|]. destruct r as [k|].
      * split; [lia|tauto].
      * intros [|k] Hk; [rewrite Nat.add_0_r; congruence|].
        replace (i + j + S k)%nat with (i + S j + k)%nat by lia. apply Hr. lia.
Qed.

Lemma alloc_search_spec m last n : (0 < n)%nat -> (last + n = length m)%nat -> forall fuel i,
  (i <= length m < fuel + i)%nat ->
  exists r, alloc_search fuel m last i n = Some r /\
    match r with
    | Some k => (i <= k <= last)%nat /\ free_run m k n /\ forall k', (i <= k' < k)%nat -> ~ free_run m k' n
    | None => forall k', (i <= k' <= last)%nat -> ~ free_run m k' n
    end.
Proof.
  intros Hn Hlast. induction fuel as [|fuel IH]; intros i Hf; cbn [alloc_search].
  - exfalso. lia.
  - case_if.
    + apply Nat.ltb_lt in E. exists None. split; [done|]. intros k' Hk. lia.
    + apply Nat.ltb_ge in E.
      destruct (first_busy_spec m i n 0 ltac:(lia)) as (r & -> & Hr). cbn [mbind option_bind]. destruct r as [j|].
      * destruct Hr as [Hj (c & Hc & Hne)].
        assert (forall k', (i <= k' <= i + j)%nat -> ~ free_run m k' n) as Hskip.
        { intros k' Hk' Hrun. specialize (Hrun (i + j - k')%nat ltac:(lia)).
          replace (k' + (i + j - k'))%nat with (i + j)%nat in Hrun by lia. congruence. }
        destruct (IH (i + j + 1)%nat ltac:(lia)) as (r & -> & Hr). exists r. split; [done|]. destruct r as [k|].
        -- destruct Hr as (Hk & Hrun & Hno). split; [lia|]. split; [done|]. intros k' Hk'.
           destruct (decide (k' <= i + j)%nat); [apply Hskip; lia|apply Hno; lia].
        -- intros k' Hk'. destruct (decide (k' <= i + j)%nat); [apply Hskip; lia|apply Hr; lia].
      * rewrite Nat.add_0_r in Hr. exists (Some i). split; [done|]. split; [lia|]. split; [done|]. intros k' Hk'. lia.
Qed.

Lemma fill_map_spec i n v m : (i + n <= length m)%nat ->
  exists m', fill_map i n v m = Some m' /\ length m' = length m /\
    forall k, m' !! k = if decide (i <= k < i + n)%nat then Some v else m !! k.
Proof.
  intros Hlen. unfold fill_map. rewrite (proj2 (Nat.leb_le _ _)) by done. eexists. split; [done|]. split.
  - rewrite !length_app, length_take, length_replicate, length_drop. lia.
  - intros k. case_decide.
    + rewrite lookup_app_r, lookup_app_l by (rewrite ?length_take, ?length_replicate; lia).
      rewrite lookup_replicate_2; [done|]. rewrite length_take. lia.
    + destruct (decide (k < i)%nat).
      * rewrite lookup_app_l, lookup_take_lt by (rewrite ?length_take; lia). done.
      * rewrite !lookup_app_r by (rewrite ?length_take, ?length_replicate; lia).
        rewrite lookup_drop, length_take, length_replicate. f_equal. lia.
Qed.

(** * The state *)

Record arena_ok (n : novm_arena) : Prop := {
  ar_pages : pages n = Z.of_nat (length (map n));
  ar_size : size n = pages n * PAGE_SIZE;
  ar_base : base n mod PAGE_SIZE = 0;
  ar_pos : 0 < pages n -> 0 < base n;
  ar_top : 0 <= base n /\ base n + size n < 2 ^ 64;
}.

(** Arenas are disjoint, with a gap between them: a range of pages that are in
    use lies in one arena. *)
Record wf (s : arenas) : Prop := {
  wf_ok i n : s !! i = Some n -> arena_ok n;
  wf_apart i j n k : s !! i = Some n -> s !! j = Some k -> i ≠ j -> 0 < size n -> 0 < size k ->
    base n + size n < base k \/ base k + size k < base n;
}.

Definition page_of (s : arenas) (q : Z) (i k : nat) (c : Z) : Prop :=
  exists n, s !! i = Some n /\ map n !! k = Some c /\ q = base n + Z.of_nat k * PAGE_SIZE.
Definition managed (s : arenas) (q : Z) : Prop := exists i k c, page_of s q i k c.
Definition busy (s : arenas) (q : Z) : Prop := exists i k c, page_of s q i k c /\ c ≠ 0.

Lemma page_of_bound s q i k c n : wf s -> s !! i = Some n -> page_of s q i k c ->
  base n <= q < base n + size n /\ 0 < size n.
Proof.
  intros Hw Hn (n' & Hn' & Hk & ->). simplify_eq. destruct (wf_ok _ Hw _ _ Hn) as [Hp Hs _ _ _].
  apply lookup_lt_Some in Hk. rewrite PAGE_SIZE_eq in *. lia.
Qed.

(** A page is in one place. *)
Lemma page_of_unique s q i k c i' k' c' : wf s -> page_of s q i k c -> page_of s q i' k' c' -> i = i' /\ k = k' /\ c = c'.
Proof.
  intros Hw H1 H2. pose proof H1 as (n & Hn & Hk & Hq). pose proof H2 as (n' & Hn' & Hk' & Hq').
  pose proof (page_of_bound _ _ _ _ _ _ Hw Hn H1) as [B1 S1]. pose proof (page_of_bound _ _ _ _ _ _ Hw Hn' H2) as [B2 S2].
  destruct (decide (i = i')) as [->|Hne].
  - simplify_eq. rewrite PAGE_SIZE_eq in *. assert (k = k') as -> by lia. by simplify_eq.
  - pose proof (wf_apart _ Hw _ _ _ _ Hn Hn' Hne S1 S2). lia.
Qed.

(** Changing the map of one arena. *)
Section set_map.
Context (s : arenas) (i : nat) (n : novm_arena) (m : list Z) (lo cnt : nat) (v : Z).
Hypothesis Hw : wf s.
Hypothesis Hi : s !! i = Some n.
Hypothesis Hlen : length m = length (map n).
Hypothesis Hm : forall k, m !! k = if decide (lo <= k < lo + cnt)%nat then Some v else map n !! k.
Hypothesis Hcnt : (lo + cnt <= length (map n))%nat.
Let s' : arenas := <[i := set_map m n]> s.
Let p := base n + Z.of_nat lo * PAGE_SIZE.

Lemma set_map_at j : s' !! j = if decide (j = i) then Some (set_map m n) else s !! j.
Proof using All.
  unfold s'. case_decide; [subst j; apply list_lookup_insert_eq; by eapply lookup_lt_Some|].
  by rewrite list_lookup_insert_ne.
Qed.

Lemma set_map_wf : wf s'.
Proof using All.
  split.
  - intros j k. rewrite set_map_at. case_decide; [|by apply (wf_ok _ Hw)]. intros [= <-].
    destruct (wf_ok _ Hw _ _ Hi). split; simpl; try done. by rewrite Hlen.
  - intros j j' a b. rewrite !set_map_at. intros Ha Hb Hne.
    assert (exists a0 b0, s !! j = Some a0 /\ s !! j' = Some b0 /\ base a = base a0 /\ size a = size a0 /\
      base b = base b0 /\ size b = size b0) as (a0 & b0 & Ha0 & Hb0 & -> & -> & -> & ->).
    { repeat case_decide; simplify_eq; eexists _, _; (split; [eassumption|]); (split; [eassumption|]); done. }
    by apply (wf_apart _ Hw j j').
Qed.

Lemma in_pages_lo q : in_pages p (Z.of_nat cnt) q <-> exists k, (lo <= k < lo + cnt)%nat /\ q = base n + Z.of_nat k * PAGE_SIZE.
Proof using All.
  unfold p. rewrite !PAGE_SIZE_eq. unfold in_pages. rewrite PAGE_SIZE_eq. split.
  - intros (z & Hz & ->). exists (lo + Z.to_nat z)%nat. split; lia.
  - intros (k & Hk & ->). exists (Z.of_nat (k - lo)). split; lia.
Qed.

Lemma set_map_page q j k c : page_of s' q j k c <->
    (if decide (j = i /\ lo <= k < lo + cnt)%nat then c = v /\ q = base n + Z.of_nat k * PAGE_SIZE else page_of s q j k c).
Proof using All.
  unfold page_of. rewrite set_map_at. destruct (decide (j = i /\ lo <= k < lo + cnt)%nat) as [Hd|Hd].
  - destruct Hd as [-> Hk]. rewrite decide_True by done. split.
    + intros (n' & [= <-] & Hc & ->). simpl in Hc. rewrite Hm, decide_True in Hc by done. by simplify_eq.
    + intros [-> ->]. eexists. split; [done|]. simpl. by rewrite Hm, decide_True.
  - case_decide as Hj; [|done]. subst j. split.
    + intros (n' & [= <-] & Hc & ->). simpl in Hc. rewrite Hm, decide_False in Hc by (intros ?; by apply Hd). eauto.
    + intros (n' & Hn' & Hc & ->). simplify_eq. eexists. split; [done|]. simpl. by rewrite Hm, decide_False by (intros ?; by apply Hd).
Qed.

Lemma set_map_managed q : managed s' q <-> managed s q.
Proof using All.
  unfold managed. split; intros (j & k & c & Hp).
  - apply set_map_page in Hp. case_decide as Hd; [|eauto]. destruct Hd as [-> Hk], Hp as [-> ->].
    destruct (lookup_lt_is_Some_2 (map n) k) as [c' Hc]; [lia|]. exists i, k, c'. eexists. eauto.
  - exists j, k. destruct (decide (j = i /\ lo <= k < lo + cnt)%nat) as [Hd|Hd].
    + exists v. apply set_map_page. rewrite decide_True by done. destruct Hp as (n' & Hn' & _ & ->), Hd as [-> _].
      by simplify_eq.
    + exists c. apply set_map_page. by rewrite decide_False.
Qed.

Lemma set_map_busy q : busy s' q <-> (if decide (v = 0) then busy s q /\ ~ in_pages p (Z.of_nat cnt) q
                                        else busy s q \/ in_pages p (Z.of_nat cnt) q).
Proof using All.
  transitivity (if decide (v = 0) then busy s q /\ ~ (exists k, (lo <= k < lo + cnt)%nat /\ q = base n + Z.of_nat k * PAGE_SIZE)
    else busy s q \/ (exists k, (lo <= k < lo + cnt)%nat /\ q = base n + Z.of_nat k * PAGE_SIZE));
    [|destruct (decide (v = 0)); by rewrite in_pages_lo].
  unfold busy. split.
  - intros (j & k & c & Hp & Hc). apply set_map_page in Hp.
    destruct (decide (j = i /\ lo <= k < lo + cnt)%nat) as [Hd|Hd].
    + destruct Hd as [-> Hk], Hp as [-> ->]. rewrite decide_False by done. right. eauto.
    + destruct (decide (v = 0)); [|eauto 6]. split; [eauto 6|]. intros (k' & Hk' & Hq).
      destruct (lookup_lt_is_Some_2 (map n) k') as [c' Hc']; [lia|].
      destruct (page_of_unique s q j k c i k' c' Hw Hp) as (-> & -> & _); [by eexists|]. tauto.
  - destruct (decide (v = 0)) as [Hv|Hv].
    + intros [(j & k & c & Hp & Hc) Hno]. exists j, k, c. split; [|done]. apply set_map_page.
      rewrite decide_False; [done|]. intros [-> Hk]. apply Hno. exists k. split; [done|].
      destruct Hp as (n' & Hn' & _ & ->). by simplify_eq.
    + intros [(j & k & c & Hp & Hc)|(k & Hk & ->)].
      * destruct (decide (j = i /\ lo <= k < lo + cnt)%nat) as [Hd|Hd].
        -- exists j, k, v. split; [|done]. apply set_map_page. rewrite decide_True by done.
           destruct Hp as (n' & Hn' & _ & ->), Hd as [-> _]. by simplify_eq.
        -- exists j, k, c. split; [|done]. apply set_map_page. by rewrite decide_False.
      * exists i, k, v. split; [|done]. apply set_map_page. by rewrite decide_True.
Qed.
End set_map.

(** * Allocation *)

(** A run of [n] free pages from page [k] of arena [i] on. *)
Definition fits (s : arenas) (n i k : nat) : Prop :=
  exists a, s !! i = Some a /\ (k + n <= length (map a))%nat /\ free_run (map a) k n.

(** What an allocation of [n] pages at [p] in arena [i] leaves. *)
Definition taken (s : arenas) (n i k : nat) (p : Z) (s' : arenas) : Prop :=
  exists a m, s !! i = Some a /\ p = base a + Z.of_nat k * PAGE_SIZE /\
    fill_map k n 1 (map a) = Some m /\ s' = <[i := set_map m a]> s.

Lemma alloc_helper_spec s i n : wf s -> (i < length s)%nat -> 0 <= n ->
  wp (novm_alloc_helper i n) s (fun r s' =>
    match r with
    | Some p => 0 < n /\ exists k, fits s (Z.to_nat n) i k /\ (forall k', (k' < k)%nat -> ~ fits s (Z.to_nat n) i k') /\
        taken s (Z.to_nat n) i k p s'
    | None => s' = s /\ (n = 0 \/ forall k, ~ fits s (Z.to_nat n) i k)
    end).
Proof.
  intros Hw Hi Hn. destruct (lookup_lt_is_Some_2 s i Hi) as [a Ha].
  destruct (wf_ok _ Hw _ _ Ha) as [Hp _ _ _ _]. unfold novm_alloc_helper, arena_at. wp_step.
  exists a. split; [exact Ha|]. case_if; [apply orb_true_iff in E as [E|E]|]; bool_prop.
  - split; [done|]. by left.
  - split; [done|]. right. intros k (a' & Ha' & Hk & _). simplify_eq. lia.
  - destruct (alloc_search_spec (map a) (Z.to_nat (pages a - n)) (Z.to_nat n)) with (fuel := S (length (map a))) (i := 0%nat)
      as (r & Hr & Hs); [lia|lia|lia|]. rewrite Hr. wp_step. exists r. split; [done|]. destruct r as [k|].
    + destruct Hs as (Hk & Hrun & Hfirst).
      destruct (fill_map_spec k (Z.to_nat n) 1 (map a)) as (m & Hm & _); [lia|]. wp_step.
      exists m. split; [done|]. unfold set_arena. wp_step. split; [lia|]. exists k. split.
      { exists a. split; [done|]. split; [lia|done]. }
      split.
      { intros k' Hk' (a' & Ha' & _ & Hrun'). simplify_eq. apply (Hfirst k'); [lia|done]. }
      exists a, m. split; [done|]. split; [|done]. f_equal. by rewrite Z.shiftl_mul_pow2.
    + wp_step. split; [done|]. right. intros k (a' & Ha' & Hk & Hrun). simplify_eq. apply (Hs k); [lia|done].
Qed.

Definition selected (bitmap : Z) (i : nat) : bool := Z.testbit bitmap (Z.of_nat i).

Lemma alloc_arenas_spec s n bitmap : wf s -> 0 <= n -> forall count i, (count + i = length s)%nat ->
  wp (alloc_arenas count i n bitmap) s (fun r s' =>
    match r with
    | Some p => 0 < n /\ exists j k, (i <= j)%nat /\ selected bitmap j = true /\ fits s (Z.to_nat n) j k /\
        (forall j' k', (i <= j')%nat -> selected bitmap j' = true -> fits s (Z.to_nat n) j' k' ->
          (j < j')%nat \/ j = j' /\ (k <= k')%nat) /\
        taken s (Z.to_nat n) j k p s'
    | None => s' = s /\ (n = 0 \/ forall j k, (i <= j)%nat -> selected bitmap j = true -> ~ fits s (Z.to_nat n) j k)
    end).
Proof.
  intros Hw Hn. induction count as [|count IH]; intros i Hc; cbn [alloc_arenas].
  - wp_step. split; [done|]. right. intros j k Hj _ (a & Ha & _). apply lookup_lt_Some in Ha. lia.
  - apply wp_bind. fold (selected bitmap i).
    assert (wp (alloc_arenas count (S i) n bitmap) s (fun r s' =>
      match r with
      | Some p => 0 < n /\ exists j k, (S i <= j)%nat /\ selected bitmap j = true /\ fits s (Z.to_nat n) j k /\
          (forall j' k', (S i <= j')%nat -> selected bitmap j' = true -> fits s (Z.to_nat n) j' k' ->
            (j < j')%nat \/ j = j' /\ (k <= k')%nat) /\
          taken s (Z.to_nat n) j k p s'
      | None => s' = s /\ (n = 0 \/ forall j k, (S i <= j)%nat -> selected bitmap j = true -> ~ fits s (Z.to_nat n) j k)
      end)) as Hrest by (apply IH; lia).
    assert ((selected bitmap i = true -> n = 0 \/ forall k, ~ fits s (Z.to_nat n) i k) ->
      wp (alloc_arenas count (S i) n bitmap) s (fun r s' =>
        match r with
        | Some p => 0 < n /\ exists j k, (i <= j)%nat /\ selected bitmap j = true /\ fits s (Z.to_nat n) j k /\
            (forall j' k', (i <= j')%nat -> selected bitmap j' = true -> fits s (Z.to_nat n) j' k' ->
              (j < j')%nat \/ j = j' /\ (k <= k')%nat) /\
            taken s (Z.to_nat n) j k p s'
        | None => s' = s /\ (n = 0 \/ forall j k, (i <= j)%nat -> selected bitmap j = true -> ~ fits s (Z.to_nat n) j k)
        end)) as Hskip.
    { intros Hno. eapply wp_mono; [exact Hrest|]. intros [p|] s'.
      - intros (H0 & j & k & Hj & Hsel & Hfit & Hfirst & Ht). split; [done|]. exists j, k. split; [lia|].
        split; [done|]. split; [done|]. split; [|done]. intros j' k' Hj' Hs' Hf'.
        destruct (decide (j' = i)) as [->|Hne]; [|apply Hfirst; [lia|done|done]].
        destruct (Hno Hs') as [?|Hno']; [lia|]. by destruct (Hno' k').
      - intros [-> Hno2]. split; [done|]. destruct (decide (n = 0)) as [->|Hn0]; [by left|right].
        intros j k Hj Hs'. destruct Hno2 as [?|Hno2]; [done|]. destruct (decide (j = i)) as [->|Hne]; [|apply Hno2; [lia|done]].
        destruct (Hno Hs') as [?|Hno']; [done|apply Hno']. }
    destruct (selected bitmap i) eqn:Es; [|wp_step; by apply Hskip].
    eapply wp_mono; [apply (alloc_helper_spec s i n Hw); [lia|done]|]. intros [p|] s'.
    + intros (H0 & k & Hfit & Hfirst & Ht). wp_step. split; [done|]. exists i, k. split; [lia|]. split; [done|].
      split; [done|]. split; [|done]. intros j' k' Hj' _ Hf'. destruct (decide (j' = i)) as [->|Hne]; [|left; lia].
      right. split; [done|]. destruct (decide (k' < k)%nat); [|lia]. by destruct (Hfirst k').
    + intros [-> Hno]. by apply Hskip.
Qed.

Lemma taken_spec s n i k p s' : wf s -> (0 < n)%nat -> fits s n i k -> taken s n i k p s' ->
  wf s' /\ (forall q, managed s' q <-> managed s q) /\
  0 < p /\ p mod PAGE_SIZE = 0 /\ p + Z.of_nat n * PAGE_SIZE < 2 ^ 64 /\
  (forall q, in_pages p (Z.of_nat n) q -> managed s q /\ ~ busy s q) /\
  (forall q, busy s' q <-> busy s q \/ in_pages p (Z.of_nat n) q).
Proof.
  intros Hw Hn (a & Ha & Hk & Hrun) (a' & m & Ha' & -> & Hm & ->). simplify_eq.
  destruct (fill_map_spec k n 1 (map a) Hk) as (m' & Hm' & Hlen & Hlook). rewrite Hm in Hm'. injection Hm' as <-.
  destruct (wf_ok _ Hw _ _ Ha) as [Hp Hs Hb Hpos Htop].
  split; [by eapply set_map_wf|]. split; [by eapply set_map_managed|].
  split; [specialize (Hpos ltac:(lia)); rewrite PAGE_SIZE_eq; lia|].
  split; [by rewrite Z.mod_add by (rewrite PAGE_SIZE_eq; lia)|].
  split; [rewrite PAGE_SIZE_eq in *; lia|]. split.
  - intros q Hq. destruct (proj1 (in_pages_lo s i a m k n 1 Hw Ha Hlen Hlook Hk q) Hq) as (j & Hj & ->).
    specialize (Hrun (j - k)%nat ltac:(lia)). replace (k + (j - k))%nat with j in Hrun by lia.
    assert (page_of s (base a + Z.of_nat j * PAGE_SIZE) i j 0) as Hpg by (exists a; done).
    split; [by exists i, j, 0|]. intros (i' & k' & c & Hpg' & Hc).
    destruct (page_of_unique _ _ _ _ _ _ _ _ Hw Hpg Hpg') as (_ & _ & <-). done.
  - intros q. by rewrite (set_map_busy s i a m k n 1).
Qed.

Lemma find_arena_page s q i k c n : wf s -> s !! i = Some n -> page_of s q i k c ->
  list_find (fun n => in_arena n q = true) s = Some (i, n) /\ q = base n + Z.of_nat k * PAGE_SIZE.
Proof.
  intros Hw Hn Hp. pose proof (page_of_bound _ _ _ _ _ _ Hw Hn Hp) as [Hb Hsz]. split.
  - apply list_find_Some. split; [done|]. split.
    + unfold in_arena. rewrite (proj2 (Z.eqb_neq _ _)) by lia. apply andb_true_iff.
      rewrite Z.leb_le, Z.ltb_lt. lia.
    + intros j a Ha Hj Hin. unfold in_arena in Hin. destruct (size a =? 0) eqn:E; [done|]. bool_prop.
      assert (arena_ok a) as [? ? _ _ ?] by (by eapply wf_ok). rewrite PAGE_SIZE_eq in *.
      pose proof (wf_apart _ Hw _ _ _ _ Ha Hn ltac:(lia) ltac:(lia) ltac:(lia)). lia.
  - destruct Hp as (n' & Hn' & _ & ->). by simplify_eq.
Qed.

(** Pages in use that follow each other are in one arena. *)
Lemma busy_run s p n i k c : wf s -> (forall q, in_pages p (Z.of_nat n) q -> busy s q) -> page_of s p i k c ->
  forall j, (j < n)%nat -> exists c, page_of s (p + Z.of_nat j * PAGE_SIZE) i (k + j) c /\ c ≠ 0.
Proof.
  intros Hw Hb Hp. induction j as [|j IH]; intros Hj.
  - assert (busy s p) as (i' & k' & c' & Hp' & Hc'). { apply Hb. exists 0. lia. }
    destruct (page_of_unique _ _ _ _ _ _ _ _ Hw Hp Hp') as (<- & <- & <-). exists c.
    by rewrite Nat.add_0_r, Z.add_0_r.
  - destruct (IH ltac:(lia)) as (c1 & Hp1 & _).
    assert (busy s (p + Z.of_nat (S j) * PAGE_SIZE)) as (i' & k' & c' & Hp' & Hc').
    { apply Hb. exists (Z.of_nat (S j)). lia. }
    pose proof Hp1 as (a & Ha & _ & Hq1). pose proof Hp' as (a' & Ha' & _ & Hq').
    pose proof (page_of_bound _ _ _ _ _ _ Hw Ha Hp1) as [B1 S1].
    pose proof (page_of_bound _ _ _ _ _ _ Hw Ha' Hp') as [B2 S2].
    destruct (wf_ok _ Hw _ _ Ha) as [_ Hsa _ _ _]. destruct (decide (i = i')) as [<-|Hne].
    + simplify_eq. exists c'. split; [|done]. rewrite PAGE_SIZE_eq in *. by replace (k + S j)%nat with k' by lia.
    + pose proof (wf_apart _ Hw _ _ _ _ Ha Ha' Hne S1 S2). rewrite PAGE_SIZE_eq in *. exfalso. lia.
Qed.

Lemma fill_map_zero i m : (i <= length m)%nat -> fill_map i 0 0 m = Some m.
Proof. intros Hi. unfold fill_map. rewrite (proj2 (Nat.leb_le _ _)) by lia. by rewrite Nat.add_0_r, app_nil_l, take_drop. Qed.

Lemma index_of_page (k : nat) b : Z.to_nat (Z.shiftr (b + Z.of_nat k * PAGE_SIZE - b) PAGE_SIZE_SHIFT) = k.
Proof.
  rewrite Z.add_simpl_l, Z.shiftr_div_pow2 by done. change (2 ^ PAGE_SIZE_SHIFT) with PAGE_SIZE.
  rewrite Z.div_mul by (rewrite PAGE_SIZE_eq; lia). lia.
Qed.

Lemma set_same_map (s : arenas) (i : nat) a : s !! i = Some a -> <[i := set_map (map a) a]> s = s.
Proof. intros Ha. replace (set_map (map a) a) with a by (by destruct a). by apply list_insert_id. Qed.

Lemma free_pages_wp s p n : wf s -> 0 <= n -> p mod PAGE_SIZE = 0 ->
  (forall q, in_pages p n q -> busy s q) ->
  wp (novm_free_pages p n) s (fun _ s' =>
    wf s' /\ (forall q, managed s' q <-> managed s q) /\ (forall q, busy s' q <-> busy s q /\ ~ in_pages p n q)).
Proof.
  intros Hw Hn Hal Hb. unfold novm_free_pages, find_arena. wp_step.
  destruct (decide (n = 0)) as [->|Hn0].
  - assert (forall q, ~ in_pages p 0 q) as Hno by (intros q (z & Hz & _); lia).
    destruct (list_find _ s) as [[i a]|] eqn:Hf; [|wp_step; split; [done|]; split; [done|]; intros q; split; [by auto|tauto]].
    apply list_find_Some in Hf as (Ha & Hin & _). unfold in_arena in Hin. destruct (size a =? 0) eqn:E; [done|]. bool_prop.
    destruct (wf_ok _ Hw _ _ Ha) as [Hp Hs _ _ _].
    wp_step. eexists. split.
    { apply fill_map_zero. rewrite Z.shiftr_div_pow2 by done. change (2 ^ PAGE_SIZE_SHIFT) with PAGE_SIZE.
      rewrite PAGE_SIZE_eq in *. assert ((p - base a) / 4096 < pages a) by (apply Z.div_lt_upper_bound; lia). lia. }
    unfold set_arena. wp_step. rewrite set_same_map by done. split; [done|]. split; [done|].
    intros q. split; [by auto|tauto].
  - assert (busy s p) as (i & k & c & Hp & Hc). { apply Hb. exists 0. lia. }
    pose proof Hp as (a & Ha & _). destruct (find_arena_page _ _ _ _ _ _ Hw Ha Hp) as [-> Hpeq].
    pose proof (busy_run s p (Z.to_nat n) i k c Hw) as Hrun. rewrite Z2Nat.id in Hrun by lia. specialize (Hrun Hb Hp).
    destruct (Hrun (Z.to_nat n - 1)%nat ltac:(lia)) as (c' & (a' & Ha' & Hlast & _) & _).
    rewrite Ha in Ha'. injection Ha' as <-. subst p. apply lookup_lt_Some in Hlast. rewrite index_of_page.
    destruct (fill_map_spec k (Z.to_nat n) 0 (map a)) as (m & Hm & Hlen & Hlook); [lia|].
    wp_step. exists m. split; [done|]. unfold set_arena. wp_step.
    assert (k + Z.to_nat n <= length (map a))%nat as Hle by lia.
    split; [exact (set_map_wf s i a m k (Z.to_nat n) 0 Hw Ha Hlen Hlook Hle)|].
    split; [exact (set_map_managed s i a m k (Z.to_nat n) 0 Hw Ha Hlen Hlook Hle)|]. intros q.
    rewrite (set_map_busy s i a m k (Z.to_nat n) 0 Hw Ha Hlen Hlook Hle). by rewrite Z2Nat.id by lia.
Qed.

(** * The interface *)

#[export] Instance novm_alloc : PageAlloc arenas := {
  page_alloc n := Novm.page_alloc n PAGE_ALLOC_ANY_ARENA;
  page_free := Novm.page_free;
  page_first_alloc := Novm.page_first_alloc;
  pa_wf := wf;
  pa_managed := managed;
  pa_busy := busy;
}.

Lemma selected_any i : (i < 32)%nat -> selected (u32 PAGE_ALLOC_ANY_ARENA) i = true.
Proof. intros Hi. unfold selected. change (u32 PAGE_ALLOC_ANY_ARENA) with (Z.ones 32). apply Z.ones_spec_low. lia. Qed.

#[export] Instance novm_laws : PageAllocLaws arenas.
Proof.
  split.
  - intros s q Hw (i & k & c & a & Ha & _ & ->). rewrite Z.mod_add by (rewrite PAGE_SIZE_eq; lia).
    by eapply ar_base, wf_ok.
  - intros s q (i & k & c & Hp & _). by exists i, k, c.
  - intros s n Hw Hn. simpl. unfold Novm.page_alloc, novm_alloc_pages. wp_step.
    eapply wp_mono; [apply (alloc_arenas_spec s n _ Hw ltac:(lia) (length s) 0%nat); lia|]. intros [p|] s'.
    + intros (H0 & i & k & _ & _ & Hfit & _ & Ht).
      destruct (taken_spec s (Z.to_nat n) i k p s' Hw ltac:(lia) Hfit Ht) as (Hw' & Hman & Hp).
      rewrite Z2Nat.id in Hp by lia. auto.
    + intros [-> _]. auto.
  - intros s p n Hw Hn Hal Hb. by apply free_pages_wp.
Qed.

(** Freeing what was taken restores the maps. *)
Lemma free_taken s n i k p s' : wf s -> (0 < n)%nat -> fits s n i k -> taken s n i k p s' ->
  novm_free_pages p (Z.of_nat n) s' = Some (tt, s).
Proof.
  intros Hw Hn Hfit Ht. pose proof (taken_spec _ _ _ _ _ _ Hw Hn Hfit Ht) as (Hw' & _).
  destruct Hfit as (a & Ha & Hk & Hrun), Ht as (a' & m & Ha' & -> & Hm & ->). simplify_eq.
  destruct (fill_map_spec k n 1 (map a) Hk) as (m' & Hm' & Hlen & Hlook). rewrite Hm in Hm'. injection Hm' as <-.
  destruct (fill_map_spec k n 0 m ltac:(lia)) as (m2 & Hm2 & Hlen2 & Hlook2).
  assert (m2 = map a) as ->.
  { apply list_eq. intros j. rewrite Hlook2. case_decide as Hj; [|by rewrite Hlook, decide_False].
    specialize (Hrun (j - k)%nat ltac:(lia)). by replace (k + (j - k))%nat with j in Hrun by lia. }
  assert (<[i := set_map m a]> s !! i = Some (set_map m a)) as Hi by (apply list_lookup_insert_eq; by eapply lookup_lt_Some).
  assert (page_of (<[i := set_map m a]> s) (base a + Z.of_nat k * PAGE_SIZE) i k 1) as Hpg.
  { exists (set_map m a). split; [done|]. simpl. split; [|done]. by rewrite Hlook, decide_True by lia. }
  destruct (find_arena_page _ _ _ _ _ _ Hw' Hi Hpg) as [Hf _].
  assert (wp (novm_free_pages (base a + Z.of_nat k * PAGE_SIZE) (Z.of_nat n)) (<[i := set_map m a]> s)
    (fun _ s2 => s2 = s)) as Hrunf.
  { unfold novm_free_pages, find_arena. wp_step. rewrite Hf. cbn [base set_map]. rewrite index_of_page, Nat2Z.id.
    wp_step. exists (map a). split; [done|]. unfold set_arena. wp_step. rewrite list_insert_insert_eq.
    replace (set_map (map a) (set_map m a)) with (set_map (map a) a) by done. by apply set_same_map. }
  apply wp_run in Hrunf as ([] & s2 & -> & ->). done.
Qed.

(** C19. The page allocator is first fit: novm_alloc_pages returns the first run of free pages
    of the first selected arena that has one, all of its pages free before and busy after,
    no other page changed; it fails only when no selected arena has a run; freeing the run
    restores the state exactly. *)
Theorem novm_first_fit s n bitmap :
  wf s -> 0 <= n ->
  exists r s', novm_alloc_pages n bitmap s = Some (r, s') /\
    match r with
    | Some p => 0 < n /\ wf s' /\
        (exists i k, selected bitmap i = true /\ fits s (Z.to_nat n) i k /\
          (forall i' k', selected bitmap i' = true -> fits s (Z.to_nat n) i' k' -> (i < i')%nat \/ i = i' /\ (k <= k')%nat) /\
          p = default 0 (base <$> s !! i) + Z.of_nat k * PAGE_SIZE) /\
        (forall q, in_pages p n q -> ~ busy s q) /\
        (forall q, busy s' q <-> busy s q \/ in_pages p n q) /\
        novm_free_pages p n s' = Some (tt, s)
    | None => s' = s /\ (n = 0 \/ forall i k, selected bitmap i = true -> ~ fits s (Z.to_nat n) i k)
    end.
Proof.
  intros Hw Hn. apply wp_run. unfold novm_alloc_pages. wp_step.
  eapply wp_mono; [apply (alloc_arenas_spec s n bitmap Hw Hn (length s) 0%nat); lia|]. intros [p|] s'.
  - intros (H0 & i & k & _ & Hsel & Hfit & Hfirst & Ht).
    destruct (taken_spec s (Z.to_nat n) i k p s' Hw ltac:(lia) Hfit Ht) as (Hw' & _ & _ & _ & _ & Hfree & Hbusy).
    pose proof (free_taken s (Z.to_nat n) i k p s' Hw ltac:(lia) Hfit Ht) as Hback. rewrite Z2Nat.id in * by lia.
    split; [done|]. split; [done|]. split; [|split; [by intros q [_ ?]%Hfree|done]].
    exists i, k. split; [done|]. split; [done|]. split; [intros i' k'; apply Hfirst; lia|].
    by destruct Ht as (a & m & -> & -> & _).
  - intros [-> Hno]. split; [done|]. destruct Hno as [?|Hno]; [by left|right]. intros i k. apply Hno. lia.
Qed.

(** One arena of eight pages at 1 MiB, its second and fifth page in use. *)
Definition sample_arena : novm_arena := MkArena 8 0x1000 [0; 1; 0; 0; 1; 0; 0; 0] 0x100000 (8 * 4096) None 0.

Lemma sample_wf : wf [sample_arena].
Proof.
  split.
  - intros i n Hn. apply list_lookup_singleton_Some in Hn as [_ <-]. split; vm_compute; (reflexivity || (intros; reflexivity) || (split; [discriminate|reflexivity])).
  - intros i j n k Hi Hj Hne. apply list_lookup_singleton_Some in Hi as [-> _]. by apply list_lookup_singleton_Some in Hj as [-> _].
Qed.

Lemma novm_first_fit_witness : wf [sample_arena] /\
  exists r s', novm_alloc_pages 3 NOVM_ARENA_ANY [sample_arena] = Some (r, s') /\ r = Some 0x105000 /\
    novm_free_pages 0x105000 3 s' = Some (tt, [sample_arena]).
Proof.
  split; [exact sample_wf|].
  destruct (novm_first_fit [sample_arena] 3 NOVM_ARENA_ANY sample_wf ltac:(lia)) as (r & s' & Hr & Hp).
  exists r, s'. split; [exact Hr|]. vm_compute in Hr. injection Hr as <- <-.
  split; [reflexivity|]. apply Hp.
Defined.

(** A request for specific pages that fails keeps the pages before the one in use. *)
Lemma specific_pages_leak :
  novm_alloc_specific_pages 0x102000 3 [sample_arena] =
    Some (ERR_NO_MEMORY, [set_map [0; 1; 1; 1; 1; 0; 0; 0] sample_arena]).
Proof. vm_compute. reflexivity. Qed.

End NovmProps.
