(* ===== verification/Miniheap.v ===== *)
(** The heap, [lib/heap/miniheap/miniheap.c], over any page allocator.

    The bytes of allocations are the byte memory of [Mem]; the bookkeeping that
    the code writes into bytes no allocation owns (the nodes of free chunks, the
    header before an allocation) is structured data: the free list is the list
    of its chunks in order, and [headers] maps the pointer an allocation
    returned to its header.  Using a chunk or a header that is not there is a
    fault.  The heap's mutex makes each operation atomic. *)
From S2P Require Import Prelude Mem CString Page.
Local Open Scope Z_scope.

Module Miniheap.
Import Page.

(** [sizeof(struct free_heap_chunk)]: two links and a length; and
    [sizeof(struct alloc_struct_begin)] with its magic. *)
Definition free_chunk_size : Z := 24.
Definition alloc_struct_size : Z := 24.
Definition ptr_size : Z := 8.

Record alloc_struct := MkAlloc { as_ptr : Z; as_size : Z }.

(** A chunk is its address and its length. *)
Abbreviation chunk := (Z * Z)%type.

Record heap (P : Type) := MkHeap {
  h_base : Z;
  h_len : Z;
  h_remaining : Z;
  h_low_watermark : Z;
  h_free_list : list chunk;
  h_headers : gmap Z alloc_struct;
  h_mem : Mem.mem;
  h_pages : P;
}.
Arguments MkHeap {P}.
Arguments h_base {P}.
Arguments h_len {P}.
Arguments h_remaining {P}.
Arguments h_low_watermark {P}.
Arguments h_free_list {P}.
Arguments h_headers {P}.
Arguments h_mem {P}.
Arguments h_pages {P}.

Section heap.
(** [free_list_addr] is the address of the list head inside [theheap]. *)
Context {P : Type} `{PageAlloc P} (free_list_addr : Z).

Abbreviation HP := (M (heap P)).

Definition with_range b l (s : heap P) :=
    MkHeap b l (h_remaining s) (h_low_watermark s) (h_free_list s) (h_headers s) (h_mem s) (h_pages s).
Definition with_remaining x (s : heap P) :=
    MkHeap (h_base s) (h_len s) x (h_low_watermark s) (h_free_list s) (h_headers s) (h_mem s) (h_pages s).
Definition with_low_watermark x (s : heap P) :=
    MkHeap (h_base s) (h_len s) (h_remaining s) x (h_free_list s) (h_headers s) (h_mem s) (h_pages s).
Definition with_free_list x (s : heap P) :=
    MkHeap (h_base s) (h_len s) (h_remaining s) (h_low_watermark s) x (h_headers s) (h_mem s) (h_pages s).
Definition with_headers x (s : heap P) :=
    MkHeap (h_base s) (h_len s) (h_remaining s) (h_low_watermark s) (h_free_list s) x (h_mem s) (h_pages s).
Definition with_mem x (s : heap P) :=
    MkHeap (h_base s) (h_len s) (h_remaining s) (h_low_watermark s) (h_free_list s) (h_headers s) x (h_pages s).
Definition with_pages (x : P) (s : heap P) : heap P :=
    MkHeap (h_base s) (h_len s) (h_remaining s) (h_low_watermark s) (h_free_list s) (h_headers s) (h_mem s) x.

Definition on_pages {A} (m : M P A) : HP A := fun s =>
    match m (h_pages s) with Some (a, p) => Some (a, with_pages p s) | None => None end.
Definition on_mem {A} (m : M Mem.mem A) : HP A := fun s =>
    match m (h_mem s) with Some (a, p) => Some (a, with_mem p s) | None => None end.

(** The chunks below [c] and those from it on. *)
Fixpoint split_at (c : Z) (l : list chunk) : list chunk * list chunk :=
    match l with
    | [] => ([], [])
    | n :: l' => if c <? n.1 then ([], l) else let '(b, a) := split_at c l' in (n :: b, a)
    end.

(** Merging with the previous chunk: the chunks before, and the one it became. *)
Definition merge_last (before : list chunk) (c : chunk) : list chunk * chunk :=
    match last before with
    | Some l => if u64 (l.1 + l.2) =? c.1 then (removelast before, (l.1, u64 (l.2 + c.2))) else (before, c)
    | None => (before, c)
    end.

(** Merging with the next chunk.  Past the end of the list [next_chunk] is
    the list head, so that a chunk that ends there swallows it. *)
Definition merge_next (c : chunk) (after : list chunk) : option (chunk * list chunk) :=
    match after with
    | n :: after' => Some (if u64 (c.1 + c.2) =? n.1 then ((c.1, u64 (c.2 + n.2)), after') else (c, after))
    | [] => if u64 (c.1 + c.2) =? free_list_addr then None else Some (c, [])
    end.

Definition heap_insert_free_chunk (c : chunk) : HP Z :=
    _ ← modify (fun s => with_remaining (u64 (h_remaining s + c.2)) s);
    fl ← gets h_free_list;
    let '(before, after) := split_at c.1 fl in
    _ ← assert_ (match after with n :: _ => u64 (c.1 + c.2) <=? n.1 | [] => true end);
    let '(before, c) := merge_last before c in
    ca ← deref (fun _ => merge_next c after);
    _ ← modify (with_free_list (before ++ ca.1 :: ca.2));
    mret ca.1.1.

Definition heap_create_free_chunk (ptr len : Z) : HP chunk :=
    _ ← assert_ (len mod ptr_size =? 0);
    mret (ptr, len).

(** Returns the size, or an error. *)
Definition heap_grow (size : Z) : HP Z :=
    let size := ROUNDUP size PAGE_SIZE in
    r ← on_pages (page_alloc (size / PAGE_SIZE));
    match r with
    | None => mret ERR_NO_MEMORY
    | Some ptr =>
        c ← heap_create_free_chunk ptr size;
        _ ← heap_insert_free_chunk c;
        _ ← modify (fun s =>
          let b := if (ptr <? h_base s) || (h_base s =? 0) then ptr else h_base s in
          let endptr := u64 (ptr + size) in
          with_range b (if u64 (b + h_len s) <? endptr then u64 (endptr - b) else h_len s) s);
        mret (s64 size)
    end.

(** The first chunk of at least [size] bytes, with those before and after. *)
Fixpoint find_chunk (size : Z) (l : list chunk) : HP (option (list chunk * chunk * list chunk)) :=
    match l with
    | [] => mret None
    | c :: l =>
        _ ← assert_ (c.2 mod ptr_size =? 0);
        if size <=? c.2 then mret (Some ([], c, l))
        else r ← find_chunk size l; mret ((fun '(b, x, a) => (c :: b, x, a)) <$> r)
    end.

(** The block [c] is off the list: its header, the accounting and the pointer. *)
Definition finish_alloc (size alignment : Z) (c : chunk) : HP (option Z) :=
    _ ← assert_ (size <=? c.2);
    let ptr := u64 (c.1 + alloc_struct_size) in
    let ptr := if 0 <? alignment then ROUNDUP ptr alignment else ptr in
    _ ← modify (fun s => with_headers (<[ptr := MkAlloc c.1 c.2]> (h_headers s)) s);
    _ ← modify (fun s => with_remaining (u64 (h_remaining s - c.2)) s);
    _ ← modify (fun s =>
      if h_remaining s <? h_low_watermark s then with_low_watermark (h_remaining s) s else s);
    mret (Some ptr).

(** One walk through the free list, under the lock. *)
Definition alloc_try (size alignment : Z) : HP (option Z) :=
    fl ← gets h_free_list;
    r ← find_chunk size fl;
    match r with
    | None => mret None
    | Some (before, c, after) =>
        c ← (if u64 (size + free_chunk_size) <? c.2 then
               newchunk ← heap_create_free_chunk (u64 (c.1 + size)) (c.2 - size);
               _ ← modify (with_free_list (before ++ newchunk :: after));
               mret (c.1, size)
             else _ ← modify (with_free_list (before ++ after)); mret c);
        finish_alloc size alignment c
    end.

(** The size asked of the free list, and the alignment used. *)
Definition chunk_size (size alignment : Z) : Z * Z :=
    let size := u64 (size + alloc_struct_size) in
    let size := if size <? free_chunk_size then free_chunk_size else size in
    let size := ROUNDUP size ptr_size in
    if 0 <? alignment then
      let alignment := if alignment <? 16 then 16 else alignment in
      (u64 (size + alignment), alignment)
    else (size, alignment).

Definition miniheap_alloc (size alignment : Z) : HP (option Z) :=
    if negb (Z.land alignment (u32 (alignment - 1)) =? 0) then mret None
    else
      let '(size, alignment) := chunk_size size alignment in
      r ← alloc_try size alignment;
      match r with
      | Some ptr => mret (Some ptr)
      | None =>
          err ← heap_grow size;
          if 0 <=? err then alloc_try size alignment else mret None
      end.

Definition miniheap_free (ptr : option Z) : HP unit :=
    match ptr with
    | None => mret tt
    | Some ptr =>
        as_ ← deref (fun s => h_headers s !! ptr);
        _ ← modify (fun s => with_headers (delete ptr (h_headers s)) s);
        c ← heap_create_free_chunk (as_ptr as_) (as_size as_);
        _ ← heap_insert_free_chunk c;
        mret tt
    end.

Definition miniheap_realloc (ptr : option Z) (size : Z) : HP (option Z) :=
    match ptr with
    | None => miniheap_alloc size 0
    | Some old =>
        if size =? 0 then _ ← miniheap_free (Some old); mret None
        else
          p ← miniheap_alloc size 0;
          match p with
          | None => mret None
          | Some p =>
              _ ← on_mem (CString.memcpy p old size);
              _ ← miniheap_free (Some old);
              mret (Some p)
          end
    end.

(** One chunk of the walk of [miniheap_trim]: what is left of it in the list
    and the pages to free; at most two retries make the range shorter. *)
Fixpoint trim_chunk (fuel : nat) (start end_ start_page end_page : Z) : option (list chunk * option (Z * Z)) :=
    match fuel with
    | O => None
    | S fuel =>
        if start_page <? end_page then
          if (start_page =? start) && (end_page =? end_) then Some ([], Some (start_page, end_page))
          else if negb (start_page =? start) && (start_page - start <? free_chunk_size) then
            trim_chunk fuel start end_ (start_page + PAGE_SIZE) end_page
          else if end_page <? end_ then
            let new_chunk_size := end_ - end_page in
            if new_chunk_size <? free_chunk_size then
              trim_chunk fuel start end_ start_page (end_page - PAGE_SIZE)
            else if start_page =? start then
              Some ([(end_page, new_chunk_size)], Some (start_page, end_page))
            else Some ([(start, start_page - start); (end_page, new_chunk_size)], Some (start_page, end_page))
          else Some ([(start, start_page - start)], Some (start_page, end_page))
        else Some ([(start, end_ - start)], None)
    end.

(** The walk, [done] being the part of the list behind it. *)
Fixpoint trim_loop (done todo : list chunk) : HP unit :=
    match todo with
    | [] => mret tt
    | c :: todo =>
        let start := c.1 in
        let end_ := u64 (start + c.2) in
        _ ← assert_ (start <? end_);
        let start_page := ROUNDUP start PAGE_SIZE in
        let end_page := ROUNDDOWN end_ PAGE_SIZE in
        _ ← assert_ (end_page <=? end_);
        _ ← assert_ (start <=? start_page);
        r ← deref (fun _ => trim_chunk 3 start end_ start_page end_page);
        _ ← (match r.2 with
             | Some (a, e) =>
                 _ ← assert_ (forallb (fun k => negb (k.1 =? e) || (k.2 mod ptr_size =? 0)) r.1);
                 _ ← modify (with_free_list (done ++ r.1 ++ todo));
                 _ ← on_pages (page_free a ((e - a) / PAGE_SIZE));
                 modify (fun s => with_remaining (u64 (h_remaining s - (e - a))) s)
             | None => mret tt
             end);
        trim_loop (done ++ r.1) todo
    end.
Definition miniheap_trim : HP unit := fl ← gets h_free_list; trim_loop [] fl.

Record miniheap_stats := MkStats {
    heap_start : Z; heap_len : Z; heap_free : Z; heap_max_chunk : Z; heap_low_watermark : Z }.
Definition miniheap_get_stats (s : heap P) : miniheap_stats :=
    let '(fr, mx) := foldl (fun r c => (u64 (r.1 + c.2), if r.2 <? c.2 then c.2 else r.2)) (0, 0) (h_free_list s) in
    MkStats (h_base s) (h_len s) fr mx (h_low_watermark s).

Definition miniheap_init (ptr len : Z) : HP unit :=
    _ ← modify (with_free_list []);
    _ ← modify (with_range ptr len);
    _ ← modify (with_remaining 0);
    _ ← modify (with_low_watermark 0);
    if 0 <? len then c ← heap_create_free_chunk ptr len; _ ← heap_insert_free_chunk c; mret tt else mret tt.
End heap.

End Miniheap.
