(* ===== verification/MiniheapInv.v ===== *)
(** The heap's free list: its chunks are in order and never touch, so the set
    of free bytes determines the list. *)
From S2P Require Import Prelude Mem Page Miniheap.
Local Open Scope Z_scope.

Module MiniheapInv.
Import Page Miniheap.

(** * Chunks *)

Definition in_chunk (c : chunk) (x : Z) : Prop := c.1 <= x < c.1 + c.2.
Definition covers (l : list chunk) (x : Z) : Prop := exists c, c ∈ l /\ in_chunk c x.
Definition total (l : list chunk) : Z := foldr (fun c t => c.2 + t) 0 l.

Record chunk_ok (c : chunk) : Prop := {
  ck_pos : 0 < c.1;
  ck_align : c.1 mod 8 = 0;
  ck_len : c.2 mod 8 = 0;
  ck_min : free_chunk_size <= c.2;
  ck_top : c.1 + c.2 < 2 ^ 64;
}.

(** Chunks above [lo], in order, with a gap between two of them. *)
Fixpoint chain (lo : Z) (l : list chunk) : Prop :=
  match l with
  | [] => True
  | c :: l => lo < c.1 /\ chunk_ok c /\ chain (c.1 + c.2) l
  end.

Definition end_of (lo : Z) (l : list chunk) : Z := match last l with Some c => c.1 + c.2 | None => lo end.

Lemma end_of_cons lo c l : end_of lo (c :: l) = end_of (c.1 + c.2) l.
Proof. unfold end_of. destruct l; [done|]. by rewrite last_cons_cons; destruct (last (_ :: _)) eqn:E; [|by apply last_None in E]. Qed.

Lemma end_of_snoc lo l c : end_of lo (l ++ [c]) = c.1 + c.2.
Proof. unfold end_of. by rewrite last_snoc. Qed.

Lemma chain_app lo l1 l2 : chain lo (l1 ++ l2) <-> chain lo l1 /\ chain (end_of lo l1) l2.
Proof.
  revert lo. induction l1 as [|c l1 IH]; intros lo; cbn [app chain]; [by unfold end_of; simpl; tauto|].
  rewrite IH, end_of_cons. tauto.
Qed.

Lemma chain_weaken lo lo' l : lo' <= lo -> chain lo l -> chain lo' l.
Proof. destruct l as [|c l]; [done|]. simpl. intros ? (? & ? & ?). split; [lia|done]. Qed.

Lemma chunk_len_pos c : chunk_ok c -> 0 < c.2.
Proof. intros [_ _ _ Hm _]. unfold free_chunk_size in Hm. lia. Qed.

Lemma chain_end lo l : chain lo l -> lo <= end_of lo l.
Proof.
  revert lo. induction l as [|c l IH]; intros lo; [unfold end_of; simpl; lia|]. intros (H1 & H2 & H3).
  rewrite end_of_cons. specialize (IH _ H3). pose proof (chunk_len_pos _ H2). lia.
Qed.

Lemma chain_ok lo l c : chain lo l -> c ∈ l -> chunk_ok c /\ lo < c.1 /\ c.1 + c.2 <= end_of lo l.
Proof.
  revert lo. induction l as [|d l IH]; intros lo; [by intros _ ?%not_elem_of_nil|]. intros (H1 & H2 & H3) Hc.
  rewrite end_of_cons. apply elem_of_cons in Hc as [->|Hc].
  - split; [done|]. split; [done|]. by apply chain_end.
  - destruct (IH _ H3 Hc) as (? & ? & ?). pose proof (chunk_len_pos _ H2). split; [done|]. lia.
Qed.

Lemma covers_nil x : ~ covers [] x.
Proof. by intros (c & ?%not_elem_of_nil & _). Qed.

Lemma covers_cons c l x : covers (c :: l) x <-> in_chunk c x \/ covers l x.
Proof.
  unfold covers. split.
  - intros (d & [->|Hd]%elem_of_cons & Hx); eauto.
  - intros [Hx|(d & Hd & Hx)]; [exists c|exists d]; set_solver.
Qed.

Lemma covers_app l1 l2 x : covers (l1 ++ l2) x <-> covers l1 x \/ covers l2 x.
Proof. unfold covers. setoid_rewrite elem_of_app. naive_solver. Qed.

Lemma chain_covers lo l x : chain lo l -> covers l x -> lo < x < end_of lo l.
Proof. intros Hl (c & Hc & Hx). destruct (chain_ok _ _ _ Hl Hc) as (_ & ? & ?). unfold in_chunk in Hx. lia. Qed.

Lemma total_app l1 l2 : total (l1 ++ l2) = total l1 + total l2.
Proof. unfold total. induction l1 as [|c l1 IH]; simpl; lia. Qed.

Lemma chain_total lo l : chain lo l -> 0 <= total l <= end_of lo l - lo.
Proof.
  revert lo. induction l as [|c l IH]; intros lo; [unfold end_of, total; simpl; lia|]. intros (H1 & H2 & H3).
  rewrite end_of_cons. specialize (IH _ H3). pose proof (chunk_len_pos _ H2).
  change (total (c :: l)) with (c.2 + total l). lia.
Qed.

Lemma chain_end_top lo l : chain lo l -> lo < 2 ^ 64 -> end_of lo l < 2 ^ 64.
Proof.
  revert lo. induction l as [|c l IH]; intros lo; [done|]. intros (H1 & H2 & H3) Hlo. rewrite end_of_cons.
  apply IH; [done|]. by destruct H2.
Qed.

Lemma chain_total_top l : chain 0 l -> total l < 2 ^ 64.
Proof. intros Hl. pose proof (chain_total _ _ Hl). pose proof (chain_end_top _ _ Hl ltac:(lia)). lia. Qed.

Lemma covers_first c l x : chunk_ok c -> chain (c.1 + c.2) l -> covers (c :: l) x ->
  c.1 <= x /\ x ≠ c.1 + c.2 /\ (covers l x <-> c.1 + c.2 < x).
Proof.
  intros Hok Hl [Hc|Hc]%covers_cons; pose proof (chunk_len_pos _ Hok).
  - unfold in_chunk in Hc. split; [lia|]. split; [lia|]. split; [|lia]. intros Hc'.
    pose proof (chain_covers _ _ _ Hl Hc'). lia.
  - pose proof (chain_covers _ _ _ Hl Hc). split; [lia|]. split; [lia|]. split; [lia|done].
Qed.

Lemma covers_self c l : chunk_ok c -> covers (c :: l) c.1.
Proof. intros Hok. apply covers_cons. left. unfold in_chunk. pose proof (chunk_len_pos _ Hok). lia. Qed.

(** The free bytes determine the free list. *)
Lemma chain_ext l1 : forall lo l2, chain lo l1 -> chain lo l2 -> (forall x, covers l1 x <-> covers l2 x) -> l1 = l2.
Proof.
  induction l1 as [|c l1 IH]; intros lo [|d l2] H1 H2 Hx.
  - done.
  - destruct H2 as (_ & Hok & _). by destruct (covers_nil d.1 (proj2 (Hx d.1) (covers_self d l2 Hok))).
  - destruct H1 as (_ & Hok & _). by destruct (covers_nil c.1 (proj1 (Hx c.1) (covers_self c l1 Hok))).
  - destruct H1 as (_ & Hokc & Hl1), H2 as (_ & Hokd & Hl2).
    pose proof (chunk_len_pos _ Hokc). pose proof (chunk_len_pos _ Hokd).
    assert (forall x, covers (c :: l1) x -> d.1 <= x /\ x ≠ d.1 + d.2) as Hcd.
    { intros x Hc. apply Hx in Hc. by apply covers_first in Hc as (? & ? & _). }
    assert (forall x, covers (d :: l2) x -> c.1 <= x /\ x ≠ c.1 + c.2) as Hdc.
    { intros x Hd. apply Hx in Hd. by apply covers_first in Hd as (? & ? & _). }
    assert (forall (c : chunk) l x, c.1 <= x < c.1 + c.2 -> covers (c :: l) x) as Hin.
    { intros e l x He. apply covers_cons. by left. }
    assert (c.1 = d.1) as E1.
    { destruct (Hcd c.1); [apply Hin; lia|]. destruct (Hdc d.1); [apply Hin; lia|]. lia. }
    assert (c.2 = d.2) as E2.
    { destruct (decide (c.2 < d.2)); [destruct (Hdc (c.1 + c.2)); [apply Hin|]; lia|].
      destruct (decide (d.2 < c.2)); [destruct (Hcd (d.1 + d.2)); [apply Hin|]; lia|]. lia. }
    assert (c = d) as -> by (destruct c, d; simpl in *; congruence). f_equal. apply (IH (d.1 + d.2)); [done|done|].
    intros x. split; intros Hc; assert (covers (d :: l1) x \/ covers (d :: l2) x) as Hor by (rewrite !covers_cons; tauto).
    + assert (covers (d :: l2) x) as Hd by (apply Hx, covers_cons; by right).
      apply (covers_first d l2 x Hokd Hl2 Hd). pose proof (chain_covers _ _ _ Hl1 Hc). lia.
    + assert (covers (d :: l1) x) as Hd by (apply Hx, covers_cons; by right).
      apply (covers_first d l1 x Hokd Hl1 Hd). pose proof (chain_covers _ _ _ Hl2 Hc). lia.
Qed.

(** * Inserting *)

Lemma split_at_app c l : forall b a, split_at c l = (b, a) -> l = b ++ a.
Proof.
  induction l as [|n l IH]; intros b a; cbn [split_at]; [by intros [= <- <-]|].
  case_if; [by intros [= <- <-]|]. destruct (split_at c l) as [b' a']. intros [= <- <-]. by rewrite (IH b' a').
Qed.

Lemma split_at_sides c l : forall lo b a, chain lo l -> split_at c l = (b, a) ->
  (forall d, d ∈ b -> d.1 <= c) /\ match a with [] => True | n :: _ => c < n.1 end.
Proof.
  induction l as [|n l IH]; intros lo b a Hl; cbn [split_at].
  - intros [= <- <-]. split; [by intros d ?%not_elem_of_nil|done].
  - destruct (c <? n.1) eqn:E; bool_prop.
    + intros [= <- <-]. split; [by intros d ?%not_elem_of_nil|lia].
    + destruct (split_at c l) as [b' a'] eqn:Es. intros [= <- <-]. destruct Hl as (_ & _ & Hl).
      destruct (IH _ b' a' Hl eq_refl) as [Hb Ha]. split; [|done]. intros d [->|Hd]%elem_of_cons; [lia|auto].
Qed.

(** Two blocks without a common byte. *)
Lemma chunks_apart c d : 0 < c.2 -> 0 < d.2 -> (forall x, in_chunk c x -> ~ in_chunk d x) ->
  c.1 + c.2 <= d.1 \/ d.1 + d.2 <= c.1.
Proof.
  intros Hc Hd Hx. unfold in_chunk in Hx. specialize (Hx (Z.max c.1 d.1)). lia.
Qed.

Lemma merge_last_spec b c : forall b' c', merge_last b c = (b', c') ->
  chain 0 b -> chunk_ok c -> end_of 0 b <= c.1 ->
  chain 0 b' /\ chunk_ok c' /\ end_of 0 b' < c'.1 /\ c'.1 + c'.2 = c.1 + c.2 /\
  (forall x, covers (b' ++ [c']) x <-> covers b x \/ in_chunk c x) /\ total b' + c'.2 = total b + c.2.
Proof.
  intros b' c'. unfold merge_last. destruct (last b) as [l|] eqn:Hl.
  - apply last_Some in Hl as [b0 ->]. rewrite end_of_snoc.
    intros Hm Hb Hok Hle. apply chain_app in Hb as [Hb0 (Hlo & Hokl & _)].
    pose proof (ck_pos _ Hokl). pose proof (chunk_len_pos _ Hokl). pose proof (chunk_len_pos _ Hok).
    pose proof (ck_top _ Hok). rewrite uw_small in Hm by (destruct Hokl; lia). revert Hm. case_if; intros [= <- <-].
    + rewrite removelast_last. rewrite uw_small by lia. cbn [fst snd]. split; [done|]. split.
      { destruct Hokl, Hok. split; cbn [fst snd]; unfold free_chunk_size in *; try lia.
        rewrite <- Z.add_mod_idemp_l, <- Z.add_mod_idemp_r by lia. by rewrite ck_len0, ck_len1. }
      split; [done|]. split; [lia|]. split.
      * intros x. rewrite !covers_app, !covers_cons. unfold in_chunk. cbn [fst snd].
        pose proof (covers_nil x). assert (l.1 <= x < l.1 + (l.2 + c.2) <-> l.1 <= x < l.1 + l.2 \/ c.1 <= x < c.1 + c.2) by lia. tauto.
      * rewrite total_app. unfold total at 3. simpl. lia.
    + split; [by apply chain_app|]. split; [done|]. rewrite end_of_snoc. split; [lia|]. split; [done|]. split; [|done].
      intros x. rewrite (covers_app (b0 ++ [l])), covers_cons. pose proof (covers_nil x). tauto.
  - apply last_None in Hl as ->. intros [= <- <-] _ Hok _. split; [done|]. split; [done|]. 
    split; [unfold end_of; simpl; by destruct Hok|]. split; [done|]. split; [|done].
    intros x. rewrite covers_app, covers_cons. pose proof (covers_nil x). tauto.
Qed.

Lemma merge_next_spec F c a lo : chunk_ok c -> chain lo a -> lo < c.1 + c.2 ->
  match a with [] => c.1 + c.2 ≠ F | n :: _ => c.1 + c.2 <= n.1 end ->
  exists c' a', merge_next F c a = Some (c', a') /\ c'.1 = c.1 /\
    chunk_ok c' /\ chain (c'.1 + c'.2) a' /\
    (forall x, covers (c' :: a') x <-> in_chunk c x \/ covers a x) /\ c'.2 + total a' = c.2 + total a.
Proof.
  intros Hok Ha Hlo Hn. pose proof (ck_top _ Hok). pose proof (ck_pos _ Hok). pose proof (chunk_len_pos _ Hok).
  unfold merge_next. rewrite uw_small by lia. destruct a as [|n a].
  - rewrite (proj2 (Z.eqb_neq _ _)) by done. exists c, []. split_and!; try done.
    intros x. rewrite covers_cons. done.
  - destruct Ha as (_ & Hokn & Ha). pose proof (ck_top _ Hokn). pose proof (chunk_len_pos _ Hokn).
    case_if.
    + eexists _, _. split; [done|]. cbn [fst snd]. rewrite uw_small by lia. split; [done|]. split.
      { destruct Hok, Hokn. split; cbn [fst snd]; unfold free_chunk_size in *; try lia.
        rewrite <- Z.add_mod_idemp_l, <- Z.add_mod_idemp_r by lia. by rewrite ck_len0, ck_len1. }
      split; [by replace (c.1 + (c.2 + n.2)) with (n.1 + n.2) by lia|]. split.
      * intros x. rewrite !covers_cons. unfold in_chunk. cbn [fst snd].
        assert (c.1 <= x < c.1 + (c.2 + n.2) <-> c.1 <= x < c.1 + c.2 \/ n.1 <= x < n.1 + n.2) by lia. tauto.
      * unfold total. simpl. lia.
    + eexists _, _. split; [done|]. split; [done|]. split; [done|]. split; [|split; [|done]].
      * split; [lia|done].
      * intros x. by rewrite (covers_cons c).
Qed.

Section insert.
Context {P : Type} (F : Z).
  Implicit Types s : heap P.

(** What inserting a chunk does to the list. *)
Definition inserted (fl : list chunk) (c : chunk) (fl' : list chunk) : Prop :=
    chain 0 fl' /\ (forall x, covers fl' x <-> covers fl x \/ in_chunk c x) /\ total fl' = total fl + c.2.

Lemma insert_wp s c : chain 0 (h_free_list s) -> chunk_ok c ->
    (forall x, in_chunk c x -> ~ covers (h_free_list s) x) -> c.1 + c.2 ≠ F ->
    wp (heap_insert_free_chunk F c) s (fun _ s' => exists fl', inserted (h_free_list s) c fl' /\
      s' = with_free_list fl' (with_remaining (u64 (h_remaining s + c.2)) s)).
Proof.
  intros Hfl Hok Hdis HF. pose proof (chunk_len_pos _ Hok) as Hpos. pose proof (ck_top _ Hok).
  pose proof (ck_pos _ Hok). unfold heap_insert_free_chunk. wp_step. cbn [h_free_list with_remaining].
  destruct (split_at c.1 (h_free_list s)) as [b a] eqn:Es. pose proof (split_at_app _ _ _ _ Es) as E.
  destruct (split_at_sides _ _ _ _ _ Hfl Es) as [Hb Ha]. rewrite E in Hfl. apply chain_app in Hfl as [Hcb Hca].
  assert (forall d, d ∈ h_free_list s -> c.1 + c.2 <= d.1 \/ d.1 + d.2 <= c.1) as Hap.
  { intros d Hd. apply chunks_apart; [done| |].
    - rewrite E in Hd. apply elem_of_app in Hd as [Hd|Hd]; [destruct (chain_ok _ _ _ Hcb Hd)|destruct (chain_ok _ _ _ Hca Hd)]; by apply chunk_len_pos.
    - intros x Hx Hx'. apply (Hdis x Hx). by exists d. }
  assert (end_of 0 b <= c.1) as Hend.
  { unfold end_of. destruct (last b) as [d|] eqn:Hl; [|lia]. apply last_Some in Hl as [b0 ->].
    assert (d ∈ b0 ++ [d]) as Hd by set_solver. specialize (Hb d Hd). destruct (Hap d); [rewrite E; set_solver|lia|done]. }
  assert (match a with [] => c.1 + c.2 ≠ F | n :: _ => c.1 + c.2 <= n.1 end) as Hn.
  { destruct a as [|n a]; [done|]. destruct (Hap n); [rewrite E; set_solver|done|].
    assert (chunk_ok n) as Hokn by (by destruct Hca as (_ & ? & _)). pose proof (chunk_len_pos _ Hokn). lia. }
  wp_step. split.
  { destruct a as [|n a]; [done|]. rewrite uw_small by lia. by apply Z.leb_le. }
  destruct (merge_last b c) as [b' c'] eqn:Em.
  destruct (merge_last_spec b c b' c' Em Hcb Hok Hend) as (Hcb' & Hok' & Hlt & Hce & Hcov & Htot).
  destruct (merge_next_spec F c' a (end_of 0 b)) as (c2 & a2 & Hm & H1 & Hok2 & Ha2 & Hcov2 & Htot2); [done|done|lia| |].
  { rewrite Hce. exact Hn. }
  wp_step. exists (c2, a2). split; [done|]. wp_step. exists (b' ++ c2 :: a2). split; [|done].
  split; [|split].
  - apply chain_app. split; [done|]. cbn [chain]. split; [lia|done].
  - intros x. rewrite covers_app, Hcov2, E, covers_app. specialize (Hcov x).
    rewrite covers_app, covers_cons in Hcov. pose proof (covers_nil x). tauto.
  - rewrite E, !total_app. change (total (c2 :: a2)) with (c2.2 + total a2). lia.
Qed.
End insert.

(** * The invariant *)

Section inv.
Context {P : Type} `{PageAllocLaws P}.
(** The list head, and the area the heap was started with, which is not the
    page allocator's and holds no whole page. *)
Context (F ilo ihi : Z).
  Implicit Types s : heap P.

Definition page_of (x : Z) : Z := x - x mod PAGE_SIZE.

(** A byte the heap may hold: below the last page, mapped, in a page that was
    handed out or in the initial area, and not just below the list head. *)
Definition owned s (x : Z) : Prop :=
    0 < x < 2 ^ 64 - PAGE_SIZE /\ x ≠ F - 1 /\ is_Some (h_mem s !! x) /\
    (pa_busy (h_pages s) (page_of x) \/ ilo <= x < ihi).

Definition block (h : alloc_struct) : chunk := (as_ptr h, as_size h).
Definition live s (x : Z) : Prop := exists ptr h, h_headers s !! ptr = Some h /\ in_chunk (block h) x.

Record heap_inv s : Prop := {
    hi_chain : chain 0 (h_free_list s);
    hi_remaining : h_remaining s = total (h_free_list s);
    hi_watermark : h_low_watermark s = 0;
    hi_block ptr h : h_headers s !! ptr = Some h ->
      chunk_ok (block h) /\ as_ptr h + alloc_struct_size <= ptr <= as_ptr h + as_size h;
    hi_distinct p1 p2 h1 h2 x : h_headers s !! p1 = Some h1 -> h_headers s !! p2 = Some h2 ->
      in_chunk (block h1) x -> in_chunk (block h2) x -> p1 = p2;
    hi_apart x : covers (h_free_list s) x -> ~ live s x;
    hi_owned x : covers (h_free_list s) x \/ live s x -> owned s x;
    hi_pages : pa_wf (h_pages s);
    hi_bytes x b : h_mem s !! x = Some b -> Mem.byte b;
    (** the allocator's pages are memory, away from the list head *)
    hi_managed q x : pa_managed (h_pages s) q -> q <= x < q + PAGE_SIZE ->
      0 < x < 2 ^ 64 - PAGE_SIZE /\ x ≠ F - 1 /\ is_Some (h_mem s !! x) /\ ~ ilo <= x < ihi;
    hi_init q : q mod PAGE_SIZE = 0 -> ilo <= q -> q + PAGE_SIZE <= ihi -> False;
  }.

Lemma page_of_spec x : page_of x <= x < page_of x + PAGE_SIZE /\ page_of x mod PAGE_SIZE = 0.
Proof.
  unfold page_of. rewrite PAGE_SIZE_eq. pose proof (Z.mod_pos_bound x 4096 ltac:(lia)). split; [lia|].
  replace (x - x mod 4096) with (x / 4096 * 4096) by (rewrite Z.mod_eq by lia; lia). by apply Z.mod_mul.
Qed.

Lemma page_base_unique x q : q mod PAGE_SIZE = 0 -> q <= x < q + PAGE_SIZE -> page_of x = q.
Proof.
  intros Hq Hx. unfold page_of. rewrite PAGE_SIZE_eq in *. rewrite Z.mod_eq in * by lia.
  assert (q / 4096 = x / 4096) by (apply Z.div_unique with (x - q); lia). lia.
Qed.

(** The pages of an aligned range are the pages of its bytes. *)
Lemma in_pages_byte p n x : p mod PAGE_SIZE = 0 -> in_pages p n (page_of x) <-> p <= x < p + n * PAGE_SIZE.
Proof.
  intros Hp. destruct (page_of_spec x) as [Hx Ha]. unfold in_pages. rewrite PAGE_SIZE_eq in *. split.
  - intros (i & Hi & E). lia.
  - intros Hr. exists (page_of x / 4096 - p / 4096). rewrite Z.mod_eq in Ha, Hp by lia. lia.
Qed.

Lemma in_pages_aligned p n q : p mod PAGE_SIZE = 0 -> in_pages p n q -> q mod PAGE_SIZE = 0.
Proof. intros Hp (i & _ & ->). rewrite PAGE_SIZE_eq in *. by rewrite Z.mod_add by lia. Qed.

Lemma page_mod_8 x : x mod 4096 = 0 -> x mod 8 = 0.
Proof.
  intros Hx. pose proof (Z.div_mod x 4096 ltac:(lia)). replace x with (x / 4096 * 512 * 8) by lia.
  by apply Z.mod_mul.
Qed.

(** A whole page of owned bytes is one the allocator handed out. *)
Lemma owned_page s q : heap_inv s -> q mod PAGE_SIZE = 0 ->
    (forall x, q <= x < q + PAGE_SIZE -> owned s x) -> pa_busy (h_pages s) q.
Proof.
  intros Hi Hq Hx. assert (0 < PAGE_SIZE) by (rewrite PAGE_SIZE_eq; lia).
  destruct (Hx q ltac:(lia)) as (_ & _ & _ & [Hb|Hi1]); [by rewrite (page_base_unique q q) in Hb by (done || lia)|].
  destruct (Hx (q + PAGE_SIZE - 1) ltac:(lia)) as (_ & _ & _ & [Hb|Hi2]);
    [by rewrite (page_base_unique _ q) in Hb by (done || lia)|].
  exfalso. apply (hi_init _ Hi q Hq); lia.
Qed.

(** ** Taking back a block *)

Lemma chunk_away s c : heap_inv s -> chunk_ok c -> (forall x, in_chunk c x -> owned s x) -> c.1 + c.2 ≠ F.
Proof.
  intros Hi Hok Ho E. pose proof (chunk_len_pos _ Hok).
  destruct (Ho (F - 1)) as (_ & Hne & _); [unfold in_chunk; lia|done].
Qed.

(** Inserting a block of owned bytes that nothing else holds. *)
Lemma insert_inv s c fl' : heap_inv s -> inserted (h_free_list s) c fl' -> chunk_ok c ->
    (forall x, in_chunk c x -> owned s x /\ ~ live s x) ->
    heap_inv (with_free_list fl' (with_remaining (u64 (h_remaining s + c.2)) s)).
Proof.
  intros Hi (Hc & Hcov & Htot) Hok Hx. pose proof Hi as []. split; cbn; try done.
  - rewrite hi_remaining0, <- Htot, uw_small; [done|].
    pose proof (chain_total_top _ Hc). pose proof (chain_total _ _ Hc). lia.
  - intros x [Hf|Hf]%Hcov; [by apply hi_apart0|]. by apply Hx.
  - intros x [[Hf|Hf]%Hcov|Hl]; [apply hi_owned0; by left|by apply Hx|apply hi_owned0; by right].
Qed.

Lemma live_delete s ptr h x : heap_inv s -> h_headers s !! ptr = Some h ->
    live (with_headers (delete ptr (h_headers s)) s) x <-> live s x /\ ~ in_chunk (block h) x.
Proof.
  intros Hi Hp. unfold live. cbn. split.
  - intros (p & k & [Hne Hk]%lookup_delete_Some & Hx). split; [eauto|]. intros Hx'.
    by destruct (hi_distinct _ Hi ptr p h k x Hp Hk Hx' Hx).
  - intros [(p & k & Hk & Hx) Hno]. exists p, k. rewrite lookup_delete_ne; [done|].
    intros ->. congruence.
Qed.

Lemma delete_inv s ptr h : heap_inv s -> h_headers s !! ptr = Some h ->
    heap_inv (with_headers (delete ptr (h_headers s)) s) /\
    (forall x, in_chunk (block h) x -> owned s x /\ ~ covers (h_free_list s) x).
Proof.
  intros Hi Hp. assert (forall x, in_chunk (block h) x -> live s x) as Hl by (intros x Hx; by exists ptr, h).
  split.
  - pose proof Hi as []. split; cbn; try done.
    + intros p k [_ Hk]%lookup_delete_Some. eauto.
    + intros p1 p2 h1 h2 x [_ Hk1]%lookup_delete_Some [_ Hk2]%lookup_delete_Some. eauto.
    + intros x Hc Hlx. by apply (hi_apart0 x Hc), (live_delete s ptr h x Hi Hp).
    + intros x [Hc|Hlx]; apply hi_owned0; [by left|right]. by apply (live_delete s ptr h x Hi Hp).
  - intros x Hx. split; [apply (hi_owned _ Hi); right; by apply Hl|]. intros Hc. by apply (hi_apart _ Hi x Hc), Hl.
Qed.

Lemma miniheap_free_wp s ptr h : heap_inv s -> h_headers s !! ptr = Some h ->
    wp (miniheap_free F (Some ptr)) s (fun _ s' => heap_inv s' /\
      exists fl', inserted (h_free_list s) (block h) fl' /\
        s' = with_free_list fl' (with_remaining (u64 (h_remaining s + as_size h))
               (with_headers (delete ptr (h_headers s)) s))).
Proof.
  intros Hi Hp. destruct (hi_block _ Hi _ _ Hp) as [Hok _]. destruct (delete_inv s ptr h Hi Hp) as [Hi' Hx].
  unfold miniheap_free, heap_create_free_chunk. wp_step. exists h. split; [done|]. wp_step. split.
  { apply Z.eqb_eq. by destruct Hok. }
  wp_step. fold (block h).
  eapply wp_mono; [apply (insert_wp F _ (block h)); [by destruct Hi'|done|by intros x Hc; apply Hx|]|].
  { apply (chunk_away s); [done..|]. intros x Hc. by apply Hx. }
  intros _ s' (fl' & Hins & ->). wp_step. split.
  - apply (insert_inv _ (block h)); try done. intros x Hc. split; [by apply Hx|].
    intros Hl. by apply (live_delete s ptr h x Hi Hp) in Hl as [_ ?].
  - exists fl'. done.
Qed.

(** ** Handing out a block *)

Lemma find_chunk_wp s size l : forall lo, chain lo l ->
    wp (find_chunk size l) s (fun r s' => s' = s /\
      match r with
      | Some (b, c, a) => l = b ++ c :: a /\ size <= c.2 /\ forall d, d ∈ b -> d.2 < size
      | None => forall d, d ∈ l -> d.2 < size
      end).
Proof.
  induction l as [|c l IH]; intros lo Hl; cbn [find_chunk].
  - wp_step. split; [done|]. by intros d ?%not_elem_of_nil.
  - destruct Hl as (_ & Hok & Hl). wp_step. split; [apply Z.eqb_eq; by destruct Hok|]. case_if.
    + wp_step. split; [done|]. split; [done|]. split; [done|]. by intros d ?%not_elem_of_nil.
    + apply wp_bind. eapply wp_mono; [by eapply IH|]. intros r s' [-> Hr]. wp_step. split; [done|].
      destruct r as [[[b c'] a]|]; simpl.
      * destruct Hr as (-> & Hs & Hb). split; [done|]. split; [done|]. intros d [->|Hd]%elem_of_cons; [lia|auto].
      * intros d [->|Hd]%elem_of_cons; [lia|auto].
Qed.

(** Handing out the block [c], with [ptr] returned, leaves [fl'] free. *)
Definition handed_out s (ptr : Z) (c : chunk) (fl' : list chunk) : heap P :=
    with_headers (<[ptr := MkAlloc c.1 c.2]> (h_headers s)) (with_free_list fl' (with_remaining (total fl') s)).

Lemma handed_out_inv s ptr c fl' : heap_inv s -> chain 0 fl' -> chunk_ok c ->
    (forall x, covers fl' x <-> covers (h_free_list s) x /\ ~ in_chunk c x) ->
    (forall x, in_chunk c x -> covers (h_free_list s) x) ->
    c.1 + alloc_struct_size <= ptr <= c.1 + c.2 ->
    h_headers s !! ptr = None /\ heap_inv (handed_out s ptr c fl').
Proof.
  intros Hi Hc Hok Hcov Hin Hptr. pose proof Hi as [].
  assert (forall p h x, h_headers s !! p = Some h -> in_chunk (block h) x -> ~ in_chunk c x) as Hfresh.
  { intros p h x Hp Hx Hx'. apply (hi_apart0 x); [by apply Hin|]. by exists p, h. }
  assert (h_headers s !! ptr = None) as Hnone.
  { destruct (h_headers s !! ptr) as [h|] eqn:Hp; [|done]. exfalso. destruct (hi_block0 _ _ Hp) as [Hokh Hb].
    unfold alloc_struct_size in *. apply (Hfresh ptr h (ptr - 1) Hp); unfold in_chunk, block; simpl; lia. }
  split; [done|].
  assert (forall x, live (handed_out s ptr c fl') x <-> live s x \/ in_chunk c x) as Hlive.
  { intros x. unfold live, handed_out. cbn. split.
    - intros (p & h & Hp & Hx). apply lookup_insert_Some in Hp as [[<- <-]|[_ Hp]]; [|by left; exists p, h].
      right. by destruct c.
    - intros [(p & h & Hp & Hx)|Hx].
      + exists p, h. rewrite lookup_insert_ne; [done|]. intros ->. congruence.
      + exists ptr, (MkAlloc c.1 c.2). rewrite lookup_insert_eq. split; [done|]. by destruct c. }
  split; unfold handed_out; cbn; try done.
  - intros p h Hp. apply lookup_insert_Some in Hp as [[<- <-]|[_ Hp]]; [|by apply hi_block0].
    unfold block. simpl. split; [by destruct c|done].
  - intros p1 p2 h1 h2 x Hp1 Hp2 Hx1 Hx2.
    apply lookup_insert_Some in Hp1 as [[<- <-]|[_ Hp1]]; apply lookup_insert_Some in Hp2 as [[<- <-]|[_ Hp2]]; try done.
    + exfalso. apply (Hfresh p2 h2 x Hp2 Hx2). by destruct c.
    + exfalso. apply (Hfresh p1 h1 x Hp1 Hx1). by destruct c.
    + by eapply hi_distinct0.
  - intros x [Hx Hno]%Hcov Hl. apply Hlive in Hl as [Hl|Hl]; [by apply (hi_apart0 x)|done].
  - intros x [[Hx _]%Hcov|Hl]; [apply hi_owned0; by left|]. apply Hlive in Hl as [Hl|Hl]; apply hi_owned0; [by right|].
    left. by apply Hin.
Qed.

(** Sizes as [chunk_size] makes them. *)
Definition size_ok (size alignment : Z) : Prop :=
    free_chunk_size <= size < 2 ^ 64 /\ size mod 8 = 0 /\
    (alignment = 0 \/ exists k, 0 <= k /\ alignment = 2 ^ k /\ alloc_struct_size + alignment <= size).

(** A successful allocation. *)
Definition alloc_post s (size alignment ptr : Z) (s' : heap P) : Prop :=
    heap_inv s' /\ h_headers s !! ptr = None /\ (0 < alignment -> ptr mod alignment = 0) /\
    exists c fl', s' = handed_out s ptr c fl' /\ chunk_ok c /\ size <= c.2 /\
      c.1 + alloc_struct_size <= ptr < c.1 + alloc_struct_size + Z.max 1 alignment /\ chain 0 fl' /\
      (forall x, covers fl' x <-> covers (h_free_list s) x /\ ~ in_chunk c x) /\
      (forall x, in_chunk c x -> covers (h_free_list s) x).

Lemma finish_alloc_wp s size alignment c fl' : heap_inv s -> size_ok size alignment ->
    chunk_ok c -> size <= c.2 -> chain 0 fl' -> total fl' = total (h_free_list s) - c.2 ->
    (forall x, covers fl' x <-> covers (h_free_list s) x /\ ~ in_chunk c x) ->
    (forall x, in_chunk c x -> covers (h_free_list s) x) ->
    wp (finish_alloc size alignment c) (with_free_list fl' s) (fun r s' =>
      exists ptr, r = Some ptr /\ alloc_post s size alignment ptr s').
Proof.
  intros Hi (Hsz & Hs8 & Hal) Hok Hle Hch Htot Hcov Hin. unfold alloc_struct_size, free_chunk_size in *.
  unfold finish_alloc. wp_step. split; [by apply Z.leb_le|]. pose proof (ck_top _ Hok). pose proof (ck_pos _ Hok).
  unfold alloc_struct_size. rewrite (uw_small 64 (c.1 + 24)) by lia. cbn zeta.
  set (ptr := if 0 <? alignment then ROUNDUP (c.1 + 24) alignment else c.1 + 24).
  assert (c.1 + 24 <= ptr < c.1 + 24 + Z.max 1 alignment /\ (0 < alignment -> ptr mod alignment = 0)) as [Hptr Hpal].
  { unfold ptr. destruct Hal as [->|(k & Hk & -> & Hks)]; [simpl; lia|].
    assert (0 < 2 ^ k) by lia. rewrite (proj2 (Z.ltb_lt _ _)) by lia.
    destruct (ROUNDUP_spec (c.1 + 24) k) as [Hr Hm]; [lia|lia|lia|]. split; [lia|done]. }
  clearbody ptr. wp_step. cbn [h_remaining h_low_watermark with_headers with_remaining with_free_list].
  assert (c.1 + alloc_struct_size <= ptr <= c.1 + c.2) as Hb.
  { unfold alloc_struct_size. destruct Hal as [->|(k & Hk & -> & Hks)]; lia. }
  destruct (handed_out_inv s ptr c fl' Hi Hch Hok Hcov Hin Hb) as [Hnone Hinv].
  pose proof (chain_total _ _ Hch). pose proof (chain_total_top _ Hch).
  rewrite (hi_remaining _ Hi), <- Htot, (hi_watermark _ Hi), uw_small, (proj2 (Z.ltb_ge _ _)) by lia.
  exists ptr. split; [done|]. split; [exact Hinv|]. split; [done|]. split; [done|]. exists c, fl'. split; [done|].
  split; [done|]. split; [done|]. split; [unfold alloc_struct_size; lia|done].
Qed.

Lemma chunk_top s c : heap_inv s -> c ∈ h_free_list s -> c.1 + c.2 <= 2 ^ 64 - PAGE_SIZE.
Proof.
  intros Hi Hc. destruct (chain_ok _ _ _ (hi_chain _ Hi) Hc) as [Hok _]. pose proof (chunk_len_pos _ Hok).
  destruct (hi_owned _ Hi (c.1 + c.2 - 1)) as [? _]; [|lia]. left. exists c. split; [done|]. unfold in_chunk. lia.
Qed.

(** Covering, with the first [n] bytes of one chunk gone. *)
Lemma covers_cut b c a n : chain 0 (b ++ c :: a) -> 0 < n <= c.2 -> forall x,
    covers (b ++ (if n =? c.2 then [] else [(c.1 + n, c.2 - n)]) ++ a) x <->
    covers (b ++ c :: a) x /\ ~ in_chunk (c.1, n) x.
Proof.
  intros Hch Hn x. apply chain_app in Hch as [Hb (Hlt & Hok & Ha)].
  rewrite !covers_app, covers_cons.
  assert (covers (if n =? c.2 then [] else [(c.1 + n, c.2 - n)]) x <-> in_chunk c x /\ ~ in_chunk (c.1, n) x) as Hmid.
  { unfold in_chunk. simpl. case_if.
    - subst. split; [by intros ?%covers_nil|lia].
    - rewrite covers_cons. pose proof (covers_nil x). unfold in_chunk. simpl. intuition lia. }
  assert (covers b x -> ~ in_chunk (c.1, n) x).
  { intros Hx. pose proof (chain_covers _ _ x Hb Hx). unfold in_chunk. simpl. lia. }
  assert (covers a x -> ~ in_chunk (c.1, n) x).
  { intros Hx. pose proof (chain_covers _ _ x Ha Hx). unfold in_chunk. simpl. lia. }
  tauto.
Qed.

Lemma alloc_try_wp s size alignment : heap_inv s -> size_ok size alignment ->
    wp (alloc_try size alignment) s (fun r s' =>
      match r with
      | Some ptr => alloc_post s size alignment ptr s'
      | None => s' = s /\ forall c, c ∈ h_free_list s -> c.2 < size
      end).
Proof.
  intros Hi Hso. pose proof Hso as (Hsz & Hs8 & _). unfold alloc_try. wp_step.
  eapply wp_mono; [by eapply find_chunk_wp, hi_chain|]. intros r s1 [-> Hr].
  destruct r as [[[b c] a]|]; [|by wp_step].
  destruct Hr as (Hfl & Hle & _). pose proof (hi_chain _ Hi) as Hch. rewrite Hfl in Hch.
  pose proof (covers_cut b c a) as Hcut. specialize (Hcut) with (1 := Hch).
  pose proof Hch as Hch'. apply chain_app in Hch' as [Hcb (Hlt & Hok & Hca)]. pose proof (ck_top _ Hok). pose proof (ck_pos _ Hok).
  pose proof (chunk_top s c Hi ltac:(rewrite Hfl; set_solver)) as Htop. rewrite PAGE_SIZE_eq in Htop.
  unfold free_chunk_size in *. rewrite (uw_small 64 (size + 24)) by lia.
  assert (forall r s' (_ : exists ptr, r = Some ptr /\ alloc_post s size alignment ptr s'),
    match r with Some ptr => alloc_post s size alignment ptr s'
    | None => s' = s /\ forall c, c ∈ h_free_list s -> c.2 < size end) as Hpost by (by intros r s' (ptr & -> & Hp)).
  assert (forall n, n <= c.2 -> forall x, in_chunk (c.1, n) x -> covers (h_free_list s) x) as Hin.
  { intros n Hn x Hx. rewrite Hfl, covers_app, covers_cons. right. left. unfold in_chunk in *. simpl in Hx. lia. }
  wp_step. destruct (size + 24 <? c.2) eqn:E; bool_prop.
  - unfold heap_create_free_chunk. rewrite (uw_small 64 (c.1 + size)) by lia.
    assert ((c.2 - size) mod 8 = 0) as Hr8 by (rewrite Zminus_mod, (ck_len _ Hok), Hs8; done).
    assert ((c.1 + size) mod 8 = 0) as Hn8 by (rewrite Z.add_mod, (ck_align _ Hok), Hs8; done).
    wp_step. split; [by apply Z.eqb_eq|]. wp_step.
    specialize (Hcut size ltac:(lia)). rewrite (proj2 (Z.eqb_neq size c.2)) in Hcut by lia.
    eapply wp_mono; [apply (finish_alloc_wp s size alignment (c.1, size)); cbn [fst snd]; try done|exact Hpost].
    + split; cbn [fst snd]; unfold free_chunk_size; try lia; try done. by destruct Hok.
    + apply chain_app. split; [done|]. split; [simpl; lia|]. split.
      * split; cbn [fst snd]; unfold free_chunk_size; lia || done.
      * simpl. by replace (c.1 + size + (c.2 - size)) with (c.1 + c.2) by lia.
    + rewrite Hfl, !total_app. change (total ((c.1 + size, c.2 - size) :: a)) with (c.2 - size + total a).
      change (total (c :: a)) with (c.2 + total a). lia.
    + intros x. rewrite Hfl, <- Hcut. done.
    + apply Hin. lia.
  - wp_step. specialize (Hcut c.2 ltac:(lia)). rewrite Z.eqb_refl in Hcut.
    eapply wp_mono; [apply (finish_alloc_wp s size alignment c); try done|exact Hpost].
    + apply chain_app. split; [done|]. eapply chain_weaken; [|exact Hca]. pose proof (chunk_len_pos _ Hok). lia.
    + rewrite Hfl, !total_app. change (total (c :: a)) with (c.2 + total a). lia.
    + intros x. rewrite Hfl, <- (surjective_pairing c) in *. by rewrite <- Hcut.
    + specialize (Hin c.2 ltac:(lia)). by rewrite <- (surjective_pairing c) in Hin.
Qed.

(** ** Growing *)

Lemma heap_inv_range s b l : heap_inv s -> heap_inv (with_range b l s).
Proof. intros []. by split. Qed.

(** The allocator may hand out more pages. *)
Lemma pages_inv s p : heap_inv s -> pa_wf p -> (forall q, pa_managed p q <-> pa_managed (h_pages s) q) ->
    (forall x, covers (h_free_list s) x \/ live s x -> ~ ilo <= x < ihi -> pa_busy p (page_of x)) ->
    heap_inv (with_pages p s).
Proof.
  intros [] Hw Hm Hb. split; cbn; try done.
  - intros x Hx. destruct (hi_owned0 x Hx) as (Hx1 & Hx2 & Hx3 & _). split; [done|]. split; [done|]. split; [done|].
    cbn. destruct (decide (ilo <= x < ihi)); [by right|left]. by apply Hb.
  - intros q x Hq. by apply hi_managed0, Hm.
Qed.

Lemma owned_busy s x : heap_inv s -> owned s x -> ~ ilo <= x < ihi -> pa_busy (h_pages s) (page_of x).
Proof. intros _ (_ & _ & _ & [?|?]) ?; [done|tauto]. Qed.

(** Fresh pages are owned, once handed out, and nothing held them. *)
Lemma fresh_pages s p n ps : heap_inv s -> p mod PAGE_SIZE = 0 ->
    (forall q, in_pages p n q -> pa_managed (h_pages s) q /\ ~ pa_busy (h_pages s) q) ->
    (forall q, pa_busy ps q <-> pa_busy (h_pages s) q \/ in_pages p n q) ->
    forall x, in_chunk (p, n * PAGE_SIZE) x ->
      owned (with_pages ps s) x /\ ~ covers (h_free_list s) x /\ ~ live s x.
Proof.
  intros Hi Hp Hfresh Hbusy x Hx. unfold in_chunk in Hx. simpl in Hx.
  assert (in_pages p n (page_of x)) as Hin by (by apply in_pages_byte).
  destruct (Hfresh _ Hin) as [Hman Hnb]. destruct (page_of_spec x) as [Hpx _].
  destruct (hi_managed _ Hi _ _ Hman Hpx) as (Hr & HF & Hmem & Hinit). split.
  - split; [done|]. split; [done|]. split; [done|]. left. cbn. apply Hbusy. by right.
  - assert (covers (h_free_list s) x \/ live s x -> False).
    { intros Hh. apply Hnb. apply (owned_busy s x Hi); [by apply (hi_owned _ Hi)|done]. }
    tauto.
Qed.

Lemma heap_grow_wp s size : heap_inv s -> 0 <= size <= 2 ^ 63 - PAGE_SIZE ->
    wp (heap_grow F size) s (fun r s' => heap_inv s' /\ h_headers s' = h_headers s /\ h_mem s' = h_mem s /\
      (r < 0 -> h_free_list s' = h_free_list s)).
Proof.
  intros Hi Hsize. unfold heap_grow. cbn zeta. rewrite PAGE_SIZE_eq in Hsize.
  destruct (ROUNDUP_spec size PAGE_SIZE_SHIFT) as [Hsz Hmod]; [done|lia|change (2 ^ PAGE_SIZE_SHIFT) with 4096; lia|].
  change (2 ^ PAGE_SIZE_SHIFT) with PAGE_SIZE in *. set (sz := ROUNDUP size PAGE_SIZE) in *. clearbody sz.
  assert (0 < PAGE_SIZE) by (rewrite PAGE_SIZE_eq; lia).
  set (n := sz / PAGE_SIZE). assert (sz = n * PAGE_SIZE) as Hn by (unfold n; rewrite Z.mod_eq in Hmod by lia; lia).
  assert (0 <= n < 2 ^ 64) as Hnr by (rewrite PAGE_SIZE_eq in *; lia).
  wp_step. pose proof (pa_alloc_ok (h_pages s) n (hi_pages _ Hi) Hnr) as Ha. apply wp_run in Ha as (r & ps & Ha & Hpost).
  unfold wp at 1. unfold on_pages. rewrite Ha. destruct Hpost as (Hw & Hman & Hpost). destruct r as [p|].
  - destruct Hpost as (Hn0 & Hp0 & Hpal & Hptop & Hfresh & Hbusy).
    assert (heap_inv (with_pages ps s)) as Hi1.
    { apply pages_inv; try done. intros x Hx Hx'. apply Hbusy. left.
      by apply (owned_busy s x Hi); [apply (hi_owned _ Hi)|]. }
    pose proof (fresh_pages s p n ps Hi Hpal Hfresh Hbusy) as Hx. rewrite <- Hn in Hx, Hptop.
    assert (chunk_ok (p, sz)) as Hok.
    { rewrite PAGE_SIZE_eq in *. split; cbn [fst snd]; unfold free_chunk_size; try lia; by apply page_mod_8. }
    unfold heap_create_free_chunk. wp_step. split; [apply Z.eqb_eq; by destruct Hok|]. wp_step.
    eapply wp_mono; [apply (insert_wp F _ (p, sz)); [by destruct Hi1|done|intros x Hxc; by apply Hx|]|].
    { apply (chunk_away (with_pages ps s)); [done..|]. intros x Hxc. by apply Hx. }
    intros _ s' (fl' & Hins & ->). wp_step. cbn [h_headers h_mem with_range with_free_list with_remaining with_pages].
    split; [|split; [done|split; [done|]]].
    + apply heap_inv_range. apply (insert_inv _ (p, sz)); [done|done|done|]. intros x Hxc. split; by apply Hx.
    + intros Hneg. exfalso. cbn [fst snd] in *.
      rewrite PAGE_SIZE_eq in *. rewrite sw_small in Hneg by lia. lia.
  - wp_step. cbn. split; [|done]. apply pages_inv; try done. intros x Hx Hx'. apply Hpost.
    by apply (owned_busy s x Hi); [apply (hi_owned _ Hi)|].
Qed.

(** ** Allocating *)

Lemma pow2_check al : 0 < al < 2 ^ 32 -> Z.land al (u32 (al - 1)) = 0 -> exists k, 0 <= k < 32 /\ al = 2 ^ k.
Proof.
  intros Hal Hl. rewrite uw_small in Hl by lia. exists (Z.log2 al).
  pose proof (Z.log2_spec al ltac:(lia)) as [Hlo Hhi]. pose proof (Z.log2_nonneg al).
  assert (Z.log2 al < 32) by (apply Z.log2_lt_pow2; lia). split; [lia|].
  destruct (decide (al = 2 ^ Z.log2 al)) as [E|Hne]; [done|]. exfalso.
  assert (Z.log2 (al - 1) = Z.log2 al) as El by (apply Z.log2_unique; lia).
  assert (Z.testbit (Z.land al (al - 1)) (Z.log2 al) = true) as Hb.
  { rewrite Z.land_spec, Z.bit_log2 by lia. rewrite <- El. by rewrite Z.bit_log2 by lia. }
  by rewrite Hl, Z.testbit_0_l in Hb.
Qed.

Definition align_ok (al : Z) : Prop := 0 <= al < 2 ^ 32 /\ Z.land al (u32 (al - 1)) = 0.

Lemma chunk_size_spec size al : 0 <= size <= 2 ^ 62 -> align_ok al ->
    let '(sz, al') := chunk_size size al in
    size_ok sz al' /\ 0 <= sz <= 2 ^ 63 - PAGE_SIZE /\ (0 < al -> 0 < al' /\ (al | al')) /\
    (0 < al' -> size + alloc_struct_size + al' <= sz) /\ size + alloc_struct_size <= sz.
Proof.
  intros Hs [Hal Hl]. unfold chunk_size, alloc_struct_size, free_chunk_size, ptr_size. rewrite PAGE_SIZE_eq.
  rewrite (uw_small 64 (size + 24)), (proj2 (Z.ltb_ge (size + 24) 24)) by lia. change 8 with (2 ^ 3).
  destruct (ROUNDUP_spec (size + 24) 3) as [Hr Hm]; [lia..|]. cbn zeta. set (r := ROUNDUP (size + 24) (2 ^ 3)) in *. clearbody r.
  change (2 ^ 3) with 8 in *. unfold size_ok, free_chunk_size, alloc_struct_size.
  destruct (0 <? al) eqn:E; bool_prop.
  - destruct (pow2_check al ltac:(lia) Hl) as (k & Hk & ->).
    assert (exists j, 4 <= j < 32 /\ (if 2 ^ k <? 16 then 16 else 2 ^ k) = 2 ^ j /\ k <= j) as (j & Hj & -> & Hkj).
    { destruct (2 ^ k <? 16) eqn:E'; bool_prop; [exists 4|exists k].
      - split; [lia|]. split; [done|]. change 16 with (2 ^ 4) in E'. apply Z.pow_lt_mono_r_iff in E'; lia.
      - split; [|done]. change 16 with (2 ^ 4) in E'. apply Z.pow_le_mono_r_iff in E'; lia. }
    assert (2 ^ j < 2 ^ 32) by (apply Z.pow_lt_mono_r; lia). assert (2 ^ 4 <= 2 ^ j) by (apply Z.pow_le_mono_r; lia).
    rewrite uw_small by lia. split_and!; try lia.
    + replace (2 ^ j) with (2 ^ (j - 3) * 2 ^ 3) by (rewrite <- Z.pow_add_r by lia; f_equal; lia).
      change (2 ^ 3) with 8. by rewrite Z.mod_add by lia.
    + right. exists j. lia.
    + intros _. split; [lia|]. exists (2 ^ (j - k)). rewrite <- Z.pow_add_r by lia. f_equal. lia.
  - assert (al = 0) as -> by lia. split_and!; try lia; by left.
Qed.

Definition alloc_result s (size al : Z) (r : option Z) s' : Prop :=
    heap_inv s' /\ h_mem s' = h_mem s /\
    match r with
    | Some ptr => exists h, h_headers s !! ptr = None /\ h_headers s' = <[ptr := h]> (h_headers s) /\
        as_ptr h + alloc_struct_size <= ptr /\ ptr + size <= as_ptr h + as_size h /\ (0 < al -> ptr mod al = 0)
    | None => h_headers s' = h_headers s
    end.

Lemma alloc_post_result s s0 size al sz al' ptr s' : (0 < al -> 0 < al' /\ (al | al')) ->
    (0 < al' -> size + alloc_struct_size + al' <= sz) -> size + alloc_struct_size <= sz -> 0 <= al' ->
    h_headers s0 = h_headers s -> h_mem s0 = h_mem s ->
    alloc_post s0 sz al' ptr s' -> alloc_result s size al (Some ptr) s'.
Proof.
  intros Hal Hsz Hsz0 Ha' Hh Hm (Hi & Hnone & Hpal & c & fl' & -> & Hok & Hle & Hptr & _).
  split; [done|]. split; [by cbn; rewrite Hm|]. exists (MkAlloc c.1 c.2). cbn. rewrite <- Hh.
  split; [done|]. split; [done|]. split; [lia|]. split.
  - destruct (decide (al' = 0)) as [->|]; [lia|]. specialize (Hsz ltac:(lia)). lia.
  - intros Hpos. destruct (Hal Hpos) as [Hpos' [z Hz]]. specialize (Hpal Hpos'). rewrite Hz in Hpal.
    apply Z.mod_divide; [lia|]. apply Z.mod_divide in Hpal; [|lia]. destruct Hpal as [y Hy]. exists (y * z). lia.
Qed.

Lemma miniheap_alloc_wp s size al : heap_inv s -> 0 <= size <= 2 ^ 62 -> align_ok al ->
    wp (miniheap_alloc F size al) s (fun r s' => alloc_result s size al r s' /\
      (r = None -> forall c, c ∈ h_free_list s' -> c.2 < (chunk_size size al).1)).
Proof.
  intros Hi Hs Hal. pose proof (chunk_size_spec size al Hs Hal) as Hcs. unfold miniheap_alloc.
  rewrite (proj2 Hal). cbn [Z.eqb negb]. destruct (chunk_size size al) as [sz al'].
  destruct Hcs as (Hso & Hszr & Hdiv & Hroom & Hroom0). assert (0 <= al') as Hal'.
  { destruct Hso as (_ & _ & [->|(k & _ & -> & _)]); lia. }
  wp_step. eapply wp_mono; [by apply alloc_try_wp|]. intros [ptr|] s1.
  - intros Hp. wp_step. split; [|done]. by eapply alloc_post_result.
  - intros [-> Hno]. wp_step. eapply wp_mono; [by apply heap_grow_wp|]. intros e s1 (Hi1 & Hh & Hm & Hneg).
    case_if.
    + eapply wp_mono; [by apply alloc_try_wp|]. intros [ptr|] s2.
      * intros Hp. split; [|done]. by eapply alloc_post_result.
      * intros [-> Hno2]. split; [|done]. by split.
    + wp_step. split; [by split|]. intros _. rewrite Hneg by lia. exact Hno.
Qed.

(** ** Trimming *)

Definition trim_pieces (start end_ a e : Z) : list chunk :=
    (if a =? start then [] else [(start, a - start)]) ++ (if e =? end_ then [] else [(e, end_ - e)]).

(** Retries left: one for the start, one for the end. *)
Definition retries (start end_ a e : Z) : nat :=
    ((if (negb (a =? start) && (a - start <? 24))%Z then 1 else 0) + (if ((e <? end_) && (end_ - e <? 24))%Z then 1 else 0))%nat.

(** The page at [p] can be given: what is left of the range on each side is
    nothing or room for a chunk. *)
Definition gives_page (start end_ p : Z) : Prop :=
    p mod PAGE_SIZE = 0 /\ start <= p /\ p + PAGE_SIZE <= end_ /\
    (p = start \/ free_chunk_size <= p - start) /\ (p + PAGE_SIZE = end_ \/ free_chunk_size <= end_ - (p + PAGE_SIZE)).

Lemma page_gap p q : p mod 4096 = 0 -> q mod 4096 = 0 -> p < q -> p + 4096 <= q.
Proof. intros Hp Hq Hlt. Z.to_euclidean_division_equations; lia. Qed.

Lemma trim_chunk_spec start end_ : forall fuel a e, (retries start end_ a e < fuel)%nat ->
    start <= a -> e <= end_ -> start < end_ -> a mod PAGE_SIZE = 0 -> e mod PAGE_SIZE = 0 ->
    (forall p, gives_page start end_ p -> a <= p /\ p + PAGE_SIZE <= e) ->
    exists l r, trim_chunk fuel start end_ a e = Some (l, r) /\
      match r with
      | None => l = [(start, end_ - start)] /\ forall p, ~ gives_page start end_ p
      | Some (a, e) => (forall p, gives_page start end_ p -> a <= p /\ p + PAGE_SIZE <= e) /\ l = trim_pieces start end_ a e /\ start <= a /\ a < e /\ e <= end_ /\
          a mod PAGE_SIZE = 0 /\ e mod PAGE_SIZE = 0 /\
          (a ≠ start -> 24 <= a - start) /\ (e ≠ end_ -> 24 <= end_ - e)
      end.
Proof.
  rewrite PAGE_SIZE_eq. induction fuel as [|fuel IH]; intros a e Hf Ha He Hlt Hpa Hpe Hall; [lia|].
  cbn [trim_chunk]. unfold free_chunk_size. rewrite PAGE_SIZE_eq. unfold retries in *.
  destruct (a <? e) eqn:E; bool_prop; [|eexists _, None; split; [done|]; split; [done|]; intros p Hp; specialize (Hall p Hp); lia].
  destruct (a =? start) eqn:Ea; bool_prop; cbn [negb andb] in *.
  - destruct (e =? end_) eqn:Ee; bool_prop.
    + exists [], (Some (a, e)). split; [done|]. unfold trim_pieces.
      rewrite (proj2 (Z.eqb_eq a start)), (proj2 (Z.eqb_eq e end_)) by done. split_and!; done || lia.
    + rewrite (proj2 (Z.ltb_lt e end_)) in * by lia. destruct (end_ - e <? 24) eqn:En; bool_prop.
      * apply IH; try lia; [|rewrite Zminus_mod, Hpe; done|].
        2: { intros p Hp. specialize (Hall p Hp). destruct Hp as (Hpm & _ & _ & _ & Hr). rewrite PAGE_SIZE_eq in *. unfold free_chunk_size in Hr.
             split; [lia|]. assert (p + 4096 ≠ e) by lia. assert ((p + 4096) mod 4096 = 0) by (rewrite Z.add_mod, Hpm; done).
             pose proof (page_gap (p + 4096) e). lia. }
        rewrite (proj2 (Z.eqb_eq a start)), (proj2 (Z.ltb_ge (end_ - (e - 4096)) 24)), andb_false_r by lia. simpl in *. lia.
      * eexists _, (Some (a, e)). split; [done|]. unfold trim_pieces.
        rewrite (proj2 (Z.eqb_eq a start)), (proj2 (Z.eqb_neq e end_)) by done. split_and!; done || lia.
  - destruct (a - start <? 24) eqn:En; bool_prop.
    + apply IH; try lia; [|rewrite Z.add_mod, Hpa; done|].
      2: { intros p Hp. specialize (Hall p Hp). destruct Hp as (Hpm & _ & _ & Hr & _). rewrite PAGE_SIZE_eq in *. unfold free_chunk_size in Hr.
           split; [|lia]. pose proof (page_gap a p). lia. }
      rewrite (proj2 (Z.ltb_ge (a + 4096 - start) 24)), andb_false_r by lia. simpl in *. lia.
    + destruct (e <? end_) eqn:Ee; bool_prop; cbn [andb] in *.
      * destruct (end_ - e <? 24) eqn:En'; bool_prop.
        -- apply IH; try lia; [|rewrite Zminus_mod, Hpe; done|].
           2: { intros p Hp. specialize (Hall p Hp). destruct Hp as (Hpm & _ & _ & _ & Hr). rewrite PAGE_SIZE_eq in *. unfold free_chunk_size in Hr.
                split; [lia|]. assert (p + 4096 ≠ e) by lia. assert ((p + 4096) mod 4096 = 0) by (rewrite Z.add_mod, Hpm; done).
                pose proof (page_gap (p + 4096) e). lia. }
           rewrite (proj2 (Z.ltb_ge (a - start) 24)), (proj2 (Z.ltb_ge (end_ - (e - 4096)) 24)), !andb_false_r by lia.
           simpl in *. lia.
        -- eexists _, (Some (a, e)). split; [done|]. unfold trim_pieces.
           rewrite (proj2 (Z.eqb_neq a start)), (proj2 (Z.eqb_neq e end_)) by lia. split_and!; done || lia.
      * eexists _, (Some (a, e)). split; [done|]. unfold trim_pieces.
        rewrite (proj2 (Z.eqb_neq a start)), (proj2 (Z.eqb_eq e end_)) by lia. split_and!; done || lia.
Qed.

Lemma pieces_ok c a e lo : chunk_ok c -> lo < c.1 -> c.1 <= a -> a < e -> e <= c.1 + c.2 ->
    a mod 8 = 0 -> e mod 8 = 0 -> (a ≠ c.1 -> 24 <= a - c.1) -> (e ≠ c.1 + c.2 -> 24 <= c.1 + c.2 - e) ->
    let l := trim_pieces c.1 (c.1 + c.2) a e in
    chain lo l /\ end_of lo l <= c.1 + c.2 /\ total l = c.2 - (e - a) /\
    (forall x, covers l x <-> in_chunk c x /\ ~ a <= x < e).
Proof.
  intros Hok Hlo Ha Hae He Ha8 He8 Hsa Hse. pose proof Hok as [Hp Hal Hl Hmin Htop]. cbn zeta.
  assert (forall lo, e ≠ c.1 + c.2 -> lo < e -> chain lo [(e, c.1 + c.2 - e)]) as Hlast.
  { intros lo' Hne Hlo'. specialize (Hse Hne). split; [done|]. split; [|done]. split; simpl; unfold free_chunk_size; try lia.
    rewrite Zminus_mod, Z.add_mod, Hal, Hl, He8 by lia. done. }
  assert (forall lo, a ≠ c.1 -> lo < c.1 -> lo < c.1 /\ chunk_ok (c.1, a - c.1)) as Hfirst.
  { intros lo' Hne Hlo'. specialize (Hsa Hne). split; [done|]. split; simpl; unfold free_chunk_size; try lia.
    by rewrite Zminus_mod, Hal, Ha8. }
  unfold trim_pieces. destruct (a =? c.1) eqn:Ea; destruct (e =? c.1 + c.2) eqn:Ee; bool_prop; cbn [app].
  - unfold end_of, total. simpl. split_and!; [done|lia|lia|]. intros x. unfold in_chunk.
    split; [by intros ?%covers_nil|lia].
  - split; [apply Hlast; lia|]. unfold end_of, total. simpl. split; [lia|]. split; [lia|]. intros x.
    rewrite covers_cons. pose proof (covers_nil x). unfold in_chunk. simpl. intuition lia.
  - split; [split; [done|split; [by apply (Hfirst lo)|done]]|]. unfold end_of, total. simpl. split; [lia|]. split; [lia|]. intros x.
    rewrite covers_cons. pose proof (covers_nil x). unfold in_chunk. simpl. intuition lia.
  - split; [split; [done|split; [by apply (Hfirst lo)|apply Hlast; simpl; lia]]|]. unfold end_of, total. simpl.
    split; [lia|]. split; [lia|]. intros x. rewrite !covers_cons. pose proof (covers_nil x). unfold in_chunk. simpl.
    intuition lia.
Qed.

(** What a trim that gives back the ranges [rs] leaves. *)
Definition trimmed s (rs : list chunk) s' : Prop :=
    heap_inv s' /\ h_headers s' = h_headers s /\ h_mem s' = h_mem s /\
    Forall (fun r => r.1 mod PAGE_SIZE = 0 /\ r.2 mod PAGE_SIZE = 0) rs /\
    (forall x, covers (h_free_list s) x <-> covers (h_free_list s') x \/ covers rs x) /\
    total (h_free_list s) = total (h_free_list s') + total rs /\
    (forall q, pa_busy (h_pages s') q <-> pa_busy (h_pages s) q /\ ~ covers rs q).

(** One chunk, of which the pages from [a] to [e] go. *)
Lemma trim_step s b c todo a e : heap_inv s -> h_free_list s = b ++ c :: todo ->
    let l := trim_pieces c.1 (c.1 + c.2) a e in
    c.1 <= a -> a < e -> e <= c.1 + c.2 -> a mod PAGE_SIZE = 0 -> e mod PAGE_SIZE = 0 ->
    (a ≠ c.1 -> 24 <= a - c.1) -> (e ≠ c.1 + c.2 -> 24 <= c.1 + c.2 - e) ->
    wp (page_free a ((e - a) / PAGE_SIZE)) (h_pages s) (fun _ ps =>
      trimmed s [(a, e - a)]
        (with_remaining (u64 (h_remaining s - (e - a))) (with_pages ps (with_free_list (b ++ l ++ todo) s)))).
Proof.
  intros Hi Hfl l Ha Hae He Hpa Hpe Hsa Hse. pose proof Hi as [].
  pose proof hi_chain0 as Hch. rewrite Hfl in Hch. apply chain_app in Hch as [Hb (Hlt & Hok & Htodo)].
  assert (a mod 8 = 0 /\ e mod 8 = 0) as [Ha8 He8] by (rewrite PAGE_SIZE_eq in *; split; by apply page_mod_8).
  destruct (pieces_ok c a e (end_of 0 b) Hok Hlt Ha Hae He Ha8 He8 Hsa Hse) as (Hl & Hle & Htot & Hcov). fold l in Hl, Hle, Htot, Hcov.
  assert (0 < PAGE_SIZE) by (rewrite PAGE_SIZE_eq; lia).
  set (n := (e - a) / PAGE_SIZE). assert (a + n * PAGE_SIZE = e) as Hn.
  { unfold n. rewrite PAGE_SIZE_eq in *. pose proof (Z.div_mod (e - a) 4096 ltac:(lia)) as Hdm.
    rewrite (Zminus_mod e a), Hpa, Hpe in Hdm. change ((0 - 0) mod 4096) with 0 in Hdm. lia. }
  assert (0 <= n) by (apply Z.div_pos; lia).
  assert (forall x, a <= x < e -> covers (h_free_list s) x) as Hin.
  { intros x Hx. rewrite Hfl, covers_app, covers_cons. right. left. unfold in_chunk. lia. }
  assert (forall q, in_pages a n q -> pa_busy (h_pages s) q) as Hbusy.
  { intros q Hq. pose proof (in_pages_aligned _ _ _ Hpa Hq) as Hqa. apply owned_page; [done|done|].
    intros x Hx. apply hi_owned0. left. apply Hin. rewrite <- Hn. apply in_pages_byte; [done|].
    by rewrite (page_base_unique x q). }
  eapply wp_mono; [apply (pa_free_ok (h_pages s) a n); done|]. intros _ ps (Hw & Hman & Hps).
  assert (forall x, covers (b ++ l ++ todo) x <-> covers (h_free_list s) x /\ ~ a <= x < e) as Hcovers.
  { intros x. rewrite Hfl, !covers_app, covers_cons, Hcov.
    pose proof (chain_covers _ _ x Hb) as Hxb. pose proof (chain_covers _ _ x Htodo) as Hxt.
    assert (covers b x -> ~ a <= x < e) by (intros Hx; specialize (Hxb Hx); lia).
    assert (covers todo x -> ~ a <= x < e) by (intros Hx; specialize (Hxt Hx); lia). tauto. }
  assert (chain 0 (b ++ l ++ todo)) as Hch'.
  { apply chain_app. split; [done|]. apply chain_app. split; [done|]. by eapply chain_weaken. }
  assert (total (h_free_list s) = total (b ++ l ++ todo) + (e - a)) as Htotal.
  { rewrite Hfl, !total_app. change (total (c :: todo)) with (c.2 + total todo). lia. }
  split; [|split; [done|split; [done|split; [|split; [|split]]]]].
  - split; cbn; try done.
    + rewrite hi_remaining0. pose proof (chain_total _ _ Hch'). pose proof (chain_total_top _ Hch').
      rewrite Htotal, uw_small by lia. apply Z.add_simpl_r.
    + intros x [Hx _]%Hcovers. by apply hi_apart0.
    + intros x Hx. assert (owned s x /\ ~ a <= x < e) as [(Hx1 & Hx2 & Hx3 & Hx4) Hno].
      { destruct Hx as [[Hx Hno]%Hcovers|Hx]; [split; [apply hi_owned0; by left|done]|].
        split; [apply hi_owned0; by right|]. intros Hae'. by apply (hi_apart0 x (Hin x Hae')). }
      split; [done|]. split; [done|]. split; [done|]. cbn. destruct Hx4 as [Hx4|Hx4]; [left|by right].
      apply Hps. split; [done|]. intros Hp. apply in_pages_byte in Hp; [|done]. lia.
    + intros q x Hq. by apply hi_managed0, Hman.
  - constructor; [|done]. simpl. split; [done|]. rewrite PAGE_SIZE_eq in *. by rewrite Zminus_mod, Hpa, Hpe.
  - intros x. cbn. rewrite Hcovers, covers_cons. pose proof (covers_nil x). unfold in_chunk. simpl.
    destruct (decide (a <= x < e)) as [Hx|Hx]; [|intuition lia]. specialize (Hin x Hx). intuition lia.
  - change (total (h_free_list s) = total (b ++ l ++ todo) + (e - a + 0)). lia.
  - intros q. cbn. rewrite Hps, covers_cons. pose proof (covers_nil q) as Hnil. unfold in_chunk. simpl.
    assert (pa_busy (h_pages s) q -> in_pages a n q <-> a <= q < a + (e - a)) as Heq.
    { intros Hq. pose proof (pa_managed_aligned _ _ hi_pages0 (pa_busy_managed _ _ Hq)) as Hqa.
      rewrite <- (page_base_unique q q) at 1 by (done || lia). rewrite in_pages_byte by done. lia. }
    tauto.
Qed.

Lemma trimmed_refl s : heap_inv s -> trimmed s [] s.
Proof.
  intros Hi. split; [done|]. split; [done|]. split; [done|]. split; [constructor|]. split; [|split].
  - intros x. pose proof (covers_nil x). tauto.
  - change (total []) with 0. lia.
  - intros q. pose proof (covers_nil q). tauto.
Qed.

Lemma trimmed_trans s1 r1 s2 r2 s3 : trimmed s1 r1 s2 -> trimmed s2 r2 s3 -> trimmed s1 (r1 ++ r2) s3.
Proof.
  intros (_ & Hh1 & Hm1 & Hf1 & Hc1 & Ht1 & Hb1) (Hi & Hh2 & Hm2 & Hf2 & Hc2 & Ht2 & Hb2).
  split; [done|]. split; [congruence|]. split; [congruence|]. split; [by apply Forall_app|]. split; [|split].
  - intros x. rewrite Hc1, Hc2, covers_app. tauto.
  - rewrite total_app. lia.
  - intros q. rewrite Hb2, Hb1, covers_app. tauto.
Qed.

Lemma trim_loop_wp todo : forall b s, heap_inv s -> h_free_list s = b ++ todo ->
    wp (trim_loop b todo) s (fun _ s' => exists rs, trimmed s rs s' /\
      forall c p, c ∈ todo -> gives_page c.1 (c.1 + c.2) p -> forall x, p <= x < p + PAGE_SIZE -> covers rs x).
Proof.
  induction todo as [|c todo IH]; intros b s Hi Hfl; cbn [trim_loop].
  - wp_step. exists []. split; [by apply trimmed_refl|]. by intros c p ?%not_elem_of_nil.
  - pose proof (hi_chain _ Hi) as Hch. rewrite Hfl in Hch. apply chain_app in Hch as [Hb (Hlt & Hok & Htodo)].
    pose proof (ck_top _ Hok). pose proof (ck_pos _ Hok). pose proof (chunk_len_pos _ Hok).
    pose proof (chunk_top s c Hi ltac:(rewrite Hfl; set_solver)) as Htop. pose proof (ck_min _ Hok) as Hmin.
    rewrite PAGE_SIZE_eq in Htop. unfold free_chunk_size in Hmin. cbn zeta. rewrite (uw_small 64 (c.1 + c.2)) by lia.
    set (sp := ROUNDUP c.1 PAGE_SIZE). set (ep := ROUNDDOWN (c.1 + c.2) PAGE_SIZE).
    assert (c.1 <= sp /\ sp mod PAGE_SIZE = 0) as [Hsp Hspm].
    { destruct (ROUNDUP_spec c.1 12) as [Hr Hm]; [lia|lia|change (2 ^ 12) with 4096; lia|]. change (2 ^ 12) with PAGE_SIZE in *. fold sp in Hr, Hm. lia. }
    assert (ep <= c.1 + c.2 /\ ep mod PAGE_SIZE = 0) as [Hep Hepm].
    { unfold ep. change PAGE_SIZE with (2 ^ 12). rewrite ROUNDDOWN_spec by lia. change (2 ^ 12) with 4096.
      pose proof (Z.mod_pos_bound (c.1 + c.2) 4096 ltac:(lia)). split; [lia|].
      replace (c.1 + c.2 - (c.1 + c.2) mod 4096) with ((c.1 + c.2) / 4096 * 4096) by (rewrite Z.mod_eq by lia; lia).
      by apply Z.mod_mul. }
    assert (forall p, gives_page c.1 (c.1 + c.2) p -> sp <= p /\ p + PAGE_SIZE <= ep) as Hgive.
    { intros p (Hpm & Hp1 & Hp2 & _). rewrite PAGE_SIZE_eq in *. split.
      - destruct (Z.lt_ge_cases p sp) as [Hlt'|]; [|done]. pose proof (page_gap p sp Hpm Hspm Hlt').
        destruct (ROUNDUP_spec c.1 12) as [Hr _]; [lia|lia|change (2 ^ 12) with 4096; lia|]. change (2 ^ 12) with 4096 in Hr.
        change (ROUNDUP c.1 4096) with sp in Hr. lia.
      - destruct (Z.lt_ge_cases ep (p + 4096)) as [Hlt'|]; [|done]. assert ((p + 4096) mod 4096 = 0) as Hpm' by (rewrite Z.add_mod, Hpm; done).
        pose proof (page_gap ep (p + 4096) Hepm Hpm' Hlt') as Hgap. assert (ep = c.1 + c.2 - (c.1 + c.2) mod 4096) as Hepe.
        { unfold ep. change PAGE_SIZE with (2 ^ 12). by rewrite ROUNDDOWN_spec by lia. }
        pose proof (Z.mod_pos_bound (c.1 + c.2) 4096 ltac:(lia)). lia. }
    clearbody sp ep. wp_step. split; [apply Z.ltb_lt; lia|]. wp_step. split; [by apply Z.leb_le|].
    wp_step. split; [by apply Z.leb_le|].
    destruct (trim_chunk_spec c.1 (c.1 + c.2) 3 sp ep) as (l & r & -> & Hr); [|done|done|lia|done|done|done|].
    { unfold retries. destruct (_ && _), (_ && _); simpl; lia. }
    wp_step. eexists. split; [done|]. cbn [fst snd]. destruct r as [[a e]|].
    + destruct Hr as (Hgiven & -> & Ha & Hae & He & Hpa & Hpe & Hsa & Hse).
      pose proof (trim_step s b c todo a e Hi Hfl Ha Hae He Hpa Hpe Hsa Hse) as Hstep. cbn zeta in Hstep.
      apply wp_run in Hstep as ([] & ps & Hrun & Hpost).
      wp_step. split.
      { apply forallb_forall. intros k Hk. apply list_elem_of_In in Hk.
        assert (chunk_ok k) as Hokk.
        { pose proof (hi_chain _ (proj1 Hpost)) as Hch'. cbn in Hch'.
          apply (chain_ok _ _ _ Hch'). apply elem_of_app. right. apply elem_of_app. by left. }
        rewrite (proj2 (Z.eqb_eq (k.2 mod ptr_size) 0)); [apply orb_true_r|by destruct Hokk]. }
      wp_step. unfold wp at 1. unfold on_pages. cbn [h_pages with_free_list]. rewrite Hrun. wp_step.
      eapply wp_mono; [apply IH; [exact (proj1 Hpost)|]|].
      { cbn. by rewrite app_assoc. }
      intros _ s' (rs & Hrs & Hall). exists ([(a, e - a)] ++ rs). split; [by eapply trimmed_trans|].
      intros c' p Hc Hp x Hx. rewrite covers_app, covers_cons. apply elem_of_cons in Hc as [->|Hc]; [|right; by apply (Hall c' p)].
      left. left. specialize (Hgiven p Hp). unfold in_chunk. simpl. lia.
    + destruct Hr as [-> Hno]. wp_step. eapply wp_mono; [apply IH; [done|]|].
      2: { intros _ s' (rs & Hrs & Hall). exists rs. split; [done|]. intros c' p [->|Hc]%elem_of_cons Hp; [by destruct (Hno p)|by apply (Hall c' p)]. }
      rewrite Hfl, <- app_assoc. cbn [app]. f_equal. f_equal.
      destruct c. simpl. f_equal. lia.
Qed.

Lemma miniheap_trim_wp s : heap_inv s -> wp miniheap_trim s (fun _ s' => exists rs, trimmed s rs s' /\
    forall c p, c ∈ h_free_list s -> gives_page c.1 (c.1 + c.2) p -> forall x, p <= x < p + PAGE_SIZE -> covers rs x).
Proof. intros Hi. unfold miniheap_trim. wp_step. by apply trim_loop_wp. Qed.

End inv.

End MiniheapInv.
