(* ===== verification/Heap.v ===== *)
(** [malloc] and its relatives, [lib/heap/heap_wrapper.c], over the heap.
    [LK_DEBUGLEVEL] is 2, tracing off. *)
From S2P Require Import Prelude Mem CString Page Miniheap.
Local Open Scope Z_scope.

Module Heap.
Import Page Miniheap.

(** The heap with the delayed free list, whose nodes lie in the blocks. *)
Record state (P : Type) := MkState { the_heap : heap P; delayed_free_list : list Z }.
Arguments MkState {P}.
Arguments the_heap {P}.
Arguments delayed_free_list {P}.

Section heap_wrapper.
Context {P : Type} `{PageAlloc P} (free_list_addr : Z).
Abbreviation W := (M (state P)).

Definition on_heap {A} (m : M (heap P) A) : W A := fun s =>
    match m (the_heap s) with Some (a, h) => Some (a, MkState h (delayed_free_list s)) | None => None end.
Definition set_delayed (l : list Z) : W unit := modify (fun s => MkState (the_heap s) l).

Definition HEAP_MALLOC (s : Z) : W (option Z) := on_heap (miniheap_alloc free_list_addr s 0).
Definition HEAP_REALLOC (ptr : option Z) (s : Z) : W (option Z) := on_heap (miniheap_realloc free_list_addr ptr s).
Definition HEAP_MEMALIGN (boundary s : Z) : W (option Z) := on_heap (miniheap_alloc free_list_addr s (u32 boundary)).
Definition HEAP_FREE (ptr : option Z) : W unit := on_heap (miniheap_free free_list_addr ptr).
Definition HEAP_CALLOC (n s : Z) : W (option Z) :=
    let realsize := u64 (n * s) in
    ptr ← on_heap (miniheap_alloc free_list_addr realsize 0);
    _ ← (match ptr with
         | Some p => _ ← on_heap (on_mem (CString.memset p 0 realsize)); mret tt
         | None => mret tt
         end);
    mret ptr.
Definition HEAP_INIT : W unit :=
    r ← on_heap (on_pages page_first_alloc);
    on_heap (miniheap_init free_list_addr (default 0 r.1) r.2).
Definition HEAP_TRIM : W unit := on_heap miniheap_trim.

(** The nodes move to a list of the function's own, which reverses them. *)
Fixpoint free_list (l : list Z) : W unit :=
    match l with [] => mret tt | node :: l => _ ← HEAP_FREE (Some node); free_list l end.
Definition heap_free_delayed_list : W unit :=
    l ← gets delayed_free_list;
    _ ← set_delayed [];
    free_list (rev l).
Definition drain : W unit :=
    l ← gets delayed_free_list;
    when (negb (bool_decide (l = []))) heap_free_delayed_list.

Definition heap_init : W unit := HEAP_INIT.
Definition heap_trim : W unit := _ ← drain; HEAP_TRIM.
Definition malloc (size : Z) : W (option Z) := _ ← drain; HEAP_MALLOC size.
Definition memalign (boundary size : Z) : W (option Z) := _ ← drain; HEAP_MEMALIGN boundary size.
Definition calloc (count size : Z) : W (option Z) := _ ← drain; HEAP_CALLOC count size.
Definition realloc (ptr : option Z) (size : Z) : W (option Z) := _ ← drain; HEAP_REALLOC ptr size.
Definition free (ptr : option Z) : W unit := HEAP_FREE ptr.
Definition heap_delayed_free (ptr : Z) : W unit :=
    l ← gets delayed_free_list; set_delayed (ptr :: l).
End heap_wrapper.

End Heap.
