(* ===== verification/HeapProps.v ===== *)
(** What [malloc] and its relatives promise. *)
From S2P Require Import Prelude Mem CString CStringProps Page Novm NovmProps Miniheap MiniheapInv Heap.
Local Open Scope Z_scope.

Module HeapProps.
Import Page CStringProps Miniheap MiniheapInv Heap.

Section props.
Context {P : Type} `{PageAllocLaws P}.
Context (F ilo ihi : Z).
  Implicit Types s : heap P.
Abbreviation inv := (heap_inv F ilo ihi).

(** * Contents *)

Lemma lookup_put_Some (m : Mem.mem) p l x b : Mem.put m p l !! x = Some b -> b ∈ l \/ m !! x = Some b.
Proof.
  rewrite put_lookup. case_decide; [|by right]. intros Hb. left. by eapply list_elem_of_lookup_2.
Qed.

Lemma mem_inv s p l : inv s -> Forall Mem.byte l -> inv (with_mem (Mem.put (h_mem s) p l) s).
Proof.
  intros [] Hl.
  assert (forall x, is_Some (h_mem s !! x) -> is_Some (Mem.put (h_mem s) p l !! x)) as Hmap.
  { intros x Hx. pose proof (Mem.put_mapped (h_mem s) p l x 1) as Hp.
    assert (Mem.mapped (h_mem s) x 1) as Hm by (intros [|i] Hi; [by rewrite Z.add_0_r|lia]).
    specialize (Hp Hm 0%nat ltac:(lia)). by rewrite Z.add_0_r in Hp. }
  split; cbn; try done.
  - intros x Hx. destruct (hi_owned0 x Hx) as (? & ? & ? & ?). split; [done|]. split; [done|]. cbn. auto.
  - intros x b [Hb|Hb]%lookup_put_Some; [|by eapply hi_bytes0]. by eapply Forall_forall in Hl.
  - intros q x Hq Hx. destruct (hi_managed0 q x Hq Hx) as (? & ? & ? & ?). auto.
Qed.

(** The bytes of a block, from its pointer on. *)
Lemma block_mapped s ptr h n : inv s -> h_headers s !! ptr = Some h -> ptr + Z.of_nat n <= as_ptr h + as_size h ->
    Mem.mapped (h_mem s) ptr n.
Proof.
  intros Hi Hp Hn i Hin. destruct (hi_block _ _ _ _ Hi _ _ Hp) as [_ Hb]. unfold alloc_struct_size in Hb.
  apply (hi_owned _ _ _ _ Hi). right. exists ptr, h. split; [done|]. unfold in_chunk, block. simpl. lia.
Qed.

Lemma mapped_bytes (m : Mem.mem) p n : Mem.mapped m p n -> exists l, length l = n /\ Mem.bytes_at m p l.
Proof.
  revert p. induction n as [|n IH]; intros p Hm; [by exists []; split; [|apply Mem.bytes_at_nil]|].
  apply Mem.mapped_succ in Hm as [[b Hb] Hm]. destruct (IH _ Hm) as (l & <- & Hl).
  exists (b :: l). split; [done|]. by apply Mem.bytes_at_cons.
Qed.

Lemma bytes_at_byte s p l : inv s -> Mem.bytes_at (h_mem s) p l -> Forall Mem.byte l.
Proof.
  intros Hi Hl. apply Forall_forall. intros b Hb. apply list_elem_of_lookup_1 in Hb as [i Hb].
  by eapply (hi_bytes _ _ _ _ Hi), Hl.
Qed.

Lemma wp_on_mem {A} (m : M Mem.mem A) s (Q : A -> heap P -> Prop) :
    wp m (h_mem s) (fun a m' => Q a (with_mem m' s)) -> wp (on_mem m) s Q.
Proof. unfold wp, on_mem. by destruct (m (h_mem s)) as [[a m']|]. Qed.

(** * Reallocation *)

Lemma miniheap_realloc_wp s old h n : inv s -> h_headers s !! old = Some h ->
    (0 < n)%nat -> old + Z.of_nat n <= as_ptr h + as_size h -> Z.of_nat n < 2 ^ 31 ->
    wp (miniheap_realloc F (Some old) (Z.of_nat n)) s (fun r s' => inv s' /\
      match r with
      | Some p => exists h' l, h_headers s !! p = None /\
          h_headers s' = <[p := h']> (delete old (h_headers s)) /\ p + Z.of_nat n <= as_ptr h' + as_size h' /\
          length l = n /\ Mem.bytes_at (h_mem s) old l /\ h_mem s' = Mem.put (h_mem s) p l
      | None => h_headers s' = h_headers s /\ h_mem s' = h_mem s
      end).
Proof.
  intros Hi Hold Hn Hroom H31. unfold miniheap_realloc. rewrite (proj2 (Z.eqb_neq _ _)) by lia. wp_step.
  eapply wp_mono; [apply (miniheap_alloc_wp F ilo ihi s (Z.of_nat n) 0 Hi); [lia|by split; [lia|]]|].
  intros r s1 [(Hi1 & Hm1 & Hr) _]. destruct r as [p|]; [|by wp_step].
  destruct Hr as (h' & Hfresh & Hh1 & Hp1 & Hp2 & _). wp_step.
  assert (old ≠ p) as Hne by (intros ->; congruence).
  assert (h_headers s1 !! old = Some h) as Hold1 by (rewrite Hh1, lookup_insert_ne by done; done).
  assert (h_headers s1 !! p = Some h') as Hnew1 by (rewrite Hh1; apply lookup_insert_eq).
  destruct (mapped_bytes (h_mem s1) old n) as (l & <- & Hl); [by eapply block_mapped|].
  pose proof (bytes_at_byte _ _ _ Hi1 Hl) as Hbytes.
  (* the two blocks have no byte in common *)
  assert (Mem.disjoint_ranges p (length l) old (length l)) as Hdis.
  { destruct (hi_block _ _ _ _ Hi1 _ _ Hold1) as [_ Hb1], (hi_block _ _ _ _ Hi1 _ _ Hnew1) as [_ Hb2].
    unfold alloc_struct_size in *. destruct (decide (Mem.disjoint_ranges p (length l) old (length l))) as [?|Hno]; [done|].
    exfalso. apply Hne. unfold Mem.disjoint_ranges in Hno.
    apply (hi_distinct _ _ _ _ Hi1 old p h h' (Z.max old p)); try done; unfold in_chunk, block; simpl; lia. }
  apply wp_on_mem.
  eapply wp_mono; [apply (memcpy_wp (h_mem s1) p old l); [done| |done|lia|]|].
  { by eapply block_mapped. }
  { by right. }
  intros _ m' [_ ->]. pose proof (mem_inv s1 p l Hi1 Hbytes) as Hi2. wp_step.
  eapply wp_mono; [by apply (miniheap_free_wp F ilo ihi _ old h Hi2)|].
  intros _ s2 (Hi3 & fl' & _ & ->). wp_step. split; [done|]. exists h', l. cbn.
  split; [done|]. split; [by rewrite Hh1, delete_insert_ne by done|]. split; [done|]. split; [done|].
  rewrite Hm1 in *. done.
Qed.

(** * The wrapper's calls *)

Abbreviation hdrs s := (h_headers (the_heap s)).
Abbreviation bytes s := (h_mem (the_heap s)).
Implicit Types w : state P.

(** The heap's invariant, with the delayed blocks still live. *)
Record Inv w : Prop := {
  inv_heap : inv (the_heap w);
  inv_delayed : NoDup (delayed_free_list w);
  inv_live p : p ∈ delayed_free_list w -> is_Some (hdrs w !! p);
}.

(** A block the client holds. *)
Definition usable w (p : Z) (h : alloc_struct) : Prop :=
  hdrs w !! p = Some h /\ p ∉ delayed_free_list w.
Definition block_end (h : alloc_struct) : Z := as_ptr h + as_size h.

(** From [w] to [w'] the client keeps every block but those in [rel], and the
    bytes in them. *)
Definition kept (rel : Z -> Prop) w w' : Prop := forall q h, usable w q h -> ~ rel q ->
  usable w' q h /\ forall x, q <= x < block_end h -> bytes w' !! x = bytes w !! x.

Lemma kept_trans rel w w' w'' : kept rel w w' -> kept rel w' w'' -> kept rel w w''.
Proof.
  intros H1 H2 q h Hq Hr. destruct (H1 q h Hq Hr) as [Hq' Hb]. destruct (H2 q h Hq' Hr) as [Hq2 Hb2].
  split; [done|]. intros x Hx. by rewrite Hb2, Hb.
Qed.

Lemma kept_weaken (rel rel' : Z -> Prop) w w' : (forall q, rel q -> rel' q) -> kept rel w w' -> kept rel' w w'.
Proof. intros Hr Hk q h Hq Hn. apply Hk; [done|]. intros ?. by apply Hn, Hr. Qed.

Lemma wp_on_heap {A} (m : M (heap P) A) w (Q : A -> state P -> Prop) :
  wp m (the_heap w) (fun a h => Q a (MkState h (delayed_free_list w))) -> wp (on_heap m) w Q.
Proof. unfold wp, on_heap. by destruct (m (the_heap w)) as [[a h]|]. Qed.

Lemma free_list_wp l : forall w, inv (the_heap w) -> NoDup l -> (forall p, p ∈ l -> is_Some (hdrs w !! p)) ->
  wp (free_list F l) w (fun _ w' => inv (the_heap w') /\ delayed_free_list w' = delayed_free_list w /\
    bytes w' = bytes w /\ forall q, hdrs w' !! q = if decide (q ∈ l) then None else hdrs w !! q).
Proof.
  induction l as [|p l IH]; intros w Hi Hnd Hl; cbn [free_list].
  - wp_step. by split_and!.
  - apply NoDup_cons in Hnd as [Hp Hnd]. destruct (Hl p ltac:(set_solver)) as [h Hh].
    wp_step. apply wp_on_heap. eapply wp_mono; [by apply (miniheap_free_wp F ilo ihi)|].
    intros _ s (Hi' & fl' & _ & ->). eapply wp_mono.
    + apply IH; [done|done|]. intros q Hq. cbn. rewrite lookup_delete_ne by (intros ->; done). apply Hl. set_solver.
    + cbn. intros _ w' (Hw & -> & -> & Hq). split_and!; try done. intros q. rewrite Hq. cbn.
      destruct (decide (q = p)) as [->|Hne]; [rewrite lookup_delete_eq, decide_False, decide_True by set_solver; done|].
      rewrite lookup_delete_ne by done. repeat case_decide; set_solver.
Qed.

Lemma drain_wp w : Inv w -> wp (drain F) w (fun _ w' => Inv w' /\ delayed_free_list w' = [] /\ bytes w' = bytes w /\
  forall q, hdrs w' !! q = if decide (q ∈ delayed_free_list w) then None else hdrs w !! q).
Proof.
  intros [Hi Hnd Hl]. unfold drain, heap_free_delayed_list, set_delayed. wp_step. apply wp_when. case_if.
  - wp_step. eapply wp_mono; [apply free_list_wp; [done| |]|].
    + by rewrite <- Permutation_rev.
    + cbn. intros p Hp. apply Hl. by rewrite <- Permutation_rev in Hp.
    + cbn. intros _ w' (Hi' & Hd & Hb & Hq). rewrite Hd. split_and!; try done.
      * split; rewrite ?Hd; [done|constructor|set_solver].
      * intros q. rewrite Hq. cbn. apply decide_ext. by rewrite <- Permutation_rev.
  - split_and!; try done. intros q. by rewrite E, decide_False by apply not_elem_of_nil.
Qed.

Lemma drain_kept w : Inv w -> wp (drain F) w (fun _ w' => Inv w' /\ delayed_free_list w' = [] /\
  kept (fun _ => False) w w' /\ forall q h, hdrs w' !! q = Some h -> usable w q h).
Proof.
  intros Hi. eapply wp_mono; [by apply drain_wp|]. cbn. intros _ w' (Hi' & Hd & Hb & Hq).
  split_and!; try done.
  - intros q h [Hh Hn] _. split; [split|by rewrite Hb].
    + by rewrite Hq, decide_False.
    + rewrite Hd. apply not_elem_of_nil.
  - intros q h Hh. rewrite Hq in Hh. by case_decide.
Qed.

(** The bytes of two blocks are apart. *)
Lemma blocks_apart s p q hp hq x : inv s -> h_headers s !! p = Some hp -> h_headers s !! q = Some hq -> p ≠ q ->
  p <= x < block_end hp -> ~ q <= x < block_end hq.
Proof.
  intros Hi Hp Hq Hne Hx Hy. apply Hne. destruct (hi_block _ _ _ _ Hi _ _ Hp) as [_ ?], (hi_block _ _ _ _ Hi _ _ Hq) as [_ ?].
  unfold alloc_struct_size, block_end in *.
  apply (hi_distinct _ _ _ _ Hi p q hp hq x); try done; unfold in_chunk, block; simpl; lia.
Qed.

(** The calls of the interface, and what a client may ask: sizes below 2^62,
    a power of two (or 0) as the boundary, blocks it holds, not more of a block
    than it has when it is reallocated, and room for a list node in a block whose
    release is delayed. *)
Inductive op :=
  | Malloc (size : Z)
  | Memalign (boundary size : Z)
  | Calloc (count size : Z)
  | Realloc (ptr : option Z) (size : Z)
  | Free (ptr : option Z)
  | DelayedFree (ptr : Z)
  | Trim.

Definition run_op (o : op) : M (state P) (option Z) :=
  match o with
  | Malloc size => malloc F size
  | Memalign boundary size => memalign F boundary size
  | Calloc count size => calloc F count size
  | Realloc ptr size => realloc F ptr size
  | Free ptr => _ ← free F ptr; mret None
  | DelayedFree ptr => _ ← heap_delayed_free ptr; mret None
  | Trim => _ ← heap_trim F; mret None
  end.

Definition list_node_size : Z := 16.
Definition holds w (p : Z) (n : Z) : bool :=
  match hdrs w !! p with
  | Some h => bool_decide (p ∉ delayed_free_list w) && (p + n <=? block_end h)
  | None => false
  end.
Definition size_okb (size : Z) : bool := (0 <=? size) && (size <=? 2 ^ 62).

Definition op_ok w (o : op) : bool :=
  match o with
  | Malloc size => size_okb size
  | Memalign b size => size_okb size && (0 <=? b) && (b <? 2 ^ 32) && (Z.land b (u32 (b - 1)) =? 0)
  | Calloc n k => (0 <=? n) && (0 <=? k) && size_okb (n * k)
  | Realloc None size => size_okb size
  | Realloc (Some p) size => holds w p size && (0 <=? size) && (size <? 2 ^ 31)
  | Free None => true
  | Free (Some p) => holds w p 0
  | DelayedFree p => holds w p list_node_size
  | Trim => true
  end.

(** The block a call gives up. *)
Definition gives_up (o : op) (q : Z) : Prop :=
  match o with Realloc (Some p) _ | Free (Some p) | DelayedFree p => q = p | _ => False end.

Lemma holds_usable w p n : holds w p n = true -> exists h, usable w p h /\ p + n <= block_end h.
Proof. unfold holds, usable. destruct (hdrs w !! p) as [h|]; [|done]. intros Hh. bool_prop. eauto. Qed.

(** After an allocation from a drained heap. *)
Lemma alloc_kept w s' size al r : Inv w -> delayed_free_list w = [] ->
  alloc_result F ilo ihi (the_heap w) size al r s' ->
  Inv (MkState s' []) /\ kept (fun _ => False) w (MkState s' []).
Proof.
  intros Hi Hd (Hi' & Hm & Hr). split; [split; cbn; [done|constructor|set_solver]|].
  intros q h [Hq Hn] _. cbn. split; [|by rewrite Hm]. split; [|apply not_elem_of_nil]. cbn. destruct r as [p|].
  - destruct Hr as (h' & Hf & -> & _). rewrite lookup_insert_ne; [done|]. congruence.
  - by rewrite Hr.
Qed.

(** Writing into one block keeps the others. *)
Lemma write_kept w s' p h l : inv s' -> h_headers s' !! p = Some h -> p + Z.of_nat (length l) <= block_end h ->
  Forall Mem.byte l -> kept (fun _ => False) w (MkState s' []) -> hdrs w !! p = None ->
  Inv (MkState (with_mem (Mem.put (h_mem s') p l) s') []) /\
  kept (fun _ => False) w (MkState (with_mem (Mem.put (h_mem s') p l) s') []).
Proof.
  intros Hi Hp Hroom Hl Hk Hnone. split; [split; cbn; [by apply mem_inv|constructor|set_solver]|].
  intros q k Hq Hr. destruct (Hk q k Hq Hr) as [Hq' Hb]. split; [done|]. intros x Hx. cbn. rewrite <- (Hb x Hx). cbn.
  destruct Hq' as [Hq' _]. cbn in Hq'. apply Mem.put_lookup_out.
  assert (q ≠ p) as Hne by (intros ->; destruct Hq; congruence).
  pose proof (blocks_apart s' q p k h x Hi Hq' Hp Hne Hx). lia.
Qed.

Lemma alloc_call_wp w size al : Inv w -> delayed_free_list w = [] -> 0 <= size <= 2 ^ 62 -> align_ok al ->
  wp (on_heap (miniheap_alloc F size al)) w (fun r w' => Inv w' /\ delayed_free_list w' = [] /\
    kept (fun _ => False) w w' /\ alloc_result F ilo ihi (the_heap w) size al r (the_heap w') /\
    (r = None -> forall c, c ∈ h_free_list (the_heap w') -> c.2 < (chunk_size size al).1)).
Proof.
  intros Hi Hd Hs Hal. apply wp_on_heap. rewrite Hd.
  eapply wp_mono; [by apply (miniheap_alloc_wp F ilo ihi _ size al (inv_heap _ Hi))|].
  intros r s' [Hr Hn]. destruct (alloc_kept w s' size al r Hi Hd Hr). by split_and!.
Qed.

Lemma calloc_call_wp w n k : Inv w -> delayed_free_list w = [] -> 0 <= n * k <= 2 ^ 62 ->
  wp (HEAP_CALLOC F n k) w (fun r w' => Inv w' /\ kept (fun _ => False) w w' /\
    forall p, r = Some p -> Mem.bytes_at (bytes w') p (replicate (Z.to_nat (n * k)) 0) /\
      hdrs w !! p = None /\ exists h, usable w' p h).
Proof.
  intros Hi Hd Hs. unfold HEAP_CALLOC. rewrite uw_small by lia. cbn zeta. wp_step.
  eapply wp_mono; [apply (alloc_call_wp w (n * k) 0 Hi Hd Hs); by split; [lia|]|].
  intros [p|] w' (Hi' & Hd' & Hk & Hr & _); [|by wp_step]. destruct Hr as (Hih & Hm & h & Hf & Hh & Hlo & Hroom & _).
  wp_step. apply wp_on_heap, wp_on_mem. rewrite <- (Z2Nat.id (n * k)) at 1 by lia.
  assert (hdrs w' !! p = Some h) as Hp by (rewrite Hh; apply lookup_insert_eq).
  eapply wp_mono; [apply memset_wp; eapply block_mapped; [done..|]; lia|].
  intros _ m' [_ ->]. wp_step. rewrite Hd'. change (u8 0) with 0.
  destruct w' as [s' d']. cbn in Hd'. subst d'. cbn [the_heap] in *.
  edestruct (write_kept w s' p h (replicate (Z.to_nat (n * k)) 0)) as [H1 H2]; try done.
  - rewrite length_replicate. unfold block_end. lia.
  - apply Forall_replicate. unfold Mem.byte. lia.
  - split_and!; [done..|]. intros ? [= <-]. split; [apply Mem.put_bytes_at|]. split; [done|].
    exists h. split; [done|]. apply not_elem_of_nil.
Qed.

Lemma usable_inv w p h : usable w p h -> hdrs w !! p = Some h.
Proof. by intros [? _]. Qed.

Lemma free_call_wp w p h : Inv w -> usable w p h ->
  wp (free F (Some p)) w (fun _ w' => Inv w' /\ kept (fun q => q = p) w w').
Proof.
  intros [Hi Hnd Hl] [Hp Hn]. apply wp_on_heap.
  eapply wp_mono; [by apply (miniheap_free_wp F ilo ihi _ p h)|]. intros _ s (Hi' & fl' & _ & ->). split.
  - split; cbn; [done..|]. intros q Hq. rewrite lookup_delete_ne by (intros ->; done). auto.
  - intros q k [Hq Hnq] Hne. cbn. split; [|done]. split; [|done]. cbn. by rewrite lookup_delete_ne by (intros ->; done).
Qed.

Lemma delayed_call_wp w p h : Inv w -> usable w p h ->
  wp (heap_delayed_free p) w (fun _ w' => Inv w' /\ kept (fun q => q = p) w w').
Proof.
  intros [Hi Hnd Hl] [Hp Hn]. unfold heap_delayed_free, set_delayed. wp_step. split.
  - split; cbn; [done|by apply NoDup_cons|]. intros q [->|Hq]%elem_of_cons; eauto.
  - intros q k [Hq Hnq] Hne. cbn. split; [|done]. split; [done|]. cbn. set_solver.
Qed.

Lemma trim_call_wp w : Inv w -> wp HEAP_TRIM w (fun _ w' => Inv w' /\ kept (fun _ => False) w w').
Proof.
  intros [Hi Hnd Hl]. apply wp_on_heap. eapply wp_mono; [by apply miniheap_trim_wp|].
  intros _ s (rs & (Hi' & Hh & Hm & _) & _). split.
  - split; cbn; [done..|]. by rewrite Hh.
  - intros q k [Hq Hnq] _. cbn. rewrite Hm. split; [|done]. split; [|done]. cbn. by rewrite Hh.
Qed.

(** [realloc] of a block the client holds. *)
Lemma realloc_call_wp w p h size : Inv w -> delayed_free_list w = [] -> usable w p h -> 0 <= size < 2 ^ 31 ->
  p + size <= block_end h ->
  wp (HEAP_REALLOC F (Some p) size) w (fun _ w' => Inv w' /\ kept (fun q => q = p) w w').
Proof.
  intros Hi Hd Hu Hs Hroom. unfold HEAP_REALLOC. destruct (decide (size = 0)) as [->|Hne].
  - pose proof (free_call_wp w p h Hi Hu) as Hf. unfold free, HEAP_FREE in Hf. revert Hf.
    unfold miniheap_realloc. cbn [Z.eqb]. unfold on_heap, wp, mbind, M_bind.
    by destruct (miniheap_free F (Some p) (the_heap w)) as [[[] s]|].
  - destruct Hi as [Hi Hnd Hl]. destruct Hu as [Hp Hn]. apply wp_on_heap. rewrite Hd, <- (Z2Nat.id size) by lia.
    eapply wp_mono; [apply (miniheap_realloc_wp _ p h (Z.to_nat size) Hi Hp); unfold block_end in *; lia|].
    intros [p'|] s' [Hi' Hr].
    + destruct Hr as (h' & l & Hf & Hh & Hr & Hlen & Hb & Hm). split; [split; cbn; [done|constructor|set_solver]|].
      intros q k [Hq Hnq] Hqp. cbn. assert (q ≠ p') as Hqp' by (intros ->; congruence).
      assert (h_headers s' !! q = Some k) as Hq' by (rewrite Hh, lookup_insert_ne, lookup_delete_ne by congruence; done).
      split; [split; [done|apply not_elem_of_nil]|]. intros x Hx. rewrite Hm. apply Mem.put_lookup_out.
      assert (h_headers s' !! p' = Some h') as Hp' by (rewrite Hh; apply lookup_insert_eq).
      pose proof (blocks_apart s' q p' k h' x Hi' Hq' Hp' Hqp' Hx). unfold block_end in *. lia.
    + destruct Hr as [Hh Hm]. split; [split; cbn; [done|constructor|set_solver]|].
      intros q k [Hq Hnq] Hqp. cbn. rewrite Hm. split; [split; cbn; [by rewrite Hh|apply not_elem_of_nil]|done].
Qed.

Lemma heap_call_wp w o : Inv w -> op_ok w o = true ->
  wp (run_op o) w (fun _ w' => Inv w' /\ kept (gives_up o) w w').
Proof.
  intros Hi Hok.
  assert (forall {A} (m : M (state P) A) (rel : Z -> Prop),
    (forall w', Inv w' -> delayed_free_list w' = [] -> kept (fun _ => False) w w' ->
      wp m w' (fun _ w2 => Inv w2 /\ kept rel w' w2)) ->
    wp (drain F) w (fun _ w' => wp m w' (fun _ w2 => Inv w2 /\ kept rel w w2))) as Hdrain.
  { intros A m rel Hm. eapply wp_mono; [by apply drain_kept|]. intros _ w' (Hi' & Hd & Hk & _).
    eapply wp_mono; [by apply Hm|]. intros _ w2 [H1 H2]. split; [done|].
    eapply kept_trans; [|exact H2]. eapply kept_weaken; [|exact Hk]. done. }
  destruct o as [size|b size|n k|[p|] size|[p|]|p|]; cbn [run_op op_ok gives_up] in *; unfold size_okb in *; bool_prop.
  - unfold malloc, HEAP_MALLOC. wp_step. apply Hdrain. intros w' Hi' Hd _.
    eapply wp_mono; [apply (alloc_call_wp w' size 0 Hi' Hd); [lia|by split; [lia|]]|]. by intros ? ? (? & ? & ? & _).
  - unfold memalign, HEAP_MEMALIGN. wp_step. apply Hdrain. intros w' Hi' Hd _. rewrite (uw_small 32 b) by lia.
    eapply wp_mono; [apply (alloc_call_wp w' size b Hi' Hd); [lia|by split; [lia|]]|]. by intros ? ? (? & ? & ? & _).
  - unfold calloc. wp_step. apply Hdrain. intros w' Hi' Hd _.
    eapply wp_mono; [apply (calloc_call_wp w' n k Hi' Hd); lia|]. by intros ? ? (? & ? & _).
  - match goal with Hh : holds _ _ _ = true |- _ => apply holds_usable in Hh as (h & Hu & Hroom) end. unfold realloc. wp_step. apply Hdrain. intros w' Hi' Hd Hk.
    apply (realloc_call_wp w' p h); try done. exact (proj1 (Hk p h Hu id)).
  - unfold realloc, HEAP_REALLOC. wp_step. apply Hdrain. intros w' Hi' Hd _. cbn [miniheap_realloc].
    eapply wp_mono; [apply (alloc_call_wp w' size 0 Hi' Hd); [lia|by split; [lia|]]|]. by intros ? ? (? & ? & ? & _).
  - apply holds_usable in Hok as (h & Hu & _). wp_step. eapply wp_mono; [by apply (free_call_wp w p h)|].
    intros ? w' ?. by wp_step.
  - wp_step. unfold free, HEAP_FREE. apply wp_on_heap. cbn [miniheap_free]. wp_step. destruct w. cbn. split; [done|].
    by intros q h Hq _.
  - apply holds_usable in Hok as (h & Hu & _). wp_step. eapply wp_mono; [by apply (delayed_call_wp w p h)|].
    intros ? w' ?. by wp_step.
  - unfold heap_trim. wp_step. apply Hdrain. intros w' Hi' Hd _.
    eapply wp_mono; [by apply trim_call_wp|]. intros ? w2 ?. by wp_step.
Qed.

Fixpoint run_ops (os : list op) w : option (state P) :=
  match os with
  | [] => Some w
  | o :: os => match run_op o w with Some (_, w) => run_ops os w | None => None end
  end.
Fixpoint legal (os : list op) w : bool :=
  match os with
  | [] => true
  | o :: os => op_ok w o && match run_op o w with Some (_, w) => legal os w | None => true end
  end.

(** * Properties *)

Lemma run_ops_kept os w : Inv w -> legal os w = true ->
  exists w', run_ops os w = Some w' /\ Inv w' /\ kept (fun q => exists o, o ∈ os /\ gives_up o q) w w'.
Proof.
  revert w. induction os as [|o os IH]; intros w Hi Hok; cbn [run_ops legal] in *.
  - exists w. split_and!; [done..|]. by intros q h Hq _.
  - bool_prop. match goal with Hh : op_ok _ _ = true |- _ => pose proof (heap_call_wp w o Hi Hh) as Hw end.
    unfold wp in Hw. destruct (run_op o w) as [[r w1]|]; [|done]. destruct Hw as [Hi1 Hk1].
    destruct (IH w1 Hi1) as (w' & -> & Hi' & Hk'); [done|]. exists w'. split_and!; [done..|].
    eapply kept_trans; [eapply kept_weaken, Hk1|eapply kept_weaken, Hk']; intros q; [exists o|intros (o' & ? & ?); exists o']; set_solver.
Qed.

(** C16. Any sequence of malloc, memalign, calloc, realloc, free, heap_delayed_free and
    heap_trim whose arguments respect the client's side (sizes below 2^62, blocks it
    holds, a reallocation within the block) runs without a failed assertion or a bad
    access and keeps the heap invariant: free chunks sorted, apart, merged and exactly
    accounted, blocks disjoint from them and from each other, all of them in memory the
    page allocator granted; every block the client did not give up is still its own, with
    its bytes unchanged. *)
Theorem heap_calls_safe os w :
  Inv w -> legal os w = true ->
  exists w', run_ops os w = Some w' /\ Inv w' /\ kept (fun q => exists o, o ∈ os /\ gives_up o q) w w'.
Proof. apply run_ops_kept. Qed.

(** What an allocation promises of its result. *)
Definition granted w (boundary size : Z) (r : option Z) w' : Prop :=
  match r with
  | Some p => (0 < boundary -> p mod boundary = 0) /\ Mem.mapped (bytes w') p (Z.to_nat size) /\
      (exists h, usable w' p h /\ p + size <= block_end h) /\
      forall q h x, usable w q h -> p <= x < p + size -> ~ q <= x < block_end h
  | None => forall c, c ∈ h_free_list (the_heap w') -> c.2 < (chunk_size size boundary).1
  end.

Lemma memalign_wp w boundary size : Inv w -> 0 <= size <= 2 ^ 62 -> align_ok boundary ->
  wp (memalign F boundary size) w (granted w boundary size).
Proof.
  intros Hi Hs Hal. unfold memalign, HEAP_MEMALIGN. wp_step. eapply wp_mono; [by apply drain_kept|].
  intros _ w1 (Hi1 & Hd1 & Hk1 & _). rewrite (uw_small 32 boundary) by apply Hal.
  eapply wp_mono; [by apply (alloc_call_wp w1 size boundary Hi1 Hd1)|].
  intros [p|] w2 (Hi2 & Hd2 & Hk2 & Hr & Hn); [|exact (Hn eq_refl)].
  destruct Hr as (_ & _ & h & Hf & Hh & Hlo & Hroom & Hb). split; [done|].
  assert (hdrs w2 !! p = Some h) as Hp by (rewrite Hh; apply lookup_insert_eq). pose proof (inv_heap _ Hi2) as Hih.
  split; [eapply block_mapped; [done..|]; lia|]. split.
  { exists h. split; [split; [done|rewrite Hd2; apply not_elem_of_nil]|done]. }
  intros q k x Hq Hx. destruct (Hk1 q k Hq id) as [Hq1 _]. destruct (Hk2 q k Hq1 id) as [[Hq2 _] _].
  apply (blocks_apart _ p q h k x Hih Hp Hq2); [intros ->; destruct Hq1; congruence|unfold block_end; lia].
Qed.


(** C18. When a chunk of the free list is large enough, an allocation followed by the release
    of the block restores the heap exactly: the same free list, the remainder of the chunk
    merged back on both sides, the same counters and headers. *)
Theorem alloc_free_restores s size al :
  inv s -> 0 <= size <= 2 ^ 62 -> align_ok al ->
  (exists c, c ∈ h_free_list s /\ (chunk_size size al).1 <= c.2) ->
  exists p s1, miniheap_alloc F size al s = Some (Some p, s1) /\ h_remaining s1 < h_remaining s /\
    miniheap_free F (Some p) s1 = Some (tt, s).
Proof.
  intros Hi Hs Hal (c0 & Hc0 & Hle0).
  assert (wp (miniheap_alloc F size al) s (fun r s1 => exists p, r = Some p /\ h_remaining s1 < h_remaining s /\
    miniheap_free F (Some p) s1 = Some (tt, s))) as Hw;
    [|by apply wp_run in Hw as (r & s1 & Hm & p & -> & Hrest); exists p, s1].
  pose proof (chunk_size_spec size al Hs Hal) as Hcs. unfold miniheap_alloc.
  rewrite (proj2 Hal). cbn [Z.eqb negb]. destruct (chunk_size size al) as [sz al']. cbn [fst] in Hle0.
  destruct Hcs as (Hso & _). wp_step. eapply wp_mono; [by apply (alloc_try_wp F ilo ihi)|]. intros [p|] s1.
  - intros (Hi1 & Hnone & _ & c & fl' & -> & Hok & Hle & _ & Hch & Hcov & Hin). wp_step. exists p. split; [done|].
    set (h := MkAlloc c.1 c.2). assert (h_headers (handed_out s p c fl') !! p = Some h) as Hp by apply lookup_insert_eq.
    pose proof (miniheap_free_wp F ilo ihi _ p h Hi1 Hp) as Hf. apply wp_run in Hf as ([] & s2 & -> & Hi2 & fl2 & Hins & ->).
    destruct Hins as (Hch2 & Hcov2 & Htot2). cbn in Hch2, Hcov2.
    change (total fl2 = total fl' + c.2) in Htot2.
    assert (fl2 = h_free_list s) as ->.
    { apply (chain_ext _ 0); [done|apply (hi_chain _ _ _ _ Hi)|]. intros x. rewrite Hcov2, Hcov. specialize (Hin x).
      unfold block, h in *. cbn in *. destruct (decide (in_chunk c x)); destruct c; tauto. }
    pose proof (chunk_len_pos _ Hok). split.
    { change (total fl' < h_remaining s). rewrite (hi_remaining _ _ _ _ Hi). lia. }
    pose proof (hi_remaining _ _ _ _ Hi2) as Hrem. cbn [h_remaining h_free_list with_free_list with_remaining] in Hrem.
    rewrite Hrem, <- (hi_remaining _ _ _ _ Hi). cbn [h_headers handed_out with_headers].
    rewrite delete_insert_id by done. by destruct s.
  - intros [-> Hno]. specialize (Hno c0 Hc0). lia.
Qed.


(** C21. miniheap_trim gives back to the page allocator whole pages only, all of their bytes
    free, and among them every page of a free chunk that leaves on each side of it nothing
    or room for a chunk header; it keeps every other free byte in the list, every block
    and all memory, reduces the counter of free memory by exactly the bytes given back,
    and leaves exactly those pages free in the allocator. *)
Theorem trim_returns_pages s :
  inv s -> exists rs s', miniheap_trim s = Some (tt, s') /\ inv s' /\ h_headers s' = h_headers s /\ h_mem s' = h_mem s /\
    Forall (fun r => r.1 mod PAGE_SIZE = 0 /\ r.2 mod PAGE_SIZE = 0) rs /\
    (forall x, covers (h_free_list s) x <-> covers (h_free_list s') x \/ covers rs x) /\
    h_remaining s = h_remaining s' + total rs /\
    (forall q, pa_busy (h_pages s') q <-> pa_busy (h_pages s) q /\ ~ covers rs q) /\
    (forall c p, c ∈ h_free_list s -> gives_page c.1 (c.1 + c.2) p -> forall x, p <= x < p + PAGE_SIZE -> covers rs x).
Proof.
  intros Hi. destruct (proj1 (wp_run _ _ _) (miniheap_trim_wp F ilo ihi s Hi)) as ([] & s' & Hr & rs & (Hi' & Hh & Hm & Hpg & Hcov & Htot & Hb) & Hall).
  exists rs, s'. rewrite (hi_remaining _ _ _ _ Hi), (hi_remaining _ _ _ _ Hi'). by split_and!.
Qed.

End props.

(** * Starting the heap *)

Section init.
Context {P : Type} `{PageAllocLaws P}.
Context (F : Z).

(** The memory the page allocator hands out to start with: words away from the
    list head and from its pages, less than a page. *)
Record first_area (m : Mem.mem) (ps : P) (p len : Z) : Prop := {
  fa_pos : 0 < p;
  fa_align : p mod 8 = 0 /\ len mod 8 = 0;
  fa_min : free_chunk_size <= len;
  fa_top : p + len <= 2 ^ 64 - PAGE_SIZE;
  fa_head : ~ p <= F - 1 < p + len;
  fa_mapped x : p <= x < p + len -> is_Some (m !! x);
  fa_bytes x b : m !! x = Some b -> Mem.byte b;
  fa_wf : pa_wf ps;
  fa_managed q x : pa_managed ps q -> q <= x < q + PAGE_SIZE ->
    0 < x < 2 ^ 64 - PAGE_SIZE /\ x ≠ F - 1 /\ is_Some (m !! x) /\ ~ p <= x < p + len;
  fa_page q : q mod PAGE_SIZE = 0 -> p <= q -> q + PAGE_SIZE <= p + len -> False;
}.

Lemma heap_init_wp (w : state P) ps p len :
  h_headers (the_heap w) = ∅ -> delayed_free_list w = [] ->
  page_first_alloc (h_pages (the_heap w)) = Some ((Some p, len), ps) -> first_area (h_mem (the_heap w)) ps p len ->
  wp (heap_init F) w (fun _ w' => Inv F p (p + len) w' /\ h_free_list (the_heap w') = [(p, len)] /\
    h_remaining (the_heap w') = len).
Proof.
  intros Hh Hd Hp []. unfold heap_init, HEAP_INIT. wp_step. apply wp_on_heap. unfold wp at 1, on_pages. rewrite Hp.
  cbn [fst snd default]. destruct fa_align0 as [Hp8 Hl8]. unfold free_chunk_size in *. rewrite PAGE_SIZE_eq in fa_top0.
  apply wp_on_heap. unfold miniheap_init, heap_create_free_chunk. wp_step. cbn [the_heap delayed_free_list].
  rewrite (proj2 (Z.ltb_lt 0 len)) by lia. wp_step. split; [by apply Z.eqb_eq|]. wp_step.
  assert (chunk_ok (p, len)) as Hok by (split; cbn; unfold free_chunk_size; lia).
  eapply wp_mono; [apply (insert_wp F _ (p, len)); [done|done| |]|].
  - intros x Hx (c & Hc & _). by apply not_elem_of_nil in Hc.
  - cbn. lia.
  - intros _ s' (fl' & (Hch & Hcov & Htot) & ->). wp_step. cbn. change (total fl' = 0 + len) in Htot.
    assert (fl' = [(p, len)]) as ->.
    { apply (chain_ext _ 0); [done|cbn; split_and!; try done; lia|]. intros x. rewrite Hcov. split.
      - intros [(c & Hc & _)|Hx]; [by apply not_elem_of_nil in Hc|]. exists (p, len). split; [set_solver|done].
      - intros (c & Hc & Hx). apply list_elem_of_singleton in Hc as ->. by right. }
    rewrite uw_small by lia. split; [|done]. split; cbn; [|rewrite Hd; constructor|rewrite Hd; set_solver].
    assert (forall x, ~ live (with_free_list [(p, len)] (with_remaining (0 + len) (with_low_watermark 0 (with_remaining 0
      (with_range p len (with_free_list [] (with_pages ps (the_heap w)))))))) x) as Hnl.
    { intros x (ptr & h & Hl & _). cbn in Hl. by rewrite Hh in Hl. }
    split; cbn; try done.
    + by rewrite Hh.
    + by rewrite Hh.
    + intros x [(c & Hc & Hx)|Hl]; [|by apply Hnl in Hl]. cbn in Hc. apply list_elem_of_singleton in Hc as ->.
      unfold in_chunk in Hx. cbn in Hx. unfold owned. split; [rewrite PAGE_SIZE_eq; lia|]. split; [lia|]. split; [cbn; auto|]. right. lia.
Qed.

(** C22. heap_init, when page_first_alloc returns an area, establishes the heap invariant with
    one free chunk, the area. The area's start and length are multiples of a word and its
    length at least a chunk header; it is mapped memory below the last page, away from the
    list head and from every page that the page allocator manages, and holds no whole page
    of its own. An area taken from the managed pages, the fallback of
    novm_alloc_unaligned, is not covered. *)
Theorem heap_init_ready (w : state P) ps p len :
  h_headers (the_heap w) = ∅ -> delayed_free_list w = [] ->
  page_first_alloc (h_pages (the_heap w)) = Some ((Some p, len), ps) -> first_area (h_mem (the_heap w)) ps p len ->
  exists w', heap_init F w = Some (tt, w') /\ Inv F p (p + len) w' /\ h_free_list (the_heap w') = [(p, len)] /\
    h_remaining (the_heap w') = len.
Proof.
  intros Hh Hd Hp Ha. destruct (proj1 (wp_run _ _ _) (heap_init_wp w ps p len Hh Hd Hp Ha)) as ([] & w' & Hr & Hrest). by exists w'.
Qed.
End init.

End HeapProps.
