(* ===== verification/HeapSample.v ===== *)
(** A small system on which the heap's theorems are evaluated. *)
From S2P Require Import Prelude Mem CString CStringProps Page Novm NovmProps Miniheap MiniheapInv Heap HeapProps.
Local Open Scope Z_scope.

Module HeapSample.
Import Page Novm NovmProps CStringProps Miniheap MiniheapInv Heap HeapProps.

(** One page at 1 MiB, with 256 bytes below it to start with. *)
Definition area : Z := 0xFFF00.
Definition one_page : novm_arena := MkArena 1 0x2000 [0] 0x100000 0x1000 (Some area) 256.
Definition sample_bytes : Mem.mem := Mem.put ∅ area (replicate (Z.to_nat (256 + 4096)) 0).
Definition sample_start : state arenas := MkState (MkHeap 0 0 0 0 [] ∅ sample_bytes [one_page]) [].
Definition after_init : state arenas :=
  match heap_init 8 sample_start with Some (_, w) => w | None => sample_start end.

Lemma sample_mapped x : area <= x < area + 256 + 4096 -> is_Some (sample_bytes !! x).
Proof.
  intros Hx. unfold sample_bytes. rewrite put_lookup, length_replicate, Z2Nat.id by lia.
  rewrite decide_True by lia. rewrite lookup_replicate_2; [by eexists|]. lia.
Qed.

Lemma sample_byte x b : sample_bytes !! x = Some b -> Mem.byte b.
Proof.
  unfold sample_bytes. rewrite put_lookup. case_decide; [|by rewrite lookup_empty].
  intros [-> _]%lookup_replicate. unfold Mem.byte. lia.
Qed.

Lemma one_page_wf : wf [set_unaligned None 0 one_page].
Proof.
  split.
  - intros i n Hn. apply list_lookup_singleton_Some in Hn as [_ <-].
    split; vm_compute; (reflexivity || (intros; reflexivity) || (split; [discriminate|reflexivity])).
  - intros i j n k Hi Hj Hne. apply list_lookup_singleton_Some in Hi as [-> _]. by apply list_lookup_singleton_Some in Hj as [-> _].
Qed.

Lemma area_ok (m : Mem.mem) : (forall x, area <= x < area + 256 + 4096 -> is_Some (m !! x)) ->
  (forall x b, m !! x = Some b -> Mem.byte b) -> first_area 8 m [set_unaligned None 0 one_page] area 256.
Proof.
  intros Hmap Hb. split; try done; unfold area in *; rewrite ?PAGE_SIZE_eq.
  - lia.
  - intros x Hx. apply Hmap. lia.
  - exact one_page_wf.
  - intros q x (i & k & c & n & Hn & Hk & ->) Hx. apply list_lookup_singleton_Some in Hn as [_ <-].
    cbn in Hk. apply list_lookup_singleton_Some in Hk as [-> _]. cbn [base set_unaligned one_page] in Hx.
    split; [lia|]. split; [lia|]. split; [apply Hmap; lia|lia].
  - intros q Hq. rewrite Z.mod_eq in Hq by lia. lia.
Qed.

Lemma sample_area : first_area 8 sample_bytes [set_unaligned None 0 one_page] area 256.
Proof. exact (area_ok _ sample_mapped sample_byte). Qed.

Lemma first_memory : Page.page_first_alloc (h_pages (the_heap sample_start)) =
  Some ((Some area, 256), [set_unaligned None 0 one_page]).
Proof. vm_compute. reflexivity. Qed.

Lemma after_init_inv : Inv 8 area (area + 256) after_init.
Proof.
  destruct (proj1 (wp_run _ _ _) (heap_init_wp 8 sample_start [set_unaligned None 0 one_page] area 256 eq_refl eq_refl
    first_memory sample_area)) as ([] & w & Hr & Hi & _). unfold after_init. by rewrite Hr.
Qed.

Lemma heap_init_ready_witness :
  first_area 8 sample_bytes [set_unaligned None 0 one_page] area 256 /\
  exists w', heap_init 8 sample_start = Some (tt, w') /\ h_free_list (the_heap w') = [(area, 256)].
Proof.
  split; [exact sample_area|].
  destruct (heap_init_ready 8 sample_start [set_unaligned None 0 one_page] area 256 eq_refl eq_refl first_memory sample_area)
    as (w' & Hr & _ & Hf & _). exists w'. exact (conj Hr Hf).
Defined.

(** Two blocks from the first area, one from the page, releases of each kind, a
    trim that gives the page back. *)
Definition sample_calls : list op :=
  [Malloc 40; Memalign 32 16; Calloc 20 100; Free (Some (area + 24)); Realloc None 8; DelayedFree (area + 96);
   Free (Some (area + 160)); Realloc (Some (area + 24)) 4; Trim].

Lemma sample_calls_legal : legal 8 sample_calls after_init = true.
Proof. vm_compute. reflexivity. Qed.

Definition after_calls (os : list op) : state arenas := default after_init (run_ops 8 os after_init).

Lemma after_calls_inv os : legal 8 os after_init = true -> Inv 8 area (area + 256) (after_calls os).
Proof.
  intros Hl. destruct (run_ops_kept 8 area (area + 256) os after_init after_init_inv Hl) as (w & Hr & Hi & _).
  unfold after_calls. by rewrite Hr.
Qed.

Lemma heap_calls_safe_witness : legal 8 sample_calls after_init = true /\
  exists w', run_ops 8 sample_calls after_init = Some w' /\ Inv 8 area (area + 256) w'.
Proof.
  split; [exact sample_calls_legal|].
  destruct (heap_calls_safe 8 area (area + 256) sample_calls after_init after_init_inv sample_calls_legal) as (w' & Hr & Hi & _).
  exists w'. exact (conj Hr Hi).
Defined.

Lemma align_32 : align_ok 32.
Proof. by split. Qed.


Lemma room_for_40 : exists c, c ∈ h_free_list (the_heap after_init) /\ (chunk_size 40 32).1 <= c.2.
Proof.
  assert (h_free_list (the_heap after_init) = [(area, 256)]) as -> by (vm_compute; reflexivity).
  exists (area, 256). split; [set_solver|]. vm_compute. discriminate.
Qed.

Lemma alloc_free_restores_witness : exists p s1, miniheap_alloc 8 40 32 (the_heap after_init) = Some (Some p, s1) /\
  miniheap_free 8 (Some p) s1 = Some (tt, the_heap after_init).
Proof.
  destruct (alloc_free_restores 8 area (area + 256) (the_heap after_init) 40 32 (inv_heap _ _ _ _ after_init_inv)
    ltac:(lia) align_32 room_for_40) as (p & s1 & Ha & _ & Hf).
  exists p, s1. exact (conj Ha Hf).
Defined.

Lemma first_block : h_headers (the_heap (after_calls [Malloc 40])) !! (area + 24) = Some (MkAlloc area 64).
Proof. vm_compute. reflexivity. Qed.


Lemma free_page : (1048384, 4288) ∈ h_free_list (the_heap (after_calls (take 8 sample_calls))) /\
  gives_page 1048384 (1048384 + 4288) 0x100000.
Proof.
  assert (h_free_list (the_heap (after_calls (take 8 sample_calls))) = [(1048320, 32); (1048384, 4288)]) as -> by (vm_compute; reflexivity).
  split; [set_solver|]. unfold gives_page. rewrite PAGE_SIZE_eq. unfold free_chunk_size. split; [done|]. lia.
Qed.

Lemma trim_returns_pages_witness : exists s', miniheap_trim (the_heap (after_calls (take 8 sample_calls))) = Some (tt, s') /\
  heap_inv 8 area (area + 256) s' /\ ~ pa_busy (h_pages s') 0x100000.
Proof.
  destruct (trim_returns_pages 8 area (area + 256) (the_heap (after_calls (take 8 sample_calls)))
    (inv_heap _ _ _ _ (after_calls_inv (take 8 sample_calls) ltac:(vm_compute; reflexivity)))) as (rs & s' & Hr & Hi & _ & _ & _ & _ & _ & Hb & Hall).
  exists s'. split; [exact Hr|]. split; [exact Hi|]. intros Hq. destruct (proj1 (Hb 0x100000) Hq) as [_ Hn]. apply Hn.
  destruct free_page as [Hc Hg]. apply (Hall _ _ Hc Hg). rewrite PAGE_SIZE_eq. lia.
Defined.

(** ** Findings *)

(** The counter of the lowest amount of free memory starts at 0 and stays there. *)
Lemma low_watermark_stuck : h_low_watermark (the_heap after_init) = 0 /\
  h_low_watermark (the_heap (after_calls [Malloc 40])) = 0 /\ h_remaining (the_heap (after_calls [Malloc 40])) = 192.
Proof. vm_compute. auto. Qed.

(** A count and a size whose product wraps give a block that is too small. *)
Lemma calloc_overflows :
  option_map (fun r => (r.1, h_headers (the_heap r.2) !! (area + 24))) (calloc 8 (2 ^ 60) 32 after_init) =
    Some (Some (area + 24), Some (MkAlloc area 24)).
Proof. vm_compute. reflexivity. Qed.

(** A size near 2^64 wraps to a small one, so that the request succeeds. *)
Lemma huge_size_succeeds :
  option_map (fun r => (r.1, h_headers (the_heap r.2) !! (area + 24))) (malloc 8 (2 ^ 64 - 16) after_init) =
    Some (Some (area + 24), Some (MkAlloc area 24)).
Proof. vm_compute. reflexivity. Qed.
End HeapSample.
