(* ===== verification/Pow2.v ===== *)
(** [include/pow2.h]: powers of two for efficiency. *)
From S2P Require Import Prelude.
Local Open Scope Z_scope.

Module Pow2.

Definition ispow2 (val : Z) : bool := Z.land (u32 (val - 1)) val =? 0.

(** [32 - 1 - __builtin_clz(val)]. *)
Definition log2_uint (val : Z) : Z := if val =? 0 then 0 else Z.log2 val.

Definition valpow2 (valp2 : Z) : Z := u32 (Z.shiftl 1 valp2).
Definition divpow2 (val divp2 : Z) : Z := Z.shiftr val divp2.
(** The mask is an [unsigned long]. *)
Definition modpow2 (val modp2 : Z) : Z := u32 (Z.land val (u64 (Z.shiftl 1 modp2 - 1))).

Definition round_up_pow2_u32 (v : Z) : Z :=
  let v := u32 (v - 1) in
  let v := Z.lor v (Z.shiftr v 1) in
  let v := Z.lor v (Z.shiftr v 2) in
  let v := Z.lor v (Z.shiftr v 4) in
  let v := Z.lor v (Z.shiftr v 8) in
  let v := Z.lor v (Z.shiftr v 16) in
  u32 (v + 1).

Lemma valpow2_small p : 0 <= p < 32 -> valpow2 p = 2 ^ p.
Proof.
  intros Hp. unfold valpow2. rewrite Z.shiftl_1_l. apply uw_small.
  split; [lia|]. apply Z.pow_lt_mono_r; lia.
Qed.

Lemma modpow2_spec v p : 0 <= p < 32 -> 0 <= v -> modpow2 v p = v mod 2 ^ p.
Proof.
  intros Hp Hv. unfold modpow2. rewrite Z.shiftl_1_l.
  assert (2 ^ p < 2 ^ 32) by (apply Z.pow_lt_mono_r; lia). assert (0 < 2 ^ p) by lia.
  rewrite (uw_small 64 (2 ^ p - 1)) by lia. replace (2 ^ p - 1) with (Z.ones p) by (rewrite Z.ones_equiv; lia).
  rewrite Z.land_ones by lia. apply uw_small. pose proof (Z.mod_pos_bound v (2 ^ p)). lia.
Qed.

Lemma ispow2_spec v : 0 < v < 2 ^ 32 -> ispow2 v = true <-> v = 2 ^ Z.log2 v.
Proof.
  intros Hv. unfold ispow2. rewrite uw_small, Z.eqb_eq by lia. pose proof (Z.log2_spec v ltac:(lia)) as Hl.
  assert (0 <= Z.log2 v) as Hl0 by apply Z.log2_nonneg. split.
  - intros Hz. destruct (Z.eq_dec v (2 ^ Z.log2 v)) as [?|Hne]; [done|exfalso].
    assert (Z.testbit (Z.land (v - 1) v) (Z.log2 v) = true) as Hb; [|by rewrite Hz, Z.bits_0 in Hb].
    assert (Z.log2 (v - 1) = Z.log2 v) as Hl1.
    { apply Z.log2_unique; [done|]. lia. }
    rewrite Z.land_spec, Z.bit_log2, andb_true_r by lia. rewrite <- Hl1. apply Z.bit_log2. lia.
  - intros E. rewrite E. replace (2 ^ Z.log2 v - 1) with (Z.ones (Z.log2 v)) by (rewrite Z.ones_equiv; lia).
    rewrite Z.land_comm, Z.land_ones by done. apply Z_mod_same_full.
Qed.

End Pow2.
