(* ===== verification/Cbuf.v ===== *)
(** The circular buffer of [lib/cbuf/cbuf.c], over byte memory and an event. *)
From S2P Require Import Prelude Mem CString Pow2 WaitLib.
Local Open Scope Z_scope.

Module Cbuf.
Import Pow2 EventLib.

(** The indices and the place of the data; the event lives in the system. *)
Record cbuf_t := MkCbuf { head : Z; tail : Z; len_pow2 : Z; buf : Z }.

Record state (K : Type) := MkState { c_buf : cbuf_t; c_mem : Mem.mem; c_sys : K }.
Arguments MkState {K}.
Arguments c_buf {K}.
Arguments c_mem {K}.
Arguments c_sys {K}.

(** A base address (NULL is [None]) and a length. *)
Record iovec_t := MkIovec { iov_base : option Z; iov_len : Z }.

Definition cbuf_size (c : cbuf_t) : Z := Z.shiftl 1 (len_pow2 c).
Definition INC_POINTER (c : cbuf_t) (ptr inc : Z) : Z := modpow2 (u32 (ptr + inc)) (len_pow2 c).
Definition cbuf_space_used (c : cbuf_t) : Z := modpow2 (u32 (head c - tail c)) (len_pow2 c).
Definition cbuf_space_avail (c : cbuf_t) : Z :=
  let consumed := modpow2 (u32 (head c - tail c)) (len_pow2 c) in
  u32 (valpow2 (len_pow2 c) - consumed - 1).

Section cbuf.
Context {K : Type} `{EventOps K}.

Abbreviation CM := (M (state K)).

Definition on_mem {A} (m : M Mem.mem A) : CM A := fun s =>
  match m (c_mem s) with Some (a, x) => Some (a, MkState (c_buf s) x (c_sys s)) | None => None end.
Definition on_sys {A} (m : M K A) : CM A := fun s =>
  match m (c_sys s) with Some (a, x) => Some (a, MkState (c_buf s) (c_mem s) x) | None => None end.
Definition set_cbuf (f : cbuf_t -> cbuf_t) : CM unit := modify (fun s => MkState (f (c_buf s)) (c_mem s) (c_sys s)).
Definition set_head (x : Z) : CM unit := set_cbuf (fun c => MkCbuf x (tail c) (len_pow2 c) (buf c)).
Definition set_tail (x : Z) : CM unit := set_cbuf (fun c => MkCbuf (head c) x (len_pow2 c) (buf c)).

Definition cbuf_initialize_etc (len b : Z) : CM unit :=
  _ ← assert_ (0 <? len);
  _ ← assert_ (ispow2 (u32 len));
  _ ← set_cbuf (fun _ => MkCbuf 0 0 (log2_uint (u32 len)) b);
  on_sys ev_init.

(** [malloc] returned [b]. *)
Definition cbuf_initialize (len b : Z) : CM unit := cbuf_initialize_etc len b.

(** The bytes one pass of [cbuf_write] copies. *)
Definition write_len (c : cbuf_t) (len pos : Z) : Z :=
  if tail c <=? head c then
    if tail c =? 0 then Z.min (u32 (valpow2 (len_pow2 c) - head c - 1)) (u64 (len - pos))
    else Z.min (u32 (valpow2 (len_pow2 c) - head c)) (u64 (len - pos))
  else Z.min (u32 (tail c - head c - 1)) (u64 (len - pos)).

(** Two passes, and the test that ends the loop. *)
Fixpoint write_loop (fuel : nat) (b : option Z) (len pos : Z) : CM Z :=
  match fuel with
  | O => fault
  | S fuel =>
      c ← gets c_buf;
      if (pos <? len) && (0 <? cbuf_space_avail c) then
        let n := write_len c len pos in
        if n =? 0 then mret pos
        else
          _ ← on_mem (match b with
                      | None => CString.memset (buf c + head c) 0 n
                      | Some p => CString.memcpy (buf c + head c) (p + pos) n
                      end);
          _ ← set_head (INC_POINTER c (head c) n);
          write_loop fuel b len (pos + n)
      else mret pos
  end.

Definition cbuf_write (b : option Z) (len : Z) (canreschedule : bool) : CM Z :=
  c ← gets c_buf;
  _ ← assert_ (len <? valpow2 (len_pow2 c));
  pos ← write_loop 3 b len 0;
  c ← gets c_buf;
  _ ← when (negb (head c =? tail c)) (_ ← on_sys (ev_signal false); mret tt);
  _ ← when canreschedule (on_sys ev_preempt);
  mret pos.

Definition read_len (c : cbuf_t) (buflen pos : Z) : Z :=
  if tail c <? head c then Z.min (u32 (head c - tail c)) (u64 (buflen - pos))
  else Z.min (u32 (valpow2 (len_pow2 c) - tail c)) (u64 (buflen - pos)).

Fixpoint read_loop (fuel : nat) (b : option Z) (buflen pos : Z) : CM Z :=
  match fuel with
  | O => fault
  | S fuel =>
      c ← gets c_buf;
      if (pos <? buflen) && negb (tail c =? head c) then
        let n := read_len c buflen pos in
        _ ← (match b with
             | None => mret tt
             | Some p => _ ← on_mem (CString.memcpy (p + pos) (buf c + tail c) n); mret tt
             end);
        _ ← set_tail (INC_POINTER c (tail c) n);
        read_loop fuel b buflen (pos + n)
      else mret pos
  end.

(** Under the lock: the bytes read. *)
Definition read_locked (b : option Z) (buflen : Z) : CM Z :=
  c ← gets c_buf;
  if negb (tail c =? head c) then
    pos ← read_loop 3 b buflen 0;
    c ← gets c_buf;
    _ ← when (tail c =? head c) (_ ← assert_ (0 <? pos); _ ← on_sys ev_unsignal; mret tt);
    mret pos
  else mret 0.

(** A call returns, or leaves its thread waiting for the event; the thread then
    goes on at [retry]'s test. *)
Inductive outcome := Returned (n : Z) | Waiting.

Fixpoint cbuf_read (fuel : nat) (b : option Z) (buflen : Z) (block : bool) : CM outcome :=
  match fuel with
  | O => fault
  | S fuel =>
      go ← (if block then on_sys ev_wait else mret true);
      if go : bool then
        ret ← read_locked b buflen;
        if block && (ret =? 0) then cbuf_read fuel b buflen block else mret (Returned ret)
      else mret Waiting
  end.

(** The rest of a blocking read whose thread was woken: another thread may have
    emptied the buffer meanwhile. *)
Definition cbuf_read_resumed (b : option Z) (buflen : Z) : CM outcome :=
  ret ← read_locked b buflen;
  if ret =? 0 then cbuf_read 2 b buflen true else mret (Returned ret).

Definition cbuf_reset : CM outcome := c ← gets c_buf; cbuf_read 1 None (cbuf_size c) false.

Definition cbuf_peek : CM (Z * iovec_t * iovec_t) :=
  c ← gets c_buf;
  let ret := cbuf_space_used c in
  let sz := cbuf_size c in
  _ ← assert_ (tail c <? sz);
  _ ← assert_ (ret <=? sz);
  let base := if ret =? 0 then None else Some (buf c + tail c) in
  if sz <? ret + tail c then
    mret (ret, MkIovec base (u64 (sz - tail c)), MkIovec (Some (buf c)) (u64 (ret - u64 (sz - tail c))))
  else mret (ret, MkIovec base ret, MkIovec None 0).

Definition cbuf_write_char (ch : Z) (canreschedule : bool) : CM Z :=
  c ← gets c_buf;
  if 0 <? cbuf_space_avail c then
    _ ← on_mem (Mem.wr (buf c + head c) ch);
    _ ← set_head (INC_POINTER c (head c) 1);
    c ← gets c_buf;
    _ ← when (negb (head c =? tail c)) (_ ← on_sys (ev_signal canreschedule); mret tt);
    mret 1
  else mret 0.

Definition read_char_locked (p : Z) : CM Z :=
  c ← gets c_buf;
  if negb (tail c =? head c) then
    ch ← on_mem (Mem.rd (buf c + tail c));
    _ ← on_mem (Mem.wr p ch);
    _ ← set_tail (INC_POINTER c (tail c) 1);
    c ← gets c_buf;
    _ ← when (tail c =? head c) (_ ← on_sys ev_unsignal; mret tt);
    mret 1
  else mret 0.

Fixpoint cbuf_read_char (fuel : nat) (p : Z) (block : bool) : CM outcome :=
  match fuel with
  | O => fault
  | S fuel =>
      go ← (if block then on_sys ev_wait else mret true);
      if go : bool then
        ret ← read_char_locked p;
        if block && (ret =? 0) then cbuf_read_char fuel p block else mret (Returned ret)
      else mret Waiting
  end.
End cbuf.

End Cbuf.
