(* ===== verification/CbufProps.v ===== *)
(** The circular buffer implements a bounded FIFO queue of bytes. *)
From S2P Require Import Prelude Mem CString CStringProps Pow2 WaitLib Cbuf.
Local Open Scope Z_scope.

Module CbufProps.
Import Pow2 EventLib CStringProps Cbuf.

(** * The ring *)

(** Cases on the comparisons of positions, in the goal and in the hypotheses. *)
Ltac ring_cases := repeat (match goal with
  | |- context [(?x <=? ?y)%Z] => destruct (Z.leb_spec x y)
  | |- context [(?x <? ?y)%Z] => destruct (Z.ltb_spec x y)
  | |- context [(?x =? ?y)%Z] => destruct (Z.eqb_spec x y)
  | H : context [(?x <=? ?y)%Z] |- _ => destruct (Z.leb_spec x y)
  | H : context [(?x <? ?y)%Z] |- _ => destruct (Z.ltb_spec x y)
  | H : context [(?x =? ?y)%Z] |- _ => destruct (Z.eqb_spec x y)
  end; cbn [andb orb negb] in * ); try lia.

Definition slots (c : cbuf_t) : Z := 2 ^ len_pow2 c.

(** The buffer holds the bytes [q], from the tail on, around the end. *)
Record holds (c : cbuf_t) (m : Mem.mem) (q : list Z) : Prop := {
  h_pow : 0 <= len_pow2 c < 32;
  h_head : 0 <= head c < slots c;
  h_tail : 0 <= tail c < slots c;
  h_len : Z.of_nat (length q) = if tail c <=? head c then head c - tail c else head c - tail c + slots c;
  h_data i b : q !! i = Some b ->
    m !! (buf c + (if tail c + Z.of_nat i <? slots c then tail c + Z.of_nat i else tail c + Z.of_nat i - slots c)) = Some b;
  h_mapped i : 0 <= i < slots c -> is_Some (m !! (buf c + i));
  h_bytes : Forall Mem.byte q;
}.

Lemma slots_pos c m q : holds c m q -> 0 < slots c <= 2 ^ 31.
Proof. intros []. unfold slots. split; [lia|]. apply Z.pow_le_mono_r; lia. Qed.

Lemma holds_lt c m q : holds c m q -> Z.of_nat (length q) < slots c.
Proof. intros Hh. pose proof Hh as []. rewrite h_len0. ring_cases. Qed.

Lemma valpow2_slots c m q : holds c m q -> valpow2 (len_pow2 c) = slots c.
Proof. intros []. by apply valpow2_small. Qed.

Lemma mod_slots c m q x : holds c m q -> 0 <= x < 2 * slots c ->
  modpow2 x (len_pow2 c) = if x <? slots c then x else x - slots c.
Proof.
  intros Hh Hx. pose proof (slots_pos _ _ _ Hh). pose proof Hh as []. rewrite modpow2_spec by lia. fold (slots c).
  case_if; [apply Z.mod_small; lia|]. symmetry. apply (Z.mod_unique _ _ 1); lia.
Qed.

Lemma space_used c m q : holds c m q -> cbuf_space_used c = Z.of_nat (length q).
Proof.
  intros Hh. pose proof (slots_pos _ _ _ Hh) as Hs. pose proof Hh as []. unfold cbuf_space_used. rewrite h_len0.
  rewrite modpow2_spec by (try apply uw_range; lia). fold (slots c). unfold uw.
  assert ((slots c | 2 ^ 32)) as Hd.
  { exists (2 ^ (32 - len_pow2 c)). unfold slots. rewrite <- Z.pow_add_r by lia. f_equal. lia. }
  destruct Hd as [k Hk]. rewrite Hk at 1. rewrite Z.mul_comm.
  assert (0 < k) by nia. rewrite Z.rem_mul_r by lia.
  rewrite Z.mul_comm, Z.mod_add, Z.mod_mod by lia. case_if.
  - apply Z.mod_small. lia.
  - symmetry. apply (Z.mod_unique _ _ (-1)); lia.
Qed.

Lemma space_avail c m q : holds c m q -> cbuf_space_avail c = slots c - Z.of_nat (length q) - 1.
Proof.
  intros Hh. pose proof (slots_pos _ _ _ Hh) as Hs. pose proof (holds_lt _ _ _ Hh). unfold cbuf_space_avail.
  fold (cbuf_space_used c). cbn zeta. rewrite (space_used _ _ _ Hh), (valpow2_slots _ _ _ Hh). apply uw_small. lia.
Qed.

Lemma empty_head c m q : holds c m q -> q = [] <-> head c = tail c.
Proof.
  intros Hh. pose proof (slots_pos _ _ _ Hh) as Hs. pose proof Hh as []. split.
  - intros ->. simpl in h_len0. ring_cases.
  - intros E. rewrite E in h_len0. rewrite (proj2 (Z.leb_le _ _)) in h_len0 by lia. destruct q; [done|]. simpl in h_len0. lia.
Qed.

Definition with_head (x : Z) (c : cbuf_t) : cbuf_t := MkCbuf x (tail c) (len_pow2 c) (buf c).
Definition with_tail (x : Z) (c : cbuf_t) : cbuf_t := MkCbuf (head c) x (len_pow2 c) (buf c).

(** Bytes written behind the head, up to the end of the buffer. *)
Lemma holds_push c m q l : holds c m q -> Forall Mem.byte l -> head c + Z.of_nat (length l) <= slots c ->
  Z.of_nat (length q + length l) < slots c ->
  holds (with_head (INC_POINTER c (head c) (Z.of_nat (length l))) c) (Mem.put m (buf c + head c) l) (q ++ l).
Proof.
  intros Hh Hl Hend Hroom. pose proof (slots_pos _ _ _ Hh) as Hs. pose proof (mod_slots _ _ _ (head c + Z.of_nat (length l)) Hh) as Hmod.
  pose proof Hh as []. unfold INC_POINTER. rewrite uw_small by lia. rewrite Hmod by lia. clear Hmod.
  split; cbn [head tail len_pow2 buf with_head]; try done.
  - unfold slots in *. cbn. ring_cases.
  - rewrite length_app. change (slots (with_head _ c)) with (slots c). ring_cases.
  - intros i b. change (slots (with_head _ c)) with (slots c). rewrite lookup_app_Some, put_lookup. intros [Hi|[Hlen Hi]].
    + pose proof (lookup_lt_Some _ _ _ Hi). rewrite decide_False; [by apply h_data0|]. ring_cases.
    + pose proof (lookup_lt_Some _ _ _ Hi). rewrite decide_True by (ring_cases).
      rewrite <- Hi. f_equal. ring_cases.
  - intros i Hi. rewrite put_lookup. case_decide; [|by apply h_mapped0]. apply lookup_lt_is_Some_2. lia.
  - by apply Forall_app.
Qed.

(** Bytes taken from the tail, up to the end of the buffer. *)
Lemma holds_pop c m q n : holds c m q -> (n <= length q)%nat -> tail c + Z.of_nat n <= slots c ->
  holds (with_tail (INC_POINTER c (tail c) (Z.of_nat n)) c) m (drop n q) /\ Mem.bytes_at m (buf c + tail c) (take n q).
Proof.
  intros Hh Hn Hend. pose proof (slots_pos _ _ _ Hh) as Hs. pose proof (holds_lt _ _ _ Hh).
  pose proof (mod_slots _ _ _ (tail c + Z.of_nat n) Hh) as Hmod.
  pose proof Hh as []. unfold INC_POINTER. rewrite uw_small by lia. rewrite Hmod by lia. clear Hmod. split.
  - split; cbn [head tail len_pow2 buf with_tail]; try done.
    + unfold slots in *. cbn. ring_cases.
    + rewrite length_drop. change (slots (with_tail _ c)) with (slots c). ring_cases.
    + intros i b Hi. change (slots (with_tail _ c)) with (slots c). rewrite lookup_drop in Hi. rewrite <- (h_data0 _ _ Hi).
      pose proof (lookup_lt_Some _ _ _ Hi). f_equal. ring_cases.
    + by apply Forall_drop.
  - intros i b Hi. pose proof (lookup_lt_Some _ _ _ Hi) as Hlt. rewrite length_take in Hlt. rewrite lookup_take_lt in Hi by lia.
    rewrite <- (h_data0 _ _ Hi). f_equal. ring_cases.
Qed.

(** Memory elsewhere does not matter. *)
Lemma holds_other c m q p l : holds c m q -> Mem.disjoint_ranges p (length l) (buf c) (Z.to_nat (slots c)) ->
  holds c (Mem.put m p l) q.
Proof.
  intros Hh Hd. pose proof (slots_pos _ _ _ Hh) as Hs. pose proof (holds_lt _ _ _ Hh). unfold Mem.disjoint_ranges in Hd. pose proof Hh as [].
  split; try done.
  - intros i b Hi. rewrite Mem.put_lookup_out; [by apply h_data0|]. pose proof (lookup_lt_Some _ _ _ Hi). ring_cases.
  - intros i Hi. rewrite Mem.put_lookup_out; [by apply h_mapped0|]. lia.
Qed.

(** * Operations *)

Section ops.
Context {K : Type} `{EventLaws K}.
Implicit Types s : state K.

(** The buffer's place, and memory outside it. *)
Definition framed s s' : Prop :=
  len_pow2 (c_buf s') = len_pow2 (c_buf s) /\ buf (c_buf s') = buf (c_buf s) /\
  forall x, ~ buf (c_buf s) <= x < buf (c_buf s) + slots (c_buf s) -> c_mem s' !! x = c_mem s !! x.

Lemma framed_refl s : framed s s.
Proof. done. Qed.

Lemma framed_trans s s' s'' : framed s s' -> framed s' s'' -> framed s s''.
Proof.
  intros (P1 & B1 & M1) (P2 & B2 & M2). split; [congruence|]. split; [congruence|]. intros x Hx.
  rewrite M2, M1; [done..|]. unfold slots in *. by rewrite P1, B1.
Qed.

Lemma wp_cbuf_mem {A} (m : M Mem.mem A) s (Q : A -> state K -> Prop) :
  wp m (c_mem s) (fun a x => Q a (MkState (c_buf s) x (c_sys s))) -> wp (on_mem m) s Q.
Proof. unfold wp, on_mem. by destruct (m (c_mem s)) as [[a x]|]. Qed.

Lemma wp_on_sys {A} (m : M K A) s (Q : A -> state K -> Prop) :
  wp m (c_sys s) (fun a x => Q a (MkState (c_buf s) (c_mem s) x)) -> wp (on_sys m) s Q.
Proof. unfold wp, on_sys. by destruct (m (c_sys s)) as [[a x]|]. Qed.

(** ** Writing *)

(** What is left to write: zeros without a source. *)
Definition source s (b : option Z) (pos : Z) (l : list Z) : Prop :=
  match b with
  | None => l = replicate (length l) 0
  | Some p => Mem.bytes_at (c_mem s) (p + pos) l /\ Forall Mem.byte l /\
      Mem.disjoint_ranges (p + pos) (length l) (buf (c_buf s)) (Z.to_nat (slots (c_buf s)))
  end.

Lemma source_byte s b pos l : source s b pos l -> Forall Mem.byte l.
Proof. destruct b as [p|]; [by intros (_ & ? & _)|]. intros ->. apply Forall_replicate. unfold Mem.byte. lia. Qed.

(** The passes [cbuf_write] makes. *)
Definition write_passes (c : cbuf_t) (rest avail : Z) : nat :=
  if (0 <? rest) && (0 <? avail) then
    if (0 <? tail c) && (tail c <=? head c) && (slots c - head c <? rest) then 3 else 2
  else 1.

Lemma write_len_spec c m q len pos : holds c m q -> 0 <= pos < len -> len < 2 ^ 31 -> Z.of_nat (length q) + 1 < slots c ->
  let n := write_len c len pos in
  0 < n <= len - pos /\ head c + n <= slots c /\ Z.of_nat (length q) + n < slots c /\
  (write_passes (with_head (INC_POINTER c (head c) n) c) (len - pos - n) (slots c - Z.of_nat (length q) - n - 1)
   < write_passes c (len - pos) (slots c - Z.of_nat (length q) - 1))%nat.
Proof.
  intros Hh Hpos Hlen Hroom. pose proof (slots_pos _ _ _ Hh) as Hs. pose proof (holds_lt _ _ _ Hh).
  assert (forall n, 0 <= n -> head c + n <= slots c -> INC_POINTER c (head c) n =
    if head c + n <? slots c then head c + n else 0) as Hinc.
  { intros n Hn Hle. pose proof Hh as []. unfold INC_POINTER. rewrite uw_small, (mod_slots c m q) by (done || lia). ring_cases. }
  unfold write_len. rewrite (valpow2_slots _ _ _ Hh). pose proof Hh as []. rewrite (uw_small 64) by lia.
  assert (0 < slots c - head c <= 2 ^ 31) by lia.
  set (n := if tail c <=? head c then _ else _).
  assert (n = Z.min (if tail c <=? head c then if tail c =? 0 then slots c - head c - 1 else slots c - head c
                     else tail c - head c - 1) (len - pos)) as Hn.
  { unfold n. ring_cases; rewrite ?uw_small by lia; done. }
  clearbody n. cbn zeta. rewrite Hinc; [|ring_cases..].
  unfold write_passes. change (slots (with_head _ c)) with (slots c). cbn [head tail with_head].
  split; [|split; [|split]]; ring_cases.
Qed.
(** One pass: the bytes go behind the head. *)
Lemma write_pass s q b pos l n : holds (c_buf s) (c_mem s) q -> source s b pos l -> (n <= length l)%nat ->
  head (c_buf s) + Z.of_nat n <= slots (c_buf s) -> Z.of_nat (length q + n) < slots (c_buf s) ->
  wp (_ ← on_mem (match b with
                  | None => CString.memset (buf (c_buf s) + head (c_buf s)) 0 (Z.of_nat n)
                  | Some p => CString.memcpy (buf (c_buf s) + head (c_buf s)) (p + pos) (Z.of_nat n)
                  end);
      set_head (INC_POINTER (c_buf s) (head (c_buf s)) (Z.of_nat n))) s (fun _ s' =>
    holds (c_buf s') (c_mem s') (q ++ take n l) /\ source s' b (pos + Z.of_nat n) (drop n l) /\
    framed s s' /\ c_sys s' = c_sys s /\
    c_buf s' = with_head (INC_POINTER (c_buf s) (head (c_buf s)) (Z.of_nat n)) (c_buf s)).
Proof.
  intros Hh Hsrc Hn Hend Hroom. pose proof (slots_pos _ _ _ Hh) as Hs. pose proof (source_byte _ _ _ _ Hsrc) as Hby.
  set (c := c_buf s) in *. assert (length (take n l) = n) as Hlen by (rewrite length_take; lia).
  assert (Mem.mapped (c_mem s) (buf c + head c) n) as Hmap.
  { intros i Hi. rewrite <- Z.add_assoc. apply (h_mapped _ _ _ Hh). pose proof (h_head _ _ _ Hh). lia. }
  assert (wp (match b with
              | None => CString.memset (buf c + head c) 0 (Z.of_nat n)
              | Some p => CString.memcpy (buf c + head c) (p + pos) (Z.of_nat n)
              end) (c_mem s) (fun _ m' => m' = Mem.put (c_mem s) (buf c + head c) (take n l))) as Hw.
  { destruct b as [p|].
    - destruct Hsrc as (Hb & _ & Hd). fold c in Hd. rewrite <- Hlen at 1. eapply wp_mono; [apply memcpy_wp|].
      + by apply (Mem.bytes_at_app _ _ (take n l) (drop n l)); rewrite take_drop.
      + by rewrite Hlen.
      + by apply Forall_take.
      + rewrite Hlen. lia.
      + right. rewrite Hlen. unfold Mem.disjoint_ranges in *. pose proof (h_head _ _ _ Hh). lia.
      + by intros r m' [_ ->].
    - eapply wp_mono; [by apply memset_wp|]. intros r m' [_ ->]. change (u8 0) with 0. f_equal.
      rewrite Hsrc, take_replicate. f_equal. lia. }
  wp_step. apply wp_cbuf_mem. eapply wp_mono; [exact Hw|]. intros _ m' ->. unfold set_head, set_cbuf. wp_step.
  cbn [c_buf c_mem c_sys]. fold c. split_and!; try done.
  - rewrite <- Hlen at 1. apply holds_push; [done|by apply Forall_take|lia|lia].
  - destruct b as [p|]; cbn [source] in *.
    + destruct Hsrc as (Hb & _ & Hd). fold c in Hd. rewrite <- (take_drop n l), Mem.bytes_at_app, Hlen in Hb. destruct Hb as [_ Hb].
      unfold Mem.disjoint_ranges in *. cbn [c_mem c_buf buf with_head]. split_and!.
      * rewrite Z.add_assoc. apply Mem.put_bytes_other; [done|]. unfold Mem.disjoint_ranges. rewrite Hlen, length_drop.
        pose proof (h_head _ _ _ Hh). lia.
      * by apply Forall_drop.
      * rewrite length_drop. change (slots _) with (slots c). lia.
    + rewrite Hsrc, drop_replicate, length_replicate. done.
  - split; [done|]. split; [done|]. intros x Hx. cbn. apply Mem.put_lookup_out. rewrite Hlen. pose proof (h_head _ _ _ Hh). fold c in Hx. lia.
Qed.

Lemma write_loop_spec fuel : forall s q b pos l, holds (c_buf s) (c_mem s) q -> source s b pos l ->
  0 <= pos -> pos + Z.of_nat (length l) < 2 ^ 31 ->
  (write_passes (c_buf s) (Z.of_nat (length l)) (slots (c_buf s) - Z.of_nat (length q) - 1) <= fuel)%nat ->
  wp (write_loop fuel b (pos + Z.of_nat (length l)) pos) s (fun r s' =>
    let n := Z.to_nat (Z.min (Z.of_nat (length l)) (slots (c_buf s) - Z.of_nat (length q) - 1)) in
    r = pos + Z.of_nat n /\ holds (c_buf s') (c_mem s') (q ++ take n l) /\ framed s s' /\ c_sys s' = c_sys s).
Proof.
  induction fuel as [|fuel IH]; intros s q b pos l Hh Hsrc Hpos Hlen Hf; [unfold write_passes in Hf; ring_cases|].
  pose proof (holds_lt _ _ _ Hh). cbn [write_loop]. wp_step. rewrite (space_avail _ _ _ Hh).
  destruct (Z.ltb_spec pos (pos + Z.of_nat (length l))) as [Hlt|Hge]; cbn [andb].
  2:{ wp_step. assert (length l = 0)%nat as Hl0 by lia. cbn zeta. rewrite Hl0.
      replace (Z.to_nat _) with 0%nat by lia. rewrite take_0, app_nil_r. split_and!; try done. lia. }
  destruct (Z.ltb_spec 0 (slots (c_buf s) - Z.of_nat (length q) - 1)) as [Hav|Hav].
  2:{ wp_step. cbn zeta. replace (Z.to_nat _) with 0%nat by lia. rewrite take_0, app_nil_r. split_and!; try done. lia. }
  destruct (write_len_spec (c_buf s) (c_mem s) q (pos + Z.of_nat (length l)) pos) as (Hn & Hend & Hroom & Hp); [done|lia|lia|lia|].
  cbn zeta. set (n := write_len _ _ _) in *. rewrite (proj2 (Z.eqb_neq n 0)) by lia.
  replace n with (Z.of_nat (Z.to_nat n)) in * by lia. set (k := Z.to_nat n) in *. clearbody k. clear n.
  assert ((k <= length l)%nat) as Hk by lia.
  pose proof (write_pass s q b pos l k Hh Hsrc Hk Hend ltac:(lia)) as Hw. apply wp_bind in Hw. apply wp_bind.
  eapply wp_mono; [exact Hw|]. intros a1 s1 Hw1. apply wp_bind. eapply wp_mono; [exact Hw1|]. clear Hw Hw1.
  intros _ s2 (Hh2 & Hsrc2 & Hfr2 & Hsys2 & Hc2).
  assert (length (take k l) = k) as Hlk by (rewrite length_take; lia).
  assert (slots (c_buf s2) = slots (c_buf s)) as Hsl by (by rewrite Hc2).
  pose proof (IH s2 (q ++ take k l) b (pos + Z.of_nat k) (drop k l) Hh2 Hsrc2 ltac:(lia)) as IH2.
  rewrite length_drop, length_app, Hlk, Hsl in IH2.
  replace (pos + Z.of_nat k + Z.of_nat (length l - k)) with (pos + Z.of_nat (length l)) in IH2 by lia.
  eapply wp_mono; [apply IH2|].
  - lia.
  - rewrite Hc2. replace (pos + Z.of_nat (length l) - pos) with (Z.of_nat (length l)) in Hp by lia.
    replace (Z.of_nat (length l) - Z.of_nat k) with (Z.of_nat (length l - k)) in Hp by lia.
    replace (slots (c_buf s) - Z.of_nat (length q + k) - 1) with (slots (c_buf s) - Z.of_nat (length q) - Z.of_nat k - 1) by lia.
    lia.
  - cbn zeta. intros r s3 (-> & Hh3 & Hfr3 & Hsys3). split; [lia|]. split; [|split; [by eapply framed_trans|congruence]].
    rewrite <- app_assoc in Hh3.
    replace (take (Z.to_nat (Z.min (Z.of_nat (length l)) (slots (c_buf s) - Z.of_nat (length q) - 1))) l)
      with (take k l ++ take (Z.to_nat (Z.min (Z.of_nat (length l - k)) (slots (c_buf s) - Z.of_nat (length q + k) - 1))) (drop k l)); [done|].
    rewrite take_take_drop. f_equal. lia.
Qed.

(** ** Reading *)

(** Room for [n] bytes, away from the ring. *)
Definition room s (b : option Z) (pos : Z) (n : nat) : Prop :=
  match b with
  | None => True
  | Some p => Mem.mapped (c_mem s) (p + pos) n /\
      Mem.disjoint_ranges (p + pos) n (buf (c_buf s)) (Z.to_nat (slots (c_buf s)))
  end.

(** Memory after bytes were copied out. *)
Definition copied (m : Mem.mem) (b : option Z) (pos : Z) (l : list Z) : Mem.mem :=
  match b with None => m | Some p => Mem.put m (p + pos) l end.

Definition read_passes (c : cbuf_t) (rest : Z) : nat :=
  if (0 <? rest) && negb (tail c =? head c) then
    if (head c <? tail c) && (slots c - tail c <? rest) then 3 else 2
  else 1.

Lemma read_len_spec c m q buflen pos : holds c m q -> 0 <= pos < buflen -> buflen < 2 ^ 64 -> head c ≠ tail c ->
  let n := read_len c buflen pos in
  0 < n <= buflen - pos /\ tail c + n <= slots c /\ n <= Z.of_nat (length q) /\
  (read_passes (with_tail (INC_POINTER c (tail c) n) c) (buflen - pos - n) < read_passes c (buflen - pos))%nat.
Proof.
  intros Hh Hpos Hlen Hne. pose proof (slots_pos _ _ _ Hh) as Hs. pose proof (holds_lt _ _ _ Hh).
  assert (forall n, 0 <= n -> tail c + n <= slots c -> INC_POINTER c (tail c) n =
    if tail c + n <? slots c then tail c + n else 0) as Hinc.
  { intros n Hn Hle. pose proof Hh as []. unfold INC_POINTER. rewrite uw_small, (mod_slots c m q) by (done || lia). ring_cases. }
  unfold read_len. rewrite (valpow2_slots _ _ _ Hh). pose proof Hh as []. rewrite (uw_small 64) by lia.
  set (n := if tail c <? head c then _ else _).
  assert (n = Z.min (if tail c <? head c then head c - tail c else slots c - tail c) (buflen - pos)) as Hn.
  { unfold n. ring_cases; rewrite ?uw_small by lia; done. }
  clearbody n. cbn zeta. rewrite Hinc; [|ring_cases..].
  unfold read_passes. change (slots (with_tail _ c)) with (slots c). cbn [head tail with_tail].
  split; [|split; [|split]]; ring_cases.
Qed.

Lemma read_pass s q b pos n k : holds (c_buf s) (c_mem s) q -> room s b pos k -> (n <= k)%nat -> (n <= length q)%nat ->
  tail (c_buf s) + Z.of_nat n <= slots (c_buf s) -> Z.of_nat n < 2 ^ 31 ->
  wp (_ ← (match b with
           | None => mret tt
           | Some p => _ ← on_mem (CString.memcpy (p + pos) (buf (c_buf s) + tail (c_buf s)) (Z.of_nat n)); mret tt
           end);
      set_tail (INC_POINTER (c_buf s) (tail (c_buf s)) (Z.of_nat n))) s (fun _ s' =>
    holds (c_buf s') (c_mem s') (drop n q) /\ c_mem s' = copied (c_mem s) b pos (take n q) /\ c_sys s' = c_sys s /\
    c_buf s' = with_tail (INC_POINTER (c_buf s) (tail (c_buf s)) (Z.of_nat n)) (c_buf s)).
Proof.
  intros Hh Hroom Hn Hnq Hend H31. destruct (holds_pop _ _ _ n Hh Hnq Hend) as [Hh' Hb].
  assert (length (take n q) = n) as Hlen by (rewrite length_take; lia). unfold set_tail, set_cbuf.
  destruct b as [p|]; cbn [copied].
  - destruct Hroom as [Hm Hd]. wp_step. apply wp_cbuf_mem. rewrite <- Hlen at 1.
    assert (Mem.disjoint_ranges (p + pos) n (buf (c_buf s) + tail (c_buf s)) n) as Hd2.
    { unfold Mem.disjoint_ranges in *. pose proof (h_tail _ _ _ Hh). lia. }
    eapply wp_mono; [apply memcpy_wp|].
    + exact Hb.
    + rewrite Hlen. by eapply Mem.mapped_le.
    + apply Forall_take, Hh.
    + lia.
    + right. by rewrite Hlen.
    + intros r m' [_ ->]. wp_step. cbn [c_buf c_mem c_sys]. split_and!; try done.
      apply holds_other; [exact Hh'|]. rewrite Hlen. change (slots _) with (slots (c_buf s)).
      cbn [buf with_tail]. unfold Mem.disjoint_ranges in *. lia.
  - wp_step. cbn [c_buf c_mem c_sys]. split_and!; done.
Qed.

Lemma copied_app m b pos l1 l2 : copied (copied m b pos l1) b (pos + Z.of_nat (length l1)) l2 = copied m b pos (l1 ++ l2).
Proof. destruct b as [p|]; cbn [copied]; [|done]. by rewrite Z.add_assoc, <- Mem.put_app. Qed.

Lemma read_loop_spec fuel : forall s q b pos k, holds (c_buf s) (c_mem s) q -> room s b pos k -> 0 <= pos ->
  pos + Z.of_nat k < 2 ^ 64 -> (read_passes (c_buf s) (Z.of_nat k) <= fuel)%nat ->
  wp (read_loop fuel b (pos + Z.of_nat k) pos) s (fun r s' =>
    let n := Nat.min k (length q) in
    r = pos + Z.of_nat n /\ holds (c_buf s') (c_mem s') (drop n q) /\
    c_mem s' = copied (c_mem s) b pos (take n q) /\ c_sys s' = c_sys s /\
    len_pow2 (c_buf s') = len_pow2 (c_buf s) /\ buf (c_buf s') = buf (c_buf s)).
Proof.
  induction fuel as [|fuel IH]; intros s q b pos k Hh Hroom Hpos Hk Hf; [unfold read_passes in Hf; ring_cases|].
  pose proof (slots_pos _ _ _ Hh) as Hs. pose proof (empty_head _ _ _ Hh) as Hemp. cbn [read_loop]. wp_step.
  destruct (Z.ltb_spec pos (pos + Z.of_nat k)) as [Hlt|Hge]; cbn [andb].
  2:{ wp_step. assert (k = 0)%nat as -> by lia. cbn zeta. rewrite Nat.min_0_l, drop_0, take_0. split_and!; try done; [lia|].
      by destruct b. }
  destruct (Z.eqb_spec (tail (c_buf s)) (head (c_buf s))) as [He|He]; cbn [negb].
  { wp_step. assert (q = []) as -> by (by apply Hemp). cbn zeta. rewrite Nat.min_0_r, drop_0, take_0. split_and!; try done; [lia|].
    by destruct b. }
  destruct (read_len_spec (c_buf s) (c_mem s) q (pos + Z.of_nat k) pos) as (Hn & Hend & Hq & Hp); [done|lia|lia|congruence|].
  cbn zeta. set (n := read_len _ _ _) in *. replace n with (Z.of_nat (Z.to_nat n)) in * by lia.
  set (j := Z.to_nat n) in *. clearbody j. clear n.
  pose proof (h_tail _ _ _ Hh). pose proof (holds_lt _ _ _ Hh).
  pose proof (read_pass s q b pos j k Hh Hroom ltac:(lia) ltac:(lia) Hend ltac:(lia)) as Hw. apply wp_bind in Hw. apply wp_bind.
  eapply wp_mono; [exact Hw|]. intros a1 s1 Hw1. apply wp_bind. eapply wp_mono; [exact Hw1|]. clear Hw Hw1.
  intros _ s2 (Hh2 & Hm2 & Hsys2 & Hc2).
  assert (length (take j q) = j) as Hlj by (rewrite length_take; lia).
  assert (room s2 b (pos + Z.of_nat j) (k - j)) as Hroom2.
  { destruct b as [p|]; [|done]. destruct Hroom as [Hm Hd]. unfold room. rewrite Hm2, Hc2. cbn [copied]. split.
    - apply Mem.put_mapped. intros i Hi. specialize (Hm (j + i)%nat ltac:(lia)).
      by replace (p + (pos + Z.of_nat j) + Z.of_nat i) with (p + pos + Z.of_nat (j + i)) by lia.
    - change (slots (with_tail _ _)) with (slots (c_buf s)). unfold Mem.disjoint_ranges in *. cbn [buf with_tail]. lia. }
  pose proof (IH s2 (drop j q) b (pos + Z.of_nat j) (k - j)%nat Hh2 Hroom2 ltac:(lia) ltac:(lia)) as IH2.
  replace (pos + Z.of_nat j + Z.of_nat (k - j)) with (pos + Z.of_nat k) in IH2 by lia.
  rewrite length_drop in IH2. eapply wp_mono; [apply IH2|].
  - rewrite Hc2. replace (pos + Z.of_nat k - pos) with (Z.of_nat k) in Hp by lia.
    replace (Z.of_nat k - Z.of_nat j) with (Z.of_nat (k - j)) in Hp by lia. lia.
  - cbn zeta. intros r s3 (-> & Hh3 & Hm3 & Hsys3 & Hp3 & Hb3). split; [lia|].
    replace (Nat.min k (length q)) with (j + Nat.min (k - j) (length q - j))%nat by lia.
    rewrite drop_drop in Hh3. split; [done|]. split; [|rewrite Hp3, Hb3, Hc2; split_and!; by try congruence].
    rewrite Hm3, Hm2. rewrite <- Hlj at 2. rewrite copied_app. f_equal. apply take_take_drop.
Qed.

(** ** The queue *)

Record queue s (q : list Z) : Prop := {
  q_holds : holds (c_buf s) (c_mem s) q;
  q_ok : ev_ok (c_sys s);
  q_sig : ev_signaled (c_sys s) = negb (bool_decide (q = []));
}.

(** What is left of a buffer of which [q] is in use. *)
Definition space s (q : list Z) : Z := slots (c_buf s) - Z.of_nat (length q) - 1.

Lemma head_tail s q : holds (c_buf s) (c_mem s) q -> (head (c_buf s) =? tail (c_buf s)) = bool_decide (q = []).
Proof.
  intros Hh. pose proof (empty_head _ _ _ Hh). destruct (Z.eqb_spec (head (c_buf s)) (tail (c_buf s))); symmetry;
    [apply bool_decide_eq_true|apply bool_decide_eq_false]; tauto.
Qed.

(** Signaling after a write. *)
Lemma signal_queue s (q q' : list Z) b Q : holds (c_buf s) (c_mem s) q' -> ev_ok (c_sys s) ->
  ev_signaled (c_sys s) = negb (bool_decide (q = [])) -> (q' = [] -> q = []) -> (b = true -> ev_may_switch (c_sys s)) ->
  (forall k, queue (MkState (c_buf s) (c_mem s) k) q' -> (q' = [] -> k = c_sys s) -> Q tt (MkState (c_buf s) (c_mem s) k)) ->
  wp (when (negb (head (c_buf s) =? tail (c_buf s))) (_ ← on_sys (ev_signal b); mret tt)) s Q.
Proof.
  intros Hh Hok Hsig Hq Hb HQ. apply wp_when. rewrite (head_tail _ _ Hh). destruct (decide (q' = [])) as [He|He];
    [rewrite (bool_decide_eq_true_2 (q' = [])) by done|rewrite (bool_decide_eq_false_2 (q' = [])) by done]; cbn [negb].
  - destruct s as [c m k]. apply HQ; [|done]. split; [done|done|]. cbn in *. rewrite Hsig, !bool_decide_eq_true_2; auto.
  - wp_step. apply wp_on_sys. eapply wp_mono; [by apply ev_signal_ok|]. intros r k [Hok' Hs']. wp_step.
    apply HQ; [|done]. split; [done|done|]. cbn. by rewrite Hs', bool_decide_eq_false_2.
Qed.

Lemma unsignal_queue s (q q' : list Z) Q : holds (c_buf s) (c_mem s) q' -> ev_ok (c_sys s) ->
  ev_signaled (c_sys s) = negb (bool_decide (q = [])) -> q ≠ [] ->
  (forall k, queue (MkState (c_buf s) (c_mem s) k) q' -> Q tt (MkState (c_buf s) (c_mem s) k)) ->
  wp (when (tail (c_buf s) =? head (c_buf s)) (_ ← on_sys ev_unsignal; mret tt)) s Q.
Proof.
  intros Hh Hok Hsig Hq HQ. apply wp_when. rewrite Z.eqb_sym, (head_tail _ _ Hh). destruct (decide (q' = [])) as [He|He];
    [rewrite (bool_decide_eq_true_2 (q' = [])) by done|rewrite (bool_decide_eq_false_2 (q' = [])) by done].
  - wp_step. apply wp_on_sys. eapply wp_mono; [by apply ev_unsignal_ok|]. intros r k [Hok' Hs']. wp_step.
    apply HQ. split; [done|done|]. cbn. by rewrite Hs', bool_decide_eq_true_2.
  - destruct s as [c m k]. apply HQ. split; [done|done|]. cbn in *. by rewrite Hsig, !bool_decide_eq_false_2.
Qed.

Lemma cbuf_write_wp s q b l sw : queue s q -> source s b 0 l -> Z.of_nat (length l) < slots (c_buf s) ->
  wp (cbuf_write b (Z.of_nat (length l)) sw) s (fun r s' =>
    let n := Z.to_nat (Z.min (Z.of_nat (length l)) (space s q)) in
    r = Z.of_nat n /\ queue s' (q ++ take n l) /\ framed s s').
Proof.
  intros [Hh Hok Hsig] Hsrc Hlen. pose proof (slots_pos _ _ _ Hh) as Hs. unfold cbuf_write, space. wp_step.
  rewrite (valpow2_slots _ _ _ Hh). split; [by apply Z.ltb_lt|]. wp_step.
  eapply wp_mono; [apply (write_loop_spec 3 s q b 0 l Hh Hsrc); [lia|lia|]|].
  { unfold write_passes. repeat case_if; lia. }
  cbn zeta. set (n := Z.to_nat _). intros r s1 (-> & Hh1 & Hfr & Hsys). wp_step.
  apply (signal_queue s1 q (q ++ take n l) false); rewrite ?Hsys; try done.
  - by intros [? _]%app_eq_nil.
  - intros k Hq _. apply wp_bind, wp_when. destruct sw; wp_step; [|by split_and!].
    apply wp_on_sys. eapply wp_mono; [apply ev_preempt_ok, Hq|]. intros r k' [Hok' Hs']. wp_step.
    split; [done|]. split; [|done]. destruct Hq as [? ? ?]. split; [done..|]. cbn in *. by rewrite Hs'.
Qed.

Lemma cbuf_write_char_wp s q ch sw : queue s q -> (sw = true -> ev_may_switch (c_sys s)) ->
  wp (cbuf_write_char ch sw) s (fun r s' =>
    r = (if 0 <? space s q then 1 else 0) /\ queue s' (if 0 <? space s q then q ++ [u8 ch] else q) /\ framed s s').
Proof.
  intros Hq Hsw. pose proof Hq as [Hh Hok Hsig]. pose proof (slots_pos _ _ _ Hh) as Hs. unfold cbuf_write_char. wp_step.
  rewrite (space_avail _ _ _ Hh). fold (space s q). destruct (Z.ltb_spec 0 (space s q)) as [Hsp|Hsp]; wp_step; [|by split_and!].
  unfold space in Hsp. pose proof (h_head _ _ _ Hh). apply wp_cbuf_mem, Mem.wp_wr; [by apply (h_mapped _ _ _ Hh)|].
  unfold set_head, set_cbuf. wp_step. cbn [c_buf c_mem c_sys].
  assert (holds (with_head (INC_POINTER (c_buf s) (head (c_buf s)) (Z.of_nat (length [u8 ch]))) (c_buf s))
    (Mem.put (c_mem s) (buf (c_buf s) + head (c_buf s)) [u8 ch]) (q ++ [u8 ch])) as Hh'.
  { apply holds_push; [done| |simpl; lia|simpl; lia]. repeat constructor; by apply uw_range. }
  set (s1 := MkState _ _ _). change (holds (c_buf s1) (c_mem s1) (q ++ [u8 ch])) in Hh'.
  apply (signal_queue s1 q (q ++ [u8 ch]) sw); try done.
  - by intros [_ ?]%app_eq_nil.
  - intros k Hk _. wp_step. split; [done|]. split; [done|]. split; [done|]. split; [done|]. intros x Hx. cbn. by rewrite lookup_insert_ne by lia.
Qed.

(** What the critical section of a read does. *)
Lemma read_locked_wp s q b k : queue s q -> room s b 0 k -> Z.of_nat k < 2 ^ 64 ->
  wp (read_locked b (Z.of_nat k)) s (fun r s' =>
    let n := Nat.min k (length q) in
    r = Z.of_nat n /\ queue s' (drop n q) /\ c_mem s' = copied (c_mem s) b 0 (take n q) /\
    len_pow2 (c_buf s') = len_pow2 (c_buf s) /\ buf (c_buf s') = buf (c_buf s) /\ (q = [] -> s' = s)).
Proof.
  intros Hq Hroom Hk. pose proof Hq as [Hh Hok Hsig]. unfold read_locked. wp_step.
  rewrite (Z.eqb_sym (tail _)), (head_tail _ _ Hh). destruct (decide (q = [])) as [He|He];
    [rewrite (bool_decide_eq_true_2 (q = [])) by done|rewrite (bool_decide_eq_false_2 (q = [])) by done]; cbn [negb]; wp_step.
  - subst q. cbn [length]. rewrite Nat.min_0_r, take_0, drop_0. split_and!; try done. by destruct b.
  - eapply wp_mono; [apply (read_loop_spec 3 s q b 0 k Hh Hroom); [lia|lia|]|].
    { unfold read_passes. repeat case_if; lia. }
    cbn zeta. set (n := Nat.min k (length q)). intros r s1 (-> & Hh1 & Hm & Hsys & Hp & Hb). wp_step.
    apply (wp_when (tail (c_buf s1) =? head (c_buf s1)) (_ ← assert_ (0 <? 0 + Z.of_nat n); _ ← on_sys ev_unsignal; mret tt)).
    assert (wp (when (tail (c_buf s1) =? head (c_buf s1)) (_ ← on_sys ev_unsignal; mret tt)) s1 (fun _ s' =>
      Z.of_nat n = Z.of_nat n /\ queue s' (drop n q) /\ c_mem s' = copied (c_mem s) b 0 (take n q) /\
      len_pow2 (c_buf s') = len_pow2 (c_buf s) /\ buf (c_buf s') = buf (c_buf s) /\ (q = [] -> s' = s))) as Hw.
    { apply (unsignal_queue s1 q (drop n q)); rewrite ?Hsys; done. }
    apply wp_when in Hw. rewrite Z.eqb_sym, (head_tail _ _ Hh1) in *. destruct (decide (drop n q = [])) as [Hd|Hd];
      [rewrite (bool_decide_eq_true_2 (drop n q = [])) in * by done|by rewrite (bool_decide_eq_false_2 (drop n q = [])) in * by done].
    wp_step. split.
    { apply Z.ltb_lt. assert (n ≠ 0%nat); [|lia]. intros E. rewrite E, drop_0 in Hd. done. }
    apply wp_bind in Hw. exact Hw.
Qed.

(** The outcome of a read of [k] bytes. *)
Definition read_outcome s q b k (block : bool) (r : outcome) s' : Prop :=
  len_pow2 (c_buf s') = len_pow2 (c_buf s) /\ buf (c_buf s') = buf (c_buf s) /\
  if block && bool_decide (q = []) then r = Waiting /\ queue s' [] /\ c_mem s' = c_mem s
  else let n := Nat.min k (length q) in
    r = Returned (Z.of_nat n) /\ queue s' (drop n q) /\ c_mem s' = copied (c_mem s) b 0 (take n q).

Lemma wait_wp s q (Q : bool -> state K -> Prop) : queue s q -> ev_may_switch (c_sys s) ->
  (q ≠ [] -> Q true s) ->
  (forall k, q = [] -> queue (MkState (c_buf s) (c_mem s) k) [] -> Q false (MkState (c_buf s) (c_mem s) k)) ->
  wp (on_sys ev_wait) s Q.
Proof.
  intros [Hh Hok Hsig] Hsw H1 H2. apply wp_on_sys. eapply wp_mono; [by apply ev_wait_ok|].
  intros r k (Hok' & -> & Hs' & Hk). rewrite Hsig in *. destruct (decide (q = [])) as [He|He].
  - rewrite bool_decide_eq_true_2 in * by done. apply H2; [done|]. subst q. split; [done|done|]. exact Hs'.
  - rewrite bool_decide_eq_false_2 in * by done. rewrite Hk by done. destruct s. by apply H1.
Qed.

Lemma cbuf_read_wp fuel s q b k (block : bool) : (0 < fuel)%nat -> queue s q -> room s b 0 k -> Z.of_nat k < 2 ^ 64 ->
  (block = true -> ev_may_switch (c_sys s) /\ (0 < k)%nat) ->
  wp (cbuf_read fuel b (Z.of_nat k) block) s (read_outcome s q b k block).
Proof.
  intros Hf Hq Hroom Hk Hbl. destruct fuel as [|fuel]; [lia|]. cbn [cbuf_read]. apply wp_bind.
  assert (block = true -> q ≠ [] -> (0 < k)%nat -> wp (ret ← read_locked b (Z.of_nat k);
    if block && (ret =? 0) then cbuf_read fuel b (Z.of_nat k) block else mret (Returned ret)) s (read_outcome s q b k block)) as Hgo.
  { intros -> Hne Hk0. apply wp_bind. eapply wp_mono; [by apply (read_locked_wp s q b k)|].
    cbn zeta. intros r s' (-> & Hq' & Hm & Hp & Hb & _).
    assert (length q ≠ 0%nat) by (by destruct q). rewrite (proj2 (Z.eqb_neq _ _)) by lia. cbn [andb].
    unfold read_outcome. rewrite bool_decide_eq_false_2 by done. by split_and!. }
  destruct block.
  - destruct (Hbl eq_refl) as [Hsw Hk0]. apply (wait_wp s q); [done|done|by auto|].
    intros x He Hq'. cbn. unfold read_outcome. rewrite bool_decide_eq_true_2 by done. by split_and!.
  - wp_step. eapply wp_mono; [by apply (read_locked_wp s q b k)|].
    cbn zeta. intros r s' (-> & Hq' & Hm & Hp & Hb & _). cbn [andb]. by split_and!.
Qed.

Lemma cbuf_read_resumed_wp s q b k : queue s q -> room s b 0 k -> Z.of_nat k < 2 ^ 64 ->
  ev_may_switch (c_sys s) -> (0 < k)%nat ->
  wp (cbuf_read_resumed b (Z.of_nat k)) s (read_outcome s q b k true).
Proof.
  intros Hq Hroom Hk Hsw Hk0. unfold cbuf_read_resumed. apply wp_bind. eapply wp_mono; [by apply (read_locked_wp s q b k)|].
  cbn zeta. intros r s' (-> & Hq' & Hm & Hp & Hb & He). destruct (decide (q = [])) as [E|E].
  - specialize (He E). subst q s'. rewrite Nat.min_0_r. cbn [Z.of_nat Z.eqb]. apply cbuf_read_wp; auto with lia.
  - assert (length q ≠ 0%nat) by (by destruct q). rewrite (proj2 (Z.eqb_neq _ _)) by lia.
    unfold read_outcome, wp, mret. cbn. rewrite bool_decide_eq_false_2 by done. by split_and!.
Qed.

Lemma read_char_locked_wp s q p : queue s q -> room s (Some p) 0 1 ->
  wp (read_char_locked p) s (fun r s' => r = Z.of_nat (Nat.min 1 (length q)) /\ queue s' (drop 1 q) /\
    c_mem s' = copied (c_mem s) (Some p) 0 (take 1 q) /\
    len_pow2 (c_buf s') = len_pow2 (c_buf s) /\ buf (c_buf s') = buf (c_buf s)).
Proof.
  intros Hq [Hm Hd]. pose proof Hq as [Hh Hok Hsig]. unfold read_char_locked. wp_step.
  rewrite (Z.eqb_sym (tail _)), (head_tail _ _ Hh). destruct q as [|c q].
  - cbn [negb bool_decide]. wp_step. by split_and!.
  - rewrite (bool_decide_eq_false_2 (c :: q = [])) by done. cbn [negb]. pose proof (h_tail _ _ _ Hh).
    destruct (holds_pop (c_buf s) (c_mem s) (c :: q) 1 Hh) as [Hh' Hb]; [simpl; lia|lia|].
    cbn [take drop] in *. apply Mem.bytes_at_cons in Hb as [Hb _]. pose proof (h_bytes _ _ _ Hh) as [Hc _]%Forall_cons.
    wp_step. apply wp_cbuf_mem. eapply Mem.wp_rd; [done|]. apply wp_bind, wp_cbuf_mem, Mem.wp_wr.
    { specialize (Hm 0%nat ltac:(lia)). cbn [c_mem]. by replace (p + 0 + Z.of_nat 0) with p in Hm by lia. }
    unfold set_tail, set_cbuf. wp_step. cbn [c_buf c_mem c_sys]. rewrite Mem.u8_byte by done.
    set (s1 := MkState _ _ _).
    assert (holds (c_buf s1) (c_mem s1) q) as Hh1.
    { change (c_mem s1) with (Mem.put (c_mem s) p [c]). apply holds_other; [exact Hh'|].
      rewrite Z.add_0_r in Hd. exact Hd. }
    apply (unsignal_queue s1 (c :: q) q); try done. intros k Hk. wp_step. cbn [c_mem length Nat.min copied].
    rewrite Z.add_0_r, drop_0. by split_and!.
Qed.

Lemma cbuf_read_char_wp fuel s q p (block : bool) : (0 < fuel)%nat -> queue s q -> room s (Some p) 0 1 ->
  (block = true -> ev_may_switch (c_sys s)) ->
  wp (cbuf_read_char fuel p block) s (read_outcome s q (Some p) 1 block).
Proof.
  intros Hf Hq Hroom Hbl. destruct fuel as [|fuel]; [lia|]. cbn [cbuf_read_char]. apply wp_bind.
  destruct block.
  - apply (wait_wp s q); [done|by auto| |].
    + intros Hne. apply wp_bind. eapply wp_mono; [by apply (read_char_locked_wp s q p)|]. cbn zeta.
      intros r s' (-> & Hq' & Hm & Hp & Hb). destruct q as [|c q]; [done|]. cbn. by split_and!.
    + intros x He Hq'. cbn. unfold read_outcome. rewrite bool_decide_eq_true_2 by done. by split_and!.
  - wp_step. eapply wp_mono; [by apply (read_char_locked_wp s q p)|].
    intros r s' (-> & Hq' & Hm & Hp & Hb). cbn [andb]. unfold read_outcome, wp, mret. cbn.
    destruct q as [|c q]; by split_and!.
Qed.

Lemma cbuf_peek_wp s q : queue s q ->
  wp cbuf_peek s (fun r s' => s' = s /\ exists l0 l1 p1,
    q = l0 ++ l1 /\ r = (Z.of_nat (length q), MkIovec (if decide (q = []) then None else Some (buf (c_buf s) + tail (c_buf s))) (Z.of_nat (length l0)),
      MkIovec p1 (Z.of_nat (length l1))) /\
    Mem.bytes_at (c_mem s) (buf (c_buf s) + tail (c_buf s)) l0 /\
    match p1 with Some p => Mem.bytes_at (c_mem s) p l1 | None => l1 = [] end).
Proof.
  intros [Hh Hok Hsig]. pose proof (slots_pos _ _ _ Hh) as Hs. pose proof (holds_lt _ _ _ Hh) as Hlt.
  assert (cbuf_size (c_buf s) = slots (c_buf s)) as Hsz.
  { unfold cbuf_size, slots. by rewrite Z.shiftl_1_l. }
  pose proof (h_tail _ _ _ Hh) as Ht. unfold cbuf_peek. wp_step. rewrite (space_used _ _ _ Hh), Hsz.
  split; [apply Z.ltb_lt; lia|]. wp_step. split; [apply Z.leb_le; lia|]. wp_step.
  assert ((if Z.of_nat (length q) =? 0 then None else Some (buf (c_buf s) + tail (c_buf s))) =
    if decide (q = []) then None else Some (buf (c_buf s) + tail (c_buf s))) as ->.
  { destruct (Z.eqb_spec (Z.of_nat (length q)) 0); case_decide; try done; [by destruct q|by subst]. }
  destruct (Z.ltb_spec (slots (c_buf s)) (Z.of_nat (length q) + tail (c_buf s))) as [Hw|Hw]; wp_step; (split; [done|]).
  - set (n := Z.to_nat (slots (c_buf s) - tail (c_buf s))). rewrite !uw_small by (rewrite ?uw_small; lia).
    exists (take n q), (drop n q), (Some (buf (c_buf s))). rewrite take_drop, length_take, length_drop.
    split_and!; [done|do 2 f_equal; [f_equal|]; f_equal; lia| |].
    + apply holds_pop; [done|lia|lia].
    + intros i b Hi. rewrite lookup_drop in Hi. rewrite <- (h_data _ _ _ Hh _ _ Hi). f_equal. ring_cases.
  - exists q, [], None. rewrite app_nil_r. split_and!; try done.
    intros i b Hi. rewrite <- (h_data _ _ _ Hh _ _ Hi). pose proof (lookup_lt_Some _ _ _ Hi). f_equal. ring_cases.
Qed.

Lemma cbuf_initialize_wp s len b : ev_absent (c_sys s) -> 0 < len < 2 ^ 32 -> len = 2 ^ Z.log2 len ->
  (forall i, 0 <= i < len -> is_Some (c_mem s !! (b + i))) ->
  wp (cbuf_initialize_etc len b) s (fun _ s' => queue s' [] /\ slots (c_buf s') = len /\ c_mem s' = c_mem s /\
    buf (c_buf s') = b).
Proof.
  intros Hab Hlen Hpow Hm. unfold cbuf_initialize_etc, set_cbuf. wp_step. split; [apply Z.ltb_lt; lia|]. wp_step.
  rewrite uw_small by lia. split; [by apply ispow2_spec|]. wp_step.
  unfold log2_uint. rewrite (proj2 (Z.eqb_neq _ _)) by lia. apply wp_on_sys. eapply wp_mono; [by apply ev_init_ok|].
  intros _ k [Hok Hs]. cbn [c_buf c_mem].
  assert (slots (MkCbuf 0 0 (Z.log2 len) b) = len) as Hsl by (by unfold slots).
  split_and!; try done. split; cbn [c_buf c_mem c_sys]; try done. split; cbn [head tail len_pow2 buf]; rewrite ?Hsl; try done; try lia.
  split; [apply Z.log2_nonneg|]. apply Z.log2_lt_pow2; lia.
Qed.

(** * Properties *)

(** C30. cbuf_write refines an append to a queue: with l at the source (zeros for a null
    source) it appends the first min(length, free space) bytes of l to the bytes the
    buffer holds, in order and across the wrap of the ring, returns their number, and
    changes no byte outside the buffer; one slot stays unused, and the length has to be
    below the buffer's size. *)
Theorem cbuf_write_appends s q b l sw :
  queue s q -> source s b 0 l -> Z.of_nat (length l) < slots (c_buf s) ->
  exists s', let n := Z.to_nat (Z.min (Z.of_nat (length l)) (space s q)) in
    cbuf_write b (Z.of_nat (length l)) sw s = Some (Z.of_nat n, s') /\ queue s' (q ++ take n l) /\ framed s s'.
Proof.
  intros Hq Hs Hl. destruct (proj1 (wp_run _ _ _) (cbuf_write_wp s q b l sw Hq Hs Hl)) as (r & s' & Hr & -> & Hq' & Hf).
  by exists s'.
Qed.

End ops.

End CbufProps.
