(* ===== verification/CbufSample.v ===== *)
(** A buffer of four bytes over the kernel's events. *)
From S2P Require Import Prelude WaitLib Timer KState Thread Sync Sched SchedOps Kernel SyncInv KernelInv Boot KernelProps Mem CString CStringProps Pow2 Cbuf CbufProps.
Local Open Scope Z_scope.

(** The kernel provides the events that the libraries wait on. *)
Module KernelEvents.
Import KState Thread Sync Sched SchedOps Kernel SyncInv KernelInv EventLib.

Definition on_kernel {A} (m : K A) : M machine A := fun mc =>
  match m (kernel mc) with Some (a, s) => Some (a, MkMachine s (conts mc)) | None => None end.

(** [event_wait]: the thread goes on, or is left inside the call. *)
Definition kernel_event_wait (i : nat) : M machine bool := fun mc =>
  match event_wait_timeout i INFINITE_TIME (kernel mc) with
  | Some (o, s) =>
      Some (match o with Done _ => true | Switched _ => false end,
            MkMachine s (after_call (k_current (kernel mc)) (conts mc) o))
  | None => None
  end.

(** The event [i], without [EVENT_FLAG_AUTOUNSIGNAL]. *)
Definition has_event (i : nat) (mc : machine) : Prop :=
  exists x, k_events (kernel mc) !! i = Some x /\ e_flags x = 0.

Definition kernel_events (i : nat) : EventOps machine := {|
  ev_init := on_kernel (event_init i false 0);
  ev_signal b := on_kernel (event_signal i b);
  ev_unsignal := on_kernel (event_unsignal i);
  ev_wait := kernel_event_wait i;
  ev_preempt := on_kernel thread_preempt;
  ev_absent mc := Inv mc /\ call_ok mc (CEventInit i false 0) = true;
  ev_ok mc := Inv mc /\ has_event i mc;
  ev_signaled mc := match k_events (kernel mc) !! i with Some x => e_signaled x | None => false end;
  ev_may_switch mc := conts mc !! k_current (kernel mc) = None /\ k_current (kernel mc) ≠ k_idle_thread (kernel mc);
|}.

Lemma wp_on_kernel {A} (m : K A) mc (Q : A -> machine -> Prop) :
  wp m (kernel mc) (fun a s => Q a (MkMachine s (conts mc))) -> wp (on_kernel m) mc Q.
Proof. unfold wp, on_kernel. by destruct (m (kernel mc)) as [[a s]|]. Qed.

Section laws.
Context (i : nat) (s : kstate) (C : contmap) (x : event_t).
Hypothesis HI : Inv (MkMachine s C).
Hypothesis Hx : k_events s !! i = Some x.
Hypothesis Hfl : e_flags x = 0.

Lemma event_live : e_magic x = EVENT_MAGIC /\ exists w, k_wait_queues s !! WqEvent i = Some w /\ wq_magic w = WAIT_QUEUE_MAGIC.
Proof. destruct HI as [_ Hv]. destruct (vi_event _ _ _ _ Hv i x Hx) as (Hm & Hl & _). split; [exact Hm|exact Hl]. Qed.

Lemma has_i : has (k_events s) i = true.
Proof. apply bool_decide_eq_true. by eexists. Qed.

Lemma event_signal_sets b : (b = true -> k_current s ≠ k_idle_thread s) ->
  wp (event_signal i b) s (fun _ s' => k_events s' !! i = Some (MkEvent (e_magic x) true (e_flags x))).
Proof.
  intros Hb. destruct event_live as (Hm & w & Hw & Hwm). pose proof HI as [Hok _]. unfold event_signal, event_at.
  wp_step. exists x. split; [done|]. wp_step. rewrite Hm. split; [done|].
  destruct (e_signaled x) eqn:Hs; cbn [negb]; [wp_step; rewrite Hx; by destruct x; cbn in *; subst|].
  rewrite Hfl. change (Z.testbit 0 EVENT_FLAG_AUTOUNSIGNAL) with false. cbn iota. unfold set_signaled, event_at, set_event. wp_step. exists x. split; [done|]. wp_step.
  set (s1 := with_events _ s).
  eapply wp_mono; [eapply (wake_all_spec (pend_of C) s1 (WqEvent i) w b NO_ERROR); [by apply ok_events|done..]|].
  intros r s' (_ & _ & _ & Hv'). wp_step. apply (f_equal v_events) in Hv'. simpl in Hv'. rewrite Hv'. cbn.
  rewrite Hfl, <- Hm. apply lookup_insert_eq.
Qed.

Lemma event_unsignal_sets :
  wp (event_unsignal i) s (fun _ s' => k_events s' !! i = Some (MkEvent (e_magic x) false (e_flags x))).
Proof.
  destruct event_live as (Hm & _). unfold event_unsignal, set_signaled, event_at, set_event.
  wp_step. exists x. split; [done|]. wp_step. rewrite Hm. split; [done|]. wp_step. exists x. split; [done|]. wp_step.
  cbn. rewrite <- Hm. apply lookup_insert_eq.
Qed.

Lemma event_wait_keeps : C !! k_current s = None -> k_current s ≠ k_idle_thread s ->
  wp (event_wait_timeout i INFINITE_TIME) s (fun o s' => k_events s' = k_events s /\
    if e_signaled x then o = Done NO_ERROR /\ s' = s else exists fs, o = Switched fs).
Proof.
  intros HC Hidle. destruct event_live as (Hm & w & Hw & Hwm). pose proof HI as [Hok _]. unfold event_wait_timeout, event_at.
  wp_step. exists x. split; [done|]. wp_step. rewrite Hm. split; [done|]. destruct (e_signaled x) eqn:Hs.
  - rewrite Hfl. change (Z.testbit 0 EVENT_FLAG_AUTOUNSIGNAL) with false. cbn [when]. wp_step. done.
  - eapply wp_mono; [eapply (wait_queue_block_spec (pend_of C) s (WqEvent i) w INFINITE_TIME); try done|].
    + by apply pend_of_none.
    + by left.
    + cbn. intros o s' (-> & _ & Hv). apply (f_equal v_events) in Hv. simpl in Hv. split; [done|]. by eexists.
Qed.
End laws.

Lemma kernel_event_laws i : @EventLaws machine (kernel_events i).
Proof.
  split.
  - intros [s C] [HI Hc]. cbn [ev_init kernel_events]. apply wp_on_kernel. cbn [kernel conts].
    eapply wp_mono; [apply wp_conj; [by apply (event_init_Inv s C i false 0)|]|].
    + assert (wp (event_init i false 0) s (fun _ s' => k_events s' !! i = Some (MkEvent EVENT_MAGIC false 0))) as Hw; [|exact Hw].
      unfold event_init, set_event, wait_queue_init, set_wq. wp_step. cbn. apply lookup_insert_eq.
    + cbn. intros _ s' [HI' He]. rewrite He. split; [|done]. split; [done|]. by eexists.
  - intros [s C] b [HI (x & Hx & Hfl)] Hb. cbn [ev_signal kernel_events]. apply wp_on_kernel. cbn [kernel conts] in *.
    assert (b = true -> k_current s ≠ k_idle_thread s) as Hb' by (intros ->; by apply Hb).
    eapply wp_mono; [apply wp_conj; [apply (event_signal_Inv s C i b HI); [by eapply has_i|done]|by apply (event_signal_sets i s C x HI Hx Hfl)]|].
    cbn. intros _ s' [HI' He]. rewrite He. split; [|done]. split; [done|]. by eexists.
  - intros [s C] [HI (x & Hx & Hfl)]. cbn [ev_unsignal kernel_events]. apply wp_on_kernel. cbn [kernel conts] in *.
    eapply wp_mono; [apply wp_conj; [apply (event_unsignal_Inv s C i HI); by eapply has_i|by apply (event_unsignal_sets i s C x HI Hx)]|].
    cbn. intros _ s' [HI' He]. rewrite He. split; [|done]. split; [done|]. by eexists.
  - intros [s C] [HI (x & Hx & Hfl)] [HC Hidle]. cbn [ev_wait kernel_events kernel conts] in *.
    assert (wp (event_wait_timeout i INFINITE_TIME) s (fun o s' =>
      Inv (MkMachine s' (after_call (k_current s) C o)) /\ k_events s' = k_events s /\
      if e_signaled x then o = Done NO_ERROR /\ s' = s else exists fs, o = Switched fs)) as Hw.
    { apply wp_conj; [|by apply (event_wait_keeps i s C x HI Hx Hfl)]. apply event_wait_Inv; [done|done|].
      simpl. unfold is_idle. rewrite (has_i i s x Hx), bool_decide_eq_false_2 by done. done. }
    unfold wp in *. unfold kernel_event_wait. cbn [kernel conts]. destruct (event_wait_timeout i INFINITE_TIME s) as [[o s']|]; [|done].
    destruct Hw as (HI' & He & Ho). unfold has_event. cbn [kernel ev_ok ev_signaled kernel_events]. unfold has_event. cbn [kernel]. rewrite He, Hx.
    split; [split; [done|by eexists]|]. destruct (e_signaled x).
    + destruct Ho as [-> ->]. by split_and!.
    + destruct Ho as [fs ->]. by split_and!.
  - intros [s C] [HI (x & Hx & Hfl)]. cbn [ev_preempt kernel_events]. apply wp_on_kernel. cbn [kernel conts] in *.
    eapply wp_mono; [apply (preempt_quiet C), HI|]. intros a s' Hq. pose proof (quiet_Inv C s s' HI Hq) as HI'.
    destruct Hq as [_ Hv]. apply (f_equal v_events) in Hv. simpl in Hv. cbn. unfold has_event. cbn. rewrite Hv.
    split; [|done]. split; [done|]. by exists x.
Qed.

End KernelEvents.

Module CbufSample.
Import Kernel KernelInv Boot KernelProps KernelEvents EventLib CStringProps Cbuf CbufProps.

Definition events_0 : EventOps machine := kernel_events 0.
#[local] Existing Instance events_0.
Definition laws_0 : EventLaws machine := kernel_event_laws 0.
#[local] Existing Instance laws_0.

Definition ring_bytes : Mem.mem := Mem.put (Mem.put ∅ 1000 [0; 0; 0; 0]) 2000 [7; 8; 9].
Definition ring : cbuf_t := MkCbuf 0 0 2 1000.

Lemma ring_empty : holds ring ring_bytes [].
Proof.
  split; try done; try (cbn; lia).
  intros i Hi. change (slots ring) with 4 in Hi. assert (i = 0 \/ i = 1 \/ i = 2 \/ i = 3) as [-> |[-> |[-> | ->]]] by lia; by eexists.
Qed.

(** A machine with the event, in the middle of a thread that may wait. *)
Definition with_event (m : machine) : bool :=
  match KState.k_events (kernel m) !! 0%nat with
  | Some x => negb (KState.e_signaled x) && (KState.e_flags x =? 0) | None => false
  end &&
  bool_decide (conts m !! KState.k_current (kernel m) = None) && negb (is_idle (kernel m)).

Lemma some_machine : exists m, ev_ok m /\ ev_signaled m = false /\ ev_may_switch m.
Proof.
  destruct (run_from_boot_reachable (two_threads ++ [ECall (CEventInit 0 false 0)]) with_event) as (m & Hr & Hm);
    [vm_compute; reflexivity|].
  unfold with_event, is_idle in Hm. destruct (KState.k_events (kernel m) !! 0%nat) as [x|] eqn:He; [|done]. bool_prop.
  exists m. unfold ev_ok, ev_signaled, ev_may_switch, events_0, kernel_events, has_event. rewrite He.
  split_and!; try done; [by apply reachable_Inv|]. by exists x.
Qed.

Lemma empty_queue (m : machine) : ev_ok m -> ev_signaled m = false -> queue (MkState ring ring_bytes m) [].
Proof. intros H1 H2. split; [exact ring_empty|exact H1|exact H2]. Qed.

Lemma source_789 (m : machine) : source (MkState ring ring_bytes m) (Some 2000) 0 [7; 8; 9].
Proof.
  split; [|split].
  - intros i b Hi. do 3 (destruct i as [|i]; [injection Hi as <-; reflexivity|]). done.
  - repeat constructor; unfold Mem.byte; lia.
  - right. vm_compute. discriminate.
Qed.

Lemma cbuf_write_appends_witness : exists (m : machine) s',
  cbuf_write (Some 2000) 3 true (MkState ring ring_bytes m) = Some (3, s') /\ queue s' [7; 8; 9].
Proof.
  destruct some_machine as (m & Hok & Hs & _). exists m.
  destruct (cbuf_write_appends (MkState ring ring_bytes m) [] (Some 2000) [7; 8; 9] true (empty_queue m Hok Hs)
    (source_789 m) ltac:(vm_compute; reflexivity)) as (s' & Hr & Hq & _).
  exists s'. exact (conj Hr Hq).
Defined.

Lemma room_2000 (m : machine) : room (MkState ring ring_bytes m) (Some 2000) 0 2.
Proof.
  split; [|right; vm_compute; discriminate]. intros i Hi. destruct i as [|[|i]]; [by eexists..|lia].
Qed.


(** A blocking read of no bytes from a buffer that holds some never returns: it
    tries again for ever. *)
Lemma read_of_nothing_spins fuel : forall (m : machine), ev_ok m -> ev_signaled m = true -> ev_may_switch m ->
  cbuf_read fuel None 0 true (MkState (MkCbuf 1 0 2 1000) ring_bytes m) = None.
Proof.
  induction fuel as [|fuel IH]; intros m Hok Hs Hsw; [done|]. cbn [cbuf_read].
  pose proof (ev_wait_ok m Hok Hsw) as Hw. unfold wp in Hw. unfold mbind, M_bind, on_sys at 1. cbn [c_sys].
  destruct (ev_wait m) as [[r m']|]; [|done]. destruct Hw as (_ & -> & _ & He). rewrite Hs in *. rewrite (He eq_refl).
  cbn [c_buf c_mem]. set (s := MkState _ _ m). assert (read_locked None 0 s = Some (0, s)) as Hl by reflexivity.
  unfold mbind, M_bind. rewrite Hl. cbn [andb Z.eqb]. by apply IH.
Qed.
End CbufSample.
