(* ===== verification/Sort.v ===== *)
(** [qsort] and [bsearch], [lib/libc/qsort.c] and [lib/libc/bsearch.c], over byte
    memory.  The comparison function is the caller's: it gets two pointers. *)
From S2P Require Import Prelude Mem CString.
Local Open Scope Z_scope.

Module Sort.
Import Mem CString.

(** ** Swapping *)

(** One turn of [swapcode] for a type of [sz] bytes. *)
Definition swap_items (sz : nat) (pi pj : Z) : M mem unit :=
  t ← rd_bytes sz pi;
  u ← rd_bytes sz pj;
  _ ← wr_bytes u pi;
  wr_bytes t pj.

Fixpoint swapcode_loop (sz : nat) (i : nat) (pi pj : Z) : M mem unit :=
  match i with
  | O => mret tt
  | S i => _ ← swap_items sz pi pj; swapcode_loop sz i (pi + Z.of_nat sz) (pj + Z.of_nat sz)
  end.

(** The loop runs at least once. *)
Definition swapcode (sz : nat) (parmi parmj n : Z) : M mem unit :=
  let i := u64 n / Z.of_nat sz in
  swapcode_loop sz (Z.to_nat (Z.max 1 i)) parmi parmj.

(** 0: elements are aligned longs; 1: a multiple of longs; 2: bytes. *)
Definition SWAPINIT (a es : Z) : Z :=
  if negb (u64 a mod 8 =? 0) || negb (es mod 8 =? 0) then 2 else if es =? 8 then 0 else 1.

Definition swapfunc (a b n swaptype : Z) : M mem unit :=
  if swaptype <=? 1 then swapcode 8 a b n else swapcode 1 a b n.

Definition swap (swaptype es a b : Z) : M mem unit :=
  if swaptype =? 0 then swap_items 8 a b else swapfunc a b (s32 es) swaptype.

Definition vecswap (swaptype a b n : Z) : M mem unit :=
  when (0 <? n) (swapfunc a b n swaptype).

Section sort.
Context (cmp : Z -> Z -> M mem Z).

Definition med3 (a b c : Z) : M mem Z :=
  ab ← cmp a b;
  if ab <? 0 then
    bc ← cmp b c;
    if bc <? 0 then mret b else ac ← cmp a c; mret (if ac <? 0 then c else a)
  else
    bc ← cmp b c;
    if 0 <? bc then mret b else ac ← cmp a c; mret (if ac <? 0 then a else c).

(** ** Insertion sort *)

Fixpoint sink (fuel : nat) (swaptype es a pl : Z) : M mem unit :=
  match fuel with
  | O => fault
  | S fuel =>
      if a <? pl then
        r ← cmp (pl - es) pl;
        if 0 <? r then _ ← swap swaptype es pl (pl - es); sink fuel swaptype es a (pl - es) else mret tt
      else mret tt
  end.

Fixpoint insertion (fuel : nat) (swaptype es a end_ pm : Z) : M mem unit :=
  match fuel with
  | O => fault
  | S fuel =>
      if pm <? end_ then
        _ ← sink (S (Z.to_nat ((pm - a) / es))) swaptype es a pm;
        insertion fuel swaptype es a end_ (pm + es)
      else mret tt
  end.

(** ** Partition *)

Record cursors := MkCursors { pa : Z; pb : Z; pc : Z; pd : Z; swap_cnt : bool }.

Fixpoint up (fuel : nat) (swaptype es a : Z) (k : cursors) : M mem cursors :=
  match fuel with
  | O => fault
  | S fuel =>
      if pb k <=? pc k then
        r ← cmp (pb k) a;
        if r <=? 0 then
          if r =? 0 then
            _ ← swap swaptype es (pa k) (pb k);
            up fuel swaptype es a (MkCursors (pa k + es) (pb k + es) (pc k) (pd k) true)
          else up fuel swaptype es a (MkCursors (pa k) (pb k + es) (pc k) (pd k) (swap_cnt k))
        else mret k
      else mret k
  end.

Fixpoint down (fuel : nat) (swaptype es a : Z) (k : cursors) : M mem cursors :=
  match fuel with
  | O => fault
  | S fuel =>
      if pb k <=? pc k then
        r ← cmp (pc k) a;
        if 0 <=? r then
          if r =? 0 then
            _ ← swap swaptype es (pc k) (pd k);
            down fuel swaptype es a (MkCursors (pa k) (pb k) (pc k - es) (pd k - es) true)
          else down fuel swaptype es a (MkCursors (pa k) (pb k) (pc k - es) (pd k) (swap_cnt k))
        else mret k
      else mret k
  end.

Fixpoint partition (fuel : nat) (swaptype es a : Z) (k : cursors) : M mem cursors :=
  match fuel with
  | O => fault
  | S n =>
      k ← up fuel swaptype es a k;
      k ← down fuel swaptype es a k;
      if pc k <? pb k then mret k
      else
        _ ← swap swaptype es (pb k) (pc k);
        partition n swaptype es a (MkCursors (pa k) (pb k + es) (pc k - es) (pd k) true)
  end.

Definition min (a b : Z) : Z := if a <? b then a else b.

(** The pivot: the middle element, or a median of three or of three medians. *)
Definition pivot (a n es : Z) : M mem Z :=
  let pm := a + n / 2 * es in
  if 7 <? n then
    let pl := a in
    let pn := a + (n - 1) * es in
    '(pl, pm, pn) ←
      (if 40 <? n then
         let d := s32 (n / 8 * es) in
         pl ← med3 pl (pl + d) (pl + 2 * d);
         pm ← med3 (pm - d) pm (pm + d);
         pn ← med3 (pn - 2 * d) (pn - d) pn;
         mret (pl, pm, pn)
       else mret (pl, pm, pn));
    med3 pl pm pn
  else mret pm.

(** The elements equal to the pivot, at both ends, moved to the middle. *)
Definition gather (swaptype es a pn : Z) (k : cursors) : M mem unit :=
  let r := s32 (min (pa k - a) (pb k - pa k)) in
  _ ← vecswap swaptype a (pb k - r) r;
  let r := s32 (min (pd k - pc k) (pn - pd k - s32 es)) in
  vecswap swaptype (pb k) (pn - r) r.

(** [goto loop] is the second recursive call.  The range shrinks, so that [fuel]
    above [n] is enough. *)
Fixpoint qsort (fuel : nat) (a n es : Z) : M mem unit :=
  match fuel with
  | O => fault
  | S fuel =>
      let swaptype := SWAPINIT a es in
      let end_ := a + n * es in
      if n <? 7 then insertion (S (Z.to_nat n)) swaptype es a end_ (a + es)
      else
        pm ← pivot a n es;
        _ ← swap swaptype es a pm;
        let last := a + (n - 1) * es in
        k ← partition (S (Z.to_nat n)) swaptype es a (MkCursors (a + es) (a + es) last last false);
        if negb (swap_cnt k) then insertion (S (Z.to_nat n)) swaptype es a end_ (a + es)
        else
          let pn := end_ in
          _ ← gather swaptype es a pn k;
          let r := s32 (pb k - pa k) in
          _ ← when (s32 es <? r) (qsort fuel a (u64 r / es) es);
          let r := s32 (pd k - pc k) in
          when (s32 es <? r) (qsort fuel (pn - r) (u64 r / es) es)
  end.

(** ** Binary search *)

Fixpoint bsearch_loop (fuel : nat) (key base size low high : Z) : M mem (option Z) :=
  match fuel with
  | O => fault
  | S fuel =>
      let mid := u64 (low + u64 (high - low) / 2) in
      let mid_elem := u64 (base + mid * size) in
      r ← cmp key mid_elem;
      if r <? 0 then
        if mid =? 0 then mret None else bsearch_loop fuel key base size low (u64 (mid - 1))
      else if 0 <? r then
        let low := u64 (mid + 1) in
        if (low <? mid) || (high <? low) then mret None
        else bsearch_loop fuel key base size low high
      else mret (Some mid_elem)
  end.

Definition bsearch (fuel : nat) (key base num_elems size : Z) : M mem (option Z) :=
  if num_elems =? 0 then mret None
  else bsearch_loop fuel key base size 0 (u64 (num_elems - 1)).
End sort.

End Sort.
