(* ===== verification/SortProps.v ===== *)
(** [qsort] sorts and [bsearch] finds. *)
From S2P Require Import Prelude Mem CString CStringProps Sort.
From Stdlib Require Import Sorted.
Local Open Scope Z_scope.

Module SortProps.
Import Mem CString CStringProps Sort.

(** * Swapping *)

Lemma swap_items_wp sz m a b X Y : bytes_at m a X -> bytes_at m b Y -> length X = sz -> length Y = sz ->
  Forall byte X -> Forall byte Y ->
  wp (swap_items sz a b) m (fun _ m' => m' = put (put m a Y) b X).
Proof.
  intros HX HY <- Hl BX BY. unfold swap_items. wp_step. apply (rd_bytes_spec X); [done|]. wp_step.
  rewrite <- Hl. apply (rd_bytes_spec Y); [done|]. wp_step.
  apply wr_bytes_spec; [rewrite Hl; by apply bytes_at_mapped|done|].
  apply wr_bytes_spec; [rewrite <- Hl; apply put_mapped; by apply bytes_at_mapped|done|done].
Qed.

Lemma swapcode_loop_wp sz i : forall m a b X Y, bytes_at m a X -> bytes_at m b Y ->
  length X = (sz * i)%nat -> length Y = (sz * i)%nat -> Forall byte X -> Forall byte Y ->
  (disjoint_ranges a (length X) b (length Y) \/ a = b) ->
  wp (swapcode_loop sz i a b) m (fun _ m' => m' = put (put m a Y) b X).
Proof.
  induction i as [|i IH]; intros m a b X Y HX HY lX lY BX BY Hd; cbn [swapcode_loop].
  - wp_step. rewrite Nat.mul_0_r in *. apply nil_length_inv in lX, lY. by subst.
  - rewrite <- (take_drop sz X), <- (take_drop sz Y) in *.
    set (X1 := take sz X) in *. set (X2 := drop sz X) in *. set (Y1 := take sz Y) in *. set (Y2 := drop sz Y) in *.
    assert (length X1 = sz /\ length Y1 = sz) as [l1 l2].
    { unfold X1, Y1. rewrite !length_take. rewrite !length_app in lX, lY. unfold X1, X2, Y1, Y2 in *.
      rewrite length_take, length_drop in lX, lY. lia. }
    rewrite length_app in lX, lY. rewrite !length_app in Hd. clearbody X1 X2 Y1 Y2. clear X Y.
    apply bytes_at_app in HX as [HX1 HX2]. apply bytes_at_app in HY as [HY1 HY2].
    apply Forall_app in BX as [BX1 BX2]. apply Forall_app in BY as [BY1 BY2]. rewrite l1 in HX2. rewrite l2 in HY2.
    unfold disjoint_ranges in Hd. wp_step. eapply wp_mono; [by apply (swap_items_wp sz m a b X1 Y1)|]. intros _ m1 ->.
    destruct Hd as [Hd| ->].
    + eapply wp_mono; [apply (IH _ _ _ X2 Y2)|]; try done; try lia.
      * apply put_bytes_other; [apply put_bytes_other; [done|]|]; unfold disjoint_ranges; lia.
      * apply put_bytes_other; [apply put_bytes_other; [done|]|]; unfold disjoint_ranges; lia.
      * left. unfold disjoint_ranges. lia.
      * intros _ m' ->. rewrite !put_app, l1, l2.
        rewrite (put_comm (put m a Y1) b X1) by (unfold disjoint_ranges; lia). done.
    + assert (X1 = Y1) as ->.
      { apply list_eq_same_length with sz; [lia|lia|]. intros k x y Hk Hx Hy. apply HX1 in Hx. apply HY1 in Hy. congruence. }
      assert (X2 = Y2) as ->.
      { apply list_eq_same_length with (length Y2); [lia|lia|]. intros k x y Hk Hx Hy. apply HX2 in Hx. apply HY2 in Hy. congruence. }
      rewrite !(put_same m b Y1) by done. eapply wp_mono; [apply (IH _ _ _ Y2 Y2)|]; try done; try lia.
      intros _ m' ->. rewrite !(put_same m (b + Z.of_nat sz) Y2) by done.
      assert (bytes_at m b (Y1 ++ Y2)) as Hb by (apply bytes_at_app; by rewrite l2).
      by rewrite !(put_same m b (Y1 ++ Y2)).
Qed.

(** * Arrays of elements *)

Section array.
(** The array's place, the size of its elements, the memory around it. *)
Context (A : Z) (es : nat) (m0 : mem).
Hypothesis Hes : (0 < es)%nat.

Abbreviation elem := (list Z).
Implicit Types L S X Y : list elem.

Definition elem_ok (x : elem) : Prop := length x = es /\ Forall byte x.
Definition mem_of L : mem := put m0 A (concat L).
(** The address of an element. *)
Definition at_ (i : nat) : Z := A + Z.of_nat (i * es).

Record array L : Prop := {
  a_elems : Forall elem_ok L;
  a_mapped : mapped m0 A (length L * es);
  a_small : Z.of_nat (length L * es) < 2 ^ 31;
}.

Lemma concat_length L : Forall elem_ok L -> length (concat L) = (length L * es)%nat.
Proof.
  induction 1 as [|x L [Hx _] HL IH]; [done|]. cbn [concat length]. rewrite length_app, IH, Hx. lia.
Qed.

Lemma concat_bytes L : Forall elem_ok L -> Forall byte (concat L).
Proof. induction 1 as [|x L [_ Hx] HL IH]; [constructor|]. by apply Forall_app. Qed.

Lemma array_perm L L' : L ≡ₚ L' -> array L -> array L'.
Proof. intros Hp []. split; rewrite <- Hp; done. Qed.

(** The bytes of a run of elements. *)
Lemma run_bytes S X S' : Forall elem_ok (S ++ X ++ S') -> bytes_at (mem_of (S ++ X ++ S')) (at_ (length S)) (concat X).
Proof.
  intros [HS [HX HS']%Forall_app]%Forall_app. pose proof (put_bytes_at m0 A (concat (S ++ X ++ S'))) as Hb.
  fold (mem_of (S ++ X ++ S')) in Hb. rewrite !concat_app, !bytes_at_app in Hb. destruct Hb as (_ & Hb & _).
  by rewrite concat_length in Hb.
Qed.

(** Two runs of the same length exchanged. *)
Lemma exchange_mem S1 X S2 Y S3 : Forall elem_ok (S1 ++ X ++ S2 ++ Y ++ S3) -> length X = length Y ->
  put (put (mem_of (S1 ++ X ++ S2 ++ Y ++ S3)) (at_ (length S1)) (concat Y)) (at_ (length (S1 ++ X ++ S2))) (concat X) =
  mem_of (S1 ++ Y ++ S2 ++ X ++ S3).
Proof.
  intros Hok Hlen. pose proof Hok as [H1 [HX [H2 [HY H3]%Forall_app]%Forall_app]%Forall_app]%Forall_app.
  assert (length (concat X) = length (concat Y)) as Hc by (rewrite !concat_length by done; lia).
  unfold mem_of, at_. rewrite !concat_app.
  rewrite <- (concat_length S1), put_replace by done.
  replace (length (S1 ++ X ++ S2) * es)%nat with (length (concat S1 ++ concat Y ++ concat S2)).
  - replace (concat S1 ++ concat Y ++ concat S2 ++ concat Y ++ concat S3)
      with ((concat S1 ++ concat Y ++ concat S2) ++ concat Y ++ concat S3) by (by rewrite <- !app_assoc).
    rewrite put_replace by done. by rewrite <- !app_assoc.
  - rewrite !length_app, !concat_length, Hlen by done. lia.
Qed.

(** ** Swapping elements *)

Definition swaptype_ok (swaptype : Z) : Prop :=
  (swaptype = 0 /\ es = 8%nat) \/ (swaptype = 1 /\ (es mod 8 = 0)%nat) \/ swaptype = 2.

Lemma SWAPINIT_ok a : swaptype_ok (SWAPINIT a (Z.of_nat es)).
Proof.
  unfold SWAPINIT, swaptype_ok. destruct (negb (u64 a mod 8 =? 0)); [tauto|]. cbn [orb].
  destruct (Z.eqb_spec (Z.of_nat es mod 8) 0) as [E|E]; cbn [negb]; [|tauto].
  destruct (Z.eqb_spec (Z.of_nat es) 8); [left; lia|right; left]. split; [done|].
  change 8 with (Z.of_nat 8) in E. rewrite <- Nat2Z.inj_mod in E. lia.
Qed.

(** [swapfunc] over runs of [k] elements, in either order. *)
Lemma swapfunc_wp st S1 X S2 Y S3 k p q : swaptype_ok st -> Forall elem_ok (S1 ++ X ++ S2 ++ Y ++ S3) ->
  length X = k -> length Y = k -> (0 < k)%nat -> Z.of_nat (k * es) < 2 ^ 31 ->
  (p = at_ (length S1) /\ q = at_ (length (S1 ++ X ++ S2))) \/ (q = at_ (length S1) /\ p = at_ (length (S1 ++ X ++ S2))) ->
  wp (swapfunc p q (Z.of_nat (k * es)) st) (mem_of (S1 ++ X ++ S2 ++ Y ++ S3))
    (fun _ m' => m' = mem_of (S1 ++ Y ++ S2 ++ X ++ S3)).
Proof.
  intros Hst Hok lX lY Hk Hsmall Hpq.
  pose proof Hok as [H1 [HX [H2 [HY H3]%Forall_app]%Forall_app]%Forall_app]%Forall_app.
  assert (length (concat X) = (k * es)%nat /\ length (concat Y) = (k * es)%nat) as [cX cY] by (rewrite !concat_length by done; lia).
  pose proof (run_bytes S1 X _ Hok) as HbX.
  assert (bytes_at (mem_of (S1 ++ X ++ S2 ++ Y ++ S3)) (at_ (length (S1 ++ X ++ S2))) (concat Y)) as HbY.
  { replace (S1 ++ X ++ S2 ++ Y ++ S3) with ((S1 ++ X ++ S2) ++ Y ++ S3) in * by (by rewrite <- !app_assoc). by apply run_bytes. }
  pose proof (exchange_mem S1 X S2 Y S3 Hok ltac:(lia)) as Hex.
  assert (disjoint_ranges (at_ (length S1)) (length (concat X)) (at_ (length (S1 ++ X ++ S2))) (length (concat Y))) as Hd.
  { left. unfold at_. rewrite !length_app, cX. lia. }
  assert (forall sz i, (0 < sz)%nat -> (k * es)%nat = (sz * i)%nat -> wp (swapcode sz p q (Z.of_nat (k * es)))
    (mem_of (S1 ++ X ++ S2 ++ Y ++ S3)) (fun _ m' => m' = mem_of (S1 ++ Y ++ S2 ++ X ++ S3))) as Hgo.
  { intros sz i Hsz Hi. unfold swapcode. rewrite uw_small by lia. rewrite Hi. rewrite <- Nat2Z.inj_div.
    rewrite Nat.mul_comm, Nat.div_mul by lia. assert (0 < i)%nat by nia.
    replace (Z.to_nat (Z.max 1 (Z.of_nat i))) with i by lia. destruct Hpq as [[-> ->]|[-> ->]].
    - eapply wp_mono; [apply (swapcode_loop_wp sz i _ _ _ (concat X) (concat Y) HbX HbY); try (by apply concat_bytes); try lia; by left|].
      by intros _ m' ->.
    - eapply wp_mono; [apply (swapcode_loop_wp sz i _ _ _ (concat Y) (concat X) HbY HbX); try (by apply concat_bytes); try lia|].
      + left. unfold disjoint_ranges in *. lia.
      + intros _ m' ->. rewrite put_comm; [done|]. unfold disjoint_ranges in *. lia. }
  unfold swapfunc. destruct Hst as [[-> ->]|[[-> He]| ->]]; cbn [Z.leb Z.compare].
  - apply (Hgo 8%nat k); lia.
  - apply (Hgo 8%nat (k * (es / 8))%nat); [lia|]. pose proof (Nat.div_mod es 8 ltac:(lia)). nia.
  - apply (Hgo 1%nat (k * es)%nat); lia.
Qed.

Lemma swap_wp st S1 x S2 y S3 p q : swaptype_ok st -> Forall elem_ok (S1 ++ [x] ++ S2 ++ [y] ++ S3) -> Z.of_nat es < 2 ^ 31 ->
  (p = at_ (length S1) /\ q = at_ (length (S1 ++ [x] ++ S2))) \/ (q = at_ (length S1) /\ p = at_ (length (S1 ++ [x] ++ S2))) ->
  wp (swap st (Z.of_nat es) p q) (mem_of (S1 ++ [x] ++ S2 ++ [y] ++ S3))
    (fun _ m' => m' = mem_of (S1 ++ [y] ++ S2 ++ [x] ++ S3)).
Proof.
  intros Hst Hok Hsmall Hpq. unfold swap. rewrite (sw_small 32 (Z.of_nat es)) by lia.
  pose proof (swapfunc_wp st S1 [x] S2 [y] S3 1 p q Hst Hok eq_refl eq_refl ltac:(lia)) as Hf. rewrite Nat.mul_1_l in Hf.
  specialize (Hf Hsmall Hpq). destruct (Z.eqb_spec st 0) as [->|Hne]; [|exact Hf].
  destruct Hst as [[_ E]|[[? _]|?]]; [|done..]. rewrite E in Hf. unfold swapfunc, swapcode in Hf.
  cbn [Z.leb Z.compare] in Hf. change (u64 (Z.of_nat 8) / Z.of_nat 8) with 1 in Hf. cbn [Z.max Z.compare Z.to_nat Pos.to_nat] in Hf.
  change (Pos.to_nat 1) with 1%nat in Hf. cbn [swapcode_loop] in Hf. apply wp_bind in Hf.
  eapply wp_mono; [exact Hf|]. by intros [] m'.
Qed.

(** An element swapped with itself. *)
Lemma swap_self_wp st S1 x S2 : swaptype_ok st -> Forall elem_ok (S1 ++ [x] ++ S2) -> Z.of_nat es < 2 ^ 31 ->
  wp (swap st (Z.of_nat es) (at_ (length S1)) (at_ (length S1))) (mem_of (S1 ++ [x] ++ S2))
    (fun _ m' => m' = mem_of (S1 ++ [x] ++ S2)).
Proof.
  intros Hst Hok Hsmall. pose proof (run_bytes S1 [x] S2 Hok) as Hb. cbn [concat] in Hb. rewrite app_nil_r in Hb.
  pose proof Hok as [_ [[[lx bx] _]%Forall_cons _]%Forall_app]%Forall_app.
  set (m := mem_of _) in *. clearbody m. assert (put (put m (at_ (length S1)) x) (at_ (length S1)) x = m) as Hid by (rewrite !(put_same m) by done; done).
  unfold swap, swapfunc. rewrite (sw_small 32 (Z.of_nat es)) by lia.
  assert (forall sz i, (0 < sz)%nat -> (es = sz * i)%nat -> wp (swapcode sz (at_ (length S1)) (at_ (length S1)) (Z.of_nat es)) m
    (fun _ m' => m' = m)) as Hgo.
  { intros sz i Hsz Hi. unfold swapcode. rewrite uw_small by lia. rewrite Hi at 1. rewrite <- Nat2Z.inj_div.
    rewrite Nat.mul_comm, Nat.div_mul by lia. assert (0 < i)%nat by nia.
    replace (Z.to_nat (Z.max 1 (Z.of_nat i))) with i by lia.
    eapply wp_mono; [apply (swapcode_loop_wp sz i _ _ _ x x)|]; try done; try lia.
    intros _ m' ->. done. }
  destruct (Z.eqb_spec st 0) as [->|Hne].
  - destruct Hst as [[_ E]|[[? _]|?]]; [|done..]. eapply wp_mono; [apply (swap_items_wp 8 m _ _ x x); (done || lia)|].
    intros _ m' ->. done.
  - destruct Hst as [[? _]|[[-> He]| ->]]; [done| |]; cbn [Z.leb Z.compare].
    + apply (Hgo 8%nat (es / 8)%nat); [lia|]. pose proof (Nat.div_mod es 8 ltac:(lia)). lia.
    + apply (Hgo 1%nat es); lia.
Qed.
(** * Sorting *)

Section sorting.
(** The comparison function orders the contents of two elements. *)
Context (cmp : Z -> Z -> M mem Z) (c : elem -> elem -> Z).
Hypothesis Hcmp : forall m p q x y, bytes_at m p x -> bytes_at m q y -> elem_ok x -> elem_ok y ->
  cmp p q m = Some (c x y, m).

Lemma array_elem L i x : array L -> L !! i = Some x -> elem_ok x /\ bytes_at (mem_of L) (at_ i) x.
Proof.
  intros Ha Hi. pose proof (a_elems _ Ha) as Hok. pose proof (Forall_lookup_1 _ _ _ _ Hok Hi) as Hx. split; [done|].
  apply take_drop_middle in Hi as E. rewrite <- E in Hok |- *.
  pose proof (run_bytes (take i L) [x] (drop (S i) L) Hok) as Hb. cbn [concat app] in Hb. rewrite app_nil_r, length_take in Hb.
  apply lookup_lt_Some in Hi. by replace (i `min` length L)%nat with i in Hb by lia.
Qed.

Lemma wp_cmp L i j x y Q : array L -> L !! i = Some x -> L !! j = Some y -> Q (c x y) (mem_of L) ->
  wp (cmp (at_ i) (at_ j)) (mem_of L) Q.
Proof.
  intros Ha Hi Hj HQ. destruct (array_elem L i x Ha Hi) as [Ox Bx], (array_elem L j y Ha Hj) as [Oy By].
  unfold wp. by rewrite (Hcmp _ _ _ x y).
Qed.

Lemma at_lt i j : at_ i < at_ j <-> (i < j)%nat.
Proof. unfold at_. nia. Qed.

Lemma at_le i j : at_ i <= at_ j <-> (i <= j)%nat.
Proof. unfold at_. nia. Qed.

Lemma at_S i : at_ i + Z.of_nat es = at_ (S i).
Proof. unfold at_. lia. Qed.

Lemma at_pred i : (0 < i)%nat -> at_ i - Z.of_nat es = at_ (pred i).
Proof. unfold at_. nia. Qed.

(** ** Exchanges by index *)

(** The index whose element ends up at [i] when [k] elements from [p] and from [q] trade places. *)
Definition xch (p q k i : nat) : nat :=
  if decide (p <= i < p + k)%nat then (i - p + q)%nat
  else if decide (q <= i < q + k)%nat then (i - q + p)%nat else i.

Definition exchanged (p q k : nat) L L' : Prop := L' ≡ₚ L /\ forall i, L' !!! i = L !!! xch p q k i.

Lemma segments L p q k : (p + k <= q)%nat -> (q + k <= length L)%nat -> exists S1 X S2 Y S3,
  L = S1 ++ X ++ S2 ++ Y ++ S3 /\ length S1 = p /\ length X = k /\ length (S1 ++ X ++ S2) = q /\ length Y = k.
Proof.
  intros Hp Hq. exists (take p L), (take k (drop p L)), (take (q - p - k) (drop (p + k) L)), (take k (drop q L)), (drop (q + k) L).
  rewrite !length_app, !length_take, !length_drop. split; [|lia].
  rewrite <- (take_drop p L) at 1. f_equal. rewrite <- (take_drop k (drop p L)) at 1. f_equal. rewrite drop_drop.
  rewrite <- (take_drop (q - p - k) (drop (p + k) L)) at 1. f_equal. rewrite drop_drop.
  replace (p + k + (q - p - k))%nat with q by lia. rewrite <- (take_drop k (drop q L)) at 1. f_equal. by rewrite drop_drop.
Qed.

Lemma segments_exchanged S1 X S2 Y S3 k : length X = k -> length Y = k ->
  exchanged (length S1) (length (S1 ++ X ++ S2)) k (S1 ++ X ++ S2 ++ Y ++ S3) (S1 ++ Y ++ S2 ++ X ++ S3).
Proof.
  intros lX lY. split; [solve_Permutation|]. intros i. rewrite !list_lookup_total_alt. f_equal. unfold xch. rewrite !length_app.
  destruct (decide (length S1 <= i < length S1 + k)%nat) as [H1|H1].
  { rewrite lookup_app_r, lookup_app_l by lia. do 3 rewrite lookup_app_r by lia. rewrite lookup_app_l by lia. f_equal. lia. }
  destruct (decide (length S1 + (length X + length S2) <= i < length S1 + (length X + length S2) + k)%nat) as [H2|H2].
  { do 3 rewrite lookup_app_r by lia. rewrite lookup_app_l by lia. symmetry. rewrite lookup_app_r, lookup_app_l by lia. f_equal. lia. }
  destruct (decide (i < length S1)%nat) as [H3|H3]; [by rewrite !lookup_app_l by lia|].
  destruct (decide (i < length S1 + (length X + length S2))%nat) as [H4|H4].
  - do 2 rewrite lookup_app_r by lia. rewrite lookup_app_l by lia. symmetry.
    do 2 rewrite lookup_app_r by lia. rewrite lookup_app_l by lia. f_equal. lia.
  - do 4 rewrite lookup_app_r by lia. symmetry. do 4 rewrite lookup_app_r by lia. f_equal. lia.
Qed.

(** Any two elements, by index. *)
Definition swapped (i j : nat) L L' : Prop :=
  L' ≡ₚ L /\ forall k, L' !!! k = if decide (k = i) then L !!! j else if decide (k = j) then L !!! i else L !!! k.

Lemma blocks_wp st L p q k a b : swaptype_ok st -> array L -> (p + k <= q)%nat -> (q + k <= length L)%nat -> (0 < k)%nat ->
  (a = at_ p /\ b = at_ q) \/ (b = at_ p /\ a = at_ q) ->
  wp (swapfunc a b (Z.of_nat (k * es)) st) (mem_of L) (fun _ m' => exists L', m' = mem_of L' /\ exchanged p q k L L').
Proof.
  intros Hst [Hok _ Hsm] Hp Hq Hk Hab. destruct (segments L p q k Hp Hq) as (S1 & X & S2 & Y & S3 & -> & <- & lX & <- & lY).
  eapply wp_mono; [apply (swapfunc_wp st S1 X S2 Y S3 k a b); try done; nia|]. intros _ m' ->.
  eexists. split; [done|]. by apply segments_exchanged.
Qed.

Lemma swap_at st L i j : swaptype_ok st -> array L -> (i < length L)%nat -> (j < length L)%nat ->
  wp (swap st (Z.of_nat es) (at_ i) (at_ j)) (mem_of L) (fun _ m' => exists L', m' = mem_of L' /\ swapped i j L L').
Proof.
  intros Hst [Hok _ Hsm] Hi Hj. assert (Z.of_nat es < 2 ^ 31) as He by nia.
  assert (forall p q, (p < q)%nat -> (q < length L)%nat -> (i = p /\ j = q) \/ (j = p /\ i = q) ->
    wp (swap st (Z.of_nat es) (at_ i) (at_ j)) (mem_of L) (fun _ m' => exists L', m' = mem_of L' /\ swapped i j L L')) as Hne.
  { intros p q Hp Hq Hij. destruct (segments L p q 1) as (S1 & X & S2 & Y & S3 & EL & E1 & lX & E2 & lY); [lia..|].
    destruct X as [|x [|]]; [done| |done]. destruct Y as [|y [|]]; [done| |done]. subst L.
    eapply wp_mono; [apply (swap_wp st S1 x S2 y S3); try done; rewrite E1, E2; destruct Hij as [[-> ->]|[-> ->]]; tauto|].
    intros _ m' ->. eexists. split; [done|]. destruct (segments_exchanged S1 [x] S2 [y] S3 1 eq_refl eq_refl) as [HP HX].
    rewrite E1, E2 in HX. split; [done|]. intros k. rewrite HX. unfold xch.
    repeat case_decide; try lia; f_equal; lia. }
  destruct (decide (i < j)%nat); [apply (Hne i j); (done || tauto)|].
  destruct (decide (j < i)%nat); [apply (Hne j i); (done || tauto)|]. assert (j = i) as -> by lia.
  destruct (lookup_lt_is_Some_2 L i Hi) as [x Hx]. apply take_drop_middle in Hx as EL. rewrite <- EL in Hok |- *.
  assert (at_ i = at_ (length (take i L))) as -> by (rewrite length_take; f_equal; lia).
  eapply wp_mono; [apply (swap_self_wp st (take i L) x (drop (S i) L)); done|]. intros _ m' ->.
  eexists. split; [done|]. split; [done|]. intros k. repeat case_decide; by subst.
Qed.

(** ** Changes within a range *)

(** [L'] has the elements of [L], rearranged between [lo] and [hi]. *)
Definition perm_on (lo hi : nat) L L' : Prop :=
  L' ≡ₚ L /\ forall i, (i < lo \/ hi <= i)%nat -> L' !!! i = L !!! i.

Lemma perm_on_refl lo hi L : perm_on lo hi L L.
Proof. done. Qed.

Lemma perm_on_trans lo hi L1 L2 L3 : perm_on lo hi L1 L2 -> perm_on lo hi L2 L3 -> perm_on lo hi L1 L3.
Proof. intros [P1 O1] [P2 O2]. split; [by rewrite P2|]. intros i Hi. by rewrite O2, O1. Qed.

Lemma perm_on_weaken lo hi lo' hi' L L' : perm_on lo' hi' L L' -> (lo <= lo')%nat -> (hi' <= hi)%nat -> perm_on lo hi L L'.
Proof. intros [P O] Hl Hh. split; [done|]. intros i Hi. apply O. lia. Qed.

Lemma perm_on_length lo hi L L' : perm_on lo hi L L' -> length L' = length L.
Proof. intros [P _]. by rewrite P. Qed.

Lemma perm_on_array lo hi L L' : perm_on lo hi L L' -> array L -> array L'.
Proof. intros [P _]. by apply array_perm. Qed.

Lemma swapped_on lo hi i j L L' : swapped i j L L' -> (lo <= i < hi)%nat -> (lo <= j < hi)%nat -> perm_on lo hi L L'.
Proof. intros [P O] Hi Hj. split; [done|]. intros k Hk. rewrite O. repeat case_decide; by (lia || done). Qed.

Lemma exchanged_on lo hi p q k L L' : exchanged p q k L L' -> (lo <= p)%nat -> (p + k <= q)%nat -> (q + k <= hi)%nat -> perm_on lo hi L L'.
Proof. intros [P O] ???. split; [done|]. intros i Hi. rewrite O. unfold xch. repeat case_decide; by (lia || done). Qed.

Lemma take_total L L' n : length L = length L' -> (forall i, (i < n)%nat -> L' !!! i = L !!! i) -> take n L' = take n L.
Proof.
  intros Hlen Ht. apply list_eq_same_length with (n `min` length L)%nat; rewrite ?length_take; [lia..|].
  intros i x y Hi. rewrite !lookup_take_lt by lia. intros Hx Hy. apply list_lookup_total_correct in Hx, Hy. rewrite <- Hx, <- Hy. apply Ht. lia.
Qed.

Lemma drop_total L L' n : length L = length L' -> (forall i, (n <= i)%nat -> L' !!! i = L !!! i) -> drop n L' = drop n L.
Proof.
  intros Hlen Ht. apply list_eq_same_length with (length L - n)%nat; rewrite ?length_drop; [lia..|].
  intros i x y Hi. rewrite !lookup_drop. intros Hx Hy. apply list_lookup_total_correct in Hx, Hy. rewrite <- Hx, <- Hy. apply Ht. lia.
Qed.

(** A property of the elements of a range survives their rearrangement. *)
Lemma perm_on_all lo hi L L' (P : elem -> Prop) : perm_on lo hi L L' -> (lo <= hi <= length L)%nat ->
  (forall i, (lo <= i < hi)%nat -> P (L !!! i)) -> forall i, (lo <= i < hi)%nat -> P (L' !!! i).
Proof.
  intros Hp Hh HP i Hi. pose proof (perm_on_length _ _ _ _ Hp) as Hlen. destruct Hp as [Hp Ho].
  set (mid := fun X : list elem => take (hi - lo) (drop lo X)).
  assert (forall X, length X = length L -> X = take lo X ++ mid X ++ drop hi X) as Hsplit.
  { intros X _. rewrite <- (take_drop lo X) at 1. f_equal. unfold mid. rewrite <- (take_drop (hi - lo) (drop lo X)) at 1.
    f_equal. rewrite drop_drop. f_equal. lia. }
  assert (mid L' ≡ₚ mid L) as Hm.
  { rewrite (Hsplit L'), (Hsplit L) in Hp by done. rewrite (take_total L L'), (drop_total L L') in Hp; try (intros; apply Ho; lia); try done.
    by apply (inj (take lo L ++.)), (inj (.++ drop hi L)) in Hp. }
  assert (mid L' !! (i - lo)%nat = Some (L' !!! i)) as Hx.
  { unfold mid. rewrite lookup_take_lt, lookup_drop by lia. replace (lo + (i - lo))%nat with i by lia. apply list_lookup_lookup_total_lt. lia. }
  apply list_elem_of_lookup_2 in Hx. rewrite Hm in Hx. apply list_elem_of_lookup in Hx as (j & Hj).
  unfold mid in Hj. apply lookup_take_Some in Hj as [Hj Hlt]. rewrite lookup_drop in Hj. apply list_lookup_total_correct in Hj.
  rewrite <- Hj. apply HP. lia.
Qed.

(** The comparison is a total preorder. *)
Hypothesis c_anti : forall x y, c x y < 0 <-> 0 < c y x.
Hypothesis c_trans : forall x y z, c x y <= 0 -> c y z <= 0 -> c x z <= 0.

Definition sorted_on (lo hi : nat) L : Prop := forall a b, (lo <= a < b)%nat -> (b < hi)%nat -> c (L !!! a) (L !!! b) <= 0.

(** The memory holds a rearrangement with the property [Φ]. *)
Definition arranged (lo hi : nat) L (Φ : list elem -> Prop) (m' : mem) : Prop :=
  exists L', m' = mem_of L' /\ perm_on lo hi L L' /\ Φ L'.

Lemma cmp_at L i j Q : array L -> (i < length L)%nat -> (j < length L)%nat -> Q (c (L !!! i) (L !!! j)) (mem_of L) ->
  wp (cmp (at_ i) (at_ j)) (mem_of L) Q.
Proof. intros Ha Hi Hj. apply wp_cmp; [done|by apply list_lookup_lookup_total_lt..]. Qed.

Lemma arranged_trans lo hi L L1 Φ m' : perm_on lo hi L L1 -> arranged lo hi L1 Φ m' -> arranged lo hi L Φ m'.
Proof. intros H1 (L' & -> & H2 & HP). exists L'. split; [done|]. split; [by eapply perm_on_trans|done]. Qed.

(** ** Insertion sort *)

(** While the element at [i] sinks, only its order with those before it is open. *)
Lemma sink_wp st lo pm : swaptype_ok st -> forall fuel i L, array L -> (lo <= i <= pm)%nat -> (pm < length L)%nat -> (i - lo < fuel)%nat ->
  (forall a b, (lo <= a < b)%nat -> (b <= pm)%nat -> b ≠ i -> c (L !!! a) (L !!! b) <= 0) ->
  wp (sink cmp fuel st (Z.of_nat es) (at_ lo) (at_ i)) (mem_of L) (fun _ => arranged lo (S pm) L (sorted_on lo (S pm))).
Proof.
  intros Hst fuel. induction fuel as [|fuel IH]; intros i L Ha Hi Hpm Hf Hs; [lia|]. cbn [sink].
  assert ((forall a, (lo <= a < i)%nat -> c (L !!! a) (L !!! i) <= 0) -> arranged lo (S pm) L (sorted_on lo (S pm)) (mem_of L)) as Hstop.
  { intros Hi2. exists L. split; [done|]. split; [done|]. intros a b Hab Hb. destruct (decide (b = i)) as [->|]; [apply Hi2; lia|apply Hs; lia]. }
  destruct (Z.ltb_spec (at_ lo) (at_ i)) as [Hlt%at_lt|Hge%at_le]; [|wp_step; apply Hstop; lia].
  rewrite at_pred by lia. wp_step. apply cmp_at; [done|lia..|]. destruct (Z.ltb_spec 0 (c (L !!! pred i) (L !!! i))) as [Hc|Hc].
  - wp_step. eapply wp_mono; [apply swap_at; (done || lia)|]. intros _ m' (L1 & -> & Hsw).
    pose proof (swapped_on lo (S pm) _ _ _ _ Hsw ltac:(lia) ltac:(lia)) as Hon. destruct Hsw as [_ Hsw].
    eapply wp_mono; [apply (IH (pred i) L1)|intros [] m1; by apply arranged_trans].
    + by eapply perm_on_array.
    + lia.
    + by rewrite (perm_on_length _ _ _ _ Hon).
    + lia.
    + apply c_anti in Hc. intros a b Hab Hb Hbi. rewrite !Hsw. repeat case_decide; try lia; subst; apply Hs || lia; lia.
  - wp_step. apply Hstop. intros a Hai. destruct (decide (a = pred i)) as [->|]; [done|].
    apply c_trans with (L !!! pred i); [apply Hs; lia|done].
Qed.

Lemma insertion_wp st lo hi : swaptype_ok st -> forall fuel i L, array L -> (lo <= i)%nat -> (hi <= length L)%nat -> (hi - i < fuel)%nat ->
  sorted_on lo i L ->
  wp (insertion cmp fuel st (Z.of_nat es) (at_ lo) (at_ hi) (at_ i)) (mem_of L) (fun _ => arranged lo hi L (sorted_on lo hi)).
Proof.
  intros Hst fuel. induction fuel as [|fuel IH]; intros i L Ha Hi Hhi Hf Hs; [lia|]. cbn [insertion].
  destruct (Z.ltb_spec (at_ i) (at_ hi)) as [Hlt%at_lt|Hge%at_le].
  - wp_step. replace (Z.to_nat ((at_ i - at_ lo) / Z.of_nat es)) with (i - lo)%nat.
    2:{ unfold at_. replace (A + Z.of_nat (i * es) - (A + Z.of_nat (lo * es))) with (Z.of_nat (i - lo) * Z.of_nat es) by nia.
        rewrite Z.div_mul by lia. lia. }
    eapply wp_mono; [apply (sink_wp st lo i Hst)|]; try lia; try done.
    { intros a b Hab Hb Hne. apply Hs; lia. }
    intros _ m' (L1 & -> & Hon & Hs1). rewrite at_S. eapply wp_mono; [apply (IH (S i) L1)|].
    + by eapply perm_on_array.
    + lia.
    + by rewrite (perm_on_length _ _ _ _ Hon).
    + lia.
    + done.
    + intros [] m1. apply arranged_trans. eapply perm_on_weaken; [done|lia..].
  - wp_step. exists L. split; [done|]. split; [done|]. intros a b Hab Hb. apply Hs; lia.
Qed.

(** ** Partition *)

(** Around the pivot [v]: equal elements up to [ia], smaller ones up to [ib],
    larger ones behind [ic] and equal ones behind [id]. *)
Record split_at (lo hi : nat) (v : elem) (ia ib ic id : nat) L : Prop := {
  sp_bounds : (lo < ia <= ib /\ ib <= S ic /\ ic <= id < hi /\ hi <= length L)%nat;
  sp_pivot : L !!! lo = v;
  sp_eq1 : forall i, (lo <= i < ia)%nat -> c (L !!! i) v = 0;
  sp_lt : forall i, (ia <= i < ib)%nat -> c (L !!! i) v < 0;
  sp_gt : forall i, (ic < i <= id)%nat -> 0 < c (L !!! i) v;
  sp_eq2 : forall i, (id < i < hi)%nat -> c (L !!! i) v = 0;
}.

Definition split_cursors lo hi v L (k : cursors) (m' : mem) (Ψ : nat -> nat -> list elem -> Prop) : Prop :=
  exists ia ib ic id, k = MkCursors (at_ ia) (at_ ib) (at_ ic) (at_ id) (swap_cnt k) /\
    arranged lo hi L (fun L' => split_at lo hi v ia ib ic id L' /\ Ψ ib ic L') m'.

Lemma split_cursors_trans lo hi v L L1 k m' Ψ : perm_on lo hi L L1 -> split_cursors lo hi v L1 k m' Ψ -> split_cursors lo hi v L k m' Ψ.
Proof. intros Hp (ia & ib & ic & id & Hk & Ha). exists ia, ib, ic, id. split; [done|]. by eapply arranged_trans. Qed.

Lemma split_cursors_mono lo hi v L k m' (Ψ Ψ' : nat -> nat -> list elem -> Prop) : split_cursors lo hi v L k m' Ψ ->
  (forall ib ic L', Ψ ib ic L' -> Ψ' ib ic L') -> split_cursors lo hi v L k m' Ψ'.
Proof.
  intros (ia & ib & ic & id & Hk & L' & -> & Hp & Hs & HΨ) Hm. exists ia, ib, ic, id. split; [done|]. exists L'. auto.
Qed.

(** The cases of an index after two elements traded places. *)
Ltac after_swap Hsw H :=
  intros ? ?; rewrite Hsw; repeat case_decide; subst; first [lia | apply H; lia | done].

Lemma up_wp st lo hi v : swaptype_ok st -> forall fuel ia ib ic id sc L, array L -> split_at lo hi v ia ib ic id L -> (S ic - ib < fuel)%nat ->
  wp (up cmp fuel st (Z.of_nat es) (at_ lo) (MkCursors (at_ ia) (at_ ib) (at_ ic) (at_ id) sc)) (mem_of L)
    (fun k m' => split_cursors lo hi v L k m' (fun ib' ic' L' => ic' = ic /\ (ib <= ib')%nat /\ ((ib' <= ic)%nat -> 0 < c (L' !!! ib') v))).
Proof.
  intros Hst fuel. induction fuel as [|fuel IH]; intros ia ib ic id sc L Ha Hs Hf; [lia|]. cbn [up pa pb pc pd].
  pose proof Hs as [Hb Hv E1 El Eg E2].
  assert (((ib <= ic)%nat -> 0 < c (L !!! ib) v) -> split_cursors lo hi v L (MkCursors (at_ ia) (at_ ib) (at_ ic) (at_ id) sc) (mem_of L)
    (fun ib' ic' L' => ic' = ic /\ (ib <= ib')%nat /\ ((ib' <= ic)%nat -> 0 < c (L' !!! ib') v))) as Hstop.
  { intros Hc. exists ia, ib, ic, id. split; [done|].
    exists L. do 3 (split; [done|]). split; [lia|done]. }
  destruct (Z.leb_spec (at_ ib) (at_ ic)) as [Hle%at_le|Hgt%at_lt]; [|wp_step; apply Hstop; lia].
  wp_step. apply cmp_at; [done|lia..|]. rewrite Hv. destruct (Z.leb_spec (c (L !!! ib) v) 0) as [Hc|Hc]; [|wp_step; by apply Hstop].
  rewrite !at_S. destruct (Z.eqb_spec (c (L !!! ib) v) 0) as [Hz|Hz].
  - wp_step. eapply wp_mono; [apply swap_at; (done || lia)|]. intros [] m1 (L1 & -> & Hsw).
    pose proof (swapped_on lo hi _ _ _ _ Hsw ltac:(lia) ltac:(lia)) as Hon. pose proof (perm_on_length _ _ _ _ Hon) as Hlen. destruct Hsw as [_ Hsw].
    eapply wp_mono; [apply (IH (S ia) (S ib) ic id true L1)|].
    + by eapply perm_on_array.
    + split.
      * lia.
      * rewrite Hsw. repeat case_decide; [lia..|done].
      * after_swap Hsw E1.
      * after_swap Hsw El.
      * after_swap Hsw Eg.
      * after_swap Hsw E2.
    + lia.
    + intros k m' Hk. apply (split_cursors_trans _ _ _ _ _ _ _ _ Hon). eapply split_cursors_mono; [exact Hk|]. intros ib' ic' L'. intuition lia.
  - eapply wp_mono; [apply (IH ia (S ib) ic id sc L)|].
    + done.
    + split; try done; [lia|]. intros i Hi. destruct (decide (i = ib)) as [->|]; [lia|apply El; lia].
    + lia.
    + intros k m' Hk. eapply split_cursors_mono; [exact Hk|]. intros ib' ic' L'. intuition lia.
Qed.

Lemma down_wp st lo hi v : swaptype_ok st -> forall fuel ia ib ic id sc L, array L -> split_at lo hi v ia ib ic id L -> (S ic - ib < fuel)%nat ->
  ((ib <= ic)%nat -> 0 < c (L !!! ib) v) ->
  wp (down cmp fuel st (Z.of_nat es) (at_ lo) (MkCursors (at_ ia) (at_ ib) (at_ ic) (at_ id) sc)) (mem_of L)
    (fun k m' => split_cursors lo hi v L k m' (fun ib' ic' L' => ib' = ib /\ (ic' <= ic)%nat /\
      ((ib <= ic')%nat -> c (L' !!! ic') v < 0 /\ 0 < c (L' !!! ib) v))).
Proof.
  intros Hst fuel. induction fuel as [|fuel IH]; intros ia ib ic id sc L Ha Hs Hf Hib; [lia|]. cbn [down pa pb pc pd].
  pose proof Hs as [Hb Hv E1 El Eg E2].
  assert (((ib <= ic)%nat -> c (L !!! ic) v < 0) -> split_cursors lo hi v L (MkCursors (at_ ia) (at_ ib) (at_ ic) (at_ id) sc) (mem_of L)
    (fun ib' ic' L' => ib' = ib /\ (ic' <= ic)%nat /\ ((ib <= ic')%nat -> c (L' !!! ic') v < 0 /\ 0 < c (L' !!! ib) v))) as Hstop.
  { intros Hc. exists ia, ib, ic, id. split; [done|]. exists L. do 3 (split; [done|]). split; [lia|auto]. }
  destruct (Z.leb_spec (at_ ib) (at_ ic)) as [Hle%at_le|Hgt%at_lt]; [|wp_step; apply Hstop; lia]. specialize (Hib Hle).
  wp_step. apply cmp_at; [done|lia..|]. rewrite Hv. destruct (Z.leb_spec 0 (c (L !!! ic) v)) as [Hc|Hc]; [|wp_step; by apply Hstop].
  rewrite !at_pred by lia. destruct (Z.eqb_spec (c (L !!! ic) v) 0) as [Hz|Hz].
  - assert (ib ≠ ic) as Hne by (intros ->; lia).
    wp_step. eapply wp_mono; [apply swap_at; (done || lia)|]. intros [] m1 (L1 & -> & Hsw).
    pose proof (swapped_on lo hi _ _ _ _ Hsw ltac:(lia) ltac:(lia)) as Hon. pose proof (perm_on_length _ _ _ _ Hon) as Hlen. destruct Hsw as [_ Hsw].
    eapply wp_mono; [apply (IH ia ib (pred ic) (pred id) true L1)|].
    + by eapply perm_on_array.
    + split.
      * lia.
      * rewrite Hsw. repeat case_decide; [lia..|done].
      * after_swap Hsw E1.
      * after_swap Hsw El.
      * after_swap Hsw Eg.
      * intros i Hi. rewrite Hsw. destruct (decide (i = ic)); [by replace id with ic by lia|]. destruct (decide (i = id)); [done|apply E2; lia].
    + lia.
    + intros _. rewrite Hsw. repeat case_decide; subst; (done || lia).
    + intros k m' Hk. apply (split_cursors_trans _ _ _ _ _ _ _ _ Hon). eapply split_cursors_mono; [exact Hk|]. intros ib' ic' L'. intuition lia.
  - eapply wp_mono; [apply (IH ia ib (pred ic) id sc L)|].
    + done.
    + split; try done; [lia|]. intros i Hi. destruct (decide (i = ic)) as [->|]; [lia|apply Eg; lia].
    + lia.
    + done.
    + intros k m' Hk. eapply split_cursors_mono; [exact Hk|]. intros ib' ic' L'. intuition lia.
Qed.

Lemma partition_wp st lo hi v : swaptype_ok st -> forall fuel ia ib ic id sc L, array L -> split_at lo hi v ia ib ic id L -> (S ic - ib < fuel)%nat ->
  wp (partition cmp fuel st (Z.of_nat es) (at_ lo) (MkCursors (at_ ia) (at_ ib) (at_ ic) (at_ id) sc)) (mem_of L)
    (fun k m' => split_cursors lo hi v L k m' (fun ib' ic' _ => ib' = S ic')).
Proof.
  intros Hst fuel. induction fuel as [|fuel IH]; intros ia ib ic id sc L Ha Hs Hf; [lia|]. cbn [partition].
  wp_step. eapply wp_mono; [apply (up_wp st lo hi v Hst); done|].
  intros k1 m1 (ia1 & ib1 & ic1 & id1 & -> & L1 & -> & Hp1 & Hs1 & -> & Hib1 & Hc1). cbn [swap_cnt].
  wp_step. eapply wp_mono; [apply (down_wp st lo hi v Hst); try done; [by eapply perm_on_array|lia]|].
  intros k2 m2 (ia2 & ib2 & ic2 & id2 & -> & L2 & -> & Hp2 & Hs2 & -> & Hic2 & Hc2). cbn [pb pc].
  pose proof (perm_on_trans _ _ _ _ _ Hp1 Hp2) as Hp. pose proof (perm_on_array _ _ _ _ Hp Ha) as Ha2. pose proof Hs2 as [Hb Hv E1 El Eg E2].
  destruct (Z.ltb_spec (at_ ic2) (at_ ib1)) as [Hlt%at_lt|Hge%at_le].
  - wp_step. exists ia2, ib1, ic2, id2. split; [done|]. exists L2. do 2 (split; [done|]). split; [done|lia].
  - specialize (Hc2 Hge) as [Hc2 Hc3]. assert (ib1 ≠ ic2) as Hne by (intros ->; lia). cbn [pa pd].
    wp_step. eapply wp_mono; [apply swap_at; (done || lia)|]. intros [] m3 (L3 & -> & Hsw).
    pose proof (swapped_on lo hi _ _ _ _ Hsw ltac:(lia) ltac:(lia)) as Hon. pose proof (perm_on_length _ _ _ _ Hon) as Hlen. destruct Hsw as [_ Hsw].
    rewrite at_S, at_pred by lia. eapply wp_mono; [apply (IH ia2 (S ib1) (pred ic2) id2 true L3)|].
    + by eapply perm_on_array.
    + split.
      * lia.
      * rewrite Hsw. repeat case_decide; [lia..|done].
      * after_swap Hsw E1.
      * after_swap Hsw El.
      * after_swap Hsw Eg.
      * after_swap Hsw E2.
    + lia.
    + intros k m' Hk. apply (split_cursors_trans _ _ _ _ _ _ _ _ (perm_on_trans _ _ _ _ _ Hp Hon)). exact Hk.
Qed.

(** ** The pivot *)

Lemma at_off i k : at_ i + Z.of_nat k * Z.of_nat es = at_ (i + k).
Proof. unfold at_. lia. Qed.

Definition picked L (P : nat -> Prop) (r : Z) (m' : mem) : Prop := m' = mem_of L /\ exists x, P x /\ r = at_ x.

Lemma med3_wp L i j k : array L -> (i < length L)%nat -> (j < length L)%nat -> (k < length L)%nat ->
  wp (med3 cmp (at_ i) (at_ j) (at_ k)) (mem_of L) (picked L (fun x => x = i \/ x = j \/ x = k)).
Proof.
  intros Ha Hi Hj Hk. unfold med3, picked. wp_step. apply cmp_at; [done..|].
  case_if; wp_step; (apply cmp_at; [done..|]); case_if; wp_step; try (apply cmp_at; [done..|]; case_if);
    (split; [done|]; eexists; split; [|reflexivity]; tauto).
Qed.

Lemma med3_in L lo hi i j k : array L -> (hi <= length L)%nat -> (lo <= i < hi)%nat -> (lo <= j < hi)%nat -> (lo <= k < hi)%nat ->
  wp (med3 cmp (at_ i) (at_ j) (at_ k)) (mem_of L) (picked L (fun x => lo <= x < hi)%nat).
Proof.
  intros Ha Hh Hi Hj Hk. eapply wp_mono; [apply med3_wp; (done || lia)|]. intros r m' (-> & x & Hx & ->).
  split; [done|]. exists x. split; [lia|done].
Qed.

Lemma pivot_wp L lo n : array L -> (lo + n <= length L)%nat -> (7 <= n)%nat ->
  wp (pivot cmp (at_ lo) (Z.of_nat n) (Z.of_nat es)) (mem_of L) (picked L (fun x => lo <= x < lo + n)%nat).
Proof.
  intros Ha Hl Hn. pose proof (a_small _ Ha) as Hsm. unfold pivot.
  pose proof (Nat.div_mod n 2 ltac:(lia)). pose proof (Nat.mod_upper_bound n 2 ltac:(lia)).
  pose proof (Nat.div_mod n 8 ltac:(lia)). pose proof (Nat.mod_upper_bound n 8 ltac:(lia)).
  replace (Z.of_nat n / 2) with (Z.of_nat (n / 2)) by (by rewrite Nat2Z.inj_div). rewrite at_off.
  destruct (Z.ltb_spec 7 (Z.of_nat n)) as [H7|H7]; [|wp_step; split; [done|]; exists (lo + n / 2)%nat; split; [lia|done]].
  replace (Z.of_nat n - 1) with (Z.of_nat (n - 1)) by lia. rewrite at_off. apply wp_bind.
  apply wp_mono with (fun t m' => m' = mem_of L /\ exists i j k, (lo <= i < lo + n)%nat /\ (lo <= j < lo + n)%nat /\ (lo <= k < lo + n)%nat /\
    t = (at_ i, at_ j, at_ k)).
  - destruct (Z.ltb_spec 40 (Z.of_nat n)) as [H40|H40].
    2:{ wp_step. split; [done|]. exists lo, (lo + n / 2)%nat, (lo + (n - 1))%nat. split_and!; (done || lia). }
    replace (Z.of_nat n / 8) with (Z.of_nat (n / 8)) by (by rewrite Nat2Z.inj_div). rewrite (sw_small 32) by nia.
    set (e := (n / 8)%nat) in *. set (h := (n / 2)%nat) in *.
    replace (at_ lo + 2 * (Z.of_nat e * Z.of_nat es)) with (at_ (lo + 2 * e)) by (unfold at_; nia).
    replace (at_ (lo + h) - Z.of_nat e * Z.of_nat es) with (at_ (lo + h - e)) by (unfold at_; nia).
    replace (at_ (lo + (n - 1)) - 2 * (Z.of_nat e * Z.of_nat es)) with (at_ (lo + (n - 1) - 2 * e)) by (unfold at_; nia).
    replace (at_ (lo + (n - 1)) - Z.of_nat e * Z.of_nat es) with (at_ (lo + (n - 1) - e)) by (unfold at_; nia).
    rewrite !at_off.
    do 3 (wp_step; eapply wp_mono; [apply (med3_in L lo (lo + n)); (done || lia)|]; intros ? ? (-> & ? & ? & ->)).
    wp_step. split; [done|]. eauto 10.
  - intros [[pl pm] pn] m' (-> & i & j & k & Hi & Hj & Hk & [= -> -> ->]). by apply med3_in.
Qed.

(** ** Putting the parts together *)

Lemma vecswap_wp st L p q k : swaptype_ok st -> array L -> (p + k <= q)%nat -> (q + k <= length L)%nat ->
  wp (vecswap st (at_ p) (at_ q) (Z.of_nat (k * es))) (mem_of L) (fun _ m' => exists L', m' = mem_of L' /\ exchanged p q k L L').
Proof.
  intros Hst Ha Hp Hq. unfold vecswap. apply wp_when. destruct (Z.ltb_spec 0 (Z.of_nat (k * es))).
  - apply blocks_wp; (done || tauto || nia).
  - exists L. split; [done|]. split; [done|]. intros i. unfold xch. assert (k = 0)%nat as -> by nia. repeat case_decide; (lia || done).
Qed.

(** Two adjacent runs trade places when the shorter one is exchanged with the far end of the other. *)
Lemma runs_exchanged p m q s L L' : (p <= m <= q)%nat -> s = Nat.min (m - p) (q - m) -> exchanged p (q - s) s L L' ->
  forall i, exists j, L' !!! i = L !!! j /\ ((p <= i < p + (q - m))%nat -> (m <= j < q)%nat) /\
    ((p + (q - m) <= i < q)%nat -> (p <= j < m)%nat) /\ ((i < p \/ q <= i)%nat -> j = i).
Proof.
  intros Hm Hs [_ Hx] i. exists (xch p (q - s) s i). split; [by rewrite Hx|]. unfold xch.
  destruct (Nat.min_spec (m - p) (q - m)) as [[? E]|[? E]]; rewrite E in Hs; subst s; repeat case_decide; lia.
Qed.

(** The equal elements moved to the middle. *)
Lemma three_way lo hi v ia ib ic id L L1 L2 s t : split_at lo hi v ia ib ic id L -> ib = S ic ->
  s = Nat.min (ia - lo) (ib - ia) -> t = Nat.min (S id - ib) (hi - S id) ->
  exchanged lo (ib - s) s L L1 -> exchanged ib (hi - t) t L1 L2 -> forall i,
  ((lo <= i < lo + (ib - ia))%nat -> c (L2 !!! i) v < 0) /\
  ((lo + (ib - ia) <= i < hi - (S id - ib))%nat -> c (L2 !!! i) v = 0) /\
  ((hi - (S id - ib) <= i < hi)%nat -> 0 < c (L2 !!! i) v).
Proof.
  intros [Hb Hv E1 El Eg E2] Hib Hs Ht H1 H2 i.
  destruct (runs_exchanged ib (S id) hi t L1 L2 ltac:(lia) Ht H2 i) as (j & -> & J1 & J2 & J3).
  destruct (runs_exchanged lo ia ib s L L1 ltac:(lia) Hs H1 j) as (k & -> & K1 & K2 & K3). clear H1 H2 Hs Ht.
  split; [|split]; intros Hi.
  - apply El. lia.
  - destruct (decide (i < ib)%nat); [apply E1; lia|]. apply E2. lia.
  - apply Eg. lia.
Qed.

Lemma thirds_sorted lo m1 m2 hi v L : (lo <= m1 <= m2)%nat -> (m2 <= hi)%nat ->
  (forall i, (lo <= i < m1)%nat -> c (L !!! i) v < 0) -> (forall i, (m1 <= i < m2)%nat -> c (L !!! i) v = 0) ->
  (forall i, (m2 <= i < hi)%nat -> 0 < c (L !!! i) v) -> sorted_on lo m1 L -> sorted_on m2 hi L -> sorted_on lo hi L.
Proof.
  intros Hm1 Hm2 Hlt Heq Hgt S1 S2 a b Hab Hb.
  assert (forall i, (lo <= i < m2)%nat -> c (L !!! i) v <= 0) as Hle.
  { intros i Hi. destruct (decide (i < m1)%nat); [specialize (Hlt i); lia|specialize (Heq i); lia]. }
  assert (forall i, (m1 <= i < hi)%nat -> c v (L !!! i) <= 0) as Hge.
  { intros i Hi. destruct (decide (i < m2)%nat) as [Hd|Hd].
    - specialize (Heq i ltac:(lia)). pose proof (c_anti (L !!! i) v). pose proof (c_anti v (L !!! i)). lia.
    - specialize (Hgt i ltac:(lia)). apply c_anti in Hgt. lia. }
  destruct (decide (b < m1)%nat); [apply S1; lia|]. destruct (decide (m2 <= a)%nat); [apply S2; lia|].
  apply c_trans with v; [apply Hle; lia|apply Hge; lia].
Qed.

Lemma sorted_on_short lo hi L : (hi <= S lo)%nat -> sorted_on lo hi L.
Proof. intros Hh a b. lia. Qed.

Lemma at_diff i j : (i <= j)%nat -> at_ j - at_ i = Z.of_nat ((j - i) * es).
Proof. intros. unfold at_. nia. Qed.

Lemma at_back i k : (k <= i)%nat -> at_ i - Z.of_nat (k * es) = at_ (i - k).
Proof. intros. unfold at_. nia. Qed.

Lemma min_runs i j : min (Z.of_nat (i * es)) (Z.of_nat (j * es)) = Z.of_nat (Nat.min i j * es).
Proof. unfold min. destruct (Z.ltb_spec (Z.of_nat (i * es)) (Z.of_nat (j * es))); f_equal; nia. Qed.

(** A recursive call, when the run has two elements or more. *)
Lemma part_wp fuel p k L : array L -> (p + k <= length L)%nat -> Z.of_nat es < 2 ^ 31 ->
  wp (qsort cmp fuel (at_ p) (Z.of_nat k) (Z.of_nat es)) (mem_of L) (fun _ => arranged p (p + k) L (sorted_on p (p + k))) ->
  wp (when (s32 (Z.of_nat es) <? Z.of_nat (k * es)) (qsort cmp fuel (at_ p) (u64 (Z.of_nat (k * es)) / Z.of_nat es) (Z.of_nat es))) (mem_of L)
    (fun _ => arranged p (p + k) L (sorted_on p (p + k))).
Proof.
  intros Ha Hk He Hq. pose proof (a_small _ Ha). rewrite (sw_small 32), uw_small by nia.
  replace (Z.of_nat (k * es) / Z.of_nat es) with (Z.of_nat k) by (rewrite Nat2Z.inj_mul, Z.div_mul by lia; done).
  apply wp_when. destruct (Z.ltb_spec (Z.of_nat es) (Z.of_nat (k * es))); [done|].
  exists L. split; [done|]. split; [done|]. apply sorted_on_short. nia.
Qed.

Lemma gather_wp st lo hi v ia ib ic id sc L : swaptype_ok st -> array L -> split_at lo hi v ia ib ic id L -> ib = S ic ->
  wp (gather st (Z.of_nat es) (at_ lo) (at_ hi) (MkCursors (at_ ia) (at_ ib) (at_ ic) (at_ id) sc)) (mem_of L)
    (fun _ => arranged lo hi L (fun L' => forall i, ((lo <= i < lo + (ib - ia))%nat -> c (L' !!! i) v < 0) /\
      ((lo + (ib - ia) <= i < hi - (S id - ib))%nat -> c (L' !!! i) v = 0) /\
      ((hi - (S id - ib) <= i < hi)%nat -> 0 < c (L' !!! i) v))).
Proof.
  intros Hst Ha Hs Hib. pose proof (sp_bounds _ _ _ _ _ _ _ _ Hs) as Hb. pose proof (a_small _ Ha) as Hsm.
  assert (Z.of_nat es < 2 ^ 31) as He by nia. unfold gather. cbn [pa pb pc pd].
  set (s := Nat.min (ia - lo) (ib - ia)). set (t := Nat.min (S id - ib) (hi - S id)).
  assert (s32 (min (at_ ia - at_ lo) (at_ ib - at_ ia)) = Z.of_nat (s * es)) as ->.
  { rewrite !at_diff, min_runs by lia. apply sw_small; [done|]. fold s. assert (s <= length L)%nat by lia. nia. }
  assert (s32 (min (at_ id - at_ ic) (at_ hi - at_ id - s32 (Z.of_nat es))) = Z.of_nat (t * es)) as ->.
  { rewrite (sw_small 32 (Z.of_nat es)), !at_diff by lia. replace (Z.of_nat ((hi - id) * es) - Z.of_nat es) with (Z.of_nat ((hi - S id) * es)) by nia.
    rewrite min_runs. replace (id - ic)%nat with (S id - ib)%nat by lia. apply sw_small; [done|]. fold t. assert (t <= length L)%nat by lia. nia. }
  rewrite !at_back by lia. wp_step.
  eapply wp_mono; [apply (vecswap_wp st L lo (ib - s) s); (done || lia)|]. intros [] ? (L1 & -> & H1).
  pose proof (exchanged_on lo hi _ _ _ _ _ H1 ltac:(lia) ltac:(lia) ltac:(lia)) as P1.
  eapply wp_mono; [apply (vecswap_wp st L1 ib (hi - t) t); [done|by eapply perm_on_array|lia|]|].
  { rewrite (perm_on_length _ _ _ _ P1). lia. }
  intros [] ? (L2 & -> & H2). pose proof (exchanged_on lo hi _ _ _ _ _ H2 ltac:(lia) ltac:(lia) ltac:(lia)) as P2.
  exists L2. split; [done|]. split; [by eapply perm_on_trans|]. by apply (three_way lo hi v ia ib ic id L L1 L2 s t).
Qed.

(** Both ends sorted in turn, the whole is. *)
Lemma parts_sorted lo m1 m2 hi v L3 L4 L5 : (lo <= m1 <= m2)%nat -> (m2 <= hi)%nat -> (hi <= length L3)%nat ->
  (forall i, ((lo <= i < m1)%nat -> c (L3 !!! i) v < 0) /\ ((m1 <= i < m2)%nat -> c (L3 !!! i) v = 0) /\
    ((m2 <= i < hi)%nat -> 0 < c (L3 !!! i) v)) ->
  perm_on lo m1 L3 L4 -> sorted_on lo m1 L4 -> perm_on m2 hi L4 L5 -> sorted_on m2 hi L5 ->
  perm_on lo hi L3 L5 /\ sorted_on lo hi L5.
Proof.
  intros Hm1 Hm2 Hhi H3 Hon4 H4 Hon5 H5. pose proof (perm_on_length _ _ _ _ Hon4) as Hl4.
  assert (forall i, (i < m2 \/ hi <= i)%nat -> L5 !!! i = L4 !!! i) as O5 by apply Hon5.
  assert (forall i, (i < lo \/ m1 <= i)%nat -> L4 !!! i = L3 !!! i) as O4 by apply Hon4.
  split; [eapply perm_on_trans; eapply perm_on_weaken; (done || lia)|]. apply (thirds_sorted lo m1 m2 hi v); try lia.
  - intros i Hi. rewrite O5 by lia. apply (perm_on_all lo m1 L3 L4 (fun x => c x v < 0)); try done; [lia|]. intros j Hj. by apply H3.
  - intros i Hi. rewrite O5, O4 by lia. by apply H3.
  - intros i Hi. apply (perm_on_all m2 hi L4 L5 (fun x => 0 < c x v)); try done; [lia|]. intros j Hj. rewrite O4 by lia. by apply H3.
  - intros a b Hab Hb2. rewrite !O5 by lia. by apply H4.
  - done.
Qed.

Lemma qsort_wp fuel : forall lo n L, array L -> (lo + n <= length L)%nat -> (n < fuel)%nat ->
  wp (qsort cmp fuel (at_ lo) (Z.of_nat n) (Z.of_nat es)) (mem_of L) (fun _ => arranged lo (lo + n) L (sorted_on lo (lo + n))).
Proof.
  induction fuel as [|fuel IH]; intros lo n L Ha Hl Hf; [lia|]. cbn [qsort]. pose proof (a_small _ Ha) as Hsm.
  pose proof (SWAPINIT_ok (at_ lo)) as Hst. set (st := SWAPINIT _ _) in *. clearbody st.
  rewrite at_S, at_off. replace (Z.to_nat (Z.of_nat n)) with n by lia.
  assert (forall L, array L -> (lo + n <= length L)%nat -> wp (insertion cmp (S n) st (Z.of_nat es) (at_ lo) (at_ (lo + n)) (at_ (S lo))) (mem_of L)
    (fun _ => arranged lo (lo + n) L (sorted_on lo (lo + n)))) as Hins.
  { intros L' Ha' Hl'. apply insertion_wp; try done; try lia. apply sorted_on_short. lia. }
  destruct (Z.ltb_spec (Z.of_nat n) 7) as [H7|H7]; [by apply Hins|]. assert (Z.of_nat es < 2 ^ 31) as He by nia.
  wp_step. eapply wp_mono; [apply pivot_wp; (done || lia)|]. intros ? ? (-> & x & Hx & ->).
  wp_step. eapply wp_mono; [apply swap_at; (done || lia)|]. intros [] ? (L1 & -> & Hsw).
  pose proof (swapped_on lo (lo + n) _ _ _ _ Hsw ltac:(lia) ltac:(lia)) as Hon1. clear Hsw.
  pose proof (perm_on_array _ _ _ _ Hon1 Ha) as Ha1. pose proof (perm_on_length _ _ _ _ Hon1) as Hl1.
  replace (Z.of_nat n - 1) with (Z.of_nat (n - 1)) by lia. rewrite at_off.
  wp_step. eapply wp_mono; [apply (partition_wp st lo (lo + n) (L1 !!! lo)); try done|].
  { split; try done; try lia. intros i Hi. assert (i = lo) as -> by lia. pose proof (c_anti (L1 !!! lo) (L1 !!! lo)). lia. }
  { lia. }
  intros k ? (ia & ib & ic & id & -> & L2 & -> & Hon2 & Hs & Hib). cbn [swap_cnt pa pb pc pd].
  pose proof (perm_on_trans _ _ _ _ _ Hon1 Hon2) as Hon. clear Hon1 Hon2. pose proof (perm_on_array _ _ _ _ Hon Ha) as Ha2.
  pose proof (perm_on_length _ _ _ _ Hon) as Hl2. destruct (negb (swap_cnt k)).
  { eapply wp_mono; [apply (Hins L2); (done || lia)|]. intros [] m'. by apply arranged_trans. }
  clear Hins. pose proof (sp_bounds _ _ _ _ _ _ _ _ Hs) as Hb. wp_step.
  eapply wp_mono; [apply (gather_wp st lo (lo + n) _ ia ib ic id _ L2 Hst Ha2 Hs Hib)|]. intros [] ? (L3 & -> & Hon3 & H3).
  pose proof (perm_on_array _ _ _ _ Hon3 Ha2) as Ha3. pose proof (perm_on_length _ _ _ _ Hon3) as Hl3.
  assert (forall i j, (i <= j <= length L)%nat -> s32 (at_ j - at_ i) = Z.of_nat ((j - i) * es)) as Hr.
  { intros i j Hij. rewrite at_diff by lia. apply sw_small; [done|]. assert (j - i <= length L)%nat by lia. nia. }
  rewrite !Hr by lia. replace (id - ic)%nat with (S id - ib)%nat by lia. rewrite at_back by lia. wp_step.
  eapply wp_mono; [apply part_wp; [done|lia|done|apply IH; (done || lia)]|]. intros [] ? (L4 & -> & Hon4 & H4).
  pose proof (perm_on_array _ _ _ _ Hon4 Ha3) as Ha4. pose proof (perm_on_length _ _ _ _ Hon4) as Hl4.
  eapply wp_mono; [apply part_wp; [done|lia|done|apply IH; (done || lia)]|]. intros [] ? (L5 & -> & Hon5 & H5).
  replace (lo + n - (S id - ib) + (S id - ib))%nat with (lo + n)%nat in * by lia.
  exists L5. split; [done|]. set (m1 := (lo + (ib - ia))%nat) in *. set (m2 := (lo + n - (S id - ib))%nat) in *.
  destruct (parts_sorted lo m1 m2 (lo + n) (L1 !!! lo) L3 L4 L5) as [Hp Hsort]; try done; try lia.
  split; [|done]. by apply (perm_on_trans _ _ _ _ _ Hon), (perm_on_trans _ _ _ _ _ Hon3).
Qed.

Lemma sorted_on_strongly L : sorted_on 0 (length L) L -> StronglySorted (fun x y => c x y <= 0) L.
Proof.
  induction L as [|x L IH]; intros Hs; constructor.
  - apply IH. intros a b Hab Hb. apply (Hs (S a) (S b)); simpl; lia.
  - apply Forall_lookup_2. intros i y Hi. apply lookup_lt_Some in Hi as Hlt. apply list_lookup_total_correct in Hi as <-.
    apply (Hs 0%nat (S i)); simpl; lia.
Qed.
End sorting.
End array.

(** * Binary search *)

Section bsearch.
(** [k i] is the result of comparing the key with element [i]; the memory is only read. *)
Context (cmp : Z -> Z -> M mem Z) (key base n size : Z) (k : Z -> Z) (m : mem).
Hypothesis Hcmp : forall i, 0 <= i < n -> cmp key (base + i * size) m = Some (k i, m).
Hypothesis Hrange : 0 <= base /\ 0 < size /\ base + n * size < 2 ^ 64.
Hypothesis Heven : size mod 2 = 0.
Hypothesis Hlt : forall i j, 0 <= i < j -> j < n -> k i < 0 -> k j < 0.
Hypothesis Hgt : forall i j, 0 <= i < j -> j < n -> 0 < k j -> 0 < k i.

Definition searched (r : option Z) (m' : mem) : Prop := m' = m /\
  match r with Some p => exists i, 0 <= i < n /\ p = base + i * size /\ k i = 0 | None => forall i, 0 <= i < n -> k i ≠ 0 end.

Lemma n_small : n < 2 ^ 63.
Proof. assert (2 <= size) by (pose proof (Z.div_mod size 2); lia). nia. Qed.

Lemma element i : 0 <= i < n -> u64 (base + i * size) = base + i * size.
Proof. intros Hi. apply uw_small. nia. Qed.

(** When the bounds have crossed, the middle is half the address space away,
    which comes to the element before [low]. *)
Lemma crossed low : 0 < low <= n ->
  u64 (low + u64 (low - 1 - low) / 2) = low - 1 + 2 ^ 63 /\ u64 (base + (low - 1 + 2 ^ 63) * size) = base + (low - 1) * size.
Proof.
  intros Hl. pose proof n_small. replace (low - 1 - low) with (-1) by lia. change (u64 (-1) / 2) with (2 ^ 63 - 1).
  split; [rewrite uw_small by lia; lia|]. rewrite <- (element (low - 1)) by lia. unfold uw.
  assert (size = 2 * (size / 2)) as Hs by (pose proof (Z.div_mod size 2); lia).
  rewrite <- (Z.mod_add (base + (low - 1) * size) (size / 2)) by lia. f_equal. nia.
Qed.

Lemma bsearch_loop_wp fuel : forall low high, 0 <= low -> low <= high + 1 -> high < n -> 0 < n -> (0 < low \/ low <= high) ->
  (Z.to_nat (high + 1 - low) + 1 < fuel)%nat ->
  (forall i, 0 <= i < low -> 0 < k i) -> (forall i, high < i < n -> k i < 0) ->
  wp (bsearch_loop cmp fuel key base size low high) m searched.
Proof.
  pose proof n_small as Hn. induction fuel as [|fuel IH]; intros low high Hl Hh Hhn Hn0 Hc Hf Hbelow Habove; [lia|]. cbn [bsearch_loop].
  destruct (decide (low <= high)) as [Hle|Hgt2].
  - rewrite (uw_small 64 (high - low)) by lia. pose proof (Z.div_mod (high - low) 2). pose proof (Z.mod_pos_bound (high - low) 2).
    set (mid := low + (high - low) / 2) in *. assert (low <= mid <= high) as Hmid by lia.
    rewrite (uw_small 64 mid) by lia. rewrite element by lia. wp_step. unfold wp at 1. rewrite Hcmp by lia.
    destruct (Z.ltb_spec (k mid) 0) as [Hm1|Hm1].
    + assert (forall i, mid <= i < n -> k i < 0) as Hab.
      { intros i Hi. destruct (decide (i = mid)) as [->|]; [done|]. apply (Hlt mid i); lia. }
      destruct (Z.eqb_spec mid 0) as [E|E].
      * wp_step. split; [done|]. intros i Hi. specialize (Hab i). lia.
      * rewrite uw_small by lia. apply IH; try lia; [done|]. intros i Hi. apply Hab. lia.
    + destruct (Z.ltb_spec 0 (k mid)) as [Hm2|Hm2].
      * rewrite uw_small by lia. assert (forall i, 0 <= i < mid + 1 -> 0 < k i) as Hbe.
        { intros i Hi. destruct (decide (i = mid)) as [->|]; [done|]. apply (Hgt i mid); lia. }
        destruct (Z.ltb_spec (mid + 1) mid); [lia|]. cbn [orb]. destruct (Z.ltb_spec high (mid + 1)) as [Hx|Hx].
        -- wp_step. split; [done|]. intros i Hi. destruct (decide (i < mid + 1)) as [Hd|Hd]; [specialize (Hbe i); lia|].
           specialize (Habove i). lia.
        -- apply IH; (done || lia).
      * wp_step. split; [done|]. exists mid. split_and!; (done || lia).
  - assert (high = low - 1) as -> by lia. destruct (crossed low) as [E1 E2]; [lia|]. rewrite E1, E2.
    wp_step. unfold wp at 1. rewrite Hcmp by lia. pose proof (Hbelow (low - 1) ltac:(lia)) as Hk.
    destruct (Z.ltb_spec (k (low - 1)) 0); [lia|]. destruct (Z.ltb_spec 0 (k (low - 1))); [|lia].
    rewrite uw_small by lia. destruct (Z.ltb_spec (low - 1 + 2 ^ 63 + 1) (low - 1 + 2 ^ 63)); [lia|]. cbn [orb].
    destruct (Z.ltb_spec (low - 1) (low - 1 + 2 ^ 63 + 1)); [|lia]. wp_step. split; [done|]. intros i Hi.
    destruct (decide (i < low)) as [Hd|Hd]; [specialize (Hbelow i); lia|specialize (Habove i); lia].
Qed.
End bsearch.

(** * Properties *)

(** C32. qsort on an array of elements of any size, whose bytes stay below 2^31, leaves at its
    place a permutation of the elements sorted by the comparison and changes no other
    byte, whichever of its paths it takes (insertion sort, the median of three or of nine,
    the three-way partition with its exchanges by longs or bytes); recursion to the depth
    of the number of elements is enough. The comparison is a total preorder that only
    reads. *)
Theorem qsort_sorts (A : Z) (es : nat) (m : mem) (L : list (list Z)) cmp (c : list Z -> list Z -> Z) fuel :
  (0 < es)%nat -> Z.of_nat (length L * es) < 2 ^ 31 -> Forall (elem_ok es) L -> bytes_at m A (concat L) ->
  (forall m p q x y, bytes_at m p x -> bytes_at m q y -> elem_ok es x -> elem_ok es y -> cmp p q m = Some (c x y, m)) ->
  (forall x y, c x y < 0 <-> 0 < c y x) -> (forall x y z, c x y <= 0 -> c y z <= 0 -> c x z <= 0) -> (length L < fuel)%nat ->
  exists L', qsort cmp fuel A (Z.of_nat (length L)) (Z.of_nat es) m = Some (tt, put m A (concat L')) /\
    L' ≡ₚ L /\ StronglySorted (fun x y => c x y <= 0) L'.
Proof.
  intros Hes Hsm Hok Hb Hcmp Hanti Htrans Hf.
  assert (array A es m L) as Ha by (split; try done; rewrite <- (concat_length es Hes L) by done; by apply bytes_at_mapped).
  pose proof (qsort_wp A es m Hes cmp c Hcmp Hanti Htrans fuel 0 (length L) L Ha ltac:(lia) Hf) as Hq.
  unfold mem_of, at_ in Hq. rewrite put_same, Z.add_0_r in Hq by done.
  apply wp_run in Hq as ([] & m' & Hq & L' & -> & Hp & Hs). exists L'. split; [done|]. split; [apply Hp|].
  apply (sorted_on_strongly es Hes). by rewrite (perm_on_length _ _ _ _ Hp).
Qed.

(** C33. bsearch on an array ordered with respect to the key, of elements of even size,
    returns the address of an element that compares equal, or null when there is none, and
    ends within n + 2 comparisons; also when its bounds cross and the middle wraps around
    the address space. *)
Theorem bsearch_finds cmp (key base n size : Z) (k : Z -> Z) (m : mem) fuel :
  (forall i, 0 <= i < n -> cmp key (base + i * size) m = Some (k i, m)) ->
  0 <= base /\ 0 < size /\ base + n * size < 2 ^ 64 -> size mod 2 = 0 -> 0 <= n ->
  (forall i j, 0 <= i < j -> j < n -> k i < 0 -> k j < 0) -> (forall i j, 0 <= i < j -> j < n -> 0 < k j -> 0 < k i) ->
  (Z.to_nat n + 1 < fuel)%nat ->
  exists r, bsearch cmp fuel key base n size m = Some (r, m) /\
    match r with Some p => exists i, 0 <= i < n /\ p = base + i * size /\ k i = 0 | None => forall i, 0 <= i < n -> k i ≠ 0 end.
Proof.
  intros Hcmp Hr He Hn Hlt Hgt Hf. unfold bsearch. destruct (Z.eqb_spec n 0) as [->|Hne].
  - exists None. split; [done|]. lia.
  - assert (n < 2 ^ 63) as Hns by (by apply (n_small base n size)). rewrite uw_small by lia.
    pose proof (bsearch_loop_wp cmp key base n size k m Hcmp Hr He Hlt Hgt fuel 0 (n - 1)) as Hw.
    apply wp_run in Hw as (r & m' & Hw & -> & Hs); try lia. by exists r.
Qed.

End SortProps.

(** [qsort] and [bsearch] on small arrays, elements compared by their first byte. *)
Module SortSample.
Import Mem Sort SortProps.

Definition cmp_first (p q : Z) : M mem Z := x ← rd p; y ← rd q; mret (x - y).
Definition key_of (x : list Z) : Z := hd 0 x.

Definition sample : list (list Z) := [[5; 1]; [3; 1]; [9; 1]; [3; 2]; [1; 1]; [7; 1]; [3; 3]; [8; 1]; [2; 1]].
Definition sample_mem : mem := put ∅ 1000 (concat sample).

(** The order of equal elements is not kept. *)
Example sample_sorted : (prod_map (fun _ => tt) (fun m => omap (fun i => m !! (1000 + i)) (seqZ 0 18))) <$>
  qsort cmp_first 10 1000 9 2 sample_mem = Some (tt, [1; 1; 2; 1; 3; 3; 3; 2; 3; 1; 5; 1; 7; 1; 8; 1; 9; 1]).
Proof. vm_compute. reflexivity. Qed.

Lemma cmp_first_ok es m p q x y : (0 < es)%nat -> bytes_at m p x -> bytes_at m q y -> elem_ok es x -> elem_ok es y ->
  cmp_first p q m = Some (key_of x - key_of y, m).
Proof.
  intros He Hx Hy [lx _] [ly _]. destruct x as [|a x], y as [|b y]; simpl in *; try lia.
  apply bytes_at_cons in Hx as [Hx _], Hy as [Hy _]. unfold cmp_first, rd, deref, mbind, M_bind. by rewrite Hx, Hy.
Qed.

Lemma qsort_sorts_witness : exists L', qsort cmp_first 10 1000 9 2 sample_mem = Some (tt, put sample_mem 1000 (concat L')) /\
  L' ≡ₚ sample /\ StronglySorted (fun x y => key_of x - key_of y <= 0) L'.
Proof.
  apply (qsort_sorts 1000 2 sample_mem sample cmp_first (fun x y => key_of x - key_of y) 10).
  - lia.
  - simpl. lia.
  - repeat constructor; simpl; lia.
  - apply put_bytes_at.
  - intros m p q x y. apply cmp_first_ok. lia.
  - intros x y. lia.
  - intros x y z. lia.
  - simpl. lia.
Defined.

(** Searching for 25 (stored at 2000) among 10, 20, 30. *)
Definition search_mem (size : Z) : mem := <[2000 := 25]> (<[1000 := 10]> (<[1000 + size := 20]> (<[1000 + 2 * size := 30]> ∅))).
Definition search_keys (i : Z) : Z := 25 - 10 * (i + 1).

Lemma bsearch_finds_witness : exists r, bsearch cmp_first 5 2000 1000 3 4 (search_mem 4) = Some (r, search_mem 4) /\
  match r with Some p => exists i, 0 <= i < 3 /\ p = 1000 + i * 4 /\ search_keys i = 0 | None => forall i, 0 <= i < 3 -> search_keys i ≠ 0 end.
Proof.
  apply (bsearch_finds cmp_first 2000 1000 3 4 search_keys (search_mem 4) 5).
  - intros i Hi. assert (i = 0 \/ i = 1 \/ i = 2) as [->|[->| ->]] by lia; vm_compute; reflexivity.
  - lia.
  - reflexivity.
  - lia.
  - unfold search_keys. intros i j. lia.
  - unfold search_keys. intros i j. lia.
  - vm_compute. lia.
Defined.

(** With elements of odd size and a key that is not there the search leaves the array. *)
Lemma bsearch_leaves_array : forall fuel, bsearch cmp_first (5 + fuel) 2000 1000 3 3 (search_mem 3) = None.
Proof. vm_compute. reflexivity. Qed.


End SortSample.
