(* ===== verification/BlockDev.v ===== *)
(** Block devices as the block I/O layer sees them: the [bdev_t] of
    [lib/bio/include/lib/bio.h] and what its layer asks of a driver's hooks. *)
From S2P Require Import Prelude Mem.
Local Open Scope Z_scope.

Module BlockDev.
Import Mem.

Definition BIO_FLAG_CACHE_ALIGNED_READS : Z := 1.
Definition BIO_FLAG_CACHE_ALIGNED_WRITES : Z := 2.
Definition USER_BLOCK_SIZE : Z := 512.

(** The description of a device; the hooks are arguments of the operations. *)
Record bdev_t := MkBdev {
  ref : Z;
  name : list Z;
  total_size : Z;
  block_size : Z;
  block_shift : Z;
  block_count : Z;
  max_blkcnt_per_cmd : Z;
  erase_byte : Z;
  erase_size : Z;
  flags : Z;
}.

(** Memory and the device. *)
Record iostate (K : Type) := MkIo { io_mem : mem; io_dev : K }.
Arguments MkIo {K}.
Arguments io_mem {K}.
Arguments io_dev {K}.

Definition io_on_mem {K A} (m : M mem A) : M (iostate K) A := fun s =>
  match m (io_mem s) with Some (a, x) => Some (a, MkIo x (io_dev s)) | None => None end.

Lemma wp_io_mem {K A} (m : M mem A) (s : iostate K) Q :
  wp (io_on_mem m) s Q <-> wp m (io_mem s) (fun a x => Q a (MkIo x (io_dev s))).
Proof. unfold wp, io_on_mem. by destruct (m (io_mem s)) as [[a x]|]. Qed.

(** * Changes of memory, and of a disk's bytes *)

(** [n] bytes from [p] on are there. *)
Definition room (m : mem) (p n : Z) : Prop := forall a, p <= a < p + n -> is_Some (m !! a).

(** What differs lies in [P], and nothing is unmapped. *)
Definition changed (P : Z -> Prop) (m m' : mem) : Prop :=
  forall a, (~ P a -> m' !! a = m !! a) /\ (is_Some (m !! a) -> is_Some (m' !! a)).

Definition within (p n a : Z) : Prop := p <= a < p + n.

Notation lenZ l := (Z.of_nat (length l)).

Lemma room_mapped m p n k : room m p n -> Z.of_nat k <= n -> mapped m p k.
Proof. intros Hr Hk i Hi. apply Hr. lia. Qed.

Lemma room_part m p n q k : room m p n -> p <= q -> q + k <= p + n -> room m q k.
Proof. intros Hr Hq Hk a Ha. apply Hr. lia. Qed.

Lemma changed_refl P m : changed P m m.
Proof. done. Qed.

Lemma changed_trans P m1 m2 m3 : changed P m1 m2 -> changed P m2 m3 -> changed P m1 m3.
Proof.
  intros H1 H2 a. destruct (H1 a) as [A1 B1], (H2 a) as [A2 B2]. split; [|auto]. intros Ha. by rewrite A2, A1.
Qed.

Lemma changed_weaken (P P' : Z -> Prop) m m' : changed P m m' -> (forall a, P a -> P' a) -> changed P' m m'.
Proof. intros H1 HP a. destruct (H1 a) as [A1 B1]. split; [|done]. intros Ha. apply A1. auto. Qed.

Lemma changed_room P m m' p n : changed P m m' -> room m p n -> room m' p n.
Proof. intros Hc Hr a Ha. apply Hc. auto. Qed.

Lemma changed_mapped P m m' p n : changed P m m' -> mapped m p n -> mapped m' p n.
Proof. intros Hc Hr i Hi. apply Hc. auto. Qed.

Lemma changed_bytes P m m' p l : changed P m m' -> bytes_at m p l -> (forall a, within p (lenZ l) a -> ~ P a) -> bytes_at m' p l.
Proof.
  intros Hc Hb Hd i b Hi. destruct (Hc (p + Z.of_nat i)) as [E _]. rewrite E; [by apply Hb|]. apply Hd.
  apply lookup_lt_Some in Hi. unfold within. lia.
Qed.

Lemma put_changed m p l : mapped m p (length l) -> changed (within p (lenZ l)) m (put m p l).
Proof.
  intros Hm a. split.
  - intros Ha. apply put_lookup_out. unfold within in Ha. lia.
  - intros Ha. destruct (decide (p <= a < p + lenZ l)) as [Hin|Hout].
    + pose proof (put_bytes_at m p l) as Hb. destruct (lookup_lt_is_Some_2 l (Z.to_nat (a - p))) as [b Hi]; [lia|].
      exists b. apply Hb in Hi. by replace (p + Z.of_nat (Z.to_nat (a - p))) with a in Hi by lia.
    + rewrite put_lookup_out by lia. done.
Qed.

Lemma put_changed_at m p l q n : mapped m p (length l) -> q <= p -> p + lenZ l <= q + n -> changed (within q n) m (put m p l).
Proof. intros Hm Hq Hn. eapply changed_weaken; [by apply put_changed|]. unfold within. lia. Qed.

(** The bytes that are there. *)
Definition byte_mem (m : mem) : Prop := map_Forall (fun _ b => byte b) m.

Lemma room_bytes m p n : room m p (Z.of_nat n) -> byte_mem m -> exists l, length l = n /\ bytes_at m p l /\ Forall byte l.
Proof.
  revert p. induction n as [|n IH]; intros p Hr Hm.
  - exists []. split; [done|]. split; [apply bytes_at_nil|constructor].
  - destruct (IH (p + 1)) as (l & Hl & Hb & HB); [eapply room_part; [done|lia..]|done|].
    destruct (Hr p ltac:(lia)) as [b Hp]. exists (b :: l). split; [simpl; lia|]. split; [by apply bytes_at_cons|].
    constructor; [by eapply Hm|done].
Qed.

(** The [n] bytes from [p] on. *)
Definition bytes_of (m : mem) (p : Z) (n : nat) : list Z := (fun i => default 0 (m !! (p + Z.of_nat i))) <$> seq 0 n.

Lemma bytes_of_length m p n : length (bytes_of m p n) = n.
Proof. unfold bytes_of. by rewrite length_fmap, length_seq. Qed.

Lemma bytes_of_at m p n : mapped m p n -> bytes_at m p (bytes_of m p n).
Proof.
  intros Hm i b Hi. unfold bytes_of in Hi. rewrite list_lookup_fmap in Hi. apply fmap_Some in Hi as (j & Hj & ->).
  apply lookup_seq in Hj as [-> Hj]. destruct (Hm i Hj) as [x Hx]. simpl. by rewrite Hx.
Qed.

Lemma bytes_of_exact m p l : bytes_at m p l -> bytes_of m p (length l) = l.
Proof.
  intros Hb. apply list_eq_same_length with (length l); [done|by rewrite bytes_of_length|].
  intros i x y Hi Hx Hy. unfold bytes_of in Hx. rewrite list_lookup_fmap in Hx. apply fmap_Some in Hx as (j & Hj & ->).
  apply lookup_seq in Hj as [-> Hj]. apply Hb in Hy. simpl. by rewrite Hy.
Qed.

Lemma bytes_of_bytes m p n : byte_mem m -> Forall byte (bytes_of m p n).
Proof.
  intros Hm. apply Forall_fmap, Forall_forall. intros i _. simpl. destruct (m !! _) as [b|] eqn:E; simpl; [by eapply Hm|]. unfold byte. lia.
Qed.

Lemma put_byte_mem m p l : byte_mem m -> Forall byte l -> byte_mem (put m p l).
Proof.
  revert m p. induction l as [|b l IH]; intros m p Hm Hl; [done|]. apply Forall_cons in Hl as [Hb Hl]. simpl. apply IH; [|done].
  by apply map_Forall_insert_2.
Qed.

(** * Drivers *)

(** The hooks [read_block], [write_block] and the native ones, which count in
    blocks of the device and return a status.  The disk is the memory of the
    device, [dev_healthy] says that it serves every request. *)
Class DriverOps (K : Type) := {
  read_block : Z -> Z -> Z -> M (iostate K) Z;
  write_block : Z -> Z -> Z -> M (iostate K) Z;
  new_read_native : Z -> Z -> Z -> M (iostate K) Z;
  new_write_native : Z -> Z -> Z -> M (iostate K) Z;
  new_erase_native : Z -> Z -> M (iostate K) Z;
  disk : K -> mem;
  dev_ok : K -> Prop;
  dev_healthy : K -> Prop;
}.

Section laws.
Context {K : Type} `{DriverOps K}.
Implicit Types s : iostate K.

(** A transfer from the device fills the buffer; what it stores is the blocks
    when it reports success. *)
Definition read_done (bs buf block count : Z) s (good : Prop) s' : Prop :=
  dev_ok (io_dev s') /\ disk (io_dev s') = disk (io_dev s) /\ (dev_healthy (io_dev s) -> good /\ dev_healthy (io_dev s')) /\
  exists l, lenZ l = count * bs /\ Forall byte l /\ io_mem s' = put (io_mem s) buf l /\
    (good -> bytes_at (disk (io_dev s)) (block * bs) l).

(** A transfer to the device stores the buffer when it reports success, and may
    leave anything in the blocks when it does not. *)
Definition write_done (bs : Z) (l : list Z) (block count : Z) s (good : Prop) s' : Prop :=
  dev_ok (io_dev s') /\ io_mem s' = io_mem s /\ (dev_healthy (io_dev s) -> good /\ dev_healthy (io_dev s')) /\
  exists l', lenZ l' = count * bs /\ Forall byte l' /\ disk (io_dev s') = put (disk (io_dev s)) (block * bs) l' /\ (good -> l' = l).

Class DriverLaws (dev : bdev_t) : Prop := {
  dev_disk k : dev_ok k -> room (disk k) 0 (block_count dev * block_size dev) /\ byte_mem (disk k);
  read_block_ok s buf block count : dev_ok (io_dev s) -> 0 <= block -> 0 < count -> block + count <= block_count dev ->
    room (io_mem s) buf (count * block_size dev) ->
    wp (read_block buf block count) s (fun r s' => read_done (block_size dev) buf block count s (r = count * block_size dev) s');
  write_block_ok s buf block count l : dev_ok (io_dev s) -> 0 <= block -> 0 < count -> block + count <= block_count dev ->
    bytes_at (io_mem s) buf l -> Forall byte l -> lenZ l = count * block_size dev ->
    wp (write_block buf block count) s (fun r s' => write_done (block_size dev) l block count s (r = count * block_size dev) s');
  new_read_native_ok s buf block count : dev_ok (io_dev s) -> 0 <= block -> 0 < count -> block + count <= block_count dev ->
    room (io_mem s) buf (count * block_size dev) ->
    wp (new_read_native buf block count) s (fun r s' => read_done (block_size dev) buf block count s (r = 0) s');
  new_write_native_ok s buf block count l : dev_ok (io_dev s) -> 0 <= block -> 0 < count -> block + count <= block_count dev ->
    bytes_at (io_mem s) buf l -> Forall byte l -> lenZ l = count * block_size dev ->
    wp (new_write_native buf block count) s (fun r s' => write_done (block_size dev) l block count s (r = 0) s');
  new_erase_native_ok s block count : dev_ok (io_dev s) -> 0 <= block -> 0 < count -> block + count <= block_count dev ->
    wp (new_erase_native block count) s
      (fun r s' => write_done (block_size dev) (replicate (Z.to_nat (count * block_size dev)) 0) block count s (r = 0) s');
}.
End laws.

End BlockDev.
