(* ===== verification/Bio.v ===== *)
(** The block I/O layer, [lib/bio/bio.c], over memory and the hooks of a driver.
    The local buffer of a function is where the compiler puts it, [temp]. *)
From S2P Require Import Prelude Mem CString Pow2 BlockDev.
Local Open Scope Z_scope.

Module Bio.
Import Mem BlockDev Pow2.

Definition ERR_IO : Z := -20.
Definition ERR_NOT_SUPPORTED : Z := -24.
Definition CACHE_LINE : Z := 64.
Definition IS_ALIGNED (a b : Z) : bool := Z.land (u64 a) (b - 1) =? 0.
Definition BYTE_TO_BLOCK (x : Z) : Z := u32 (Z.shiftr (u32 (x - 1)) 9 + 1).
Definition has_flag (dev : bdev_t) (f : Z) : bool := negb (Z.land (flags dev) f =? 0).

(** ** Ranges *)

Definition bio_trim_range (dev : bdev_t) (offset len : Z) : Z :=
  if offset <? 0 then 0
  else if total_size dev <=? offset then 0
  else if len =? 0 then 0
  else if total_size dev <? s64 (u64 (offset + len)) then u64 (total_size dev - offset)
  else len.

Definition bio_trim_block_range (dev : bdev_t) (block count : Z) : Z :=
  if block_count dev <? block then 0
  else if count =? 0 then 0
  else if block_count dev <? u32 (block + count) then u32 (block_count dev - block)
  else count.

Section bio.
Context {K : Type} `{DriverOps K}.
Abbreviation IO := (M (iostate K)).

(** [divpow2] takes 32 bits of the length.  [goto err]: a step ends the function with a value, or goes on. *)
Definition io_try {A B E} (m : IO (E + A)) (k : A -> IO (E + B)) : IO (E + B) :=
  r ← m; match r with inl e => mret (inl e) | inr a => k a end.
Definition io_result {A} (m : IO (A + A)) : IO A := r ← m; match r with inl e => mret e | inr a => mret a end.

Definition bio_read_block (dev : bdev_t) (buf block count : Z) : IO Z :=
  _ ← assert_ (0 <? ref dev);
  let count := bio_trim_block_range dev block count in
  if count =? 0 then mret 0 else read_block buf block count.

Definition bio_write_block (dev : bdev_t) (buf block count : Z) : IO Z :=
  _ ← assert_ (0 <? ref dev);
  let count := bio_trim_block_range dev block count in
  if count =? 0 then mret 0 else write_block buf block count.

(** An error or a short transfer ends the function. *)
Definition all_or_err (m : IO Z) (expected : Z) : IO (Z + Z) :=
  err ← m;
  mret (if err <? 0 then inl err else if negb (err =? expected) then inl ERR_IO else inr err).

(** ** Default transfers by bytes: partial first block, middle, partial last block *)

(** Where a transfer stands. *)
Record progress := MkProgress { p_buf : Z; p_len : Z; p_done : Z; p_block : Z }.
Definition advance (n blocks : Z) (p : progress) : progress :=
  MkProgress (p_buf p + n) (u64 (p_len p - n)) (p_done p + n) (u32 (p_block p + blocks)).

Definition read_first (dev : bdev_t) (temp offset : Z) (p : progress) : IO (Z + progress) :=
  let bs := block_size dev in
  if negb (u64 offset mod bs =? 0) then
    io_try (all_or_err (bio_read_block dev temp (p_block p) 1) bs) (fun _ =>
      let block_offset := u64 offset mod bs in
      let tocopy := Z.min (bs - block_offset) (p_len p) in
      _ ← io_on_mem (CString.memcpy (p_buf p) (temp + block_offset) tocopy);
      mret (inr (advance tocopy 1 p)))
  else mret (inr p).

(** The middle through the local buffer, a block at a time. *)
Fixpoint read_aligned (fuel : nat) (dev : bdev_t) (temp : Z) (p : progress) : IO (Z + progress) :=
  match fuel with
  | O => fault
  | S fuel =>
      let bs := block_size dev in
      if bs <=? p_len p then
        io_try (all_or_err (bio_read_block dev temp (p_block p) 1) bs) (fun _ =>
          _ ← io_on_mem (CString.memcpy (p_buf p) temp bs);
          read_aligned fuel dev temp (advance bs 1 p))
      else mret (inr p)
  end.

Definition read_middle (dev : bdev_t) (temp : Z) (p : progress) : IO (Z + progress) :=
  if has_flag dev BIO_FLAG_CACHE_ALIGNED_READS && negb (IS_ALIGNED (p_buf p) CACHE_LINE) then
    read_aligned (S (Z.to_nat (p_len p / block_size dev))) dev temp p
  else
    let num_blocks := u32 (divpow2 (u32 (p_len p)) (u32 (block_shift dev))) in
    io_try (all_or_err (bio_read_block dev (p_buf p) (p_block p) num_blocks) (u64 (block_size dev * num_blocks))) (fun err =>
      mret (inr (advance err num_blocks p))).

Definition read_last (dev : bdev_t) (temp : Z) (p : progress) : IO (Z + Z) :=
  if 0 <? p_len p then
    io_try (all_or_err (bio_read_block dev temp (p_block p) 1) (block_size dev)) (fun _ =>
      _ ← io_on_mem (CString.memcpy (p_buf p) temp (p_len p));
      mret (inr (p_done p + p_len p)))
  else mret (inr (p_done p)).

Definition bio_default_read (dev : bdev_t) (temp buf offset len : Z) : IO Z :=
  io_result (io_try (read_first dev temp offset (MkProgress buf len 0 (u32 (u64 offset / block_size dev)))) (fun p =>
    io_try (read_middle dev temp p) (read_last dev temp))).

Definition write_first (dev : bdev_t) (temp offset : Z) (p : progress) : IO (Z + progress) :=
  let bs := block_size dev in
  if negb (u64 offset mod bs =? 0) then
    io_try (all_or_err (bio_read_block dev temp (p_block p) 1) bs) (fun _ =>
      let block_offset := u64 offset mod bs in
      let tocopy := Z.min (bs - block_offset) (p_len p) in
      _ ← io_on_mem (CString.memcpy (temp + block_offset) (p_buf p) tocopy);
      io_try (all_or_err (bio_write_block dev temp (p_block p) 1) bs) (fun _ =>
        mret (inr (advance tocopy 1 p))))
  else mret (inr p).

Fixpoint write_aligned (fuel : nat) (dev : bdev_t) (temp : Z) (p : progress) : IO (Z + progress) :=
  match fuel with
  | O => fault
  | S fuel =>
      let bs := block_size dev in
      if bs <=? p_len p then
        _ ← io_on_mem (CString.memcpy temp (p_buf p) bs);
        io_try (all_or_err (bio_write_block dev temp (p_block p) 1) bs) (fun _ =>
          write_aligned fuel dev temp (advance bs 1 p))
      else mret (inr p)
  end.

Definition write_middle (dev : bdev_t) (temp : Z) (p : progress) : IO (Z + progress) :=
  if has_flag dev BIO_FLAG_CACHE_ALIGNED_WRITES && negb (IS_ALIGNED (p_buf p) CACHE_LINE) then
    write_aligned (S (Z.to_nat (p_len p / block_size dev))) dev temp p
  else
    let n := u32 (divpow2 (u32 (p_len p)) (u32 (block_shift dev))) in
    io_try (all_or_err (bio_write_block dev (p_buf p) (p_block p) n) (u64 (block_size dev * n))) (fun err =>
      _ ← assert_ (err =? u64 (n * block_size dev));
      mret (inr (advance err n p))).

Definition write_last (dev : bdev_t) (temp : Z) (p : progress) : IO (Z + Z) :=
  if 0 <? p_len p then
    io_try (all_or_err (bio_read_block dev temp (p_block p) 1) (block_size dev)) (fun _ =>
      _ ← io_on_mem (CString.memcpy temp (p_buf p) (p_len p));
      io_try (all_or_err (bio_write_block dev temp (p_block p) 1) (block_size dev)) (fun _ =>
        mret (inr (p_done p + p_len p))))
  else mret (inr (p_done p)).

Definition bio_default_write (dev : bdev_t) (temp buf offset len : Z) : IO Z :=
  io_result (io_try (write_first dev temp offset (MkProgress buf len 0 (u32 (u64 offset / block_size dev)))) (fun p =>
    io_try (write_middle dev temp p) (write_last dev temp))).

(** ** Transfers by bytes within the device: a range check and the device's hook *)

Definition bio_read (dev : bdev_t) (read : Z -> Z -> Z -> IO Z) (buf offset len : Z) : IO Z :=
  _ ← assert_ (0 <? ref dev);
  let len := bio_trim_range dev offset len in
  if len =? 0 then mret 0 else read buf offset len.

Definition bio_write (dev : bdev_t) (write : Z -> Z -> Z -> IO Z) (buf offset len : Z) : IO Z :=
  _ ← assert_ (0 <? ref dev);
  let len := bio_trim_range dev offset len in
  if len =? 0 then mret 0 else write buf offset len.

Definition bio_erase (dev : bdev_t) (erase : Z -> Z -> IO Z) (offset len : Z) : IO Z :=
  _ ← assert_ (0 <? ref dev);
  let len := bio_trim_range dev offset len in
  if len =? 0 then mret 0 else erase offset len.

(** Fills the range block by block from the local buffer [erase_buf], with the
    device's [write] hook. *)
Fixpoint erase_loop (fuel : nat) (dev : bdev_t) (write : Z -> Z -> Z -> IO Z) (erase_buf pos remaining erased : Z) : IO Z :=
  match fuel with
  | O => fault
  | S fuel =>
      if 0 <? remaining then
        let towrite := Z.min remaining (block_size dev) in
        written ← bio_write dev write erase_buf pos towrite;
        if written <? 0 then mret written
        else if written <? towrite then mret (erased + written)
        else erase_loop fuel dev write erase_buf (pos + written) (u64 (remaining - written)) (erased + written)
      else mret erased
  end.

Definition bio_default_erase (dev : bdev_t) (write : Z -> Z -> Z -> IO Z) (erase_buf offset len : Z) : IO Z :=
  _ ← io_on_mem (CString.memset erase_buf (erase_byte dev) (block_size dev));
  erase_loop (S (Z.to_nat len)) dev write erase_buf offset len 0.

Definition bio_default_read_block (buf block count : Z) : IO Z := mret ERR_NOT_SUPPORTED.
Definition bio_default_write_block (buf block count : Z) : IO Z := mret ERR_NOT_SUPPORTED.
End bio.

(** The fields [bio_initialize_bdev] sets; [geometry] is left out. *)
Definition bio_initialize_bdev (dev : bdev_t) (nm : list Z) (bs count fl : Z) : option bdev_t :=
  if negb (bs =? 0) && ispow2 (u32 bs) then
    let shift := log2_uint (u32 bs) in
    Some (MkBdev 0 nm (s64 (Z.shiftl count shift)) bs shift count (max_blkcnt_per_cmd dev) 0 0 fl)
  else None.

End Bio.
