(* ===== verification/BlockProps.v ===== *)
(** What the transfers of the block layer have in common: whole blocks, parts of
    a block through a local buffer, and how transfers follow one another. *)
From S2P Require Import Prelude Mem CString CStringProps BlockDev Bio.
Local Open Scope Z_scope.

Module BlockProps.
Import Mem CStringProps BlockDev Bio.

(** A registered device of a size that fits its types. *)
Record good_dev (dev : bdev_t) : Prop := {
  g_ref : 0 < ref dev;
  g_shift : 0 <= block_shift dev < 31;
  g_size : block_size dev = 2 ^ block_shift dev;
  g_count : 0 <= block_count dev < 2 ^ 32;
  g_total : total_size dev = block_count dev * block_size dev;
  g_total_small : total_size dev < 2 ^ 63;
}.

Lemma block_size_pos dev : good_dev dev -> 0 < block_size dev <= 2 ^ 30.
Proof. intros []. rewrite g_size0. split; [lia|]. apply Z.pow_le_mono_r; lia. Qed.

Section io.
Context {K : Type} `{DriverOps K}.
Implicit Types s : iostate K.
Abbreviation IO := (M (iostate K)).

Lemma wp_try {A B E} (m : M (iostate K) (E + A)) (k : A -> M (iostate K) (E + B)) s Q :
  wp m s (fun r s' => match r with inl e => Q (inl e) s' | inr a => wp (k a) s' Q end) -> wp (io_try m k) s Q.
Proof. intros Hm. unfold io_try. apply wp_bind. eapply wp_mono; [exact Hm|]. intros [e|a] s' Hr; [by wp_step|done]. Qed.

Context (dev : bdev_t) `{!DriverLaws dev} (Hdev : good_dev dev).
Abbreviation bs := (block_size dev).

(** [m] reads whole blocks to [buf], or ends with an error when the device fails. *)
Definition reads_blocks {E A} (Pe : E -> Prop) (Pa : A -> Prop) (m : IO (E + A)) (buf block count : Z) s : Prop :=
  wp m s (fun r s' => dev_ok (io_dev s') /\ disk (io_dev s') = disk (io_dev s) /\
    match r with
    | inl e => Pe e /\ ~ dev_healthy (io_dev s) /\ changed (within buf (count * bs)) (io_mem s) (io_mem s')
    | inr a => Pa a /\ (dev_healthy (io_dev s) -> dev_healthy (io_dev s')) /\
        exists l, lenZ l = count * bs /\ Forall byte l /\ bytes_at (disk (io_dev s)) (block * bs) l /\ io_mem s' = put (io_mem s) buf l
    end).

(** [m] writes the bytes [l] to whole blocks. *)
Definition writes_blocks {E A} (Pe : E -> Prop) (Pa : A -> Prop) (m : IO (E + A)) (block count : Z) (l : list Z) s : Prop :=
  wp m s (fun r s' => dev_ok (io_dev s') /\ io_mem s' = io_mem s /\
    match r with
    | inl e => Pe e /\ ~ dev_healthy (io_dev s) /\ changed (within (block * bs) (count * bs)) (disk (io_dev s)) (disk (io_dev s'))
    | inr a => Pa a /\ (dev_healthy (io_dev s) -> dev_healthy (io_dev s')) /\ disk (io_dev s') = put (disk (io_dev s)) (block * bs) l
    end).

(** ** Reading *)

Section read.
Context (temp : Z).

Definition touched (buf n a : Z) : Prop := within buf n a \/ within temp bs a.

(** [n] bytes of the disk from [off] are at [buf]; besides, the local buffer may have changed. *)
Record got (off n buf : Z) s s' : Prop := {
  got_ok : dev_ok (io_dev s');
  got_disk : disk (io_dev s') = disk (io_dev s);
  got_health : dev_healthy (io_dev s) -> dev_healthy (io_dev s');
  got_mem : changed (touched buf n) (io_mem s) (io_mem s');
  got_bytes : exists l, lenZ l = n /\ Forall byte l /\ bytes_at (disk (io_dev s)) off l /\ bytes_at (io_mem s') buf l;
}.

(** The device failed. *)
Record lost (n buf : Z) s s' : Prop := {
  lost_ok : dev_ok (io_dev s');
  lost_disk : disk (io_dev s') = disk (io_dev s);
  lost_health : ~ dev_healthy (io_dev s);
  lost_mem : changed (touched buf n) (io_mem s) (io_mem s');
}.

(** The caller's buffer and the local one. *)
Record buffers (buf n : Z) s : Prop := {
  b_room : room (io_mem s) buf n;
  b_temp : room (io_mem s) temp bs;
  b_apart : buf + n <= temp \/ temp + bs <= buf;
}.

Lemma touched_sub buf n buf' n' a : touched buf' n' a -> buf <= buf' -> buf' + n' <= buf + n -> touched buf n a.
Proof. unfold touched, within. lia. Qed.

Lemma got_refl off buf s : dev_ok (io_dev s) -> got off 0 buf s s.
Proof.
  intros Hok. split; [done|done|done|apply changed_refl|]. exists []. split; [done|]. split; [constructor|]. split; apply bytes_at_nil.
Qed.

Lemma got_trans off n1 n2 buf s1 s2 s3 : 0 <= n1 -> 0 <= n2 -> (buf + n1 + n2 <= temp \/ temp + bs <= buf) ->
  got off n1 buf s1 s2 -> got (off + n1) n2 (buf + n1) s2 s3 -> got off (n1 + n2) buf s1 s3.
Proof.
  intros Hn1 Hn2 Ht [O1 D1 H1 M1 (l1 & L1 & B1 & K1 & Y1)] [O2 D2 H2 M2 (l2 & L2 & B2 & K2 & Y2)]. split.
  - done.
  - congruence.
  - auto.
  - eapply changed_trans; eapply changed_weaken; [exact M1| |exact M2|]; intros a Ha; (eapply touched_sub; [exact Ha|lia|lia]).
  - exists (l1 ++ l2). rewrite length_app, Nat2Z.inj_add, Forall_app, !bytes_at_app, L1, L2. rewrite D1 in K2.
    split; [done|]. split; [done|]. split; [done|]. split; [|done]. eapply changed_bytes; [exact M2|done|]. unfold touched, within. lia.
Qed.

Lemma lost_after off n1 n2 buf s1 s2 s3 : 0 <= n1 -> 0 <= n2 -> got off n1 buf s1 s2 -> lost n2 (buf + n1) s2 s3 -> lost (n1 + n2) buf s1 s3.
Proof.
  intros Hn1 Hn2 [O1 D1 H1 M1 _] [O2 D2 H2 M2]. split; [done|congruence|auto|].
  eapply changed_trans; eapply changed_weaken; [exact M1| |exact M2|]; intros a Ha; (eapply touched_sub; [exact Ha|lia|lia]).
Qed.

Lemma buffers_later buf n off n1 s s' : 0 <= n1 -> n1 <= n -> buffers buf n s -> got off n1 buf s s' -> buffers (buf + n1) (n - n1) s'.
Proof.
  intros Hn1 Hn [Hr Ht Ha] Hg. split.
  - eapply changed_room; [apply Hg|]. eapply room_part; [exact Hr|lia|lia].
  - eapply changed_room; [apply Hg|done].
  - lia.
Qed.

Lemma buffers_sub b n n' s : buffers b n s -> 0 <= n' <= n -> buffers b n' s.
Proof. intros [] Hn. split; [apply (room_part _ b n); (done || lia)|done|lia]. Qed.

Lemma memcpy_io m d src n l (k : K) Q : n = lenZ l -> bytes_at m src l -> room m d n -> Forall byte l -> n < 2 ^ 31 ->
  (d + n <= src \/ src + n <= d) -> Q d (MkIo (put m d l) k) ->
  wp (io_on_mem (CString.memcpy d src n)) (MkIo m k) Q.
Proof.
  intros -> Hs Hd Hb Hn Hdis HQ. apply wp_io_mem. cbn [io_mem io_dev]. eapply wp_mono; [apply memcpy_wp|].
  - exact Hs.
  - eapply room_mapped; [exact Hd|lia].
  - done.
  - done.
  - right. unfold disjoint_ranges. lia.
  - by intros r m' [-> ->].
Qed.

(** A part of a block through the local buffer. *)
Lemma read_part_wp {E A B} (m : IO (E + A)) Pe Pa s buf block o n (k : IO (E + B)) Q : reads_blocks Pe Pa m temp block 1 s ->
  0 <= o -> 0 <= n -> o + n <= bs -> buffers buf n s ->
  (forall e s', Pe e -> lost n buf s s' -> Q (inl e) s') ->
  (forall s', got (block * bs + o) n buf s s' -> wp k s' Q) ->
  wp (io_try m (fun _ => _ ← io_on_mem (CString.memcpy buf (temp + o) n); k)) s Q.
Proof.
  intros Hw Ho Hn Hon [Hr Ht Ha] Hlost Hgot. pose proof (block_size_pos _ Hdev) as Hbs. apply wp_try.
  unfold reads_blocks in Hw. rewrite Z.mul_1_l in Hw. eapply wp_mono; [exact Hw|]. intros [e|x] s' (Hok' & Hd & Hx).
  - destruct Hx as (He & Hh & Hch). apply Hlost; [done|]. split; try done. eapply changed_weaken; [exact Hch|]. unfold touched. tauto.
  - destruct Hx as (_ & Hh & l & Hl & Hlb & Hdl & Hm). destruct s' as [m' k']. cbn [io_mem io_dev] in *.
    pose proof (take_drop (Z.to_nat o) l) as Et. rewrite <- (take_drop (Z.to_nat n) (drop (Z.to_nat o) l)) in Et.
    set (l1 := take (Z.to_nat o) l) in *. set (l2 := take (Z.to_nat n) _) in *. set (l3 := drop (Z.to_nat n) _) in *.
    assert (lenZ l1 = o /\ lenZ l2 = n) as [E1 E2].
    { unfold l1, l2. rewrite !length_take, length_drop. lia. }
    rewrite <- Et in Hdl, Hlb, Hm. apply Forall_app in Hlb as [_ [Hlb _]%Forall_app].
    apply bytes_at_app in Hdl as [_ Hdl]. rewrite E1 in Hdl. apply bytes_at_app in Hdl as [Hdl _].
    pose proof (put_bytes_at (io_mem s) temp (l1 ++ l2 ++ l3)) as Hbt. rewrite <- Hm in Hbt.
    apply bytes_at_app in Hbt as [_ Hbt]. rewrite E1 in Hbt. apply bytes_at_app in Hbt as [Hbt _].
    assert (changed (within temp bs) (io_mem s) m') as Hch.
    { rewrite Hm. apply put_changed_at; [|lia|].
      - eapply room_mapped; [exact Ht|]. rewrite Et. lia.
      - rewrite Et. lia. }
    wp_step. eapply memcpy_io; [by symmetry| exact Hbt| |done|lia|lia|].
    + eapply changed_room; [exact Hch|done].
    + apply Hgot. split; cbn [io_mem io_dev]; try done.
      * eapply changed_trans; eapply changed_weaken; [exact Hch| |apply put_changed|]; unfold touched.
        -- tauto.
        -- eapply changed_mapped; [exact Hch|]. eapply room_mapped; [exact Hr|lia].
        -- rewrite E2. tauto.
      * exists l2. split; [done|]. split; [done|]. split; [done|apply put_bytes_at].
Qed.

(** The front of a block. *)
Lemma read_front_wp {E A B} (m : IO (E + A)) Pe Pa s buf block n (k : IO (E + B)) Q : reads_blocks Pe Pa m temp block 1 s ->
  0 <= n <= bs -> buffers buf n s ->
  (forall e s', Pe e -> lost n buf s s' -> Q (inl e) s') ->
  (forall s', got (block * bs) n buf s s' -> wp k s' Q) ->
  wp (io_try m (fun _ => _ ← io_on_mem (CString.memcpy buf temp n); k)) s Q.
Proof.
  intros Hm Hn Hbuf Hl Hg. pose proof (read_part_wp m Pe Pa s buf block 0 n k Q Hm) as Hw.
  rewrite !Z.add_0_r in Hw. apply Hw; (done || lia).
Qed.

Lemma lost_weaken n n' buf s s' : lost n buf s s' -> 0 <= n <= n' -> lost n' buf s s'.
Proof.
  intros [] Hn. split; try done. eapply changed_weaken; [done|]. intros a Ha. eapply touched_sub; [done|lia|lia].
Qed.
End read.

(** ** Writing *)

Section write.
Context (temp : Z).

(** In a block of the disk that the range touches. *)
Definition covered (off n a : Z) : Prop := off / bs <= a / bs <= (off + n - 1) / bs.

(** The bytes [l] are on the disk from [off]; of memory only the local buffer may have changed. *)
Record wrote (off : Z) (l : list Z) s s' : Prop := {
  w_ok : dev_ok (io_dev s');
  w_disk : disk (io_dev s') = put (disk (io_dev s)) off l;
  w_health : dev_healthy (io_dev s) -> dev_healthy (io_dev s');
  w_mem : changed (within temp bs) (io_mem s) (io_mem s');
}.

(** The device failed, and may have spoilt the blocks of the range. *)
Record spoilt (off n : Z) s s' : Prop := {
  sp_ok : dev_ok (io_dev s');
  sp_health : ~ dev_healthy (io_dev s);
  sp_disk : changed (covered off n) (disk (io_dev s)) (disk (io_dev s'));
  sp_mem : changed (within temp bs) (io_mem s) (io_mem s');
}.

(** The bytes to write, and the local buffer. *)
Record source (buf : Z) (l : list Z) s : Prop := {
  so_bytes : bytes_at (io_mem s) buf l;
  so_byte : Forall byte l;
  so_temp : room (io_mem s) temp bs;
  so_apart : buf + lenZ l <= temp \/ temp + bs <= buf;
}.

Lemma covered_within off n a : 0 <= off -> within off n a -> covered off n a.
Proof. pose proof (block_size_pos _ Hdev). unfold within, covered. intros. split; apply Z.div_le_mono; lia. Qed.

Lemma covered_sub off n off' n' a : covered off' n' a -> off <= off' -> off' + n' <= off + n -> covered off n a.
Proof.
  pose proof (block_size_pos _ Hdev). unfold covered. intros [Ha Hb] Ho Hn.
  pose proof (Z.div_le_mono off off' bs ltac:(lia) Ho). pose proof (Z.div_le_mono (off' + n' - 1) (off + n - 1) bs ltac:(lia) ltac:(lia)). lia.
Qed.

Lemma covered_block block o n a : 0 <= o -> 0 < n -> o + n <= bs -> within (block * bs) bs a -> covered (block * bs + o) n a.
Proof.
  pose proof (block_size_pos _ Hdev) as Hbs. unfold within, covered. intros Ho Hn Hon Ha.
  assert (forall x, block * bs <= x < block * bs + bs -> x / bs = block) as Hdiv.
  { intros x Hx. symmetry. apply (Z.div_unique x bs block (x - block * bs)); lia. }
  rewrite !Hdiv by lia. lia.
Qed.

Lemma wrote_nil off s : dev_ok (io_dev s) -> wrote off [] s s.
Proof. intros Hok. split; [done|done|done|apply changed_refl]. Qed.

Lemma wrote_trans off l1 l2 s1 s2 s3 : wrote off l1 s1 s2 -> wrote (off + lenZ l1) l2 s2 s3 -> wrote off (l1 ++ l2) s1 s3.
Proof.
  intros [O1 D1 H1 M1] [O2 D2 H2 M2]. split; [done| |auto|by eapply changed_trans]. by rewrite D2, D1, put_app.
Qed.

Lemma disk_mapped k off (l : list Z) : dev_ok k -> 0 <= off -> off + lenZ l <= total_size dev -> mapped (disk k) off (length l).
Proof.
  intros Hok Ho Hl. rewrite (g_total _ Hdev) in Hl. apply (room_mapped _ _ (lenZ l)); [|lia].
  apply (room_part _ 0 (block_count dev * bs)); [by apply (dev_disk (dev := dev))|lia|lia].
Qed.

Lemma wrote_changed off l s s' : dev_ok (io_dev s) -> wrote off l s s' -> 0 <= off -> off + lenZ l <= total_size dev ->
  changed (within off (lenZ l)) (disk (io_dev s)) (disk (io_dev s')).
Proof. intros Hok [] Ho Hl. rewrite w_disk0. apply put_changed. by apply disk_mapped. Qed.

Lemma spoilt_after off l n s1 s2 s3 : dev_ok (io_dev s1) -> 0 <= off -> 0 <= n -> off + lenZ l <= total_size dev ->
  wrote off l s1 s2 -> spoilt (off + lenZ l) n s2 s3 -> spoilt off (lenZ l + n) s1 s3.
Proof.
  intros Hok Ho Hn Hl Hw Hs. pose proof (wrote_changed _ _ _ _ Hok Hw Ho Hl) as Hc. destruct Hw as [O1 D1 H1 M1], Hs as [O2 H2 D2 M2].
  split; [done|auto| |by eapply changed_trans]. eapply changed_trans; eapply changed_weaken; [exact Hc| |exact D2|].
  - intros a Ha. apply covered_within; [done|]. unfold within in *. lia.
  - intros a Ha. eapply covered_sub; [exact Ha|lia|lia].
Qed.

Lemma spoilt_weaken off n off' n' s s' : spoilt off' n' s s' -> off <= off' -> off' + n' <= off + n -> spoilt off n s s'.
Proof. intros [] Ho Hn. split; try done. eapply changed_weaken; [done|]. intros a Ha. by eapply covered_sub. Qed.

Lemma source_later buf l1 l2 off l s s' : source buf (l1 ++ l2) s -> wrote off l s s' -> source (buf + lenZ l1) l2 s'.
Proof.
  intros [Hb HB Ht Ha] [_ _ _ Hm]. apply bytes_at_app in Hb as [_ Hb]. apply Forall_app in HB as [_ HB]. rewrite length_app in Ha. split.
  - eapply changed_bytes; [exact Hm|exact Hb|]. unfold within. lia.
  - done.
  - by eapply changed_room.
  - lia.
Qed.

Lemma source_front buf l1 l2 s : source buf (l1 ++ l2) s -> source buf l1 s.
Proof.
  intros [Hb HB Ht Ha]. apply bytes_at_app in Hb as [Hb _]. apply Forall_app in HB as [HB _]. rewrite length_app in Ha. split; (done || lia).
Qed.

(** A part of a block replaced: read, modify, write. *)
Lemma modify_part_wp {E A A' B C} (mr : IO (E + A)) (modify : IO C) (mw : IO (E + A')) Pe Pa Pa' s block o l (k : IO (E + B)) Q :
  reads_blocks Pe Pa mr temp block 1 s -> room (io_mem s) temp bs -> Forall byte l ->
  (forall s', changed (within temp bs) (io_mem s) (io_mem s') ->
    wp modify s' (fun _ s'' => s'' = MkIo (put (io_mem s') (temp + o) l) (io_dev s'))) ->
  (forall s' l', dev_ok (io_dev s') -> bytes_at (io_mem s') temp l' -> Forall byte l' -> lenZ l' = bs -> writes_blocks Pe Pa' mw block 1 l' s') ->
  0 <= o -> 0 < lenZ l -> o + lenZ l <= bs ->
  (forall e s', Pe e -> spoilt (block * bs + o) (lenZ l) s s' -> Q (inl e) s') ->
  (forall s', wrote (block * bs + o) l s s' -> wp k s' Q) ->
  wp (io_try mr (fun _ => _ ← modify; io_try mw (fun _ => k))) s Q.
Proof.
  intros Hw Ht Hsb Hmod Hmw Ho Hn Hon Hspoilt Hwrote. pose proof (block_size_pos _ Hdev) as Hbs. apply wp_try.
  unfold reads_blocks in Hw. rewrite Z.mul_1_l in Hw. eapply wp_mono; [exact Hw|]. clear Hw. intros [e|x] s' (Hok' & Hd & Hx).
  { destruct Hx as (He & Hh & Hch). apply Hspoilt; [done|]. split; [done|done| |done]. by rewrite Hd. }
  destruct Hx as (_ & Hh & t & Hlt & Htb & Hdt & Hm).
  assert (changed (within temp bs) (io_mem s) (io_mem s')) as Hch.
  { rewrite Hm. apply put_changed_at; [|lia|lia]. eapply room_mapped; [exact Ht|lia]. }
  pose proof (take_drop (Z.to_nat o) t) as Et. rewrite <- (take_drop (length l) (drop (Z.to_nat o) t)) in Et.
  set (t1 := take (Z.to_nat o) t) in *. set (t2 := take (length l) _) in *. set (t3 := drop (length l) _) in *.
  assert (lenZ t1 = o /\ length t2 = length l /\ lenZ t3 = bs - o - lenZ l) as (E1 & E2 & E3).
  { unfold t1, t2, t3. rewrite !length_drop, !length_take, length_drop. lia. }
  rewrite <- Et in Hdt, Htb, Hm. apply Forall_app in Htb as [Ht1 [Ht2 Ht3]%Forall_app]. wp_step.
  eapply wp_mono; [by apply Hmod|]. intros c s2 ->.
  rewrite <- E1, Hm, put_replace by done.
  assert (changed (within temp bs) (io_mem s) (put (io_mem s) temp (t1 ++ l ++ t3))) as Hch2.
  { apply put_changed_at; [|lia|]; [|rewrite !length_app; lia]. eapply room_mapped; [exact Ht|]. rewrite !length_app. lia. }
  apply wp_try. pose proof (Hmw (MkIo (put (io_mem s) temp (t1 ++ l ++ t3)) (io_dev s')) (t1 ++ l ++ t3)) as Hw.
  unfold writes_blocks in Hw. rewrite Z.mul_1_l in Hw. cbn [io_mem io_dev] in Hw.
  eapply wp_mono; [apply Hw; [done|apply put_bytes_at|rewrite !Forall_app; done|rewrite !length_app; lia]|].
  clear Hw. intros [e|y] s3 (Hok2 & Hm2 & Hx).
  - destruct Hx as (He & Hh2 & Hch3). apply Hspoilt; [done|]. split; [done|by auto| |by rewrite Hm2].
    rewrite <- Hd. eapply changed_weaken; [exact Hch3|]. intros a. by apply covered_block.
  - destruct Hx as (_ & Hh2 & Hd2). apply Hwrote. split; [done| |auto|by rewrite Hm2].
    rewrite Hd2, Hd, <- E1. rewrite <- (put_replace (disk (io_dev s)) (block * bs) t1 t2 t3 l) by done. by rewrite (put_same _ _ (t1 ++ t2 ++ t3)).
Qed.

Lemma write_part_wp {E A A' B} (mr : IO (E + A)) (mw : IO (E + A')) Pe Pa Pa' s buf block o l (k : IO (E + B)) Q :
  reads_blocks Pe Pa mr temp block 1 s -> (forall s' l', dev_ok (io_dev s') -> bytes_at (io_mem s') temp l' -> Forall byte l' -> lenZ l' = bs ->
    writes_blocks Pe Pa' mw block 1 l' s') ->
  0 <= o -> 0 < lenZ l -> o + lenZ l <= bs -> source buf l s ->
  (forall e s', Pe e -> spoilt (block * bs + o) (lenZ l) s s' -> Q (inl e) s') ->
  (forall s', wrote (block * bs + o) l s s' -> wp k s' Q) ->
  wp (io_try mr (fun _ => _ ← io_on_mem (CString.memcpy (temp + o) buf (lenZ l)); io_try mw (fun _ => k))) s Q.
Proof.
  intros Hw Hmw Ho Hn Hon [Hs Hsb Ht Ha] Hspoilt Hwrote. pose proof (block_size_pos _ Hdev) as Hbs.
  eapply modify_part_wp; try done. intros [m' k'] Hch. cbn [io_mem io_dev] in *.
  eapply memcpy_io; [done|eapply changed_bytes; [exact Hch|exact Hs|unfold within; lia]| |done|lia|lia|done].
  eapply changed_room; [exact Hch|]. eapply room_part; [exact Ht|lia|lia].
Qed.

(** The front of a block replaced. *)
Lemma write_front_wp {E A A' B} (mr : IO (E + A)) (mw : IO (E + A')) Pe Pa Pa' s buf block l (k : IO (E + B)) Q :
  reads_blocks Pe Pa mr temp block 1 s -> (forall s' l', dev_ok (io_dev s') -> bytes_at (io_mem s') temp l' -> Forall byte l' -> lenZ l' = bs ->
    writes_blocks Pe Pa' mw block 1 l' s') ->
  0 < lenZ l <= bs -> source buf l s ->
  (forall e s', Pe e -> spoilt (block * bs) (lenZ l) s s' -> Q (inl e) s') ->
  (forall s', wrote (block * bs) l s s' -> wp k s' Q) ->
  wp (io_try mr (fun _ => _ ← io_on_mem (CString.memcpy temp buf (lenZ l)); io_try mw (fun _ => k))) s Q.
Proof.
  intros Hr Hmw Hn Hs Hsp Hw. pose proof (write_part_wp mr mw Pe Pa Pa' s buf block 0 l k Q Hr Hmw) as Hp.
  rewrite !Z.add_0_r in Hp. apply Hp; (done || lia).
Qed.

(** A whole block through the local buffer. *)
Lemma write_whole_wp {E A B} (mw : IO (E + A)) (Pe : E -> Prop) Pa s buf block l (k : IO (E + B)) Q : dev_ok (io_dev s) ->
  (forall s' l', dev_ok (io_dev s') -> bytes_at (io_mem s') temp l' -> Forall byte l' -> lenZ l' = bs -> writes_blocks Pe Pa mw block 1 l' s') ->
  lenZ l = bs -> source buf l s ->
  (forall e s', Pe e -> spoilt (block * bs) (lenZ l) s s' -> Q (inl e) s') ->
  (forall s', wrote (block * bs) l s s' -> wp k s' Q) ->
  wp (_ ← io_on_mem (CString.memcpy temp buf bs); io_try mw (fun _ => k)) s Q.
Proof.
  intros Hok Hmw Hn [Hs Hsb Ht Ha] Hsp Hw. pose proof (block_size_pos _ Hdev) as Hbs. wp_step. destruct s as [m d]. cbn [io_mem io_dev] in *.
  eapply memcpy_io; [by symmetry|exact Hs|done|done|lia|lia|].
  assert (changed (within temp bs) m (put m temp l)) as Hch by (apply put_changed_at; [eapply room_mapped; [exact Ht|lia]|lia|lia]).
  apply wp_try. pose proof (Hmw (MkIo (put m temp l) d) l) as Hx. unfold writes_blocks in Hx. rewrite Z.mul_1_l in Hx. cbn [io_mem io_dev] in Hx.
  eapply wp_mono; [apply Hx; [done|apply put_bytes_at|done|lia]|]. clear Hx. intros [e|x] s' (Hok' & Hm & Hx).
  - destruct Hx as (He & Hh & Hch3). apply Hsp; [done|]. split; [done|done| |by rewrite Hm].
    eapply changed_weaken; [exact Hch3|]. intros a Hain. rewrite <- (Z.add_0_r (block * bs)). apply covered_block; (done || lia).
  - destruct Hx as (_ & Hh & Hd). apply Hw. split; [done|done|auto|by rewrite Hm].
Qed.
End write.
End io.

End BlockProps.
