(* ===== verification/BioProps.v ===== *)
(** Byte transfers to and from a block device move exactly the bytes asked for. *)
From S2P Require Import Prelude Mem CString CStringProps Pow2 BlockDev Bio BlockProps.
Local Open Scope Z_scope.

Module BioProps.
Import Mem CStringProps Pow2 BlockDev Bio BlockProps.

Section io.
Context {K : Type} `{DriverOps K}.
Implicit Types s : iostate K.

Context (dev : bdev_t) `{!DriverLaws dev} (Hdev : good_dev dev).
Abbreviation bs := (block_size dev).

(** ** Whole blocks *)

Lemma trim_block_range_id block count : 0 <= block -> 0 <= count -> block + count <= block_count dev ->
  bio_trim_block_range dev block count = count.
Proof.
  intros Hb Hc Hs. pose proof (g_count _ Hdev). unfold bio_trim_block_range. rewrite (proj2 (Z.ltb_ge _ _)) by lia.
  destruct (Z.eqb_spec count 0); [done|]. rewrite uw_small by lia. by rewrite (proj2 (Z.ltb_ge _ _)) by lia.
Qed.

Lemma wp_all_or_err m e s Q : wp m s (fun r s' => Q (if r <? 0 then inl r else if negb (r =? e) then inl ERR_IO else inr r) s') ->
  wp (all_or_err m e) s Q.
Proof. intros Hm. unfold all_or_err. apply wp_bind. eapply wp_mono; [exact Hm|]. intros r s' Hr. by wp_step. Qed.

Lemma read_blocks_wp s buf block count : dev_ok (io_dev s) -> 0 <= block -> 0 <= count -> block + count <= block_count dev ->
  room (io_mem s) buf (count * bs) ->
  reads_blocks dev (fun e => e < 0) (fun n => n = count * bs) (all_or_err (bio_read_block dev buf block count) (count * bs)) buf block count s.
Proof.
  intros Hok Hb Hc Hs Hroom. pose proof (block_size_pos _ Hdev) as Hbs. apply wp_all_or_err. unfold bio_read_block. wp_step.
  split; [apply Z.ltb_lt, Hdev|]. rewrite trim_block_range_id by done. destruct (Z.eqb_spec count 0) as [->|Hne].
  - wp_step. cbn [Z.ltb Z.compare]. split; [done|]. split; [done|]. split; [done|]. split; [done|].
    exists []. split; [done|]. split; [constructor|]. split; [apply bytes_at_nil|done].
  - eapply wp_mono; [apply (read_block_ok (dev := dev)); (done || lia)|]. intros r s' (Hok' & Hd & Hh & l & Hl & Hbl & Hm & Hgood).
    split; [done|]. split; [done|].
    assert (changed (within buf (count * bs)) (io_mem s) (io_mem s')) as Hch.
    { rewrite Hm, <- Hl. apply put_changed. eapply room_mapped; [done|lia]. }
    assert (r ≠ count * bs -> ~ dev_healthy (io_dev s)) as Hnh by (intros Hr Hhe; apply Hh in Hhe; tauto).
    destruct (Z.ltb_spec r 0); [split; [done|]; split; [apply Hnh; nia|done]|].
    destruct (Z.eqb_spec r (count * bs)); cbn [negb]; [|split; [done|]; split; [by apply Hnh|done]].
    split; [done|]. split; [tauto|]. exists l. auto.
Qed.

Lemma write_blocks_wp s buf block count l : dev_ok (io_dev s) -> 0 <= block -> 0 <= count -> block + count <= block_count dev ->
  bytes_at (io_mem s) buf l -> Forall byte l -> lenZ l = count * bs ->
  writes_blocks dev (fun e => e < 0) (fun n => n = count * bs) (all_or_err (bio_write_block dev buf block count) (count * bs)) block count l s.
Proof.
  intros Hok Hb Hc Hs Hbytes Hbl Hl. pose proof (block_size_pos _ Hdev) as Hbs. apply wp_all_or_err. unfold bio_write_block. wp_step.
  split; [apply Z.ltb_lt, Hdev|]. rewrite trim_block_range_id by done. destruct (Z.eqb_spec count 0) as [->|Hne].
  - wp_step. cbn [Z.ltb Z.compare]. split; [done|]. split; [done|]. split; [done|]. split; [done|]. destruct l; [done|simpl in Hl; lia].
  - eapply wp_mono; [apply (write_block_ok (dev := dev) s buf block count l); (done || lia)|].
    intros r s' (Hok' & Hm & Hh & l' & Hl' & Hbl' & Hd & Hgood). split; [done|]. split; [done|].
    assert (changed (within (block * bs) (count * bs)) (disk (io_dev s)) (disk (io_dev s'))) as Hch.
    { rewrite Hd, <- Hl'. apply put_changed. apply (room_mapped _ _ (lenZ l')); [|lia].
      apply (room_part _ 0 (block_count dev * bs)); [by apply (dev_disk (dev := dev))|nia|nia]. }
    assert (r ≠ count * bs -> ~ dev_healthy (io_dev s)) as Hnh by (intros Hr Hhe; apply Hh in Hhe; tauto).
    destruct (Z.ltb_spec r 0); [split; [done|]; split; [apply Hnh; nia|done]|].
    destruct (Z.eqb_spec r (count * bs)); cbn [negb]; [|split; [done|]; split; [by apply Hnh|done]].
    split; [done|]. split; [tauto|]. rewrite <- Hgood by done. done.
Qed.

(** The two hooks on one block, as the parts of a transfer use them. *)
Lemma read_one_wp temp block s : dev_ok (io_dev s) -> 0 <= block -> block + 1 <= block_count dev -> room (io_mem s) temp bs ->
  reads_blocks dev (fun e => e < 0) (fun n => n = bs) (all_or_err (bio_read_block dev temp block 1) bs) temp block 1 s.
Proof.
  intros Hok Hb Hc Hr. pose proof (read_blocks_wp s temp block 1 Hok Hb ltac:(lia) Hc) as Hx. rewrite Z.mul_1_l in Hx. by apply Hx.
Qed.

Lemma write_one_wp temp block : 0 <= block -> block + 1 <= block_count dev -> forall s l, dev_ok (io_dev s) -> bytes_at (io_mem s) temp l ->
  Forall byte l -> lenZ l = bs ->
  writes_blocks dev (fun e => e < 0) (fun n => n = bs) (all_or_err (bio_write_block dev temp block 1) bs) block 1 l s.
Proof.
  intros Hb Hc s l Hok Hm Hl Hlen. pose proof (write_blocks_wp s temp block 1 l Hok Hb ltac:(lia) Hc Hm Hl) as Hx.
  rewrite Z.mul_1_l in Hx. by apply Hx.
Qed.

(** ** Reading *)

Section read.
Context (temp : Z).
Abbreviation buffers := (BlockProps.buffers dev temp).
Abbreviation got := (BlockProps.got dev temp).
Abbreviation lost := (BlockProps.lost dev temp).

(** The request, and a transfer that has come as far as [p]. *)
Section request.
Context (buf off len : Z) (s0 : iostate K).
Hypothesis Hoff : 0 <= off /\ 0 < len /\ off + len <= total_size dev /\ len < 2 ^ 32.
Hypothesis Hok : dev_ok (io_dev s0).
Hypothesis Hbuf : buffers buf len s0.

Record reading (p : progress) s : Prop := {
  r_done : 0 <= p_done p <= len;
  r_buf : p_buf p = buf + p_done p;
  r_len : p_len p = len - p_done p;
  r_block : p_len p = 0 \/ p_block p * bs = off + p_done p;
  r_block_range : 0 <= p_block p <= block_count dev;
  r_got : got off (p_done p) buf s0 s;
}.

Definition read_failed (r : Z) s' : Prop := r < 0 /\ lost len buf s0 s'.

(** One more step of the transfer. *)
Lemma reading_step p s n b s' : reading p s -> 0 <= n <= p_len p -> 0 <= b -> p_block p + b <= block_count dev ->
  (n = p_len p \/ (p_block p + b) * bs = off + p_done p + n) ->
  got (off + p_done p) n (buf + p_done p) s s' -> reading (advance n b p) s'.
Proof.
  intros [] Hn Hb Hbc Hblk Hg. destruct (g_count _ Hdev). destruct Hbuf. unfold advance. split; cbn [p_buf p_len p_done p_block].
  - lia.
  - lia.
  - rewrite uw_small by lia. lia.
  - rewrite !uw_small by lia. lia.
  - rewrite uw_small by lia. lia.
  - eapply got_trans; try done; lia.
Qed.

Lemma reading_lost p s n s' : reading p s -> 0 <= n <= p_len p -> lost n (buf + p_done p) s s' -> lost len buf s0 s'.
Proof.
  intros [] Hn Hl. apply (lost_weaken dev temp (p_done p + n)); [|lia]. eapply lost_after; try done; lia.
Qed.

Lemma reading_buffers p s : reading p s -> buffers (buf + p_done p) (len - p_done p) s.
Proof. intros []. eapply buffers_later; try done; lia. Qed.

Lemma read_first_wp : wp (read_first dev temp off (MkProgress buf len 0 (u32 (u64 off / bs)))) s0
  (fun r s' => match r with inl e => read_failed e s' | inr p => reading p s' end).
Proof.
  pose proof (block_size_pos _ Hdev) as Hbs. pose proof (g_total _ Hdev) as Htot. pose proof (g_total_small _ Hdev) as Hts.
  pose proof (g_count _ Hdev) as Hbc. unfold read_first. rewrite (uw_small 64 off) by lia.
  pose proof (Z.div_mod off bs ltac:(lia)) as Hdm. pose proof (Z.mod_pos_bound off bs ltac:(lia)) as Hmod.
  set (b := off / bs) in *. set (o := off mod bs) in *. assert (0 <= b < block_count dev) as Hb by nia.
  rewrite (uw_small 32 b) by lia. cbn [p_block p_len p_buf].
  assert (reading (MkProgress buf len 0 b) s0 \/ o ≠ 0) as Hstart.
  { destruct (decide (o = 0)); [left|by right]. split; cbn [p_buf p_len p_done p_block]; try lia. by apply got_refl. }
  destruct (Z.eqb_spec o 0) as [E|E]; cbn [negb]; [wp_step; tauto|].
  eapply read_part_wp; [by apply Hdev|apply read_one_wp; try done; try lia; apply Hbuf|lia..| | |].
  - eapply buffers_sub; [done|lia].
  - intros e s' He Hl. split; [done|]. eapply lost_weaken; [exact Hl|lia].
  - intros s' Hg. wp_step. assert (got off (Z.min (bs - o) len) buf s0 s') as Hg2 by (replace off with (b * bs + o) by lia; done).
    unfold advance. split; cbn [p_buf p_len p_done p_block].
    + lia.
    + lia.
    + rewrite uw_small by lia. lia.
    + rewrite !uw_small by lia. lia.
    + rewrite uw_small by lia. lia.
    + done.
Qed.

Lemma read_aligned_wp fuel : forall p s, reading p s -> p_len p / bs < Z.of_nat fuel ->
  wp (read_aligned fuel dev temp p) s
    (fun r s' => match r with inl e => read_failed e s' | inr p' => reading p' s' /\ p_len p' < bs end).
Proof.
  pose proof (block_size_pos _ Hdev) as Hbs. pose proof (g_total _ Hdev) as Htot. pose proof (g_count _ Hdev) as Hbc.
  induction fuel as [|fuel IH]; intros p s Hp Hf; pose proof Hp as [Rd Rb Rl Rk Rr Rg].
  - exfalso. assert (0 <= p_len p / bs) by (apply Z.div_pos; lia). lia.
  - cbn [read_aligned]. destruct (Z.leb_spec bs (p_len p)) as [Hle|Hgt]; [|wp_step; done].
    assert (p_block p + 1 <= block_count dev) as Hblk by nia.
    pose proof (reading_buffers _ _ Hp) as Hb. rewrite Rb.
    eapply read_front_wp; [done|apply read_one_wp; [by destruct Rg|lia|lia|apply Hb]|lia|eapply buffers_sub; [done|lia]| |].
    + intros e s' He Hl. split; [done|]. eapply reading_lost; [done| |done]. lia.
    + intros s' Hg. apply IH.
      * eapply reading_step; [done|lia|lia|lia|nia|]. replace (off + p_done p) with (p_block p * bs) by lia. done.
      * cbn [advance p_len]. rewrite uw_small by lia.
        assert (p_len p = (p_len p - bs) + 1 * bs) as E by lia. rewrite E, Z.div_add in Hf by lia. lia.
Qed.

Lemma read_middle_wp p s : reading p s ->
  wp (read_middle dev temp p) s (fun r s' => match r with inl e => read_failed e s' | inr p' => reading p' s' /\ p_len p' < bs end).
Proof.
  pose proof (block_size_pos _ Hdev) as Hbs. pose proof (g_total _ Hdev) as Htot. pose proof (g_count _ Hdev) as Hbc.
  intros Hp. pose proof Hp as [Rd Rb Rl Rk Rr Rg]. unfold read_middle. case_if.
  - apply read_aligned_wp; [done|]. assert (0 <= p_len p / bs) by (apply Z.div_pos; lia). lia.
  - unfold divpow2. pose proof (g_shift _ Hdev). rewrite !(uw_small 32 (p_len p)), (uw_small 32 (block_shift dev)) by lia.
    rewrite Z.shiftr_div_pow2, <- (g_size _ Hdev) by lia. pose proof (Z.div_mod (p_len p) bs ltac:(lia)) as Hdm.
    pose proof (Z.mod_pos_bound (p_len p) bs ltac:(lia)) as Hmod. set (n := p_len p / bs) in *.
    assert (0 <= n) as Hn0 by (apply Z.div_pos; lia). assert (p_block p + n <= block_count dev) as Hblk by nia.
    rewrite (uw_small 32 n) by lia. rewrite (uw_small 64) by nia. rewrite (Z.mul_comm bs n).
    apply wp_try. pose proof (reading_buffers _ _ Hp) as Hb. rewrite Rb.
    eapply wp_mono; [apply read_blocks_wp; try lia; [by destruct Rg|eapply room_part; [apply Hb|lia|nia]]|].
    intros [e|x] s' (Hok' & Hd & Hx).
    + destruct Hx as (He & Hh & Hch). split; [done|]. apply (reading_lost p s (n * bs)); [done|nia|]. split; try done.
      eapply changed_weaken; [exact Hch|]. unfold touched. tauto.
    + destruct Hx as (-> & Hh & l & Hl & Hlb & Hdl & Hm). wp_step.
      assert (got (off + p_done p) (n * bs) (buf + p_done p) s s') as Hg.
      { split; try done.
        - rewrite Hm, <- Hl. eapply changed_weaken; [apply put_changed|unfold touched; tauto]. eapply room_mapped; [apply Hb|nia].
        - exists l. rewrite Hm. destruct Rk as [Rk|Rk]; [|rewrite <- Rk; do 2 (split; [done|]); split; [done|apply put_bytes_at]].
          assert (n * bs = 0) as Hz by nia. rewrite Hz in *. destruct l; [|simpl in Hl; lia].
          split; [done|]. split; [done|]. split; apply bytes_at_nil. }
      split; [eapply reading_step; [done|nia|lia|lia|nia|done]|]. cbn [advance p_len]. rewrite uw_small by nia. lia.
Qed.

Lemma read_last_wp p s : reading p s -> p_len p < bs ->
  wp (read_last dev temp p) s (fun r s' => match r with inl e => read_failed e s' | inr n => n = len /\ got off len buf s0 s' end).
Proof.
  pose proof (block_size_pos _ Hdev) as Hbs. pose proof (g_total _ Hdev) as Htot. pose proof (g_count _ Hdev) as Hbc.
  intros Hp Hlt. pose proof Hp as [Rd Rb Rl Rk Rr Rg]. unfold read_last. case_if.
  - pose proof (reading_buffers _ _ Hp) as Hb. rewrite Rb.
    eapply read_front_wp; [done|apply read_one_wp; [by destruct Rg|nia|nia|apply Hb]|lia|rewrite Rl; done| |].
    + intros e s' He Hl. split; [done|]. eapply reading_lost; [done| |done]. lia.
    + intros s' Hg. wp_step. split; [lia|]. replace len with (p_done p + p_len p) by lia. destruct Hbuf.
      eapply got_trans; [lia|lia|lia|done|]. replace (off + p_done p) with (p_block p * bs) by lia. done.
  - wp_step. assert (p_done p = len) as E2 by lia. rewrite E2 in Rg. done.
Qed.

Lemma default_read_wp : wp (bio_default_read dev temp buf off len) s0 (fun r s' => (r = len /\ got off len buf s0 s') \/ read_failed r s').
Proof.
  unfold bio_default_read, io_result. wp_step. apply wp_try. eapply wp_mono; [apply read_first_wp|].
  intros [e|p] s1 H1; [wp_step; by right|]. apply wp_try. eapply wp_mono; [by apply read_middle_wp|].
  intros [e|p2] s2 H2; [wp_step; by right|]. destruct H2 as [H2 Hlt]. eapply wp_mono; [by apply read_last_wp|].
  intros [e|n] s3 H3; wp_step; [by right|by left].
Qed.
End request.
End read.

(** ** Writing *)

Section write.
Context (temp : Z).
Abbreviation wrote := (BlockProps.wrote dev temp).
Abbreviation spoilt := (BlockProps.spoilt dev temp).
Abbreviation source := (BlockProps.source dev temp).

Section request.
Context (buf off : Z) (data : list Z) (s0 : iostate K).
Abbreviation len := (lenZ data).
Hypothesis Hoff : 0 <= off /\ 0 < len /\ off + len <= total_size dev /\ len < 2 ^ 32.
Hypothesis Hok : dev_ok (io_dev s0).
Hypothesis Hsrc : source buf data s0.

Record writing (p : progress) s : Prop := {
  wr_parts : exists l1 l2, data = l1 ++ l2 /\ lenZ l1 = p_done p /\ lenZ l2 = p_len p /\ wrote off l1 s0 s;
  wr_buf : p_buf p = buf + p_done p;
  wr_block : p_len p = 0 \/ p_block p * bs = off + p_done p;
  wr_block_range : 0 <= p_block p <= block_count dev;
}.

Definition write_failed (r : Z) s' : Prop := r < 0 /\ spoilt off len s0 s'.

Lemma writing_step l1 l2 l3 s s' b p : data = l1 ++ l2 ++ l3 -> wrote off l1 s0 s -> wrote (off + lenZ l1) l2 s s' ->
  p_done p = lenZ l1 -> p_buf p = buf + p_done p -> p_len p = lenZ l2 + lenZ l3 -> 0 <= p_block p -> 0 <= b -> p_block p + b <= block_count dev ->
  (lenZ l3 = 0 \/ (p_block p + b) * bs = off + p_done p + lenZ l2) -> writing (advance (lenZ l2) b p) s'.
Proof.
  intros E Hw1 Hw2 Hd Hb Hl Hr Hb0 Hbc Hblk. destruct (g_count _ Hdev). assert (len = lenZ l1 + lenZ l2 + lenZ l3) as El by (rewrite E, !length_app; lia).
  split; cbn [advance p_buf p_len p_done p_block].
  - exists (l1 ++ l2), l3. split; [by rewrite <- app_assoc|]. split; [rewrite length_app; lia|]. split; [rewrite uw_small; lia|].
    eapply wrote_trans; done.
  - lia.
  - rewrite !uw_small by lia. lia.
  - rewrite uw_small by lia. lia.
Qed.

Lemma writing_spoilt l1 l2 l3 s s' : data = l1 ++ l2 ++ l3 -> wrote off l1 s0 s -> spoilt (off + lenZ l1) (lenZ l2) s s' -> spoilt off len s0 s'.
Proof.
  intros E Hw Hs. assert (len = lenZ l1 + lenZ l2 + lenZ l3) as El by (rewrite E, !length_app; lia).
  apply (spoilt_weaken dev Hdev temp off len off (lenZ l1 + lenZ l2)); [|lia|lia]. eapply spoilt_after; try done; lia.
Qed.

(** The next [n] bytes to write. *)
Lemma writing_split p s n : writing p s -> 0 <= n <= p_len p -> exists l1 l2 l3, data = l1 ++ l2 ++ l3 /\ lenZ l1 = p_done p /\
  lenZ l2 = n /\ lenZ l2 + lenZ l3 = p_len p /\ wrote off l1 s0 s /\ source (p_buf p) l2 s.
Proof.
  intros [(l1 & l2 & E & H1 & H2 & Hw) Hb _ _] Hn. exists l1, (take (Z.to_nat n) l2), (drop (Z.to_nat n) l2).
  rewrite length_take, length_drop, take_drop. split; [done|]. split; [done|]. split; [lia|]. split; [lia|]. split; [done|].
  rewrite Hb, <- H1. apply (source_front _ _ _ _ (drop (Z.to_nat n) l2)). rewrite take_drop. eapply source_later; [|exact Hw]. by rewrite <- E.
Qed.

Lemma write_first_wp : wp (write_first dev temp off (MkProgress buf len 0 (u32 (u64 off / bs)))) s0
  (fun r s' => match r with inl e => write_failed e s' | inr p => writing p s' end).
Proof.
  pose proof (block_size_pos _ Hdev) as Hbs. pose proof (g_total _ Hdev) as Htot. pose proof (g_total_small _ Hdev) as Hts.
  pose proof (g_count _ Hdev) as Hbc. unfold write_first. rewrite (uw_small 64 off) by lia.
  pose proof (Z.div_mod off bs ltac:(lia)) as Hdm. pose proof (Z.mod_pos_bound off bs ltac:(lia)) as Hmod.
  set (b := off / bs) in *. set (o := off mod bs) in *. assert (0 <= b < block_count dev) as Hb by nia.
  rewrite (uw_small 32 b) by lia. cbn [p_block p_len p_buf].
  set (n := Z.min (bs - o) len).
  assert (exists l2 l3, data = l2 ++ l3 /\ lenZ l2 = n) as (l2 & l3 & E & En).
  { exists (take (Z.to_nat n) data), (drop (Z.to_nat n) data). rewrite take_drop, length_take. split; [done|lia]. }
  assert (len = lenZ l2 + lenZ l3) as El by (rewrite E, !length_app; lia).
  destruct (Z.eqb_spec o 0) as [E0|E0]; cbn [negb].
  - wp_step. split; cbn [p_buf p_len p_done p_block]; try lia. exists [], data.
    split; [done|]. split; [done|]. split; [done|]. by apply wrote_nil.
  - assert (0 < n <= bs - o /\ (n = len \/ n = bs - o)) as Hn by lia. clearbody n. subst n.
    eapply write_part_wp; [done|apply read_one_wp; [done|lia|lia|apply Hsrc]|apply write_one_wp; lia|lia|lia|lia| | |].
    + apply (source_front _ _ _ _ l3). by rewrite <- E.
    + intros e s' He Hs. split; [done|]. eapply (spoilt_weaken dev Hdev); [exact Hs|lia|lia].
    + intros s' Hw. wp_step. apply (writing_step [] l2 l3 s0 s'); cbn [p_buf p_len p_done p_block length]; [done|by apply wrote_nil| |lia..].
      replace (off + Z.of_nat 0) with (b * bs + o) by lia. done.
Qed.

Lemma write_aligned_wp fuel : forall p s, writing p s -> p_len p / bs < Z.of_nat fuel ->
  wp (write_aligned fuel dev temp p) s
    (fun r s' => match r with inl e => write_failed e s' | inr p' => writing p' s' /\ p_len p' < bs end).
Proof.
  pose proof (block_size_pos _ Hdev) as Hbs. pose proof (g_total _ Hdev) as Htot. pose proof (g_count _ Hdev) as Hbc.
  induction fuel as [|fuel IH]; intros p s Hp Hf.
  - exfalso. destruct Hp as [(l1 & l2 & _ & _ & E & _) _ _ _]. assert (0 <= p_len p / bs) by (apply Z.div_pos; lia). lia.
  - cbn [write_aligned]. destruct (Z.leb_spec bs (p_len p)) as [Hle|Hgt]; [|wp_step; done].
    destruct (writing_split p s bs Hp ltac:(lia)) as (l1 & l2 & l3 & E & E1 & E2 & E3 & Hw & Hsrc2).
    assert (len = lenZ l1 + lenZ l2 + lenZ l3) as El by (rewrite E, !length_app; lia). destruct Hp as [_ Rb Rk Rr].
    assert (p_block p + 1 <= block_count dev) as Hblk by nia. assert (p_block p * bs = off + lenZ l1) as Hpos by lia.
    eapply write_whole_wp with (l := l2); [done|by destruct Hw|apply write_one_wp; lia|lia|exact Hsrc2| |].
    + intros e s' He Hs. rewrite Hpos in Hs. split; [done|]. by eapply writing_spoilt.
    + intros s' Hw2. rewrite Hpos in Hw2. apply IH.
      * rewrite <- E2. eapply writing_step; try done; lia.
      * cbn [advance p_len]. rewrite uw_small by lia.
        assert (p_len p = (p_len p - bs) + 1 * bs) as Ex by lia. rewrite Ex, Z.div_add in Hf by lia. lia.
Qed.

Lemma write_middle_wp p s : writing p s ->
  wp (write_middle dev temp p) s (fun r s' => match r with inl e => write_failed e s' | inr p' => writing p' s' /\ p_len p' < bs end).
Proof.
  pose proof (block_size_pos _ Hdev) as Hbs. pose proof (g_total _ Hdev) as Htot. pose proof (g_count _ Hdev) as Hbc.
  intros Hp. assert (0 <= p_len p < 2 ^ 32) as Hplen.
  { destruct Hp as [(l1 & l2 & E & _ & E2 & _) _ _ _]. assert (len = lenZ l1 + lenZ l2) by (rewrite E, !length_app; lia). lia. }
  unfold write_middle. case_if.
  - apply write_aligned_wp; [done|]. assert (0 <= p_len p / bs) by (apply Z.div_pos; lia). lia.
  - unfold divpow2. pose proof (g_shift _ Hdev). rewrite !(uw_small 32 (p_len p)), (uw_small 32 (block_shift dev)) by lia.
    rewrite Z.shiftr_div_pow2, <- (g_size _ Hdev) by lia. pose proof (Z.div_mod (p_len p) bs ltac:(lia)) as Hdm.
    pose proof (Z.mod_pos_bound (p_len p) bs ltac:(lia)) as Hmod. set (n := p_len p / bs) in *.
    assert (0 <= n) as Hn0 by (apply Z.div_pos; lia). clear E.
    destruct (writing_split p s (n * bs) Hp ltac:(nia)) as (l1 & l2 & l3 & E & E1 & E2 & E3 & Hw & Hsrc2).
    assert (len = lenZ l1 + lenZ l2 + lenZ l3) as El by (rewrite E, !length_app; lia). destruct Hp as [_ Rb Rk Rr].
    assert (p_block p + n <= block_count dev) as Hblk by nia.
    rewrite (uw_small 32 n) by nia. rewrite !(uw_small 64) by nia. rewrite (Z.mul_comm bs n).
    apply wp_try. eapply wp_mono; [apply (write_blocks_wp s (p_buf p) (p_block p) n l2); try done; try lia; [by destruct Hw|apply Hsrc2..]|].
    intros [e|x] s' (Hok' & Hm & Hx).
    + destruct Hx as (He & Hh & Hch). split; [done|]. eapply (writing_spoilt l1 l2 l3 s); [done|done|].
      split; [done|done| |rewrite Hm; apply changed_refl]. eapply changed_weaken; [exact Hch|]. intros a Ha. apply (covered_within dev Hdev); [lia|].
      unfold within in *. destruct Rk; [assert (n * bs = 0) by nia|]; lia.
    + destruct Hx as (-> & Hh & Hd). wp_step. split; [by apply Z.eqb_eq|].
      assert (wrote (off + lenZ l1) l2 s s') as Hw2.
      { split; [done| |done|rewrite Hm; apply changed_refl]. rewrite Hd. destruct Rk as [Rk|Rk]; [|f_equal; lia].
        destruct l2; [done|simpl in E2; nia]. }
      rewrite <- E2. split; [eapply (writing_step l1 l2 l3); try done; try lia; nia|]. cbn [advance p_len]. rewrite uw_small by nia. nia.
Qed.

Lemma write_last_wp p s : writing p s -> p_len p < bs ->
  wp (write_last dev temp p) s (fun r s' => match r with inl e => write_failed e s' | inr n => n = len /\ wrote off data s0 s' end).
Proof.
  pose proof (block_size_pos _ Hdev) as Hbs. pose proof (g_total _ Hdev) as Htot. pose proof (g_count _ Hdev) as Hbc.
  intros Hp Hlt. assert (0 <= p_len p) as Hplen by (destruct Hp as [(l1 & l2 & E & _ & E2 & _) _ _ _]; lia).
  destruct (writing_split p s (p_len p) Hp ltac:(lia)) as (l1 & l2 & l3 & E & E1 & E2 & E3 & Hw & Hsrc2).
  destruct l3 as [|]; [rewrite app_nil_r in E|simpl in E3; lia].
  assert (len = lenZ l1 + lenZ l2) as El by (rewrite E, !length_app; lia). destruct Hp as [_ Rb Rk Rr].
  unfold write_last. case_if.
  - assert (p_block p * bs = off + lenZ l1) as Hpos by lia. rewrite <- E2.
    eapply write_front_wp; [done|apply read_one_wp; [by destruct Hw|nia|nia|apply Hsrc2]|apply write_one_wp; nia|lia|exact Hsrc2| |].
    + intros e s' He Hs. rewrite Hpos in Hs. split; [done|]. eapply (writing_spoilt l1 l2 []); [by rewrite app_nil_r|done|done].
    + intros s' Hw2. rewrite Hpos in Hw2. wp_step. split; [lia|]. rewrite E. by eapply wrote_trans.
  - wp_step. destruct l2; [|simpl in E2; lia]. rewrite app_nil_r in E. subst data. split; [simpl in *; lia|done].
Qed.

Lemma default_write_wp : wp (bio_default_write dev temp buf off len) s0 (fun r s' => (r = len /\ wrote off data s0 s') \/ write_failed r s').
Proof.
  unfold bio_default_write, io_result. wp_step. apply wp_try. eapply wp_mono; [apply write_first_wp|].
  intros [e|p] s1 H1; [wp_step; by right|]. apply wp_try. eapply wp_mono; [by apply write_middle_wp|].
  intros [e|p2] s2 H2; [wp_step; by right|]. destruct H2 as [H2 Hlt]. eapply wp_mono; [by apply write_last_wp|].
  intros [e|n] s3 H3; wp_step; [by right|by left].
Qed.
End request.
End write.

Abbreviation buffers := (BlockProps.buffers dev).
Abbreviation got := (BlockProps.got dev).
Abbreviation lost := (BlockProps.lost dev).
Abbreviation wrote := (BlockProps.wrote dev).
Abbreviation spoilt := (BlockProps.spoilt dev).
Abbreviation source := (BlockProps.source dev).

(** ** Within the device *)

(** What is left of a range inside the device. *)
Definition inside (off len : Z) : Z := Z.max 0 (Z.min len (total_size dev - off)).

Lemma trim_range off len : 0 <= off -> 0 <= len -> off + len < 2 ^ 63 -> bio_trim_range dev off len = inside off len.
Proof.
  intros Ho Hl Hs. pose proof (g_total _ Hdev). pose proof (block_size_pos _ Hdev). pose proof (g_count _ Hdev).
  pose proof (g_total_small _ Hdev). unfold bio_trim_range, inside.
  destruct (Z.ltb_spec off 0); [lia|]. destruct (Z.leb_spec (total_size dev) off); [lia|]. destruct (Z.eqb_spec len 0); [lia|].
  rewrite (uw_small 64 (off + len)), (sw_small 64) by lia. destruct (Z.ltb_spec (total_size dev) (off + len)); [rewrite uw_small by lia|]; lia.
Qed.

Lemma bio_read_wp temp off buf len s : 0 <= off -> 0 <= len -> off + len < 2 ^ 63 -> inside off len < 2 ^ 32 -> dev_ok (io_dev s) ->
  buffers temp buf (inside off len) s ->
  wp (bio_read dev (bio_default_read dev temp) buf off len) s (fun r s' =>
    (r = inside off len /\ got temp off (inside off len) buf s s') \/ (r < 0 /\ lost temp (inside off len) buf s s')).
Proof.
  intros Ho Hl Hs Hn Hok Hb. unfold bio_read. wp_step.
  split; [apply Z.ltb_lt, Hdev|]. rewrite trim_range by done. destruct (Z.eqb_spec (inside off len) 0) as [E|E].
  - wp_step. left. split; [done|]. rewrite E. by apply got_refl.
  - apply default_read_wp; try done. unfold inside in *. lia.
Qed.

Lemma bio_write_wp temp off buf l s : 0 <= off -> off + lenZ l <= total_size dev -> lenZ l < 2 ^ 32 -> dev_ok (io_dev s) ->
  source temp buf l s ->
  wp (bio_write dev (bio_default_write dev temp) buf off (lenZ l)) s (fun r s' => (r = lenZ l /\ wrote temp off l s s') \/ (r < 0 /\ spoilt temp off (lenZ l) s s')).
Proof.
  intros Ho Hl Hs Hok Hsrc. unfold bio_write. wp_step. split; [apply Z.ltb_lt, Hdev|]. pose proof (g_total_small _ Hdev).
  rewrite trim_range by lia. replace (inside off (lenZ l)) with (lenZ l) by (unfold inside; lia).
  destruct (Z.eqb_spec (lenZ l) 0) as [E|E].
  - wp_step. left. split; [done|]. destruct l; [by apply wrote_nil|done].
  - by apply default_write_wp; try lia.
Qed.

Definition fill (n : Z) : list Z := replicate (Z.to_nat n) (u8 (erase_byte dev)).

Lemma fill_length n : 0 <= n -> lenZ (fill n) = n.
Proof. intros. unfold fill. rewrite length_replicate. lia. Qed.

Lemma fill_app n k : 0 <= n -> 0 <= k -> fill (n + k) = fill n ++ fill k.
Proof. intros. unfold fill. rewrite <- replicate_add. f_equal. lia. Qed.

Lemma erase_loop_wp temp ebuf off s0 fuel : forall rem done_ s, 0 <= off -> 0 <= done_ -> 0 <= rem -> off + done_ + rem <= total_size dev ->
  rem < Z.of_nat fuel -> wrote temp off (fill done_) s0 s -> dev_ok (io_dev s0) -> source temp ebuf (fill bs) s ->
  wp (erase_loop fuel dev (bio_default_write dev temp) ebuf (off + done_) rem done_) s (fun r s' =>
    (r = done_ + rem /\ wrote temp off (fill (done_ + rem)) s0 s') \/ (r < 0 /\ spoilt temp off (done_ + rem) s0 s')).
Proof.
  pose proof (block_size_pos _ Hdev) as Hbs. pose proof (g_total_small _ Hdev) as Hts.
  induction fuel as [|fuel IH]; intros rem d s Ho Hd Hr Ht Hf Hw Hok Hs; [lia|]. cbn [erase_loop].
  destruct (Z.ltb_spec 0 rem) as [Hpos|Hz].
  - set (n := Z.min rem bs). assert (0 < n <= bs /\ n <= rem) as Hn by lia.
    assert (fill bs = fill n ++ fill (bs - n)) as Ef by (rewrite <- fill_app by lia; f_equal; lia).
    assert (source temp ebuf (fill n) s) as Hsn by (apply (source_front _ _ _ _ (fill (bs - n))); by rewrite <- Ef).
    wp_step. pose proof (bio_write_wp temp (off + d) ebuf (fill n) s) as Hx. rewrite fill_length in Hx by lia.
    eapply wp_mono; [apply Hx; try done; try lia; by destruct Hw|]. clear Hx. intros r s' [[-> Hw2]|[Hr2 Hsp]].
    + destruct (Z.ltb_spec n 0); [lia|]. rewrite Z.ltb_irrefl. rewrite uw_small by lia.
      assert (lenZ (fill d) = d) as Efd by (apply fill_length; lia).
      replace (off + d + n) with (off + (d + n)) by lia. replace (d + rem) with (d + n + (rem - n)) by lia. apply IH; try lia; try done.
      * rewrite fill_app by lia. eapply wrote_trans; [exact Hw|]. by rewrite Efd.
      * rewrite <- (Z.add_0_r ebuf). apply (source_later dev temp ebuf [] (fill bs) _ _ s s' Hs Hw2).
    + rewrite (proj2 (Z.ltb_lt _ _)) by done. wp_step. right. split; [done|].
      assert (lenZ (fill d) = d) as Efd by (apply fill_length; lia). rewrite <- Efd in Hsp at 1.
      pose proof (spoilt_after dev Hdev temp off (fill d) n s0 s s' Hok ltac:(lia) ltac:(lia) ltac:(lia) Hw) as Hsp2.
      eapply (spoilt_weaken dev Hdev); [apply Hsp2; by rewrite Efd in *|lia|lia].
  - wp_step. left. assert (rem = 0) as -> by lia. rewrite Z.add_0_r. done.
Qed.

Lemma default_erase_wp temp ebuf off len s : 0 <= off -> 0 < len -> off + len <= total_size dev -> dev_ok (io_dev s) ->
  room (io_mem s) ebuf bs -> room (io_mem s) temp bs -> (ebuf + bs <= temp \/ temp + bs <= ebuf) ->
  wp (bio_default_erase dev (bio_default_write dev temp) ebuf off len) s (fun r s' =>
    exists s1, s1 = MkIo (put (io_mem s) ebuf (fill bs)) (io_dev s) /\
    ((r = len /\ wrote temp off (fill len) s1 s') \/ (r < 0 /\ spoilt temp off len s1 s'))).
Proof.
  intros Ho Hl Ht Hok Hre Hrt Ha. pose proof (block_size_pos _ Hdev) as Hbs. unfold bio_default_erase. wp_step. apply wp_io_mem.
  rewrite <- (Z2Nat.id bs) at 1 by lia. eapply wp_mono; [apply memset_wp; eapply room_mapped; [exact Hre|lia]|].
  intros r m' [_ ->]. fold (fill bs). set (s1 := MkIo _ _). assert (lenZ (fill bs) = bs) as Ef by (apply fill_length; lia).
  assert (source temp ebuf (fill bs) s1) as Hs.
  { split; cbn [io_mem s1].
    - apply put_bytes_at.
    - apply Forall_replicate. unfold byte. pose proof (uw_range 8 (erase_byte dev)). lia.
    - eapply changed_room; [|exact Hrt]. apply put_changed. eapply room_mapped; [exact Hre|lia].
    - lia. }
  pose proof (erase_loop_wp temp ebuf off s1 (S (Z.to_nat len)) len 0 s1) as Hx. rewrite Z.add_0_r, Z.add_0_l in Hx.
  eapply wp_mono; [apply Hx; try done; try lia; by apply wrote_nil|]. intros r' s' Hr. by exists s1.
Qed.

(** * Properties *)

(** C34. bio_read with the default hook, on a device whose driver transfers whole blocks,
    trims the range to the device and puts exactly those bytes of the disk at the buffer,
    whatever the offset, the length (below 2^32) and the alignment, and returns their
    number; when the driver fails it returns a negative error. The disk does not change,
    and memory only in the buffer and in the function's own block. *)
Theorem bio_read_gets temp buf off len s :
  0 <= off -> 0 <= len -> off + len < 2 ^ 63 -> inside off len < 2 ^ 32 -> dev_ok (io_dev s) -> buffers temp buf (inside off len) s ->
  exists r s', bio_read dev (bio_default_read dev temp) buf off len s = Some (r, s') /\
    ((r = inside off len /\ got temp off (inside off len) buf s s') \/ (r < 0 /\ lost temp (inside off len) buf s s')).
Proof.
  intros Ho Hl Hs Hn Hok Hb. apply wp_run. by apply bio_read_wp.
Qed.

End io.

End BioProps.
