(* ===== verification/BioSample.v ===== *)
(** A driver that keeps its disk in memory, and transfers to and from it. *)
From S2P Require Import Prelude Mem CStringProps BlockDev Bio BlockProps BioProps.
Local Open Scope Z_scope.

Module BioSample.
Import Mem CStringProps BlockDev Bio BlockProps BioProps.

(** The disk, and whether it works; a disk that does not transfers zeros and reports it. *)
Record ram := MkRam { contents : mem; works : bool }.

Section ram.
(** The size of a block, and what the hooks return on success. *)
Context (bs : Z).

Definition transferred (k : ram) (l : list Z) : list Z := if works k then l else replicate (length l) 0.

Definition ram_read (ok : Z) (buf block count : Z) : M (iostate ram) Z := fun s =>
  let l := transferred (io_dev s) (bytes_of (contents (io_dev s)) (block * bs) (Z.to_nat (count * bs))) in
  Some (if works (io_dev s) then ok else ERR_IO, MkIo (put (io_mem s) buf l) (io_dev s)).
Definition ram_store (ok : Z) (l : list Z) (block : Z) : M (iostate ram) Z := fun s =>
  Some (if works (io_dev s) then ok else ERR_IO,
        MkIo (io_mem s) (MkRam (put (contents (io_dev s)) (block * bs) (transferred (io_dev s) l)) (works (io_dev s)))).

Definition ram_ok (size : Z) (k : ram) : Prop := room (contents k) 0 size /\ byte_mem (contents k).

#[local] Instance ram_ops size : DriverOps ram := {|
  read_block buf block count := ram_read (count * bs) buf block count;
  write_block buf block count := fun s => ram_store (count * bs) (bytes_of (io_mem s) buf (Z.to_nat (count * bs))) block s;
  new_read_native buf block count := ram_read 0 buf block count;
  new_write_native buf block count := fun s => ram_store 0 (bytes_of (io_mem s) buf (Z.to_nat (count * bs))) block s;
  new_erase_native block count := ram_store 0 (replicate (Z.to_nat (count * bs)) 0) block;
  disk := contents;
  dev_ok := ram_ok size;
  dev_healthy k := works k = true;
|}.
End ram.

Section laws.
Context (dev : bdev_t) (Hdev : good_dev dev).
Abbreviation bs := (block_size dev).
Abbreviation ops := (ram_ops bs (block_count dev * bs)).
#[local] Existing Instance ram_ops.

Lemma ram_disk_mapped k block count : ram_ok (block_count dev * bs) k -> 0 <= block -> 0 < count -> block + count <= block_count dev ->
  mapped (contents k) (block * bs) (Z.to_nat (count * bs)).
Proof.
  intros [Hr _] Hb Hc Hs. pose proof (block_size_pos _ Hdev). apply (room_mapped _ _ (count * bs)); [|nia].
  apply (room_part _ 0 (block_count dev * bs)); [done|nia|nia].
Qed.

Lemma transferred_ok k l : Forall byte l -> length (transferred k l) = length l /\ Forall byte (transferred k l) /\ (works k = true -> transferred k l = l).
Proof.
  intros Hl. unfold transferred. destruct (works k); [done|]. rewrite length_replicate. split; [done|]. split; [|done].
  apply Forall_replicate. unfold byte. lia.
Qed.

Lemma ram_read_ok ok s buf block count : ok ≠ ERR_IO -> ram_ok (block_count dev * bs) (io_dev s) -> 0 <= block -> 0 < count ->
  block + count <= block_count dev ->
  wp (ram_read bs ok buf block count) s (fun r s' => read_done (H := ops) bs buf block count s (r = ok) s').
Proof.
  intros Hne Hok Hb Hc Hs. pose proof (block_size_pos _ Hdev) as Hbs. unfold ram_read, wp.
  set (l := bytes_of _ _ _). destruct (transferred_ok (io_dev s) l) as (Hlen & Hbytes & Hsame); [by apply bytes_of_bytes, Hok|].
  split; [done|]. split; [done|]. split; [intros Hw; simpl in Hw; by rewrite Hw|]. exists (transferred (io_dev s) l).
  split; [rewrite Hlen; unfold l; rewrite bytes_of_length; nia|]. split; [done|]. split; [done|].
  destruct (works (io_dev s)); [|done]. intros _. rewrite Hsame by done. apply bytes_of_at. by apply ram_disk_mapped.
Qed.

Lemma ram_store_ok ok s l block count : ok ≠ ERR_IO -> ram_ok (block_count dev * bs) (io_dev s) -> 0 <= block -> 0 < count ->
  block + count <= block_count dev -> Forall byte l -> lenZ l = count * bs ->
  wp (ram_store bs ok l block) s (fun r s' => write_done (H := ops) bs l block count s (r = ok) s').
Proof.
  intros Hne Hok Hb Hc Hs Hl Hlen. pose proof (block_size_pos _ Hdev) as Hbs. unfold ram_store, wp.
  destruct (transferred_ok (io_dev s) l Hl) as (Htl & Htb & Hsame).
  assert (mapped (contents (io_dev s)) (block * bs) (length (transferred (io_dev s) l))) as Hm.
  { rewrite Htl. replace (length l) with (Z.to_nat (count * bs)) by lia. by apply ram_disk_mapped. }
  split; [split; cbn [io_dev contents]; [|apply put_byte_mem; [apply Hok|done]]|].
  { eapply changed_room; [by apply put_changed|apply Hok]. }
  split; [done|]. split; [intros Hw; simpl in Hw; by rewrite Hw|]. exists (transferred (io_dev s) l).
  split; [lia|]. split; [done|]. split; [done|]. destruct (works (io_dev s)); [|done]. intros _. by apply Hsame.
Qed.

Lemma ram_laws : DriverLaws (H := ops) dev.
Proof.
  pose proof (block_size_pos _ Hdev) as Hbs. split.
  - intros k Hk. exact Hk.
  - intros s buf block count Hok Hb Hc Hs Hr. apply ram_read_ok; try done. unfold ERR_IO. nia.
  - intros s buf block count l Hok Hb Hc Hs Hl Hlb Hlen. simpl. unfold write_block, wp. cbn.
    replace (Z.to_nat (count * bs)) with (length l) by lia. rewrite bytes_of_exact by done.
    apply (ram_store_ok (count * bs) s l block count); try done. unfold ERR_IO. nia.
  - intros s buf block count Hok Hb Hc Hs Hr. by apply ram_read_ok.
  - intros s buf block count l Hok Hb Hc Hs Hl Hlb Hlen. simpl. unfold write_block, wp. cbn.
    replace (Z.to_nat (count * bs)) with (length l) by lia. rewrite bytes_of_exact by done.
    by apply (ram_store_ok 0 s l block count).
  - intros s block count Hok Hb Hc Hs. apply ram_store_ok; try done.
    + apply Forall_replicate. unfold byte. lia.
    + rewrite length_replicate. nia.
Qed.
End laws.

(** Four blocks of a kilobyte, and memory for the buffers. *)
Definition sample_dev : bdev_t := MkBdev 1 [114; 97; 109] 4096 1024 10 4 0 255 0 0.
Definition sample_disk : mem := put ∅ 0 (concat (replicate 32 (seqZ 0 128))).
Definition sample_ram : ram := MkRam sample_disk true.
Definition sample_io : iostate ram := MkIo (put ∅ 10000 (replicate 4500 0)) sample_ram.
#[export] Instance sample_ops : DriverOps ram := ram_ops 1024 4096.

Lemma sample_good : good_dev sample_dev.
Proof. split; simpl; lia. Qed.

#[export] Instance sample_laws : DriverLaws sample_dev := ram_laws sample_dev sample_good.

Lemma put_room p l : room (put ∅ p l) p (lenZ l).
Proof.
  intros a Ha. pose proof (put_bytes_at ∅ p l) as Hb. apply bytes_at_mapped in Hb. destruct (Hb (Z.to_nat (a - p))) as [b Hx]; [lia|].
  exists b. by replace (p + Z.of_nat (Z.to_nat (a - p))) with a in Hx by lia.
Qed.

Lemma sample_ok : dev_ok (io_dev sample_io).
Proof.
  split.
  - apply (put_room 0 (concat (replicate 32 (seqZ 0 128)))).
  - apply put_byte_mem; [apply map_Forall_empty|]. apply Forall_concat, Forall_replicate, Forall_forall. intros x Hx.
    apply elem_of_seqZ in Hx. unfold byte. lia.
Qed.

Lemma sample_room p n : 10000 <= p -> p + n <= 14500 -> room (io_mem sample_io) p n.
Proof.
  intros Hp Hn. apply (room_part _ 10000 4500); [|lia|lia]. pose proof (put_room 10000 (replicate 4500 0)) as Hr.
  by rewrite length_replicate in Hr.
Qed.

Lemma sample_zeros p n : 10000 <= p -> p + Z.of_nat n <= 14500 -> bytes_at (io_mem sample_io) p (replicate n 0).
Proof.
  intros Hp Hn. pose proof (put_bytes_at ∅ 10000 (replicate 4500 0)) as Hb. unfold sample_io. cbn [io_mem].
  generalize dependent (put ∅ 10000 (replicate 4500 0)). intros m Hb.
  replace 4500%nat with (Z.to_nat (p - 10000) + (n + (4500 - Z.to_nat (p - 10000) - n)))%nat in Hb by lia.
  rewrite !replicate_add in Hb. apply bytes_at_app in Hb as [_ Hb]. apply bytes_at_app in Hb as [Hb _].
  rewrite length_replicate in Hb. by replace (10000 + Z.of_nat (Z.to_nat (p - 10000))) with p in Hb by lia.
Qed.

(** 2000 bytes from the middle of a block, cut at the end of the disk to 1596. *)
Lemma bio_read_gets_witness : exists r s', bio_read sample_dev (bio_default_read sample_dev 13000) 10100 2500 2000 sample_io = Some (r, s') /\
  ((r = inside sample_dev 2500 2000 /\ got sample_dev 13000 2500 (inside sample_dev 2500 2000) 10100 sample_io s') \/
   (r < 0 /\ lost sample_dev 13000 (inside sample_dev 2500 2000) 10100 sample_io s')).
Proof.
  apply (bio_read_gets sample_dev sample_good 13000 10100 2500 2000 sample_io).
  - lia.
  - lia.
  - lia.
  - reflexivity.
  - exact sample_ok.
  - split; [apply sample_room; [lia|vm_compute; discriminate]|apply sample_room; [lia|vm_compute; discriminate]|left; vm_compute; discriminate].
Defined.


(** The range checks miss requests whose end does not fit the type it is computed in. *)
Lemma huge_requests_pass : bio_trim_range sample_dev 0 (2 ^ 63) = 2 ^ 63 /\ bio_trim_block_range sample_dev 2 (2 ^ 32 - 1) = 2 ^ 32 - 1.
Proof. vm_compute. split; reflexivity. Qed.

End BioSample.
