(* ===== verification/Native.v ===== *)
(** The transfers of [lib/bio/bio.c] in sectors of 512 bytes over the native hooks
    of a driver: [bio_new_read] and its relatives, as the boot loader uses them.
    The local buffer of a function is where the compiler puts it, [temp]. *)
From S2P Require Import Prelude Mem CString BlockDev Bio.
Local Open Scope Z_scope.

Module Native.
Import Mem BlockDev Bio.

(** Sectors in a block of the device, and sectors in one request. *)
Definition native_block_size (dev : bdev_t) : Z := u32 (block_size dev / USER_BLOCK_SIZE).
Definition max_blkcnt (dev : bdev_t) : Z := if max_blkcnt_per_cmd dev =? 0 then 32 else max_blkcnt_per_cmd dev.

(** Sectors done so far, the buffer, the next sector; the byte functions keep
    the sectors and bytes that remain instead. *)
Record nprogress := MkNp { np_done : Z; np_buf : Z; np_block : Z }.
Record bprogress := MkBp { bp_left : Z; bp_buf : Z; bp_block : Z; bp_size : Z }.

Section native.
Context {K : Type} `{DriverOps K}.
Abbreviation IO := (M (iostate K)).

(** [if (hook(...)) goto end;] where the function then returns [r]. *)
Definition or_end (hook : IO Z) (r : Z) : IO (Z + unit) := st ← hook; mret (if st =? 0 then inr tt else inl r).

Definition misaligned (dev : bdev_t) (flag buf : Z) : bool := has_flag dev flag && negb (IS_ALIGNED buf CACHE_LINE).

(** ** Sectors *)

(** The first, partial block: its start, the offset of the range in it, its sectors. *)
Definition block_start (nb block : Z) : Z := u32 (block / nb * nb).
Definition head_count (nb block count : Z) : Z := Z.min count (u32 (block_start nb block + nb - block)).
Definition head_offset (nb block : Z) : Z := u32 (u32 (block - block_start nb block) * USER_BLOCK_SIZE).

Definition new_read_first (dev : bdev_t) (temp buf block count : Z) : IO (Z + nprogress) :=
  let nb := native_block_size dev in
  if negb (block mod nb =? 0) || (count <? nb) then
    let b := block_start nb block in
    io_try (or_end (new_read_native temp (b / nb) 1) 0) (fun _ =>
      let p_cnt := head_count nb block count in
      let byte_size := u32 (p_cnt * USER_BLOCK_SIZE) in
      _ ← io_on_mem (CString.memcpy buf (temp + head_offset nb block) byte_size);
      mret (inr (MkNp p_cnt (buf + byte_size) (u32 (b + nb)))))
  else mret (inr (MkNp 0 buf block)).

(** The sectors of the next request. *)
Definition per_time (dev : bdev_t) (left : Z) : Z :=
  let n := u32 (left / native_block_size dev * native_block_size dev) in
  if max_blkcnt dev <=? n then max_blkcnt dev else n.

Fixpoint new_read_loop (fuel : nat) (dev : bdev_t) (count : Z) (p : nprogress) : IO (Z + nprogress) :=
  match fuel with
  | O => fault
  | S fuel =>
      let nb := native_block_size dev in
      let left := u32 (count - np_done p) in
      if nb <=? left then
        if u32 (left / nb * nb) =? 0 then mret (inl (np_done p))
        else
          let n := per_time dev left in
          io_try (or_end (new_read_native (np_buf p) (np_block p / nb) (n / nb)) (np_done p)) (fun _ =>
            new_read_loop fuel dev count (MkNp (u32 (np_done p + n)) (np_buf p + u32 (n * USER_BLOCK_SIZE)) (u32 (np_block p + n))))
      else mret (inr p)
  end.

Definition new_read_last (dev : bdev_t) (temp count : Z) (p : nprogress) : IO (Z + Z) :=
  let nb := native_block_size dev in
  let left := u32 (count - np_done p) in
  if negb (left mod nb =? 0) then
    io_try (or_end (new_read_native temp (np_block p / nb) 1) (np_done p)) (fun _ =>
      _ ← io_on_mem (CString.memcpy (np_buf p) temp (u32 (left * USER_BLOCK_SIZE)));
      mret (inr (u32 (np_done p + left))))
  else mret (inr (np_done p)).

Definition bio_new_read (dev : bdev_t) (temp buf block count : Z) : IO Z :=
  if misaligned dev BIO_FLAG_CACHE_ALIGNED_READS buf then mret 0
  else io_result (io_try (new_read_first dev temp buf block count) (fun p =>
    io_try (new_read_loop (S (Z.to_nat count)) dev count p) (new_read_last dev temp count))).

Definition new_write_first (dev : bdev_t) (temp buf block count : Z) : IO (Z + nprogress) :=
  let nb := native_block_size dev in
  if negb (block mod nb =? 0) then
    let b := block_start nb block in
    io_try (or_end (new_read_native temp (b / nb) 1) 0) (fun _ =>
      let p_cnt := head_count nb block count in
      let byte_size := u32 (p_cnt * USER_BLOCK_SIZE) in
      _ ← io_on_mem (CString.memcpy (temp + head_offset nb block) buf byte_size);
      io_try (or_end (new_write_native temp (b / nb) 1) 0) (fun _ =>
        mret (inr (MkNp p_cnt (buf + byte_size) (u32 (b + nb))))))
  else mret (inr (MkNp 0 buf block)).

Fixpoint new_write_loop (fuel : nat) (dev : bdev_t) (count : Z) (p : nprogress) : IO (Z + nprogress) :=
  match fuel with
  | O => fault
  | S fuel =>
      let nb := native_block_size dev in
      let left := u32 (count - np_done p) in
      if nb <=? left then
        if u32 (left / nb * nb) =? 0 then mret (inl (np_done p))
        else
          let n := per_time dev left in
          io_try (or_end (new_write_native (np_buf p) (np_block p / nb) (n / nb)) (np_done p)) (fun _ =>
            new_write_loop fuel dev count (MkNp (u32 (np_done p + n)) (np_buf p + u32 (n * USER_BLOCK_SIZE)) (u32 (np_block p + n))))
      else mret (inr p)
  end.

Definition new_write_last (dev : bdev_t) (temp count : Z) (p : nprogress) : IO (Z + Z) :=
  let nb := native_block_size dev in
  let left := u32 (count - np_done p) in
  if negb (left mod nb =? 0) then
    io_try (or_end (new_read_native temp (np_block p / nb) 1) (np_done p)) (fun _ =>
      _ ← io_on_mem (CString.memcpy temp (np_buf p) (u32 (left * USER_BLOCK_SIZE)));
      io_try (or_end (new_write_native temp (np_block p / nb) 1) (np_done p)) (fun _ =>
        mret (inr (u32 (np_done p + left)))))
  else mret (inr (np_done p)).

Definition bio_new_write (dev : bdev_t) (temp buf block count : Z) : IO Z :=
  if misaligned dev BIO_FLAG_CACHE_ALIGNED_WRITES buf then mret 0
  else io_result (io_try (new_write_first dev temp buf block count) (fun p =>
    io_try (new_write_loop (S (Z.to_nat count)) dev count p) (new_write_last dev temp count))).

(** ** Erasing sectors *)

Definition erase_unit (dev : bdev_t) : Z :=
  let nb := native_block_size dev in
  if negb (erase_size dev =? 0) && (nb <? erase_size dev) && (erase_size dev mod nb =? 0) then erase_size dev else nb.

Definition erase_first (dev : bdev_t) (temp block count : Z) : IO (Z + (Z * Z)) :=
  let nb := native_block_size dev in
  if negb (block mod nb =? 0) then
    let b := block_start nb block in
    io_try (or_end (new_read_native temp (b / nb) 1) 0) (fun _ =>
      let p_cnt := head_count nb block count in
      _ ← io_on_mem (CString.memset (temp + head_offset nb block) 0 (u32 (p_cnt * USER_BLOCK_SIZE)));
      io_try (or_end (new_write_native temp (b / nb) 1) 0) (fun _ =>
        mret (inr (p_cnt, u32 (b + nb)))))
  else mret (inr (0, block)).

(** Blocks of zeros, one at a time, up to a multiple of [unit] ([None]: to the
    last whole block); the status of the writes is not looked at. *)
Fixpoint erase_blocks (fuel : nat) (dev : bdev_t) (temp : Z) (unit : option Z) (count erased block : Z) : IO (Z * Z) :=
  match fuel with
  | O => fault
  | S fuel =>
      let nb := native_block_size dev in
      let go := match unit with Some u => negb (block mod u =? 0) | None => true end in
      if go && (u32 (erased + nb) <=? count) then
        _ ← new_write_native temp (block / nb) 1;
        erase_blocks fuel dev temp unit count (u32 (erased + nb)) (u32 (block + nb))
      else mret (erased, block)
  end.

Definition erase_last (dev : bdev_t) (temp count erased block : Z) : IO (Z + Z) :=
  let nb := native_block_size dev in
  let left := u32 (count - erased) in
  if negb (left mod nb =? 0) then
    io_try (or_end (new_read_native temp (block / nb) 1) erased) (fun _ =>
      _ ← io_on_mem (CString.memset temp 0 (u32 (left * USER_BLOCK_SIZE)));
      io_try (or_end (new_write_native temp (block / nb) 1) erased) (fun _ =>
        mret (inr (u32 (erased + left)))))
  else mret (inr erased).

Definition bio_new_erase (dev : bdev_t) (temp block count : Z) : IO Z :=
  let nb := native_block_size dev in
  io_result (io_try (erase_first dev temp block count) (fun '(erased, b) =>
    _ ← io_on_mem (CString.memset temp 0 (block_size dev));
    '(erased, b) ← erase_blocks (S (Z.to_nat count)) dev temp (Some (erase_unit dev)) count erased b;
    let n := u32 (u32 (count - erased) / erase_unit dev * erase_unit dev) in
    io_try (if negb (n =? 0)
            then io_try (or_end (new_erase_native (b / nb) (n / nb)) erased) (fun _ => mret (inr (u32 (erased + n), u32 (b + n))))
            else mret (inr (erased, b))) (fun '(erased, b) =>
      if u32 (block + count) =? b then mret (inl erased)
      else
        _ ← io_on_mem (CString.memset temp 0 (block_size dev));
        '(erased, b) ← erase_blocks (S (Z.to_nat count)) dev temp None count erased b;
        erase_last dev temp count erased b))).

(** ** Bytes *)

Definition byte_read_first (dev : bdev_t) (temp buf block count size : Z) : IO (Z + bprogress) :=
  let nb := native_block_size dev in
  if negb (block mod nb =? 0) || (count <? nb) then
    let b := block_start nb block in
    io_try (or_end (new_read_native temp (b / nb) 1) 0) (fun _ =>
      let p_cnt := head_count nb block count in
      let byte_size := Z.min size (u32 (p_cnt * USER_BLOCK_SIZE)) in
      _ ← io_on_mem (CString.memcpy buf (temp + head_offset nb block) byte_size);
      mret (inr (MkBp (u32 (count - p_cnt)) (buf + byte_size) (u32 (block + p_cnt)) (u32 (size - byte_size)))))
  else mret (inr (MkBp count buf block size)).

Definition byte_per_time (dev : bdev_t) (left : Z) : Z :=
  let nb := native_block_size dev in
  u32 ((if max_blkcnt dev <? left then max_blkcnt dev else left) / nb * nb).

Fixpoint byte_read_loop (fuel : nat) (dev : bdev_t) (count : Z) (p : bprogress) : IO (Z + bprogress) :=
  match fuel with
  | O => fault
  | S fuel =>
      let nb := native_block_size dev in
      if nb <=? bp_left p then
        let n := byte_per_time dev (bp_left p) in
        io_try (or_end (new_read_native (bp_buf p) (bp_block p / nb) (n / nb)) (u32 (count - bp_left p))) (fun _ =>
          byte_read_loop fuel dev count (MkBp (u32 (bp_left p - n)) (bp_buf p + u32 (n * USER_BLOCK_SIZE)) (u32 (bp_block p + n))
            (u32 (bp_size p - n * USER_BLOCK_SIZE))))
      else mret (inr p)
  end.

Definition byte_read_last (dev : bdev_t) (temp count : Z) (p : bprogress) : IO (Z + Z) :=
  let nb := native_block_size dev in
  if negb (bp_left p =? 0) then
    io_try (or_end (new_read_native temp (bp_block p / nb) 1) (u32 (count - bp_left p))) (fun _ =>
      _ ← io_on_mem (CString.memcpy (bp_buf p) temp (bp_size p));
      mret (inr (u32 (count - u32 (bp_left p - 1)))))
  else mret (inr (u32 (count - bp_left p))).

Definition bio_new_byte_read (dev : bdev_t) (temp buf block size : Z) : IO Z :=
  let count := BYTE_TO_BLOCK size in
  if misaligned dev BIO_FLAG_CACHE_ALIGNED_READS buf then mret 0
  else io_result (io_try (byte_read_first dev temp buf block count size) (fun p =>
    io_try (byte_read_loop (S (Z.to_nat count)) dev count p) (byte_read_last dev temp count))).

Definition byte_write_first (dev : bdev_t) (temp buf block count size : Z) : IO (Z + bprogress) :=
  let nb := native_block_size dev in
  if negb (block mod nb =? 0) then
    let b := block_start nb block in
    io_try (or_end (new_read_native temp (b / nb) 1) 0) (fun _ =>
      let p_cnt := head_count nb block count in
      let byte_size := Z.min size (u32 (p_cnt * USER_BLOCK_SIZE)) in
      _ ← io_on_mem (CString.memcpy (temp + head_offset nb block) buf byte_size);
      io_try (or_end (new_write_native temp (b / nb) 1) 0) (fun _ =>
        mret (inr (MkBp (u32 (count - p_cnt)) (buf + byte_size) (u32 (block + p_cnt)) (u32 (size - byte_size))))))
  else mret (inr (MkBp count buf block size)).

Fixpoint byte_write_loop (fuel : nat) (dev : bdev_t) (count : Z) (p : bprogress) : IO (Z + bprogress) :=
  match fuel with
  | O => fault
  | S fuel =>
      let nb := native_block_size dev in
      if nb <=? bp_left p then
        let n := byte_per_time dev (bp_left p) in
        io_try (or_end (new_write_native (bp_buf p) (bp_block p / nb) (n / nb)) (u32 (count - bp_left p))) (fun _ =>
          byte_write_loop fuel dev count (MkBp (u32 (bp_left p - n)) (bp_buf p + u32 (n * USER_BLOCK_SIZE)) (u32 (bp_block p + n))
            (u32 (bp_size p - n * USER_BLOCK_SIZE))))
      else mret (inr p)
  end.

Definition byte_write_last (dev : bdev_t) (temp count : Z) (p : bprogress) : IO (Z + Z) :=
  let nb := native_block_size dev in
  if negb (bp_left p =? 0) then
    io_try (or_end (new_read_native temp (bp_block p / nb) 1) (u32 (count - bp_left p))) (fun _ =>
      _ ← io_on_mem (CString.memcpy temp (bp_buf p) (bp_size p));
      io_try (or_end (new_write_native temp (bp_block p / nb) 1) (u32 (count - bp_left p))) (fun _ =>
        mret (inr (u32 (count - u32 (bp_left p - 1))))))
  else mret (inr (u32 (count - bp_left p))).

Definition bio_new_byte_write (dev : bdev_t) (temp buf block size : Z) : IO Z :=
  let count := BYTE_TO_BLOCK size in
  if misaligned dev BIO_FLAG_CACHE_ALIGNED_WRITES buf then mret 0
  else io_result (io_try (byte_write_first dev temp buf block count size) (fun p =>
    io_try (byte_write_loop (S (Z.to_nat count)) dev count p) (byte_write_last dev temp count))).

(** Here [erase_size] is taken as a number of bytes. *)
Definition byte_erase_unit (dev : bdev_t) : Z :=
  let nb := native_block_size dev in
  if negb (erase_size dev =? 0) && (nb <? erase_size dev) && (erase_size dev mod nb =? 0) then erase_size dev / USER_BLOCK_SIZE else nb.

(** Sectors and bytes left, and the next sector. *)
Definition byte_erase_first (dev : bdev_t) (temp block count size : Z) : IO (Z + (Z * Z * Z)) :=
  let nb := native_block_size dev in
  if negb (block mod nb =? 0) then
    let b := block_start nb block in
    io_try (or_end (new_read_native temp (b / nb) 1) 0) (fun _ =>
      let p_cnt := head_count nb block count in
      let byte_size := Z.min size (u32 (p_cnt * USER_BLOCK_SIZE)) in
      _ ← io_on_mem (CString.memset (temp + head_offset nb block) 0 byte_size);
      io_try (or_end (new_write_native temp (b / nb) 1) 0) (fun _ =>
        mret (inr (u32 (count - p_cnt), u32 (size - byte_size), u32 (b + nb)))))
  else mret (inr (count, size, block)).

Fixpoint byte_erase_blocks (fuel : nat) (dev : bdev_t) (temp : Z) (unit : option Z) (rest size block : Z) : IO (Z * Z * Z) :=
  match fuel with
  | O => fault
  | S fuel =>
      let nb := native_block_size dev in
      let go := match unit with Some u => negb (block mod u =? 0) | None => true end in
      if go && (nb <=? rest) then
        _ ← new_write_native temp (block / nb) 1;
        byte_erase_blocks fuel dev temp unit (u32 (rest - nb)) (u32 (size - nb * USER_BLOCK_SIZE)) (u32 (block + nb))
      else mret (rest, size, block)
  end.

Definition byte_erase_last (dev : bdev_t) (temp count rest size block : Z) : IO (Z + Z) :=
  let nb := native_block_size dev in
  if negb (rest =? 0) then
    io_try (or_end (new_read_native temp (block / nb) 1) (u32 (count - rest))) (fun _ =>
      _ ← io_on_mem (CString.memset temp 0 size);
      io_try (or_end (new_write_native temp (block / nb) 1) (u32 (count - rest))) (fun _ =>
        mret (inr (u32 (count - u32 (rest - 1))))))
  else mret (inr (u32 (count - rest))).

Definition bio_new_byte_erase (dev : bdev_t) (temp block size : Z) : IO Z :=
  let nb := native_block_size dev in
  let count := BYTE_TO_BLOCK size in
  let unit := byte_erase_unit dev in
  io_result (io_try (byte_erase_first dev temp block count size) (fun '(rest, esize, b) =>
    _ ← io_on_mem (CString.memset temp 0 (block_size dev));
    '(rest, esize, b) ← byte_erase_blocks (S (Z.to_nat count)) dev temp (Some unit) rest esize b;
    let n := u32 (rest / unit * unit) in
    io_try (if negb (n =? 0)
            then io_try (or_end (new_erase_native (b / nb) (n / nb)) (u32 (count - rest))) (fun _ =>
              mret (inr (u32 (rest - n), u32 (esize - n * USER_BLOCK_SIZE), u32 (b + n))))
            else mret (inr (rest, esize, b))) (fun '(rest, esize, b) =>
      if u32 (block + count) =? b then mret (inl (u32 (count - rest)))
      else
        _ ← io_on_mem (CString.memset temp 0 (block_size dev));
        '(rest, esize, b) ← byte_erase_blocks (S (Z.to_nat count)) dev temp None rest esize b;
        byte_erase_last dev temp count rest esize b))).
End native.

End Native.
