(* ===== verification/NativeProps.v ===== *)
(** Transfers of sectors over the native hooks move exactly the sectors asked for. *)
From S2P Require Import Prelude Mem CString CStringProps BlockDev Bio BlockProps Native.
Local Open Scope Z_scope.

Module NativeProps.
Import Mem CStringProps BlockDev Bio BlockProps Native.

Abbreviation nb dev := (native_block_size dev).

(** A device whose blocks are whole numbers of sectors, with sector numbers in
    32 bits, and requests of whole blocks that stay below 4 gigabytes. *)
Record native_dev (dev : bdev_t) : Prop := {
  n_good : good_dev dev;
  n_size : block_size dev = nb dev * USER_BLOCK_SIZE;
  n_sectors : (block_count dev + 1) * nb dev < 2 ^ 32;
  n_max : 0 < max_blkcnt dev /\ max_blkcnt dev mod nb dev = 0 /\ max_blkcnt dev * USER_BLOCK_SIZE < 2 ^ 32;
}.

Lemma nb_pos dev : native_dev dev -> 0 < nb dev < 2 ^ 22.
Proof. intros []. pose proof (block_size_pos _ n_good0). unfold USER_BLOCK_SIZE in *. lia. Qed.

Lemma sectors_small dev : native_dev dev -> block_count dev * nb dev + nb dev < 2 ^ 32.
Proof. intros []. lia. Qed.

Section native.
Context {K : Type} `{DriverOps K}.
Implicit Types s : iostate K.
Context (dev : bdev_t) `{!DriverLaws dev} (Hnat : native_dev dev).
Abbreviation bs := (block_size dev).
Abbreviation n1 := (native_block_size dev).
Abbreviation SECT := USER_BLOCK_SIZE.

(** ** Requests of whole blocks *)

Lemma hook_read_wp buf block count r s : dev_ok (io_dev s) -> 0 <= block -> 0 < count -> block + count <= block_count dev ->
  room (io_mem s) buf (count * bs) ->
  reads_blocks dev (fun e => e = r) (fun _ => True) (or_end (new_read_native buf block count) r) buf block count s.
Proof.
  intros Hok Hb Hc Hs Hr. unfold reads_blocks, or_end. wp_step. eapply wp_mono; [apply (new_read_native_ok (dev := dev)); done|].
  intros st s' (Hok' & Hd & Hh & l & Hl & Hlb & Hm & Hgood). wp_step. split; [done|]. split; [done|].
  destruct (Z.eqb_spec st 0) as [E|E].
  - split; [done|]. split; [tauto|]. exists l. auto.
  - split; [done|]. split; [tauto|]. rewrite Hm, <- Hl. apply put_changed. eapply room_mapped; [exact Hr|lia].
Qed.

Lemma written_changed k block count l : dev_ok k -> 0 <= block -> block + count <= block_count dev -> lenZ l = count * bs ->
  changed (within (block * bs) (count * bs)) (disk k) (put (disk k) (block * bs) l).
Proof.
  intros Hok Hb Hs Hl. destruct Hnat as [Hg _ _ _]. pose proof (block_size_pos _ Hg). rewrite <- Hl. apply put_changed.
  apply (disk_mapped dev Hg); [done|nia|]. rewrite (g_total _ Hg), Hl. nia.
Qed.

Lemma hook_write_wp buf block count l r s : dev_ok (io_dev s) -> 0 <= block -> 0 < count -> block + count <= block_count dev ->
  bytes_at (io_mem s) buf l -> Forall byte l -> lenZ l = count * bs ->
  writes_blocks dev (fun e => e = r) (fun _ => True) (or_end (new_write_native buf block count) r) block count l s.
Proof.
  intros Hok Hb Hc Hs Hl Hlb Hlen. unfold writes_blocks, or_end. wp_step.
  eapply wp_mono; [apply (new_write_native_ok (dev := dev) s buf block count l); done|].
  intros st s' (Hok' & Hm & Hh & l' & Hl' & Hlb' & Hd & Hgood). wp_step. split; [done|]. split; [done|].
  destruct (Z.eqb_spec st 0) as [E|E].
  - split; [done|]. split; [tauto|]. by rewrite Hd, Hgood.
  - split; [done|]. split; [tauto|]. rewrite Hd. by apply written_changed.
Qed.

(** ** Sector arithmetic *)

Lemma start_of block : 0 <= block < 2 ^ 32 ->
  block_start n1 block = block / n1 * n1 /\ block_start n1 block / n1 = block / n1 /\ 0 <= block - block / n1 * n1 < n1.
Proof.
  intros Hb. pose proof (nb_pos _ Hnat). pose proof (Z.div_mod block n1 ltac:(lia)). pose proof (Z.mod_pos_bound block n1 ltac:(lia)). pose proof (Z.div_pos block n1 ltac:(lia) ltac:(lia)).
  assert (block_start n1 block = block / n1 * n1) as -> by (unfold block_start; apply uw_small; nia).
  split; [done|]. split; [apply Z.div_mul; lia|lia].
Qed.

Lemma aligned_div b : 0 <= b -> b mod n1 = 0 -> b / n1 * bs = b * SECT /\ b / n1 * n1 = b.
Proof. intros Hb Hm. pose proof (nb_pos _ Hnat). pose proof (Z.div_mod b n1 ltac:(lia)). rewrite (n_size _ Hnat). nia. Qed.

Lemma per_time_ok left : n1 <= left < 2 ^ 32 -> exists c, per_time dev left = c * n1 /\ 0 < c /\ c * n1 <= left /\ c * n1 * SECT < 2 ^ 32 /\
  u32 (left / n1 * n1) ≠ 0.
Proof.
  intros Hl. pose proof (nb_pos _ Hnat) as Hn. destruct (n_max _ Hnat) as (Hm & Hmod & Hms).
  pose proof (Z.div_mod left n1 ltac:(lia)). pose proof (Z.mod_pos_bound left n1 ltac:(lia)).
  assert (1 <= left / n1) by (apply Z.div_le_lower_bound; lia). unfold per_time. rewrite uw_small by nia.
  destruct (Z.leb_spec (max_blkcnt dev) (left / n1 * n1)).
  - exists (max_blkcnt dev / n1). pose proof (Z.div_mod (max_blkcnt dev) n1 ltac:(lia)).
    replace (max_blkcnt dev / n1 * n1) with (max_blkcnt dev) by nia. assert (0 < max_blkcnt dev / n1) by nia. split_and!; (lia || nia).
  - exists (left / n1). split_and!; (done || nia).
Qed.

(** ** Reading *)

Section read.
Context (temp buf block count : Z) (s0 : iostate K).
Hypothesis Hreq : 0 <= block /\ 0 < count /\ block + count <= block_count dev * n1.
Hypothesis Hok : dev_ok (io_dev s0).
Hypothesis Hbuf : buffers dev temp buf (count * SECT) s0.
Abbreviation got := (got dev temp).
Abbreviation lost := (lost dev temp).

(** [r] sectors were read before the device failed. *)
Definition read_stopped (r : Z) s' : Prop := 0 <= r < count /\
  exists s1, got (block * SECT) (r * SECT) buf s0 s1 /\ lost ((count - r) * SECT) (buf + r * SECT) s1 s'.

Record nreading (p : nprogress) s : Prop := {
  nr_done : 0 <= np_done p <= count;
  nr_buf : np_buf p = buf + np_done p * SECT;
  nr_block : np_done p = count \/ (np_block p = block + np_done p /\ np_block p mod n1 = 0);
  nr_got : got (block * SECT) (np_done p * SECT) buf s0 s;
}.

Lemma nreading_buffers p s n : nreading p s -> 0 <= n <= count - np_done p -> buffers dev temp (np_buf p) (n * SECT) s.
Proof.
  intros [] Hn. rewrite nr_buf0. apply (buffers_sub dev temp _ (count * SECT - np_done p * SECT)); [|unfold SECT; lia].
  eapply buffers_later; [unfold SECT; lia|unfold SECT; lia|exact Hbuf|exact nr_got0].
Qed.

Lemma nreading_stop p s n s' : nreading p s -> 0 < n <= count - np_done p -> lost (n * SECT) (np_buf p) s s' -> read_stopped (np_done p) s'.
Proof.
  intros [] Hn Hl. split; [lia|]. exists s. split; [done|]. rewrite <- nr_buf0. eapply lost_weaken; [exact Hl|]. unfold SECT. lia.
Qed.

Lemma nreading_step p s n b s' : nreading p s -> 0 < n <= count - np_done p -> got ((block + np_done p) * SECT) (n * SECT) (np_buf p) s s' ->
  (np_done p + n = count \/ (b = block + np_done p + n /\ b mod n1 = 0)) ->
  nreading (MkNp (u32 (np_done p + n)) (np_buf p + n * SECT) b) s'.
Proof.
  intros [] Hn Hg Hb. pose proof (sectors_small _ Hnat). pose proof (nb_pos _ Hnat). split; cbn [np_done np_buf np_block].
  - rewrite uw_small; lia.
  - rewrite uw_small by lia. lia.
  - rewrite uw_small by lia. lia.
  - rewrite uw_small by lia. rewrite Z.mul_add_distr_r. rewrite Z.mul_add_distr_r in Hg. rewrite nr_buf0 in Hg.
    destruct Hbuf. eapply got_trans; try done; unfold SECT in *; lia.
Qed.

Lemma new_read_first_wp : wp (new_read_first dev temp buf block count) s0
  (fun r s' => match r with inl e => read_stopped e s' | inr p => nreading p s' end).
Proof.
  pose proof (nb_pos _ Hnat) as Hn. pose proof (sectors_small _ Hnat) as Hsec. pose proof (n_size _ Hnat) as Hsz.
  unfold new_read_first. destruct (start_of block ltac:(lia)) as (Eb & Ed & Ho). rewrite Ed.
  assert (nreading (MkNp 0 buf block) s0 \/ block mod n1 ≠ 0) as Hstart.
  { destruct (decide (block mod n1 = 0)); [left|by right]. split; cbn [np_done np_buf np_block]; try lia. by apply got_refl. }
  case_if; [|wp_step; tauto]. clear E.
  set (o := block - block / n1 * n1) in *.
  assert (head_offset n1 block = o * SECT) as ->.
  { unfold head_offset. rewrite Eb. fold o. rewrite (uw_small 32 o) by lia. apply uw_small. unfold SECT. lia. }
  assert (head_count n1 block count = Z.min count (n1 - o)) as ->.
  { unfold head_count. rewrite Eb. replace (block / n1 * n1 + n1 - block) with (n1 - o) by lia. by rewrite uw_small by lia. }
  rewrite Eb. set (n := Z.min count (n1 - o)). assert (0 < n <= n1 - o /\ (n = count \/ n = n1 - o) /\ n <= count) as Hn2 by lia. clearbody n.
  rewrite (uw_small 32 (n * SECT)) by (unfold SECT; lia).
  assert (block / n1 + 1 <= block_count dev /\ 0 <= block / n1) as [Hb1 Hb2] by nia.
  eapply (read_part_wp dev Hnat.(n_good _)); [apply hook_read_wp; [done|lia|lia|done|rewrite Z.mul_1_l; apply Hbuf]|unfold SECT; lia|unfold SECT; lia| | | |].
  - rewrite Hsz. unfold SECT. nia.
  - eapply buffers_sub; [exact Hbuf|unfold SECT; lia].
  - intros e s' -> Hl. split; [lia|]. exists s0. split; [by apply got_refl|]. rewrite Z.add_0_r. eapply lost_weaken; [exact Hl|unfold SECT; lia].
  - intros s' Hg. wp_step. assert (got (block * SECT) (n * SECT) buf s0 s') as Hg2.
    { replace (block * SECT) with (block / n1 * bs + o * SECT); [done|]. rewrite Hsz. unfold o, SECT. ring. }
    split; cbn [np_done np_buf np_block]; [lia|lia| |done].
    destruct (decide (n = count)); [by left|right]. assert (u32 (block / n1 * n1 + n1) = block / n1 * n1 + n1) as ->.
    { apply uw_small. nia. }
    split; [lia|]. replace (block / n1 * n1 + n1) with ((block / n1 + 1) * n1) by lia. apply Z.mod_mul. lia.
Qed.

Lemma new_read_loop_wp fuel : forall p s, nreading p s -> count - np_done p < Z.of_nat fuel ->
  wp (new_read_loop fuel dev count p) s
    (fun r s' => match r with inl e => read_stopped e s' | inr p' => nreading p' s' /\ count - np_done p' < n1 end).
Proof.
  pose proof (nb_pos _ Hnat) as Hn. pose proof (sectors_small _ Hnat) as Hsec. pose proof (n_size _ Hnat) as Hsz.
  induction fuel as [|fuel IH]; intros p s Hp Hf; [destruct Hp; lia|]. cbn [new_read_loop]. pose proof Hp as [Hd Hb Hbl Hg].
  rewrite (uw_small 32 (count - np_done p)) by lia. destruct (Z.leb_spec n1 (count - np_done p)) as [Hle|Hgt]; [|wp_step; done].
  destruct (per_time_ok (count - np_done p)) as (c & Ec & Hc & Hcl & Hcs & Hnz); [lia|]. rewrite (proj2 (Z.eqb_neq _ _)) by done. rewrite Ec.
  rewrite Z.div_mul by lia. rewrite (uw_small 32 (c * n1 * SECT)) by (unfold SECT in *; lia).
  destruct Hbl as [Hbl|[Hbl Hal]]; [lia|]. destruct (aligned_div (np_block p)) as [Ea1 Ea2]; [lia|done|].
  assert (np_block p / n1 + c <= block_count dev) as Hblk by nia. assert (0 <= np_block p / n1) by (apply Z.div_pos; lia).
  pose proof (nreading_buffers _ _ (c * n1) Hp ltac:(lia)) as Hbf. assert (c * n1 * SECT = c * bs) as Ecb by (rewrite Hsz; ring).
  apply wp_try. eapply wp_mono; [apply (hook_read_wp (np_buf p) (np_block p / n1) c (np_done p)); try done; [apply Hg|rewrite <- Ecb; apply Hbf]|].
  intros [e|[]] s' (Hok' & Hdk & Hx).
  - destruct Hx as (-> & Hh & Hch). eapply nreading_stop; [done| |]; [split; [|exact Hcl]; nia|]. split; try done.
    rewrite Ecb. eapply changed_weaken; [exact Hch|]. unfold touched. tauto.
  - destruct Hx as (_ & Hh & l & Hl & Hlb & Hdl & Hm). apply IH.
    + rewrite (uw_small 32 (np_block p + c * n1)) by nia. apply nreading_step with (s := s); [done|nia| |].
      * rewrite <- Hbl, <- Ea1, Ecb. split; try done.
        -- rewrite Hm, <- Hl. eapply changed_weaken; [apply put_changed|unfold touched; tauto]. eapply room_mapped; [apply Hbf|lia].
        -- exists l. do 2 (split; [done|]). split; [done|]. rewrite Hm. apply put_bytes_at.
      * right. rewrite Hbl. split; [done|]. rewrite <- Hbl. rewrite Z.add_mod, Hal, Z.mod_mul by lia. rewrite Z.mod_0_l; lia.
    + cbn [np_done]. rewrite uw_small by nia. nia.
Qed.

Lemma new_read_last_wp p s : nreading p s -> count - np_done p < n1 ->
  wp (new_read_last dev temp count p) s
    (fun r s' => match r with inl e => read_stopped e s' | inr n => n = count /\ got (block * SECT) (count * SECT) buf s0 s' end).
Proof.
  pose proof (nb_pos _ Hnat) as Hn. pose proof (sectors_small _ Hnat) as Hsec. pose proof (n_size _ Hnat) as Hsz.
  intros Hp Hlt. pose proof Hp as [Hd Hb Hbl Hg]. unfold new_read_last. set (left := count - np_done p) in *.
  rewrite (uw_small 32 left) by lia. rewrite (Z.mod_small left) by lia. destruct (Z.eqb_spec left 0) as [E|E]; cbn [negb].
  - wp_step. assert (np_done p = count) as Ed by lia. rewrite Ed in *. done.
  - destruct Hbl as [Hbl|[Hbl Hal]]; [lia|]. destruct (aligned_div (np_block p)) as [Ea1 Ea2]; [lia|done|].
    assert (np_block p / n1 + 1 <= block_count dev) as Hblk by nia. assert (0 <= np_block p / n1) by (apply Z.div_pos; lia).
    rewrite (uw_small 32 (left * SECT)) by (unfold SECT; lia). pose proof (nreading_buffers _ _ left Hp ltac:(lia)) as Hbf.
    eapply (read_front_wp dev Hnat.(n_good _)); [apply hook_read_wp; [apply Hg|lia|lia|done|rewrite Z.mul_1_l; apply Hbf]|rewrite Hsz; unfold SECT; nia|exact Hbf| |].
    + intros e s' -> Hl. eapply nreading_stop; [exact Hp| |exact Hl]. lia.
    + intros s' Hg2. wp_step. assert (u32 (np_done p + left) = count) as -> by (rewrite uw_small; lia). split; [done|].
      replace (count * SECT) with (np_done p * SECT + left * SECT) by (unfold left; lia). destruct Hbuf.
      eapply got_trans; [unfold SECT; lia|unfold SECT; lia|unfold SECT in *; lia|exact Hg|].
      rewrite Ea1, Hbl, Z.mul_add_distr_r, Hb in Hg2. done.
Qed.

Lemma new_read_wp : misaligned dev BIO_FLAG_CACHE_ALIGNED_READS buf = false ->
  wp (bio_new_read dev temp buf block count) s0 (fun r s' => (r = count /\ got (block * SECT) (count * SECT) buf s0 s') \/ read_stopped r s').
Proof.
  intros Hmis. unfold bio_new_read, io_result. rewrite Hmis. wp_step. apply wp_try. eapply wp_mono; [apply new_read_first_wp|].
  intros [e|p] s1 H1; [wp_step; by right|]. apply wp_try. eapply wp_mono; [apply new_read_loop_wp; [exact H1|destruct H1; lia]|].
  intros [e|p2] s2 H2; [wp_step; by right|]. destruct H2 as [H2 Hlt]. eapply wp_mono; [by apply new_read_last_wp|].
  intros [e|n] s3 H3; wp_step; [by right|by left].
Qed.
End read.

(** ** Writing *)

Section write.
Context (temp buf block count : Z) (data : list Z) (s0 : iostate K).
Hypothesis Hreq : 0 <= block /\ 0 < count /\ block + count <= block_count dev * n1.
Hypothesis Hok : dev_ok (io_dev s0).
Hypothesis Hlen : lenZ data = count * SECT.
Hypothesis Hsrc : source dev temp buf data s0.
Abbreviation wrote := (wrote dev temp).
Abbreviation spoilt := (spoilt dev temp).

(** [r] sectors were written before the device failed. *)
Definition write_stopped (r : Z) s' : Prop := 0 <= r < count /\
  exists s1, wrote (block * SECT) (take (Z.to_nat (r * SECT)) data) s0 s1 /\ spoilt ((block + r) * SECT) ((count - r) * SECT) s1 s'.

Record nwriting (p : nprogress) s : Prop := {
  nw_done : 0 <= np_done p <= count;
  nw_buf : np_buf p = buf + np_done p * SECT;
  nw_block : np_done p = count \/ (np_block p = block + np_done p /\ np_block p mod n1 = 0);
  nw_wrote : wrote (block * SECT) (take (Z.to_nat (np_done p * SECT)) data) s0 s;
}.

(** The next [n] sectors to write. *)
Definition sectors (from n : Z) : list Z := take (Z.to_nat (n * SECT)) (drop (Z.to_nat (from * SECT)) data).

Lemma sectors_length from n : 0 <= from -> 0 <= n -> from + n <= count -> lenZ (sectors from n) = n * SECT.
Proof. intros Hf Hn Hs. unfold sectors, SECT in *. rewrite length_take, length_drop. lia. Qed.

Lemma sectors_after d n : 0 <= d -> 0 <= n -> d + n <= count ->
  take (Z.to_nat (d * SECT)) data ++ sectors d n = take (Z.to_nat ((d + n) * SECT)) data.
Proof.
  intros Hd Hn Hs. unfold sectors, SECT in *. rewrite take_take_drop. f_equal. lia.
Qed.

Lemma done_length d : 0 <= d <= count -> lenZ (take (Z.to_nat (d * SECT)) data) = d * SECT.
Proof. intros Hd. unfold SECT in *. rewrite length_take. lia. Qed.

Lemma nwriting_source p s n : nwriting p s -> 0 <= n <= count - np_done p -> source dev temp (np_buf p) (sectors (np_done p) n) s.
Proof.
  intros [] Hn. pose proof (take_drop (Z.to_nat (np_done p * SECT)) data) as E.
  rewrite nw_buf0, <- (done_length (np_done p)) by lia. unfold sectors.
  apply (source_front _ _ _ _ (drop (Z.to_nat (n * SECT)) (drop (Z.to_nat (np_done p * SECT)) data))). rewrite take_drop.
  eapply source_later; [|exact nw_wrote0]. by rewrite E.
Qed.

Lemma nwriting_stop p s n s' : nwriting p s -> 0 < n <= count - np_done p -> spoilt ((block + np_done p) * SECT) (n * SECT) s s' ->
  write_stopped (np_done p) s'.
Proof.
  intros [] Hn Hl. split; [lia|]. exists s. split; [done|]. eapply (spoilt_weaken dev Hnat.(n_good _)); [exact Hl|unfold SECT; lia..].
Qed.

Lemma nwriting_step p s n b s' : nwriting p s -> 0 < n <= count - np_done p -> wrote ((block + np_done p) * SECT) (sectors (np_done p) n) s s' ->
  (np_done p + n = count \/ (b = block + np_done p + n /\ b mod n1 = 0)) ->
  nwriting (MkNp (u32 (np_done p + n)) (np_buf p + n * SECT) b) s'.
Proof.
  intros [] Hn Hg Hb. pose proof (sectors_small _ Hnat). pose proof (nb_pos _ Hnat). split; cbn [np_done np_buf np_block].
  - rewrite uw_small; lia.
  - rewrite uw_small by lia. lia.
  - rewrite uw_small by lia. lia.
  - rewrite uw_small by lia. rewrite <- sectors_after by lia. eapply wrote_trans; [exact nw_wrote0|].
    rewrite done_length by lia. rewrite Z.mul_add_distr_r in Hg. done.
Qed.

Lemma new_write_first_wp : wp (new_write_first dev temp buf block count) s0
  (fun r s' => match r with inl e => write_stopped e s' | inr p => nwriting p s' end).
Proof.
  pose proof (nb_pos _ Hnat) as Hn. pose proof (sectors_small _ Hnat) as Hsec. pose proof (n_size _ Hnat) as Hsz.
  unfold new_write_first. destruct (start_of block ltac:(lia)) as (Eb & Ed & Ho). rewrite Ed.
  assert (wrote (block * SECT) (take (Z.to_nat (0 * SECT)) data) s0 s0) as Hw0 by (rewrite Z.mul_0_l; by apply wrote_nil).
  assert (nwriting (MkNp 0 buf block) s0 \/ block mod n1 ≠ 0) as Hstart.
  { destruct (decide (block mod n1 = 0)); [left|by right]. by split; cbn [np_done np_buf np_block]; try lia. }
  destruct (Z.eqb_spec (block mod n1) 0) as [E|E]; cbn [negb]; [wp_step; tauto|].
  set (o := block - block / n1 * n1) in *.
  assert (head_offset n1 block = o * SECT) as ->.
  { unfold head_offset. rewrite Eb. fold o. rewrite (uw_small 32 o) by lia. apply uw_small. unfold SECT. lia. }
  assert (head_count n1 block count = Z.min count (n1 - o)) as ->.
  { unfold head_count. rewrite Eb. replace (block / n1 * n1 + n1 - block) with (n1 - o) by lia. by rewrite uw_small by lia. }
  rewrite Eb. set (n := Z.min count (n1 - o)). assert (0 < n <= n1 - o /\ (n = count \/ n = n1 - o) /\ n <= count) as Hn2 by lia. clearbody n.
  rewrite (uw_small 32 (n * SECT)) by (unfold SECT; lia).
  assert (block / n1 + 1 <= block_count dev /\ 0 <= block / n1) as [Hb1 Hb2] by nia.
  assert (lenZ (sectors 0 n) = n * SECT) as El by (apply sectors_length; lia). rewrite <- El.
  assert (block / n1 * bs + o * SECT = block * SECT) as Epos by (rewrite Hsz; unfold o, SECT; ring).
  eapply (write_part_wp dev Hnat.(n_good _)); [apply hook_read_wp; [done|lia|lia|done|rewrite Z.mul_1_l; apply Hsrc]| | | | | | |].
  - intros s' l' Hok' Hl' Hlb' Hll'. apply (hook_write_wp temp); try done; lia.
  - unfold SECT. lia.
  - rewrite El. unfold SECT. lia.
  - rewrite El, Hsz. unfold SECT. nia.
  - unfold sectors. rewrite Z.mul_0_l. apply (source_front _ _ _ _ (drop (Z.to_nat (n * SECT)) data)). by rewrite drop_0, take_drop.
  - intros e s' -> Hl. rewrite Epos, El in Hl. split; [lia|]. exists s0. split; [done|]. eapply (spoilt_weaken dev Hnat.(n_good _)); [exact Hl|unfold SECT; lia..].
  - intros s' Hg. rewrite Epos in Hg. wp_step. rewrite El.
    assert (nwriting (MkNp (u32 (0 + n)) (buf + n * SECT) (u32 (block / n1 * n1 + n1))) s') as Hx.
    2:{ rewrite Z.add_0_l, uw_small in Hx by lia. exact Hx. }
    split; cbn [np_done np_buf np_block].
    + rewrite uw_small; lia.
    + rewrite uw_small; lia.
    + rewrite (uw_small 32 (0 + n)) by lia. destruct (decide (n = count)); [left; lia|right].
      assert (u32 (block / n1 * n1 + n1) = block / n1 * n1 + n1) as -> by (apply uw_small; nia).
      split; [lia|]. replace (block / n1 * n1 + n1) with ((block / n1 + 1) * n1) by lia. apply Z.mod_mul. lia.
    + rewrite uw_small by lia. rewrite <- sectors_after by lia. rewrite Z.mul_0_l. exact Hg.
Qed.

Lemma new_write_loop_wp fuel : forall p s, nwriting p s -> count - np_done p < Z.of_nat fuel ->
  wp (new_write_loop fuel dev count p) s
    (fun r s' => match r with inl e => write_stopped e s' | inr p' => nwriting p' s' /\ count - np_done p' < n1 end).
Proof.
  pose proof (nb_pos _ Hnat) as Hn. pose proof (sectors_small _ Hnat) as Hsec. pose proof (n_size _ Hnat) as Hsz.
  induction fuel as [|fuel IH]; intros p s Hp Hf; [destruct Hp; lia|]. cbn [new_write_loop]. pose proof Hp as [Hd Hb Hbl Hg].
  rewrite (uw_small 32 (count - np_done p)) by lia. destruct (Z.leb_spec n1 (count - np_done p)) as [Hle|Hgt]; [|wp_step; done].
  destruct (per_time_ok (count - np_done p)) as (c & Ec & Hc & Hcl & Hcs & Hnz); [lia|]. rewrite (proj2 (Z.eqb_neq _ _)) by done. rewrite Ec.
  rewrite Z.div_mul by lia. rewrite (uw_small 32 (c * n1 * SECT)) by (unfold SECT in *; lia).
  destruct Hbl as [Hbl|[Hbl Hal]]; [lia|]. destruct (aligned_div (np_block p)) as [Ea1 Ea2]; [lia|done|].
  assert (np_block p / n1 + c <= block_count dev) as Hblk by nia. assert (0 <= np_block p / n1) by (apply Z.div_pos; lia).
  pose proof (nwriting_source _ _ (c * n1) Hp ltac:(nia)) as Hs. assert (c * n1 * SECT = c * bs) as Ecb by (rewrite Hsz; ring).
  assert (lenZ (sectors (np_done p) (c * n1)) = c * n1 * SECT) as El by (apply sectors_length; nia).
  apply wp_try. eapply wp_mono; [apply (hook_write_wp (np_buf p) (np_block p / n1) c (sectors (np_done p) (c * n1)) (np_done p));
    [apply Hg|done|done|done|apply Hs|apply Hs|lia]|].
  intros [e|[]] s' (Hok' & Hmm & Hx).
  - destruct Hx as (-> & Hh & Hch). eapply nwriting_stop with (n := c * n1); [done|nia|]. split; [done|done| |rewrite Hmm; apply changed_refl].
    rewrite Ecb. eapply changed_weaken; [exact Hch|]. intros a Ha. rewrite Ea1, Hbl in Ha. apply (covered_within dev Hnat.(n_good _)); [unfold SECT; lia|exact Ha].
  - destruct Hx as (_ & Hh & Hdk). apply IH.
    + rewrite (uw_small 32 (np_block p + c * n1)) by nia. apply nwriting_step with (s := s); [done|nia| |].
      * rewrite <- Hbl. split; [done|by rewrite Hdk, Ea1|done|rewrite Hmm; apply changed_refl].
      * right. rewrite Hbl. split; [done|]. rewrite <- Hbl. rewrite Z.add_mod, Hal, Z.mod_mul by lia. rewrite Z.mod_0_l; lia.
    + cbn [np_done]. rewrite uw_small by nia. nia.
Qed.

Lemma new_write_last_wp p s : nwriting p s -> count - np_done p < n1 ->
  wp (new_write_last dev temp count p) s
    (fun r s' => match r with inl e => write_stopped e s' | inr n => n = count /\ wrote (block * SECT) data s0 s' end).
Proof.
  pose proof (nb_pos _ Hnat) as Hn. pose proof (sectors_small _ Hnat) as Hsec. pose proof (n_size _ Hnat) as Hsz.
  assert (take (Z.to_nat (count * SECT)) data = data) as Eall by (apply take_ge; lia).
  intros Hp Hlt. pose proof Hp as [Hd Hb Hbl Hg]. unfold new_write_last. set (left := count - np_done p) in *.
  rewrite (uw_small 32 left) by lia. rewrite (Z.mod_small left) by lia. destruct (Z.eqb_spec left 0) as [E|E]; cbn [negb].
  - wp_step. assert (np_done p = count) as Ed by lia. rewrite Ed, Eall in *. done.
  - destruct Hbl as [Hbl|[Hbl Hal]]; [lia|]. destruct (aligned_div (np_block p)) as [Ea1 Ea2]; [lia|done|].
    assert (np_block p / n1 + 1 <= block_count dev) as Hblk by nia. assert (0 <= np_block p / n1) by (apply Z.div_pos; lia).
    pose proof (nwriting_source _ _ left Hp ltac:(lia)) as Hs. assert (lenZ (sectors (np_done p) left) = left * SECT) as El by (apply sectors_length; lia).
    rewrite (uw_small 32 (left * SECT)) by (unfold SECT; lia). rewrite <- El.
    eapply (write_front_wp dev Hnat.(n_good _)); [apply hook_read_wp; [apply Hg|lia|lia|done|rewrite Z.mul_1_l; apply Hs]| | |exact Hs| |].
    + intros s' l' Hok' Hl' Hlb' Hll'. apply (hook_write_wp temp); try done; lia.
    + rewrite El, Hsz. unfold SECT. nia.
    + intros e s' -> Hl. rewrite Ea1, Hbl, El in Hl. eapply nwriting_stop; [exact Hp| |exact Hl]. lia.
    + intros s' Hg2. wp_step. assert (u32 (np_done p + left) = count) as -> by (rewrite uw_small; lia). split; [done|].
      rewrite Ea1, Hbl, Z.mul_add_distr_r in Hg2. rewrite <- Eall. replace count with (np_done p + left) by lia. rewrite <- sectors_after by lia.
      eapply wrote_trans; [exact Hg|]. by rewrite done_length by lia.
Qed.

Lemma new_write_wp : misaligned dev BIO_FLAG_CACHE_ALIGNED_WRITES buf = false ->
  wp (bio_new_write dev temp buf block count) s0 (fun r s' => (r = count /\ wrote (block * SECT) data s0 s') \/ write_stopped r s').
Proof.
  intros Hmis. unfold bio_new_write, io_result. rewrite Hmis. wp_step. apply wp_try. eapply wp_mono; [apply new_write_first_wp|].
  intros [e|p] s1 H1; [wp_step; by right|]. apply wp_try. eapply wp_mono; [apply new_write_loop_wp; [exact H1|destruct H1; lia]|].
  intros [e|p2] s2 H2; [wp_step; by right|]. destruct H2 as [H2 Hlt]. eapply wp_mono; [by apply new_write_last_wp|].
  intros [e|n] s3 H3; wp_step; [by right|by left].
Qed.
End write.

(** ** Erasing *)

Section erase.
Context (temp block count : Z) (s0 : iostate K).
Hypothesis Hreq : 0 <= block /\ 0 < count /\ block + count <= block_count dev * n1.
Hypothesis Hok : dev_ok (io_dev s0).
Hypothesis Hhealthy : dev_healthy (io_dev s0).
Hypothesis Htemp : room (io_mem s0) temp bs.
Hypothesis Herase : 0 <= erase_size dev < 2 ^ 32.
Abbreviation wrote := (wrote dev temp).

Definition zeros (n : Z) : list Z := replicate (Z.to_nat n) 0.

Lemma zeros_length n : 0 <= n -> lenZ (zeros n) = n.
Proof. intros. unfold zeros. rewrite length_replicate. lia. Qed.

Lemma zeros_byte n : Forall byte (zeros n).
Proof. apply Forall_replicate. unfold byte. lia. Qed.

Lemma zeros_app n k : 0 <= n -> 0 <= k -> zeros n ++ zeros k = zeros (n + k).
Proof. intros. unfold zeros. rewrite <- replicate_add. f_equal. lia. Qed.

(** [d] sectors are erased and the next one is [b]. *)
Definition erasing (d b : Z) s : Prop :=
  0 <= d <= count /\ (d = count \/ (b = block + d /\ b mod n1 = 0)) /\ wrote (block * SECT) (zeros (d * SECT)) s0 s.

Lemma erasing_step d b n b' s s' : erasing d b s -> 0 < n <= count - d -> wrote ((block + d) * SECT) (zeros (n * SECT)) s s' ->
  (d + n = count \/ (b' = block + d + n /\ b' mod n1 = 0)) -> erasing (d + n) b' s'.
Proof.
  intros (Hd & Hb & Hw) Hn Hw2 Hb2. split; [lia|]. split; [lia|]. replace ((d + n) * SECT) with (d * SECT + n * SECT) by lia.
  rewrite <- zeros_app by (unfold SECT; lia). eapply wrote_trans; [exact Hw|]. rewrite zeros_length by (unfold SECT; lia).
  by rewrite <- Z.mul_add_distr_r.
Qed.

Lemma erasing_temp d b s m' : erasing d b s -> changed (within temp bs) (io_mem s) m' -> erasing d b (MkIo m' (io_dev s)).
Proof. intros (Hd & Hb & []) Hc. split; [done|]. split; [done|]. split; try done. by eapply changed_trans. Qed.

Lemma erasing_room d b s : erasing d b s -> room (io_mem s) temp bs.
Proof. intros (_ & _ & []). by eapply changed_room. Qed.

(** A block of zeros in the local buffer. *)
Definition cleared s : Prop := bytes_at (io_mem s) temp (zeros bs).

Lemma clear_wp d b s : erasing d b s -> wp (io_on_mem (CString.memset temp 0 bs)) s (fun _ s' => erasing d b s' /\ cleared s').
Proof.
  intros He. pose proof (block_size_pos _ Hnat.(n_good _)) as Hbs. apply wp_io_mem. rewrite <- (Z2Nat.id bs) at 1 by lia.
  assert (mapped (io_mem s) temp (Z.to_nat bs)) as Hm by (eapply room_mapped; [by eapply erasing_room|lia]).
  eapply wp_mono; [by apply memset_wp|]. intros r m' [_ ->]. change (u8 0) with 0. split.
  - apply erasing_temp; [done|]. apply put_changed_at; rewrite ?length_replicate; [done|lia|lia].
  - apply put_bytes_at.
Qed.

Lemma erase_first_wp : wp (erase_first dev temp block count) s0
  (fun r s' => match r with inl e => False | inr (d, b) => erasing d b s' end).
Proof.
  pose proof (nb_pos _ Hnat) as Hn. pose proof (sectors_small _ Hnat) as Hsec. pose proof (n_size _ Hnat) as Hsz.
  unfold erase_first. destruct (start_of block ltac:(lia)) as (Eb & Ed & Ho). rewrite Ed.
  assert (wrote (block * SECT) (zeros (0 * SECT)) s0 s0) as Hw0 by (rewrite Z.mul_0_l; by apply wrote_nil).
  destruct (Z.eqb_spec (block mod n1) 0) as [E|E]; cbn [negb].
  { wp_step. split; [lia|]. split; [right; lia|done]. }
  set (o := block - block / n1 * n1) in *.
  assert (head_offset n1 block = o * SECT) as ->.
  { unfold head_offset. rewrite Eb. fold o. rewrite (uw_small 32 o) by lia. apply uw_small. unfold SECT. lia. }
  assert (head_count n1 block count = Z.min count (n1 - o)) as ->.
  { unfold head_count. rewrite Eb. replace (block / n1 * n1 + n1 - block) with (n1 - o) by lia. by rewrite uw_small by lia. }
  rewrite Eb. set (n := Z.min count (n1 - o)). assert (0 < n <= n1 - o /\ (n = count \/ n = n1 - o) /\ n <= count) as Hn2 by lia. clearbody n.
  rewrite (uw_small 32 (n * SECT)) by (unfold SECT; lia).
  assert (block / n1 + 1 <= block_count dev /\ 0 <= block / n1) as [Hb1 Hb2] by nia.
  assert (lenZ (zeros (n * SECT)) = n * SECT) as El by (apply zeros_length; unfold SECT; lia).
  assert (block / n1 * bs + o * SECT = block * SECT) as Epos by (rewrite Hsz; unfold o, SECT; ring).
  eapply (modify_part_wp dev Hnat.(n_good _)) with (l := zeros (n * SECT)) (o := o * SECT) (block := block / n1);
    [apply hook_read_wp; [done|lia|lia|done|by rewrite Z.mul_1_l]|done|apply zeros_byte| | | | | | |].
  - intros [m' k'] Hch. cbn [io_mem io_dev] in *. apply wp_io_mem. cbn [io_mem io_dev].
    rewrite <- (Z2Nat.id (n * SECT)) at 1 by (unfold SECT; lia). eapply wp_mono; [apply memset_wp|].
    + apply (room_mapped _ _ (n * SECT)); [|unfold SECT; lia]. eapply changed_room; [exact Hch|].
      apply (room_part _ temp bs); [done|..]; rewrite ?Hsz; unfold SECT; nia.
    + intros r m'' [_ ->]. done.
  - intros s' l' Hok' Hl' Hlb' Hll'. apply (hook_write_wp temp); try done; lia.
  - unfold SECT. lia.
  - rewrite El. unfold SECT. lia.
  - rewrite El, Hsz. unfold SECT. nia.
  - intros e s' -> Hl. destruct Hl. tauto.
  - intros s' Hg. rewrite Epos in Hg. wp_step. split; [lia|]. split; [|done]. destruct (decide (n = count)); [by left|right].
    assert (u32 (block / n1 * n1 + n1) = block / n1 * n1 + n1) as -> by (apply uw_small; nia).
    split; [lia|]. replace (block / n1 * n1 + n1) with ((block / n1 + 1) * n1) by lia. apply Z.mod_mul. lia.
Qed.

(** The unit of the device's erase is whole blocks. *)
Lemma erase_unit_ok : n1 <= erase_unit dev < 2 ^ 32 /\ erase_unit dev mod n1 = 0.
Proof.
  pose proof (nb_pos _ Hnat). unfold erase_unit. case_if; [|split; [lia|apply Z.mod_same; lia]]. split; lia.
Qed.

Lemma mod_of_multiple b u : 0 < u -> u mod n1 = 0 -> b mod u = 0 -> b mod n1 = 0.
Proof.
  intros Hu Hun Hb. pose proof (nb_pos _ Hnat). apply Z.mod_divide in Hun, Hb; [|lia..]. apply Z.mod_divide; [lia|]. by transitivity u.
Qed.

Lemma erase_blocks_wp unit fuel : forall d b s, erasing d b s -> cleared s -> count - d < Z.of_nat fuel ->
  wp (erase_blocks fuel dev temp unit count d b) s (fun '(d', b') s' => erasing d' b' s' /\
    (count - d' < n1 \/ match unit with Some u => b' mod u = 0 | None => False end)).
Proof.
  pose proof (nb_pos _ Hnat) as Hn. pose proof (sectors_small _ Hnat) as Hsec. pose proof (n_size _ Hnat) as Hsz.
  pose proof (block_size_pos _ Hnat.(n_good _)) as Hbs.
  induction fuel as [|fuel IH]; intros d b s He Hc Hf; [destruct He; lia|]. cbn [erase_blocks]. pose proof He as (Hd & Hb & Hw).
  rewrite (uw_small 32 (d + n1)) by nia. set (go := match unit with Some u => _ | None => _ end).
  destruct (Z.leb_spec (d + n1) count) as [Hle|Hgt].
  2:{ rewrite andb_false_r. wp_step. split; [done|]. left. lia. }
  rewrite andb_true_r. destruct go eqn:Ego.
  2:{ wp_step. split; [done|]. right. unfold go in Ego. destruct unit; [|done]. apply negb_false_iff in Ego. by apply Z.eqb_eq. }
  destruct Hb as [Hb|[Hb Hal]]; [lia|]. destruct (aligned_div b) as [Ea1 Ea2]; [lia|done|].
  assert (b / n1 + 1 <= block_count dev) as Hblk by nia. assert (0 <= b / n1) by (apply Z.div_pos; lia).
  wp_step. eapply wp_mono; [apply (new_write_native_ok (dev := dev) s temp (b / n1) 1 (zeros bs)); try done|].
  - by destruct Hw.
  - apply zeros_byte.
  - rewrite zeros_length; lia.
  - intros st s' (Hok' & Hmm & Hh & l' & Hl' & Hlb' & Hdk & Hgood).
    assert (dev_healthy (io_dev s)) as Hhs by (by apply Hw). destruct (Hh Hhs) as [Hst Hh']. rewrite Hgood in Hdk by done.
    apply IH.
    + rewrite (uw_small 32) by nia. apply (erasing_step d b n1 _ s); [done|lia| |right; split; [lia|]].
      * split; [done| |done|rewrite Hmm; apply changed_refl]. by rewrite <- Hsz, <- Hb, <- Ea1.
      * rewrite Z.add_mod, Hal, Z.mod_same by lia. by rewrite Z.mod_0_l by lia.
    + unfold cleared. by rewrite Hmm.
    + lia.
Qed.

Lemma erase_last_wp d b s : erasing d b s -> count - d < n1 ->
  wp (erase_last dev temp count d b) s (fun r s' => r = inr count /\ wrote (block * SECT) (zeros (count * SECT)) s0 s').
Proof.
  pose proof (nb_pos _ Hnat) as Hn. pose proof (sectors_small _ Hnat) as Hsec. pose proof (n_size _ Hnat) as Hsz.
  intros He Hlt. pose proof He as (Hd & Hb & Hw). unfold erase_last. set (left := count - d) in *.
  rewrite (uw_small 32 left) by lia. rewrite (Z.mod_small left) by lia. destruct (Z.eqb_spec left 0) as [E|E]; cbn [negb].
  - wp_step. assert (d = count) as Ed by lia. by rewrite Ed in *.
  - destruct Hb as [Hb|[Hb Hal]]; [lia|]. destruct (aligned_div b) as [Ea1 Ea2]; [lia|done|].
    assert (b / n1 + 1 <= block_count dev) as Hblk by nia. assert (0 <= b / n1) by (apply Z.div_pos; lia).
    rewrite (uw_small 32 (left * SECT)) by (unfold SECT; lia).
    assert (lenZ (zeros (left * SECT)) = left * SECT) as El by (apply zeros_length; unfold SECT; lia).
    pose proof (erasing_room _ _ _ He) as Hr.
    eapply (modify_part_wp dev Hnat.(n_good _)) with (l := zeros (left * SECT)) (o := 0) (block := b / n1);
      [apply hook_read_wp; [apply Hw|lia|lia|done|by rewrite Z.mul_1_l]|done|apply zeros_byte| | | | | | |].
    + intros [m' k'] Hch. cbn [io_mem io_dev] in *. apply wp_io_mem. cbn [io_mem io_dev]. rewrite Z.add_0_r.
      rewrite <- (Z2Nat.id (left * SECT)) at 1 by (unfold SECT; lia). eapply wp_mono; [apply memset_wp|].
      * apply (room_mapped _ _ (left * SECT)); [|unfold SECT; lia]. eapply changed_room; [exact Hch|].
        apply (room_part _ temp bs); [done|..]; rewrite ?Hsz; unfold SECT; nia.
      * intros r m'' [_ ->]. done.
    + intros s' l' Hok' Hl' Hlb' Hll'. apply (hook_write_wp temp); try done; lia.
    + lia.
    + rewrite El. unfold SECT. lia.
    + rewrite El, Hsz. unfold SECT. nia.
    + intros e s' -> Hl. destruct Hl, Hw. tauto.
    + intros s' Hg. rewrite Z.add_0_r, Ea1, Hb in Hg. wp_step. split; [by rewrite uw_small by lia; f_equal; lia|].
      destruct (erasing_step d b left 0 s s' He ltac:(lia) Hg) as (_ & _ & Hw2); [left; lia|]. by replace (d + left) with count in Hw2 by lia.
Qed.

Lemma new_erase_wp : wp (bio_new_erase dev temp block count) s0 (fun r s' => r = count /\ wrote (block * SECT) (zeros (count * SECT)) s0 s').
Proof.
  pose proof (nb_pos _ Hnat) as Hn. pose proof (sectors_small _ Hnat) as Hsec. pose proof (n_size _ Hnat) as Hsz.
  unfold bio_new_erase, io_result. wp_step. apply wp_try. eapply wp_mono; [apply erase_first_wp|].
  intros [e|[d b]] s1 H1; [done|]. wp_step. eapply wp_mono; [by eapply clear_wp|]. intros _ s2 [H2 C2].
  destruct erase_unit_ok as [Hu Hum]. set (u := erase_unit dev) in *.
  wp_step. eapply wp_mono; [apply (erase_blocks_wp (Some u) _ d b s2 H2 C2); destruct H2; lia|]. intros [d3 b3] s3 [H3 Hend]. clear d b H1 H2.
  apply wp_try. pose proof H3 as (Hd3 & Hb3 & Hw3). rewrite (uw_small 32 (count - d3)) by lia.
  pose proof (Z.div_mod (count - d3) u ltac:(lia)) as Hdm. pose proof (Z.mod_pos_bound (count - d3) u ltac:(lia)).
  assert (0 <= (count - d3) / u) by (apply Z.div_pos; lia). rewrite uw_small by nia. set (q := (count - d3) / u) in *.
  apply wp_mono with (fun r s' => match r with inl e => False | inr (d', b') => erasing d' b' s' end).
  - destruct (Z.eqb_spec (q * u) 0) as [E|E]; cbn [negb]; [by wp_step|]. assert (0 < q * u <= count - d3) as Hq by nia.
    assert (b3 = block + d3 /\ b3 mod n1 = 0) as [Hb Hal] by (destruct Hb3; [lia|done]).
    destruct (aligned_div b3) as [Ea1 Ea2]; [lia|done|]. pose proof (Z.div_mod u n1 ltac:(lia)) as Hun.
    set (c := q * u / n1). assert (q * u = c * n1) as Ec.
    { unfold c. replace (q * u) with (q * (u / n1) * n1) by nia. by rewrite Z.div_mul by lia. }
    assert (b3 / n1 + c <= block_count dev) as Hblk by nia. assert (0 <= b3 / n1) by (apply Z.div_pos; lia).
    apply wp_try. unfold or_end. wp_step. eapply wp_mono; [apply (new_erase_native_ok (dev := dev) s3 (b3 / n1) c); [apply Hw3|done|nia|done]|].
    intros st s4 (Hok' & Hmm & Hh & l' & Hl' & Hlb' & Hdk & Hgood).
    assert (dev_healthy (io_dev s3)) as Hhs by (by apply Hw3). destruct (Hh Hhs) as [Hst Hh']. rewrite Hgood in Hdk by done.
    wp_step. rewrite Hst. cbn [Z.eqb]. wp_step. rewrite !uw_small by nia.
    apply (erasing_step d3 b3 (q * u) _ s3); [done|done| |right; split; [lia|]].
    + split; [done| |done|rewrite Hmm; apply changed_refl]. rewrite Hdk, Ea1, Hb. unfold zeros. assert (c * bs = q * u * SECT) as -> by (rewrite Hsz, Ec; ring). done.
    + rewrite Ec, Z.add_mod, Hal, Z.mod_mul by lia. by rewrite Z.mod_0_l by lia.
  - intros [e|[d b]] s4 H4; [done|]. pose proof H4 as (Hd4 & Hb4 & Hw4).
    rewrite (uw_small 32 (block + count)) by nia. destruct (Z.eqb_spec (block + count) b) as [E|E].
    + wp_step. assert (d = count) as -> by lia. done.
    + wp_step. eapply wp_mono; [by eapply clear_wp|]. intros _ s5 [H5 C5].
      wp_step. eapply wp_mono; [apply (erase_blocks_wp None _ d b s5 H5 C5); lia|]. intros [d6 b6] s6 [H6 [Hlast|[]]].
      eapply wp_mono; [by apply erase_last_wp|]. intros r s7 [-> Hw]. by wp_step.
Qed.
End erase.

(** * Properties *)


(** On a device that serves every request bio_new_erase returns the number of sectors and
    leaves exactly those sectors zero, whatever the unit of the device's erase: a part of
    a block, blocks up to a unit, whole units, the blocks behind them, the last part. *)
Theorem native_erase_zeroes temp block count s : dev_ok (io_dev s) -> dev_healthy (io_dev s) -> 0 <= block -> 0 < count ->
  block + count <= block_count dev * n1 -> room (io_mem s) temp bs -> 0 <= erase_size dev < 2 ^ 32 ->
  exists s', bio_new_erase dev temp block count s = Some (count, s') /\ wrote dev temp (block * SECT) (zeros (count * SECT)) s s'.
Proof.
  intros Hok Hh Hb Hc Hr Ht He.
  destruct (proj1 (wp_run _ _ _) (new_erase_wp temp block count s (conj Hb (conj Hc Hr)) Hok Hh Ht He)) as (r & s' & Hx & -> & Hw). by exists s'.
Qed.
End native.

End NativeProps.
