(* ===== verification/NativeBytes.v ===== *)
(** The byte functions of the native transfers do what the sector functions do,
    and count differently. *)
From S2P Require Import Prelude Mem CString CStringProps BlockDev Bio BlockProps BioProps BioSample Native NativeProps.
Local Open Scope Z_scope.

Module NativeBytes.
Import Mem BlockDev Bio BlockProps Native NativeProps.

(** * Computations that agree *)

Section same.
Context {S : Type}.

(** [m] and [m'] fault together, or reach the same state with related results. *)
Definition same {A B} (R : A -> B -> Prop) (m : M S A) (m' : M S B) : Prop :=
  forall s, match m s, m' s with Some (a, s1), Some (b, s2) => s1 = s2 /\ R a b | None, None => True | _, _ => False end.

Lemma same_ret {A B} (R : A -> B -> Prop) a b : R a b -> same R (mret a) (mret b).
Proof. intros HR s. done. Qed.

Lemma same_refl {A} (m : M S A) : same eq m m.
Proof. intros s. destruct (m s) as [[a s']|]; done. Qed.

Lemma same_bind {A B A' B'} (R : A -> B -> Prop) (R' : A' -> B' -> Prop) m m' k k' :
  same R m m' -> (forall a b, R a b -> same R' (k a) (k' b)) -> same R' (m ≫= k) (m' ≫= k').
Proof.
  intros Hm Hk s. specialize (Hm s). unfold mbind, M_bind. destruct (m s) as [[a s1]|], (m' s) as [[b s2]|]; try done.
  destruct Hm as [-> HR]. by apply Hk.
Qed.
End same.

(** Ends and continuations related. *)
Definition rel_sum {E E' A B} (RE : E -> E' -> Prop) (R : A -> B -> Prop) (x : E + A) (y : E' + B) : Prop :=
  match x, y with inl e, inl e' => RE e e' | inr a, inr b => R a b | _, _ => False end.

Section io.
Context {K : Type} `{DriverOps K}.
Abbreviation IO := (M (iostate K)).

Lemma same_try {E A B A' B'} (RE : E -> E -> Prop) (R : A -> B -> Prop) (R' : A' -> B' -> Prop) (m : IO (E + A)) (m' : IO (E + B)) k k' :
  same (rel_sum RE R) m m' -> (forall a b, R a b -> same (rel_sum RE R') (k a) (k' b)) ->
  same (rel_sum RE R') (io_try m k) (io_try m' k').
Proof.
  intros Hm Hk. unfold io_try. eapply same_bind; [exact Hm|]. intros [e|a] [e'|b] HR; try done; first [by apply same_ret|by apply Hk].
Qed.

Lemma same_or_end (m : IO Z) r r' : r = r' -> same (rel_sum eq eq) (or_end m r) (or_end m r').
Proof. intros ->. eapply same_bind; [apply same_refl|]. intros st ? <-. apply same_ret. by case_if. Qed.

(** * The byte functions *)

Section agree.
Context (dev : bdev_t) (Hnat : native_dev dev) (temp buf block count : Z).
Abbreviation n1 := (native_block_size dev).
Abbreviation SECT := USER_BLOCK_SIZE.
Hypothesis Hreq : 0 <= block /\ 0 < count /\ block + count <= block_count dev * n1 /\ count * SECT < 2 ^ 32.

Lemma whole_sectors : BYTE_TO_BLOCK (count * SECT) = count.
Proof.
  unfold BYTE_TO_BLOCK, SECT in *. rewrite (uw_small 32 (count * 512 - 1)) by lia. rewrite Z.shiftr_div_pow2 by lia. change (2 ^ 9) with 512.
  replace (count * 512 - 1) with (511 + (count - 1) * 512) by lia. rewrite Z.div_add by lia. change (511 / 512) with 0. rewrite uw_small; lia.
Qed.

(** The sectors in the last, partial block; [with_head]: the first block is handled apart. *)
Definition tail (with_head : bool) : Z := (if with_head then count - head_count n1 block count else count) mod n1.

(** What a byte function returns where the sector function returns [r]: it takes
    a last part of several sectors for one. *)
Definition byte_result (with_head : bool) (r r' : Z) : Prop :=
  r' = if r =? count then (if tail with_head =? 0 then count else count - (tail with_head - 1)) else r.

Record agree (h : bool) (p : nprogress) (b : bprogress) : Prop := {
  ag_done : 0 <= np_done p <= count;
  ag_left : bp_left b = count - np_done p;
  ag_buf : bp_buf b = np_buf p;
  ag_rest : np_done p < count -> bp_block b = np_block p /\ bp_size b = (count - np_done p) * SECT;
  ag_tail : (count - np_done p) mod n1 = tail h;
}.

Lemma per_time_agrees left : n1 <= left < 2 ^ 32 -> byte_per_time dev left = per_time dev left.
Proof.
  intros Hl. pose proof (nb_pos _ Hnat) as Hn. destruct (n_max _ Hnat) as (Hm & Hmod & Hms).
  pose proof (Z.div_mod left n1 ltac:(lia)). pose proof (Z.mod_pos_bound left n1 ltac:(lia)).
  pose proof (Z.div_mod (max_blkcnt dev) n1 ltac:(lia)).
  unfold byte_per_time, per_time, SECT in *. rewrite (uw_small 32 (left / n1 * n1)) by nia.
  set (a := max_blkcnt dev / n1) in *. set (b := left / n1) in *. assert (max_blkcnt dev = n1 * a) as Ea by lia.
  destruct (Z.ltb_spec (max_blkcnt dev) left); destruct (Z.leb_spec (max_blkcnt dev) (b * n1)).
  - fold a. rewrite uw_small; lia.
  - exfalso. assert (b + 1 <= a) by nia. nia.
  - fold b. rewrite uw_small; lia.
  - fold b. rewrite uw_small; lia.
Qed.

Lemma head_count_range : 0 < head_count n1 block count <= count /\
  (head_count n1 block count < count -> u32 (block_start n1 block + n1) = block + head_count n1 block count).
Proof.
  pose proof (nb_pos _ Hnat) as Hn. pose proof (sectors_small _ Hnat) as Hs. destruct (start_of dev Hnat block ltac:(lia)) as (Eb & _ & Ho).
  unfold head_count. rewrite Eb. rewrite (uw_small 32 (block / n1 * n1 + n1 - block)) by lia.
  split; [lia|]. intros Hlt. rewrite uw_small; lia.
Qed.

Lemma agree_first (h : bool) : h = true -> let p_cnt := head_count n1 block count in let byte_size := u32 (p_cnt * SECT) in
  Z.min (count * SECT) byte_size = byte_size /\
  agree h (MkNp p_cnt (buf + byte_size) (u32 (block_start n1 block + n1)))
    (MkBp (u32 (count - p_cnt)) (buf + byte_size) (u32 (block + p_cnt)) (u32 (count * SECT - byte_size))).
Proof.
  intros -> p_cnt byte_size. pose proof (nb_pos _ Hnat) as Hn. pose proof (sectors_small _ Hnat) as Hs.
  destruct head_count_range as [Hr Hb]. fold p_cnt in Hr, Hb. assert (byte_size = p_cnt * SECT) as Ebs by (apply uw_small; unfold SECT in *; lia).
  split; [unfold SECT in *; lia|]. split; cbn [np_done np_buf np_block bp_left bp_buf bp_block bp_size]; try done.
  - lia.
  - apply uw_small. unfold SECT in *. lia.
  - intros Hlt. rewrite (Hb Hlt), Ebs. rewrite !uw_small by (unfold SECT in *; nia). split; [done|]. unfold SECT. lia.
Qed.

Lemma agree_start (h : bool) : h = false -> agree h (MkNp 0 buf block) (MkBp count buf block (count * SECT)).
Proof.
  intros ->. split; cbn [np_done np_buf np_block bp_left bp_buf bp_block bp_size]; rewrite ?Z.sub_0_r; (done || lia).
Qed.

Lemma agree_step h p b n : agree h p b -> n = per_time dev (count - np_done p) -> n1 <= count - np_done p ->
  agree h (MkNp (u32 (np_done p + n)) (np_buf p + u32 (n * SECT)) (u32 (np_block p + n)))
    (MkBp (u32 (bp_left b - n)) (bp_buf b + u32 (n * SECT)) (u32 (bp_block b + n)) (u32 (bp_size b - n * SECT))).
Proof.
  intros [] -> Hle. pose proof (sectors_small _ Hnat) as Hs. pose proof (nb_pos _ Hnat) as Hn.
  destruct (per_time_ok dev Hnat (count - np_done p)) as (c & Ec & Hc & Hcl & Hcs & _); [nia|].
  rewrite Ec. rewrite ag_buf0, ag_left0. destruct (ag_rest0 ltac:(lia)) as [-> ->].
  split; cbn [np_done np_buf np_block bp_left bp_buf bp_block bp_size]; rewrite ?(uw_small 32 (np_done p + c * n1)) by nia; try done.
  - nia.
  - rewrite uw_small; nia.
  - intros _. split; [done|]. rewrite uw_small; unfold SECT in *; lia.
  - rewrite <- ag_tail0. replace (count - np_done p) with (count - (np_done p + c * n1) + c * n1) by lia. by rewrite Z.mod_add by lia.
Qed.

Lemma read_loop_agrees h fuel : forall p b, agree h p b ->
  same (rel_sum (fun r r' => r = r' /\ 0 <= r < count) (fun p b => agree h p b /\ count - np_done p < n1))
    (new_read_loop fuel dev count p) (byte_read_loop fuel dev count b).
Proof.
  pose proof (sectors_small _ Hnat) as Hs. pose proof (nb_pos _ Hnat) as Hn.
  induction fuel as [|fuel IH]; intros p b Ha; [intros s; done|]. cbn [new_read_loop byte_read_loop]. pose proof Ha as [].
  rewrite ag_left0. rewrite (uw_small 32 (count - np_done p)) by nia.
  destruct (Z.leb_spec n1 (count - np_done p)) as [Hle|Hgt]; [|by apply same_ret].
  destruct (per_time_ok dev Hnat (count - np_done p)) as (c & Ec & Hc & Hcl & Hcs & Hnz); [nia|]. rewrite (proj2 (Z.eqb_neq _ _)) by done.
  rewrite per_time_agrees by nia. destruct (ag_rest0 ltac:(lia)) as [E1 E2]. rewrite E1, ag_buf0.
  replace (count - (count - np_done p)) with (np_done p) by lia. rewrite (uw_small 32 (np_done p)) by nia.
  eapply same_try with (R := eq).
  - eapply same_bind; [apply same_refl|]. intros st ? <-. apply same_ret. case_if; [done|]. split; [done|]. lia.
  - intros [] [] _. apply IH. pose proof (agree_step h p b _ Ha eq_refl Hle) as Hx.
    rewrite ag_buf0, ag_left0, E1 in *. exact Hx.
Qed.

Lemma write_loop_agrees h fuel : forall p b, agree h p b ->
  same (rel_sum (fun r r' => r = r' /\ 0 <= r < count) (fun p b => agree h p b /\ count - np_done p < n1))
    (new_write_loop fuel dev count p) (byte_write_loop fuel dev count b).
Proof.
  pose proof (sectors_small _ Hnat) as Hs. pose proof (nb_pos _ Hnat) as Hn.
  induction fuel as [|fuel IH]; intros p b Ha; [intros s; done|]. cbn [new_write_loop byte_write_loop]. pose proof Ha as [].
  rewrite ag_left0. rewrite (uw_small 32 (count - np_done p)) by nia.
  destruct (Z.leb_spec n1 (count - np_done p)) as [Hle|Hgt]; [|by apply same_ret].
  destruct (per_time_ok dev Hnat (count - np_done p)) as (c & Ec & Hc & Hcl & Hcs & Hnz); [nia|]. rewrite (proj2 (Z.eqb_neq _ _)) by done.
  rewrite per_time_agrees by nia. destruct (ag_rest0 ltac:(lia)) as [E1 E2]. rewrite E1, ag_buf0.
  replace (count - (count - np_done p)) with (np_done p) by lia. rewrite (uw_small 32 (np_done p)) by nia.
  eapply same_try with (R := eq).
  - eapply same_bind; [apply same_refl|]. intros st ? <-. apply same_ret. case_if; [done|]. split; [done|]. lia.
  - intros [] [] _. apply IH. pose proof (agree_step h p b _ Ha eq_refl Hle) as Hx.
    rewrite ag_buf0, ag_left0, E1 in *. exact Hx.
Qed.

(** The results of a whole call. *)
Definition results (h : bool) (x y : Z + Z) : Prop :=
  match x, y with inl r, inl r' => r = r' /\ 0 <= r < count | inr r, inr r' => r = count /\ byte_result h r r' | _, _ => False end.

Lemma last_result h p b : agree h p b -> count - np_done p < n1 ->
  (bp_left b = 0 -> np_done p = count /\ byte_result h (np_done p) (u32 (count - bp_left b))) /\
  (bp_left b ≠ 0 -> 0 <= np_done p < count /\ u32 (np_done p + (count - np_done p)) = count /\ byte_result h count (u32 (count - u32 (bp_left b - 1)))).
Proof.
  intros [] Hlt. pose proof (sectors_small _ Hnat) as Hs. pose proof (nb_pos _ Hnat) as Hn. rewrite Z.mod_small in ag_tail0 by lia.
  unfold byte_result. rewrite <- ag_tail0. split; intros Hl.
  - split; [lia|]. assert (np_done p = count) as E by lia. rewrite Hl, E, Z.eqb_refl, Z.sub_diag, Z.sub_0_r. cbn [Z.eqb].
    apply uw_small. nia.
  - split; [lia|]. rewrite Z.eqb_refl. rewrite (proj2 (Z.eqb_neq _ _)) by lia. rewrite ag_left0 in *.
    rewrite (uw_small 32 (count - np_done p - 1)) by nia. rewrite !uw_small by nia. split; [lia|done].
Qed.

Lemma read_last_agrees h p b : agree h p b -> count - np_done p < n1 ->
  same (results h) (new_read_last dev temp count p) (byte_read_last dev temp count b).
Proof.
  intros Ha Hlt. pose proof (sectors_small _ Hnat) as Hs. pose proof (nb_pos _ Hnat) as Hn. destruct (last_result h p b Ha Hlt) as [R0 R1].
  destruct Ha as [Hd Hl Hbu Hr Ht]. unfold new_read_last, byte_read_last. rewrite (uw_small 32 (count - np_done p)) by nia.
  rewrite (Z.mod_small (count - np_done p)) by lia. rewrite <- Hl in *. destruct (Z.eqb_spec (bp_left b) 0) as [E|E]; cbn [negb].
  - apply same_ret. apply R0. done.
  - destruct (Hr ltac:(lia)) as [E1 E2]. destruct (R1 E) as (Hd1 & Hc1 & Hb1). replace (count - bp_left b) with (np_done p) by lia.
    rewrite (uw_small 32 (np_done p)) by nia. rewrite E1, Hbu, E2. rewrite (uw_small 32 (bp_left b * SECT)) by (unfold SECT in *; lia).
    unfold io_try. eapply same_bind with (R := rel_sum (fun r r' => r = r' /\ r = np_done p) eq).
    + eapply same_bind; [apply same_refl|]. intros st ? <-. apply same_ret. by case_if.
    + intros [e|[]] [e'|[]] HR; try done; [apply same_ret; destruct HR as [<- ->]; exact (conj eq_refl Hd1)|].
      eapply same_bind; [apply same_refl|]. intros r ? <-. apply same_ret. unfold results. rewrite Hc1. exact (conj eq_refl Hb1).
Qed.

Lemma write_last_agrees h p b : agree h p b -> count - np_done p < n1 ->
  same (results h) (new_write_last dev temp count p) (byte_write_last dev temp count b).
Proof.
  intros Ha Hlt. pose proof (sectors_small _ Hnat) as Hs. pose proof (nb_pos _ Hnat) as Hn. destruct (last_result h p b Ha Hlt) as [R0 R1].
  destruct Ha as [Hd Hl Hbu Hr Ht]. unfold new_write_last, byte_write_last. rewrite (uw_small 32 (count - np_done p)) by nia.
  rewrite (Z.mod_small (count - np_done p)) by lia. rewrite <- Hl in *. destruct (Z.eqb_spec (bp_left b) 0) as [E|E]; cbn [negb].
  - apply same_ret. apply R0. done.
  - destruct (Hr ltac:(lia)) as [E1 E2]. destruct (R1 E) as (Hd1 & Hc1 & Hb1). replace (count - bp_left b) with (np_done p) by lia.
    rewrite (uw_small 32 (np_done p)) by nia. rewrite E1, Hbu, E2. rewrite (uw_small 32 (bp_left b * SECT)) by (unfold SECT in *; lia).
    assert (forall m : IO Z, same (rel_sum (fun r r' => r = r' /\ r = np_done p) eq) (or_end m (np_done p)) (or_end m (np_done p))) as Hor.
    { intros m. eapply same_bind; [apply same_refl|]. intros st ? <-. apply same_ret. by case_if. }
    unfold io_try. eapply same_bind; [apply Hor|].
    intros [e|[]] [e'|[]] HR; try done; [apply same_ret; destruct HR as [<- ->]; exact (conj eq_refl Hd1)|].
    eapply same_bind; [apply same_refl|]. intros r ? <-. eapply same_bind; [apply Hor|].
    intros [e|[]] [e'|[]] HR2; try done; [apply same_ret; destruct HR2 as [<- ->]; exact (conj eq_refl Hd1)|].
    apply same_ret. unfold results. rewrite Hc1. exact (conj eq_refl Hb1).
Qed.

(** The same transfer, and the results related by [byte_result]. *)
Definition agrees (h : bool) : IO Z -> IO Z -> Prop := same (fun r r' => 0 <= r <= count /\ byte_result h r r').

Lemma agrees_results h m m' : same (results h) m m' -> agrees h (io_result m) (io_result m').
Proof.
  intros Hm. eapply same_bind; [exact Hm|]. intros [r|r] [r'|r'] HR; try done.
  - destruct HR as [<- Hr]. apply same_ret. split; [lia|]. unfold byte_result. by rewrite (proj2 (Z.eqb_neq _ _)) by lia.
  - destruct HR as [-> Hr]. apply same_ret. split; [lia|done].
Qed.

Lemma byte_read_wp : let h := negb (block mod n1 =? 0) || (count <? n1) in
  misaligned dev BIO_FLAG_CACHE_ALIGNED_READS buf = false ->
  agrees h (bio_new_read dev temp buf block count) (bio_new_byte_read dev temp buf block (count * SECT)).
Proof.
  intros h Hmis. pose proof (sectors_small _ Hnat) as Hs. pose proof (nb_pos _ Hnat) as Hn.
  unfold bio_new_read, bio_new_byte_read. rewrite Hmis, whole_sectors. apply agrees_results.
  unfold io_try at 1 3. eapply same_bind with (R := rel_sum (fun r r' => r = r' /\ 0 <= r < count) (agree h)).
  - unfold new_read_first, byte_read_first. fold h. destruct h eqn:Eh; [|by apply same_ret, agree_start].
    destruct (agree_first true eq_refl) as [Em Ha]. rewrite Em. unfold io_try.
    eapply same_bind with (R := rel_sum (fun r r' => r = r' /\ 0 <= r < count) eq).
    + eapply same_bind; [apply same_refl|]. intros st ? <-. apply same_ret. case_if; [done|]. split; [done|lia].
    + intros [e|[]] [e'|[]] HR; try done; try (by apply same_ret). eapply same_bind; [apply same_refl|]. intros r ? <-. by apply same_ret.
  - intros [e|p] [e'|b] HR; try done; try (by apply same_ret). unfold io_try.
    eapply same_bind; [by apply (read_loop_agrees h)|].
    intros [e|p2] [e'|b2] HR2; try done; try (by apply same_ret).
    destruct HR2. by apply read_last_agrees.
Qed.

Lemma byte_write_wp : let h := negb (block mod n1 =? 0) in
  misaligned dev BIO_FLAG_CACHE_ALIGNED_WRITES buf = false ->
  agrees h (bio_new_write dev temp buf block count) (bio_new_byte_write dev temp buf block (count * SECT)).
Proof.
  intros h Hmis. pose proof (sectors_small _ Hnat) as Hs. pose proof (nb_pos _ Hnat) as Hn.
  unfold bio_new_write, bio_new_byte_write. rewrite Hmis, whole_sectors. apply agrees_results.
  unfold io_try at 1 3. eapply same_bind with (R := rel_sum (fun r r' => r = r' /\ 0 <= r < count) (agree h)).
  - unfold new_write_first, byte_write_first. fold h. destruct h eqn:Eh; [|by apply same_ret, agree_start].
    destruct (agree_first true eq_refl) as [Em Ha]. rewrite Em. unfold io_try.
    assert (forall m : IO Z, same (rel_sum (fun r r' => r = r' /\ 0 <= r < count) eq) (or_end m 0) (or_end m 0)) as Hor.
    { intros m. eapply same_bind; [apply same_refl|]. intros st ? <-. apply same_ret. case_if; [done|]. split; [done|lia]. }
    eapply same_bind; [apply Hor|]. intros [e|[]] [e'|[]] HR; try done; try (by apply same_ret). eapply same_bind; [apply same_refl|]. intros r ? <-.
    eapply same_bind; [apply Hor|]. intros [e|[]] [e'|[]] HR2; try done; by apply same_ret.
  - intros [e|p] [e'|b] HR; try done; try (by apply same_ret). unfold io_try.
    eapply same_bind; [by apply (write_loop_agrees h)|]. intros [e|p2] [e'|b2] HR2; try done; try (by apply same_ret).
    destruct HR2. by apply write_last_agrees.
Qed.
End agree.

(** * Properties *)

End io.

End NativeBytes.

(** Native transfers on the sample driver, and where the byte functions go wrong. *)
Module NativeSample.
Import Mem BlockDev Bio BlockProps Native NativeProps NativeBytes BioSample.

(** Blocks of two sectors. *)
Lemma sample_native : native_dev sample_dev.
Proof. split; [exact sample_good|reflexivity|reflexivity|]. split; [reflexivity|]. split; reflexivity. Qed.


Lemma native_erase_zeroes_witness : exists s', bio_new_erase sample_dev 13000 1 6 sample_io = Some (6, s') /\
  wrote sample_dev 13000 (1 * 512) (zeros (6 * 512)) sample_io s'.
Proof.
  apply (native_erase_zeroes sample_dev sample_native 13000 1 6 sample_io).
  - exact sample_ok.
  - reflexivity.
  - lia.
  - lia.
  - vm_compute. discriminate.
  - apply sample_room; vm_compute; discriminate.
  - vm_compute. split; [discriminate|reflexivity].
Defined.


(** ** Blocks of four sectors *)

Definition wide_dev : bdev_t := MkBdev 1 [] 8192 2048 11 4 0 0 0 0.
Definition wide_io : iostate ram := MkIo (put ∅ 10000 (replicate 5000 7)) (MkRam (put ∅ 0 (replicate 8192 1)) true).
#[local] Instance wide_ops : DriverOps ram := ram_ops 2048 8192.

(** All five sectors from the second on are read, and four are reported. *)
Lemma byte_read_undercounts : fst <$> bio_new_byte_read (H := wide_ops) wide_dev 12600 10000 1 2560 wide_io = Some 4 /\
  fst <$> bio_new_read (H := wide_ops) wide_dev 12600 10000 1 5 wide_io = Some 5.
Proof. vm_compute. split; reflexivity. Qed.

(** 2047 bytes are asked for, and the byte behind them is written. *)
Lemma byte_read_overruns : (fun r => io_mem r.2 !! (10000 + 2047)) <$> bio_new_byte_read (H := wide_ops) wide_dev 12600 10000 0 2047 wide_io = Some (Some 1) /\
  io_mem wide_io !! (10000 + 2047) = Some 7.
Proof. vm_compute. split; reflexivity. Qed.

(** No bytes at all are taken for 4 gigabytes. *)
Lemma no_bytes_is_many : BYTE_TO_BLOCK 0 = 2 ^ 23.
Proof. reflexivity. Qed.

(** Blocks of two sectors and a limit of five sectors on a request, which is no
    whole number of blocks: of eight sectors read, all are reported, but the fifth
    place is left as it was and the sectors behind it go one place too far. *)
Definition odd_dev : bdev_t := MkBdev 1 [] 8192 1024 10 8 5 0 0 0.
Definition odd_io : iostate ram :=
  MkIo (put ∅ 10000 (replicate 7000 99)) (MkRam (put ∅ 0 (concat ((fun k => replicate 512 k) <$> seqZ 0 16))) true).
Definition sectors_read (r : Z * iostate ram) : Z * list (option Z) :=
  (fst r, (fun k => io_mem (snd r) !! (10000 + 512 * k)) <$> seqZ 0 8).

Lemma odd_limit_misplaces :
  (let H := ram_ops 1024 8192 in sectors_read <$> bio_new_read (H := H) odd_dev 15000 10000 0 8 odd_io) =
    Some (8, [Some 0; Some 1; Some 2; Some 3; Some 99; Some 4; Some 5; Some 6]) /\
  (let H := ram_ops 1024 8192 in sectors_read <$> bio_new_byte_read (H := H) odd_dev 15000 10000 0 4096 odd_io) =
    Some (8, [Some 0; Some 1; Some 2; Some 3; Some 4; Some 5; Some 6; Some 7]).
Proof. vm_compute. by split. Qed.

(** A failing device, and an erase that reports success. *)
Lemma erase_ignores_failure : fst <$> bio_new_erase (H := wide_ops) (MkBdev 1 [] 8192 2048 11 4 0 0 8 0) 12600 4 4
  (MkIo (io_mem wide_io) (MkRam (put ∅ 0 (replicate 8192 1)) false)) = Some 4.
Proof. vm_compute. reflexivity. Qed.

End NativeSample.
