(* ===== verification/ByteIo.v ===== *)
(** What a client of the block I/O layer relies on: [bio_read] and [bio_write] of
    one device that serves its requests. *)
From S2P Require Import Prelude Mem BlockDev.
Local Open Scope Z_scope.

Module ByteIo.
Import Mem BlockDev.

(** Buffer, offset and length.  [io_stack] is the memory the calls use for
    themselves. *)
Class ByteIoOps (K : Type) := {
  bio_read : Z -> Z -> Z -> M (iostate K) Z;
  bio_write : Z -> Z -> Z -> M (iostate K) Z;
  io_disk : K -> mem;
  io_size : Z;
  io_ok : K -> Prop;
  io_stack : Z -> Prop;
}.

Section laws.
Context {K : Type} `{ByteIoOps K}.

(** The device works and the calls have room for their buffers. *)
Definition io_ready (s : iostate K) : Prop := io_ok (io_dev s) /\ forall a, io_stack a -> is_Some (io_mem s !! a).

Class ByteIoLaws : Prop := {
  io_disk_ok k : io_ok k -> room (io_disk k) 0 io_size /\ byte_mem (io_disk k);
  bio_read_ok s buf off n : io_ready s -> 0 <= off -> 0 < n < 2 ^ 31 -> off + n <= io_size -> room (io_mem s) buf n ->
    (forall a, within buf n a -> ~ io_stack a) ->
    wp (bio_read buf off n) s (fun r s' => r = n /\ io_ready s' /\ io_disk (io_dev s') = io_disk (io_dev s) /\
      changed (fun a => within buf n a \/ io_stack a) (io_mem s) (io_mem s') /\
      exists l, lenZ l = n /\ Forall byte l /\ bytes_at (io_disk (io_dev s)) off l /\ bytes_at (io_mem s') buf l);
  bio_write_ok s buf off l : io_ready s -> 0 <= off -> 0 < lenZ l < 2 ^ 31 -> off + lenZ l <= io_size -> bytes_at (io_mem s) buf l ->
    Forall byte l -> (forall a, within buf (lenZ l) a -> ~ io_stack a) ->
    wp (bio_write buf off (lenZ l)) s (fun r s' => r = lenZ l /\ io_ready s' /\
      io_disk (io_dev s') = put (io_disk (io_dev s)) off l /\ changed io_stack (io_mem s) (io_mem s'));
}.
End laws.
Arguments ByteIoLaws K {_}.

End ByteIo.
