(* ===== verification/Bcache.v ===== *)
(** The block cache, [lib/bcache/bcache.c], over the block I/O layer.  A block is
    known by its index in the array; the lists hold indices. *)
From S2P Require Import Prelude Mem CString BlockDev ByteIo.
Local Open Scope Z_scope.

Module Bcache.
Import Mem BlockDev ByteIo.

Record bcache_block := MkBlock { blocknum : Z; ref_count : Z; is_dirty : bool; ptr : Z }.

Record bcache_stats := MkStats { hits : Z; depth : Z; misses : Z; reads : Z; writes : Z }.

Record bcache := MkCache {
  cache_block_size : Z;
  stats : bcache_stats;
  free_list : list nat;
  lru_list : list nat;
  blocks : list bcache_block;
}.

Record cstate (K : Type) := MkCs { cs_cache : bcache; cs_io : iostate K }.
Arguments MkCs {K}.
Arguments cs_cache {K}.
Arguments cs_io {K}.

Definition with_stats (f : bcache_stats -> bcache_stats) (c : bcache) : bcache :=
  MkCache (cache_block_size c) (f (stats c)) (free_list c) (lru_list c) (blocks c).
Definition with_free (l : list nat) (c : bcache) : bcache := MkCache (cache_block_size c) (stats c) l (lru_list c) (blocks c).
Definition with_lru (l : list nat) (c : bcache) : bcache := MkCache (cache_block_size c) (stats c) (free_list c) l (blocks c).
Definition with_block (i : nat) (f : bcache_block -> bcache_block) (c : bcache) : bcache :=
  MkCache (cache_block_size c) (stats c) (free_list c) (lru_list c) (alter f i (blocks c)).

Definition set_blocknum (n : Z) (b : bcache_block) : bcache_block := MkBlock n (ref_count b) (is_dirty b) (ptr b).
Definition set_ref (r : Z) (b : bcache_block) : bcache_block := MkBlock (blocknum b) r (is_dirty b) (ptr b).
Definition set_dirty (d : bool) (b : bcache_block) : bcache_block := MkBlock (blocknum b) (ref_count b) d (ptr b).

Definition count_hit (d : Z) (s : bcache_stats) : bcache_stats := MkStats (u32 (hits s + 1)) (u32 (depth s + d)) (misses s) (reads s) (writes s).
Definition count_miss (s : bcache_stats) : bcache_stats := MkStats (hits s) (depth s) (u32 (misses s + 1)) (reads s) (writes s).
Definition count_read (s : bcache_stats) : bcache_stats := MkStats (hits s) (depth s) (misses s) (u32 (reads s + 1)) (writes s).
Definition count_write (s : bcache_stats) : bcache_stats := MkStats (hits s) (depth s) (misses s) (reads s) (u32 (writes s + 1)).

Section bcache.
Context {K : Type} `{ByteIoOps K}.
Abbreviation C := (M (cstate K)).

Definition on_io {A} (m : M (iostate K) A) : C A := fun s =>
  match m (cs_io s) with Some (a, x) => Some (a, MkCs (cs_cache s) x) | None => None end.
Definition upd (f : bcache -> bcache) : C unit := modify (fun s => MkCs (f (cs_cache s)) (cs_io s)).
Definition the_block (i : nat) : C bcache_block := deref (fun s => blocks (cs_cache s) !! i).

(** [malloc] returned [ptrs] for the blocks; each is added at the head. *)
Definition bcache_create (block_size : Z) (ptrs : list Z) : bcache :=
  MkCache block_size (MkStats 0 0 0 0 0) (reverse (seq 0 (length ptrs))) [] ((fun p => MkBlock 0 0 false p) <$> ptrs).

Definition flush_block (i : nat) : C Z :=
  b ← the_block i;
  c ← gets cs_cache;
  rc ← on_io (bio_write (ptr b) (blocknum b * cache_block_size c) (cache_block_size c));
  if rc <? 0 then mret rc
  else
    _ ← upd (with_block i (set_dirty false));
    _ ← upd (with_stats count_write);
    mret 0.

(** To the tail of the list: most recently used. *)
Definition touch (i : nat) : C unit := upd (fun c => with_lru (filter (.≠ i) (lru_list c) ++ [i]) c).

Fixpoint find_walk (l : list nat) (num : Z) (d : Z) : C (option nat) :=
  match l with
  | [] => _ ← upd (with_stats count_miss); mret None
  | i :: l =>
      b ← the_block i;
      if blocknum b =? num then
        _ ← touch i;
        _ ← upd (with_stats (count_hit (u32 (d + 1))));
        mret (Some i)
      else find_walk l num (u32 (d + 1))
  end.

Definition find_block (num : Z) : C (option nat) := c ← gets cs_cache; find_walk (lru_list c) num 0.

Fixpoint alloc_walk (l : list nat) : C (option nat) :=
  match l with
  | [] => mret None
  | i :: l =>
      b ← the_block i;
      if ref_count b =? 0 then
        err ← (if is_dirty b then flush_block i else mret 0);
        if negb (err =? 0) then mret None
        else _ ← touch i; mret (Some i)
      else alloc_walk l
  end.

Definition alloc_block : C (option nat) :=
  c ← gets cs_cache;
  match free_list c with
  | i :: l =>
      _ ← upd (with_free l);
      _ ← upd (with_block i (set_ref 0));
      _ ← upd (fun c => with_lru (lru_list c ++ [i]) c);
      mret (Some i)
  | [] => alloc_walk (lru_list c)
  end.

(** When the read fails the code links the block into the free list while it is
    in the other one, which breaks both: a fault here. *)
Definition find_or_fill_block (num : Z) : C nat :=
  o ← find_block num;
  i ← match o with
      | Some i => mret i
      | None =>
          o ← alloc_block;
          i ← deref (fun _ => o);
          _ ← upd (with_block i (set_blocknum num));
          b ← the_block i;
          c ← gets cs_cache;
          err ← on_io (bio_read (ptr b) (num * cache_block_size c) (cache_block_size c));
          if err <? 0 then fault
          else _ ← upd (with_stats count_read); mret i
      end;
  b ← the_block i;
  _ ← assert_ (blocknum b =? num);
  mret i.

Definition bcache_read_block (buf num : Z) : C Z :=
  i ← find_or_fill_block num;
  b ← the_block i;
  c ← gets cs_cache;
  _ ← on_io (io_on_mem (CString.memcpy buf (ptr b) (cache_block_size c)));
  mret 0.

(** The status and the pointer stored through [ptr]. *)
Definition bcache_get_block (num : Z) : C (Z * Z) :=
  i ← find_or_fill_block num;
  b ← the_block i;
  _ ← upd (with_block i (set_ref (s32 (ref_count b + 1))));
  mret (0, ptr b).

Definition bcache_put_block (num : Z) : C Z :=
  o ← find_block num;
  i ← deref (fun _ => o);
  b ← the_block i;
  _ ← assert_ (0 <? ref_count b);
  _ ← upd (with_block i (set_ref (s32 (ref_count b - 1))));
  mret 0.

Definition bcache_mark_block_dirty (num : Z) : C Z :=
  o ← find_block num;
  match o with
  | None => mret (-1)
  | Some i => _ ← upd (with_block i (set_dirty true)); mret 0
  end.

Definition bcache_zero_block (num : Z) : C Z :=
  o ← find_block num;
  o ← match o with
      | Some i => mret (Some i)
      | None =>
          o ← alloc_block;
          match o with
          | None => mret None
          | Some i => _ ← upd (with_block i (set_blocknum num)); mret (Some i)
          end
      end;
  match o with
  | None => mret (-1)
  | Some i =>
      b ← the_block i;
      c ← gets cs_cache;
      _ ← on_io (io_on_mem (CString.memset (ptr b) 0 (cache_block_size c)));
      _ ← upd (with_block i (set_dirty true));
      mret 0
  end.

Fixpoint flush_walk (l : list nat) : C Z :=
  match l with
  | [] => mret 0
  | i :: l =>
      b ← the_block i;
      if is_dirty b then
        err ← flush_block i;
        if negb (err =? 0) then mret err else flush_walk l
      else flush_walk l
  end.

Definition bcache_flush : C Z := c ← gets cs_cache; flush_walk (lru_list c).

(** The blocks must not be in use; their memory is freed. *)
Fixpoint bcache_destroy (l : list bcache_block) : C unit :=
  match l with [] => mret tt | b :: l => _ ← assert_ (ref_count b =? 0); bcache_destroy l end.
End bcache.

End Bcache.
