(* ===== verification/BcacheProps.v ===== *)
(** The block cache is transparent: what its clients see is a disk. *)
From S2P Require Import Prelude Mem CString CStringProps BlockDev Bio BlockProps BioProps BioSample ByteIo Bcache.
Local Open Scope Z_scope.

Module BcacheProps.
Import Mem CStringProps BlockDev BlockProps ByteIo Bcache.

(** What the clients see: the blocks of the disk, the numbers of those a client
    has written to and not yet marked dirty, and the number of references to the
    blocks in use with the pointer handed out. *)
Record view := MkView { contents : Z -> list Z; unmarked : gset Z; pinned : gmap Z (Z * Z) }.

Definition set_contents (n : Z) (l : list Z) (v : view) : view :=
  MkView (fun m => if decide (m = n) then l else contents v m) (unmarked v) (pinned v).
Definition mark (n : Z) (v : view) : view := MkView (contents v) (unmarked v ∖ {[n]}) (pinned v).
Definition unmark (n : Z) (v : view) : view := MkView (contents v) ({[n]} ∪ unmarked v) (pinned v).
Definition references (v : view) (n : Z) : Z := match pinned v !! n with Some (c, _) => c | None => 0 end.
Definition pin (n p : Z) (v : view) : view := MkView (contents v) (unmarked v) (<[n := (references v n + 1, p)]> (pinned v)).
Definition unpin (n : Z) (v : view) : view :=
  MkView (contents v) (unmarked v)
    (match pinned v !! n with
     | Some (c, p) => if decide (c = 1) then delete n (pinned v) else <[n := (c - 1, p)]> (pinned v)
     | None => pinned v
     end).
Definition overwrite (k : Z) (l l0 : list Z) : list Z := take (Z.to_nat k) l0 ++ l ++ drop (Z.to_nat k + length l) l0.

Section cache.
Context {K : Type} `{ByteIoLaws K}.
Implicit Types s : cstate K.

Abbreviation bsz s := (cache_block_size (cs_cache s)).
Abbreviation lru s := (lru_list (cs_cache s)).
Abbreviation free s := (free_list (cs_cache s)).
Abbreviation blk s i := (blocks (cs_cache s) !! i).
Abbreviation memory s := (io_mem (cs_io s)).
Abbreviation disk_of s := (io_disk (io_dev (cs_io s))).
Abbreviation nblocks s := (length (blocks (cs_cache s))).

(** ** Invariant *)

Record shape s : Prop := {
  sh_size : 0 < bsz s < 2 ^ 31;
  sh_lists : free s ++ lru s ≡ₚ seq 0 (nblocks s);
  sh_free i b : i ∈ free s -> blk s i = Some b -> is_dirty b = false;
  sh_room i b : blk s i = Some b -> room (memory s) (ptr b) (bsz s);
  sh_stack i b a : blk s i = Some b -> within (ptr b) (bsz s) a -> ~ io_stack a;
  sh_apart i j b b' a : i ≠ j -> blk s i = Some b -> blk s j = Some b' -> within (ptr b) (bsz s) a -> ~ within (ptr b') (bsz s) a;
  sh_io : io_ready (cs_io s);
}.

Definition on_device s (n : Z) : Prop := 0 <= n /\ (n + 1) * bsz s <= io_size.

Record block_ok (v : view) s (b : bcache_block) : Prop := {
  bo_on : on_device s (blocknum b);
  bo_mem : bytes_at (memory s) (ptr b) (contents v (blocknum b));
  bo_clean : is_dirty b = false -> blocknum b ∉ unmarked v -> bytes_at (disk_of s) (blocknum b * bsz s) (contents v (blocknum b));
  bo_ref : match pinned v !! blocknum b with Some (c, p) => ref_count b = c /\ ptr b = p | None => ref_count b = 0 end;
}.

Definition holds_block s (n : Z) (i : nat) : Prop := exists b, blk s i = Some b /\ blocknum b = n.

(** The clients see [v]; the blocks [L] are those that count as cached. *)
Record sees (v : view) (L : list nat) s : Prop := {
  se_shape : shape s;
  se_live : L ⊆ lru s;
  se_num i j n : i ∈ L -> j ∈ L -> holds_block s n i -> holds_block s n j -> i = j;
  se_block i b : i ∈ L -> blk s i = Some b -> block_ok v s b;
  se_disk n : on_device s n -> (forall i, i ∈ L -> ~ holds_block s n i) -> bytes_at (disk_of s) (n * bsz s) (contents v n);
  se_len n : on_device s n -> lenZ (contents v n) = bsz s /\ Forall byte (contents v n);
  se_pinned n c p : pinned v !! n = Some (c, p) -> 0 < c /\ exists i, i ∈ L /\ holds_block s n i;
  se_unmarked : unmarked v ⊆ dom (pinned v);
}.

Definition cache_sees (v : view) s : Prop := sees v (lru s) s.

(** ** The lists *)

Lemma lists_nodup s : shape s -> NoDup (free s ++ lru s).
Proof. intros Hc. rewrite (sh_lists _ Hc). apply NoDup_seq. Qed.

Lemma lru_nodup s : shape s -> NoDup (lru s).
Proof. intros Hc. apply lists_nodup in Hc. by apply NoDup_app in Hc as (_ & _ & Hc). Qed.

Lemma listed_block s i : shape s -> i ∈ free s ++ lru s -> exists b, blk s i = Some b.
Proof. intros Hc Hx. rewrite (sh_lists _ Hc) in Hx. apply elem_of_seq in Hx. apply lookup_lt_is_Some_2. lia. Qed.

Lemma lru_block s i : shape s -> i ∈ lru s -> exists b, blk s i = Some b.
Proof. intros Hc Hi. apply listed_block; [done|]. apply elem_of_app. by right. Qed.

Lemma touch_perm (l : list nat) i : NoDup l -> i ∈ l -> filter (.≠ i) l ++ [i] ≡ₚ l.
Proof.
  intros Hn Hi. apply list_elem_of_split in Hi as (l1 & l2 & ->). apply NoDup_app_cons in Hn as [Hni Hn].
  rewrite filter_app, filter_cons_False by (intros Hx; by apply Hx).
  assert (forall l : list nat, i ∉ l -> filter (.≠ i) l = l) as Hf.
  { induction l as [|x l IH]; [done|]. intros Hx. apply not_elem_of_cons in Hx as [Hx Hl]. rewrite filter_cons_True by congruence. by rewrite IH. }
  rewrite !Hf by set_solver. solve_Permutation.
Qed.

(** ** Steps *)

(** Blocks keep their memory. *)
Lemma shape_step s s' : shape s -> bsz s' = bsz s -> ptr <$> blocks (cs_cache s') = ptr <$> blocks (cs_cache s) ->
  free s' ++ lru s' ≡ₚ free s ++ lru s -> (forall i b, i ∈ free s' -> blk s' i = Some b -> is_dirty b = false) ->
  (forall a, is_Some (memory s !! a) -> is_Some (memory s' !! a)) -> io_ready (cs_io s') -> shape s'.
Proof.
  intros [] Hsz Hptr Hl Hfree Hm Hio.
  assert (forall i b, blk s' i = Some b -> exists b0, blk s i = Some b0 /\ ptr b = ptr b0) as Hb.
  { intros i b Eb. pose proof (f_equal (lookup i) Hptr) as E. rewrite !list_lookup_fmap, Eb in E.
    destruct (blk s i) as [b0|]; [|done]. injection E as E. by exists b0. }
  split; rewrite ?Hsz; try done.
  - rewrite Hl, sh_lists0. pose proof (f_equal length Hptr) as E. rewrite !length_fmap in E. by rewrite E.
  - intros i b Eb a Ha. destruct (Hb i b Eb) as (b0 & E0 & Ep). apply Hm. rewrite Ep in Ha. by eapply sh_room0.
  - intros i b a Eb Ha. destruct (Hb i b Eb) as (b0 & E0 & Ep). rewrite Ep in Ha. by eapply sh_stack0.
  - intros i j b b' a Hij Eb Eb' Ha. destruct (Hb i b Eb) as (b0 & E0 & Ep). destruct (Hb j b' Eb') as (b0' & E0' & Ep').
    rewrite Ep in Ha. rewrite Ep'. by eapply sh_apart0.
Qed.

(** Two blocks of the disk do not overlap. *)
Lemma device_apart s n n' a : shape s -> n ≠ n' -> within (n * bsz s) (bsz s) a -> ~ within (n' * bsz s) (bsz s) a.
Proof. intros [] Hn Ha Ha'. unfold within in *. nia. Qed.

(** Block [i] changes and no other. *)
Lemma block_update v v' L L' s s' i b' : sees v L s -> shape s' -> bsz s' = bsz s -> L' ⊆ lru s' ->
  (forall j, j ∈ L' <-> j = i \/ j ∈ L) -> blk s' i = Some b' -> (forall j, j ≠ i -> blk s' j = blk s j) ->
  (i ∈ L -> holds_block s (blocknum b') i) -> (i ∉ L -> forall j, j ∈ L -> ~ holds_block s (blocknum b') j) ->
  block_ok v' s' b' -> lenZ (contents v' (blocknum b')) = bsz s /\ Forall byte (contents v' (blocknum b')) ->
  (forall n, n ≠ blocknum b' -> contents v' n = contents v n /\ pinned v' !! n = pinned v !! n /\ (n ∈ unmarked v' <-> n ∈ unmarked v)) ->
  (forall j b a, j ∈ L -> j ≠ i -> blk s j = Some b -> within (ptr b) (bsz s) a -> memory s' !! a = memory s !! a) ->
  (forall n a, n ≠ blocknum b' -> within (n * bsz s) (bsz s) a -> disk_of s' !! a = disk_of s !! a) ->
  (forall c p, pinned v' !! blocknum b' = Some (c, p) -> 0 < c) -> (blocknum b' ∈ unmarked v' -> blocknum b' ∈ dom (pinned v')) ->
  sees v' L' s'.
Proof.
  intros Hs Hsh Hsz Hlive HL Hi Hother Hin Hout Hok Hlen Hv Hmem Hdisk Hpos Hun.
  assert (forall j n, j ∈ L -> j ≠ i -> holds_block s' n j <-> holds_block s n j) as Hh by (intros j n _ Hj; unfold holds_block; by rewrite Hother).
  assert (forall n, holds_block s' n i <-> n = blocknum b') as Hhi.
  { intros n. unfold holds_block. rewrite Hi. split; [intros (b & E & <-); congruence|intros ->; by exists b']. }
  assert (forall j, j ∈ L -> j ≠ i -> ~ holds_block s (blocknum b') j) as Hnot.
  { intros j Hj Hji Hb. destruct (decide (i ∈ L)) as [HiL|HiL]; [|by eapply Hout]. apply Hji. exact (se_num _ _ _ Hs j i _ Hj HiL Hb (Hin HiL)). }
  assert (forall n, on_device s' n <-> on_device s n) as Hon by (intros n; unfold on_device; by rewrite Hsz).
  destruct Hs as [Ssh Slive Snum Sblock Sdisk Slen Spin Sun]. split; try done.
  - intros j k n Hj Hk Hbj Hbk. apply HL in Hj as [->|Hj], Hk as [->|Hk]; try done.
    + destruct (decide (k = i)) as [->|Hki]; [done|]. apply Hhi in Hbj as ->. apply Hh in Hbk; try done. by apply Hnot in Hbk.
    + destruct (decide (j = i)) as [->|Hji]; [done|]. apply Hhi in Hbk as ->. apply Hh in Hbj; try done. by apply Hnot in Hbj.
    + destruct (decide (j = i)) as [->|Hji], (decide (k = i)) as [->|Hki]; try done.
      * apply Hhi in Hbj as ->. apply Hh in Hbk; try done. by apply Hnot in Hbk.
      * apply Hhi in Hbk as ->. apply Hh in Hbj; try done. by apply Hnot in Hbj.
      * apply Hh in Hbj, Hbk; try done. by eapply Snum.
  - intros j b Hj Hb. destruct (decide (j = i)) as [->|Hji]; [rewrite Hi in Hb; by injection Hb as <-|].
    apply HL in Hj as [?|Hj]; [done|]. rewrite Hother in Hb by done.
    assert (blocknum b ≠ blocknum b') as Hne by (intros E; apply (Hnot j Hj Hji); by exists b).
    destruct (Hv _ Hne) as (Hc & Hp & Hu). destruct (Sblock j b Hj Hb) as [Bo Bm Bc Br].
    pose proof (proj1 (Slen _ Bo)) as El. split; rewrite ?Hc, ?Hp; try done.
    + by apply Hon.
    + intros k x Hk. rewrite (Hmem j b _ Hj Hji Hb); [by apply Bm|]. apply lookup_lt_Some in Hk. unfold within. lia.
    + intros Hd Hnu k x Hk. rewrite Hu in Hnu. rewrite Hsz, (Hdisk (blocknum b)); [by apply Bc|done|].
      apply lookup_lt_Some in Hk. unfold within. lia.
  - intros n Hn Hfresh. assert (n ≠ blocknum b') as Hne by (intros ->; apply (Hfresh i); [by apply HL; left|by apply Hhi]).
    apply Hon in Hn. pose proof (proj1 (Slen _ Hn)) as El. rewrite Hsz, (proj1 (Hv n Hne)).
    assert (bytes_at (disk_of s) (n * bsz s) (contents v n)) as Hb.
    { apply Sdisk; [done|]. intros j Hj Hx. destruct (decide (j = i)) as [->|Hji].
      - destruct Hx as (b & E & En), (Hin Hj) as (b2 & E2 & En2). congruence.
      - apply (Hfresh j); [apply HL; by right|]. by apply Hh. }
    intros k x Hk. rewrite (Hdisk n); [by apply Hb|done|]. apply lookup_lt_Some in Hk. unfold within. lia.
  - intros n Hn. rewrite Hsz. destruct (decide (n = blocknum b')) as [->|Hne]; [done|]. rewrite (proj1 (Hv n Hne)). apply Slen. by apply Hon.
  - intros n c p Hp. destruct (decide (n = blocknum b')) as [->|Hne].
    + split; [by eapply Hpos|]. exists i. split; [by apply HL; left|]. by apply Hhi.
    + rewrite (proj1 (proj2 (Hv n Hne))) in Hp. destruct (Spin n c p Hp) as [Hc (j & Hj & Hb)]. split; [done|].
      exists j. split; [apply HL; by right|]. apply Hh; try done. intros ->. destruct Hb as (b & E & En), (Hin Hj) as (b2 & E2 & En2). congruence.
  - intros n Hn. destruct (decide (n = blocknum b')) as [->|Hne]; [by apply Hun|].
    destruct (Hv n Hne) as (_ & Hp & Hu). apply elem_of_dom. rewrite Hp. apply elem_of_dom, Sun. by apply Hu.
Qed.

(** The same cache but for the order of the list and the statistics. *)
Record reordered s s' : Prop := {
  ro_io : cs_io s' = cs_io s;
  ro_blocks : blocks (cs_cache s') = blocks (cs_cache s);
  ro_size : bsz s' = bsz s;
  ro_free : free s' = free s;
  ro_lru : lru s' ≡ₚ lru s;
}.

Lemma reordered_shape s s' : shape s -> reordered s s' -> shape s'.
Proof.
  intros Hs [Hio Hbl Hsz Hfr Hlru]. apply (shape_step s s'); try done; rewrite ?Hio, ?Hbl, ?Hfr, ?Hlru; try done; by destruct Hs.
Qed.

Lemma reordered_sees v L L' s s' : sees v L s -> reordered s s' -> L' ≡ₚ L -> sees v L' s'.
Proof.
  intros [] Hr HL. pose proof (reordered_shape s s' se_shape0 Hr). destruct Hr as [Hio Hbl Hsz Hfr Hlru].
  split; unfold holds_block, on_device in *; rewrite ?Hio, ?Hbl, ?Hsz, ?HL; try done; [by rewrite Hlru| | | |].
  - intros i j n. rewrite !HL. apply se_num0.
  - intros i b Hi Hb. rewrite HL in Hi. destruct (se_block0 i b Hi Hb) as [Bo Bm Bc Br]. split; unfold on_device in *; by rewrite ?Hio, ?Hsz.
  - intros n Hn Hx. apply se_disk0; [done|]. intros i. rewrite <- HL. apply Hx.
  - intros n c p Hp. destruct (se_pinned0 n c p Hp) as [Hc (i & Hi & Hb)]. split; [done|]. exists i. by rewrite HL.
Qed.

(** ** Looking up *)

Lemma find_walk_wp v s num : cache_sees v s -> forall l d, l ⊆ lru s ->
  wp (find_walk l num d) s (fun o s' => reordered s s' /\
    match o with Some i => i ∈ l /\ holds_block s num i | None => forall i, i ∈ l -> ~ holds_block s num i end).
Proof.
  intros Hc l. pose proof (se_shape _ _ _ Hc) as Hsh. induction l as [|i l IH]; intros d Hl; cbn [find_walk].
  - unfold upd. wp_step. split; [by split|]. intros i Hi. by apply not_elem_of_nil in Hi.
  - destruct (lru_block s i Hsh ltac:(set_solver)) as [b Hb]. unfold the_block. wp_step. exists b. split; [done|].
    destruct (Z.eqb_spec (blocknum b) num) as [E|E].
    + unfold touch, upd. wp_step. split.
      * split; try done. cbn. apply touch_perm; [by apply lru_nodup|set_solver].
      * split; [by left|]. by exists b.
    + eapply wp_mono; [apply IH; set_solver|]. intros [j|] s' [Hr Hj]; (split; [done|]).
      * destruct Hj. split; [by right|done].
      * intros j Hjl. apply elem_of_cons in Hjl as [->|Hjl]; [|by apply Hj]. intros (b' & Hb' & En). congruence.
Qed.

Lemma find_block_wp v s num : cache_sees v s ->
  wp (find_block num) s (fun o s' => reordered s s' /\ cache_sees v s' /\
    match o with Some i => i ∈ lru s' /\ holds_block s' num i | None => forall i, i ∈ lru s' -> ~ holds_block s' num i end).
Proof.
  intros Hc. unfold find_block. wp_step. eapply wp_mono; [by apply (find_walk_wp v s num Hc (lru s) 0)|].
  intros o s' [Hr Ho]. split; [done|]. split; [eapply reordered_sees; [exact Hc|done|by destruct Hr]|].
  destruct Hr. unfold holds_block in *. rewrite ro_blocks0. destruct o as [i|]; [by rewrite ro_lru0|]. intros i. rewrite ro_lru0. apply Ho.
Qed.

(** ** Writing back *)

Lemma wp_on_io {A} (m : M (iostate K) A) s Q : wp m (cs_io s) (fun r x => Q r (MkCs (cs_cache s) x)) -> wp (on_io m) s Q.
Proof. unfold wp, on_io. by destruct (m (cs_io s)) as [[a x]|]. Qed.

(** Writing a block back changes nothing a client sees. *)
Record flushed i s s' : Prop := {
  fl_blocks : blocks (cs_cache s') = alter (set_dirty false) i (blocks (cs_cache s));
  fl_size : bsz s' = bsz s;
  fl_free : free s' = free s;
  fl_lru : lru s' = lru s;
  fl_mem : changed io_stack (memory s) (memory s');
}.

Lemma block_memory s m i b a : shape s -> changed io_stack (memory s) m -> blk s i = Some b -> within (ptr b) (bsz s) a ->
  m !! a = memory s !! a.
Proof. intros Hs Hm Hb Ha. apply Hm. exact (sh_stack _ Hs i b a Hb Ha). Qed.

Lemma ptrs_alter f i (l : list bcache_block) : (forall b, ptr (f b) = ptr b) -> ptr <$> alter f i l = ptr <$> l.
Proof.
  intros Hf. apply list_eq. intros j. rewrite !list_lookup_fmap. destruct (decide (i = j)) as [<-|Hne].
  - rewrite list_lookup_alter_eq. destruct (l !! i); simpl; by rewrite ?Hf.
  - by rewrite list_lookup_alter_ne.
Qed.

Lemma flush_block_wp v L s i b : sees v L s -> i ∈ L -> blk s i = Some b ->
  wp (flush_block i) s (fun r s' => r = 0 /\ sees v L s' /\ flushed i s s').
Proof.
  intros Hc Hi Hb. pose proof (se_shape _ _ _ Hc) as Hsh. destruct (se_block _ _ _ Hc i b Hi Hb) as [Bo Bm Bc Br].
  destruct (se_len _ _ _ Hc _ Bo) as [Hlen Hbytes]. pose proof (sh_size _ Hsh) as Hsz.
  pose proof (bio_write_ok (cs_io s) (ptr b) (blocknum b * bsz s) (contents v (blocknum b))) as Hw. rewrite Hlen in Hw.
  unfold flush_block, the_block, upd. wp_step. exists b. split; [done|]. wp_step. apply wp_on_io.
  eapply wp_mono; [apply Hw; try done; [apply Hsh|unfold on_device in Bo; nia..|intros a; by apply (sh_stack s Hsh i b)]|].
  intros r x (-> & Hio & Hd & Hm). cbn beta. rewrite (proj2 (Z.ltb_ge _ _)) by lia. wp_step. split; [done|].
  split; [|by split]. eapply (block_update v v L L s _ i (set_dirty false b) Hc); cbn; try done.
  - apply (shape_step s _ Hsh); cbn; try done; [by apply ptrs_alter| |intros a; by apply Hm].
    intros j b0 Hj Hbj. destruct (decide (i = j)) as [<-|Hne]; [|rewrite list_lookup_alter_ne in Hbj by done; by eapply sh_free].
    rewrite list_lookup_alter_eq, Hb in Hbj. by injection Hbj as <-.
  - apply Hc.
  - intros j. split; [by right|]. intros [->|]; done.
  - by rewrite list_lookup_alter_eq, Hb.
  - intros j Hj. by rewrite list_lookup_alter_ne.
  - intros _. by exists b.
  - split; cbn; try done.
    + intros k y Hk. rewrite (block_memory s (io_mem x) i b _ Hsh Hm Hb); [by apply Bm|]. apply lookup_lt_Some in Hk. unfold within. lia.
    + intros _ _. rewrite Hd. apply put_bytes_at.
  - intros j b0 a Hj Hji Hbj Ha. by apply (block_memory s (io_mem x) j b0).
  - intros n a Hn Ha. rewrite Hd. apply put_lookup_out. pose proof (device_apart s n (blocknum b) a Hsh Hn Ha) as Hna.
    rewrite Hlen. unfold within in *. lia.
  - intros c p Hp. by apply (se_pinned _ _ _ Hc) in Hp as [? _].
  - apply Hc.
Qed.

(** ** Making room *)

(** A clean block that nobody holds can go: the disk has its contents. *)
Lemma evict v L s i b : sees v L s -> i ∈ L -> blk s i = Some b -> ref_count b = 0 -> is_dirty b = false -> sees v (filter (.≠ i) L) s.
Proof.
  intros Hs Hi Hb Hr Hd. destruct (se_block _ _ _ Hs i b Hi Hb) as [Bo Bm Bc Br].
  assert (pinned v !! blocknum b = None) as Hp.
  { destruct (pinned v !! blocknum b) as [[c p]|] eqn:E; [|done]. destruct Br. apply (se_pinned _ _ _ Hs) in E as [? _]. lia. }
  assert (blocknum b ∉ unmarked v) as Hu by (intros Hx; apply (se_unmarked _ _ _ Hs), elem_of_dom in Hx; rewrite Hp in Hx; by destruct Hx).
  assert (forall j, j ∈ filter (.≠ i) L <-> j ≠ i /\ j ∈ L) as HL by (intros j; by rewrite list_elem_of_filter).
  destruct Hs as [Ssh Slive Snum Sblock Sdisk Slen Spin Sun]. split; try done.
  - intros j Hj. apply HL in Hj as [_ Hj]. by apply Slive.
  - intros j k n Hj Hk. apply HL in Hj as [_ Hj], Hk as [_ Hk]. by apply Snum.
  - intros j b' Hj. apply HL in Hj as [_ Hj]. by apply Sblock.
  - intros n Hn Hx. destruct (decide (n = blocknum b)) as [->|Hne]; [by apply Bc|]. apply Sdisk; [done|]. intros j Hj Hh.
    destruct (decide (j = i)) as [->|Hji]; [destruct Hh as (b' & E & En); congruence|]. apply (Hx j); [by apply HL|done].
  - intros n c p Hpin. destruct (Spin n c p Hpin) as [Hc (j & Hj & Hh)]. split; [done|]. exists j. split; [|done]. apply HL. split; [|done].
    intros ->. destruct Hh as (b' & E & En). congruence.
Qed.

(** The blocks keep their numbers and references. *)
Definition same_numbers s s' : Prop :=
  forall i b', blk s' i = Some b' -> exists b, blk s i = Some b /\ blocknum b' = blocknum b /\ ref_count b' = ref_count b.

(** The cache's own memory. *)
Definition cache_mem s (a : Z) : Prop := exists i b, blk s i = Some b /\ within (ptr b) (bsz s) a.

(** What a call leaves alone: the blocks' memory and that of the clients. *)
Record stepped s s' : Prop := {
  st_size : bsz s' = bsz s;
  st_ptrs : ptr <$> blocks (cs_cache s') = ptr <$> blocks (cs_cache s);
  st_mem : changed (fun a => io_stack a \/ cache_mem s a) (memory s) (memory s');
}.

Lemma stepped_refl s : stepped s s.
Proof. by split. Qed.

Lemma stepped_blocks s s' : stepped s s' -> nblocks s' = nblocks s.
Proof. intros Hs. pose proof (f_equal length (st_ptrs _ _ Hs)) as E. by rewrite !length_fmap in E. Qed.

Lemma same_ptrs s s' i b' : stepped s s' -> blk s' i = Some b' -> exists b, blk s i = Some b /\ ptr b' = ptr b.
Proof.
  intros Hs Hb. pose proof (f_equal (lookup i) (st_ptrs _ _ Hs)) as E. rewrite !list_lookup_fmap, Hb in E.
  destruct (blk s i) as [b|]; [|done]. injection E as E. by exists b.
Qed.

Lemma stepped_trans s1 s2 s3 : stepped s1 s2 -> stepped s2 s3 -> stepped s1 s3.
Proof.
  intros H1 H2. pose proof (same_ptrs s1 s2) as Hp. destruct H1 as [Hz Hl Hm], H2 as [Hz' Hl' Hm']. split; [congruence..|].
  eapply changed_trans; [exact Hm|]. eapply changed_weaken; [exact Hm'|]. intros a [Ha|Ha]; [by left|right].
  destruct Ha as (i & b & Hb & Ha), (Hp i b ltac:(by split) Hb) as (b0 & Hb0 & Ep). exists i, b0. by rewrite <- Ep, <- Hz.
Qed.

(** Block [i] is taken, out of those that count: [L] are the others. *)
Record allocated v i L s s' : Prop := {
  al_lru : lru s' ≡ₚ i :: L;
  al_sees : sees v L s';
  al_block : exists b, blk s' i = Some b /\ ref_count b = 0 /\ is_dirty b = false;
  al_old n : (forall j, j ∈ lru s -> ~ holds_block s n j) -> forall j, j ∈ L -> ~ holds_block s' n j;
  al_step : stepped s s';
}.

Lemma flushed_numbers i s s' : flushed i s s' -> same_numbers s s'.
Proof.
  intros [Hbl _ _ _ _] j b' Hj. rewrite Hbl in Hj. destruct (decide (i = j)) as [<-|Hne].
  - rewrite list_lookup_alter_eq in Hj. destruct (blk s i) as [b|]; [|done]. injection Hj as <-. by exists b.
  - rewrite list_lookup_alter_ne in Hj by done. by exists b'.
Qed.

Lemma flushed_step i s s' : flushed i s s' -> stepped s s'.
Proof.
  intros [Hbl Hsz _ _ Hm]. split; [done|rewrite Hbl; by apply ptrs_alter|]. eapply changed_weaken; [exact Hm|]. intros a Ha. by left.
Qed.

(** A block nobody holds is taken once it is clean. *)
Lemma take_clean v s s1 i b : cache_sees v s1 -> lru s1 = lru s -> same_numbers s s1 -> stepped s s1 -> i ∈ lru s -> blk s1 i = Some b -> ref_count b = 0 -> is_dirty b = false ->
  wp (_ ← touch i; mret (Some i)) s1 (fun o s' => o = Some i /\ exists L, allocated v i L s s').
Proof.
  intros Hs Hl Hnum Hst Hi Hb Hr Hd. rewrite <- Hl in Hi. pose proof (se_shape _ _ _ Hs) as Hsh.
  unfold touch, upd. wp_step. split; [done|]. exists (filter (.≠ i) (lru s1)).
  pose proof (touch_perm (lru s1) i (lru_nodup s1 Hsh) Hi) as Hperm. split; cbn; try done.
  - by rewrite Permutation_app_comm.
  - apply (reordered_sees v (filter (.≠ i) (lru s1)) _ s1); [by eapply evict|by split|done].
  - by exists b.
  - intros n Hx j Hj (b' & Eb & En). apply list_elem_of_filter in Hj as [_ Hj]. destruct (Hnum j b' Eb) as (b0 & E0 & En0 & _).
    rewrite Hl in Hj. apply (Hx j Hj). exists b0. by rewrite <- En0.
  - by destruct Hst.
Qed.

Lemma same_numbers_refl s : same_numbers s s.
Proof. intros i b Hb. by exists b. Qed.

Lemma alloc_walk_wp v s : cache_sees v s -> forall l, l ⊆ lru s ->
  wp (alloc_walk l) s (fun o s' =>
    match o with
    | Some i => exists L, allocated v i L s s'
    | None => s' = s /\ forall i b, i ∈ l -> blk s i = Some b -> ref_count b ≠ 0
    end).
Proof.
  intros Hs l. pose proof (se_shape _ _ _ Hs) as Hsh. induction l as [|i l IH]; intros Hl; cbn [alloc_walk].
  - wp_step. split; [done|]. intros i b Hi. by apply not_elem_of_nil in Hi.
  - assert (i ∈ lru s) as Hi by set_solver. destruct (lru_block s i Hsh Hi) as [b Hb]. unfold the_block. wp_step. exists b. split; [done|].
    destruct (Z.eqb_spec (ref_count b) 0) as [Hr|Hr].
    + destruct (is_dirty b) eqn:Hd.
      * wp_step. eapply wp_mono; [by apply (flush_block_wp v (lru s) s i b)|]. intros r s1 (-> & Hs1 & Hf). cbn [Z.eqb negb].
        pose proof (flushed_numbers _ _ _ Hf) as Hnum. pose proof (flushed_step _ _ _ Hf) as Hst. destruct Hf as [Hbl Hsz _ Hlru Hm].
        eapply wp_mono; [apply (take_clean v s s1 i (set_dirty false b)); unfold cache_sees; rewrite ?Hlru, ?Hbl; try done|by intros o s' [-> HL]].
        by rewrite list_lookup_alter_eq, Hb.
      * wp_step. cbn [Z.eqb negb]. eapply wp_mono; [apply (take_clean v s s i b); try done; apply same_numbers_refl|by intros o s' [-> HL]].
    + eapply wp_mono; [apply IH; set_solver|]. intros [j|] s' Hj; [done|]. destruct Hj as [-> Hj]. split; [done|].
      intros j b' Hjl Hb'. apply elem_of_cons in Hjl as [->|Hjl]; [congruence|by apply (Hj j)].
Qed.

(** If every block is held, the clients hold as many. *)
Lemma all_held v s : cache_sees v s -> free s = [] -> (forall i b, i ∈ lru s -> blk s i = Some b -> ref_count b ≠ 0) ->
  (nblocks s <= size (pinned v))%nat.
Proof.
  intros Hs Hf Hr. pose proof (sh_lists _ (se_shape _ _ _ Hs)) as Hlists. rewrite Hf in Hlists. cbn in Hlists.
  assert (forall i b, blk s i = Some b -> i ∈ lru s) as Hin.
  { intros i b Hb. rewrite Hlists. apply elem_of_seq. apply lookup_lt_Some in Hb. lia. }
  assert (NoDup (blocknum <$> blocks (cs_cache s))) as Hnd.
  { apply NoDup_alt. intros i j n Hi Hj. rewrite list_lookup_fmap in Hi, Hj. apply fmap_Some in Hi as (b & Hb & ->), Hj as (b' & Hb' & En).
    apply (se_num _ _ _ Hs i j (blocknum b)); [by eapply Hin|by eapply Hin|by exists b|by exists b']. }
  rewrite <- (length_fmap blocknum), <- (size_list_to_set (C := gset Z) _ Hnd), <- size_dom.
  apply subseteq_size. intros n Hn. apply elem_of_list_to_set, list_elem_of_fmap in Hn as (b & -> & Hb).
  apply list_elem_of_lookup in Hb as [i Hb]. destruct (se_block _ _ _ Hs i b (Hin i b Hb) Hb) as [_ _ _ Br].
  apply elem_of_dom. destruct (pinned v !! blocknum b); [done|]. by apply (Hr i b (Hin i b Hb)) in Br.
Qed.

(** What does not count may change. *)
Lemma sees_elsewhere v L s s' : sees v L s -> shape s' -> cs_io s' = cs_io s -> bsz s' = bsz s -> (forall j, j ∈ L -> blk s' j = blk s j) ->
  L ⊆ lru s' -> sees v L s'.
Proof.
  intros [] Hsh Hio Hsz Hbl HL. assert (forall j n, j ∈ L -> holds_block s' n j <-> holds_block s n j) as Hh.
  { intros j n Hj. unfold holds_block. by rewrite Hbl. }
  split; unfold on_device in *; rewrite ?Hio, ?Hsz; try done.
  - intros i j n Hi Hj. rewrite !Hh by done. by apply se_num0.
  - intros i b Hi Hb. rewrite Hbl in Hb by done. destruct (se_block0 i b Hi Hb) as [Bo Bm Bc Br]. split; unfold on_device in *; by rewrite ?Hio, ?Hsz.
  - intros n Hn Hx. apply se_disk0; [done|]. intros i Hi. rewrite <- Hh by done. by apply Hx.
  - intros n c p Hp. destruct (se_pinned0 n c p Hp) as [Hc (i & Hi & Hb)]. split; [done|]. exists i. by rewrite Hh.
Qed.

Lemma alloc_block_wp v s : cache_sees v s ->
  wp alloc_block s (fun o s' =>
    match o with
    | Some i => exists L, allocated v i L s s'
    | None => s' = s /\ (nblocks s <= size (pinned v))%nat
    end).
Proof.
  intros Hs. pose proof (se_shape _ _ _ Hs) as Hsh. unfold alloc_block. wp_step. destruct (free s) as [|i l] eqn:Hf.
  - eapply wp_mono; [by apply (alloc_walk_wp v s Hs (lru s))|]. intros [i|] s'; [done|]. intros [-> Hr]. split; [done|]. by apply (all_held v s).
  - pose proof (lists_nodup s Hsh) as Hnd. rewrite Hf in Hnd. cbn in Hnd. apply NoDup_cons in Hnd as [Hi Hnd].
    destruct (listed_block s i Hsh ltac:(rewrite Hf; by left)) as [b Hb].
    assert (is_dirty b = false) as Hd by (apply (sh_free _ Hsh i b); [rewrite Hf; by left|done]).
    assert (i ∉ lru s) as Hil by set_solver.
    assert (forall j, j ≠ i -> alter (set_ref 0) i (blocks (cs_cache s)) !! j = blk s j) as Hne by (intros j Hj; by rewrite list_lookup_alter_ne).
    unfold upd. wp_step. exists (lru s). split; cbn; try done.
    + apply Permutation_app_comm.
    + apply (sees_elsewhere v (lru s) s); cbn; try done; [|intros j Hj; apply Hne; congruence|set_solver].
      apply (shape_step s _ Hsh); cbn; try done; [by apply ptrs_alter|rewrite Hf; solve_Permutation| |apply Hsh].
      intros j b' Hj Hb'. rewrite Hne in Hb' by set_solver. apply (sh_free _ Hsh j b'); [rewrite Hf; by right|done].
    + exists (set_ref 0 b). by rewrite list_lookup_alter_eq, Hb.
    + intros n Hx j Hj (b' & Hb' & En). cbn in Hb'. rewrite Hne in Hb' by congruence. apply (Hx j Hj). by exists b'.
    + split; cbn; [done|by apply ptrs_alter|apply changed_refl].
Qed.

(** ** One block changes *)

Lemma alter_sees v v' L s s' i b f : sees v L s -> (forall j, j ∈ lru s <-> j = i \/ j ∈ L) -> blk s i = Some b ->
  blocks (cs_cache s') = alter f i (blocks (cs_cache s)) -> (forall b, ptr (f b) = ptr b) ->
  bsz s' = bsz s -> free s' = free s -> lru s' = lru s -> io_ready (cs_io s') -> disk_of s' = disk_of s ->
  changed (fun a => io_stack a \/ within (ptr b) (bsz s) a) (memory s) (memory s') ->
  (i ∈ L -> blocknum (f b) = blocknum b) -> (i ∉ L -> forall j, j ∈ L -> ~ holds_block s (blocknum (f b)) j) ->
  block_ok v' s' (f b) -> lenZ (contents v' (blocknum (f b))) = bsz s /\ Forall byte (contents v' (blocknum (f b))) ->
  (forall n, n ≠ blocknum (f b) -> contents v' n = contents v n /\ pinned v' !! n = pinned v !! n /\ (n ∈ unmarked v' <-> n ∈ unmarked v)) ->
  (forall c p, pinned v' !! blocknum (f b) = Some (c, p) -> 0 < c) ->
  (blocknum (f b) ∈ unmarked v' -> blocknum (f b) ∈ dom (pinned v')) -> cache_sees v' s' /\ stepped s s'.
Proof.
  intros Hs HL Hb Hbl Hptr Hsz Hfr Hlru Hio Hd Hm Hin Hout Hok Hlen Hv Hpos Hun. pose proof (se_shape _ _ _ Hs) as Hsh.
  assert (i ∈ lru s) as Hi by (apply HL; by left). split.
  - unfold cache_sees. rewrite Hlru. apply (block_update v v' L (lru s) s s' i (f b)); try done.
    + apply (shape_step s s' Hsh); try done; [rewrite Hbl; by apply ptrs_alter|by rewrite Hfr, Hlru| |intros a; by apply Hm].
      intros j b' Hj Hb'. rewrite Hfr in Hj. rewrite Hbl, list_lookup_alter_ne in Hb'; [by apply (sh_free _ Hsh j)|].
      intros <-. pose proof (lists_nodup s Hsh) as Hnd. apply NoDup_app in Hnd as (_ & Hnd & _). by apply (Hnd i).
    + by rewrite Hlru.
    + by rewrite Hbl, list_lookup_alter_eq, Hb.
    + intros j Hj. by rewrite Hbl, list_lookup_alter_ne.
    + intros HiL. exists b. by rewrite Hin.
    + intros j b' a Hj Hji Hb' Ha. apply Hm. intros [Hx|Hx].
      * by apply (sh_stack _ Hsh j b' a).
      * by apply (sh_apart _ Hsh j i b' b a).
    + intros n a _ _. by rewrite Hd.
  - split; [done|rewrite Hbl; by apply ptrs_alter|]. eapply changed_weaken; [exact Hm|]. intros a [Ha|Ha]; [by left|right]. by exists i, b.
Qed.

(** ** A block in the cache *)

(** The cache has a block for number [n], or one that nobody holds. *)
Definition has_room (v : view) s (n : Z) : Prop := n ∈ dom (pinned v) \/ (size (pinned v) < nblocks s)%nat.

Lemma reordered_step s s' : reordered s s' -> stepped s s'.
Proof. intros [Hio Hbl Hsz _ _]. split; [done|by rewrite Hbl|by rewrite Hio]. Qed.

Lemma bytes_same m p (l l' : list Z) : bytes_at m p l -> bytes_at m p l' -> length l = length l' -> l = l'.
Proof.
  intros Hl Hl' E. apply list_eq_same_length with (length l); [done|done|]. intros i x y _ Hx Hy.
  pose proof (Hl i x Hx) as E1. rewrite (Hl' i y Hy) in E1. by injection E1.
Qed.

(** Nobody holds a block that is not cached. *)
Lemma not_pinned v L s n : sees v L s -> (forall j, j ∈ L -> ~ holds_block s n j) -> pinned v !! n = None /\ n ∉ unmarked v.
Proof.
  intros Hs Hx. assert (pinned v !! n = None) as Hp.
  { destruct (pinned v !! n) as [[c p]|] eqn:E; [|done]. apply (se_pinned _ _ _ Hs) in E as (_ & j & Hj & Hh). by apply Hx in Hh. }
  split; [done|]. intros Hu. apply (se_unmarked _ _ _ Hs), elem_of_dom in Hu. rewrite Hp in Hu. by destruct Hu.
Qed.

Lemma allocated_elem v i L s s' : allocated v i L s s' -> forall j, j ∈ lru s' <-> j = i \/ j ∈ L.
Proof. intros Ha j. by rewrite (al_lru _ _ _ _ _ Ha), elem_of_cons. Qed.

Lemma allocated_fresh v i L s s' : allocated v i L s s' -> i ∉ L.
Proof.
  intros Ha. pose proof (lru_nodup s' (se_shape _ _ _ (al_sees _ _ _ _ _ Ha))) as Hnd. rewrite (al_lru _ _ _ _ _ Ha) in Hnd.
  by apply NoDup_cons in Hnd as [? _].
Qed.

(** The block taken gets the number [n] and the contents of that block. *)
Lemma fill_block_wp v i L s s1 n (Q : nat -> cstate K -> Prop) : allocated v i L s s1 -> on_device s n ->
  (forall j, j ∈ lru s -> ~ holds_block s n j) ->
  (forall s' b, cache_sees v s' -> stepped s s' -> i ∈ lru s' -> blk s' i = Some b -> blocknum b = n -> Q i s') ->
  wp (_ ← upd (with_block i (set_blocknum n)); b ← the_block i; c ← gets cs_cache;
      err ← on_io (bio_read (ptr b) (n * cache_block_size c) (cache_block_size c));
      if err <? 0 then fault else _ ← upd (with_stats count_read); mret i) s1 Q.
Proof.
  intros Ha Hn Hfree HQ. pose proof (al_sees _ _ _ _ _ Ha) as Hs. pose proof (se_shape _ _ _ Hs) as Hsh.
  pose proof (al_old _ _ _ _ _ Ha n Hfree) as Hold. destruct (al_block _ _ _ _ _ Ha) as (b & Hb & Hr & Hd).
  pose proof (sh_size _ Hsh) as Hsz. assert (on_device s1 n) as Hn1 by (unfold on_device; rewrite (st_size _ _ (al_step _ _ _ _ _ Ha)); exact Hn).
  destruct (se_len _ _ _ Hs n Hn1) as [Hlen Hbytes]. destruct (not_pinned v L s1 n Hs Hold) as [Hpin Hun].
  unfold upd, the_block. wp_step. exists (set_blocknum n b). cbn. split; [by rewrite list_lookup_alter_eq, Hb|]. wp_step. apply wp_on_io. cbn.
  eapply wp_mono; [apply bio_read_ok; [apply Hsh|unfold on_device in Hn1; nia..|by eapply sh_room|intros a; by apply (sh_stack s1 Hsh i b)]|].
  intros r x (-> & Hio & Hdisk & Hm & l & El & _ & Hl & Hml). rewrite (proj2 (Z.ltb_ge _ _)) by lia. wp_step.
  assert (l = contents v n) as -> by (eapply bytes_same; [exact Hl|by apply (se_disk _ _ _ Hs)|lia]).
  match goal with |- Q i ?s2 => assert (cache_sees v s2 /\ stepped s1 s2) as [Hs' Hst] end.
  { apply (alter_sees v v L s1 _ i b (set_blocknum n) Hs (allocated_elem _ _ _ _ _ Ha) Hb); cbn; try done.
    - eapply changed_weaken; [exact Hm|]. intros a [?|?]; [by right|by left].
    - intros HiL. by apply (allocated_fresh _ _ _ _ _ Ha) in HiL.
    - split; cbn; rewrite ?Hdisk, ?Hpin; done.
    - intros c p Hx. by rewrite Hpin in Hx. }
  apply (HQ _ (set_blocknum n b)); try done.
  - eapply stepped_trans; [apply (al_step _ _ _ _ _ Ha)|exact Hst].
  - cbn. apply (allocated_elem _ _ _ _ _ Ha). by left.
  - cbn. by rewrite list_lookup_alter_eq, Hb.
Qed.

Lemma find_or_fill_wp v s n : cache_sees v s -> on_device s n -> has_room v s n ->
  wp (find_or_fill_block n) s (fun i s' => cache_sees v s' /\ stepped s s' /\ i ∈ lru s' /\ exists b, blk s' i = Some b /\ blocknum b = n).
Proof.
  intros Hs Hn Hroom. unfold find_or_fill_block. wp_step. eapply wp_mono; [by apply (find_block_wp v)|].
  intros [i|] s1 (Hr & Hs1 & Hf); pose proof (reordered_step _ _ Hr) as Hst.
  - destruct Hf as [Hi (b & Hb & En)]. unfold the_block. wp_step. exists b. split; [done|]. wp_step. rewrite En, Z.eqb_refl. split; [done|].
    wp_step. split; [done|]. split; [done|]. split; [done|]. by exists b.
  - wp_step. eapply wp_mono; [by apply (alloc_block_wp v)|]. intros [i|] s2.
    + intros [L Ha]. wp_step. exists i. split; [done|]. assert (on_device s1 n) as Hn1 by (unfold on_device; by rewrite (st_size _ _ Hst)).
      pose proof (fill_block_wp v i L s1 s2 n) as Hfill. revert Hfill. wp_step. intros Hfill.
      apply Hfill; [done|done|exact Hf|]. intros s' b Hs' Hst' Hi Hb En. unfold the_block. wp_step. exists b. split; [done|]. wp_step.
      rewrite En, Z.eqb_refl. split; [done|]. wp_step. split; [done|]. split; [by eapply stepped_trans|]. split; [done|]. by exists b.
    + intros [-> Hall]. exfalso. rewrite (stepped_blocks _ _ Hst) in Hall. destruct Hroom as [Hp|Hp]; [|lia].
      apply elem_of_dom in Hp as [[c p] Hp]. destruct (se_pinned _ _ _ Hs1 n c p Hp) as (_ & j & Hj & Hh). by apply (Hf j).
Qed.

(** ** The operations *)

(** Memory that is not the cache's does not matter. *)
Lemma sees_memory v L s m P : sees v L s -> changed P (memory s) m -> (forall a, P a -> ~ cache_mem s a) ->
  sees v L (MkCs (cs_cache s) (MkIo m (io_dev (cs_io s)))).
Proof.
  intros [] Hm Hdis. split; try done.
  - destruct se_shape0. split; cbn; try done.
    + intros i b Hb. eapply changed_room; [exact Hm|]. by eapply sh_room0.
    + destruct sh_io0 as [Hok Hst]. split; [done|]. intros a Ha. apply Hm. by apply Hst.
  - intros i b Hi Hb. destruct (se_block0 i b Hi Hb) as [Bo Bm Bc Br]. split; try done. cbn.
    eapply changed_bytes; [exact Hm|exact Bm|]. intros a Ha Hp. apply (Hdis a Hp). exists i, b. split; [done|].
    by rewrite (proj1 (se_len0 _ Bo)) in Ha.
Qed.

Lemma stepped_cache_mem s s' a : stepped s s' -> cache_mem s' a -> cache_mem s a.
Proof.
  intros Hst (i & b & Hb & Ha). destruct (same_ptrs s s' i b Hst Hb) as (b0 & Hb0 & Ep). exists i, b0. by rewrite <- Ep, <- (st_size _ _ Hst).
Qed.

Lemma read_block_wp v s buf n : cache_sees v s -> on_device s n -> has_room v s n -> room (memory s) buf (bsz s) ->
  (forall a, within buf (bsz s) a -> ~ cache_mem s a) ->
  wp (bcache_read_block buf n) s (fun r s' => r = 0 /\ cache_sees v s' /\ bytes_at (memory s') buf (contents v n) /\
    bsz s' = bsz s /\ ptr <$> blocks (cs_cache s') = ptr <$> blocks (cs_cache s) /\
    changed (fun a => within buf (bsz s) a \/ io_stack a \/ cache_mem s a) (memory s) (memory s')).
Proof.
  intros Hs Hn Hroom Hbuf Hdis. unfold bcache_read_block. wp_step. eapply wp_mono; [by apply (find_or_fill_wp v)|].
  intros i s1 (Hs1 & Hst & Hi & b & Hb & En). pose proof (se_shape _ _ _ Hs1) as Hsh. destruct (se_block _ _ _ Hs1 i b Hi Hb) as [Bo Bm Bc Br].
  rewrite En in *. destruct (se_len _ _ _ Hs1 n Bo) as [Hlen Hbytes]. pose proof (st_size _ _ Hst) as Hsz. pose proof (sh_size _ Hsh) as Hpos.
  assert (room (memory s1) buf (bsz s)) as Hbuf1 by (eapply changed_room; [by apply st_mem|done]).
  assert (forall a, within (ptr b) (bsz s) a -> ~ within buf (bsz s) a) as Hapart.
  { intros a Ha Hx. apply (Hdis a Hx), (stepped_cache_mem s s1 a Hst). exists i, b. by rewrite Hsz. }
  assert (changed (within buf (bsz s)) (memory s1) (put (memory s1) buf (contents v n))) as Hm.
  { apply put_changed_at; [eapply room_mapped; [exact Hbuf1|lia]|lia|lia]. }
  assert (cache_sees v (MkCs (cs_cache s1) (MkIo (put (memory s1) buf (contents v n)) (io_dev (cs_io s1))))) as Hs2.
  { apply (sees_memory v (lru s1) s1 _ _ Hs1 Hm). intros a Ha Hx. apply (Hdis a Ha). by eapply stepped_cache_mem. }
  pose proof (st_mem _ _ Hst) as Hm1. unfold the_block. wp_step. exists b. split; [done|]. wp_step. apply wp_on_io.
  destruct (cs_io s1) as [m1 k1] eqn:Eio. cbn [io_mem io_dev] in *. eapply (memcpy_io _ _ _ _ (contents v n)); try done; [by rewrite Hsz|lia| |].
  { pose proof (Hapart (ptr b)) as H1. pose proof (Hapart buf) as H2. unfold within in *. lia. }
  wp_step. split; [done|]. split; [exact Hs2|]. split; [apply put_bytes_at|]. split; [done|]. split; [exact (st_ptrs _ _ Hst)|]. cbn.
  eapply changed_trans; [eapply changed_weaken; [exact Hm1|]; intros a Ha; by right|].
  eapply changed_weaken; [exact Hm|]. intros a Ha. by left.
Qed.

(** A cached block changes, and keeps its number. *)
Lemma alter_cached v v' s s' i b f : cache_sees v s -> i ∈ lru s -> blk s i = Some b ->
  blocks (cs_cache s') = alter f i (blocks (cs_cache s)) -> (forall b, ptr (f b) = ptr b) -> blocknum (f b) = blocknum b ->
  bsz s' = bsz s -> free s' = free s -> lru s' = lru s -> io_ready (cs_io s') -> disk_of s' = disk_of s ->
  changed (fun a => io_stack a \/ within (ptr b) (bsz s) a) (memory s) (memory s') -> block_ok v' s' (f b) ->
  lenZ (contents v' (blocknum b)) = bsz s /\ Forall byte (contents v' (blocknum b)) ->
  (forall n, n ≠ blocknum b -> contents v' n = contents v n /\ pinned v' !! n = pinned v !! n /\ (n ∈ unmarked v' <-> n ∈ unmarked v)) ->
  (forall c p, pinned v' !! blocknum b = Some (c, p) -> 0 < c) ->
  (blocknum b ∈ unmarked v' -> blocknum b ∈ dom (pinned v')) -> cache_sees v' s' /\ stepped s s'.
Proof.
  intros Hs Hi Hb Hbl Hptr En. rewrite <- En. intros. eapply (alter_sees v v' (lru s) s s' i b f); try done.
  intros j. split; [by right|]. by intros [->|?].
Qed.

Lemma stepped_after (v : view) s s1 s2 : stepped s s1 -> cache_sees v s2 /\ stepped s1 s2 -> cache_sees v s2 /\ stepped s s2.
Proof. intros Hst [Hs Hst']. split; [done|]. by eapply stepped_trans. Qed.

(** A block that is cached has what its number says. *)
Lemma block_refs v s i b : cache_sees v s -> i ∈ lru s -> blk s i = Some b ->
  ref_count b = references v (blocknum b) /\ 0 <= references v (blocknum b) /\
  forall c p, pinned v !! blocknum b = Some (c, p) -> ptr b = p.
Proof.
  intros Hs Hi Hb. destruct (se_block _ _ _ Hs i b Hi Hb) as [_ _ _ Br]. unfold references.
  destruct (pinned v !! blocknum b) as [[c p]|] eqn:E; [|done]. destruct Br as [-> ->].
  destruct (se_pinned _ _ _ Hs _ _ _ E) as [Hc _]. split; [done|]. split; [lia|]. by intros c' p' [= _ ->].
Qed.

Lemma get_block_wp v s n : cache_sees v s -> on_device s n -> has_room v s n -> references v n + 1 < 2 ^ 31 ->
  wp (bcache_get_block n) s (fun r s' => r.1 = 0 /\ (forall c p, pinned v !! n = Some (c, p) -> r.2 = p) /\
    cache_sees (pin n r.2 v) s' /\ stepped s s').
Proof.
  intros Hs Hn Hroom Hlt. unfold bcache_get_block. wp_step. eapply wp_mono; [by apply (find_or_fill_wp v)|].
  intros i s1 (Hs1 & Hst & Hi & b & Hb & En). unfold the_block, upd. wp_step. exists b. split; [done|]. wp_step. cbn [fst snd].
  destruct (block_refs v s1 i b Hs1 Hi Hb) as (Hr & Hpos & Hp).
  destruct (se_block _ _ _ Hs1 i b Hi Hb) as [Bo Bm Bc _]. rewrite En in *. split; [done|]. split; [exact Hp|].
  eapply stepped_after; [exact Hst|]. apply (alter_cached v _ s1 _ i b (set_ref (s32 (ref_count b + 1))) Hs1 Hi); cbn; rewrite ?En; try done.
  - by apply (se_shape _ _ _ Hs1).
  - split; cbn; rewrite ?En; try done. rewrite lookup_insert_eq, Hr. split; [|done]. apply sw_small; lia.
  - by apply (se_len _ _ _ Hs1).
  - intros m Hm. by rewrite lookup_insert_ne.
  - intros c p. rewrite lookup_insert_eq. intros [= <- _]. lia.
  - intros Hu. apply elem_of_dom. rewrite lookup_insert_eq. by eexists.
Qed.

Lemma pinned_cached v s n c p : cache_sees v s -> pinned v !! n = Some (c, p) -> forall i, i ∈ lru s -> holds_block s n i ->
  exists b, blk s i = Some b /\ blocknum b = n /\ ref_count b = c /\ ptr b = p /\ 0 < c.
Proof.
  intros Hs Hp i Hi (b & Hb & En). exists b. destruct (block_refs v s i b Hs Hi Hb) as (Hr & _ & Hq). unfold references in Hr. rewrite En, Hp in Hr, Hq.
  destruct (se_pinned _ _ _ Hs _ _ _ Hp) as [Hc _]. by erewrite Hq.
Qed.

Lemma put_block_wp v s n c p : cache_sees v s -> pinned v !! n = Some (c, p) -> c < 2 ^ 31 -> (n ∈ unmarked v -> 1 < c) ->
  wp (bcache_put_block n) s (fun r s' => r = 0 /\ cache_sees (unpin n v) s' /\ stepped s s').
Proof.
  intros Hs Hp Hlt Hlast. unfold bcache_put_block. wp_step. eapply wp_mono; [by apply (find_block_wp v)|].
  intros o s1 (Hr & Hs1 & Ho). pose proof (reordered_step _ _ Hr) as Hst. wp_step. destruct o as [i|]; cycle 1.
  { exfalso. destruct (se_pinned _ _ _ Hs1 _ _ _ Hp) as (_ & j & Hj & Hh). by apply (Ho j). }
  exists i. split; [done|]. destruct Ho as [Hi Hh]. destruct (pinned_cached v s1 n c p Hs1 Hp i Hi Hh) as (b & Hb & En & Er & Ep & Hc).
  unfold the_block, upd. wp_step. exists b. split; [done|]. wp_step. split; [apply Z.ltb_lt; lia|]. wp_step. split; [done|].
  eapply stepped_after; [exact Hst|]. destruct (se_block _ _ _ Hs1 i b Hi Hb) as [Bo Bm Bc _].
  apply (alter_cached v _ s1 _ i b (set_ref (s32 (ref_count b - 1))) Hs1 Hi); cbn; rewrite ?En, ?Hp in *; try done.
  - by apply (se_shape _ _ _ Hs1).
  - split; cbn; rewrite ?En, ?Hp; try done. rewrite Er, sw_small by lia. case_decide; [rewrite lookup_delete_eq; lia|].
    rewrite lookup_insert_eq. done.
  - by apply (se_len _ _ _ Hs1).
  - intros m Hm. split; [done|]. split; [|done]. case_decide; [by rewrite lookup_delete_ne|by rewrite lookup_insert_ne].
  - intros c' p'. case_decide; [by rewrite lookup_delete_eq|]. rewrite lookup_insert_eq. intros [= <- _]. lia.
  - intros Hu. apply Hlast in Hu. rewrite decide_False by lia. apply elem_of_dom. rewrite lookup_insert_eq. by eexists.
Qed.

Lemma mark_block_dirty_wp v s n : cache_sees v s ->
  wp (bcache_mark_block_dirty n) s (fun r s' => (cache_sees (mark n v) s' /\ stepped s s') /\ (r = 0 \/ r = -1 /\ pinned v !! n = None)).
Proof.
  intros Hs. unfold bcache_mark_block_dirty. wp_step. eapply wp_mono; [by apply (find_block_wp v)|].
  intros o s1 (Hr & Hs1 & Ho). pose proof (reordered_step _ _ Hr) as Hst. destruct o as [i|].
  - destruct Ho as [Hi (b & Hb & En)]. unfold upd. wp_step. split; [|by left].
    eapply stepped_after; [exact Hst|]. destruct (se_block _ _ _ Hs1 i b Hi Hb) as [Bo Bm Bc Br].
    apply (alter_cached v _ s1 _ i b (set_dirty true) Hs1 Hi); cbn; rewrite ?En in *; try done.
    + by apply (se_shape _ _ _ Hs1).
    + split; cbn; rewrite ?En; done.
    + by apply (se_len _ _ _ Hs1).
    + intros m Hm. set_solver.
    + intros c p Hp. by apply (se_pinned _ _ _ Hs1) in Hp as [? _].
    + set_solver.
  - wp_step. destruct (not_pinned v (lru s1) s1 n Hs1 Ho) as [Hp Hu]. split; [|by right]. split; [|done].
    destruct Hs1. split; try done; cbn.
    + intros i b Hi Hb. destruct (se_block0 i b Hi Hb) as [Bo Bm Bc Br]. split; try done. cbn. intros Hd Hx. apply Bc; set_solver.
    + set_solver.
Qed.

Definition zeros s : list Z := replicate (Z.to_nat (bsz s)) 0.

(** The last step of [bcache_zero_block], on the block found or taken. *)
Lemma zero_wp v L s s1 i b n (Q : Z -> cstate K -> Prop) : sees v L s1 -> stepped s s1 -> (forall j, j ∈ lru s1 <-> j = i \/ j ∈ L) ->
  blk s1 i = Some b -> blocknum b = n -> (i ∉ L -> (forall j, j ∈ L -> ~ holds_block s1 n j) /\ ref_count b = 0) -> on_device s1 n ->
  (forall s', stepped s s' -> cache_sees (mark n (set_contents n (zeros s) v)) s' -> Q 0 s') ->
  wp (b ← the_block i; c ← gets cs_cache; _ ← on_io (io_on_mem (CString.memset (ptr b) 0 (cache_block_size c)));
      _ ← upd (with_block i (set_dirty true)); mret 0) s1 Q.
Proof.
  intros Hs Hst HL Hb En Hcase Hn HQ. pose proof (se_shape _ _ _ Hs) as Hsh. pose proof (sh_size _ Hsh) as Hsz.
  pose proof (sh_room _ Hsh i b Hb) as Hroom. assert (mapped (memory s1) (ptr b) (Z.to_nat (bsz s1))) as Hm by (eapply room_mapped; [exact Hroom|lia]).
  unfold the_block, upd. wp_step. exists b. split; [done|]. wp_step.
  pose proof (memset_wp (memory s1) (ptr b) 0 _ Hm) as Hset. rewrite Z2Nat.id in Hset by lia.
  apply wp_on_io, wp_io_mem. eapply wp_mono; [exact Hset|]. intros _ m' [_ ->]. wp_step.
  assert (changed (within (ptr b) (bsz s1)) (memory s1) (put (memory s1) (ptr b) (replicate (Z.to_nat (bsz s1)) 0))) as Hch.
  { apply put_changed_at; rewrite ?length_replicate; [done|lia|lia]. }
  assert (zeros s = replicate (Z.to_nat (bsz s1)) 0) as Hz by (unfold zeros; by rewrite (st_size _ _ Hst)).
  match goal with |- Q 0 ?s2 => assert (cache_sees (mark n (set_contents n (zeros s) v)) s2 /\ stepped s1 s2) as [Hs2 Hst2] end;
    [|apply HQ; [by eapply stepped_trans|done]].
  apply (alter_sees v _ L s1 _ i b (set_dirty true) Hs HL Hb); cbn; rewrite ?En; try done.
  - destruct (sh_io _ Hsh) as [Hok Hstk]. split; [done|]. intros a Ha. apply Hch. by apply Hstk.
  - eapply changed_weaken; [exact Hch|]. intros a Ha. by right.
  - intros Hi. by apply Hcase.
  - split; cbn; rewrite ?En; try done.
    + rewrite decide_True, Hz by done. apply put_bytes_at.
    + destruct (decide (i ∈ L)) as [Hi|Hi]; [rewrite <- En; by apply (se_block _ _ _ Hs i b)|].
      destruct (Hcase Hi) as [Hf Hr]. by rewrite (proj1 (not_pinned v L s1 n Hs Hf)).
  - rewrite decide_True, Hz, length_replicate by done. split; [lia|]. apply Forall_replicate. unfold byte. lia.
  - intros m Hm'. rewrite decide_False by done. set_solver.
  - intros c p Hp. by apply (se_pinned _ _ _ Hs) in Hp as [? _].
  - set_solver.
Qed.

(** A block that does not count gets a number. *)
Lemma renumber v L s i n b : sees v L s -> i ∉ L -> i ∈ lru s -> blk s i = Some b ->
  let s' := MkCs (with_block i (set_blocknum n) (cs_cache s)) (cs_io s) in
  sees v L s' /\ stepped s s' /\ blk s' i = Some (set_blocknum n b) /\ forall m j, j ∈ L -> holds_block s' m j <-> holds_block s m j.
Proof.
  intros Hs HiL Hi Hb s'. pose proof (se_shape _ _ _ Hs) as Hsh.
  assert (forall j, j ≠ i -> blk s' j = blk s j) as Hne by (intros j Hj; cbn; by rewrite list_lookup_alter_ne).
  assert (stepped s s') as Hst by (split; cbn; [done|by apply ptrs_alter|apply changed_refl]). split; [|split; [done|split]].
  - apply (sees_elsewhere v L s); try done; [|intros j Hj; apply Hne; congruence|apply Hs].
    apply (shape_step s s' Hsh); try done; [by apply (st_ptrs _ _ Hst)| |apply Hsh].
    intros j b' Hj Hb'. rewrite Hne in Hb'; [by apply (sh_free _ Hsh j)|]. intros ->.
    pose proof (lists_nodup s Hsh) as Hnd. apply NoDup_app in Hnd as (_ & Hnd & _). by apply (Hnd i).
  - cbn. by rewrite list_lookup_alter_eq, Hb.
  - intros m j Hj. unfold holds_block. rewrite Hne by congruence. done.
Qed.

Lemma zero_block_wp v s n : cache_sees v s -> on_device s n ->
  wp (bcache_zero_block n) s (fun r s' => stepped s s' /\
    (r = 0 /\ cache_sees (mark n (set_contents n (zeros s) v)) s' \/
     r = -1 /\ cache_sees v s' /\ pinned v !! n = None /\ (nblocks s <= size (pinned v))%nat)).
Proof.
  intros Hs Hn. unfold bcache_zero_block. wp_step. eapply wp_mono; [by apply (find_block_wp v)|].
  intros o s1 (Hr & Hs1 & Ho). pose proof (reordered_step _ _ Hr) as Hst.
  assert (on_device s1 n) as Hn1 by (unfold on_device; by rewrite (st_size _ _ Hst)). destruct o as [i|].
  - destruct Ho as [Hi (b & Hb & En)]. match goal with |- wp _ _ ?Q => pose proof (zero_wp v (lru s1) s s1 i b n Q Hs1 Hst) as Hz end.
    revert Hz. wp_step. intros Hz. apply Hz; try done.
    + intros j. split; [by right|]. by intros [->|?].
    + intros s' Hst' Hs'. split; [done|]. by left.
  - wp_step. eapply wp_mono; [by apply (alloc_block_wp v)|]. intros [i|] s2.
    + intros [L Ha]. destruct (al_block _ _ _ _ _ Ha) as (b & Hb & Hr0 & _). pose proof (allocated_elem _ _ _ _ _ Ha) as HL.
      pose proof (al_step _ _ _ _ _ Ha) as Hst2. unfold upd at 1. rewrite !wp_bind, wp_modify, wp_ret.
      destruct (renumber v L s2 i n b (al_sees _ _ _ _ _ Ha) (allocated_fresh _ _ _ _ _ Ha) ltac:(apply HL; by left) Hb) as (Hs3 & Hst3 & Hb3 & Hh3).
      apply (zero_wp v L s _ i (set_blocknum n b) n); try done.
      * by do 2 (eapply stepped_trans; [|done]).
      * intros _. split; [|done]. intros j Hj. rewrite Hh3 by done. by apply (al_old _ _ _ _ _ Ha n Ho).
      * unfold on_device. by rewrite (st_size _ _ Hst3), (st_size _ _ Hst2).
      * intros s' Hst' Hs'. split; [done|]. by left.
    + intros [-> Hall]. wp_step. split; [done|]. right. rewrite (stepped_blocks _ _ Hst) in Hall. destruct (not_pinned v (lru s1) s1 n Hs1 Ho). done.
Qed.

(** Each block of the list is clean after its turn and stays so. *)
Lemma flush_walk_wp v l : forall s, cache_sees v s -> l ⊆ lru s ->
  wp (flush_walk l) s (fun r s' => r = 0 /\ cache_sees v s' /\ stepped s s' /\ lru s' = lru s /\
    (forall i b', blk s' i = Some b' -> is_dirty b' = true -> i ∉ l /\ exists b, blk s i = Some b /\ is_dirty b = true)).
Proof.
  induction l as [|i l IH]; intros s Hs Hl; cbn [flush_walk].
  - wp_step. split; [done|]. split; [done|]. split; [apply stepped_refl|]. split; [done|]. intros i b Hb Hd. split; [apply not_elem_of_nil|by exists b].
  - assert (i ∈ lru s) as Hi by (apply Hl; by left). assert (l ⊆ lru s) as Hl' by (intros j Hj; apply Hl; by right).
    destruct (lru_block s i (se_shape _ _ _ Hs) Hi) as [b Hb]. unfold the_block. wp_step.
    exists b. split; [done|]. destruct (is_dirty b) eqn:Hd.
    + wp_step. eapply wp_mono; [by apply (flush_block_wp v (lru s) s i b)|]. intros r s1 (-> & Hs1 & Hf). cbn [Z.eqb negb].
      pose proof (flushed_step _ _ _ Hf) as Hst. destruct Hf as [Hbl _ _ Hlru _].
      eapply wp_mono; [apply IH; [unfold cache_sees; by rewrite Hlru|by rewrite Hlru]|].
      intros r s2 (-> & Hs2 & Hst2 & Hlru2 & Hd2). split; [done|]. split; [done|]. split; [by eapply stepped_trans|]. split; [congruence|].
      intros j b' Hb' Hdj. destruct (Hd2 j b' Hb' Hdj) as [Hj (b1 & Hb1 & Hd1)]. rewrite Hbl in Hb1. destruct (decide (i = j)) as [<-|Hne].
      * rewrite list_lookup_alter_eq, Hb in Hb1. by injection Hb1 as <-.
      * rewrite list_lookup_alter_ne in Hb1 by done. split; [|by exists b1]. intros Hx. apply elem_of_cons in Hx as [->|Hx]; done.
    + eapply wp_mono; [by apply IH|]. intros r s2 (-> & Hs2 & Hst2 & Hlru2 & Hd2). do 4 (split; [done|]).
      intros j b' Hb' Hdj. destruct (Hd2 j b' Hb' Hdj) as [Hj Hb1]. split; [|done]. intros Hx. apply elem_of_cons in Hx as [->|Hx]; [|done].
      destruct Hb1 as (b1 & Hb1 & Hd1). congruence.
Qed.

#[local] Instance holds_block_dec s n i : Decision (holds_block s n i).
Proof.
  destruct (blk s i) as [b|] eqn:E; [destruct (decide (blocknum b = n))|].
  - left. by exists b.
  - right. intros (b' & E' & Hn). congruence.
  - right. intros (b' & E' & _). congruence.
Defined.

Lemma flush_wp v s : cache_sees v s ->
  wp bcache_flush s (fun r s' => r = 0 /\ cache_sees v s' /\ stepped s s' /\
    forall n, on_device s n -> n ∉ unmarked v -> bytes_at (disk_of s') (n * bsz s) (contents v n)).
Proof.
  intros Hs. unfold bcache_flush. wp_step. eapply wp_mono; [by apply (flush_walk_wp v (lru s))|].
  intros r s' (-> & Hs' & Hst & Hlru & Hd). do 3 (split; [done|]). intros n Hn Hu. rewrite <- (st_size _ _ Hst).
  assert (on_device s' n) as Hn' by (unfold on_device; by rewrite (st_size _ _ Hst)).
  destruct (decide (Exists (holds_block s' n) (lru s'))) as [Hx|Hx].
  - apply Exists_exists in Hx as (i & Hi & b & Hb & <-). destruct (se_block _ _ _ Hs' i b Hi Hb) as [_ _ Bc _]. apply Bc; [|done].
    destruct (is_dirty b) eqn:E; [|done]. destruct (Hd i b Hb E) as [Hni _]. by rewrite Hlru in Hi.
  - apply (se_disk _ _ _ Hs'); [done|]. intros i Hi Hh. apply Hx, Exists_exists. by exists i.
Qed.

(** A client's bytes go to its block. *)
Definition client_store (p : Z) (l : list Z) : M (cstate K) unit :=
  on_io (modify (fun x => MkIo (put (io_mem x) p l) (io_dev x))).

Lemma client_store_wp v s n c p k l : cache_sees v s -> pinned v !! n = Some (c, p) -> 0 <= k -> k + lenZ l <= bsz s -> Forall byte l ->
  wp (client_store (p + k) l) s (fun _ s' =>
    cache_sees (unmark n (set_contents n (overwrite k l (contents v n)) v)) s' /\ stepped s s').
Proof.
  intros Hs Hp Hk Hkl Hl. destruct (se_pinned _ _ _ Hs _ _ _ Hp) as (Hc & i & Hi & Hh).
  destruct (pinned_cached v s n c p Hs Hp i Hi Hh) as (b & Hb & En & Er & Ep & _). pose proof (se_shape _ _ _ Hs) as Hsh.
  destruct (se_block _ _ _ Hs i b Hi Hb) as [Bo Bm Bc Br]. rewrite En, Ep, ?Hp in *. destruct (se_len _ _ _ Hs n Bo) as [Hlen Hbytes].
  assert (room (memory s) p (bsz s)) as Hroom by (rewrite <- Ep; by eapply sh_room).
  assert (changed (within p (bsz s)) (memory s) (put (memory s) (p + k) l)) as Hch.
  { apply put_changed_at; [|lia|lia]. apply (room_mapped _ _ (lenZ l)); [|lia]. eapply room_part; [exact Hroom|lia|lia]. }
  set (l1 := take (Z.to_nat k) (contents v n)). set (l3 := drop (Z.to_nat k + length l) (contents v n)).
  set (l2 := take (length l) (drop (Z.to_nat k) (contents v n))).
  assert (contents v n = l1 ++ l2 ++ l3) as E by (unfold l1, l2, l3; rewrite <- drop_drop, take_drop, take_drop; done).
  assert (lenZ l1 = k /\ length l2 = length l) as [El1 El2] by (unfold l1, l2; rewrite !length_take, length_drop; lia).
  unfold client_store. apply wp_on_io. wp_step.
  apply (alter_cached v _ s _ i b (fun b => b) Hs Hi Hb); cbn; rewrite ?En; try done.
  - by rewrite list_alter_id.
  - destruct (sh_io _ Hsh) as [Hok Hst]. split; [done|]. intros a Ha. apply Hch. by apply Hst.
  - rewrite Ep. eapply changed_weaken; [exact Hch|]. intros a Ha. by right.
  - split; cbn; rewrite ?En, ?Ep, ?Hp, ?decide_True by done; try done; [|set_solver].
    replace (put (memory s) (p + k) l) with (put (memory s) p (overwrite k l (contents v n))); [apply put_bytes_at|].
    transitivity (put (put (memory s) p (l1 ++ l2 ++ l3)) (p + lenZ l1) l); [by rewrite put_replace|]. by rewrite <- E, El1, (put_same _ _ _ Bm).
  - rewrite decide_True by done. unfold overwrite. fold l1 l3. rewrite !length_app. assert (length l3 = (length (contents v n) - (length l1 + length l))%nat) as ->
      by (unfold l3; rewrite length_drop; lia). split; [lia|]. rewrite E, !Forall_app in Hbytes. rewrite !Forall_app. tauto.
  - intros m Hm. rewrite decide_False by done. set_solver.
  - intros c' p' Hq. by apply (se_pinned _ _ _ Hs) in Hq as [? _].
  - intros _. apply elem_of_dom. rewrite Hp. by eexists.
Qed.

(** ** A new cache *)

Definition disk_view (k : K) (size : Z) : view := MkView (fun n => bytes_of (io_disk k) (n * size) (Z.to_nat size)) ∅ ∅.

Lemma create_sees size ptrs x : 0 < size < 2 ^ 31 -> io_ready x -> (forall p, p ∈ ptrs -> room (io_mem x) p size) ->
  (forall p a, p ∈ ptrs -> within p size a -> ~ io_stack a) ->
  (forall i j p q a, i ≠ j -> ptrs !! i = Some p -> ptrs !! j = Some q -> within p size a -> ~ within q size a) ->
  cache_sees (disk_view (io_dev x) size) (MkCs (bcache_create size ptrs) x).
Proof.
  intros Hsz Hio Hroom Hstk Hap. destruct (io_disk_ok _ (proj1 Hio)) as [Hdr Hdb].
  assert (forall i b, blocks (bcache_create size ptrs) !! i = Some b -> ptrs !! i = Some (ptr b) /\ is_dirty b = false) as Hb.
  { intros i b Hi. cbn in Hi. rewrite list_lookup_fmap in Hi. apply fmap_Some in Hi as (p & Hp & ->). done. }
  split; cbn [cs_cache cs_io bcache_create cache_block_size lru_list disk_view contents unmarked pinned]; try done.
  - split; cbn [cs_cache cs_io bcache_create cache_block_size lru_list free_list]; try done.
    + rewrite app_nil_r, reverse_Permutation. cbn. by rewrite length_fmap.
    + intros i b _ Hi. by apply (Hb i).
    + intros i b Hi. apply Hroom. destruct (Hb i b Hi) as [Hp _]. by eapply list_elem_of_lookup_2.
    + intros i b a Hi. apply Hstk. destruct (Hb i b Hi) as [Hp _]. by eapply list_elem_of_lookup_2.
    + intros i j b b' a Hij Hi Hj. eapply Hap; [done|apply (Hb i b Hi)|apply (Hb j b' Hj)].
  - intros i j n Hi. by apply not_elem_of_nil in Hi.
  - intros i b Hi. by apply not_elem_of_nil in Hi.
  - intros n [Hn Hs] _. cbn in Hs. apply bytes_of_at. eapply room_mapped; [|reflexivity]. eapply room_part; [exact Hdr|nia|]. rewrite Z2Nat.id; nia.
  - intros n [Hn Hs]. rewrite bytes_of_length. split; [lia|]. by apply bytes_of_bytes.
Qed.

(** ** Any call *)

Inductive op : Type :=
| ReadBlock (buf n : Z)
| GetBlock (n : Z)
| Store (n p k : Z) (l : list Z)
| MarkDirty (n : Z)
| PutBlock (n : Z)
| ZeroBlock (n : Z)
| Flush.

(** The status, and the pointer [bcache_get_block] stores. *)
Definition run (o : op) : M (cstate K) (Z * Z) :=
  match o with
  | ReadBlock buf n => r ← bcache_read_block buf n; mret (r, 0)
  | GetBlock n => bcache_get_block n
  | Store n p k l => _ ← client_store (p + k) l; mret (0, 0)
  | MarkDirty n => r ← bcache_mark_block_dirty n; mret (r, 0)
  | PutBlock n => r ← bcache_put_block n; mret (r, 0)
  | ZeroBlock n => r ← bcache_zero_block n; mret (r, 0)
  | Flush => r ← bcache_flush; mret (r, 0)
  end.

(** What the clients must observe: a block is written through the pointer to it
    while it is held, and marked dirty before it is let go. *)
Definition op_ok (v : view) s (o : op) : Prop :=
  match o with
  | ReadBlock buf n => on_device s n /\ has_room v s n /\ room (memory s) buf (bsz s) /\ forall a, within buf (bsz s) a -> ~ cache_mem s a
  | GetBlock n => on_device s n /\ has_room v s n /\ references v n + 1 < 2 ^ 31
  | Store n p k l => (exists c, pinned v !! n = Some (c, p)) /\ 0 <= k /\ k + lenZ l <= bsz s /\ Forall byte l
  | PutBlock n => 0 < references v n < 2 ^ 31 /\ (n ∈ unmarked v -> 1 < references v n)
  | ZeroBlock n => on_device s n
  | MarkDirty _ | Flush => True
  end.

(** What they see of a call. *)
Definition op_does (v : view) s (o : op) (r : Z * Z) (v' : view) s' : Prop :=
  match o with
  | ReadBlock buf n => r.1 = 0 /\ v' = v /\ bytes_at (memory s') buf (contents v n)
  | GetBlock n => r.1 = 0 /\ v' = pin n r.2 v /\ bytes_at (memory s') r.2 (contents v n) /\ forall c p, pinned v !! n = Some (c, p) -> r.2 = p
  | Store n _ k l => v' = unmark n (set_contents n (overwrite k l (contents v n)) v)
  | MarkDirty n => v' = mark n v /\ (r.1 = 0 \/ r.1 = -1 /\ pinned v !! n = None)
  | PutBlock n => r.1 = 0 /\ v' = unpin n v
  | ZeroBlock n =>
      r.1 = 0 /\ v' = mark n (set_contents n (zeros s) v) \/
      r.1 = -1 /\ v' = v /\ pinned v !! n = None /\ (nblocks s <= size (pinned v))%nat
  | Flush => r.1 = 0 /\ v' = v /\ forall n, on_device s n -> n ∉ unmarked v -> bytes_at (disk_of s') (n * bsz s) (contents v n)
  end.

Definition op_buffer s (o : op) (a : Z) : Prop := match o with ReadBlock buf _ => within buf (bsz s) a | _ => False end.

(** The blocks stay where they are; memory changes in the buffer, in the cache and on the stack. *)
Definition op_keeps s (o : op) s' : Prop :=
  bsz s' = bsz s /\ ptr <$> blocks (cs_cache s') = ptr <$> blocks (cs_cache s) /\
  changed (fun a => op_buffer s o a \/ io_stack a \/ cache_mem s a) (memory s) (memory s').

Lemma stepped_keeps s o s' : stepped s s' -> op_keeps s o s'.
Proof. intros [Hz Hp Hm]. split; [done|]. split; [done|]. eapply changed_weaken; [exact Hm|]. intros a Ha. by right. Qed.

Lemma handed_out v s n c p : cache_sees v s -> pinned v !! n = Some (c, p) -> bytes_at (memory s) p (contents v n).
Proof.
  intros Hs Hp. destruct (se_pinned _ _ _ Hs _ _ _ Hp) as (_ & i & Hi & Hh).
  destruct (pinned_cached v s n c p Hs Hp i Hi Hh) as (b & Hb & <- & _ & <- & _). by apply (se_block _ _ _ Hs i b).
Qed.

Lemma references_pinned v n : 0 < references v n -> exists p, pinned v !! n = Some (references v n, p).
Proof. unfold references. destruct (pinned v !! n) as [[c p]|]; [by exists p|lia]. Qed.

(** C38. The block cache refines a disk of blocks: whatever it holds, each call of its
    interface (read, get, put, mark dirty, zero, flush) and each store of a client through
    a pointer to a block it holds runs to the end and has the effect it would have on the
    disk itself: a read and a get return the block's contents, a store is seen by later
    reads, a block in use keeps its place and its reference count, a zeroed block is zeros
    (or -1 when every block is held), and after a flush the disk has every block, except
    those written and not marked dirty. The device serves its requests; a client marks a
    block dirty before it lets it go, and there is a block that nobody holds when a new
    one is wanted. *)
Theorem bcache_is_disk v s o : cache_sees v s -> op_ok v s o ->
  wp (run o) s (fun r s' => exists v', cache_sees v' s' /\ op_does v s o r v' s' /\ op_keeps s o s').
Proof.
  intros Hs Hok. destruct o as [buf n|n|n p k l|n|n|n|]; cbn [run op_ok op_does] in *; wp_step.
  - destruct Hok as (Hn & Hr & Hb & Hd). eapply wp_mono; [by apply (read_block_wp v)|]. intros r s' (-> & Hs' & Hbytes & Hz & Hp & Hm). wp_step. by exists v.
  - destruct Hok as (Hn & Hr & Hlt). eapply wp_mono; [by apply (get_block_wp v)|]. intros r s' (Hr0 & Hp & Hs' & Hst). exists (pin n r.2 v).
    split; [done|]. split; [|by apply stepped_keeps]. split; [done|]. split; [done|]. split; [|done].
    eapply (handed_out _ _ n _ _ Hs'). cbn. apply lookup_insert_eq.
  - destruct Hok as ((c & Hp) & Hk & Hkl & Hl). eapply wp_mono; [by eapply (client_store_wp v s n c p)|]. intros [] s' [Hs' Hst]. wp_step.
    eexists. split; [exact Hs'|]. split; [done|]. by apply stepped_keeps.
  - eapply wp_mono; [by apply (mark_block_dirty_wp v)|]. intros r s' [[Hs' Hst] Hr]. wp_step. eexists. split; [exact Hs'|]. split; [done|].
    by apply stepped_keeps.
  - destruct Hok as [[Hpos Hlt] Hlast]. destruct (references_pinned v n Hpos) as [p Hp].
    eapply wp_mono; [by eapply (put_block_wp v s n)|]. intros r s' (-> & Hs' & Hst). wp_step. eexists. split; [exact Hs'|]. split; [done|].
    by apply stepped_keeps.
  - eapply wp_mono; [by apply (zero_block_wp v)|]. intros r s' (Hst & Hr). wp_step. pose proof (stepped_keeps s (ZeroBlock n) s' Hst).
    destruct Hr as [[-> Hs']|(-> & Hs' & Hr)]; eexists; (split; [exact Hs'|]; split; [|done]); [by left|by right].
  - eapply wp_mono; [by apply (flush_wp v)|]. intros r s' (-> & Hs' & Hst & Hd). wp_step. exists v. split; [done|]. split; [done|]. by apply stepped_keeps.
Qed.

End cache.

End BcacheProps.

(** The block cache over the block I/O layer and its drivers. *)
Module BcacheSample.
Import Mem CStringProps BlockDev Bio BlockProps BioProps BioSample ByteIo Bcache BcacheProps.

(** [bio.c] with its default hooks, on a device that serves its requests. *)
Section bio.
Context {K : Type} (dev : bdev_t) (Hdev : good_dev dev) `{DriverLaws K dev} (temp : Z).

#[local] Instance bio_ops : ByteIoOps K := {|
  ByteIo.bio_read := Bio.bio_read dev (bio_default_read dev temp);
  ByteIo.bio_write := Bio.bio_write dev (bio_default_write dev temp);
  io_disk := disk;
  io_size := total_size dev;
  io_ok k := dev_ok k /\ dev_healthy k;
  io_stack := within temp (block_size dev);
|}.

(** The caller's buffer is not the function's. *)
Lemma buffer_apart buf n : 0 < n -> (forall a, within buf n a -> ~ within temp (block_size dev) a) -> buf + n <= temp \/ temp + block_size dev <= buf.
Proof.
  intros Hn Ha. pose proof (block_size_pos _ Hdev) as Hbs. pose proof (Ha buf) as H1. pose proof (Ha temp) as H2. unfold within in *. lia.
Qed.

Lemma bio_io_laws : ByteIoLaws K.
Proof.
  pose proof (block_size_pos _ Hdev) as Hbs. pose proof (g_total_small _ Hdev) as Hts. split.
  - intros k [Hk _]. destruct (dev_disk k Hk) as [Hr Hb]. split; [|done]. cbn. by rewrite (g_total _ Hdev).
  - intros s buf off n [[Hok Hh] Hstk] Ho Hn Ht Hr Hap. cbn in Ht, Hap, Hstk. assert (inside dev off n = n) as E by (unfold inside; lia).
    eapply wp_mono; [apply (bio_read_wp dev Hdev temp off buf n s); rewrite ?E; try done; try lia|].
    { split; [done|exact Hstk|by apply buffer_apart; [lia|]]. }
    rewrite E. intros r s' [[-> [Gok Gd Gh Gm Gb]]|[_ [_ _ Hx _]]]; [|done]. split; [done|]. split; [|done].
    split; [split; [done|by apply Gh]|]. intros a Ha. apply Gm. by apply Hstk.
  - intros s buf off l [[Hok Hh] Hstk] Ho Hn Ht Hl Hb Hap. cbn in Ht, Hap, Hstk.
    eapply wp_mono; [apply (bio_write_wp dev Hdev temp off buf l s); try done; try lia|].
    { split; [done|done|exact Hstk|by apply buffer_apart; [lia|]]. }
    intros r s' [[-> [Gok Gd Gh Gm]]|[_ [_ Hx _ _]]]; [|done]. split; [done|]. split; [|done].
    split; [split; [done|by apply Gh]|]. intros a Ha. apply Gm. by apply Hstk.
Qed.
End bio.

(** Two blocks of 512 bytes, on the disk of [BioSample]; its functions' block is at 13000. *)
#[local] Instance sample_bytes : ByteIoOps ram := bio_ops sample_dev 13000.
#[local] Instance sample_bytes_laws : ByteIoLaws ram := bio_io_laws sample_dev sample_good 13000.

Definition sample_cache : cstate ram := MkCs (bcache_create 512 [10000; 10600]) sample_io.

Lemma sample_cache_sees : cache_sees (disk_view sample_ram 512) sample_cache.
Proof.
  apply (create_sees 512 [10000; 10600] sample_io).
  - lia.
  - split; [split; [exact sample_ok|done]|]. intros a Ha. apply (sample_room 13000 1024); [lia|vm_compute; discriminate|exact Ha].
  - intros p Hp. apply sample_room; set_unfold; lia.
  - intros p a Hp Ha. unfold within in Ha. cbn. unfold within. change (block_size sample_dev) with 1024. set_unfold. lia.
  - intros [|[|i]] [|[|j]] p q a Hij Hp Hq; simplify_eq/=; unfold within; lia.
Qed.

(** A client takes block 3, writes to it, and finds its bytes there; each call is one step of the disk. *)
Lemma bcache_is_disk_witness : cache_sees (disk_view sample_ram 512) sample_cache /\ op_ok (disk_view sample_ram 512) sample_cache (GetBlock 3) /\
  wp (run (GetBlock 3)) sample_cache (fun r s' => exists v', cache_sees v' s' /\
    op_does (disk_view sample_ram 512) sample_cache (GetBlock 3) r v' s' /\ op_keeps sample_cache (GetBlock 3) s').
Proof.
  assert (op_ok (disk_view sample_ram 512) sample_cache (GetBlock 3)) as Hok.
  { split; [split; [lia|vm_compute; discriminate]|]. split; [right; vm_compute; lia|]. vm_compute. reflexivity. }
  split; [exact sample_cache_sees|]. split; [exact Hok|].
  exact (bcache_is_disk (disk_view sample_ram 512) sample_cache (GetBlock 3) sample_cache_sees Hok).
Defined.

End BcacheSample.
