(* ===== verification/Printf.v ===== *)
(** Formatted output: [lib/libc/printf.c].  The engine is generic in the function
    that takes the output; doubles are IEEE binary64, rounded to nearest. *)
From Stdlib Require SpecFloat.
From S2P Require Import Prelude Mem Ctype CString.
Local Open Scope Z_scope.

Module Printf.
Import Mem Ctype CString.

Definition chr_percent : Z := 37.
Definition chr_hash : Z := 35.
Definition chr_dot : Z := 46.
Definition chr_c : Z := 99.
Definition chr_d : Z := 100.
Definition chr_h : Z := 104.
Definition chr_i : Z := 105.
Definition chr_j : Z := 106.
Definition chr_l : Z := 108.
Definition chr_n : Z := 110.
Definition chr_p : Z := 112.
Definition chr_s : Z := 115.
Definition chr_t : Z := 116.
Definition chr_u : Z := 117.
Definition chr_P : Z := 80.

(** * Flags *)

Definition LONGFLAG : Z := 0x1.
Definition LONGLONGFLAG : Z := 0x2.
Definition HALFFLAG : Z := 0x4.
Definition HALFHALFFLAG : Z := 0x8.
Definition SIZETFLAG : Z := 0x10.
Definition INTMAXFLAG : Z := 0x20.
Definition PTRDIFFFLAG : Z := 0x40.
Definition ALTFLAG : Z := 0x80.
Definition CAPSFLAG : Z := 0x100.
Definition SHOWSIGNFLAG : Z := 0x200.
Definition SIGNEDFLAG : Z := 0x400.
Definition LEFTFORMATFLAG : Z := 0x800.
Definition LEADZEROFLAG : Z := 0x1000.
Definition BLANKPOSFLAG : Z := 0x2000.

Definition has (flags f : Z) : bool := negb (Z.land flags f =? 0).
Definition without (flags f : Z) : Z := Z.ldiff flags f.

(** * Numbers to text *)

(** A local buffer; a store outside it is a fault. *)
Definition bset (buf : list Z) (i c : Z) : option (list Z) :=
  if (0 <=? i) && (i <? Z.of_nat (length buf)) then Some (<[Z.to_nat i := u8 c]> buf) else None.

Fixpoint dec_loop (fuel : nat) (buf : list Z) (pos n : Z) : option (list Z * Z * Z) :=
  match fuel with
  | O => None
  | S fuel =>
      if 10 <=? n then
        buf ← bset buf (pos - 1) (n mod 10 + chr_0);
        dec_loop fuel buf (pos - 1) (n / 10)
      else Some (buf, pos, n)
  end.

(** The buffer, where the text begins in it, and the sign. *)
Definition longlong_to_string (buf : list Z) (n len flag : Z) : option (list Z * Z * Z) :=
  let negative := has flag SIGNEDFLAG && (s64 n <? 0) in
  let n := if negative then u64 (- n) else n in
  buf ← bset buf (len - 1) 0;
  r ← dec_loop (S (length buf)) buf (len - 1) n;
  let '(buf, pos, n) := r in
  buf ← bset buf (pos - 1) (n + chr_0);
  Some (buf, pos - 1,
    if negative then chr_minus
    else if has flag SHOWSIGNFLAG then chr_plus
    else if has flag BLANKPOSFLAG then chr_space
    else 0).

Definition hextable : list Z := [48; 49; 50; 51; 52; 53; 54; 55; 56; 57; 97; 98; 99; 100; 101; 102].
Definition hextable_caps : list Z := [48; 49; 50; 51; 52; 53; 54; 55; 56; 57; 65; 66; 67; 68; 69; 70].
Definition hex_table (flag : Z) : list Z := if has flag CAPSFLAG then hextable_caps else hextable.

Fixpoint hex_loop (fuel : nat) (table buf : list Z) (pos u : Z) : option (list Z * Z) :=
  match fuel with
  | O => None
  | S fuel =>
      c ← table !! Z.to_nat (u mod 16);
      buf ← bset buf (pos - 1) c;
      if negb (u / 16 =? 0) then hex_loop fuel table buf (pos - 1) (u / 16) else Some (buf, pos - 1)
  end.

Definition longlong_to_hexstring (buf : list Z) (u len flag : Z) : option (list Z * Z) :=
  buf ← bset buf (len - 1) 0;
  hex_loop (S (length buf)) (hex_table flag) buf (len - 1) u.

(** ** Doubles *)

(** [OUT] and [OUTSTR]: the buffer and the position. *)
Definition OUT (b : list Z * Z) (c : Z) : option (list Z * Z) := buf ← bset b.1 b.2 c; Some (buf, b.2 + 1).
Fixpoint OUTSTR (b : list Z * Z) (s : list Z) : option (list Z * Z) :=
  match s with [] => Some b | c :: s => b ← OUT b c; OUTSTR b s end.

Definition str_INF : list Z := [73; 78; 70].
Definition str_inf : list Z := [105; 110; 102].
Definition str_NAN : list Z := [78; 65; 78].
Definition str_nan : list Z := [110; 97; 110].
Definition str_DEN : list Z := [68; 69; 78].
Definition str_den : list Z := [100; 101; 110].
Definition str_zero : list Z := [48; 46; 48; 48; 48; 48; 48; 48].
Definition str_range : list Z := [60; 114; 97; 110; 103; 101; 62].
Definition str_0X0P : list Z := [48; 88; 48; 80; 43; 48].
Definition str_0x0p : list Z := [48; 120; 48; 112; 43; 48].
Definition str_0X1 : list Z := [48; 88; 49].
Definition str_0x1 : list Z := [48; 120; 49].

Definition caps (flag : Z) (upper lower : list Z) : list Z := if has flag CAPSFLAG then upper else lower.

(** The fields of a double. *)
Definition d_exponent (i : Z) : Z := Z.land (Z.shiftr i 52) 0x7ff.
Definition d_fraction (i : Z) : Z := Z.land i (Z.shiftl 1 52 - 1).
Definition d_neg (i : Z) : bool := negb (Z.land i (Z.shiftl 1 63) =? 0).

Fixpoint exp_loop (fuel : nat) (buf : list Z) (i e : Z) : option (list Z) :=
  match fuel with
  | O => None
  | S fuel =>
      buf ← bset buf (i - 1) (e mod 10 + chr_0);
      if negb (e / 10 =? 0) then exp_loop fuel buf (i - 1) (e / 10) else Some buf
  end.

(** At [off] in the buffer; returns the buffer and the number of characters. *)
Definition exponent_to_string (buf : list Z) (off exponent : Z) : option (list Z * Z) :=
  buf ← bset buf off (if exponent <? 0 then chr_minus else chr_plus);
  let exponent := Z.abs exponent in
  let pos := 1 + (if 1000 <=? exponent then 4 else if 100 <=? exponent then 3 else if 10 <=? exponent then 2 else 1) in
  buf ← exp_loop 11 buf (off + pos) exponent;
  Some (buf, pos).

(** Arithmetic on binary64 values. *)
Definition f64 : Type := SpecFloat.spec_float.
Definition f64_of (m e : Z) : f64 := SpecFloat.binary_normalize 53 1024 m e false.
Definition f64_sub : f64 -> f64 -> f64 := SpecFloat.SFsub 53 1024.
Definition f64_mul : f64 -> f64 -> f64 := SpecFloat.SFmul 53 1024.
Definition f64_add : f64 -> f64 -> f64 := SpecFloat.SFadd 53 1024.
(** The conversion to an integer type; none for what has no integer part. *)
Definition f64_trunc (x : f64) : option Z :=
  match x with
  | SpecFloat.S754_finite s m e => Some ((if s then Z.opp else id) (if 0 <=? e then Zpos m * 2 ^ e else Zpos m / 2 ^ (- e)))
  | SpecFloat.S754_zero _ => Some 0
  | _ => None
  end.

Fixpoint outrev (n : nat) (buf : list Z) (pos c : Z) : option (list Z * Z) :=
  match n with O => Some (buf, pos) | S n => buf ← bset buf (pos - 1) c; outrev n buf (pos - 1) c end.

Fixpoint frac_loop (fuel : nat) (buf : list Z) (i frac : Z) : option (list Z) :=
  match fuel with
  | O => None
  | S fuel =>
      if frac =? 0 then Some buf
      else buf ← bset buf (i - 1) (frac mod 10 + chr_0); frac_loop fuel buf (i - 1) (frac / 10)
  end.

(** [bits] are those of a normal number with an exponent from -52 to 52.  The
    buffer is long enough for [OUTREV] never to meet its start. *)
Definition plain_double (buf : list Z) (len bits flag : Z) : option (list Z * Z) :=
  let e := d_exponent bits - 1023 in
  b ← outrev 1 buf len 0;
  b ← outrev 7 b.1 b.2 chr_0;
  let '(buf, decimal_spot) := b in
  r ← (if 0 <=? e then
         let u := Z.shiftr (Z.lor (d_fraction bits) (Z.shiftl 1 52)) (52 - e) in
         s ← longlong_to_string buf u (decimal_spot + 1) flag;
         let '(buf, pos, _) := s in Some (buf, pos, u)
       else
         b ← outrev 1 buf decimal_spot chr_0; Some (b, 0));
  let '(buf, pos, u) := r in
  buf ← bset buf decimal_spot chr_dot;
  let d := f64_of (d_fraction bits + 2 ^ 52) (e - 52) in
  frac ← f64_trunc (f64_add (f64_mul (f64_sub d (f64_of u 0)) (f64_of 1000000 0)) (f64_of 1 (-1)));
  let frac := u32 frac in
  buf ← frac_loop 11 buf (decimal_spot + 6 + 1) frac;
  if d_neg bits then outrev 1 buf pos chr_minus else Some (buf, pos).

(** The buffer and where the text begins. *)
Definition double_to_string (buf : list Z) (len bits flag : Z) : option (list Z * Z) :=
  b ← (if d_neg bits then OUT (buf, 0) chr_minus else Some (buf, 0));
  let ending b := buf ← bset b.1 b.2 0; Some (buf, 0) in
  if d_exponent bits =? 0x7ff then
    b ← OUTSTR b (if d_fraction bits =? 0 then caps flag str_INF str_inf else caps flag str_NAN str_nan); ending b
  else if d_exponent bits =? 0 then
    b ← OUTSTR b (if d_fraction bits =? 0 then str_zero else caps flag str_DEN str_den); ending b
  else
    let e := d_exponent bits - 1023 in
    if (e <? -52) || (52 <? e) then b ← OUTSTR b str_range; ending b
    else plain_double b.1 len bits flag.

(** The digits of the fraction, from bit [4 * (i + 1)] down; zeros wait until a digit follows. *)
Fixpoint hexfrac_loop (i : nat) (b : list Z * Z) (fraction : Z) (table : list Z) (zero_count : nat) (output_dot : bool) : option (list Z * Z) :=
  match i with
  | O => Some b
  | S i =>
      let digit := Z.land (Z.shiftr fraction (4 * Z.of_nat i)) 0xf in
      if digit =? 0 then hexfrac_loop i b fraction table (S zero_count) output_dot
      else
        b ← (if output_dot then Some b else OUT b chr_dot);
        b ← OUTSTR b (replicate zero_count chr_0);
        c ← table !! Z.to_nat digit;
        b ← OUT b c;
        hexfrac_loop i b fraction table 0 true
  end.

Definition double_to_hexstring (buf : list Z) (bits flag : Z) : option (list Z * Z) :=
  b ← (if d_neg bits then OUT (buf, 0) chr_minus else Some (buf, 0));
  b ← (if d_exponent bits =? 0x7ff then
         OUTSTR b (if d_fraction bits =? 0 then caps flag str_INF str_inf else caps flag str_NAN str_nan)
       else if d_exponent bits =? 0 then
         OUTSTR b (if d_fraction bits =? 0 then caps flag str_0X0P str_0x0p else caps flag str_DEN str_den)
       else
         b ← OUTSTR b (caps flag str_0X1 str_0x1);
         b ← hexfrac_loop 13 b (d_fraction bits) (hex_table flag) 0 false;
         b ← OUT b (if has flag CAPSFLAG then chr_P else chr_p);
         r ← exponent_to_string b.1 b.2 (d_exponent bits - 1023);
         Some (r.1, b.2 + r.2));
  buf ← bset b.1 b.2 0;
  Some (buf, 0).

(** * The engine *)

(** Bytes to be put out: in memory, or in a buffer of the engine. *)
Inductive text := InMem (p : Z) | Local (l : list Z).

(** An argument, as it was passed. *)
Inductive va := VInt (v : Z) | VDouble (bits : Z).

Record pstate (W : Type) := MkP { p_mem : mem; p_out : W }.
Arguments MkP {W}.
Arguments p_mem {W}.
Arguments p_out {W}.

Definition on_mem {W A} (m : M mem A) : M (pstate W) A := fun s =>
  match m (p_mem s) with Some (a, x) => Some (a, MkP x (p_out s)) | None => None end.

Definition text_byte (t : text) (i : Z) : M mem Z :=
  match t with
  | InMem p => rd (p + i)
  | Local l => deref (fun _ => if i <? 0 then None else l !! Z.to_nat i)
  end.

Fixpoint local_len (l : list Z) : option Z :=
  match l with [] => None | c :: l => if c =? 0 then Some 0 else n ← local_len l; Some (n + 1) end.
Definition text_len (t : text) : M mem Z :=
  match t with InMem p => strlen p | Local l => deref (fun _ => local_len l) end.

Definition str_null : list Z := [60; 110; 117; 108; 108; 62; 0].
Definition num_buffer : list Z := replicate 32 0.

(** What a format character between the percent sign and the conversion does. *)
Definition format_char (c flags num : Z) : option (Z * Z) :=
  if isdigit c then
    Some (if (c =? chr_0) && (num =? 0) then Z.lor flags LEADZEROFLAG else flags, u32 (num * 10 + (c - chr_0)))
  else if c =? chr_dot then Some (flags, num)
  else if c =? chr_minus then Some (Z.lor flags LEFTFORMATFLAG, num)
  else if c =? chr_plus then Some (Z.lor flags SHOWSIGNFLAG, num)
  else if c =? chr_space then Some (Z.lor flags BLANKPOSFLAG, num)
  else if c =? chr_hash then Some (Z.lor flags ALTFLAG, num)
  else if c =? chr_l then Some (Z.lor (if has flags LONGFLAG then Z.lor flags LONGLONGFLAG else flags) LONGFLAG, num)
  else if c =? chr_h then Some (Z.lor (if has flags HALFFLAG then Z.lor flags HALFHALFFLAG else flags) HALFFLAG, num)
  else if c =? chr_z then Some (Z.lor flags SIZETFLAG, num)
  else if c =? chr_j then Some (Z.lor flags INTMAXFLAG, num)
  else if c =? chr_t then Some (Z.lor flags PTRDIFFFLAG, num)
  else None.

(** The conversion character and what follows it, with the flags and the width. *)
Fixpoint next_format (fuel : nat) (fmt flags num : Z) : M mem (Z * Z * Z * Z) :=
  match fuel with
  | O => fault
  | S fuel =>
      c ← rd fmt;
      match format_char c flags num with
      | Some (flags, num) => next_format fuel (fmt + 1) flags num
      | None => mret (c, fmt + 1, flags, num)
      end
  end.

(** Up to a percent sign or the end: the number of characters and what ends them. *)
Fixpoint regular_chars (fuel : nat) (fmt len : Z) : M mem (Z * Z) :=
  match fuel with
  | O => fault
  | S fuel =>
      c ← rd fmt;
      if (c =? 0) || (c =? chr_percent) then mret (len, c) else regular_chars fuel (fmt + 1) (len + 1)
  end.

(** The types of [va_arg] by the size flags. *)
Definition signed_arg (flags v : Z) : Z :=
  if has flags LONGLONGFLAG then s64 v
  else if has flags LONGFLAG then s64 v
  else if has flags HALFHALFFLAG then s8 v
  else if has flags HALFFLAG then sw 16 v
  else if has flags SIZETFLAG then s64 v
  else if has flags INTMAXFLAG then s64 v
  else if has flags PTRDIFFFLAG then s64 v
  else s32 v.
Definition unsigned_arg (flags v : Z) : Z :=
  if has flags LONGLONGFLAG then u64 v
  else if has flags LONGFLAG then u64 v
  else if has flags HALFHALFFLAG then u8 v
  else if has flags HALFFLAG then u16 v
  else if has flags SIZETFLAG then u64 v
  else if has flags INTMAXFLAG then u64 v
  else if has flags PTRDIFFFLAG then u64 v
  else u32 v.

(** The [n] low bytes of a number, low byte first. *)
Definition low_bytes (n : nat) (v : Z) : list Z := (fun i => u8 (Z.shiftr v (8 * Z.of_nat i))) <$> seq 0 n.
Definition count_size (flags : Z) : nat :=
  if has flags LONGLONGFLAG then 8%nat
  else if has flags LONGFLAG then 8%nat
  else if has flags HALFHALFFLAG then 1%nat
  else if has flags HALFFLAG then 2%nat
  else if has flags SIZETFLAG then 8%nat
  else 4%nat.

Section engine.
Context {W : Type} (out : text -> Z -> M (pstate W) Z).
Abbreviation P := (M (pstate W)).

(** The part of the buffer from [pos] on, where the fault is a store outside it. *)
Definition local (r : option (list Z * Z)) : P text :=
  b ← deref (fun _ => r); mret (Local (drop (Z.to_nat b.2) b.1)).

(** [OUTPUT_STRING]: an error ends the engine; the rest gets what was written and the count. *)
Definition OUTPUT_STRING {A} (t : text) (len written : Z) (k : Z -> Z -> P (Z + A)) : P (Z + A) :=
  err ← out t len;
  if err <? 0 then mret (inl err) else k err (u64 (written + err)).
Definition OUTPUT_CHAR {A} (c written : Z) (k : Z -> P (Z + A)) : P (Z + A) :=
  OUTPUT_STRING (Local [u8 c]) 1 written (fun _ written => k written).

Fixpoint pad {A} (n : nat) (c written : Z) (k : Z -> P (Z + A)) : P (Z + A) :=
  match n with O => k written | S n => OUTPUT_CHAR c written (fun written => pad n c written k) end.

(** The label [_output_string]. *)
Definition output_string (s : text) (flags num signchar written : Z) : P (Z + Z) :=
  len ← on_mem (text_len s);
  if has flags LEFTFORMATFLAG then
    OUTPUT_STRING s len written (fun err written => pad (Z.to_nat (num - u32 err)) chr_space written (fun written => mret (inr written)))
  else
    let sign := negb (signchar =? 0) in
    let num := if sign && (0 <? num) then num - 1 else num in
    let zero := has flags LEADZEROFLAG in
    let body written :=
      pad (Z.to_nat (num - len)) (if zero then chr_0 else chr_space) written (fun written =>
        let digits written := OUTPUT_STRING s len written (fun _ written => mret (inr written)) in
        if negb zero && sign then OUTPUT_CHAR signchar written digits else digits written) in
    if zero && sign then OUTPUT_CHAR signchar written body else body written.

Definition signed_conv (flags num written : Z) (v : Z) : P (Z + Z) :=
  let flags' := Z.lor flags SIGNEDFLAG in
  r ← deref (fun _ => longlong_to_string num_buffer (u64 (signed_arg flags v)) 32 flags');
  let '(buf, pos, signchar) := r in
  output_string (Local (drop (Z.to_nat pos) buf)) flags' num signchar written.

Definition unsigned_conv (flags num written : Z) (v : Z) : P (Z + Z) :=
  r ← deref (fun _ => longlong_to_string num_buffer (unsigned_arg flags v) 32 flags);
  let '(buf, pos, signchar) := r in
  output_string (Local (drop (Z.to_nat pos) buf)) flags num signchar written.

Definition hex_conv (flags num written : Z) (v : Z) : P (Z + Z) :=
  s ← local (longlong_to_hexstring num_buffer (unsigned_arg flags v) 32 flags);
  if has flags ALTFLAG then
    OUTPUT_CHAR chr_0 written (fun written =>
      OUTPUT_CHAR (if has flags CAPSFLAG then chr_X else chr_x) written (fun written =>
        output_string s flags num 0 written))
  else output_string s flags num 0 written.

Definition string_conv (flags num written : Z) (p : Z) : P (Z + Z) :=
  output_string (if p =? 0 then Local str_null else InMem p) (without flags LEADZEROFLAG) num 0 written.

(** A conversion, with the arguments that are left. *)
Definition convert (c flags num : Z) (ap : list va) (written : Z) : P ((Z + Z) * list va) :=
  let int_arg (f : Z -> P (Z + Z)) := match ap with VInt v :: ap => r ← f v; mret (r, ap) | _ => fault end in
  let double_arg (f : Z -> P (Z + Z)) := match ap with VDouble v :: ap => r ← f v; mret (r, ap) | _ => fault end in
  let plain (m : P (Z + Z)) := r ← m; mret (r, ap) in
  if c =? chr_percent then plain (OUTPUT_CHAR chr_percent written (fun written => mret (inr written)))
  else if c =? chr_c then int_arg (fun v => OUTPUT_CHAR (u8 (u32 v)) written (fun written => mret (inr written)))
  else if c =? chr_s then int_arg (string_conv flags num written)
  else if (c =? chr_i) || (c =? chr_d) then int_arg (signed_conv flags num written)
  else if c =? chr_u then int_arg (unsigned_conv flags num written)
  else if c =? chr_p then int_arg (hex_conv (Z.lor flags (Z.lor LONGFLAG ALTFLAG)) num written)
  else if c =? chr_X then int_arg (hex_conv (Z.lor flags CAPSFLAG) num written)
  else if c =? chr_x then int_arg (hex_conv flags num written)
  else if c =? chr_n then
    int_arg (fun p => _ ← on_mem (wr_bytes (low_bytes (count_size flags) written) p); mret (inr written))
  else if c =? chr_F then
    let flags := Z.lor flags CAPSFLAG in
    double_arg (fun d => s ← local (double_to_string num_buffer 32 d flags); output_string s flags num 0 written)
  else if c =? chr_f then
    double_arg (fun d => s ← local (double_to_string num_buffer 32 d flags); output_string s flags num 0 written)
  else if c =? chr_A then
    let flags := Z.lor flags CAPSFLAG in
    double_arg (fun d => s ← local (double_to_hexstring num_buffer d flags); output_string s flags num 0 written)
  else if c =? chr_a then
    double_arg (fun d => s ← local (double_to_hexstring num_buffer d flags); output_string s flags num 0 written)
  else
    plain (OUTPUT_CHAR chr_percent written (fun written => OUTPUT_CHAR c written (fun written => mret (inr written)))).

(** The loop: an error, or the number of characters written. *)
Fixpoint engine_loop (fuel : nat) (fmt : Z) (ap : list va) (written : Z) : P (Z + Z) :=
  match fuel with
  | O => fault
  | S fuel =>
      r ← on_mem (with_fuel (fun n => regular_chars n fmt 0));
      let '(len, c) := r in
      OUTPUT_STRING (InMem fmt) len written (fun _ written =>
        if c =? 0 then mret (inr written)
        else
          f ← on_mem (with_fuel (fun n => next_format n (fmt + len + 1) 0 0));
          let '(c, fmt, flags, num) := f in
          if c =? 0 then mret (inr written)
          else
            r ← convert c flags num ap written;
            match r.1 with inl e => mret (inl e) | inr written => engine_loop fuel fmt r.2 written end)
  end.

Definition _printf_engine (fmt : Z) (ap : list va) : P Z :=
  s ← get;
  r ← engine_loop (S (size (p_mem s))) fmt ap 0;
  mret (match r with inl e => e | inr written => s32 written end).
End engine.

(** * Into a string *)

Record output_args := MkOut { outstr : Z; out_len : Z; out_pos : Z }.

Fixpoint output_loop (n : nat) (t : text) (i : Z) : M (pstate output_args) unit :=
  match n with
  | O => mret tt
  | S n =>
      s ← get;
      let args := p_out s in
      _ ← (if out_pos args <? out_len args then
             c ← on_mem (text_byte t i);
             _ ← on_mem (wr (outstr args + out_pos args) c);
             modify (fun s => MkP (p_mem s) (MkOut (outstr args) (out_len args) (out_pos args + 1)))
           else mret tt);
      output_loop n t (i + 1)
  end.
Definition _vsnprintf_output (t : text) (len : Z) : M (pstate output_args) Z :=
  _ ← output_loop (Z.to_nat len) t 0; mret (s32 len).

Definition vsnprintf (str len fmt : Z) (ap : list va) : M mem Z := fun m =>
  match _printf_engine _vsnprintf_output fmt ap (MkP m (MkOut str len 0)) with
  | Some (wlen, s) =>
      (_ ← (if len <=? out_pos (p_out s) then wr (str + len - 1) 0 else wr (str + wlen) 0); mret wlen) (p_mem s)
  | None => None
  end.

Definition INT_MAX : Z := 2 ^ 31 - 1.
Definition vsprintf (str fmt : Z) (ap : list va) : M mem Z := vsnprintf str INT_MAX fmt ap.
Definition snprintf (str len fmt : Z) (ap : list va) : M mem Z := vsnprintf str len fmt ap.
Definition sprintf (str fmt : Z) (ap : list va) : M mem Z := vsprintf str fmt ap.

End Printf.
