(* ===== verification/PrintfSpec.v ===== *)
(** What a format stands for: the text of C's [printf], for conversions of
    numbers, strings and characters. *)
From S2P Require Import Prelude Mem Ctype Strto StrtoProps Printf.
Local Open Scope Z_scope.

Module PrintfSpec.
Import Mem Ctype Strto StrtoProps Printf.

(** * Numbers *)

Fixpoint digits_from (fuel : nat) (base n : Z) : list Z :=
  match fuel with
  | O => []
  | S fuel => if n <? base then [n] else digits_from fuel base (n / base) ++ [n mod base]
  end.
(** The digits of [n], no zero in front. *)
Definition digits (base n : Z) : list Z := digits_from (S (Z.to_nat (Z.log2 n))) base n.

Definition digit_char (upper : bool) (d : Z) : Z := if d <? 10 then d + chr_0 else d - 10 + (if upper then chr_A else chr_a).
Definition num_text (base : Z) (upper : bool) (n : Z) : list Z := digit_char upper <$> digits base n.

(** * Formats *)

Inductive int_size := SNone | SH | SHH | SL | SLL | SZ | SJ | ST.
Inductive conversion := CDec | CInt | CUns | CHex (upper : bool) | CStr | CChr | CPct.

(** [%-+ 0<width><size><conv>], each part optional but the last. *)
Record spec := MkSpec { left_ : bool; plus : bool; blank : bool; alt : bool; zero : bool; width : Z; sz : int_size; cv : conversion }.

Definition size_bytes (z : int_size) : list Z :=
  match z with SNone => [] | SH => [chr_h] | SHH => [chr_h; chr_h] | SL => [chr_l] | SLL => [chr_l; chr_l]
  | SZ => [chr_z] | SJ => [chr_j] | ST => [chr_t] end.
Definition conv_byte (c : conversion) : Z :=
  match c with CDec => chr_d | CInt => chr_i | CUns => chr_u | CHex true => chr_X | CHex false => chr_x
  | CStr => chr_s | CChr => chr_c | CPct => chr_percent end.
Definition opt (b : bool) (c : Z) : list Z := if b then [c] else [].
Definition style_bytes (sp : spec) : list Z :=
  opt (left_ sp) chr_minus ++ opt (plus sp) chr_plus ++ opt (blank sp) chr_space ++ opt (alt sp) chr_hash ++ opt (zero sp) chr_0.
Definition width_bytes (sp : spec) : list Z := if width sp =? 0 then [] else num_text 10 false (width sp).
Definition spec_bytes (sp : spec) : list Z := style_bytes sp ++ width_bytes sp ++ size_bytes (sz sp).

(** Text and conversions in turn, and the text behind the last one. *)
Record format := MkFormat { fields : list (list Z * spec); tail : list Z }.
Definition field_bytes (f : list Z * spec) : list Z := f.1 ++ chr_percent :: spec_bytes f.2 ++ [conv_byte (cv f.2)].
Definition format_bytes (f : format) : list Z := concat (field_bytes <$> fields f) ++ tail f.

(** Text without a percent sign or an end. *)
Definition plain (l : list Z) : Prop := Forall (fun c => c ≠ 0 /\ c ≠ chr_percent /\ byte c) l.
Definition format_ok (f : format) : Prop :=
  Forall (fun x => plain x.1 /\ 0 <= width x.2 < 2 ^ 31) (fields f) /\ plain (tail f).

(** * What they stand for *)

(** An argument converted to the type that the size names. *)
Definition to_signed (z : int_size) (v : Z) : Z :=
  match z with SNone => s32 v | SH => sw 16 v | SHH => s8 v | _ => s64 v end.
Definition to_unsigned (z : int_size) (v : Z) : Z :=
  match z with SNone => u32 v | SH => u16 v | SHH => u8 v | _ => u64 v end.

Definition sign_text (sp : spec) (negative : bool) : list Z :=
  if negative then [chr_minus] else if plus sp then [chr_plus] else if blank sp then [chr_space] else [].

(** A sign and a body brought to the width. *)
Definition justify (left_ zero : bool) (width : Z) (sign body : list Z) : list Z :=
  let n := (Z.to_nat width - length sign - length body)%nat in
  if left_ then sign ++ body ++ replicate n chr_space
  else if zero then sign ++ replicate n chr_0 ++ body
  else replicate n chr_space ++ sign ++ body.

Section renders.
(** The strings in memory. *)
Context (reads : Z -> list Z -> Prop).

(** C's text.  Left out, because the code departs from C there: a sign in a field
    that is adjusted to the left, a sign for an unsigned number in base 10, a prefix
    in a field with a width or for the number 0, and the width of a character. *)
Inductive renders (sp : spec) : list va -> list Z -> Prop :=
| renders_dec v : cv sp = CDec \/ cv sp = CInt ->
    (left_ sp = true -> sign_text sp (to_signed (sz sp) v <? 0) = []) ->
    renders sp [VInt v]
      (justify (left_ sp) (zero sp) (width sp) (sign_text sp (to_signed (sz sp) v <? 0)) (num_text 10 false (Z.abs (to_signed (sz sp) v))))
| renders_uns v : cv sp = CUns -> plus sp = false -> blank sp = false ->
    renders sp [VInt v] (justify (left_ sp) (zero sp) (width sp) [] (num_text 10 false (to_unsigned (sz sp) v)))
| renders_hex upper v : cv sp = CHex upper -> (alt sp = true -> width sp = 0 /\ to_unsigned (sz sp) v ≠ 0) ->
    renders sp [VInt v]
      ((if alt sp && negb (to_unsigned (sz sp) v =? 0) then [chr_0; if upper then chr_X else chr_x] else []) ++
       justify (left_ sp) (zero sp) (width sp) [] (num_text 16 upper (to_unsigned (sz sp) v)))
| renders_str p l : cv sp = CStr -> p ≠ 0 -> reads p l -> renders sp [VInt p] (justify (left_ sp) false (width sp) [] l)
| renders_null : cv sp = CStr -> renders sp [VInt 0] (justify (left_ sp) false (width sp) [] [60; 110; 117; 108; 108; 62])
| renders_chr v : cv sp = CChr -> width sp = 0 -> renders sp [VInt v] [u8 v]
| renders_pct : cv sp = CPct -> renders sp [] [chr_percent].

Inductive renders_fields : list (list Z * spec) -> list va -> list Z -> Prop :=
| renders_done : renders_fields [] [] []
| renders_field l sp fs ap ap' t t' : renders sp ap t -> renders_fields fs ap' t' ->
    renders_fields ((l, sp) :: fs) (ap ++ ap') (l ++ t ++ t').

Inductive renders_format (f : format) : list va -> list Z -> Prop :=
| renders_all ap t : renders_fields (fields f) ap t -> renders_format f ap (t ++ tail f).
End renders.

(** * Digits *)

Lemma digits_from_range base fuel : 2 <= base -> forall n, 0 <= n -> Forall (fun d => 0 <= d < base) (digits_from fuel base n).
Proof.
  intros Hb. induction fuel as [|fuel IH]; intros n Hn; [done|]. cbn [digits_from]. destruct (Z.ltb_spec n base).
  - apply Forall_singleton. lia.
  - apply Forall_app. split; [apply IH; apply Z.div_pos; lia|]. apply Forall_singleton. apply Z.mod_pos_bound. lia.
Qed.

Lemma digits_from_fuel base : 2 <= base -> forall fuel fuel' n, 0 <= n < 2 ^ Z.of_nat fuel -> 0 <= n < 2 ^ Z.of_nat fuel' ->
  (0 < fuel)%nat -> (0 < fuel')%nat -> digits_from fuel base n = digits_from fuel' base n.
Proof.
  intros Hb fuel. induction fuel as [|fuel IH]; intros [|fuel'] n Hn Hn' H0 H0'; try lia. cbn [digits_from].
  destruct (Z.ltb_spec n base); [done|]. f_equal. assert (forall k, 0 <= n < 2 ^ Z.of_nat (S k) -> 0 <= n / base < 2 ^ Z.of_nat k) as Hd.
  { intros k Hk. rewrite Nat2Z.inj_succ, Z.pow_succ_r in Hk by lia. split; [apply Z.div_pos; lia|]. apply Z.div_lt_upper_bound; nia. }
  pose proof (Hd fuel Hn). pose proof (Hd fuel' Hn'). assert (1 <= n / base) by (apply Z.div_le_lower_bound; lia).
  destruct fuel as [|fuel]; [simpl in *; lia|]. destruct fuel' as [|fuel']; [simpl in *; lia|]. apply IH; try done; lia.
Qed.

Lemma log2_fuel n : 0 <= n -> n < 2 ^ Z.of_nat (S (Z.to_nat (Z.log2 n))).
Proof.
  intros Hn. destruct (decide (n = 0)) as [->|Hne]; [simpl; lia|]. pose proof (Z.log2_spec n ltac:(lia)) as [_ Hl].
  rewrite Nat2Z.inj_succ, Z2Nat.id by apply Z.log2_nonneg. done.
Qed.

Lemma digits_small base n : 0 <= n < base -> digits base n = [n].
Proof. intros Hn. unfold digits. cbn [digits_from]. by rewrite (proj2 (Z.ltb_lt _ _)) by lia. Qed.

Lemma digits_step base n : 2 <= base -> base <= n -> digits base n = digits base (n / base) ++ [n mod base].
Proof.
  intros Hb Hn. unfold digits at 1. cbn [digits_from]. rewrite (proj2 (Z.ltb_ge _ _)) by lia. f_equal.
  assert (1 <= n / base < n) as Hd by (split; [apply Z.div_le_lower_bound; lia|apply Z.div_lt; lia]).
  assert (0 < Z.log2 n) as Hl by (apply Z.log2_pos; lia). pose proof (log2_fuel n ltac:(lia)) as Hf.
  rewrite Nat2Z.inj_succ, Z.pow_succ_r in Hf by lia.
  apply digits_from_fuel; try done; try lia.
  - split; [lia|]. apply Z.div_lt_upper_bound; nia.
  - split; [lia|]. apply log2_fuel. lia.
Qed.

(** Induction on a number, one digit at a time. *)
Lemma digits_ind base (P : Z -> Prop) : 2 <= base -> (forall n, 0 <= n < base -> P n) ->
  (forall n, base <= n -> P (n / base) -> P n) -> forall n, 0 <= n -> P n.
Proof.
  intros Hb H0 HS n Hn. revert n Hn. apply (Zlt_0_ind (fun n => P n)). intros n IH Hn. destruct (decide (n < base)); [apply H0; lia|].
  apply HS; [lia|]. apply IH. split; [apply Z.div_pos; lia|apply Z.div_lt; lia].
Qed.

Lemma digits_range base n : 2 <= base -> 0 <= n -> Forall (fun d => 0 <= d < base) (digits base n).
Proof. intros. by apply digits_from_range. Qed.

Lemma digits_length base n : 2 <= base -> 0 <= n -> forall k : nat, (0 < k)%nat -> n < base ^ Z.of_nat k -> (0 < length (digits base n) <= k)%nat.
Proof.
  intros Hb Hn. pattern n. revert n Hn. apply (digits_ind base); [done| |].
  - intros n Hn k Hk _. rewrite digits_small by done. simpl. lia.
  - intros n Hn IH k Hk Hlt. rewrite digits_step, length_app by done. cbn [length].
    destruct k as [|k]; [lia|]. rewrite Nat2Z.inj_succ, Z.pow_succ_r in Hlt by lia.
    assert (1 <= n / base) by (apply Z.div_le_lower_bound; lia).
    destruct k as [|k]; [simpl in Hlt; lia|]. assert (n / base < base ^ Z.of_nat (S k)) as Hd by (apply Z.div_lt_upper_bound; nia).
    pose proof (IH (S k) ltac:(lia) Hd). lia.
Qed.

Lemma digits_value base n : 2 <= base -> 0 <= n -> fold_left (fun a d => a * base + d) (digits base n) 0 = n.
Proof.
  intros Hb Hn. pattern n. revert n Hn. apply (digits_ind base); [done| |].
  - intros n Hn. rewrite digits_small by done. simpl. lia.
  - intros n Hn IH. rewrite digits_step, fold_left_app, IH by done. cbn [fold_left]. pose proof (Z.div_mod n base). lia.
Qed.

(** No zero in front. *)
Lemma digits_head base n : 2 <= base -> 0 < n -> exists d l, digits base n = d :: l /\ 0 < d.
Proof.
  intros Hb Hn. assert (0 <= n) as H0 by lia. revert Hn. pattern n. revert n H0. apply (digits_ind base); [done| |].
  - intros n Hn Hpos. rewrite digits_small by done. by exists n, [].
  - intros n Hn IH _. rewrite digits_step by done. assert (1 <= n / base) by (apply Z.div_le_lower_bound; lia).
    destruct (IH ltac:(lia)) as (d & l & -> & Hd). by exists d, (l ++ [n mod base]).
Qed.

(** ** As text *)

Lemma digit_char_val upper d : 0 <= d < 36 -> digit_val (digit_char upper d) = d.
Proof.
  intros Hd. unfold digit_char, digit_val. unfold chr_0, chr_9, chr_A, chr_a, chr_Z, chr_z.
  destruct (Z.ltb_spec d 10), upper; repeat case_if; bool_prop; lia.
Qed.

Lemma num_text_value base upper n : 2 <= base <= 36 -> 0 <= n -> value base 0 (num_text base upper n) = n.
Proof.
  intros Hb Hn. rewrite <- (digits_value base n) at 2 by lia. unfold value, num_text. generalize 0 at 1 2 as a.
  pose proof (digits_range base n ltac:(lia) Hn) as Hr. induction Hr as [|d l Hd Hl IH]; intros a; [done|]. cbn [fmap list_fmap fold_left].
  rewrite digit_char_val by lia. apply IH.
Qed.

Lemma num_text_dig base upper n : 2 <= base <= 36 -> 0 <= n -> Forall (fun c => dig base c = true) (num_text base upper n).
Proof.
  intros Hb Hn. apply Forall_fmap. eapply Forall_impl; [apply digits_range; lia|]. intros d Hd. cbn beta in Hd. cbn. unfold dig.
  rewrite digit_char_val by lia. apply andb_true_iff. lia.
Qed.

Lemma num_text_bytes base upper n : 2 <= base <= 16 -> 0 <= n -> Forall (fun c => c ≠ 0 /\ byte c) (num_text base upper n).
Proof.
  intros Hb Hn. apply Forall_fmap. eapply Forall_impl; [apply digits_range; lia|]. intros d Hd. cbn beta in Hd. cbn. unfold digit_char, byte.
  unfold chr_0, chr_A, chr_a. destruct (Z.ltb_spec d 10), upper; lia.
Qed.

Lemma num_text_length base upper n k : 2 <= base -> 0 <= n -> (0 < k)%nat -> n < base ^ Z.of_nat k -> (0 < length (num_text base upper n) <= k)%nat.
Proof. intros. unfold num_text. rewrite length_fmap. by apply digits_length. Qed.

End PrintfSpec.
