(* ===== verification/PrintfProps.v ===== *)
(** The engine of [printf] puts out what the format stands for. *)
From S2P Require Import Prelude Mem Ctype CString CStringProps StrProps Strto StrtoProps Printf PrintfSpec.
Local Open Scope Z_scope.

Module PrintfProps.
Import Mem Ctype CString CStringProps StrProps Strto StrtoProps Printf PrintfSpec.

Abbreviation lenZ l := (Z.of_nat (length l)).

(** * Numbers *)

Lemma bset_some buf i c : 0 <= i < lenZ buf -> byte c -> bset buf i c = Some (<[Z.to_nat i := c]> buf).
Proof. intros Hi Hc. unfold bset. rewrite (proj2 (andb_true_iff _ _)) by lia. by rewrite (u8_byte c). Qed.

Lemma bset_front (buf : list Z) pos c : 0 < pos <= lenZ buf -> byte c ->
  exists buf', bset buf (pos - 1) c = Some buf' /\ length buf' = length buf /\
    drop (Z.to_nat (pos - 1)) buf' = c :: drop (Z.to_nat pos) buf.
Proof.
  intros Hp Hc. exists (<[Z.to_nat (pos - 1) := c]> buf). rewrite bset_some by (done || lia). split; [done|]. rewrite length_insert. split; [done|].
  rewrite (drop_S _ c).
  - f_equal. replace (Z.to_nat pos) with (S (Z.to_nat (pos - 1))) by lia. by rewrite drop_insert_lt by lia.
  - apply list_lookup_insert_eq. lia.
Qed.

Lemma digit_byte d : 0 <= d < 10 -> byte (d + chr_0).
Proof. unfold byte, chr_0. lia. Qed.

Lemma digit_char_10 upper d : 0 <= d < 10 -> digit_char upper d = d + chr_0.
Proof. intros Hd. unfold digit_char. by rewrite (proj2 (Z.ltb_lt _ _)) by lia. Qed.

Lemma dec_loop_run n : 0 <= n -> forall fuel buf pos, (length (digits 10 n) <= fuel)%nat -> lenZ (digits 10 n) <= pos <= lenZ buf ->
  exists buf' pos' d, dec_loop fuel buf pos n = Some (buf', pos', d) /\ 0 <= d < 10 /\ length buf' = length buf /\ 0 < pos' <= lenZ buf /\
    d + chr_0 :: drop (Z.to_nat pos') buf' = num_text 10 false n ++ drop (Z.to_nat pos) buf.
Proof.
  intros Hn. pattern n. revert n Hn. apply (digits_ind 10); [lia| |].
  - intros n Hn fuel buf pos Hf Hp. unfold num_text. rewrite (digits_small _ n) in * by done. destruct fuel as [|fuel]; [simpl in Hf; lia|].
    cbn [dec_loop]. rewrite (proj2 (Z.leb_gt _ _)) by lia. exists buf, pos, n. do 2 (split; [done|]). split; [done|].
    split; [simpl in Hp; lia|]. cbn [fmap list_fmap app]. by rewrite digit_char_10.
  - intros n Hn IH fuel buf pos Hf Hp. unfold num_text. rewrite (digits_step 10 n) in * by lia. rewrite length_app in Hf, Hp. cbn [length] in Hf, Hp.
    destruct fuel as [|fuel]; [lia|]. cbn [dec_loop]. rewrite (proj2 (Z.leb_le _ _)) by lia.
    pose proof (Z.mod_pos_bound n 10 ltac:(lia)) as Hmod.
    destruct (bset_front buf pos (n mod 10 + chr_0)) as (b1 & -> & Hlen & Hdrop); [lia|by apply digit_byte|]. cbn [mbind option_bind].
    destruct (IH fuel b1 (pos - 1)) as (b2 & p2 & d & -> & Hd & Hl2 & Hp2 & E); [lia|lia|].
    exists b2, p2, d. do 2 (split; [done|]). split; [congruence|]. split; [lia|]. rewrite E, Hdrop. unfold num_text.
    rewrite fmap_app, <- app_assoc. cbn [fmap list_fmap app]. by rewrite digit_char_10.
Qed.

Lemma longlong_to_string_run buf n flag : 0 <= n < 2 ^ 64 -> length buf = 32%nat ->
  let negative := has flag SIGNEDFLAG && (s64 n <? 0) in
  let mag := if negative then u64 (- n) else n in
  exists buf' pos, longlong_to_string buf n 32 flag =
    Some (buf', pos, if negative then chr_minus else if has flag SHOWSIGNFLAG then chr_plus else if has flag BLANKPOSFLAG then chr_space else 0) /\
    drop (Z.to_nat pos) buf' = num_text 10 false mag ++ [0].
Proof.
  intros Hn Hb negative mag. assert (0 <= mag < 2 ^ 64) as Hm by (unfold mag; destruct negative; [apply uw_range|]; lia).
  unfold longlong_to_string. fold negative. cbn zeta. fold mag.
  destruct (bset_front buf 32 0) as (b1 & E1 & Hl1 & Hd1); [lia|unfold byte; lia|]. change (32 - 1) with 31 in *. rewrite E1. cbn [mbind option_bind].
  pose proof (digits_length 10 mag ltac:(lia) ltac:(lia) 20%nat ltac:(lia) ltac:(lia)) as Hdl.
  destruct (dec_loop_run mag ltac:(lia) (S (length b1)) b1 31) as (b2 & p2 & d & -> & Hd & Hl2 & Hp2 & E2); [lia|lia|]. cbn [mbind option_bind].
  destruct (bset_front b2 p2 (d + chr_0)) as (b3 & -> & Hl3 & Hd3); [lia|by apply digit_byte|]. cbn [mbind option_bind].
  exists b3, (p2 - 1). split; [done|]. rewrite Hd3, E2. f_equal. rewrite Hd1. rewrite drop_ge by (simpl; lia). done.
Qed.

Lemma hex_table_lookup flag d : 0 <= d < 16 -> hex_table flag !! Z.to_nat d = Some (digit_char (has flag CAPSFLAG) d).
Proof.
  intros Hd. unfold hex_table. rewrite <- (Z2Nat.id d) at 2 by lia. assert (Z.to_nat d < 16)%nat as Hk by lia. revert Hk. generalize (Z.to_nat d) as k.
  intros k Hk. destruct (has flag CAPSFLAG); do 16 (destruct k as [|k]; [reflexivity|]); lia.
Qed.

Lemma digit_char_byte upper d : 0 <= d < 16 -> byte (digit_char upper d).
Proof. intros Hd. unfold digit_char, byte, chr_0, chr_A, chr_a. destruct (Z.ltb_spec d 10), upper; lia. Qed.

Lemma hex_loop_run flag n : 0 <= n -> forall fuel buf pos, (length (digits 16 n) <= fuel)%nat -> lenZ (digits 16 n) <= pos <= lenZ buf ->
  exists buf' pos', hex_loop fuel (hex_table flag) buf pos n = Some (buf', pos') /\
    drop (Z.to_nat pos') buf' = num_text 16 (has flag CAPSFLAG) n ++ drop (Z.to_nat pos) buf.
Proof.
  intros Hn. pattern n. revert n Hn. apply (digits_ind 16); [lia| |].
  - intros n Hn fuel buf pos Hf Hp. unfold num_text. rewrite (digits_small _ n) in * by done. destruct fuel as [|fuel]; [simpl in Hf; lia|].
    cbn [hex_loop]. rewrite Z.mod_small, hex_table_lookup by lia. cbn [mbind option_bind].
    destruct (bset_front buf pos (digit_char (has flag CAPSFLAG) n)) as (b1 & -> & Hlen & Hdrop); [simpl in Hp; lia|by apply digit_char_byte|].
    cbn [mbind option_bind]. rewrite Z.div_small by lia. cbn. exists b1, (pos - 1). by rewrite Hdrop.
  - intros n Hn IH fuel buf pos Hf Hp. unfold num_text. rewrite (digits_step 16 n) in * by lia. rewrite length_app in Hf, Hp. cbn [length] in Hf, Hp.
    destruct fuel as [|fuel]; [lia|]. cbn [hex_loop]. pose proof (Z.mod_pos_bound n 16 ltac:(lia)) as Hmod. rewrite hex_table_lookup by lia.
    cbn [mbind option_bind].
    destruct (bset_front buf pos (digit_char (has flag CAPSFLAG) (n mod 16))) as (b1 & -> & Hlen & Hdrop); [lia|by apply digit_char_byte|].
    cbn [mbind option_bind]. assert (1 <= n / 16) by (apply Z.div_le_lower_bound; lia). rewrite (proj2 (Z.eqb_neq _ _)) by lia. cbn [negb].
    destruct (IH fuel b1 (pos - 1)) as (b2 & p2 & -> & E); [lia|lia|]. exists b2, p2. split; [done|]. rewrite E, Hdrop. unfold num_text.
    by rewrite fmap_app, <- app_assoc.
Qed.

Lemma longlong_to_hexstring_run buf u flag : 0 <= u < 2 ^ 64 -> length buf = 32%nat ->
  exists buf' pos, longlong_to_hexstring buf u 32 flag = Some (buf', pos) /\
    drop (Z.to_nat pos) buf' = num_text 16 (has flag CAPSFLAG) u ++ [0].
Proof.
  intros Hu Hb. unfold longlong_to_hexstring.
  destruct (bset_front buf 32 0) as (b1 & E1 & Hl1 & Hd1); [lia|unfold byte; lia|]. change (32 - 1) with 31 in *. rewrite E1. cbn [mbind option_bind].
  pose proof (digits_length 16 u ltac:(lia) ltac:(lia) 16%nat ltac:(lia) ltac:(lia)) as Hdl.
  destruct (hex_loop_run flag u ltac:(lia) (S (length b1)) b1 31) as (b2 & p2 & -> & E2); [lia|lia|].
  exists b2, p2. split; [done|]. rewrite E2, Hd1. rewrite drop_ge by (simpl; lia). done.
Qed.

(** * Flags *)

Fixpoint format_chars (l : list Z) (r : Z * Z) : option (Z * Z) :=
  match l with [] => Some r | c :: l => r ← format_char c r.1 r.2; format_chars l r end.

Definition style_flags (sp : spec) : Z :=
  let flag (b : bool) f flags := if b then Z.lor flags f else flags in
  flag (zero sp) LEADZEROFLAG (flag (alt sp) ALTFLAG (flag (blank sp) BLANKPOSFLAG (flag (plus sp) SHOWSIGNFLAG (flag (left_ sp) LEFTFORMATFLAG 0)))).
Definition size_flags (z : int_size) : Z :=
  match z with SNone => 0 | SH => HALFFLAG | SHH => Z.lor HALFFLAG HALFHALFFLAG | SL => LONGFLAG | SLL => Z.lor LONGFLAG LONGLONGFLAG
  | SZ => SIZETFLAG | SJ => INTMAXFLAG | ST => PTRDIFFFLAG end.
Definition flags_of (sp : spec) : Z := Z.lor (style_flags sp) (size_flags (sz sp)).

Lemma format_chars_app l1 l2 r r1 : format_chars l1 r = Some r1 -> format_chars (l1 ++ l2) r = format_chars l2 r1.
Proof.
  revert r. induction l1 as [|c l1 IH]; intros r Hr; cbn [app format_chars] in *; [by injection Hr as ->|].
  destruct (format_char c r.1 r.2) as [r2|]; [|done]. cbn [mbind option_bind] in *. by apply IH.
Qed.

(** The flags are a matter of finitely many cases. *)
Ltac flag_cases sp := destruct sp as [[] [] [] [] [] w [] c]; repeat apply conj; reflexivity.

Lemma style_chars sp : format_chars (style_bytes sp) (0, 0) = Some (style_flags sp, 0).
Proof. flag_cases sp. Qed.

Lemma size_chars sp n : format_chars (size_bytes (sz sp)) (style_flags sp, n) = Some (flags_of sp, n).
Proof. flag_cases sp. Qed.

Lemma width_chars n flags : 0 < n < 2 ^ 32 -> format_chars (num_text 10 false n) (flags, 0) = Some (flags, n).
Proof.
  intros Hn. assert (0 <= n) as H0 by lia. revert Hn. pattern n. revert n H0. apply (digits_ind 10); [lia| |].
  - intros n Hn Hpos. unfold num_text. rewrite digits_small by done. cbn [fmap list_fmap format_chars fst snd]. rewrite digit_char_10 by done.
    unfold format_char. assert (isdigit (n + chr_0) = true) as -> by (unfold isdigit, chr_0, chr_9; apply andb_true_iff; lia).
    rewrite (proj2 (Z.eqb_neq (n + chr_0) chr_0)) by (unfold chr_0; lia). cbn [andb mbind option_bind]. do 2 f_equal. rewrite uw_small; lia.
  - intros n Hn IH Hlt. unfold num_text. rewrite (digits_step 10 n), fmap_app by lia. pose proof (Z.mod_pos_bound n 10 ltac:(lia)) as Hmod.
    assert (1 <= n / 10 < n) as Hd by (split; [apply Z.div_le_lower_bound; lia|apply Z.div_lt; lia]). pose proof (Z.div_mod n 10 ltac:(lia)) as Hdm.
    rewrite (format_chars_app _ _ _ _ (IH ltac:(lia))). cbn [fmap list_fmap format_chars fst snd]. rewrite digit_char_10 by done.
    unfold format_char. assert (isdigit (n mod 10 + chr_0) = true) as -> by (unfold isdigit, chr_0, chr_9; apply andb_true_iff; lia).
    rewrite (proj2 (Z.eqb_neq (n / 10) 0)), andb_false_r by lia. cbn [mbind option_bind]. do 2 f_equal. rewrite uw_small; lia.
Qed.

Lemma spec_chars sp : 0 <= width sp < 2 ^ 31 -> format_chars (spec_bytes sp) (0, 0) = Some (flags_of sp, width sp).
Proof.
  intros Hw. unfold spec_bytes, width_bytes. rewrite (format_chars_app _ _ _ _ (style_chars sp)).
  destruct (Z.eqb_spec (width sp) 0) as [E|E]; [rewrite E; cbn [app]; apply size_chars|].
  rewrite (format_chars_app _ _ _ _ (width_chars (width sp) (style_flags sp) ltac:(lia))). apply size_chars.
Qed.

Lemma conv_no_format sp : format_char (conv_byte (cv sp)) (flags_of sp) (width sp) = None.
Proof. by destruct (cv sp) as [| | |[]| | |]. Qed.

Lemma dec_flags sp v : let f := Z.lor (flags_of sp) SIGNEDFLAG in
  has f LEFTFORMATFLAG = left_ sp /\ has f LEADZEROFLAG = zero sp /\ has f SIGNEDFLAG = true /\ has f SHOWSIGNFLAG = plus sp /\
  has f BLANKPOSFLAG = blank sp /\ signed_arg (flags_of sp) v = to_signed (sz sp) v.
Proof. flag_cases sp. Qed.

Lemma uns_flags sp v : let f := flags_of sp in
  has f LEFTFORMATFLAG = left_ sp /\ has f LEADZEROFLAG = zero sp /\ has f SIGNEDFLAG = false /\ has f SHOWSIGNFLAG = plus sp /\
  has f BLANKPOSFLAG = blank sp /\ has f ALTFLAG = alt sp /\ has f CAPSFLAG = false /\ unsigned_arg f v = to_unsigned (sz sp) v.
Proof. flag_cases sp. Qed.

Lemma caps_flags sp v : let f := Z.lor (flags_of sp) CAPSFLAG in
  has f LEFTFORMATFLAG = left_ sp /\ has f LEADZEROFLAG = zero sp /\ has f ALTFLAG = alt sp /\ has f CAPSFLAG = true /\
  unsigned_arg f v = to_unsigned (sz sp) v.
Proof. flag_cases sp. Qed.

Lemma str_flags sp : let f := without (flags_of sp) LEADZEROFLAG in has f LEFTFORMATFLAG = left_ sp /\ has f LEADZEROFLAG = false.
Proof. flag_cases sp. Qed.

Lemma to_signed_range z v : - 2 ^ 63 <= to_signed z v < 2 ^ 63.
Proof.
  destruct z; cbn [to_signed];
    match goal with |- context [sw ?w v] => pose proof (sw_range w v ltac:(lia)); lia end.
Qed.

Lemma to_unsigned_range z v : 0 <= to_unsigned z v < 2 ^ 64.
Proof. destruct z; cbn [to_unsigned]; match goal with |- context [uw ?w v] => pose proof (uw_range w v ltac:(lia)); lia end. Qed.

Lemma sign_magnitude x : - 2 ^ 63 <= x < 2 ^ 63 -> (s64 (u64 x) <? 0) = (x <? 0) /\
  (if x <? 0 then u64 (- u64 x) else u64 x) = Z.abs x.
Proof.
  intros Hx. assert (s64 (u64 x) = x) as ->.
  { destruct (uw_eqm 64 x ltac:(lia)) as [k Hk]. pose proof (uw_range 64 x ltac:(lia)). apply (sw_unique 64 _ _ k); lia. }
  split; [done|]. destruct (Z.ltb_spec x 0).
  - assert (u64 x = x + 2 ^ 64) as -> by (unfold uw; rewrite <- (Z.mod_add x 1) by lia; rewrite Z.mod_small; lia).
    assert (u64 (- (x + 2 ^ 64)) = - x) as -> by (unfold uw; rewrite <- (Z.mod_add _ 1) by lia; rewrite Z.mod_small; lia). lia.
  - rewrite uw_small; lia.
Qed.

(** * The engine *)

(** Strings in memory that the output leaves alone, and what counts as put out. *)
Class OutLaws {W} (out : text -> Z -> M (pstate W) Z) (reads : Z -> list Z -> Prop) (R : list Z -> pstate W -> Prop) : Prop := {
  out_reads o s p l : R o s -> reads p l -> cstr (p_mem s) p l;
  out_local o s l r : R o s -> Forall byte l -> lenZ l < 2 ^ 31 -> wp (out (Local (l ++ r)) (lenZ l)) s (fun n s' => n = lenZ l /\ R (o ++ l) s');
  out_mem o s p l1 l2 l3 : R o s -> reads p (l1 ++ l2 ++ l3) -> lenZ l2 < 2 ^ 31 ->
    wp (out (InMem (p + lenZ l1)) (lenZ l2)) s (fun n s' => n = lenZ l2 /\ R (o ++ l2) s');
}.

Section engine.
Context {W : Type} (out : text -> Z -> M (pstate W) Z) (reads : Z -> list Z -> Prop) (R : list Z -> pstate W -> Prop) {Hout : OutLaws out reads R}.
Abbreviation P := (M (pstate W)).
Abbreviation renders := (PrintfSpec.renders reads).

Lemma wp_pmem {A} (m : M mem A) (s : pstate W) Q : wp m (p_mem s) (fun a x => Q a (MkP x (p_out s))) -> wp (on_mem m) s Q.
Proof. unfold wp, on_mem. by destruct (m (p_mem s)) as [[a x]|]. Qed.

Lemma wp_pmem_run {A} (m : M mem A) (s : pstate W) a Q : m (p_mem s) = Some (a, p_mem s) -> Q a s -> wp (on_mem m) s Q.
Proof. intros E HQ. apply wp_pmem. unfold wp. rewrite E. by destruct s. Qed.

Section output.
Context {A : Type}.
Implicit Types (Q : (Z + A) -> pstate W -> Prop).

(** A text, and what it says. *)
Definition says (t : text) (l : list Z) : Prop :=
  match t with
  | InMem p => exists q l1 l3, p = q + lenZ l1 /\ reads q (l1 ++ l ++ l3)
  | Local b => Forall byte l /\ exists r, b = l ++ r
  end.

Lemma OUTPUT_STRING_wp t l o s (k : Z -> Z -> P (Z + A)) Q : R o s -> says t l -> lenZ l < 2 ^ 31 -> lenZ (o ++ l) < 2 ^ 63 ->
  (forall s', R (o ++ l) s' -> wp (k (lenZ l) (lenZ (o ++ l))) s' Q) -> wp (OUTPUT_STRING out t (lenZ l) (lenZ o) k) s Q.
Proof.
  intros Hs Ht Hl Hlen HQ. unfold OUTPUT_STRING. wp_step. assert (wp (out t (lenZ l)) s (fun n s' => n = lenZ l /\ R (o ++ l) s')) as Hw.
  { destruct t as [p|b]; [destruct Ht as (q & l1 & l3 & -> & Hr); by eapply out_mem|destruct Ht as [Hb [r ->]]; by apply out_local]. }
  eapply wp_mono; [exact Hw|]. intros n s' [-> Hs']. rewrite (proj2 (Z.ltb_ge _ _)) by lia.
  replace (u64 (lenZ o + lenZ l)) with (lenZ (o ++ l)); [by apply HQ|]. rewrite length_app in *. rewrite uw_small; lia.
Qed.

Lemma OUTPUT_CHAR_wp c o s (k : Z -> P (Z + A)) Q : R o s -> lenZ o + 1 < 2 ^ 63 ->
  (forall s', R (o ++ [u8 c]) s' -> wp (k (lenZ (o ++ [u8 c]))) s' Q) -> wp (OUTPUT_CHAR out c (lenZ o) k) s Q.
Proof.
  intros Hs Hlen HQ. unfold OUTPUT_CHAR. apply (OUTPUT_STRING_wp (Local [u8 c]) [u8 c] o s (fun _ w => k w)); try done.
  - split; [apply Forall_singleton, u8_range|by exists []].
  - rewrite length_app. simpl. lia.
Qed.

Lemma pad_wp c n (k : Z -> P (Z + A)) Q : byte c -> forall o s, R o s -> lenZ o + Z.of_nat n < 2 ^ 63 ->
  (forall s', R (o ++ replicate n c) s' -> wp (k (lenZ (o ++ replicate n c))) s' Q) -> wp (pad out n c (lenZ o) k) s Q.
Proof.
  intros Hc. induction n as [|n IH]; intros o s Hs Hlen HQ; cbn [pad].
  - rewrite app_nil_r in HQ. by apply HQ.
  - apply OUTPUT_CHAR_wp; [done|lia|]. intros s' Hs'. rewrite (u8_byte c) in * by done. apply IH; [done|rewrite length_app; simpl; lia|].
    intros s2 Hs2. rewrite <- app_assoc in *. by apply HQ.
Qed.
End output.

Lemma local_len_run l r : Forall (fun c => c ≠ 0) l -> local_len (l ++ 0 :: r) = Some (lenZ l).
Proof.
  induction 1 as [|c l Hc Hl IH]; [done|]. cbn [app local_len]. rewrite (proj2 (Z.eqb_neq _ _)) by done. rewrite IH. cbn [mbind option_bind length]. f_equal. lia.
Qed.

(** A text that ends in a NUL. *)
Definition ended (t : text) (l : list Z) : Prop :=
  match t with InMem p => reads p l | Local b => Forall (fun c => c ≠ 0 /\ byte c) l /\ exists r, b = l ++ 0 :: r end.

Lemma ended_says t l : ended t l -> says t l.
Proof.
  destruct t as [p|b].
  - intros Hr. exists p, [], []. cbn [app length]. rewrite app_nil_r, Z.add_0_r. done.
  - intros [Hb [r ->]]. split; [eapply Forall_impl; [exact Hb|by intros c []]|by exists (0 :: r)].
Qed.

Lemma text_len_wp t l o s Q : R o s -> ended t l -> Q (lenZ l) s -> wp (on_mem (text_len t)) s Q.
Proof.
  intros Hs Ht HQ. apply wp_pmem_run with (lenZ l); [|done]. destruct t as [p|b].
  - apply strlen_run. by eapply out_reads.
  - destruct Ht as [Hl [r ->]]. unfold text_len, deref. rewrite local_len_run; [done|]. eapply Forall_impl; [exact Hl|by intros c []].
Qed.

(** What a run of the engine leaves: more output. *)
Definition puts_out (o : list Z) (r : Z + Z) (s : pstate W) : Prop := r = inr (lenZ o) /\ R o s.

Lemma output_string_wp t l o s flags num signchar : R o s -> ended t l -> lenZ l < 2 ^ 31 -> 0 <= num < 2 ^ 32 -> lenZ o < 2 ^ 31 ->
  byte signchar -> (has flags LEFTFORMATFLAG = true -> signchar = 0) ->
  let sign := if signchar =? 0 then [] else [signchar] in
  wp (output_string out t flags num signchar (lenZ o)) s
    (puts_out (o ++ justify (has flags LEFTFORMATFLAG) (has flags LEADZEROFLAG) num sign l)).
Proof.
  intros Hs Ht Hl Hnum Ho Hsc Hleft sign. pose proof (ended_says _ _ Ht) as Hsay. unfold output_string. wp_step.
  apply (text_len_wp t l o); [done|done|]. unfold justify. destruct (has flags LEFTFORMATFLAG) eqn:EL.
  - subst sign. rewrite (Hleft eq_refl). cbn [Z.eqb app length]. apply OUTPUT_STRING_wp; [done|done|lia|rewrite length_app; lia|].
    intros s1 Hs1. rewrite (uw_small 32 (lenZ l)) by lia.
    assert (Z.to_nat (num - lenZ l) = (Z.to_nat num - 0 - length l)%nat) as -> by lia.
    apply pad_wp; [by compute|done|rewrite length_app; lia|]. intros s2 Hs2. wp_step. rewrite <- app_assoc in *. done.
  - assert (Z.to_nat ((if negb (signchar =? 0) && (0 <? num) then num - 1 else num) - lenZ l) = (Z.to_nat num - length sign - length l)%nat) as ->.
    { subst sign. destruct (signchar =? 0); cbn [negb andb length]; [lia|]. destruct (Z.ltb_spec 0 num); lia. }
    set (n := (Z.to_nat num - length sign - length l)%nat).
    assert (forall o' s' k, R o' s' -> lenZ o' + 1 < 2 ^ 63 ->
      (forall s2, R (o' ++ sign) s2 -> wp (k (lenZ (o' ++ sign))) s2 (puts_out (o ++ if has flags LEADZEROFLAG then sign ++ replicate n chr_0 ++ l else replicate n chr_space ++ sign ++ l))) ->
      wp (if negb (signchar =? 0) then OUTPUT_CHAR out signchar (lenZ o') k else k (lenZ o')) s'
        (puts_out (o ++ if has flags LEADZEROFLAG then sign ++ replicate n chr_0 ++ l else replicate n chr_space ++ sign ++ l))) as Hsign.
    { intros o' s' k Hs' Hlen Hk. subst sign. destruct (signchar =? 0); cbn [negb].
      - rewrite app_nil_r in Hk. by apply Hk.
      - apply OUTPUT_CHAR_wp; [done|done|]. by rewrite u8_byte. }
    assert (length sign <= 1)%nat as Hsl by (subst sign; by destruct (signchar =? 0); simpl; lia).
    destruct (has flags LEADZEROFLAG); cbn [andb negb]; rewrite ?andb_false_l, ?andb_true_l.
    + apply Hsign; [done|lia|]. intros s1 Hs1. apply pad_wp; [by compute|done|rewrite length_app; lia|]. intros s2 Hs2.
      apply OUTPUT_STRING_wp; [done|done|lia|rewrite !length_app, length_replicate; lia|]. intros s3 Hs3. wp_step.
      rewrite <- !app_assoc in *. done.
    + apply pad_wp; [by compute|done|lia|]. intros s1 Hs1. apply Hsign; [done|rewrite length_app, length_replicate; lia|].
      intros s2 Hs2. apply OUTPUT_STRING_wp; [done|done|lia|rewrite !length_app, length_replicate; lia|]. intros s3 Hs3. wp_step.
      rewrite <- !app_assoc in *. done.
Qed.
Lemma num_ended base upper n : 2 <= base <= 16 -> 0 <= n -> ended (Local (num_text base upper n ++ [0])) (num_text base upper n).
Proof.
  intros Hb Hn. split; [by apply num_text_bytes|by exists []].
Qed.

Lemma justify_length left_ zero width sign body : (length sign + length body <= length (justify left_ zero width sign body))%nat.
Proof. unfold justify. destruct left_; [|destruct zero]; rewrite !length_app, length_replicate; lia. Qed.

Lemma signed_conv_wp sp v o s : R o s -> lenZ o < 2 ^ 31 -> 0 <= width sp < 2 ^ 31 ->
  let x := to_signed (sz sp) v in (left_ sp = true -> sign_text sp (x <? 0) = []) ->
  wp (signed_conv out (flags_of sp) (width sp) (lenZ o) v) s
    (puts_out (o ++ justify (left_ sp) (zero sp) (width sp) (sign_text sp (x <? 0)) (num_text 10 false (Z.abs x)))).
Proof.
  intros Hs Ho Hw x Hleft. pose proof (to_signed_range (sz sp) v) as Hx. fold x in Hx. destruct (dec_flags sp v) as (EL & EZ & ES & EP & EB & EA).
  destruct (sign_magnitude x Hx) as [Eneg Emag]. unfold signed_conv. rewrite EA. fold x. wp_step.
  destruct (longlong_to_string_run num_buffer (u64 x) (Z.lor (flags_of sp) SIGNEDFLAG)) as (buf & pos & E & Hd); [by apply uw_range|done|].
  rewrite E, ES, EP, EB in *. cbn [andb] in *. rewrite Eneg in *. rewrite Emag in Hd. eexists. split; [done|]. cbn beta iota. rewrite Hd.
  pose proof (num_text_length 10 false (Z.abs x) 20 ltac:(lia) ltac:(lia) ltac:(lia) ltac:(lia)) as Hl.
  assert (sign_text sp (x <? 0) = let c := if x <? 0 then chr_minus else if plus sp then chr_plus else if blank sp then chr_space else 0 in
    if c =? 0 then [] else [c]) as Esign by (unfold sign_text; by destruct (x <? 0), (plus sp), (blank sp)).
  rewrite Esign. rewrite <- EL, <- EZ at 1. apply output_string_wp; try done; try lia.
  - by apply num_ended; lia.
  - by destruct (x <? 0), (plus sp), (blank sp).
  - intros H1. rewrite EL in H1. specialize (Hleft H1). rewrite Esign in Hleft. revert Hleft. cbn zeta.
    destruct (Z.eqb_spec (if x <? 0 then chr_minus else if plus sp then chr_plus else if blank sp then chr_space else 0) 0); [done|done].
Qed.

Lemma unsigned_conv_wp sp v o s : R o s -> lenZ o < 2 ^ 31 -> 0 <= width sp < 2 ^ 31 -> plus sp = false -> blank sp = false ->
  wp (unsigned_conv out (flags_of sp) (width sp) (lenZ o) v) s
    (puts_out (o ++ justify (left_ sp) (zero sp) (width sp) [] (num_text 10 false (to_unsigned (sz sp) v)))).
Proof.
  intros Hs Ho Hw Hp Hb. pose proof (to_unsigned_range (sz sp) v) as Hx. destruct (uns_flags sp v) as (EL & EZ & ES & EP & EB & _ & _ & EA).
  unfold unsigned_conv. rewrite EA. wp_step.
  destruct (longlong_to_string_run num_buffer (to_unsigned (sz sp) v) (flags_of sp)) as (buf & pos & E & Hd); [done|done|].
  rewrite E, ES, EP, EB, Hp, Hb in *. cbn [andb] in *. eexists. split; [done|]. cbn beta iota. rewrite Hd.
  pose proof (num_text_length 10 false _ 20 ltac:(lia) (proj1 Hx) ltac:(lia) ltac:(lia)) as Hl.
  rewrite <- EL, <- EZ at 1. apply (output_string_wp _ _ o s (flags_of sp) (width sp) 0); try done; try lia. by apply num_ended; lia.
Qed.

Lemma hex_conv_wp sp flags upper v o s : R o s -> lenZ o < 2 ^ 31 -> 0 <= width sp < 2 ^ 31 ->
  has flags LEFTFORMATFLAG = left_ sp -> has flags LEADZEROFLAG = zero sp -> has flags ALTFLAG = alt sp -> has flags CAPSFLAG = upper ->
  unsigned_arg flags v = to_unsigned (sz sp) v -> lenZ o + 2 < 2 ^ 31 ->
  wp (hex_conv out flags (width sp) (lenZ o) v) s
    (puts_out (o ++ (if alt sp then [chr_0; if upper then chr_X else chr_x] else []) ++
       justify (left_ sp) (zero sp) (width sp) [] (num_text 16 upper (to_unsigned (sz sp) v)))).
Proof.
  intros Hs Ho Hw EL EZ EAlt EC EA Ho2. pose proof (to_unsigned_range (sz sp) v) as Hx. unfold hex_conv, local. rewrite EA. wp_step.
  destruct (longlong_to_hexstring_run num_buffer (to_unsigned (sz sp) v) flags) as (buf & pos & E & Hd); [done|done|].
  eexists. split; [exact E|]. wp_step. cbn [fst snd]. rewrite Hd, EAlt, EC.
  pose proof (num_text_length 16 upper _ 16 ltac:(lia) (proj1 Hx) ltac:(lia) ltac:(lia)) as Hl.
  assert (forall o' s', R o' s' -> lenZ o' < 2 ^ 31 -> wp (output_string out (Local (num_text 16 upper (to_unsigned (sz sp) v) ++ [0])) flags (width sp) 0 (lenZ o')) s'
    (puts_out (o' ++ justify (left_ sp) (zero sp) (width sp) [] (num_text 16 upper (to_unsigned (sz sp) v))))) as Hout'.
  { intros o' s' Hs' Ho'. rewrite <- EL, <- EZ at 1. apply (output_string_wp _ _ o' s' flags (width sp) 0); try done; try lia. by apply num_ended; lia. }
  destruct (alt sp).
  - apply OUTPUT_CHAR_wp; [done|lia|]. intros s1 Hs1. apply OUTPUT_CHAR_wp; [done|rewrite length_app; simpl; lia|]. intros s2 Hs2.
    rewrite <- app_assoc in *. replace ([u8 chr_0] ++ [u8 (if upper then chr_X else chr_x)]) with [chr_0; if upper then chr_X else chr_x] in * by (by destruct upper).
    rewrite app_assoc. apply Hout'; [done|]. rewrite length_app. simpl. lia.
  - by apply Hout'.
Qed.

Lemma string_conv_wp sp p l o s : R o s -> lenZ o < 2 ^ 31 -> 0 <= width sp < 2 ^ 31 -> lenZ l < 2 ^ 31 ->
  (p ≠ 0 /\ reads p l \/ p = 0 /\ l = [60; 110; 117; 108; 108; 62]) ->
  wp (string_conv out (flags_of sp) (width sp) (lenZ o) p) s (puts_out (o ++ justify (left_ sp) false (width sp) [] l)).
Proof.
  intros Hs Ho Hw Hl Hp. destruct (str_flags sp) as [EL EZ]. unfold string_conv.
  assert (ended (if p =? 0 then Local str_null else InMem p) l) as Ht.
  { destruct Hp as [[Hp Hr]|[-> ->]]; [by rewrite (proj2 (Z.eqb_neq _ _))|]. cbn. split; [|by exists []]. repeat constructor; by compute. }
  rewrite <- EL, <- EZ at 1. apply (output_string_wp _ _ o s (without (flags_of sp) LEADZEROFLAG) (width sp) 0); try done; lia.
Qed.

Lemma char_arg v : u8 (u32 v) = u8 v.
Proof. unfold uw. rewrite <- Znumtheory.Zmod_div_mod; [done|lia|lia|]. exists (2 ^ 24). reflexivity. Qed.

Lemma convert_wp sp ap ap' t o s : renders sp ap t -> R o s -> 0 <= width sp < 2 ^ 31 -> lenZ (o ++ t) + 2 < 2 ^ 31 ->
  wp (convert out (conv_byte (cv sp)) (flags_of sp) (width sp) (ap ++ ap') (lenZ o)) s (fun r s' => puts_out (o ++ t) r.1 s' /\ r.2 = ap').
Proof.
  intros Ht Hs Hw Hlen. rewrite length_app in Hlen. assert (lenZ o < 2 ^ 31) as Ho by lia.
  assert (forall (m : P (Z + Z)), wp m s (puts_out (o ++ t)) -> wp (r ← m; mret (r, ap')) s (fun r s' => puts_out (o ++ t) r.1 s' /\ r.2 = ap')) as Harg.
  { intros m Hm. wp_step. eapply wp_mono; [exact Hm|]. intros r s' Hr. by wp_step. }
  destruct Ht as [v Hc Hleft|v Hc Hp Hb|upper v Hc Halt|p l Hc Hp Hr|Hc|v Hc Hw0|Hc]; unfold convert.
  - destruct Hc as [Hc|Hc]; rewrite Hc; cbn; apply Harg; by apply signed_conv_wp.
  - rewrite Hc. cbn. apply Harg. by apply unsigned_conv_wp.
  - assert (alt sp && negb (to_unsigned (sz sp) v =? 0) = alt sp) as Ealt.
    { destruct (alt sp) eqn:Ea; [|done]. destruct (Halt eq_refl) as [_ Hx]. by rewrite (proj2 (Z.eqb_neq _ 0)). }
    rewrite Ealt in *. rewrite Hc. destruct upper; cbn; apply Harg.
    + destruct (caps_flags sp v) as (EL & EZ & EA & EC & Ev). apply (hex_conv_wp sp _ true); try done. lia.
    + destruct (uns_flags sp v) as (EL & EZ & _ & _ & _ & EA & EC & Ev). apply (hex_conv_wp sp _ false); try done. lia.
  - rewrite Hc. cbn. apply Harg, string_conv_wp; try done; [|by left]. pose proof (justify_length (left_ sp) false (width sp) [] l). simpl in *. lia.
  - rewrite Hc. cbn. apply Harg, string_conv_wp; try done. by right.
  - rewrite Hc. cbn. apply Harg. apply OUTPUT_CHAR_wp; [done|lia|]. intros s' Hs'. wp_step.
    rewrite (u8_byte (u8 (u32 v))), char_arg in * by apply u8_range. done.
  - rewrite Hc. cbn. apply Harg. apply OUTPUT_CHAR_wp; [done|lia|]. intros s' Hs'. by wp_step.
Qed.
(** ** The loop *)

Definition text_end (r : list Z) : Prop := match r with [] => True | c :: _ => c = chr_percent end.

Lemma regular_chars_run l : forall fuel p n m r, cstr m p (l ++ r) -> plain l -> text_end r -> (length l < fuel)%nat ->
  regular_chars fuel p n m = Some ((n + lenZ l, hd 0 r), m).
Proof.
  induction l as [|c l IH]; intros [|fuel] p n m r Hc Hl Hr Hf; try (simpl in Hf; lia); cbn [regular_chars].
  - run (rd_some _ _ _ (cstr_head _ _ _ Hc)). rewrite Z.add_0_r. destruct r as [|c r]; [done|]. cbn in Hr. by subst c.
  - cbn [app] in Hc. pose proof (cstr_head _ _ _ Hc) as Hh. cbn in Hh. run (rd_some _ _ _ Hh). apply cstr_cons in Hc as (_ & _ & _ & Hc).
    apply Forall_cons in Hl as [(H0 & H1 & _) Hl]. rewrite (proj2 (Z.eqb_neq _ _) H0), (proj2 (Z.eqb_neq _ _) H1). cbn [orb].
    rewrite (IH fuel (p + 1) (n + 1) m r Hc Hl Hr) by (simpl in Hf; lia). do 3 f_equal. simpl. lia.
Qed.

Lemma next_format_run l : forall fuel p flags num flags' num' m c r, cstr m p (l ++ c :: r) ->
  format_chars l (flags, num) = Some (flags', num') -> format_char c flags' num' = None -> (length l < fuel)%nat ->
  next_format fuel p flags num m = Some ((c, p + lenZ l + 1, flags', num'), m).
Proof.
  induction l as [|d l IH]; intros [|fuel] p flags num flags' num' m c r Hc Hl Hn Hf; try (simpl in Hf; lia); cbn [next_format].
  - pose proof (cstr_head _ _ _ Hc) as Hh. cbn in Hh. run (rd_some _ _ _ Hh). injection Hl as -> ->. rewrite Hn. by rewrite Z.add_0_r.
  - cbn [app] in Hc. pose proof (cstr_head _ _ _ Hc) as Hh. cbn in Hh. run (rd_some _ _ _ Hh). apply cstr_cons in Hc as (_ & _ & _ & Hc).
    cbn [format_chars fst snd] in Hl. destruct (format_char d flags num) as [[f1 n1]|]; [|done]. cbn [mbind option_bind] in Hl.
    rewrite (IH fuel (p + 1) f1 n1 flags' num' m c r Hc Hl Hn) by (simpl in Hf; lia). by replace (p + lenZ (d :: l) + 1) with (p + 1 + lenZ l + 1) by (simpl; lia).
Qed.

(** The text up to the next conversion or the end. *)
Lemma text_wp {A} q pre l r o s (k : Z -> Z -> Z -> P (Z + A)) Q : reads q (pre ++ l ++ r) -> plain l -> text_end r -> R o s -> lenZ (o ++ l) < 2 ^ 31 ->
  (forall s', R (o ++ l) s' -> wp (k (lenZ l) (hd 0 r) (lenZ (o ++ l))) s' Q) ->
  wp (x ← on_mem (with_fuel (fun n => regular_chars n (q + lenZ pre) 0)); let '(len, c) := x in
      OUTPUT_STRING out (InMem (q + lenZ pre)) len (lenZ o) (fun _ written => k len c written)) s Q.
Proof.
  intros Hq Hl Hr Hs Hlen HQ. pose proof (out_reads o s q _ Hs Hq) as Hc. pose proof (cstr_app _ _ _ _ Hc) as Hc2.
  pose proof (cstr_fuel _ _ _ Hc2) as Hf. rewrite length_app in Hf, Hlen. apply wp_bind.
  apply wp_pmem_run with (lenZ l, hd 0 r).
  { unfold with_fuel. rewrite (regular_chars_run l _ _ 0 _ r); [done|done|done|done|lia]. }
  cbn beta iota. apply (OUTPUT_STRING_wp _ l o s (fun _ w => k (lenZ l) (hd 0 r) w)); try done; [|lia|rewrite length_app; lia].
  by exists q, pre, r.
Qed.

Lemma conv_byte_nonzero c : (conv_byte c =? 0) = false.
Proof. by destruct c as [| | |[]| | |]. Qed.

Lemma engine_loop_wp q tl fs : plain tl -> Forall (fun x => plain x.1 /\ 0 <= width x.2 < 2 ^ 31) fs -> forall fuel pre ap t o s,
  reads q (pre ++ concat (field_bytes <$> fs) ++ tl) -> renders_fields reads fs ap t -> R o s -> (length fs < fuel)%nat ->
  lenZ (o ++ t ++ tl) + 2 < 2 ^ 31 ->
  wp (engine_loop out fuel (q + lenZ pre) ap (lenZ o)) s (puts_out (o ++ t ++ tl)).
Proof.
  intros Htl Hfs. induction Hfs as [|[l sp] fs [Hl Hw] Hfs IH]; intros [|fuel] pre ap t o s Hq Ht Hs Hf Hlen; try (simpl in Hf; lia); cbn [engine_loop];
    inversion Ht as [|? ? ? ap1 ap2 t1 t2 Ht1 Ht2]; subst.
  - cbn [fmap list_fmap concat app] in *. rewrite <- (app_nil_r tl) in Hq.
    eapply (text_wp q pre tl [] o s (fun n c w => _)); try done. lia.
  - cbn [fmap list_fmap concat fst snd] in *. unfold field_bytes at 1 in Hq. cbn [fst snd] in Hq.
    set (rest := concat (field_bytes <$> fs) ++ tl) in *.
    assert (pre ++ ((l ++ chr_percent :: spec_bytes sp ++ [conv_byte (cv sp)]) ++ concat (field_bytes <$> fs)) ++ tl =
      pre ++ l ++ chr_percent :: (spec_bytes sp ++ conv_byte (cv sp) :: rest)) as E.
    { unfold rest. rewrite <- !app_assoc. do 2 f_equal. cbn [app]. f_equal. by rewrite <- !app_assoc. }
    rewrite E in Hq. rewrite !length_app in Hlen. eapply (text_wp q pre l _ o s (fun n c w => _)); try done; [rewrite length_app; lia|].
    intros s1 Hs1. cbn [hd]. cbv beta. rewrite (proj2 (Z.eqb_neq chr_percent 0)) by done. wp_step.
    assert (reads q ((pre ++ l ++ [chr_percent]) ++ spec_bytes sp ++ conv_byte (cv sp) :: rest)) as Hq2 by (by rewrite <- !app_assoc).
    pose proof (cstr_app _ _ _ _ (out_reads _ _ _ _ Hs1 Hq2)) as Hc. rewrite !length_app in Hc. cbn [length] in Hc.
    replace (q + Z.of_nat (length pre + (length l + 1))) with (q + lenZ pre + lenZ l + 1) in Hc by lia.
    pose proof (cstr_fuel _ _ _ Hc) as Hfuel. rewrite length_app in Hfuel.
    eapply wp_pmem_run.
    { unfold with_fuel. apply (next_format_run (spec_bytes sp)) with (1 := Hc); [by apply spec_chars|apply conv_no_format|lia]. }
    cbn beta iota. rewrite conv_byte_nonzero. wp_step. eapply wp_mono; [apply (convert_wp sp ap1 ap2 t1); try done; rewrite !length_app; lia|].
    intros [r ap'] s2 [[Hr Hs2] Hap]. cbn [fst snd] in *. subst r ap'.
    replace (q + lenZ pre + lenZ l + 1 + lenZ (spec_bytes sp) + 1) with (q + lenZ (pre ++ l ++ chr_percent :: spec_bytes sp ++ [conv_byte (cv sp)]))
      by (rewrite !length_app; cbn [length]; rewrite length_app; cbn [length]; lia).
    replace (o ++ (l ++ t1 ++ t2) ++ tl) with (((o ++ l) ++ t1) ++ t2 ++ tl) by (by rewrite <- !app_assoc).
    apply IH; try done; [|simpl in Hf; lia|rewrite !length_app; lia]. fold rest. rewrite <- !app_assoc. cbn [app]. rewrite <- app_assoc. done.
Qed.

(** The engine puts out the text of the format, and returns its length. *)
Lemma printf_engine_wp q f ap t o s : o = [] -> format_ok f -> reads q (format_bytes f) -> renders_format reads f ap t -> R o s -> lenZ t + 2 < 2 ^ 31 ->
  wp (_printf_engine out q ap) s (fun r s' => r = lenZ t /\ R t s').
Proof.
  intros -> [Hfs Htl] Hq Ht Hs Hlen. destruct Ht as [ap t Ht]. unfold _printf_engine. wp_step. unfold format_bytes in Hq.
  pose proof (cstr_fuel _ _ _ (out_reads _ _ _ _ Hs Hq)) as Hfuel.
  assert (length (fields f) <= length (concat (field_bytes <$> fields f)))%nat as Hl.
  { clear. induction (fields f) as [|[l sp] fs IH]; [done|]. cbn [fmap list_fmap concat]. rewrite length_app. unfold field_bytes at 1. rewrite length_app.
    cbn [length fst snd]. lia. }
  rewrite length_app in Hfuel. pose proof (engine_loop_wp q (tail f) (fields f) Htl Hfs (S (base.size (p_mem s))) [] ap t [] s) as He.
  cbn [app length] in He. rewrite Z.add_0_r in He. eapply wp_mono; [apply He; try done; lia|].
  intros r s' [-> Hs']. wp_step. split; [|done]. apply sw_small; lia.
Qed.
End engine.

(** * Into a string *)

Section string.
Context (m0 : mem) (str len : Z) (Hlen : 0 < len) (Hmap : mapped m0 str (Z.to_nat len)).

Definition apart (p : Z) (l : list Z) : Prop := cstr m0 p l /\ disjoint_ranges str (Z.to_nat len) p (S (length l)).
Definition stored (o : list Z) (s : pstate output_args) : Prop :=
  s = MkP (put m0 str (take (Z.to_nat len) o)) (MkOut str len (Z.min len (lenZ o))).

Lemma stored_reads o s p l : stored o s -> apart p l -> cstr (p_mem s) p l.
Proof.
  intros -> [[Hb Hl] Hd]. split; [|done]. cbn. apply put_bytes_other; [done|]. rewrite length_app. cbn [length].
  unfold disjoint_ranges in *. rewrite length_take. lia.
Qed.

Lemma output_loop_wp t l : forall o s i, stored o s -> Forall byte l ->
  (forall j c o' s', stored o' s' -> l !! j = Some c -> text_byte t (i + Z.of_nat j) (p_mem s') = Some (c, p_mem s')) ->
  wp (output_loop (length l) t i) s (fun _ s' => stored (o ++ l) s').
Proof.
  induction l as [|c l IH]; intros o s i Hs Hb Ht; cbn [length output_loop].
  - wp_step. by rewrite app_nil_r.
  - apply Forall_cons in Hb as [Hc Hb]. wp_step. assert (wp (if out_pos (p_out s) <? out_len (p_out s) then
             c ← on_mem (text_byte t i);
             _ ← on_mem (wr (outstr (p_out s) + out_pos (p_out s)) c);
             modify (fun s' => MkP (p_mem s') (MkOut (outstr (p_out s)) (out_len (p_out s)) (out_pos (p_out s) + 1)))
           else mret tt) s (fun _ s' => stored (o ++ [c]) s')) as Hstep.
    { pose proof (Ht 0%nat c o s Hs eq_refl) as Hc0. rewrite Z.add_0_r in Hc0. rewrite Hs. cbn [p_out out_pos out_len outstr].
      destruct (Z.ltb_spec (Z.min len (lenZ o)) len) as [Hlt|Hge].
      - wp_step. rewrite <- Hs. eapply wp_pmem_run; [exact Hc0|]. wp_step. apply wp_pmem. apply wp_wr.
        + rewrite Hs. cbn [p_mem]. rewrite Z.min_r by lia. apply (put_mapped m0 str _ str (Z.to_nat len) Hmap). lia.
        + wp_step. rewrite Hs. unfold stored. cbn [p_mem p_out]. rewrite Z.min_r, u8_byte by (done || lia).
          rewrite !take_ge by (rewrite ?length_app; simpl; lia). rewrite put_app, length_app. cbn [put length outstr out_pos out_len].
          by replace (len `min` Z.of_nat (length o + 1)) with (lenZ o + 1) by lia.
      - wp_step. unfold stored. rewrite take_app_le, length_app by lia. cbn [length].
        by replace (len `min` Z.of_nat (length o + 1)) with (len `min` lenZ o) by lia. }
    eapply wp_mono; [exact Hstep|]. intros [] s1 Hs1. replace (o ++ c :: l) with ((o ++ [c]) ++ l) by (by rewrite <- app_assoc).
    apply IH; [done|done|]. intros j x o' s' Hs' Hx. specialize (Ht (S j) x o' s' Hs' Hx). by replace (i + 1 + Z.of_nat j) with (i + Z.of_nat (S j)) by lia.
Qed.

Lemma vsnprintf_output_wp t l o s : stored o s -> Forall byte l -> lenZ l < 2 ^ 31 ->
  (forall j c o' s', stored o' s' -> l !! j = Some c -> text_byte t (Z.of_nat j) (p_mem s') = Some (c, p_mem s')) ->
  wp (_vsnprintf_output t (lenZ l)) s (fun n s' => n = lenZ l /\ stored (o ++ l) s').
Proof.
  intros Hs Hb Hl Ht. unfold _vsnprintf_output. wp_step. rewrite Nat2Z.id. eapply wp_mono; [by apply output_loop_wp|].
  intros [] s' Hs'. wp_step. split; [|done]. apply sw_small; lia.
Qed.

#[local] Instance string_out : OutLaws _vsnprintf_output apart stored.
Proof.
  split.
  - exact stored_reads.
  - intros o s l r Hs Hb Hl. apply vsnprintf_output_wp; try done. intros j c o' s' _ Hj. unfold text_byte, deref.
    destruct (Z.ltb_spec (Z.of_nat j) 0); [lia|]. rewrite Nat2Z.id. by rewrite (lookup_app_l_Some _ _ _ _ Hj).
  - intros o s p l1 l2 l3 Hs Hr Hl. pose proof (stored_reads _ _ _ _ Hs Hr) as [_ Hb]. rewrite !Forall_app in Hb.
    apply vsnprintf_output_wp; [done| |done|].
    + eapply Forall_impl; [apply Hb|]. by intros c [].
    + intros j c o' s' Hs' Hj. pose proof (stored_reads _ _ _ _ Hs' Hr) as [Hat _]. cbn [text_byte]. apply rd_some.
      rewrite <- Z.add_assoc, <- Nat2Z.inj_add. apply Hat. rewrite <- !app_assoc. rewrite lookup_app_r by lia.
      replace (length l1 + j - length l1)%nat with j by lia. by apply lookup_app_l_Some.
Qed.

Lemma put_front_back (l : list Z) c : length l = Z.to_nat len ->
  put (put m0 str l) (str + len - 1) [c] = put m0 str (take (Z.to_nat (len - 1)) l ++ [c]).
Proof.
  intros Hl. assert (length (drop (Z.to_nat (len - 1)) l) = 1%nat) as Hd by (rewrite length_drop; lia).
  rewrite <- (take_drop (Z.to_nat (len - 1)) l) at 1. replace (str + len - 1) with (str + lenZ (take (Z.to_nat (len - 1)) l)) by (rewrite length_take; lia).
  pose proof (put_replace m0 str (take (Z.to_nat (len - 1)) l) (drop (Z.to_nat (len - 1)) l) [] [c]) as Hr. rewrite !app_nil_r in Hr. by apply Hr.
Qed.

Lemma vsnprintf_run fmt f ap t : format_ok f -> apart fmt (format_bytes f) -> renders_format apart f ap t -> lenZ t + 2 < 2 ^ 31 ->
  vsnprintf str len fmt ap m0 = Some (lenZ t, put m0 str (take (Z.to_nat (len - 1)) t ++ [0])).
Proof.
  intros Hf Hq Ht Hl. unfold vsnprintf.
  pose proof (printf_engine_wp _vsnprintf_output apart stored fmt f ap t [] (MkP m0 (MkOut str len 0)) eq_refl Hf Hq Ht) as He.
  apply wp_run in He as (r & s' & -> & -> & ->); [|unfold stored; rewrite take_nil; cbn; by rewrite Z.min_r by lia|done].
  cbn [p_out out_pos p_mem]. destruct (Z.leb_spec len (Z.min len (lenZ t))) as [Hge|Hlt].
  - assert (wr (str + len - 1) 0 (put m0 str (take (Z.to_nat len) t)) = Some (tt, put m0 str (take (Z.to_nat (len - 1)) t ++ [0]))) as Hw; [|by run Hw].
    pose proof (put_front_back (take (Z.to_nat len) t) 0 ltac:(rewrite length_take; lia)) as Hp. rewrite take_take, Nat.min_l in Hp by lia.
    rewrite wr_some, <- Hp; [done|]. replace (str + len - 1) with (str + Z.of_nat (Z.to_nat (len - 1))) by lia.
    apply (put_mapped m0 str _ str (Z.to_nat len) Hmap). lia.
  - assert (wr (str + lenZ t) 0 (put m0 str (take (Z.to_nat len) t)) = Some (tt, put m0 str (take (Z.to_nat (len - 1)) t ++ [0]))) as Hw; [|by run Hw].
    rewrite wr_some; [|apply (put_mapped m0 str _ str (Z.to_nat len) Hmap); lia]. rewrite !take_ge by lia. by rewrite put_app.
Qed.
End string.

(** C39. snprintf writes at most its size bytes, always terminated, and returns the length of
    the whole text: for a format of plain text and conversions d, i, u, x, X, s, c and
    percent, with flags (in the order - + blank # 0), width and size, the buffer holds the
    first size - 1 bytes of the text that C's printf defines for the arguments (the digits
    of the number converted to the type the size names, sign, padding with spaces or
    zeros, adjusted left or right; <null> for a null string), then a zero, and no other
    byte changes. The size is not 0 and the buffer is apart from the format and the
    strings. Left out, since the code departs from C there: a sign in a field adjusted to
    the left, + and blank on u, # with a width or for the number 0, a width of c, a
    precision; and texts of 2^31 - 2 bytes or more. *)
Theorem snprintf_formats m str len fmt f ap t : 0 < len -> mapped m str (Z.to_nat len) -> format_ok f -> apart m str len fmt (format_bytes f) ->
  renders_format (apart m str len) f ap t -> lenZ t + 2 < 2 ^ 31 ->
  snprintf str len fmt ap m = Some (lenZ t, put m str (take (Z.to_nat (len - 1)) t ++ [0])).
Proof. intros Hlen Hm Hf Hq Ht Hl. by apply (vsnprintf_run m str len Hlen Hm fmt f). Qed.

End PrintfProps.
