(* ===== verification/PrintfStrto.v ===== *)
(** What [printf] writes for a number, [strtol] and [strtoul] read back. *)
From S2P Require Import Prelude Mem Ctype CString CStringProps StrProps Strto StrtoProps Printf PrintfSpec PrintfProps.
Local Open Scope Z_scope.

Module PrintfStrto.
Import Mem Ctype CString CStringProps StrProps Strto StrtoProps Printf PrintfSpec PrintfProps.

(** A conversion to base [base] takes the text as the number [n] with that sign. *)
Definition reads_back (base n : Z) (negative : bool) (t : list Z) : Prop :=
  exists w sg pre l r, t = w ++ sg ++ pre ++ l ++ r /\ numeral base w sg pre l r base /\ value base 0 l = n /\ sign_of sg = negative.

Lemma spaces_space n : Forall (fun c => isspace c = true) (replicate n chr_space).
Proof. by apply Forall_replicate. Qed.

Lemma zeros_value base n l : value base 0 (replicate n chr_0 ++ l) = value base 0 l.
Proof. induction n as [|n IH]; [done|]. cbn [replicate app]. by rewrite value_cons. Qed.

Lemma dig_zero base : 2 <= base -> dig base chr_0 = true.
Proof. intros Hb. unfold dig, digit_val. cbn. apply Z.ltb_lt. lia. Qed.

Lemma dig_not_x c : dig 16 c = true -> c ≠ chr_x /\ c ≠ chr_X.
Proof. intros Hd. split; by intros ->. Qed.

(** Digits of base 16 and spaces never look like a prefix. *)
Lemma no_prefix l r : Forall (fun c => dig 16 c = true) l -> Forall (fun c => c = chr_space) r -> no_0x (l ++ r) = true.
Proof.
  intros Hl Hr. assert (Forall (fun c => c ≠ chr_x /\ c ≠ chr_X) (l ++ r)) as Hall.
  { apply Forall_app. split; [eapply Forall_impl; [exact Hl|apply dig_not_x]|eapply Forall_impl; [exact Hr|by intros c ->]]. }
  destruct (l ++ r) as [|a [|b t]]; [done|done|]. rewrite !Forall_cons in Hall. destruct Hall as (_ & [Hx HX] & _). cbn [no_0x].
  rewrite (proj2 (Z.eqb_neq _ _) Hx), (proj2 (Z.eqb_neq _ _) HX). by rewrite andb_false_r.
Qed.

Lemma number_numeral base n w sg pre l r : base = 10 \/ base = 16 -> Forall (fun c => isspace c = true) w -> is_sign sg ->
  (pre = [] \/ base = 16 /\ pre = [chr_0; chr_x]) -> Forall (fun c => dig base c = true) l -> Forall (fun c => c = chr_space) r -> l ≠ [] ->
  value base 0 l = n -> reads_back base n (sign_of sg) (w ++ sg ++ pre ++ l ++ r).
Proof.
  intros Hb Hw Hsg Hpre Hl Hr Hne Hv. exists w, sg, pre, l, r. split; [done|]. split; [|done]. split; try done.
  - destruct Hpre as [->|[-> ->]]; [|apply PHex; by right]. apply PExplicit; [lia|]. intros ->. by apply no_prefix.
  - destruct r as [|c r]; [done|]. apply Forall_cons in Hr as [-> _]. cbn. by destruct Hb as [->| ->].
Qed.

Lemma num_text_some base upper n : num_text base upper n ≠ [].
Proof.
  unfold num_text, digits. cbn [digits_from]. destruct (n <? base); [done|]. intros E. apply fmap_nil_inv, app_nil in E as [_ E]. done.
Qed.

Lemma justified_reads base upper n left_ zero width sign : base = 10 \/ base = 16 -> 0 <= n ->
  sign = [] \/ sign = [chr_minus] \/ sign = [chr_plus] \/ sign = [chr_space] -> (left_ = true -> sign = []) ->
  reads_back base n (sign_of sign) (justify left_ zero width sign (num_text base upper n)).
Proof.
  intros Hb Hn Hsign Hleft. assert (2 <= base <= 36) as Hb2 by lia. pose proof (num_text_dig base upper n Hb2 Hn) as Hd.
  pose proof (num_text_some base upper n) as Hne. pose proof (num_text_value base upper n Hb2 Hn) as Hv. unfold justify.
  set (k := (Z.to_nat width - length sign - length (num_text base upper n))%nat). destruct left_.
  - rewrite (Hleft eq_refl). apply (number_numeral base n [] [] [] _ (replicate k chr_space)); try done; [by left|by left|by apply Forall_replicate].
  - assert (exists w sg, sign = w ++ sg /\ Forall (fun c => isspace c = true) w /\ is_sign sg /\ sign_of sg = sign_of sign) as (w & sg & -> & Hw & Hsg & <-).
    { destruct Hsign as [-> |[-> |[-> | ->]]]; [exists [], []|exists [], [chr_minus]|exists [], [chr_plus]|exists [chr_space], []];
        (split; [done|]); (split; [by repeat constructor|]); (split; [|done]); unfold is_sign; tauto. }
    destruct zero.
    + replace ((w ++ sg) ++ replicate k chr_0 ++ num_text base upper n) with (w ++ sg ++ [] ++ (replicate k chr_0 ++ num_text base upper n) ++ [])
        by (cbn [app]; by rewrite app_nil_r, <- !app_assoc).
      apply number_numeral; try done.
      * by left.
      * apply Forall_app. split; [|done]. apply Forall_replicate, dig_zero. lia.
      * intros E. by apply app_nil in E as [_ E].
      * by rewrite zeros_value.
    + replace (replicate k chr_space ++ (w ++ sg) ++ num_text base upper n) with ((replicate k chr_space ++ w) ++ sg ++ [] ++ num_text base upper n ++ [])
        by (cbn [app]; by rewrite app_nil_r, <- !app_assoc).
      apply number_numeral; try done.
      * apply Forall_app. split; [apply spaces_space|done].
      * by left.
Qed.

Lemma justify_width left_ zero width sign body : length (justify left_ zero width sign body) = Nat.max (Z.to_nat width) (length sign + length body).
Proof. unfold justify. destruct left_; [|destruct zero]; rewrite !length_app, length_replicate; lia. Qed.

Lemma justify_chars left_ zero width sign body : Forall (fun c => c ≠ 0 /\ byte c) (sign ++ body) ->
  Forall (fun c => c ≠ 0 /\ byte c) (justify left_ zero width sign body).
Proof.
  rewrite Forall_app. intros [Hs Hb]. unfold justify. destruct left_; [|destruct zero]; rewrite !Forall_app; (split_and!; try done);
    apply Forall_replicate; by compute.
Qed.

Lemma signed_reads m p x t : cstr m p t -> - 2 ^ 63 <= x < 2 ^ 63 -> reads_back 10 (Z.abs x) (x <? 0) t ->
  exists e, strtol p 10 m = Some (Conv x (Some e) None, m) /\ strtoll p 10 m = Some (Conv x (Some e) None, m).
Proof.
  intros Hc Hx (w & sg & pre & l & r & -> & Hn & Hv & Hs). eexists. unfold strtol, strtoll.
  rewrite (strtol_run LONG_MIN LONG_MAX _ _ _ _ _ _ _ _ _ Hc Hn) by (unfold LONG_MIN, LONG_MAX; lia).
  rewrite Hv. unfold signed_sat, signed_over, sat, over. rewrite Hs. unfold LONG_MIN, LONG_MAX.
  destruct (Z.ltb_spec x 0).
  - rewrite (proj2 (Z.ltb_ge _ _)), Z.min_l by lia. by replace (- Z.abs x) with x by lia.
  - rewrite (proj2 (Z.ltb_ge _ _)), Z.min_l by lia. by replace (Z.abs x) with x by lia.
Qed.

Lemma unsigned_reads m p base x t : cstr m p t -> 0 <= x < 2 ^ 64 -> reads_back base x false t ->
  exists e, strtoul p base m = Some (Conv x (Some e) None, m).
Proof.
  intros Hc Hx (w & sg & pre & l & r & -> & Hn & Hv & Hs). eexists. rewrite (strtoul_run _ _ _ _ _ _ _ _ _ Hc Hn).
  rewrite Hv. unfold negated, sat, over, ULONG_MAX. rewrite Hs. cbn [andb]. by rewrite (proj2 (Z.ltb_ge _ _)), Z.min_l by lia.
Qed.

Definition one_field (sp : spec) : format := MkFormat [([], sp)] [].

(** The text of one conversion ends up as a string at [str], when it fits. *)
Lemma one_field_written m str len fmt sp v t : 0 < len < 2 ^ 31 - 2 -> 0 <= width sp -> width sp < len -> mapped m str (Z.to_nat len) ->
  apart m str len fmt (format_bytes (one_field sp)) -> renders (apart m str len) sp [VInt v] t -> lenZ t < len ->
  Forall (fun c => c ≠ 0 /\ byte c) t ->
  exists m', snprintf str len fmt [VInt v] m = Some (lenZ t, m') /\ cstr m' str t.
Proof.
  intros Hlen Hw0 Hw Hm Hq Ht Hl Hb. exists (put m str (t ++ [0])). split; [|split; [apply put_bytes_at|done]].
  rewrite <- (take_ge t (Z.to_nat (len - 1))) at 2 by lia. apply (vsnprintf_run m str len ltac:(lia) Hm fmt (one_field sp)); try done; [| |lia].
  - split; [|by constructor]. apply Forall_singleton. split; [by constructor|]. cbn. lia.
  - rewrite <- (app_nil_r t). apply (renders_all _ (one_field sp) [VInt v] t).
    pose proof (renders_field (apart m str len) [] sp [] [VInt v] [] t [] Ht (renders_done _)) as Hx. cbn [app] in Hx. by rewrite app_nil_r in Hx.
Qed.

(** C40. What snprintf writes for one number into a buffer of at least 23 bytes that is wider
    than the field, the parsing functions read back without an error. strtol and strtoll
    return the argument of a d or i conversion, converted to the type its size names,
    unless a sign stands in a field adjusted to the left (it is lost, left_sign_lost).
    strtoul returns that of a u conversion (base 10) without the flags + and blank, and of
    an x or X conversion (base 16), where the flag # asks for a number other than 0, no
    width and lower case. The other flags (in the order - + blank # 0), the sizes, widths
    and values, from the smallest to the largest of the type, are free. *)
Theorem printed_numbers_read_back m str len fmt sp v : 23 <= len < 2 ^ 31 - 2 -> 0 <= width sp -> width sp < len -> mapped m str (Z.to_nat len) ->
  apart m str len fmt (format_bytes (one_field sp)) ->
  (cv sp = CDec \/ cv sp = CInt ->
     let x := to_signed (sz sp) v in (left_ sp = true -> sign_text sp (x <? 0) = []) ->
     exists n m' e, snprintf str len fmt [VInt v] m = Some (n, m') /\
       strtol str 10 m' = Some (Conv x (Some e) None, m') /\ strtoll str 10 m' = Some (Conv x (Some e) None, m')) /\
  (cv sp = CUns -> plus sp = false -> blank sp = false ->
     exists n m' e, snprintf str len fmt [VInt v] m = Some (n, m') /\ strtoul str 10 m' = Some (Conv (to_unsigned (sz sp) v) (Some e) None, m')) /\
  (forall upper, cv sp = CHex upper -> (alt sp = true -> width sp = 0 /\ upper = false /\ to_unsigned (sz sp) v ≠ 0) ->
     exists n m' e, snprintf str len fmt [VInt v] m = Some (n, m') /\ strtoul str 16 m' = Some (Conv (to_unsigned (sz sp) v) (Some e) None, m')).
Proof.
  intros Hlen Hw0 Hw Hm Hq. split; [|split].
  - intros Hcv x Hleft. pose proof (to_signed_range (sz sp) v) as Hx. fold x in Hx.
    pose proof (num_text_length 10 false (Z.abs x) 20 ltac:(lia) ltac:(lia) ltac:(lia) ltac:(lia)) as Hl.
    set (t := justify (left_ sp) (zero sp) (width sp) (sign_text sp (x <? 0)) (num_text 10 false (Z.abs x))).
    assert (sign_text sp (x <? 0) = [] \/ sign_text sp (x <? 0) = [chr_minus] \/ sign_text sp (x <? 0) = [chr_plus] \/
      sign_text sp (x <? 0) = [chr_space]) as Hsign by (unfold sign_text; destruct (x <? 0), (plus sp), (blank sp); tauto).
    destruct (one_field_written m str len fmt sp v t) as (m' & Hrun & Hc); try done; [lia|by constructor| | |].
    + unfold t. rewrite justify_width. destruct Hsign as [-> |[-> |[-> | ->]]]; simpl; lia.
    + apply justify_chars, Forall_app. split; [|by apply num_text_bytes; lia].
      destruct Hsign as [-> |[-> |[-> | ->]]]; repeat constructor; by compute.
    + pose proof (justified_reads 10 false (Z.abs x) (left_ sp) (zero sp) (width sp) (sign_text sp (x <? 0)) ltac:(by left) ltac:(lia) Hsign Hleft) as Hr.
      assert (sign_of (sign_text sp (x <? 0)) = (x <? 0)) as Es by (unfold sign_text; by destruct (x <? 0), (plus sp), (blank sp)).
      rewrite Es in Hr. destruct (signed_reads m' str x t Hc Hx Hr) as (e & H1 & H2). by exists (lenZ t), m', e.
  - intros Hcv Hp Hb. pose proof (to_unsigned_range (sz sp) v) as Hx. set (x := to_unsigned (sz sp) v) in *.
    pose proof (num_text_length 10 false x 20 ltac:(lia) ltac:(lia) ltac:(lia) ltac:(lia)) as Hl.
    set (t := justify (left_ sp) (zero sp) (width sp) [] (num_text 10 false x)).
    destruct (one_field_written m str len fmt sp v t) as (m' & Hrun & Hc); try done; [lia|by constructor| | |].
    + unfold t. rewrite justify_width. simpl. lia.
    + apply justify_chars. by apply num_text_bytes; lia.
    + destruct (unsigned_reads m' str 10 x t Hc Hx) as (e & H1); [|by exists (lenZ t), m', e].
      apply (justified_reads 10 false x (left_ sp) (zero sp) (width sp) []); [by left|lia|by left|done].
  - intros upper Hcv Halt. pose proof (to_unsigned_range (sz sp) v) as Hx. set (x := to_unsigned (sz sp) v) in *.
    pose proof (num_text_length 16 upper x 16 ltac:(lia) ltac:(lia) ltac:(lia) ltac:(lia)) as Hl.
    set (t := justify (left_ sp) (zero sp) (width sp) [] (num_text 16 upper x)).
    assert (Forall (fun c => c ≠ 0 /\ byte c) t) as Ht by (apply justify_chars; by apply num_text_bytes; lia).
    assert (lenZ t <= Z.max (width sp) 16) as Htl by (unfold t; rewrite justify_width; simpl; lia).
    assert (reads_back 16 x false t) as Hr by (apply (justified_reads 16 upper x (left_ sp) (zero sp) (width sp) []); [by right|lia|by left|done]).
    pose proof (renders_hex (apart m str len) sp upper v Hcv (fun E => conj (proj1 (Halt E)) (proj2 (proj2 (Halt E))))) as Hren.
    fold x t in Hren. destruct (alt sp) eqn:Ea; cbn [andb] in Hren.
    + destruct (Halt eq_refl) as (Hwidth & -> & Hx0). rewrite (proj2 (Z.eqb_neq x 0)) in Hren by done. cbn [negb] in Hren. destruct (one_field_written m str len fmt sp v ([chr_0; chr_x] ++ t)) as (m' & Hrun & Hc); try done.
      * lia.
      * rewrite length_app. simpl. lia.
      * apply Forall_app. split; [|done]. repeat constructor; by compute.
      * destruct (unsigned_reads m' str 16 x _ Hc Hx) as (e & H1); [|by exists (lenZ ([chr_0; chr_x] ++ t)), m', e].
        assert (t = [] ++ [] ++ [] ++ num_text 16 false x ++ []) as ->.
        { unfold t. rewrite app_nil_r, Hwidth. unfold justify. destruct (left_ sp), (zero sp); cbn [app replicate Nat.sub Z.to_nat]; by rewrite ?app_nil_r. }
        apply (number_numeral 16 x [] [] [chr_0; chr_x] (num_text 16 false x) []); try done; [by right|by left|by right|by apply num_text_dig; lia
          |apply num_text_some|by apply num_text_value; lia].
    + destruct (one_field_written m str len fmt sp v t) as (m' & Hrun & Hc); try done; [lia|lia|].
      destruct (unsigned_reads m' str 16 x t Hc Hx Hr) as (e & H1). by exists (lenZ t), m', e.
Qed.

End PrintfStrto.
