(* ===== verification/PrintfSample.v ===== *)
(** Formats on concrete memory: the properties applied, and what the code does
    where it departs from C. *)
From Stdlib Require Import String Ascii.
From S2P Require Import Prelude Mem Ctype CString CStringProps Strto Printf PrintfSpec PrintfProps PrintfStrto.
Local Open Scope Z_scope.

Module PrintfSample.
Import Mem Ctype CString CStringProps Strto Printf PrintfSpec PrintfProps PrintfStrto.

Definition ascii_bytes (s : string) : list Z := (fun c => Z.of_nat (nat_of_ascii c)) <$> list_ascii_of_string s.

(** The format at 100, a string at 300, 64 bytes for the result at 1000. *)
Definition format_mem (f s : string) : mem :=
  put (put (put ∅ 1000 (replicate 64 7)) 100 (ascii_bytes f ++ [0])) 300 (ascii_bytes s ++ [0]).

(** What is written for [f], the bytes up to the first one that is not written. *)
Fixpoint text_at (n : nat) (m : mem) (p : Z) : list Z :=
  match n with O => [] | S n => match m !! p with Some 7 | Some 0 | None => [] | Some c => c :: text_at n m (p + 1) end end.
Definition printed (f s : string) (ap : list va) : option (Z * list Z) :=
  match snprintf 1000 64 100 ap (format_mem f s) with Some (n, m) => Some (n, text_at 64 m 1000) | None => None end.

Example printed_mixed : printed "%5d|%-5u|%05d|%+d|%lx|%s|%c%%" "hello" [VInt (-42); VInt 3; VInt (-42); VInt 7; VInt 255; VInt 300; VInt 65] =
  Some (32, ascii_bytes "  -42|3    |-0042|+7|ff|hello|A%").
Proof. vm_compute. reflexivity. Qed.

(** ** Departures from C *)

(** The sign of a number that is adjusted to the left is lost. *)
Lemma left_sign_lost : printed "%-5d|" EmptyString [VInt (-3)] = Some (6, ascii_bytes "3    |").
Proof. vm_compute. reflexivity. Qed.

(** The number 0 gets a prefix, which C gives to others only. *)
Lemma zero_prefixed : printed "%#x" EmptyString [VInt 0] = Some (3, ascii_bytes "0x0").
Proof. vm_compute. reflexivity. Qed.

(** The width of a character is not looked at. *)
Lemma char_width_ignored : printed "%3c|" EmptyString [VInt 97] = Some (2, ascii_bytes "a|").
Proof. vm_compute. reflexivity. Qed.

(** An unsigned number gets the sign that only signed ones have. *)
Lemma unsigned_signed : printed "%+u" EmptyString [VInt 5] = Some (2, ascii_bytes "+5").
Proof. vm_compute. reflexivity. Qed.

(** The prefix of a hexadecimal number is written before the padding. *)
Lemma prefix_before_padding : printed "%#6x" EmptyString [VInt 31] = Some (8, ascii_bytes "0x    1f").
Proof. vm_compute. reflexivity. Qed.

(** A precision is taken for a width. *)
Lemma precision_is_width : printed "%.3d|%.1s" "hello" [VInt 5; VInt 300] = Some (9, ascii_bytes "  5|hello").
Proof. vm_compute. reflexivity. Qed.

(** 0.9999999: the fraction is rounded to 1000000, whose digits overwrite the point. *)
Definition nearly_one : Z := 1022 * 2 ^ 52 + (2 ^ 52 - 900719926).
Lemma fraction_carry_lost : printed "%f" EmptyString [VDouble nearly_one] = Some (8, ascii_bytes "01000000").
Proof. vm_compute. reflexivity. Qed.

(** With no room at all the terminator is written before the buffer. *)
Lemma no_room_overwrites : (snprintf 1001 0 100 [] (format_mem "ab" EmptyString) ≫= (fun r => r.2 !! 1000)) = Some 0.
Proof. vm_compute. reflexivity. Qed.

(** The upper-case prefix is not one for [strtoul]. *)
Lemma upper_prefix_unread : (r ← snprintf 1000 64 100 [VInt 255] (format_mem "%#X" EmptyString); strtoul 1000 16 r.2) ≫= (fun r => Some (c_val r.1)) = Some 0.
Proof. vm_compute. reflexivity. Qed.

(** [%jn] stores four bytes where [intmax_t] has eight. *)
Lemma intmax_count_short : (snprintf 1000 64 100 [VInt 1040] (format_mem "ab%jn" EmptyString) ≫= (fun r => Some ((fun i => r.2 !! (1040 + i)) <$> [0; 3; 4; 7]))) =
  Some [Some 2; Some 0; Some 7; Some 7].
Proof. vm_compute. reflexivity. Qed.

(** ** Witnesses *)

Definition spec_ld : spec := MkSpec false true false false false 6 SL CDec.
Definition ld_mem : mem := put (put ∅ 1000 (replicate 32 7)) 100 (format_bytes (one_field spec_ld) ++ [0]).

Lemma ld_mapped : mapped ld_mem 1000 32.
Proof. by apply mapped_check. Qed.

Lemma ld_apart : apart ld_mem 1000 32 100 (format_bytes (one_field spec_ld)).
Proof.
  split; [split|].
  - apply bytes_at_check. reflexivity.
  - repeat constructor; by compute.
  - right. vm_compute. discriminate.
Qed.

Lemma printed_numbers_read_back_witness : exists n m' e, snprintf 1000 32 100 [VInt (-5)] ld_mem = Some (n, m') /\
  strtol 1000 10 m' = Some (Conv (-5) (Some e) None, m') /\ strtoll 1000 10 m' = Some (Conv (-5) (Some e) None, m').
Proof.
  refine (proj1 (printed_numbers_read_back ld_mem 1000 32 100 spec_ld (-5) _ _ _ ld_mapped ld_apart) _ _).
  - lia.
  - vm_compute. discriminate.
  - reflexivity.
  - by left.
  - discriminate.
Defined.

Lemma snprintf_formats_witness : exists t, snprintf 1000 32 100 [VInt (-5)] ld_mem = Some (lenZ t, put ld_mem 1000 (take 31 t ++ [0])).
Proof.
  exists (justify false false 6 (sign_text spec_ld true) (num_text 10 false 5)).
  apply (snprintf_formats ld_mem 1000 32 100 (one_field spec_ld) [VInt (-5)]).
  - reflexivity.
  - exact ld_mapped.
  - split; [|by constructor]. apply Forall_singleton. split; [by constructor|]. vm_compute. split; [discriminate|reflexivity].
  - exact ld_apart.
  - apply (renders_all _ (one_field spec_ld) [VInt (-5)] (justify false false 6 (sign_text spec_ld true) (num_text 10 false 5))).
    apply (renders_field _ [] spec_ld [] [VInt (-5)] [] (justify false false 6 (sign_text spec_ld true) (num_text 10 false 5)) []); [|constructor].
    apply (renders_dec _ spec_ld (-5)); [by left|discriminate].
  - vm_compute. reflexivity.
Defined.

End PrintfSample.
