(* ===== verification/Port.v ===== *)
(** Ports, [kernel/port.c]: named one-way channels of packets of eight bytes
    between threads, over wait queues and a heap ([WaitLib]).

    A port handle is an address.  Every call holds the thread lock, so it is
    atomic up to the points where it gives the processor away; a call that does
    is split there, and the rest is a definition of its own ([port_read_resumed],
    [port_close_resumed]).  Lists of ports are sequences of addresses. *)
From S2P Require Import Prelude Pow2 WaitLib.
Local Open Scope Z_scope.

Module Port.
Import Pow2 WaitLib.

(** * Constants *)

(** Codes of [include/err.h] that only ports return. *)
Definition ERR_NO_MSG : Z := -4.
Definition ERR_NOT_ENOUGH_BUFFER : Z := -9.
Definition ERR_ALREADY_EXISTS : Z := -14.
Definition ERR_CANCELLED : Z := -26.
Definition ERR_BUSY : Z := -33.
Definition ERR_BAD_HANDLE : Z := -42.
Definition ERR_PARTIAL_WRITE : Z := -44.

Definition WRITEPORT_MAGIC_W : Z := 0x70727477.
Definition WRITEPORT_MAGIC_X : Z := 0x70727478.
Definition READPORT_MAGIC : Z := 0x70727472.
Definition PORTGROUP_MAGIC : Z := 0x70727467.

Definition PORT_BUFF_SIZE : Z := 8.
Definition PORT_BUFF_SIZE_BIG : Z := 64.
Definition MAX_PORT_GROUP_COUNT : Z := 256.
Definition PORT_NAME_LEN : Z := 12.

Definition PORT_MODE_BROADCAST : Z := 0.
Definition PORT_MODE_UNICAST : Z := 1.
Definition PORT_MODE_BIG_BUFFER : Z := 2.

(** [sizeof] of the structures below. *)
Definition sizeof_port_packet_t : Z := 8.
Definition sizeof_port_buf_t : Z := 24.
Definition sizeof_write_port_t : Z := 64.
Definition sizeof_port_group_t : Z := 56.
Definition sizeof_read_port_t : Z := 104.

(** * Data *)

(** The eight characters of a packet. *)
Definition port_packet_t : Type := list Z.

(** What a read has stored in the caller's [port_result_t]. *)
Record port_result_t := MkResult { res_ctx : option Z; res_packet : option port_packet_t }.
Definition no_result : port_result_t := MkResult None None.

(** The slots of a new buffer are not initialized. *)
Record port_buf_t := MkBuf { log2 : Z; avail : Z; head : Z; tail : Z; packet : list (option port_packet_t) }.

(** A pointer is 0 or an address.  The nodes [node], [w_node] and [g_node] are
    members of the lists [write_port_list], [w_rp_list] and [g_rp_list]; a wait
    queue has the address of its object. *)
Record write_port_t := MkWrite { w_magic : Z; w_buf : Z; w_rp_list : list Z; w_mode : Z; w_name : list Z }.
Record port_group_t := MkGroup { g_magic : Z; g_rp_list : list Z }.
Record read_port_t := MkRead { r_magic : Z; r_buf : Z; r_ctx : Z; r_wport : Z; r_gport : Z }.

Inductive object := OWrite (w : write_port_t) | OGroup (g : port_group_t) | ORead (r : read_port_t).

Definition set_w_magic x w := MkWrite x (w_buf w) (w_rp_list w) (w_mode w) (w_name w).
Definition set_w_buf x w := MkWrite (w_magic w) x (w_rp_list w) (w_mode w) (w_name w).
Definition set_w_rp_list x w := MkWrite (w_magic w) (w_buf w) x (w_mode w) (w_name w).
Definition set_g_magic x g := MkGroup x (g_rp_list g).
Definition set_g_rp_list x g := MkGroup (g_magic g) x.
Definition set_r_magic x r := MkRead x (r_buf r) (r_ctx r) (r_wport r) (r_gport r).
Definition set_r_buf x r := MkRead (r_magic r) x (r_ctx r) (r_wport r) (r_gport r).
Definition set_r_wport x r := MkRead (r_magic r) (r_buf r) (r_ctx r) x (r_gport r).
Definition set_r_gport x r := MkRead (r_magic r) (r_buf r) (r_ctx r) (r_wport r) x.

(** Every object starts with its magic number. *)
Definition magic_of (o : object) : Z :=
  match o with OWrite w => w_magic w | OGroup g => g_magic g | ORead r => r_magic r end.

Record ports := MkPorts {
  p_objs : gmap Z object;
  p_bufs : gmap Z port_buf_t;
  write_port_list : list Z;
  (** the running thread holds the thread lock, its interrupts are off *)
  p_locked : bool
}.

Definition with_objs x s := MkPorts x (p_bufs s) (write_port_list s) (p_locked s).
Definition with_bufs x s := MkPorts (p_objs s) x (write_port_list s) (p_locked s).
Definition with_list x s := MkPorts (p_objs s) (p_bufs s) x (p_locked s).
Definition with_locked x s := MkPorts (p_objs s) (p_bufs s) (write_port_list s) x.

(** * Buffers *)

(** [log2_uint], an empty ring and [pk_count] slots of any contents. *)
Definition new_buf (pk_count : Z) : port_buf_t :=
  MkBuf (log2_uint pk_count) pk_count 0 0 (replicate (Z.to_nat pk_count) None).

Definition buf_is_empty (buf : port_buf_t) : bool := avail buf =? valpow2 (log2 buf).

Definition put_packet (x : port_packet_t) (buf : port_buf_t) : option port_buf_t :=
  if (0 <=? tail buf) && (tail buf <? Z.of_nat (length (packet buf))) then
    Some (MkBuf (log2 buf) (avail buf) (head buf) (modpow2 (u32 (tail buf + 1)) (log2 buf))
      (<[Z.to_nat (tail buf) := Some x]> (packet buf)))
  else None.

Fixpoint put_packets (l : list port_packet_t) (buf : port_buf_t) : option port_buf_t :=
  match l with
  | [] => Some buf
  | x :: l => match put_packet x buf with Some buf => put_packets l buf | None => None end
  end.

(** [None] is an access outside the slots. *)
Definition buf_write (buf : port_buf_t) (packets : list port_packet_t) : option (Z * port_buf_t) :=
  let count := Z.of_nat (length packets) in
  if avail buf <? count then Some (ERR_NOT_ENOUGH_BUFFER, buf)
  else match put_packets packets buf with
    | Some buf => Some (NO_ERROR, MkBuf (log2 buf) (u32 (avail buf - count)) (head buf) (tail buf) (packet buf))
    | None => None
    end.

(** [None] is also the read of a slot that was never written. *)
Definition buf_read (buf : port_buf_t) (pr : port_result_t) : option (Z * port_result_t * port_buf_t) :=
  if buf_is_empty buf then Some (ERR_NO_MSG, pr, buf)
  else if head buf <? 0 then None
  else match packet buf !! Z.to_nat (head buf) with
    | Some (Some x) => Some (NO_ERROR, MkResult (res_ctx pr) (Some x),
        MkBuf (log2 buf) (u32 (avail buf + 1)) (modpow2 (u32 (head buf + 1)) (log2 buf)) (tail buf) (packet buf))
    | _ => None
    end.

(** * The system *)

Section ports.
Context {K H : Type} `{!WaitOps K} `{!AllocOps H}.

Record world := MkWorld { w_ports : ports; w_wait : K; w_heap : H }.

Abbreviation P := (M world).

Definition on_wait {A} (m : M K A) : P A := fun w =>
  match m (w_wait w) with Some (a, k) => Some (a, MkWorld (w_ports w) k (w_heap w)) | None => None end.
Definition on_heap {A} (m : M H A) : P A := fun w =>
  match m (w_heap w) with Some (a, h) => Some (a, MkWorld (w_ports w) (w_wait w) h) | None => None end.
Definition upd_ports (f : ports -> ports) : P unit :=
  modify (fun w => MkWorld (f (w_ports w)) (w_wait w) (w_heap w)).

(** [THREAD_LOCK(state)] and [THREAD_UNLOCK(state)]. *)
Definition thread_lock : P bool :=
  state ← gets (fun w => p_locked (w_ports w)); _ ← upd_ports (with_locked true); mret state.
Definition thread_unlock (state : bool) : P unit := upd_ports (with_locked state).

(** The processor goes to a thread with a lock state of its own, and comes back. *)
Definition switch_away : P unit := upd_ports (with_locked false).
Definition switch_back : P unit := upd_ports (with_locked true).

(** Accesses through pointers. *)
Definition object_at (p : Z) : P object := deref (fun w => p_objs (w_ports w) !! p).
Definition write_at (p : Z) : P write_port_t :=
  deref (fun w => match p_objs (w_ports w) !! p with Some (OWrite x) => Some x | _ => None end).
Definition read_at (p : Z) : P read_port_t :=
  deref (fun w => match p_objs (w_ports w) !! p with Some (ORead x) => Some x | _ => None end).
Definition group_at (p : Z) : P port_group_t :=
  deref (fun w => match p_objs (w_ports w) !! p with Some (OGroup x) => Some x | _ => None end).
Definition buf_at (p : Z) : P port_buf_t := deref (fun w => p_bufs (w_ports w) !! p).
Definition magic_at (p : Z) : P Z := o ← object_at p; mret (magic_of o).
Definition set_object (p : Z) (o : object) : P unit := upd_ports (fun s => with_objs (<[p := o]> (p_objs s)) s).
Definition set_buf (p : Z) (b : port_buf_t) : P unit := upd_ports (fun s => with_bufs (<[p := b]> (p_bufs s)) s).
Definition upd_write (p : Z) (f : write_port_t -> write_port_t) : P unit := x ← write_at p; set_object p (OWrite (f x)).
Definition upd_read (p : Z) (f : read_port_t -> read_port_t) : P unit := x ← read_at p; set_object p (ORead (f x)).
Definition upd_group (p : Z) (f : port_group_t -> port_group_t) : P unit := x ← group_at p; set_object p (OGroup (f x)).

(** [free] of a buffer, which may be a null pointer, of a write port, and of an
    object with a wait queue. *)
Definition free_buf (p : Z) : P unit :=
  if p =? 0 then mret tt
  else _ ← buf_at p; _ ← upd_ports (fun s => with_bufs (delete p (p_bufs s)) s); on_heap (free p).
Definition free_object (p : Z) : P unit :=
  _ ← object_at p; _ ← upd_ports (fun s => with_objs (delete p (p_objs s)) s); on_heap (free p).
Definition free_waited (p : Z) : P unit := _ ← on_wait (wait_release p); free_object p.

(** [list_delete] of the nodes [w_node] and [g_node] of a read port: they are
    in the list of some write port, of some group.  The links of a node that is
    in no list are null pointers. *)
Definition remove_from (p : Z) (l : list Z) : list Z := filter (fun x => x ≠ p) l.
Definition w_node_in (p : Z) (o : object) : bool :=
  match o with OWrite w => bool_decide (p ∈ w_rp_list w) | _ => false end.
Definition g_node_in (p : Z) (o : object) : bool :=
  match o with OGroup g => bool_decide (p ∈ g_rp_list g) | _ => false end.
Definition w_node_out (p : Z) (o : object) : object :=
  match o with OWrite w => OWrite (set_w_rp_list (remove_from p (w_rp_list w)) w) | _ => o end.
Definition g_node_out (p : Z) (o : object) : object :=
  match o with OGroup g => OGroup (set_g_rp_list (remove_from p (g_rp_list g)) g) | _ => o end.
Definition delete_w_node (p : Z) : P unit :=
  linked ← gets (fun w => bool_decide (map_Exists (fun _ o => w_node_in p o = true) (p_objs (w_ports w))));
  _ ← assert_ linked; upd_ports (fun s => with_objs (w_node_out p <$> p_objs s) s).
Definition delete_g_node (p : Z) : P unit :=
  linked ← gets (fun w => bool_decide (map_Exists (fun _ o => g_node_in p o = true) (p_objs (w_ports w))));
  _ ← assert_ linked; upd_ports (fun s => with_objs (g_node_out p <$> p_objs s) s).

(** * Creation *)

Definition make_buf (big : bool) : P Z :=
  let pk_count := if big then PORT_BUFF_SIZE_BIG else PORT_BUFF_SIZE in
  let size := sizeof_port_buf_t + (pk_count - 1) * sizeof_port_packet_t in
  buf ← on_heap (malloc size);
  if buf =? 0 then mret 0
  else _ ← set_buf buf (new_buf pk_count); mret buf.

Definition port_init : P unit := upd_ports (with_list []).

(** The entry of [write_port_list] with a name. *)
Fixpoint find_name (l : list Z) (name : list Z) : P (option (Z * write_port_t)) :=
  match l with
  | [] => mret None
  | p :: l => wp ← write_at p; if bool_decide (w_name wp = name) then mret (Some (p, wp)) else find_name l name
  end.

(** The checks and the first critical section of [port_create]: a result, or
    the name and the mode the rest goes on with.  A string is the sequence of
    its characters, [None] a null pointer. *)
Definition port_create_lookup (name : option (list Z)) (mode : Z) (port : bool) : P (Z * option Z + list Z) :=
  match name with
  | None => mret (inl (ERR_INVALID_ARGS, None))
  | Some name =>
      if negb port then mret (inl (ERR_INVALID_ARGS, None))
      else if negb (Z.land mode PORT_MODE_BROADCAST =? 0) && negb (Z.land mode PORT_MODE_BIG_BUFFER =? 0)
      then mret (inl (ERR_INVALID_ARGS, None))
      else if PORT_NAME_LEN <=? Z.of_nat (length name) then mret (inl (ERR_INVALID_ARGS, None))
      else
        state1 ← thread_lock;
        l ← gets (fun w => write_port_list (w_ports w));
        found ← find_name l name;
        match found with
        | Some (wp, x) =>
            let wp := if w_magic x =? WRITEPORT_MAGIC_X then 0 else wp in
            _ ← thread_unlock state1;
            if negb (wp =? 0) then mret (inl (ERR_ALREADY_EXISTS, Some wp)) else mret (inl (ERR_BUSY, None))
        | None => _ ← thread_unlock state1; mret (inr name)
        end
  end.

(** Outside the lock: the port and its buffer. *)
Definition port_create_alloc (name : list Z) (mode : Z) : P (Z * option Z + Z) :=
  wp ← on_heap (calloc 1 sizeof_write_port_t);
  if wp =? 0 then mret (inl (ERR_NO_MEMORY, None))
  else
    _ ← set_object wp (OWrite (MkWrite WRITEPORT_MAGIC_W 0 [] mode name));
    buf ← make_buf (negb (Z.land mode PORT_MODE_BIG_BUFFER =? 0));
    _ ← upd_write wp (set_w_buf buf);
    if buf =? 0 then _ ← free_object wp; mret (inl (ERR_NO_MEMORY, None))
    else mret (inr wp).

(** The second critical section. *)
Definition port_create_link (wp : Z) : P (Z * option Z) :=
  state2 ← thread_lock;
  _ ← upd_ports (fun s => with_list (write_port_list s ++ [wp]) s);
  _ ← thread_unlock state2;
  mret (NO_ERROR, Some wp).

(** The status and what is stored in [*port]. *)
Definition port_create (name : option (list Z)) (mode : Z) (port : bool) : P (Z * option Z) :=
  r ← port_create_lookup name mode port;
  match r with
  | inl r => mret r
  | inr name => r ← port_create_alloc name mode; match r with inl r => mret r | inr wp => port_create_link wp end
  end.

(** The critical section of [port_open]: the status, and the new buffer unless
    the port took it. *)
Definition port_open_link (rp buf : Z) (name : list Z) : P (Z * Z) :=
  l ← gets (fun w => write_port_list (w_ports w));
  found ← find_name l name;
  match found with
  | None => mret (ERR_NOT_FOUND, buf)
  | Some (wp, _) =>
      _ ← upd_read rp (set_r_wport wp);
      x ← write_at wp;
      if negb (w_buf x =? 0) then
        _ ← upd_write wp (set_w_rp_list (w_rp_list x ++ [rp]));
        _ ← upd_read rp (set_r_buf (w_buf x));
        _ ← upd_write wp (set_w_buf 0);
        mret (NO_ERROR, buf)
      else if negb (buf =? 0) then
        if negb (Z.land (w_mode x) PORT_MODE_UNICAST =? 0) then mret (ERR_NOT_ALLOWED, buf)
        else
          _ ← upd_write wp (set_w_rp_list (w_rp_list x ++ [rp]));
          _ ← upd_read rp (set_r_buf buf);
          mret (NO_ERROR, 0)
      else mret (ERR_NO_MEMORY, buf)
  end.

Definition port_open (name : option (list Z)) (ctx : Z) (port : bool) : P (Z * option Z) :=
  match name with
  | None => mret (ERR_INVALID_ARGS, None)
  | Some name =>
      if negb port then mret (ERR_INVALID_ARGS, None)
      else
        rp ← on_heap (calloc 1 sizeof_read_port_t);
        if rp =? 0 then mret (ERR_NO_MEMORY, None)
        else
          _ ← set_object rp (ORead (MkRead READPORT_MAGIC 0 ctx 0 0));
          _ ← on_wait (wait_init rp);
          buf ← make_buf false;
          if buf =? 0 then _ ← free_waited rp; mret (ERR_NO_MEMORY, None)
          else
            state ← thread_lock;
            r ← port_open_link rp buf name;
            let '(rc, buf) := r in
            _ ← thread_unlock state;
            _ ← when (negb (buf =? 0)) (free_buf buf);
            if rc =? NO_ERROR then mret (rc, Some rp)
            else _ ← free_waited rp; mret (rc, None)
  end.

(** * Groups *)

(** [rp->gport = NULL] for each port of a list. *)
Fixpoint clear_gports (rps : list Z) : P unit :=
  match rps with [] => mret tt | p :: rps => _ ← upd_read p (set_r_gport 0); clear_gports rps end.

(** The loop of [port_group]: [taken] are the ports before [ix]. *)
Fixpoint group_ports (pg : Z) (taken ports : list Z) : P Z :=
  match ports with
  | [] => mret NO_ERROR
  | rp :: ports =>
      o ← object_at rp;
      if negb (magic_of o =? READPORT_MAGIC) then _ ← clear_gports taken; mret ERR_BAD_HANDLE
      else
        x ← read_at rp;
        if negb (r_gport x =? 0) then _ ← clear_gports taken; mret ERR_BAD_HANDLE
        else
          _ ← upd_read rp (set_r_gport pg);
          g ← group_at pg;
          _ ← upd_group pg (set_g_rp_list (g_rp_list g ++ [rp]));
          group_ports pg (taken ++ [rp]) ports
  end.

(** [ports] is the array, [None] a null pointer. *)
Definition port_group (ports : option (list Z)) (count : Z) (group : bool) : P (Z * option Z) :=
  if MAX_PORT_GROUP_COUNT <? count then mret (ERR_TOO_BIG, None)
  else if negb (count =? 0) && bool_decide (ports = None) then mret (ERR_INVALID_ARGS, None)
  else if negb group then mret (ERR_INVALID_ARGS, None)
  else
    pg ← on_heap (calloc 1 sizeof_port_group_t);
    if pg =? 0 then mret (ERR_NO_MEMORY, None)
    else
      _ ← set_object pg (OGroup (MkGroup PORTGROUP_MAGIC []));
      _ ← on_wait (wait_init pg);
      state ← thread_lock;
      _ ← assert_ (count =? Z.of_nat (length (default [] ports)));
      rc ← group_ports pg [] (default [] ports);
      _ ← thread_unlock state;
      if rc =? NO_ERROR then mret (rc, Some pg)
      else _ ← free_waited pg; mret (rc, None).

Definition port_group_add (group port : Z) : P Z :=
  if (port =? 0) || (group =? 0) then mret ERR_INVALID_ARGS
  else
    m ← magic_at group;
    if negb (m =? PORTGROUP_MAGIC) then mret ERR_INVALID_ARGS
    else
      m ← magic_at port;
      if negb (m =? READPORT_MAGIC) then mret ERR_BAD_HANDLE
      else
        rp ← read_at port;
        if negb (r_gport rp =? 0) then mret ERR_BAD_HANDLE
        else
          state ← thread_lock;
          pg ← group_at group;
          rc ← (if Z.of_nat (length (g_rp_list pg)) =? MAX_PORT_GROUP_COUNT then mret ERR_TOO_BIG
                else
                  _ ← upd_read port (set_r_gport group);
                  _ ← upd_group group (set_g_rp_list (g_rp_list pg ++ [port]));
                  buf ← buf_at (r_buf rp);
                  _ ← when (negb (buf_is_empty buf)) (_ ← on_wait (wake_one group NO_ERROR); mret tt);
                  mret NO_ERROR);
          _ ← thread_unlock state;
          mret rc.

Definition port_group_remove (group port : Z) : P Z :=
  if (port =? 0) || (group =? 0) then mret ERR_INVALID_ARGS
  else
    m ← magic_at group;
    if negb (m =? PORTGROUP_MAGIC) then mret ERR_INVALID_ARGS
    else
      m ← magic_at port;
      if negb (m =? READPORT_MAGIC) then mret ERR_BAD_HANDLE
      else
        rp ← read_at port;
        if negb (r_gport rp =? group) then mret ERR_BAD_HANDLE
        else
          state ← thread_lock;
          pg ← group_at group;
          if negb (bool_decide (port ∈ g_rp_list pg)) then mret ERR_BAD_HANDLE
          else
            _ ← delete_g_node port;
            _ ← thread_unlock state;
            mret NO_ERROR.

(** * Writing and reading *)

(** [buf_write] and [buf_read] of the buffer at an address. *)
Definition write_buf (b : Z) (pk : list port_packet_t) : P Z :=
  buf ← buf_at b; r ← deref (fun _ => buf_write buf pk); _ ← set_buf b (snd r); mret (fst r).
Definition read_buf (b : Z) (pr : port_result_t) : P (Z * port_result_t) :=
  buf ← buf_at b; r ← deref (fun _ => buf_read buf pr); _ ← set_buf b (snd r); mret (fst r).

(** The loop over the read ports: the status and the threads woken. *)
Fixpoint write_readers (pk : list port_packet_t) (rps : list Z) (status awake_count : Z) : P (Z * Z) :=
  match rps with
  | [] => mret (status, awake_count)
  | p :: rps =>
      rp ← read_at p;
      rc ← write_buf (r_buf rp) pk;
      if rc <? 0 then write_readers pk rps ERR_PARTIAL_WRITE awake_count
      else
        awaken ← (if negb (r_gport rp =? 0) then on_wait (wake_one (r_gport rp) NO_ERROR) else mret 0);
        awaken ← (if awaken =? 0 then on_wait (wake_one p NO_ERROR) else mret awaken);
        write_readers pk rps status (awake_count + awaken)
  end.

(** [pk] is the array of [count] packets, [None] a null pointer. *)
Definition port_write (port : Z) (pk : option (list port_packet_t)) : P Z :=
  match pk with
  | None => mret ERR_INVALID_ARGS
  | Some pk =>
      if port =? 0 then mret ERR_INVALID_ARGS
      else
        state ← thread_lock;
        m ← magic_at port;
        if negb (m =? WRITEPORT_MAGIC_W) then _ ← thread_unlock state; mret ERR_BAD_HANDLE
        else
          wp ← write_at port;
          r ← (if negb (w_buf wp =? 0) then status ← write_buf (w_buf wp) pk; mret (status, 0)
               else write_readers pk (w_rp_list wp) NO_ERROR 0);
          let '(status, awake_count) := r in
          _ ← thread_unlock state;
          _ ← when (negb (awake_count =? 0)) (on_wait wait_yield);
          mret status
  end.

(** A read ends, or leaves its thread on the wait queue of the read port
    ([group] is false) or of the group. *)
Inductive read_outcome :=
  | ReadDone (rc : Z) (result : port_result_t)
  | ReadBlocked (group : bool) (timeout : Z) (state : bool) (result : port_result_t).

(** Either a result or a block. *)
Inductive no_lock_outcome := NoLockDone (status : Z) (result : port_result_t) | NoLockBlocked (result : port_result_t).

(** The tail call is a loop; it goes round again only when [wait_queue_block]
    returns at once with success, which it never does. *)
Fixpoint read_no_lock (fuel : nat) (p timeout : Z) (result : port_result_t) : P no_lock_outcome :=
  match fuel with
  | O => fault
  | S fuel =>
      rp ← read_at p;
      r ← read_buf (r_buf rp) result;
      let '(status, result) := r in
      let result := MkResult (Some (r_ctx rp)) (res_packet result) in
      if negb (status =? ERR_NO_MSG) then mret (NoLockDone status result)
      else if timeout =? 0 then mret (NoLockDone ERR_TIMED_OUT result)
      else
        wr ← on_wait (wait_block p timeout);
        match wr with
        | WaitBlocked => mret (NoLockBlocked result)
        | WaitDone wr => if negb (wr =? NO_ERROR) then mret (NoLockDone wr result) else read_no_lock fuel p timeout result
        end
  end.

(** The inner loop over the members: the last status, and whether it ends the
    call. *)
Fixpoint read_members (rps : list Z) (rc : Z) (result : port_result_t) : P (bool * Z * port_result_t) :=
  match rps with
  | [] => mret (false, rc, result)
  | p :: rps =>
      o ← read_no_lock 1 p 0 result;
      match o with
      | NoLockDone rc result => if negb (rc =? ERR_TIMED_OUT) then mret (true, rc, result) else read_members rps rc result
      | NoLockBlocked result => fault
      end
  end.

(** The loop over a group, with the same remark. *)
Fixpoint read_group (fuel : nat) (pg timeout rc : Z) (result : port_result_t) : P no_lock_outcome :=
  match fuel with
  | O => fault
  | S fuel =>
      g ← group_at pg;
      r ← read_members (g_rp_list g) rc result;
      let '(done, rc, result) := r in
      if done : bool then mret (NoLockDone rc result)
      else
        wr ← on_wait (wait_block pg timeout);
        match wr with
        | WaitBlocked => mret (NoLockBlocked result)
        | WaitDone wr => if negb (wr =? NO_ERROR) then mret (NoLockDone wr result) else read_group fuel pg timeout wr result
        end
  end.

(** The label [read_exit], or the switch to another thread. *)
Definition read_exit (group : bool) (timeout : Z) (state : bool) (o : no_lock_outcome) : P read_outcome :=
  match o with
  | NoLockDone rc result => _ ← thread_unlock state; mret (ReadDone rc result)
  | NoLockBlocked result => _ ← switch_away; mret (ReadBlocked group timeout state result)
  end.

Definition port_read (port timeout : Z) (result : option port_result_t) : P read_outcome :=
  match result with
  | None => mret (ReadDone ERR_INVALID_ARGS no_result)
  | Some result =>
      if port =? 0 then mret (ReadDone ERR_INVALID_ARGS result)
      else
        state ← thread_lock;
        m ← magic_at port;
        if m =? READPORT_MAGIC then o ← read_no_lock 1 port timeout result; read_exit false timeout state o
        else if m =? PORTGROUP_MAGIC then o ← read_group 1 port timeout ERR_GENERIC result; read_exit true timeout state o
        else _ ← thread_unlock state; mret (ReadDone ERR_BAD_HANDLE result)
  end.

(** The rest of a read whose [wait_queue_block] returns [wr]. *)
Definition port_read_resumed (group : bool) (port timeout : Z) (state : bool) (result : port_result_t) (wr : Z) : P read_outcome :=
  _ ← switch_back;
  o ← (if negb (wr =? NO_ERROR) then mret (NoLockDone wr result)
       else if group then read_group 1 port timeout wr result
       else read_no_lock 1 port timeout result);
  read_exit group timeout state o.

(** * The end of a port *)

Fixpoint cancel_readers (rps : list Z) : P unit :=
  match rps with
  | [] => mret tt
  | p :: rps =>
      rp ← read_at p;
      _ ← on_wait (wake_all p ERR_CANCELLED);
      _ ← when (negb (r_gport rp =? 0)) (_ ← on_wait (wake_all (r_gport rp) ERR_CANCELLED); mret tt);
      _ ← upd_read p (set_r_wport 0);
      cancel_readers rps
  end.

Definition port_destroy (port : Z) : P Z :=
  if port =? 0 then mret ERR_INVALID_ARGS
  else
    state ← thread_lock;
    m ← magic_at port;
    if negb (m =? WRITEPORT_MAGIC_X) then _ ← thread_unlock state; mret ERR_BAD_HANDLE
    else
      l ← gets (fun w => write_port_list (w_ports w));
      _ ← assert_ (bool_decide (port ∈ l));
      _ ← upd_ports (with_list (remove_from port l));
      wp ← write_at port;
      _ ← (if negb (w_buf wp =? 0) then mret tt else cancel_readers (w_rp_list wp));
      _ ← upd_write port (set_w_magic 0);
      _ ← thread_unlock state;
      _ ← free_buf (w_buf wp);
      _ ← free_object port;
      mret NO_ERROR.

(** A call of [port_close] ends, or is inside [wait_queue_destroy]. *)
Inductive closing := ClosingRead (state : bool) (buf : Z) | ClosingGroup (state : bool).
Inductive close_outcome := CloseDone (rc : Z) | CloseSwitched (c : closing).

Definition port_close (port : Z) : P close_outcome :=
  if port =? 0 then mret (CloseDone ERR_INVALID_ARGS)
  else
    state ← thread_lock;
    m ← magic_at port;
    if m =? READPORT_MAGIC then
      rp ← read_at port;
      buf ← (if negb (r_wport rp =? 0) then
               _ ← delete_w_node port;
               wp ← write_at (r_wport rp);
               if bool_decide (w_rp_list wp = []) then
                 _ ← upd_write (r_wport rp) (set_w_buf (r_buf rp));
                 _ ← upd_read port (set_r_buf 0);
                 mret 0
               else mret (r_buf rp)
             else mret 0);
      _ ← when (negb (r_gport rp =? 0)) (delete_g_node port);
      _ ← on_wait (wait_destroy port);
      _ ← switch_away;
      mret (CloseSwitched (ClosingRead state buf))
    else if m =? PORTGROUP_MAGIC then
      _ ← on_wait (wait_destroy port);
      _ ← switch_away;
      mret (CloseSwitched (ClosingGroup state))
    else if m =? WRITEPORT_MAGIC_W then
      _ ← upd_write port (set_w_magic WRITEPORT_MAGIC_X);
      _ ← thread_unlock state;
      mret (CloseDone NO_ERROR)
    else _ ← thread_unlock state; mret (CloseDone ERR_BAD_HANDLE).

Definition port_close_resumed (port : Z) (c : closing) : P Z :=
  _ ← switch_back;
  _ ← on_wait (wait_retire port);
  match c with
  | ClosingRead state buf =>
      _ ← upd_read port (set_r_magic 0);
      _ ← thread_unlock state;
      _ ← free_buf buf;
      _ ← free_waited port;
      mret NO_ERROR
  | ClosingGroup state =>
      pg ← group_at port;
      _ ← clear_gports (g_rp_list pg);
      _ ← upd_group port (set_g_magic 0);
      _ ← thread_unlock state;
      _ ← free_waited port;
      mret NO_ERROR
  end.

End ports.

End Port.
