(* ===== verification/PortSpec.v ===== *)
(** What ports promise: bounded queues of packets.

    An abstract port system holds, for each handle, a queue of packets instead of
    a ring buffer behind a pointer.  [spec] is the effect of every call, as a
    function of the addresses the heap hands out. *)
From S2P Require Import Prelude WaitLib Port.
Local Open Scope Z_scope.

Module PortSpec.
Import WaitLib Port.

(** * The abstract state *)

(** A queue is identified by the address of its buffer. *)
Record queue := MkQueue { q_addr : Z; q_cap : Z; q_items : list port_packet_t }.

(** A write port keeps the packets itself while it has no readers.  A read port
    whose [port_close] is in progress is [AClosing]; it may still own a buffer.  [ADead] is an object whose
    magic number is cleared, in the middle of the call that frees it. *)
Inductive aport :=
  | AWrite (name : list Z) (mode : Z) (open : bool) (pending : option queue) (readers : list Z)
  | ARead (q : queue) (ctx writer group : Z)
  | AGroup (members : list Z)
  | AClosing (buf : Z)
  | ADead.

(** [a_lost] are the buffers nothing points to any more. *)
Record aports := MkAPorts {
  a_objs : gmap Z aport;
  a_list : list Z;
  a_locked : bool;
  a_lost : gset Z;
  a_waiting : queues
}.

Definition with_aobjs x a := MkAPorts x (a_list a) (a_locked a) (a_lost a) (a_waiting a).
Definition with_alist x a := MkAPorts (a_objs a) x (a_locked a) (a_lost a) (a_waiting a).
Definition with_alocked x a := MkAPorts (a_objs a) (a_list a) x (a_lost a) (a_waiting a).
Definition with_alost x a := MkAPorts (a_objs a) (a_list a) (a_locked a) x (a_waiting a).
Definition with_awaiting x a := MkAPorts (a_objs a) (a_list a) (a_locked a) (a_lost a) x.
Definition put_obj (p : Z) (o : aport) (a : aports) : aports := with_aobjs (<[p := o]> (a_objs a)) a.
Definition put_waiting (p : Z) (l : option (list nat)) (a : aports) : aports :=
  with_awaiting (set_queue p l (a_waiting a)) a.
Definition del_obj (p : Z) (a : aports) : aports := with_aobjs (delete p (a_objs a)) a.

Definition pending_queue (x : option queue) : Z := match x with Some q => q_addr q | None => 0 end.
Definition buf_of (o : aport) : Z :=
  match o with
  | AWrite _ _ _ pending _ => pending_queue pending
  | ARead q _ _ _ => q_addr q
  | AGroup _ => 0
  | AClosing b => b
  | ADead => 0
  end.

(** * The calls *)

Inductive call :=
  | CCreate (name : option (list Z)) (mode : Z) (port : bool)
  | COpen (name : option (list Z)) (ctx : Z) (port : bool)
  | CGroup (ports : option (list Z)) (count : Z) (group : bool)
  | CGroupAdd (group port : Z)
  | CGroupRemove (group port : Z)
  | CWrite (port : Z) (pk : option (list port_packet_t))
  | CRead (port timeout : Z) (result : option port_result_t)
  | CReadResumed (group : bool) (port timeout : Z) (state : bool) (result : port_result_t) (wr : Z)
  | CDestroy (port : Z)
  | CClose (port : Z)
  | CCloseResumed (port : Z) (c : closing).

Inductive answer :=
  | AStatus (rc : Z) (out : option Z)
  | AReadOut (o : read_outcome)
  | ACloseOut (o : close_outcome).

Section run.
Context {K H : Type} `{!WaitOps K} `{!AllocOps H}.

Definition status (m : M (world (K := K) (H := H)) Z) : M world answer := rc ← m; mret (AStatus rc None).
Definition status_out (m : M (world (K := K) (H := H)) (Z * option Z)) : M world answer := r ← m; mret (AStatus (fst r) (snd r)).

Definition run (c : call) : M (world (K := K) (H := H)) answer :=
  match c with
  | CCreate name mode port => status_out (port_create name mode port)
  | COpen name ctx port => status_out (port_open name ctx port)
  | CGroup ports count group => status_out (port_group ports count group)
  | CGroupAdd group port => status (port_group_add group port)
  | CGroupRemove group port => status (port_group_remove group port)
  | CWrite port pk => status (port_write port pk)
  | CRead port timeout result => o ← port_read port timeout result; mret (AReadOut o)
  | CReadResumed group port timeout state result wr =>
      o ← port_read_resumed group port timeout state result wr; mret (AReadOut o)
  | CDestroy port => status (port_destroy port)
  | CClose port => o ← port_close port; mret (ACloseOut o)
  | CCloseResumed port c => status (port_close_resumed port c)
  end.
End run.

(** * Their effect *)

(** The first port of the list with the name, and whether it is open. *)
Fixpoint afind (a : aports) (l : list Z) (name : list Z) : option (Z * bool) :=
  match l with
  | [] => None
  | p :: l =>
      match a_objs a !! p with
      | Some (AWrite n _ open _ _) => if bool_decide (n = name) then Some (p, open) else afind a l name
      | _ => afind a l name
      end
  end.

Definition cap_of (mode : Z) : Z := if Z.land mode PORT_MODE_BIG_BUFFER =? 0 then 8 else 64.

(** [p1] and [p2] are the addresses of the first and of the second allocation,
    0 when it fails. *)
Definition spec_create (name : option (list Z)) (mode : Z) (port : bool) (p1 p2 : Z) (a : aports) : Z * option Z * aports :=
  match name with
  | None => (ERR_INVALID_ARGS, None, a)
  | Some name =>
      if negb port || (PORT_NAME_LEN <=? Z.of_nat (length name)) then (ERR_INVALID_ARGS, None, a)
      else match afind a (a_list a) name with
        | Some (p, true) => (ERR_ALREADY_EXISTS, Some p, a)
        | Some (p, false) => (ERR_BUSY, None, a)
        | None =>
            if (p1 =? 0) || (p2 =? 0) then (ERR_NO_MEMORY, None, a)
            else (NO_ERROR, Some p1,
              with_alist (a_list a ++ [p1]) (put_obj p1 (AWrite name mode true (Some (MkQueue p2 (cap_of mode) [])) []) a))
        end
  end.

Definition spec_open (name : option (list Z)) (ctx : Z) (port : bool) (p1 p2 : Z) (a : aports) : Z * option Z * aports :=
  match name with
  | None => (ERR_INVALID_ARGS, None, a)
  | Some name =>
      if negb port then (ERR_INVALID_ARGS, None, a)
      else if (p1 =? 0) || (p2 =? 0) then (ERR_NO_MEMORY, None, a)
      else match afind a (a_list a) name with
        | None => (ERR_NOT_FOUND, None, a)
        | Some (wp, _) =>
            match a_objs a !! wp with
            | Some (AWrite n mode open pending readers) =>
                let reader q := put_waiting p1 (Some []) (put_obj p1 (ARead q ctx wp 0)
                  (put_obj wp (AWrite n mode open None (readers ++ [p1])) a)) in
                match pending with
                | Some q => (NO_ERROR, Some p1, reader q)
                | None =>
                    if negb (Z.land mode PORT_MODE_UNICAST =? 0) then (ERR_NOT_ALLOWED, None, a)
                    else (NO_ERROR, Some p1, reader (MkQueue p2 8 []))
                end
            | _ => (ERR_NOT_FOUND, None, a)
            end
        end
  end.

(** A read port that is in no group. *)
Definition ungrouped (a : aports) (p : Z) : bool :=
  match a_objs a !! p with Some (ARead _ _ _ g) => g =? 0 | _ => false end.

Definition set_group (g p : Z) (a : aports) : aports :=
  match a_objs a !! p with Some (ARead q ctx w _) => put_obj p (ARead q ctx w g) a | _ => a end.

(** The port joins the group. *)
Definition attach (g p : Z) (a : aports) : aports :=
  match a_objs a !! g with Some (AGroup l) => put_obj g (AGroup (l ++ [p])) (set_group g p a) | _ => a end.

Definition spec_group (ports : option (list Z)) (count : Z) (group : bool) (p1 : Z) (a : aports) : Z * option Z * aports :=
  if MAX_PORT_GROUP_COUNT <? count then (ERR_TOO_BIG, None, a)
  else if negb (count =? 0) && bool_decide (ports = None) then (ERR_INVALID_ARGS, None, a)
  else if negb group then (ERR_INVALID_ARGS, None, a)
  else if p1 =? 0 then (ERR_NO_MEMORY, None, a)
  else
    let l := default [] ports in
    if forallb (ungrouped a) l && bool_decide (NoDup l) then
      (NO_ERROR, Some p1, fold_left (fun a p => attach p1 p a) l (put_waiting p1 (Some []) (put_obj p1 (AGroup []) a)))
    else (ERR_BAD_HANDLE, None, a).

(** A wake-up takes the first thread off a queue. *)
Definition awake_one (p : Z) (a : aports) : aports := put_waiting p (drop 1 <$> a_waiting a p) a.
Definition nobody_waits (p : Z) (a : aports) : bool := match a_waiting a p with Some (_ :: _) => false | _ => true end.

Definition spec_group_add (group port : Z) (a : aports) : Z * aports :=
  if (port =? 0) || (group =? 0) then (ERR_INVALID_ARGS, a)
  else match a_objs a !! group with
    | Some (AGroup members) =>
        match a_objs a !! port with
        | Some (ARead q ctx w 0) =>
            if Z.of_nat (length members) =? MAX_PORT_GROUP_COUNT then (ERR_TOO_BIG, a)
            else
              (NO_ERROR, if bool_decide (q_items q = []) then attach group port a else awake_one group (attach group port a))
        | _ => (ERR_BAD_HANDLE, a)
        end
    | _ => (ERR_INVALID_ARGS, a)
    end.

(** The port leaves the list of the group, but keeps its pointer to it.  If it
    left the list before, the lock stays held. *)
Definition spec_group_remove (group port : Z) (a : aports) : Z * aports :=
  if (port =? 0) || (group =? 0) then (ERR_INVALID_ARGS, a)
  else match a_objs a !! group with
    | Some (AGroup members) =>
        match a_objs a !! port with
        | Some (ARead q ctx w g) =>
            if negb (g =? group) then (ERR_BAD_HANDLE, a)
            else if bool_decide (port ∈ members) then (NO_ERROR, put_obj group (AGroup (remove_from port members)) a)
            else (ERR_BAD_HANDLE, with_alocked true a)
        | _ => (ERR_BAD_HANDLE, a)
        end
    | _ => (ERR_INVALID_ARGS, a)
    end.

(** All of the packets, or none. *)
Definition push (q : queue) (pk : list port_packet_t) : option queue :=
  if Z.of_nat (length (q_items q) + length pk) <=? q_cap q
  then Some (MkQueue (q_addr q) (q_cap q) (q_items q ++ pk)) else None.

(** One thread of the group, or else of the port, is woken. *)
Definition wake_reader (p g : Z) (a : aports) : aports :=
  if negb (g =? 0) && negb (nobody_waits g a) then awake_one g a else awake_one p a.

Definition spec_write_reader (pk : list port_packet_t) (p : Z) (r : Z * aports) : Z * aports :=
  match a_objs (snd r) !! p with
  | Some (ARead q ctx w g) =>
      match push q pk with
      | Some q => (fst r, wake_reader p g (put_obj p (ARead q ctx w g) (snd r)))
      | None => (ERR_PARTIAL_WRITE, snd r)
      end
  | _ => r
  end.

Definition spec_write (port : Z) (pk : option (list port_packet_t)) (a : aports) : Z * aports :=
  match pk with
  | None => (ERR_INVALID_ARGS, a)
  | Some pk =>
      if port =? 0 then (ERR_INVALID_ARGS, a)
      else match a_objs a !! port with
        | Some (AWrite n m true (Some q) rds) =>
            match push q pk with
            | Some q => (NO_ERROR, put_obj port (AWrite n m true (Some q) rds) a)
            | None => (ERR_NOT_ENOUGH_BUFFER, a)
            end
        | Some (AWrite n m true None rds) => fold_left (fun r p => spec_write_reader pk p r) rds (NO_ERROR, a)
        | _ => (ERR_BAD_HANDLE, a)
        end
  end.

(** The oldest packet of a read port; the context is stored in any case. *)
Definition spec_take (p : Z) (result : port_result_t) (a : aports) : bool * port_result_t * aports :=
  match a_objs a !! p with
  | Some (ARead q ctx w g) =>
      match q_items q with
      | [] => (false, MkResult (Some ctx) (res_packet result), a)
      | x :: l => (true, MkResult (Some ctx) (Some x), put_obj p (ARead (MkQueue (q_addr q) (q_cap q) l) ctx w g) a)
      end
  | _ => (false, result, a)
  end.

(** The first member that has a packet. *)
Fixpoint spec_take_any (l : list Z) (result : port_result_t) (a : aports) : bool * port_result_t * aports :=
  match l with
  | [] => (false, result, a)
  | p :: l => match spec_take p result a with (true, result, a) => (true, result, a) | (false, result, a) => spec_take_any l result a end
  end.

(** [self] is the calling thread, [state] the lock state it came with. *)
Definition spec_read_locked (group : bool) (p timeout : Z) (state : bool) (self : nat) (result : port_result_t) (a : aports) : read_outcome * aports :=
  let '(found, result, a) :=
    if group then match a_objs a !! p with Some (AGroup l) => spec_take_any l result a | _ => (false, result, a) end
    else spec_take p result a in
  if found : bool then (ReadDone NO_ERROR result, with_alocked state a)
  else if timeout =? 0 then (ReadDone ERR_TIMED_OUT result, with_alocked state a)
  else (ReadBlocked group timeout state result,
        with_alocked false (put_waiting p ((fun l => l ++ [self]) <$> a_waiting a p) a)).

Definition spec_read (p timeout : Z) (result : option port_result_t) (self : nat) (a : aports) : read_outcome * aports :=
  match result with
  | None => (ReadDone ERR_INVALID_ARGS no_result, a)
  | Some result =>
      if p =? 0 then (ReadDone ERR_INVALID_ARGS result, a)
      else match a_objs a !! p with
        | Some (ARead _ _ _ _) => spec_read_locked false p timeout (a_locked a) self result a
        | Some (AGroup _) => spec_read_locked true p timeout (a_locked a) self result a
        | _ => (ReadDone ERR_BAD_HANDLE result, a)
        end
  end.

Definition spec_read_resumed (group : bool) (p timeout : Z) (state : bool) (result : port_result_t) (wr : Z) (self : nat) (a : aports) : read_outcome * aports :=
  if negb (wr =? NO_ERROR) then (ReadDone wr result, with_alocked state a)
  else spec_read_locked group p timeout state self result a.

Definition cancel_reader (p : Z) (a : aports) : aports :=
  match a_objs a !! p with
  | Some (ARead q ctx w g) =>
      let a := put_waiting p (Some []) (put_obj p (ARead q ctx 0 g) a) in
      if g =? 0 then a else put_waiting g (Some []) a
  | _ => a
  end.

Definition spec_destroy (port : Z) (a : aports) : Z * aports :=
  if port =? 0 then (ERR_INVALID_ARGS, a)
  else match a_objs a !! port with
    | Some (AWrite n m false pending rds) =>
        (NO_ERROR, del_obj port (fold_left (fun a p => cancel_reader p a) rds (with_alist (remove_from port (a_list a)) a)))
    | _ => (ERR_BAD_HANDLE, a)
    end.

(** The reader leaves its writer, which takes the queue back from its last
    reader.  The second component is the buffer left with the reader. *)
Definition leave_writer (p w : Z) (q : queue) (a : aports) : Z * aports :=
  match a_objs a !! w with
  | Some (AWrite n m open _ rds) =>
      let rds := remove_from p rds in
      if bool_decide (rds = []) then (0, put_obj w (AWrite n m open (Some q) rds) a)
      else (q_addr q, put_obj w (AWrite n m open None rds) a)
  | _ => (0, with_alost ({[q_addr q]} ∪ a_lost a) a)
  end.

Definition leave_group (p g : Z) (a : aports) : aports :=
  match a_objs a !! g with Some (AGroup l) => put_obj g (AGroup (remove_from p l)) a | _ => a end.

Definition spec_close (p : Z) (a : aports) : close_outcome * aports :=
  if p =? 0 then (CloseDone ERR_INVALID_ARGS, a)
  else match a_objs a !! p with
    | Some (ARead q ctx w g) =>
        let '(buf, a') := leave_writer p w q a in
        (CloseSwitched (ClosingRead (a_locked a) buf),
         with_alocked false (put_waiting p (Some []) (put_obj p (AClosing buf) (leave_group p g a'))))
    | Some (AGroup l) => (CloseSwitched (ClosingGroup (a_locked a)), with_alocked false (put_waiting p (Some []) a))
    | Some (AWrite n m true pending rds) => (CloseDone NO_ERROR, put_obj p (AWrite n m false pending rds) a)
    | _ => (CloseDone ERR_BAD_HANDLE, a)
    end.

Definition spec_close_resumed (p : Z) (c : closing) (a : aports) : Z * aports :=
  match c with
  | ClosingRead state buf => (NO_ERROR, with_alocked state (put_waiting p None (del_obj p a)))
  | ClosingGroup state =>
      let members := match a_objs a !! p with Some (AGroup l) => l | _ => [] end in
      (NO_ERROR, with_alocked state (put_waiting p None (del_obj p (fold_left (fun a p => set_group 0 p a) members a))))
  end.

Definition out (r : Z * option Z * aports) : answer * aports := let '(rc, o, a) := r in (AStatus rc o, a).
Definition plain (r : Z * aports) : answer * aports := (AStatus (fst r) None, snd r).

Definition spec (c : call) (p1 p2 : Z) (self : nat) (a : aports) : answer * aports :=
  match c with
  | CCreate name mode port => out (spec_create name mode port p1 p2 a)
  | COpen name ctx port => out (spec_open name ctx port p1 p2 a)
  | CGroup ports count group => out (spec_group ports count group p1 a)
  | CGroupAdd group port => plain (spec_group_add group port a)
  | CGroupRemove group port => plain (spec_group_remove group port a)
  | CWrite port pk => plain (spec_write port pk a)
  | CRead port timeout result => let '(o, a) := spec_read port timeout result self a in (AReadOut o, a)
  | CReadResumed group port timeout state result wr =>
      let '(o, a) := spec_read_resumed group port timeout state result wr self a in (AReadOut o, a)
  | CDestroy port => plain (spec_destroy port a)
  | CClose port => let '(o, a) := spec_close port a in (ACloseOut o, a)
  | CCloseResumed port c => plain (spec_close_resumed port c a)
  end.

(** * What a caller has to keep to *)

Definition alive (a : aports) (p : Z) : bool :=
  match a_objs a !! p with Some (AClosing _) | Some ADead | None => false | _ => true end.

(** The read port is in the list of the group it points to. *)
Definition attached (a : aports) (p : Z) : bool :=
  match a_objs a !! p with
  | Some (ARead _ _ _ g) => (g =? 0) || match a_objs a !! g with Some (AGroup l) => bool_decide (p ∈ l) | _ => false end
  | _ => true
  end.

(** No read port that was removed from the group points to it. *)
Definition unlinked_from (g p : Z) (o : aport) : Prop := match o with ARead _ _ _ g' => g' ≠ g | _ => True end.
#[export] Instance unlinked_from_dec g p o : Decision (unlinked_from g p o).
Proof. unfold unlinked_from. destruct o; apply _. Defined.

Definition all_attached (a : aports) (g : Z) : bool :=
  match a_objs a !! g with
  | Some (AGroup l) => bool_decide (map_Forall (fun p o => p ∈ l \/ unlinked_from g p o) (a_objs a))
  | _ => true
  end.

Definition handle_ok (a : aports) (p : Z) : bool := (p =? 0) || alive a p.

(** Handles are null or of ports that are not closed.  A read port that was
    removed from a group is not closed, and its old group is not closed.  A thread goes on in [port_read] after a wake-up with success only
    while its port is there, and [port_close] goes on when nobody waits. *)
Definition allowed (a : aports) (c : call) : bool :=
  match c with
  | CCreate _ _ _ | COpen _ _ _ => true
  | CGroup ports count _ => bool_decide (ports = None \/ count = Z.of_nat (length (default [] ports))) && forallb (alive a) (default [] ports)
  | CGroupAdd group port => handle_ok a group && handle_ok a port
  | CGroupRemove group port => handle_ok a group && handle_ok a port
  | CWrite port pk => handle_ok a port
  | CRead port timeout _ => handle_ok a port
  | CReadResumed group port timeout state result wr =>
      negb (wr =? NO_ERROR) ||
      match a_objs a !! port with
      | Some (ARead _ _ _ _) => negb group | Some (AGroup _) => group | _ => false
      end
  | CDestroy port => handle_ok a port
  | CClose port => handle_ok a port && attached a port && all_attached a port
  | CCloseResumed port c =>
      bool_decide (a_waiting a port = Some []) &&
      match a_objs a !! port, c with
      | Some (AClosing b), ClosingRead _ b' => b =? b'
      | Some (AGroup _), ClosingGroup _ => all_attached a port
      | _, _ => false
      end
  end.

(** The calls that may give the processor away, and their timeouts. *)
Definition may_switch {K} `{!WaitOps K} (c : call) (k : K) : Prop :=
  match c with
  | CRead _ timeout _ | CReadResumed _ _ timeout _ _ _ => wait_may_switch k /\ timeout_ok timeout
  | CWrite _ _ | CClose _ => wait_may_switch k
  | _ => True
  end.

(** * The invariant of the abstract state *)

Definition well_linked (a : aports) (p : Z) (o : aport) : Prop :=
  match o with
  | AWrite name mode _ pending rds =>
      p ∈ a_list a /\ NoDup rds /\ (pending = None <-> rds ≠ []) /\
      (forall r, r ∈ rds -> exists q ctx g, a_objs a !! r = Some (ARead q ctx p g))
  | ARead _ _ w g =>
      (w ≠ 0 -> exists n m op pd rds, a_objs a !! w = Some (AWrite n m op pd rds) /\ p ∈ rds) /\
      (g ≠ 0 -> exists l, a_objs a !! g = Some (AGroup l))
  | AGroup l => NoDup l /\ forall r, r ∈ l -> exists q ctx w, a_objs a !! r = Some (ARead q ctx w p)
  | AClosing _ => True
  | ADead => False
  end.

Definition queue_ok (q : queue) : Prop :=
  q_addr q ≠ 0 /\ (q_cap q = 8 \/ q_cap q = 64) /\ Z.of_nat (length (q_items q)) <= q_cap q.
Definition queues_ok (o : aport) : Prop :=
  match o with AWrite _ _ _ (Some q) _ => queue_ok q | ARead q _ _ _ => queue_ok q | _ => True end.

(** No buffer has two owners. *)
Definition distinct (a : aports) : Prop := forall p p' o o',
  a_objs a !! p = Some o -> a_objs a !! p' = Some o' -> buf_of o = buf_of o' -> buf_of o ≠ 0 -> p = p'.

Definition has_waiters (o : aport) : Prop := match o with AWrite _ _ _ _ _ => False | _ => True end.

Record awf (a : aports) : Prop := {
  wf_null : a_objs a !! 0 = None;
  wf_links p o : a_objs a !! p = Some o -> well_linked a p o;
  wf_list p : p ∈ a_list a -> exists n m op pd rds, a_objs a !! p = Some (AWrite n m op pd rds);
  wf_nodup : NoDup (a_list a);
  wf_names p p' n m op pd rds m' op' pd' rds' : a_objs a !! p = Some (AWrite n m op pd rds) ->
    a_objs a !! p' = Some (AWrite n m' op' pd' rds') -> p = p';
  wf_queues p o : a_objs a !! p = Some o -> queues_ok o;
  wf_buf : distinct a;
  wf_lost p o : a_objs a !! p = Some o -> buf_of o ≠ 0 -> buf_of o ∉ a_lost a;
  wf_waiting p : is_Some (a_waiting a p) <-> exists o, a_objs a !! p = Some o /\ has_waiters o
}.

(** * The representation *)

(** The ring holds [l], oldest first. *)
Definition ring (n : Z) (l : list port_packet_t) (b : port_buf_t) : Prop :=
  2 ^ log2 b = n /\ 0 <= log2 b < 32 /\ Z.of_nat (length (packet b)) = n /\ avail b = n - Z.of_nat (length l) /\
  0 <= head b < n /\ tail b = (head b + Z.of_nat (length l)) `mod` n /\
  forall i x, l !! i = Some x -> packet b !! Z.to_nat ((head b + Z.of_nat i) `mod` n) = Some (Some x).

Definition holds_queue (bufs : gmap Z port_buf_t) (q : queue) : Prop :=
  exists b, bufs !! q_addr q = Some b /\ ring (q_cap q) (q_items q) b.

Definition shape (bufs : gmap Z port_buf_t) (x : aport) (o : object) : Prop :=
  match x with
  | AWrite n m op pending rds =>
      o = OWrite (MkWrite (if op : bool then WRITEPORT_MAGIC_W else WRITEPORT_MAGIC_X) (pending_queue pending) rds m n) /\
      (forall q, pending = Some q -> holds_queue bufs q)
  | ARead q ctx w g => o = ORead (MkRead READPORT_MAGIC (q_addr q) ctx w g) /\ holds_queue bufs q
  | AGroup l => o = OGroup (MkGroup PORTGROUP_MAGIC l)
  | AClosing b => exists r, o = ORead r
  | ADead => True
  end.

Definition owned (a : aports) (b : Z) : Prop := b ≠ 0 /\ exists p o, a_objs a !! p = Some o /\ buf_of o = b.

Record shapes (a : aports) (s : ports) : Prop := {
  sh_objs p : match a_objs a !! p, p_objs s !! p with
    | Some x, Some o => shape (p_bufs s) x o | None, None => True | _, _ => False end;
  sh_bufs b : is_Some (p_bufs s !! b) <-> owned a b \/ b ∈ a_lost a;
  sh_apart b : is_Some (p_bufs s !! b) -> p_objs s !! b = None;
  sh_list : write_port_list s = a_list a;
  sh_locked : p_locked s = a_locked a
}.

Section abs.
Context {K H : Type} `{!WaitOps K} `{!AllocOps H}.

(** The world [w] represents [a]: the objects, the wait queues, and the memory
    of every object and of every buffer. *)
Record sim (a : aports) (w : world (K := K) (H := H)) : Prop := {
  sm_shapes : shapes a (w_ports w);
  sm_waiting p : waiting (w_wait w) p = a_waiting a p;
  sm_wait : wait_ok (w_wait w);
  sm_heap : alloc_ok (w_heap w);
  sm_allocated p : is_Some (p_objs (w_ports w) !! p) \/ is_Some (p_bufs (w_ports w) !! p) -> allocated (w_heap w) p
}.

Definition abs (a : aports) (w : world (K := K) (H := H)) : Prop := awf a /\ sim a w.
End abs.

End PortSpec.
