(* ===== verification/PortSim.v ===== *)
(** The simulation behind [PortProps]: each access of a port call keeps the
    representation, with an abstract state that changes along. *)
From S2P Require Import Prelude Pow2 WaitLib Port PortSpec.
Local Open Scope Z_scope.

Module PortSim.
Import Pow2 WaitLib Port PortSpec.

(** * Ring buffers *)

Definition cap_ok (n : Z) : Prop := n = 8 \/ n = 64.

Lemma ring_log n l b : cap_ok n -> ring n l b -> 0 <= log2 b < 32 /\ 0 < n /\ valpow2 (log2 b) = n /\
  forall v, 0 <= v -> modpow2 v (log2 b) = v `mod` n.
Proof.
  intros Hn (Hp & Hl & _). assert (0 < n) by (destruct Hn; lia). split_and!; try lia.
  - by rewrite valpow2_small.
  - intros v Hv. by rewrite modpow2_spec, Hp.
Qed.

Lemma new_ring n : cap_ok n -> ring n [] (new_buf n).
Proof.
  intros Hn. unfold new_buf, ring. cbn [log2 avail head tail packet length].
  destruct Hn as [-> | ->]; split_and!; try done.
Qed.

Lemma buf_is_empty_spec n l b : cap_ok n -> ring n l b -> buf_is_empty b = bool_decide (l = []).
Proof.
  intros Hn Hr. destruct (ring_log n l b Hn Hr) as (_ & Hpos & Hv & _). destruct Hr as (_ & _ & _ & Ha & _).
  unfold buf_is_empty. rewrite Hv, Ha. destruct l as [|x l].
  - rewrite bool_decide_eq_true_2 by done. apply Z.eqb_eq. simpl. lia.
  - rewrite bool_decide_eq_false_2 by done. apply Z.eqb_neq. cbn [length]. lia.
Qed.

(** A ring that [put_packets] works on: [avail] still counts the free slots from
    before the write. *)
Definition filling (n : Z) (l : list port_packet_t) (k : Z) (b : port_buf_t) : Prop :=
  ring n l (MkBuf (log2 b) (n - Z.of_nat (length l)) (head b) (tail b) (packet b)) /\ avail b = k.

Lemma put_packet_ring n l k b x : cap_ok n -> filling n l k b -> Z.of_nat (length l) < n ->
  exists b', put_packet x b = Some b' /\ filling n (l ++ [x]) k b'.
Proof.
  intros Hn [Hr Hk] Hroom. destruct (ring_log n l _ Hn Hr) as (Hlog & Hpos & _ & Hmod). cbn [log2] in *.
  destruct Hr as (Hp & _ & Hlen & _ & Hh & Ht & Hget). cbn [log2 head tail packet] in *.
  pose proof (Z.mod_pos_bound (head b + Z.of_nat (length l)) n Hpos) as Hb. rewrite <- Ht in Hb.
  unfold put_packet. rewrite (proj2 (Z.leb_le 0 (tail b))), (proj2 (Z.ltb_lt (tail b) _)) by lia. cbn [andb].
  eexists. split; [done|]. split; [|done]. unfold ring. cbn [log2 head tail packet avail].
  assert (n < 2 ^ 32) by (destruct Hn; lia). rewrite uw_small by lia. rewrite Hmod by lia.
  rewrite length_insert, length_app, Nat2Z.inj_add. cbn [length]. split_and!; try done; try lia.
  - rewrite Ht, Zplus_mod_idemp_l. f_equal. lia.
  - intros i y Hi. apply lookup_app_Some in Hi as [Hi|[Hi1 Hi2]].
    + assert (i < length l)%nat as Hil by by eapply lookup_lt_Some. rewrite list_lookup_insert_ne; [by apply Hget|].
      intros E. apply Z2Nat.inj in E; [|lia|by apply Z.mod_pos_bound]. rewrite Ht in E.
      assert ((head b + Z.of_nat (length l) - (head b + Z.of_nat i)) `mod` n = 0) as Hz by (rewrite Zminus_mod, E, Z.sub_diag; by apply Z.mod_0_l; lia).
      rewrite Z.mod_small in Hz by lia. lia.
    + destruct (i - length l)%nat as [|j] eqn:Hj; [|by destruct j]. injection Hi2 as <-. replace i with (length l) by lia.
      rewrite <- Ht, list_lookup_insert_eq; [done|lia].
Qed.

Lemma put_packets_ring n pk : cap_ok n -> forall l k b, filling n l k b -> Z.of_nat (length l + length pk) <= n ->
  exists b', put_packets pk b = Some b' /\ filling n (l ++ pk) k b'.
Proof.
  intros Hn. induction pk as [|x pk IH]; intros l k b Hf Hroom; cbn [put_packets length] in *.
  - exists b. by rewrite app_nil_r.
  - destruct (put_packet_ring n l k b x Hn Hf) as (b1 & -> & Hf1); [lia|].
    destruct (IH (l ++ [x]) k b1 Hf1) as (b2 & -> & Hf2); [rewrite length_app; cbn; lia|].
    exists b2. split; [done|]. by rewrite <- app_assoc in Hf2.
Qed.

(** [buf_write] is all or nothing. *)
Lemma buf_write_ring n l b pk : cap_ok n -> ring n l b ->
  if Z.of_nat (length l + length pk) <=? n
  then exists b', buf_write b pk = Some (NO_ERROR, b') /\ ring n (l ++ pk) b'
  else buf_write b pk = Some (ERR_NOT_ENOUGH_BUFFER, b).
Proof.
  intros Hn Hr. pose proof Hr as (_ & _ & _ & Ha & _). unfold buf_write.
  destruct (Z.leb_spec (Z.of_nat (length l + length pk)) n) as [Hle|Hgt].
  - rewrite (proj2 (Z.ltb_ge _ _)) by lia.
    destruct (put_packets_ring n pk Hn l (avail b) b) as (b' & -> & Hr' & Hk).
    { split; [|done]. rewrite <- Ha. by destruct b. }
    { done. }
    eexists. split; [done|]. rewrite Hk, Ha, uw_small.
    + replace (n - Z.of_nat (length l) - Z.of_nat (length pk)) with (n - Z.of_nat (length (l ++ pk))) by (rewrite length_app; lia). exact Hr'.
    + assert (n < 2 ^ 32) by (destruct Hn; lia). lia.
  - by rewrite (proj2 (Z.ltb_lt _ _)) by lia.
Qed.

Lemma buf_read_ring n l b pr : cap_ok n -> ring n l b -> Z.of_nat (length l) <= n ->
  match l with
  | [] => buf_read b pr = Some (ERR_NO_MSG, pr, b)
  | x :: l => exists b', buf_read b pr = Some (NO_ERROR, MkResult (res_ctx pr) (Some x), b') /\ ring n l b'
  end.
Proof.
  intros Hn Hr Hle. destruct (ring_log n l b Hn Hr) as (Hlog & Hpos & _ & Hmod).
  unfold buf_read. rewrite (buf_is_empty_spec n l b Hn Hr). destruct l as [|x l]; [done|].
  rewrite bool_decide_eq_false_2 by done. destruct Hr as (Hp & _ & Hlen & Ha & Hh & Ht & Hget).
  rewrite (proj2 (Z.ltb_ge _ _)) by lia. pose proof (Hget 0%nat x eq_refl) as H0.
  rewrite Z.add_0_r, Z.mod_small in H0 by lia. rewrite H0. eexists. split; [done|].
  cbn [length] in *. assert (n < 2 ^ 32) by (destruct Hn; lia). unfold ring. cbn [log2 head tail packet avail].
  rewrite !uw_small by lia. rewrite Hmod by lia. split_and!; try done; try lia.
  - apply Z.mod_pos_bound. lia.
  - apply Z.mod_pos_bound. lia.
  - rewrite Ht, Zplus_mod_idemp_l. f_equal. lia.
  - intros i y Hi. rewrite Zplus_mod_idemp_l. replace (head b + 1 + Z.of_nat i) with (head b + Z.of_nat (S i)) by lia. by apply Hget.
Qed.

(** * The representation *)

Section sim.
Context {K H : Type} `{!WaitOps K} `{!AllocOps H} `{!WaitLaws K} `{!AllocLaws H}.
Abbreviation world := (Port.world (K := K) (H := H)).
Implicit Types (a : aports) (w : world).

(** Only the port structures change. *)
Lemma sim_ports a a' w s' : sim a w -> shapes a' s' -> (forall p, a_waiting a' p = a_waiting a p) ->
  (forall p, is_Some (p_objs s' !! p) \/ is_Some (p_bufs s' !! p) -> is_Some (p_objs (w_ports w) !! p) \/ is_Some (p_bufs (w_ports w) !! p)) ->
  sim a' (MkWorld s' (w_wait w) (w_heap w)).
Proof. intros [] Hs Hw Hd. split; cbn; try done; [intros p; by rewrite Hw|auto]. Qed.

Lemma sim_waits a w k' (ws : queues) : sim a w -> wait_ok k' -> (forall p, waiting k' p = ws p) ->
  sim (with_awaiting ws a) (MkWorld (w_ports w) k' (w_heap w)).
Proof. intros [[]] Hk Hw. by split. Qed.

Lemma sim_weq a a' w : sim a w -> a_objs a' = a_objs a -> a_list a' = a_list a -> a_locked a' = a_locked a ->
  a_lost a' = a_lost a -> (forall p, a_waiting a' p = a_waiting a p) -> sim a' w.
Proof.
  destruct a, a'. cbn. intros [[]] -> -> -> -> Hw. cbn in *. split; cbn; try done. intros p. by rewrite Hw.
Qed.

Lemma sim_obj a w p x : sim a w -> a_objs a !! p = Some x -> exists o, p_objs (w_ports w) !! p = Some o /\ shape (p_bufs (w_ports w)) x o.
Proof. intros Hs Hp. pose proof (sh_objs _ _ (sm_shapes _ _ Hs) p) as Hsh. rewrite Hp in Hsh. destruct (p_objs (w_ports w) !! p) as [o|]; [by exists o|done]. Qed.

Lemma wp_object_at a w p x (Q : object -> world -> Prop) : sim a w -> a_objs a !! p = Some x ->
  (forall o, shape (p_bufs (w_ports w)) x o -> Q o w) -> wp (object_at p) w Q.
Proof. intros Hs Hp HQ. destruct (sim_obj a w p x Hs Hp) as (o & Ho & Hsh). unfold object_at. wp_step. exists o. auto. Qed.

Lemma wp_read_at a w p q ctx wr g (Q : read_port_t -> world -> Prop) : sim a w -> a_objs a !! p = Some (ARead q ctx wr g) ->
  Q (MkRead READPORT_MAGIC (q_addr q) ctx wr g) w -> wp (read_at p) w Q.
Proof.
  intros Hs Hp HQ. destruct (sim_obj a w p _ Hs Hp) as (o & Ho & -> & _). unfold read_at. wp_step. rewrite Ho. by eexists.
Qed.

Lemma wp_write_at a w p n m op pd rds (Q : write_port_t -> world -> Prop) : sim a w -> a_objs a !! p = Some (AWrite n m op pd rds) ->
  Q (MkWrite (if op then WRITEPORT_MAGIC_W else WRITEPORT_MAGIC_X) (pending_queue pd) rds m n) w -> wp (write_at p) w Q.
Proof.
  intros Hs Hp HQ. destruct (sim_obj a w p _ Hs Hp) as (o & Ho & -> & _). unfold write_at. wp_step. rewrite Ho. by eexists.
Qed.

Lemma wp_group_at a w p l (Q : port_group_t -> world -> Prop) : sim a w -> a_objs a !! p = Some (AGroup l) ->
  Q (MkGroup PORTGROUP_MAGIC l) w -> wp (group_at p) w Q.
Proof.
  intros Hs Hp HQ. destruct (sim_obj a w p _ Hs Hp) as (o & Ho & ->). unfold group_at. wp_step. rewrite Ho. by eexists.
Qed.

Lemma wp_closing_at a w p b (Q : read_port_t -> world -> Prop) : sim a w -> a_objs a !! p = Some (AClosing b) ->
  (forall r, Q r w) -> wp (read_at p) w Q.
Proof.
  intros Hs Hp HQ. destruct (sim_obj a w p _ Hs Hp) as (o & Ho & r & ->). unfold read_at. wp_step. rewrite Ho. by eexists.
Qed.

(** ** The lock *)

Lemma sim_locked a w b : sim a w -> sim (with_alocked b a) (MkWorld (with_locked b (w_ports w)) (w_wait w) (w_heap w)).
Proof. intros Hs. eapply sim_ports; [done| |done|by auto]. destruct Hs as [[] _ _ _ _]. by split. Qed.

Lemma wp_lock a w (Q : bool -> world -> Prop) : sim a w ->
  (forall w', sim (with_alocked true a) w' -> w_wait w' = w_wait w -> Q (a_locked a) w') -> wp thread_lock w Q.
Proof.
  intros Hs HQ. unfold thread_lock, upd_ports. wp_step. rewrite (sh_locked _ _ (sm_shapes _ _ Hs)).
  apply HQ; [by apply sim_locked|done].
Qed.

Lemma wp_lock_at a w (Q : bool -> world -> Prop) : sim a w ->
  (let w' := MkWorld (with_locked true (w_ports w)) (w_wait w) (w_heap w) in sim (with_alocked true a) w' -> Q (a_locked a) w') -> wp thread_lock w Q.
Proof.
  intros Hs HQ. unfold thread_lock, upd_ports. wp_step. rewrite (sh_locked _ _ (sm_shapes _ _ Hs)).
  apply HQ. by apply sim_locked.
Qed.

Lemma wp_set_locked a w b (Q : unit -> world -> Prop) : sim a w ->
  (forall w', sim (with_alocked b a) w' -> w_wait w' = w_wait w -> Q tt w') -> wp (upd_ports (with_locked b)) w Q.
Proof. intros Hs HQ. unfold upd_ports. wp_step. apply HQ; [by apply sim_locked|done]. Qed.

(** ** Changes of an object *)

(** The buffer of [p] is still accounted for when [p] lets go of it. *)
Definition covered a p b : Prop :=
  b = 0 \/ b ∈ a_lost a \/ exists p' o', p' ≠ p /\ a_objs a !! p' = Some o' /\ buf_of o' = b.

Lemma sim_put a w p x x' o' : sim a w -> a_objs a !! p = Some x -> shape (p_bufs (w_ports w)) x' o' ->
  covered a p (buf_of x) \/ buf_of x = buf_of x' ->
  (buf_of x' ≠ 0 -> is_Some (p_bufs (w_ports w) !! buf_of x')) ->
  sim (put_obj p x' a) (MkWorld (with_objs (<[p := o']> (p_objs (w_ports w))) (w_ports w)) (w_wait w) (w_heap w)).
Proof.
  intros Hs Hp Hsh Hc Hb. destruct (sim_obj a w p x Hs Hp) as (o & Ho & _). eapply sim_ports; [done| |done|].
  - destruct Hs as [[] _ _ _ _]. split; cbn; try done.
    + intros q. rewrite !lookup_insert. case_decide; [done|]. apply sh_objs0.
    + intros b. rewrite sh_bufs0. unfold owned. cbn. split.
      * intros [(Hb0 & q & y & Hq & Hy)|?]; [|by right]. destruct (decide (q = p)) as [->|Hne].
        -- rewrite Hp in Hq. injection Hq as ->. destruct Hc as [[?|[?|(p' & o1 & Hne & Hp' & Ho1)]]|He].
           ++ congruence.
           ++ right. by rewrite <- Hy.
           ++ left. split; [done|]. exists p', o1. rewrite lookup_insert_ne by done. split; [done|congruence].
           ++ left. split; [done|]. exists p, x'. rewrite lookup_insert_eq. split; [done|congruence].
        -- left. split; [done|]. exists q, y. by rewrite lookup_insert_ne.
      * intros [(Hb0 & q & y & Hq & Hy)|?]; [|by right]. rewrite lookup_insert in Hq. case_decide.
        -- injection Hq as ->. subst b. by apply sh_bufs0, Hb.
        -- left. split; [done|]. by exists q, y.
    + intros b Hi. rewrite lookup_insert_ne; [by apply sh_apart0|]. intros ->. rewrite (sh_apart0 _ Hi) in Ho. done.
  - cbn. intros q. rewrite lookup_insert. case_decide; [subst; left; by eexists|auto].
Qed.

Lemma sim_new a w p x' o' : sim a w -> a_objs a !! p = None -> p_bufs (w_ports w) !! p = None -> allocated (w_heap w) p ->
  shape (p_bufs (w_ports w)) x' o' -> buf_of x' = 0 ->
  sim (put_obj p x' a) (MkWorld (with_objs (<[p := o']> (p_objs (w_ports w))) (w_ports w)) (w_wait w) (w_heap w)).
Proof.
  intros [[] ? ? ? Hal] Hp Hpb Hpal Hsh Hb. split; cbn; try done.
  - split; cbn; try done.
    + intros q. rewrite !lookup_insert. case_decide; [done|]. apply sh_objs0.
    + intros b. rewrite sh_bufs0. unfold owned. cbn. split; (intros [(Hb0 & q & y & Hq & Hy)|?]; [|by right]); left; (split; [done|]).
      * exists q, y. rewrite lookup_insert_ne; [done|]. congruence.
      * rewrite lookup_insert in Hq. case_decide; [simplify_eq; congruence|]. by exists q, y.
    + intros b Hi. rewrite lookup_insert_ne; [by apply sh_apart0|]. intros ->. rewrite Hpb in Hi. by destruct Hi.
  - intros q [Hq|Hq]; [|auto]. rewrite lookup_insert in Hq. case_decide; [by subst|auto].
Qed.

Lemma wp_set_object a w p x x' o' (Q : unit -> world -> Prop) : sim a w -> a_objs a !! p = Some x ->
  shape (p_bufs (w_ports w)) x' o' -> covered a p (buf_of x) \/ buf_of x = buf_of x' ->
  (buf_of x' ≠ 0 -> is_Some (p_bufs (w_ports w) !! buf_of x')) ->
  (forall w', sim (put_obj p x' a) w' -> w_wait w' = w_wait w -> Q tt w') -> wp (set_object p o') w Q.
Proof. intros Hs Hp Hsh Hc Hb HQ. unfold set_object, upd_ports. wp_step. apply HQ; [by eapply sim_put|done]. Qed.

Lemma sim_owned a w p x : sim a w -> a_objs a !! p = Some x -> buf_of x ≠ 0 -> is_Some (p_bufs (w_ports w) !! buf_of x).
Proof. intros Hs Hp Hb. apply (sh_bufs _ _ (sm_shapes _ _ Hs)). left. split; [done|]. by exists p, x. Qed.

(** A field that is not a buffer. *)
Lemma wp_set_gport a w p q ctx wr g g' (Q : unit -> world -> Prop) : sim a w -> a_objs a !! p = Some (ARead q ctx wr g) ->
  (forall w', sim (put_obj p (ARead q ctx wr g') a) w' -> w_wait w' = w_wait w -> Q tt w') -> wp (upd_read p (set_r_gport g')) w Q.
Proof.
  intros Hs Hp HQ. unfold upd_read. wp_step. eapply wp_read_at; [done..|]. destruct (sim_obj a w p _ Hs Hp) as (o & _ & _ & Hq).
  refine (wp_set_object a w p _ (ARead q ctx wr g') _ Q Hs Hp _ (or_intror eq_refl) (sim_owned a w p _ Hs Hp) HQ). by split.
Qed.

Lemma wp_set_wport a w p q ctx wr g wr' (Q : unit -> world -> Prop) : sim a w -> a_objs a !! p = Some (ARead q ctx wr g) ->
  (forall w', sim (put_obj p (ARead q ctx wr' g) a) w' -> w_wait w' = w_wait w -> Q tt w') -> wp (upd_read p (set_r_wport wr')) w Q.
Proof.
  intros Hs Hp HQ. unfold upd_read. wp_step. eapply wp_read_at; [done..|]. destruct (sim_obj a w p _ Hs Hp) as (o & _ & _ & Hq).
  refine (wp_set_object a w p _ (ARead q ctx wr' g) _ Q Hs Hp _ (or_intror eq_refl) (sim_owned a w p _ Hs Hp) HQ). by split.
Qed.

Lemma wp_set_members a w p l l' (Q : unit -> world -> Prop) : sim a w -> a_objs a !! p = Some (AGroup l) ->
  (forall w', sim (put_obj p (AGroup l') a) w' -> w_wait w' = w_wait w -> Q tt w') -> wp (upd_group p (set_g_rp_list l')) w Q.
Proof.
  intros Hs Hp HQ. unfold upd_group. wp_step. eapply wp_group_at; [done..|].
  by refine (wp_set_object a w p _ (AGroup l') _ Q Hs Hp _ (or_intror eq_refl) _ HQ).
Qed.

Lemma wp_upd_write a w p n m op pd rds op' pd' rds' f (Q : unit -> world -> Prop) : sim a w -> a_objs a !! p = Some (AWrite n m op pd rds) ->
  f (MkWrite (if op then WRITEPORT_MAGIC_W else WRITEPORT_MAGIC_X) (pending_queue pd) rds m n) =
    MkWrite (if op' : bool then WRITEPORT_MAGIC_W else WRITEPORT_MAGIC_X) (pending_queue pd') rds' m n ->
  (forall q, pd' = Some q -> holds_queue (p_bufs (w_ports w)) q) -> covered a p (pending_queue pd) ->
  (forall w', sim (put_obj p (AWrite n m op' pd' rds') a) w' -> w_wait w' = w_wait w -> p_bufs (w_ports w') = p_bufs (w_ports w) -> Q tt w') ->
  wp (upd_write p f) w Q.
Proof.
  intros Hs Hp Hf Hq Hc HQ. unfold upd_write. wp_step. eapply wp_write_at; [done..|]. rewrite Hf. unfold set_object, upd_ports. wp_step.
  apply HQ; [|done..]. eapply sim_put; [done..| |by left|]; [by split|]. destruct pd' as [q|]; [|done]. intros _.
  destruct (Hq q eq_refl) as (b & Hb & _). by eexists.
Qed.

(** The readers and the state of a write port. *)
Lemma wp_set_write a w p n m op pd rds op' rds' f (Q : unit -> world -> Prop) : sim a w -> a_objs a !! p = Some (AWrite n m op pd rds) ->
  f (MkWrite (if op then WRITEPORT_MAGIC_W else WRITEPORT_MAGIC_X) (pending_queue pd) rds m n) =
    MkWrite (if op' : bool then WRITEPORT_MAGIC_W else WRITEPORT_MAGIC_X) (pending_queue pd) rds' m n ->
  (forall w', sim (put_obj p (AWrite n m op' pd rds') a) w' -> w_wait w' = w_wait w -> Q tt w') -> wp (upd_write p f) w Q.
Proof.
  intros Hs Hp Hf HQ. unfold upd_write. wp_step. eapply wp_write_at; [done..|]. rewrite Hf. destruct (sim_obj a w p _ Hs Hp) as (o & _ & _ & Hq).
  refine (wp_set_object a w p _ (AWrite n m op' pd rds') _ Q Hs Hp _ (or_intror eq_refl) (sim_owned a w p _ Hs Hp) HQ). by split.
Qed.

(** ** Buffers *)

Definition queue_in (x : aport) (q : queue) : Prop :=
  match x with AWrite _ _ _ (Some q') _ | ARead q' _ _ _ => q' = q | _ => False end.
Definition requeue (q' : queue) (x : aport) : aport :=
  match x with
  | AWrite n m op (Some _) rds => AWrite n m op (Some q') rds
  | ARead _ ctx wr g => ARead q' ctx wr g
  | _ => x
  end.

Lemma queue_in_buf x q : queue_in x q -> buf_of x = q_addr q.
Proof. by destruct x as [? ? ? [?|] ?| | | |]; cbn; intros; subst. Qed.

Lemma requeue_buf x q q' : queue_in x q -> q_addr q' = q_addr q -> buf_of (requeue q' x) = buf_of x.
Proof. by destruct x as [? ? ? [?|] ?| | | |]; cbn; intros; subst. Qed.

Lemma shape_queue bufs x o q : shape bufs x o -> queue_in x q -> holds_queue bufs q.
Proof. destruct x as [? ? ? [?|] ?| | | |]; cbn; try done; [intros [_ Hq] <-; by apply Hq|by intros [_ Hq] <-]. Qed.

Lemma holds_frame bufs bufs' q : holds_queue bufs q -> bufs' !! q_addr q = bufs !! q_addr q -> holds_queue bufs' q.
Proof. intros (b & Hb & Hr) Hf. exists b. by rewrite Hf. Qed.

Lemma shape_frame bufs bufs' x o : shape bufs x o ->
  (forall q, queue_in x q -> bufs' !! q_addr q = bufs !! q_addr q) -> shape bufs' x o.
Proof.
  destruct x as [n m op [q|] rds|q ctx wr g|l|b|]; cbn; try done.
  - intros [-> Hq] Hf. split; [done|]. intros q' [= <-]. eapply holds_frame; [by apply Hq|by apply Hf].
  - by intros [-> _] _.
  - intros [-> Hq] Hf. split; [done|]. eapply holds_frame; [done|by apply Hf].
Qed.

Lemma wp_set_buf a w p x q q' b' (Q : unit -> world -> Prop) : sim a w -> distinct a -> a_objs a !! p = Some x -> queue_in x q ->
  q_addr q ≠ 0 -> q_addr q' = q_addr q -> ring (q_cap q') (q_items q') b' ->
  (forall w', sim (put_obj p (requeue q' x) a) w' -> w_wait w' = w_wait w -> Q tt w') -> wp (set_buf (q_addr q) b') w Q.
Proof.
  intros Hs Hd Hp Hx Hq0 Ha Hr HQ. unfold set_buf, upd_ports. wp_step. apply HQ; [|done]. destruct Hs as [[] ? ? ? Hal].
  assert (is_Some (p_bufs (w_ports w) !! q_addr q)) as Hold.
  { apply sh_bufs0. left. split; [done|]. exists p, x. split; [done|]. by apply queue_in_buf. }
  assert (forall b, is_Some (<[q_addr q := b']> (p_bufs (w_ports w)) !! b) <-> is_Some (p_bufs (w_ports w) !! b)) as Hdom.
  { intros b. rewrite lookup_insert. case_decide; [subst; split; by eauto|done]. }
  split; cbn; try done.
  - split; cbn; try done.
    + intros p'. rewrite lookup_insert. case_decide as Hpp.
      * subst p'. pose proof (sh_objs0 p) as Hsh. rewrite Hp in Hsh. destruct (p_objs (w_ports w) !! p) as [o|]; [|done].
        assert (holds_queue (<[q_addr q:=b']> (p_bufs (w_ports w))) q') as Hh by (exists b'; rewrite Ha, lookup_insert_eq; done).
        revert Hsh Hx. destruct x as [n m op [q0|] rds|q0 ctx wr g|l|b|]; cbn; try done; intros [-> _] ->; rewrite Ha; (split; [done|]); try done.
        by intros ? [= <-].
      * pose proof (sh_objs0 p') as Hsh. destruct (a_objs a !! p') as [x'|] eqn:Hx', (p_objs (w_ports w) !! p') as [o'|]; try done.
        eapply shape_frame; [done|]. intros q1 Hq1. rewrite lookup_insert_ne; [done|]. intros E. apply Hpp. apply (Hd p p' x x'); try done.
        -- rewrite (queue_in_buf x q), (queue_in_buf x' q1); done.
        -- by rewrite (queue_in_buf x q).
    + intros b. rewrite Hdom, sh_bufs0. unfold owned. cbn. split; (intros [(Hb0 & p' & y & Hq' & Hy)|?]; [|by right]); left; (split; [done|]).
      * destruct (decide (p' = p)) as [->|Hne]; [exists p, (requeue q' x)|exists p', y; by rewrite lookup_insert_ne].
        rewrite lookup_insert_eq. split; [done|]. rewrite (requeue_buf x q) by done. congruence.
      * rewrite lookup_insert in Hq'. case_decide; [|by exists p', y]. exists p, x. simplify_eq. by rewrite (requeue_buf x q).
    + intros b Hb. by apply sh_apart0, Hdom.
  - intros p'. rewrite Hdom. apply Hal.
Qed.

Lemma wp_buf_at a w p x q (Q : port_buf_t -> world -> Prop) : sim a w -> a_objs a !! p = Some x -> queue_in x q ->
  (forall b, ring (q_cap q) (q_items q) b -> p_bufs (w_ports w) !! q_addr q = Some b -> Q b w) -> wp (buf_at (q_addr q)) w Q.
Proof.
  intros Hs Hp Hx HQ. destruct (sim_obj a w p x Hs Hp) as (o & _ & Hsh). destruct (shape_queue _ _ _ _ Hsh Hx) as (b & Hb & Hr).
  unfold buf_at. wp_step. exists b. auto.
Qed.

Lemma set_buf_same w p b : p_bufs (w_ports w) !! p = Some b -> set_buf p b w = Some (tt, w).
Proof. intros Hb. unfold set_buf, upd_ports. cbn. unfold with_bufs. rewrite insert_id by done. by destruct w as [[] ? ?]. Qed.

Lemma wp_same (m : M world unit) w (Q : unit -> world -> Prop) : m w = Some (tt, w) -> Q tt w -> wp m w Q.
Proof. unfold wp. by intros ->. Qed.

Lemma wp_write_buf a w p x q pk (Q : Z -> world -> Prop) : sim a w -> distinct a -> a_objs a !! p = Some x -> queue_in x q -> queue_ok q ->
  match push q pk with
  | Some q' => forall w', sim (put_obj p (requeue q' x) a) w' -> w_wait w' = w_wait w -> Q NO_ERROR w'
  | None => Q ERR_NOT_ENOUGH_BUFFER w
  end -> wp (write_buf (q_addr q) pk) w Q.
Proof.
  intros Hs Hd Hp Hx (Hq0 & Hcap & _) HQ. unfold write_buf. wp_step. eapply wp_buf_at; [done..|]. intros b Hr Hb. wp_step.
  pose proof (buf_write_ring _ _ _ pk Hcap Hr) as Hw. unfold push in HQ.
  destruct (Z.of_nat (length (q_items q) + length pk) <=? q_cap q).
  - destruct Hw as (b' & -> & Hr'). eexists. split; [done|]. wp_step. cbn [fst snd].
    by eapply (wp_set_buf a w p x q (MkQueue (q_addr q) (q_cap q) (q_items q ++ pk))).
  - rewrite Hw. eexists. split; [done|]. wp_step. cbn [fst snd]. apply wp_same; [by apply set_buf_same|done].
Qed.

Lemma wp_read_buf a w p x q pr (Q : Z * port_result_t -> world -> Prop) : sim a w -> distinct a -> a_objs a !! p = Some x -> queue_in x q -> queue_ok q ->
  match q_items q with
  | y :: l => forall w', sim (put_obj p (requeue (MkQueue (q_addr q) (q_cap q) l) x) a) w' -> w_wait w' = w_wait w ->
      Q (NO_ERROR, MkResult (res_ctx pr) (Some y)) w'
  | [] => Q (ERR_NO_MSG, pr) w
  end -> wp (read_buf (q_addr q) pr) w Q.
Proof.
  intros Hs Hd Hp Hx (Hq0 & Hcap & Hlen) HQ. unfold read_buf. wp_step. eapply wp_buf_at; [done..|]. intros b Hr Hb. wp_step.
  pose proof (buf_read_ring _ _ _ pr Hcap Hr Hlen) as Hw. destruct (q_items q) as [|y l].
  - rewrite Hw. eexists. split; [done|]. wp_step. cbn [fst snd]. apply wp_same; [by apply set_buf_same|done].
  - destruct Hw as (b' & -> & Hr'). eexists. split; [done|]. wp_step. cbn [fst snd].
    by eapply (wp_set_buf a w p x q (MkQueue (q_addr q) (q_cap q) l)).
Qed.

(** ** Wait queues *)

Definition calm w w' : Prop := wait_may_switch (w_wait w) -> wait_may_switch (w_wait w').

Lemma wp_on_wait {A} (m : M K A) w (Q : A -> world -> Prop) :
  wp m (w_wait w) (fun r k' => Q r (MkWorld (w_ports w) k' (w_heap w))) -> wp (on_wait m) w Q.
Proof. unfold wp, on_wait. by destruct (m (w_wait w)) as [[r k']|]. Qed.

Lemma sim_queue a w k' p l : sim a w -> wait_ok k' -> (forall q, waiting k' q = set_queue p l (waiting (w_wait w)) q) ->
  sim (put_waiting p l a) (MkWorld (w_ports w) k' (w_heap w)).
Proof.
  intros Hs Hk Hw. apply sim_waits; [done..|]. intros q. rewrite Hw. unfold set_queue. case_if; [done|]. apply (sm_waiting _ _ Hs).
Qed.

Lemma wp_wait_init a w p (Q : unit -> world -> Prop) : sim a w -> a_waiting a p = None ->
  (forall k', sim (put_waiting p (Some []) a) (MkWorld (w_ports w) k' (w_heap w)) -> Q tt (MkWorld (w_ports w) k' (w_heap w))) ->
  wp (on_wait (wait_init p)) w Q.
Proof.
  intros Hs Hp HQ. apply wp_on_wait. eapply wp_mono; [apply wait_init_ok; [apply Hs|by rewrite (sm_waiting _ _ Hs)]|].
  cbn. intros [] k' [Hk Hw]. apply HQ. by apply sim_queue.
Qed.

Lemma wp_wake_one a w p err l (Q : Z -> world -> Prop) : sim a w -> a_waiting a p = Some l ->
  (forall w', sim (awake_one p a) w' -> calm w w' -> Q (match l with [] => 0 | _ => 1 end) w') -> wp (on_wait (wake_one p err)) w Q.
Proof.
  intros Hs Hp HQ. apply wp_on_wait. eapply wp_mono; [apply (wake_one_ok _ p l); [apply Hs|by rewrite (sm_waiting _ _ Hs)]|].
  cbn. intros r k' (Hk & Hc & -> & Hw). apply HQ; [|done]. unfold awake_one. rewrite Hp. apply sim_queue; [done..|].
  intros q. rewrite Hw. by destruct l.
Qed.

Lemma wp_wake_all a w p err l (Q : Z -> world -> Prop) : sim a w -> a_waiting a p = Some l ->
  (forall r w', sim (put_waiting p (Some []) a) w' -> calm w w' -> Q r w') -> wp (on_wait (wake_all p err)) w Q.
Proof.
  intros Hs Hp HQ. apply wp_on_wait. eapply wp_mono; [apply (wake_all_ok _ p l); [apply Hs|by rewrite (sm_waiting _ _ Hs)]|].
  cbn. intros r k' (Hk & Hc & _ & Hw). apply HQ; [|done]. by apply sim_queue.
Qed.

Lemma wp_wait_destroy a w p l (Q : unit -> world -> Prop) : sim a w -> a_waiting a p = Some l -> wait_may_switch (w_wait w) ->
  (forall w', sim (put_waiting p (Some []) a) w' -> Q tt w') -> wp (on_wait (wait_destroy p)) w Q.
Proof.
  intros Hs Hp Hm HQ. apply wp_on_wait. eapply wp_mono; [apply (wait_destroy_ok _ p l); [apply Hs|done|by rewrite (sm_waiting _ _ Hs)]|].
  cbn. intros [] k' [Hk Hw]. apply HQ. by apply sim_queue.
Qed.

Lemma wp_wait_retire a w p (Q : unit -> world -> Prop) : sim a w -> a_waiting a p = Some [] ->
  (forall w', sim (put_waiting p None a) w' -> Q tt w') -> wp (on_wait (wait_retire p)) w Q.
Proof.
  intros Hs Hp HQ. apply wp_on_wait. eapply wp_mono; [apply (wait_retire_ok _ p); [apply Hs|by rewrite (sm_waiting _ _ Hs)]|].
  cbn. intros [] k' [Hk Hw]. apply HQ. by apply sim_queue.
Qed.

Lemma wp_yield a w (Q : unit -> world -> Prop) : sim a w -> wait_may_switch (w_wait w) ->
  (forall w', sim a w' -> Q tt w') -> wp (on_wait wait_yield) w Q.
Proof.
  intros Hs Hm HQ. apply wp_on_wait. eapply wp_mono; [apply wait_yield_ok; [apply Hs|done]|].
  cbn. intros [] k' [Hk Hw]. apply HQ. eapply sim_weq; [apply (sim_waits a w k' (a_waiting a)); [done..|]|done..].
  intros p. by rewrite Hw, (sm_waiting _ _ Hs).
Qed.

Lemma wp_block a w p l timeout (Q : wait_result -> world -> Prop) : sim a w -> a_waiting a p = Some l -> wait_may_switch (w_wait w) ->
  timeout_ok timeout ->
  (if timeout =? 0 then Q (WaitDone ERR_TIMED_OUT) w
   else forall w', sim (put_waiting p (Some (l ++ [wait_self (w_wait w)])) a) w' -> Q WaitBlocked w') ->
  wp (on_wait (wait_block p timeout)) w Q.
Proof.
  intros Hs Hp Hm Ht HQ. apply wp_on_wait. eapply wp_mono; [apply (wait_block_ok _ p l timeout); [apply Hs|done|done|by rewrite (sm_waiting _ _ Hs)]|].
  cbn. intros r k' [Hk Hw]. destruct (timeout =? 0).
  - destruct Hw as [-> ->]. by destruct w.
  - destruct Hw as [-> Hw]. apply HQ. by apply sim_queue.
Qed.

(** ** Memory *)

Lemma wp_port_heap {A} (m : M H A) w (Q : A -> world -> Prop) :
  wp m (w_heap w) (fun r h' => Q r (MkWorld (w_ports w) (w_wait w) h')) -> wp (on_heap m) w Q.
Proof. unfold wp, on_heap. by destruct (m (w_heap w)) as [[r h']|]. Qed.

(** What an allocation returns is null or of nobody. *)
Definition fresh a w p : Prop := p ≠ 0 -> a_objs a !! p = None /\ p_bufs (w_ports w) !! p = None /\ allocated (w_heap w) p.

Lemma sim_granted a w p h' : sim a w -> granted (w_heap w) p h' ->
  sim a (MkWorld (w_ports w) (w_wait w) h') /\ fresh a (MkWorld (w_ports w) (w_wait w) h') p.
Proof.
  intros [Hsh Hw Hk Hh Hal] (Hh' & Hkeep & Hp). split; [split; cbn; try done; auto|].
  intros Hp0. destruct (Hp Hp0) as [Hnew Hnow]. cbn. split_and!; [| |done].
  - pose proof (sh_objs _ _ Hsh p) as Ho. destruct (a_objs a !! p); [|done]. destruct (p_objs (w_ports w) !! p) eqn:E; [|done].
    destruct Hnew. apply Hal. left. by eexists.
  - destruct (p_bufs (w_ports w) !! p) eqn:E; [|done]. destruct Hnew. apply Hal. right. by eexists.
Qed.

Lemma wp_calloc a w n (Q : Z -> world -> Prop) : sim a w -> 0 < n < 2 ^ 16 ->
  (forall p w', sim a w' -> fresh a w' p -> w_ports w' = w_ports w -> w_wait w' = w_wait w -> Q p w') -> wp (on_heap (calloc 1 n)) w Q.
Proof.
  intros Hs Hn HQ. apply wp_port_heap. eapply wp_mono; [apply calloc_ok; [apply Hs|lia]|].
  intros p h' Hg. destruct (sim_granted a w p h' Hs Hg). by apply HQ.
Qed.

Lemma wp_new_object a w p x o (Q : unit -> world -> Prop) : sim a w -> fresh a w p -> p ≠ 0 -> buf_of x = 0 -> shape (p_bufs (w_ports w)) x o ->
  (forall w', sim (put_obj p x a) w' -> w_wait w' = w_wait w -> w_heap w' = w_heap w ->
    p_objs (w_ports w') = <[p := o]> (p_objs (w_ports w)) -> p_bufs (w_ports w') = p_bufs (w_ports w) -> Q tt w') -> wp (set_object p o) w Q.
Proof.
  intros Hs Hf Hp0 Hb Hsh HQ. destruct (Hf Hp0) as (? & ? & ?). unfold set_object, upd_ports. wp_step.
  apply HQ; try done. by eapply sim_new.
Qed.

Definition cap_for (big : bool) : Z := if big then 64 else 8.

(** A new buffer has no owner yet. *)
Lemma wp_make_buf a w big (Q : Z -> world -> Prop) : sim a w ->
  (forall w', sim a w' -> w_wait w' = w_wait w -> w_ports w' = w_ports w -> Q 0 w') ->
  (forall b w', b ≠ 0 -> a_objs a !! b = None -> ~ owned a b -> b ∉ a_lost a -> sim (with_alost ({[b]} ∪ a_lost a) a) w' ->
    w_wait w' = w_wait w -> p_objs (w_ports w') = p_objs (w_ports w) ->
    holds_queue (p_bufs (w_ports w')) (MkQueue b (cap_for big) []) -> Q b w') ->
  wp (make_buf big) w Q.
Proof.
  intros Hs HQ0 HQ. unfold make_buf. set (n := if big then PORT_BUFF_SIZE_BIG else PORT_BUFF_SIZE).
  assert (n = cap_for big /\ cap_ok n) as [Hn Hc] by (destruct big; split; try done; [by right|by left]).
  wp_step. apply wp_port_heap. eapply wp_mono; [apply malloc_ok; [apply Hs|]|].
  { unfold sizeof_port_buf_t, sizeof_port_packet_t. destruct Hc as [-> | ->]; lia. }
  intros b h' Hg. destruct (sim_granted a w b h' Hs Hg) as [Hs' Hf].
  destruct (b =? 0) eqn:Hb0; bool_prop; [subst b; wp_step; by apply HQ0|].
  destruct (Hf Hb0) as (Hb & Hbb & Hal). cbn in Hbb, Hal. unfold set_buf, upd_ports. wp_step.
  assert (~ (owned a b \/ b ∈ a_lost a)) as Hno.
  { intros Ho. apply (sh_bufs _ _ (sm_shapes _ _ Hs)) in Ho. rewrite Hbb in Ho. by destruct Ho. }
  apply HQ; try done; [by intros ?; apply Hno; left|by intros ?; apply Hno; right| |].
  - destruct Hs' as [[] ? ? ? Hal']. split; cbn; try done.
    + split; cbn; try done.
      * intros p. specialize (sh_objs0 p). cbn in sh_objs0. destruct (a_objs a !! p) as [x|] eqn:Hx, (p_objs (w_ports w) !! p) as [o|]; try done.
        eapply shape_frame; [done|]. intros q Hq. rewrite lookup_insert_ne; [done|]. intros E. destruct Hno. left. split; [done|].
        exists p, x. split; [done|]. by rewrite (queue_in_buf x q).
      * intros b'. rewrite lookup_insert. cbn in sh_bufs0. case_decide as E; [subst b'|].
        -- split; [|by eauto]. intros _. right. set_solver.
        -- rewrite sh_bufs0. change (owned (with_alost _ a) b') with (owned a b'). set_solver.
      * intros b'. rewrite lookup_insert. case_decide as E; [intros _; subst b'|apply sh_apart0].
        cbn in sh_objs0. specialize (sh_objs0 b). rewrite Hb in sh_objs0. by destruct (p_objs (w_ports w) !! b).
    + intros p. rewrite lookup_insert. case_decide; [subst; done|]. apply Hal'.
  - exists (new_buf n). cbn. rewrite lookup_insert_eq. split; [done|]. rewrite <- Hn. by apply new_ring.
Qed.

(** A buffer that [a] counts as lost gets an owner. *)
Lemma sim_found a w b : sim a w -> owned a b -> sim (with_alost (a_lost a ∖ {[b]}) a) w.
Proof.
  intros [[] ? ? ? ?] Ho. split; try done. split; try done. intros b'. rewrite sh_bufs0.
  change (owned (with_alost _ a) b') with (owned a b'). cbn. destruct (decide (b' = b)) as [->|]; set_solver.
Qed.

Lemma sim_lost a w b : sim a w -> is_Some (p_bufs (w_ports w) !! b) -> sim (with_alost ({[b]} ∪ a_lost a) a) w.
Proof.
  intros [[] ? ? ? ?] Hb. split; try done. split; try done. intros b'.
  change (owned (with_alost _ a) b') with (owned a b'). cbn. destruct (decide (b' = b)) as [->|].
  - split; [set_solver|done].
  - rewrite sh_bufs0. set_solver.
Qed.

Lemma wp_free w p (Q : unit -> world -> Prop) : alloc_ok (w_heap w) -> allocated (w_heap w) p ->
  (forall h', alloc_ok h' -> (forall q, q ≠ p -> allocated (w_heap w) q -> allocated h' q) -> Q tt (MkWorld (w_ports w) (w_wait w) h')) ->
  wp (on_heap (free p)) w Q.
Proof.
  intros Hok Hp HQ. apply wp_port_heap. eapply wp_mono; [by apply free_ok|]. intros [] h' [? ?]. by apply HQ.
Qed.

Lemma wp_free_buf a w b (Q : unit -> world -> Prop) : sim a w -> b ≠ 0 -> b ∈ a_lost a -> ~ owned a b ->
  (forall w', sim (with_alost (a_lost a ∖ {[b]}) a) w' -> w_wait w' = w_wait w -> p_objs (w_ports w') = p_objs (w_ports w) -> Q tt w') -> wp (free_buf b) w Q.
Proof.
  intros Hs Hb0 Hl Ho HQ. unfold free_buf. rewrite (proj2 (Z.eqb_neq b 0)) by done. unfold buf_at, upd_ports. wp_step.
  assert (is_Some (p_bufs (w_ports w) !! b)) as Hb by (apply (sh_bufs _ _ (sm_shapes _ _ Hs)); by right).
  pose proof Hb as [x Hx]. exists x. split; [done|]. wp_step. destruct Hs as [[] ? ? ? Hal].
  apply wp_free; cbn; [done|by apply Hal; right|]. intros h' Hh' Hkeep. apply HQ; [|done..]. split; cbn; try done.
  - split; cbn; try done.
    + intros p. specialize (sh_objs0 p). destruct (a_objs a !! p) as [x'|] eqn:Hx', (p_objs (w_ports w) !! p) as [o'|]; try done.
      eapply shape_frame; [done|]. intros q Hq. rewrite lookup_delete_ne; [done|]. intros E. apply Ho. split; [done|].
      exists p, x'. split; [done|]. by rewrite (queue_in_buf x' q).
    + intros b'. change (owned (with_alost _ a) b') with (owned a b'). rewrite lookup_delete. case_decide as E.
      * subst b'. split; [by intros []|set_solver].
      * rewrite sh_bufs0. set_solver.
    + intros b' Hb'. rewrite lookup_delete in Hb'. case_decide; [by destruct Hb'|]. by apply sh_apart0.
  - intros p Hp. apply Hkeep.
    + intros ->. destruct Hp as [[o Hp]|Hp]; [by rewrite sh_apart0 in Hp|]. rewrite lookup_delete_eq in Hp. by destruct Hp.
    + apply Hal. destruct Hp as [Hp|Hp]; [by left|]. right. rewrite lookup_delete in Hp. by case_decide; [destruct Hp|].
Qed.

Lemma wp_free_object a w p x (Q : unit -> world -> Prop) : sim a w -> a_objs a !! p = Some x -> covered a p (buf_of x) ->
  (forall w', sim (del_obj p a) w' -> w_wait w' = w_wait w -> Q tt w') -> wp (free_object p) w Q.
Proof.
  intros Hs Hp Hc HQ. unfold free_object. wp_step. eapply wp_object_at; [done..|]. intros o _. unfold upd_ports. wp_step.
  destruct (sim_obj a w p x Hs Hp) as (o' & Ho' & _). destruct Hs as [[] ? ? ? Hal].
  apply wp_free; cbn; [done|apply Hal; left; by eexists|]. intros h' Hh' Hkeep. apply HQ; [|done]. split; cbn; try done.
  - split; cbn; try done.
    + intros q. rewrite !lookup_delete. case_decide; [done|]. apply sh_objs0.
    + intros b. rewrite sh_bufs0. unfold owned. cbn. split; (intros [(Hb0 & q & y & Hq & Hy)|?]; [|by right]).
      * destruct (decide (q = p)) as [->|Hne]; [|left; split; [done|]; exists q, y; by rewrite lookup_delete_ne].
        rewrite Hp in Hq. injection Hq as ->. destruct Hc as [?|[?|(p' & o1 & Hne & Hp' & Ho1)]]; [congruence|right; congruence|].
        left. split; [done|]. exists p', o1. rewrite lookup_delete_ne by done. split; [done|congruence].
      * rewrite lookup_delete in Hq. case_decide; [done|]. left. split; [done|]. by exists q, y.
    + intros b Hb. rewrite lookup_delete. case_decide; [done|]. by apply sh_apart0.
  - intros q Hq. apply Hkeep.
    + intros ->. destruct Hq as [Hq|Hq]; [rewrite lookup_delete_eq in Hq; by destruct Hq|]. apply sh_apart0 in Hq. by rewrite Hq in Ho'.
    + apply Hal. destruct Hq as [Hq|Hq]; [|by right]. left. rewrite lookup_delete in Hq. by case_decide; [destruct Hq|].
Qed.

Lemma wp_free_waited a w p x (Q : unit -> world -> Prop) : sim a w -> a_objs a !! p = Some x -> covered a p (buf_of x) ->
  a_waiting a p = None \/ a_waiting a p = Some [] ->
  (forall w', sim (del_obj p (put_waiting p None a)) w' -> Q tt w') -> wp (free_waited p) w Q.
Proof.
  intros Hs Hp Hc Hw HQ. unfold free_waited. wp_step. apply wp_on_wait.
  eapply wp_mono; [apply (wait_release_ok _ p); [apply Hs|by rewrite (sm_waiting _ _ Hs)]|]. cbn. intros [] k' [Hk Hq].
  eapply (wp_free_object (put_waiting p None a)); [by apply sim_queue|done|done|]. intros w' Hs' _. by apply HQ.
Qed.

(** ** Lists *)

Lemma wp_set_list a w l (Q : unit -> world -> Prop) : sim a w ->
  (forall w', sim (with_alist l a) w' -> w_wait w' = w_wait w -> Q tt w') -> wp (upd_ports (with_list l)) w Q.
Proof.
  intros Hs HQ. unfold upd_ports. wp_step. apply HQ; [|done]. eapply sim_ports; [done| |done|by auto].
  destruct Hs as [[] _ _ _ _]. by split.
Qed.

Lemma wp_add_list a w p (Q : unit -> world -> Prop) : sim a w ->
  (forall w', sim (with_alist (a_list a ++ [p]) a) w' -> w_wait w' = w_wait w -> Q tt w') ->
  wp (upd_ports (fun s => with_list (write_port_list s ++ [p]) s)) w Q.
Proof.
  intros Hs HQ. eapply (wp_set_list a w (a_list a ++ [p])) in HQ; [|done]. unfold upd_ports in *. rewrite wp_modify in *.
  by rewrite (sh_list _ _ (sm_shapes _ _ Hs)).
Qed.

Lemma remove_out p l : p ∉ l -> remove_from p l = l.
Proof.
  unfold remove_from. induction l as [|x l IH]; intros Hp; [done|]. rewrite filter_cons. apply not_elem_of_cons in Hp as [? ?].
  rewrite decide_True by done. by rewrite IH.
Qed.

(** A node is in one list at most, so taking it out of all of them changes one. *)
Lemma wp_delete_w_node a w p wr n m op pd rds (Q : unit -> world -> Prop) : sim a w -> a_objs a !! wr = Some (AWrite n m op pd rds) -> p ∈ rds ->
  (forall x, a_objs a !! x ≠ Some ADead) -> (forall wr' n' m' op' pd' rds', a_objs a !! wr' = Some (AWrite n' m' op' pd' rds') -> p ∈ rds' -> wr' = wr) ->
  (forall w', sim (put_obj wr (AWrite n m op pd (remove_from p rds)) a) w' -> w_wait w' = w_wait w -> Q tt w') -> wp (delete_w_node p) w Q.
Proof.
  intros Hs Hp Hin Hdead Hone HQ. destruct (sim_obj a w wr _ Hs Hp) as (o & Ho & -> & Hq). unfold delete_w_node, upd_ports. wp_step.
  assert (bool_decide (map_Exists (fun _ o => w_node_in p o = true) (p_objs (w_ports w))) = true) as ->.
  { apply bool_decide_eq_true. eexists wr, _. split; [done|]. cbn. by apply bool_decide_eq_true. }
  split; [done|]. apply HQ; [|done]. set (o' := OWrite (MkWrite (if op then WRITEPORT_MAGIC_W else WRITEPORT_MAGIC_X) (pending_queue pd) (remove_from p rds) m n)).
  assert (w_node_out p <$> p_objs (w_ports w) = <[wr := o']> (p_objs (w_ports w))) as ->.
  { apply map_eq. intros x. rewrite lookup_fmap, lookup_insert. case_decide as E; [subst x; by rewrite Ho|].
    pose proof (sh_objs _ _ (sm_shapes _ _ Hs) x) as Hx. destruct (p_objs (w_ports w) !! x) as [y|] eqn:Hy; [|done].
    destruct (a_objs a !! x) as [z|] eqn:Hz; [|done]. cbn. f_equal.
    destruct z as [n' m' op' pd' rds'|q' c' wr' g'|l'|b'|]; cbn in Hx; [destruct Hx as [-> _]|by destruct Hx as [-> _]|by subst|by destruct Hx as [r ->]|by destruct (Hdead x)].
    unfold w_node_out, set_w_rp_list. cbn [w_magic w_buf w_rp_list w_mode w_name]. rewrite remove_out; [done|]. intros Hi. apply E. symmetry. by eapply Hone. }
  eapply sim_put; [done..|by split|by right|by apply (sim_owned a w wr _ Hs Hp)].
Qed.

Lemma wp_delete_g_node a w p g l (Q : unit -> world -> Prop) : sim a w -> a_objs a !! g = Some (AGroup l) -> p ∈ l ->
  (forall x, a_objs a !! x ≠ Some ADead) -> (forall g' l', a_objs a !! g' = Some (AGroup l') -> p ∈ l' -> g' = g) ->
  (forall w', sim (put_obj g (AGroup (remove_from p l)) a) w' -> w_wait w' = w_wait w -> Q tt w') -> wp (delete_g_node p) w Q.
Proof.
  intros Hs Hp Hin Hdead Hone HQ. destruct (sim_obj a w g _ Hs Hp) as (o & Ho & ->). unfold delete_g_node, upd_ports. wp_step.
  assert (bool_decide (map_Exists (fun _ o => g_node_in p o = true) (p_objs (w_ports w))) = true) as ->.
  { apply bool_decide_eq_true. eexists g, _. split; [done|]. cbn. by apply bool_decide_eq_true. }
  split; [done|]. apply HQ; [|done].
  assert (g_node_out p <$> p_objs (w_ports w) = <[g := OGroup (MkGroup PORTGROUP_MAGIC (remove_from p l))]> (p_objs (w_ports w))) as ->.
  { apply map_eq. intros x. rewrite lookup_fmap, lookup_insert. case_decide as E; [subst x; by rewrite Ho|].
    pose proof (sh_objs _ _ (sm_shapes _ _ Hs) x) as Hx. destruct (p_objs (w_ports w) !! x) as [y|] eqn:Hy; [|done].
    destruct (a_objs a !! x) as [z|] eqn:Hz; [|done]. cbn. f_equal.
    destruct z as [n' m' op' pd' rds'|q' c' wr' g'|l'|b'|]; cbn in Hx; [by destruct Hx as [-> _]|by destruct Hx as [-> _]|subst|by destruct Hx as [r ->]|by destruct (Hdead x)].
    unfold g_node_out, set_g_rp_list. cbn [g_magic g_rp_list]. rewrite remove_out; [done|]. intros Hi. apply E. symmetry. by eapply Hone. }
  eapply sim_put; [done..|by right|done].
Qed.
(** The same object, seen otherwise. *)
Lemma sim_relabel a w p x x' : sim a w -> a_objs a !! p = Some x ->
  (forall o, shape (p_bufs (w_ports w)) x o -> shape (p_bufs (w_ports w)) x' o) ->
  covered a p (buf_of x) \/ buf_of x = buf_of x' -> (buf_of x' ≠ 0 -> is_Some (p_bufs (w_ports w) !! buf_of x')) -> sim (put_obj p x' a) w.
Proof.
  intros Hs Hp Hsh Hc Hb. destruct (sim_obj a w p x Hs Hp) as (o & Ho & Hx). apply (sim_put a w p x x' o) in Hs; auto.
  unfold with_objs in Hs. rewrite insert_id in Hs by done. by destruct w as [[] ? ?].
Qed.
End sim.

End PortSim.
