(* ===== verification/PortMake.v ===== *)
(** Creation of ports and of groups does what [PortSpec.spec] says. *)
From S2P Require Import Prelude WaitLib Port PortSpec PortSim.
Local Open Scope Z_scope.

Module PortMake.
Import WaitLib Port PortSpec PortSim.

(** What allocations return is null or new. *)
Definition new_obj (a : aports) (p : Z) : Prop := p ≠ 0 -> a_objs a !! p = None.
Definition new_buffer (a : aports) (b : Z) : Prop := b ≠ 0 -> ~ owned a b /\ b ∉ a_lost a.

Lemma new_obj_0 a : new_obj a 0.
Proof. by intros []. Qed.
Lemma new_buffer_0 a : new_buffer a 0.
Proof. by intros []. Qed.
#[local] Hint Resolve new_obj_0 new_buffer_0 : core.

Lemma afind_same a a' l name : (forall p, p ∈ l -> a_objs a !! p = a_objs a' !! p) -> afind a l name = afind a' l name.
Proof.
  induction l as [|p l IH]; intros He; cbn; [done|]. rewrite IH by (intros; apply He; by right). by rewrite He by left.
Qed.

Lemma afind_in a l name p op : afind a l name = Some (p, op) -> p ∈ l /\ exists m pd rds, a_objs a !! p = Some (AWrite name m op pd rds).
Proof.
  induction l as [|x l IH]; cbn; [done|]. intros Hf.
  assert (afind a l name = Some (p, op) -> p ∈ x :: l /\ exists m pd rds, a_objs a !! p = Some (AWrite name m op pd rds)) as Hrest.
  { intros Hr. destruct (IH Hr) as [? ?]. split; [by right|done]. }
  destruct (a_objs a !! x) as [[n m o pd rds| | | |]|] eqn:Hx; auto. case_bool_decide; auto. injection Hf as -> ->. subst.
  split; [by left|]. eauto.
Qed.

Lemma put_obj_twice p x y a : put_obj p y (put_obj p x a) = put_obj p y a.
Proof. unfold put_obj. cbn. by rewrite insert_insert_eq. Qed.

Lemma not_owned_new a p x b : a_objs a !! p = None -> ~ owned (put_obj p x a) b -> ~ owned a b.
Proof.
  intros Hp Hno [Hb (p' & o & Hp' & Ho)]. apply Hno. split; [done|]. exists p', o. split; [|done].
  unfold put_obj. cbn. rewrite lookup_insert_ne; [done|]. congruence.
Qed.

Lemma lost_found (b : Z) (l : gset Z) : b ∉ l -> ({[b]} ∪ l) ∖ {[b]} = l.
Proof. intros Hb. apply set_eq. intros x. set_solver. Qed.

Lemma put_obj_comm p q x y a : p ≠ q -> put_obj p x (put_obj q y a) = put_obj q y (put_obj p x a).
Proof. intros Hpq. unfold put_obj, with_aobjs. cbn. by rewrite insert_insert_ne. Qed.

Lemma with_alost_twice x y a : with_alost x (with_alost y a) = with_alost x a.
Proof. done. Qed.

Lemma with_alost_id a : with_alost (a_lost a) a = a.
Proof. by destruct a. Qed.

Lemma with_alocked_id a : with_alocked (a_locked a) a = a.
Proof. by destruct a. Qed.

(** * Groups of changes *)

Lemma forallb_ext_elem {A} (f g : A -> bool) l : (forall x, x ∈ l -> f x = g x) -> forallb f l = forallb g l.
Proof. induction l as [|x l IH]; intros Hl; cbn; [done|]. rewrite IH by (intros; apply Hl; by right). by rewrite Hl by left. Qed.

Definition regroup (g : Z) (x : aport) : aport := match x with ARead q ctx w _ => ARead q ctx w g | _ => x end.

Lemma set_group_objs g p a : set_group g p a = with_aobjs (alter (regroup g) p (a_objs a)) a.
Proof.
  unfold set_group. destruct (a_objs a !! p) as [x|] eqn:Hx; [destruct x|]; unfold put_obj; try (rewrite alter_id; [by destruct a|intros ? ?; simplify_eq; done]).
  f_equal. apply map_eq. intros y. rewrite lookup_insert, lookup_alter. case_decide; [subst; by rewrite Hx|done].
Qed.

Lemma fold_set_group g l : forall a, fold_left (fun a p => set_group g p a) l a =
  with_aobjs (map_imap (fun p x => Some (if decide (p ∈ l) then regroup g x else x)) (a_objs a)) a.
Proof.
  induction l as [|p l IH]; intros a; cbn [fold_left].
  - destruct a as [objs ? ? ? ?]. unfold with_aobjs. cbn. f_equal. apply map_eq. intros x. rewrite map_lookup_imap.
    destruct (objs !! x); cbn; [|done]. rewrite decide_False by apply not_elem_of_nil. done.
  - rewrite IH, set_group_objs. unfold with_aobjs. cbn. f_equal. apply map_eq. intros x. rewrite !map_lookup_imap, lookup_alter.
    destruct (decide (p = x)) as [->|E]; destruct (a_objs a !! _) as [y|]; cbn; try done; f_equal; repeat case_decide; try done; try set_solver; by destruct y.
Qed.

Definition amagic (x : aport) : Z :=
  match x with
  | AWrite _ _ op _ _ => if op then WRITEPORT_MAGIC_W else WRITEPORT_MAGIC_X
  | ARead _ _ _ _ => READPORT_MAGIC
  | AGroup _ => PORTGROUP_MAGIC
  | AClosing _ | ADead => 0
  end.
Definition closing_port (x : aport) : bool := match x with AClosing _ | ADead => true | _ => false end.

Lemma shape_magic bufs x o : shape bufs x o -> closing_port x = false -> magic_of o = amagic x.
Proof. destruct x; cbn; try done; [by intros [-> _]|by intros [-> _]|by intros ->]. Qed.

Lemma attach_eq g p a l q ctx w g0 : a_objs a !! g = Some (AGroup l) -> a_objs a !! p = Some (ARead q ctx w g0) ->
  attach g p a = put_obj g (AGroup (l ++ [p])) (put_obj p (ARead q ctx w g) a).
Proof. intros Hg Hp. unfold attach, set_group. by rewrite Hg, Hp. Qed.

Lemma attach_locked g b l : forall a, fold_left (fun a p => attach g p a) l (with_alocked b a) =
  with_alocked b (fold_left (fun a p => attach g p a) l a).
Proof.
  induction l as [|p l IH]; intros a; cbn [fold_left]; [done|]. rewrite <- IH. f_equal. unfold attach, set_group. cbn.
  destruct (a_objs a !! g) as [[| | | |]|]; try done. by destruct (a_objs a !! p) as [[| | | |]|].
Qed.

Lemma attach_keeps_lock g l : forall a, a_locked (fold_left (fun a p => attach g p a) l a) = a_locked a.
Proof.
  induction l as [|p l IH]; intros a; cbn [fold_left]; [done|]. rewrite IH. unfold attach, set_group.
  destruct (a_objs a !! g) as [[| | | |]|]; try done. by destruct (a_objs a !! p) as [[| | | |]|].
Qed.

(** [a] with the ports of [taken] in the new group [g]. *)
Record joined (a0 : aports) (g : Z) (taken : list Z) (a : aports) : Prop := {
  jn_group : a_objs a !! g = Some (AGroup taken);
  jn_taken p : p ∈ taken -> exists q ctx w, a_objs a0 !! p = Some (ARead q ctx w 0) /\ a_objs a !! p = Some (ARead q ctx w g);
  jn_other p : p ∉ taken -> p ≠ g -> a_objs a !! p = a_objs a0 !! p;
  jn_rest : a_list a = a_list a0 /\ a_locked a = a_locked a0 /\ a_lost a = a_lost a0 /\ a_waiting a = a_waiting a0
}.

Lemma joined_attach a0 g taken a p q ctx w : a_objs a0 !! g = Some (AGroup []) -> joined a0 g taken a -> p ∉ taken ->
  a_objs a0 !! p = Some (ARead q ctx w 0) -> a_objs a !! p = Some (ARead q ctx w 0) /\ joined a0 g (taken ++ [p]) (attach g p a).
Proof.
  intros Hg0 [] Hp Hp0. assert (p ≠ g) as Hne by congruence. assert (a_objs a !! p = Some (ARead q ctx w 0)) as Hpa by (rewrite jn_other0; done).
  split; [done|]. rewrite (attach_eq g p a taken q ctx w 0) by done. split; cbn.
  - apply lookup_insert_eq.
  - intros p' [Hin|Hin]%elem_of_app.
    + destruct (jn_taken0 p' Hin) as (q' & c' & w' & H0 & H1). exists q', c', w'. split; [done|].
      rewrite !lookup_insert_ne; [done|set_solver|congruence].
    + apply list_elem_of_singleton in Hin as ->. exists q, ctx, w. split; [done|]. rewrite lookup_insert_ne by done. apply lookup_insert_eq.
  - intros p' Hin Hg. rewrite !lookup_insert_ne; [apply jn_other0; set_solver|set_solver|done].
  - done.
Qed.

(** Taking the ports out again. *)
Lemma joined_undo a0 g taken a : a_objs a0 !! g = Some (AGroup []) -> joined a0 g taken a ->
  fold_left (fun a p => set_group 0 p a) taken a = put_obj g (AGroup taken) a0.
Proof.
  intros Hg0 []. rewrite fold_set_group. destruct a as [objs l lk lost wt], a0 as [objs0 l0 lk0 lost0 wt0]. cbn in *.
  destruct jn_rest0 as (-> & -> & -> & ->). unfold with_aobjs, put_obj, with_aobjs. cbn. f_equal. apply map_eq. intros p.
  rewrite map_lookup_imap, lookup_insert. destruct (decide (g = p)) as [<-|E].
  - rewrite jn_group0. cbn. by case_decide.
  - destruct (decide (p ∈ taken)) as [Hin|Hin].
    + destruct (jn_taken0 p Hin) as (q & c & w & H0 & H1). rewrite H0, H1. cbn. done.
    + rewrite jn_other0 by congruence. by destruct (objs0 !! p).
Qed.

Section props.
Context {K H : Type} `{!WaitOps K} `{!AllocOps H} `{!WaitLaws K} `{!AllocLaws H}.
Abbreviation world := (Port.world (K := K) (H := H)).
Implicit Types (a : aports) (w : world).

(** Lock and unlock. *)
Lemma sim_unlock a w : sim (with_alocked (a_locked a) (with_alocked true a)) w -> sim a w.
Proof. change (with_alocked (a_locked a) (with_alocked true a)) with (with_alocked (a_locked a) a). by rewrite with_alocked_id. Qed.

(** * Names *)

Lemma wp_find_name a w l name (Q : option (Z * write_port_t) -> world -> Prop) : sim a w ->
  (forall p, p ∈ l -> exists n m op pd rds, a_objs a !! p = Some (AWrite n m op pd rds)) ->
  match afind a l name with
  | Some (p, op) => forall m pd rds, p ∈ l -> a_objs a !! p = Some (AWrite name m op pd rds) ->
      Q (Some (p, MkWrite (if op then WRITEPORT_MAGIC_W else WRITEPORT_MAGIC_X) (pending_queue pd) rds m name)) w
  | None => (forall p n m op pd rds, p ∈ l -> a_objs a !! p = Some (AWrite n m op pd rds) -> n ≠ name) -> Q None w
  end -> wp (find_name l name) w Q.
Proof.
  intros Hs. induction l as [|p l IH]; intros Hl HQ; cbn [find_name afind] in *; wp_step.
  { apply HQ. intros ? ? ? ? ? ? Hin. by apply elem_of_nil in Hin. }
  destruct (Hl p) as (n & m & op & pd & rds & Hp); [by left|]. eapply wp_write_at; [done..|]. cbn [w_name]. rewrite Hp in HQ.
  case_bool_decide as E; [subst n; wp_step; apply HQ; [by left|done]|].
  apply IH; [intros; apply Hl; by right|]. destruct (afind a l name) as [[p' op']|].
  - intros m' pd' rds' Hin. apply HQ. by right.
  - intros Hno. apply HQ. intros p' n' m' op' pd' rds' Hin Hp'. apply elem_of_cons in Hin as [->|Hin]; [congruence|by eapply Hno].
Qed.

Definition does3 a (r : Z * option Z) w' (f : Z -> Z -> Z * option Z * aports) : Prop :=
  exists p1 p2 a', new_obj a p1 /\ new_buffer a p2 /\ f p1 p2 = (fst r, snd r, a') /\ sim a' w'.

Lemma does3_same a r w' (f : Z -> Z -> Z * option Z * aports) : f 0 0 = (fst r, snd r, a) -> sim a w' -> does3 a r w' f.
Proof. intros Hf Hs. by exists 0, 0, a. Qed.

(** * Creation *)

Lemma create_does a w name mode port : abs a w ->
  wp (port_create name mode port) w (fun r w' => does3 a r w' (fun p1 p2 => spec_create name mode port p1 p2 a)).
Proof.
  intros [Hwf Hs]. assert (forall r, (forall p1 p2, spec_create name mode port p1 p2 a = (fst r, snd r, a)) ->
    does3 a r w (fun p1 p2 => spec_create name mode port p1 p2 a)) as Hsame.
  { intros r Hr. exists 0, 0, a. by rewrite Hr. }
  unfold port_create, port_create_lookup. wp_step. destruct name as [name|]; [|wp_step; by apply Hsame].
  destruct port; cbn [negb]; [|wp_step; by apply Hsame].
  replace (Z.land mode PORT_MODE_BROADCAST) with 0 by (unfold PORT_MODE_BROADCAST; by rewrite Z.land_0_r).
  change (negb (0 =? 0)) with false. cbn [andb].
  destruct (PORT_NAME_LEN <=? Z.of_nat (length name)) eqn:Hlen.
  { wp_step. apply Hsame. intros p1 p2. unfold spec_create. by rewrite Hlen. }
  wp_step. eapply wp_lock; [done|]. intros w1 Hs1 Hk1. wp_step. rewrite (sh_list _ _ (sm_shapes _ _ Hs1)). cbn [a_list with_alocked].
  eapply wp_find_name; [done|by apply (wf_list _ Hwf)|]. rewrite (afind_same (with_alocked true a) a) by done.
  unfold spec_create in *. rewrite Hlen in *. cbn [negb orb] in *.
  destruct (afind a (a_list a) name) as [[p op]|] eqn:Hfind.
  - intros m pd rds _ Hp. assert (p ≠ 0) as Hp0.
    { intros ->. cbn in Hp. by rewrite (wf_null _ Hwf) in Hp. }
    wp_step. cbn [w_magic]. unfold thread_unlock. eapply wp_set_locked; [done|]. intros w2 Hs2 _. apply sim_unlock in Hs2.
    destruct op; cbn; [rewrite (proj2 (Z.eqb_neq p 0) Hp0)|]; cbn; by apply does3_same.
  - intros _. unfold thread_unlock. wp_step. eapply wp_set_locked; [done|]. intros w2 Hs2 Hk2. apply sim_unlock in Hs2. wp_step.
    unfold port_create_alloc. wp_step. eapply wp_calloc; [done|done|]. intros p1 w3 Hs3 Hf3 Hp3 Hk3. 
    destruct (p1 =? 0) eqn:Hp1; bool_prop; [subst p1; wp_step; by apply does3_same|].
    wp_step. eapply (wp_new_object a w3 p1 (AWrite name mode true None [])); [done..|by split|].
    intros w4 Hs4 _ _ _ _. wp_step. destruct (Hf3 Hp1) as (Hnew & _ & _).
    eapply wp_make_buf; [done|intros w5 Hs5 _ _|intros b w5 Hb0 Hb Hown Hlost Hs5 _ _ Hq].
    + wp_step. eapply (wp_upd_write _ _ p1 name mode true None [] true None []); [done|apply lookup_insert_eq|done|done|by left|].
      intros w6 Hs6 _ _. wp_step. cbn. wp_step. rewrite put_obj_twice in Hs6.
      eapply wp_free_object; [done|apply lookup_insert_eq|by left|]. intros w7 Hs7 _. wp_step. exists p1, 0, a.
      split_and!; [by intros _|by intros []| |].
      * cbn. by rewrite orb_true_r.
      * unfold put_obj, del_obj in Hs7. cbn in Hs7. rewrite delete_insert_id in Hs7 by done. by destruct a.
    + wp_step. set (q := MkQueue b (cap_of mode) []).
      assert (cap_for (negb (Z.land mode PORT_MODE_BIG_BUFFER =? 0)) = cap_of mode) as Hcap by (unfold cap_of; by destruct (_ =? 0)).
      rewrite Hcap in Hq. eapply (wp_upd_write _ _ p1 name mode true None [] true (Some q) []); [done|apply lookup_insert_eq|done|by intros ? [= <-]|by left|].
      intros w6 Hs6 _ _. wp_step. rewrite (proj2 (Z.eqb_neq b 0) Hb0). wp_step. unfold port_create_link. wp_step.
      eapply (sim_found _ _ b) in Hs6.
      2:{ split; [done|]. exists p1. eexists. split; [apply lookup_insert_eq|done]. }
      eapply wp_lock; [done|]. intros w7 Hs7 _. wp_step. 
      eapply wp_add_list; [done|]. intros w8 Hs8 _. wp_step. unfold thread_unlock. eapply wp_set_locked; [done|]. intros w9 Hs9 _. wp_step.
      exists p1, b, (with_alist (a_list a ++ [p1]) (put_obj p1 (AWrite name mode true (Some q) []) a)).
      split_and!; [by intros _|intros _; split; [by eapply not_owned_new|done]| |].
      * rewrite (proj2 (Z.eqb_neq p1 0) Hp1), (proj2 (Z.eqb_neq b 0) Hb0). done.
      * assert (a_lost a = ({[b]} ∪ a_lost a) ∖ {[b]}) as Hl by (by rewrite lost_found).
        destruct a as [objs l lk lost wt]. unfold put_obj, with_aobjs, with_alist, with_alocked, with_alost in *. cbn in *.
        rewrite insert_insert_eq, <- Hl in Hs9. exact Hs9.
Qed.

(** The new read port joins its writer. *)
Lemma wp_open_link a w rp b wr name m op pd rds ctx (Q : Z * Z -> world -> Prop) : sim a w ->
  (forall p, p ∈ a_list a -> exists n m op pd rds, a_objs a !! p = Some (AWrite n m op pd rds)) ->
  a_objs a !! rp = Some (AClosing 0) -> p_objs (w_ports w) !! rp = Some (ORead (MkRead READPORT_MAGIC 0 ctx 0 0)) ->
  afind a (a_list a) name = Some (wr, op) -> a_objs a !! wr = Some (AWrite name m op pd rds) -> queues_ok (AWrite name m op pd rds) ->
  b ≠ 0 -> holds_queue (p_bufs (w_ports w)) (MkQueue b 8 []) ->
  let joined q := put_obj wr (AWrite name m op None (rds ++ [rp])) (put_obj rp (ARead q ctx wr 0) a) in
  match pd with
  | Some q => forall w', sim (joined q) w' -> w_wait w' = w_wait w -> Q (NO_ERROR, b) w'
  | None =>
      if negb (Z.land m PORT_MODE_UNICAST =? 0) then forall w', sim a w' -> w_wait w' = w_wait w -> Q (ERR_NOT_ALLOWED, b) w'
      else forall w', sim (joined (MkQueue b 8 [])) w' -> w_wait w' = w_wait w -> Q (NO_ERROR, 0) w'
  end -> wp (port_open_link rp b name) w Q.
Proof.
  intros Hs Hl Hrp Hraw Hfind Hwr Hqok Hb0 Hq joined HQ. assert (rp ≠ wr) as Hne by congruence.
  unfold port_open_link. wp_step. rewrite (sh_list _ _ (sm_shapes _ _ Hs)). eapply wp_find_name; [done..|]. rewrite Hfind.
  intros m' pd' rds' _ Hwr'. rewrite Hwr in Hwr'. injection Hwr' as <- <- <-.
  destruct (sim_obj a w wr _ Hs Hwr) as (o & Ho & -> & Hpd). set (mg := if op then WRITEPORT_MAGIC_W else WRITEPORT_MAGIC_X) in *.
  set (objs := p_objs (w_ports w)) in *. set (bufs := p_bufs (w_ports w)) in *.
  assert (forall q r' objs', holds_queue bufs q -> q_addr q ≠ 0 -> r' = MkRead READPORT_MAGIC (q_addr q) ctx wr 0 ->
    objs' = <[wr := OWrite (MkWrite mg 0 (rds ++ [rp]) m name)]> (<[rp := ORead r']> objs) ->
    (pending_queue pd = 0 \/ pending_queue pd = q_addr q) ->
    sim (joined q) (MkWorld (with_objs objs' (w_ports w)) (w_wait w) (w_heap w))) as Hfinal.
  { intros q r' objs' Hh Hq0 -> -> Hcase.
    eapply sim_put in Hs as Hs1; [|exact Hrp|exact (conj eq_refl Hh : shape bufs (ARead q ctx wr 0) _)|by left; left|].
    2:{ intros _. destruct Hh as (x & Hx & _). by eexists. }
    eapply sim_put in Hs1 as Hs2; [exact Hs2| | | |].
    - unfold put_obj. cbn. rewrite lookup_insert_ne by done. exact Hwr.
    - by split.
    - left. destruct Hcase as [Hc|Hc]; [by left|]. right. right. exists rp, (ARead q ctx wr 0). split; [done|]. split; [apply lookup_insert_eq|done].
    - by intros []. }
  unfold upd_read, read_at, set_object, upd_ports. wp_step. fold objs. rewrite Hraw. eexists. split; [done|]. wp_step.
  unfold write_at. wp_step. cbn [p_objs w_ports with_objs]. rewrite lookup_insert_ne by done. fold objs. rewrite Ho. eexists. split; [done|]. cbn [w_buf w_mode w_rp_list].
  destruct pd as [q|]; cbn [pending_queue] in *.
  - destruct Hqok as (Hq0 & _). rewrite (proj2 (Z.eqb_neq (q_addr q) 0) Hq0). cbn [negb]. unfold upd_write, upd_read, read_at, write_at, set_object, upd_ports. wp_step.
    cbn [p_objs w_ports with_objs]. rewrite lookup_insert_ne by done. fold objs. rewrite Ho. eexists. split; [done|]. wp_step.
    cbn [p_objs w_ports with_objs]. rewrite lookup_insert_ne by done. rewrite lookup_insert_eq. eexists. split; [done|]. wp_step.
    cbn [p_objs w_ports with_objs]. rewrite lookup_insert_ne by done. rewrite lookup_insert_eq. eexists. split; [done|]. wp_step.
    apply HQ; [|done]. eapply (Hfinal q); [by apply Hpd|done|reflexivity| |by right].
    apply map_eq. intros x. cbn. rewrite !lookup_insert. repeat case_decide; simplify_eq; done.
  - cbn [Z.eqb negb]. rewrite (proj2 (Z.eqb_neq b 0) Hb0). cbn [negb]. destruct (negb (Z.land m PORT_MODE_UNICAST =? 0)).
    + wp_step. apply HQ; [|done]. eapply (sim_put _ _ _ _ (AClosing 0)) in Hs as Hs1; [|exact Hrp|by eexists|by right|by intros []].
      unfold put_obj in Hs1. rewrite insert_id in Hs1 by done. replace (with_aobjs (a_objs a) a) with a in Hs1 by by destruct a. exact Hs1.
    + unfold upd_write, upd_read, read_at, write_at, set_object, upd_ports. wp_step.
      cbn [p_objs w_ports with_objs]. rewrite lookup_insert_ne by done. fold objs. rewrite Ho. eexists. split; [done|]. wp_step.
      cbn [p_objs w_ports with_objs]. rewrite lookup_insert_ne by done. rewrite lookup_insert_eq. eexists. split; [done|]. wp_step.
      apply HQ; [|done]. eapply (Hfinal (MkQueue b 8 [])); [done|done|reflexivity| |by left].
      apply map_eq. intros x. cbn. rewrite !lookup_insert. repeat case_decide; simplify_eq; done.
Qed.

(** The failures give back what was allocated. *)
Lemma sim_undone a rp b w : a_objs a !! rp = None -> a_waiting a rp = None -> b ∉ a_lost a ->
  sim (del_obj rp (put_waiting rp None (with_alost (a_lost (with_alost ({[b]} ∪ a_lost a) a) ∖ {[b]}) (put_waiting rp (Some []) (put_obj rp (AClosing 0) a))))) w -> sim a w.
Proof.
  intros Hrp Hw Hb Hs. eapply sim_weq; [exact Hs|..]; destruct a as [objs l lk lost wt]; cbn in *; try done.
  - by rewrite delete_insert_id.
  - by rewrite lost_found.
  - intros p. unfold set_queue. destruct (p =? rp) eqn:E; bool_prop; by subst.
Qed.

Lemma open_does a w name ctx port : abs a w ->
  wp (port_open name ctx port) w (fun r w' => does3 a r w' (fun p1 p2 => spec_open name ctx port p1 p2 a)).
Proof.
  intros [Hwf Hs]. unfold port_open. destruct name as [name|]; [|wp_step; by apply does3_same].
  destruct port; cbn [negb]; [|wp_step; by apply does3_same]. wp_step.
  eapply wp_calloc; [done|done|]. intros rp w1 Hs1 Hf1 _ _. destruct (rp =? 0) eqn:Hrp0; bool_prop; [wp_step; by apply does3_same|].
  destruct (Hf1 Hrp0) as (Hrp & _ & _). wp_step.
  eapply (wp_new_object a w1 rp (AClosing 0)); [done..|by eexists|]. intros w2 Hs2 _ _ Hraw _. wp_step.
  assert (a_waiting a rp = None) as Hwt.
  { destruct (a_waiting a rp) eqn:E; [|done]. destruct (proj1 (wf_waiting _ Hwf rp)) as (o & Ho & _); [by eexists|congruence]. }
  eapply wp_wait_init; [done..|]. intros k3 Hs3. wp_step. set (w3 := MkWorld _ _ _) in *.
  eapply wp_make_buf; [done|intros w4 Hs4 _ _|intros b w4 Hb0 Hb Hown Hlost Hs4 _ Hobjs4 Hq].
  { cbn. wp_step. eapply wp_free_waited; [done|apply lookup_insert_eq|by left|right; cbn; unfold set_queue; by rewrite Z.eqb_refl|].
    intros w5 Hs5. wp_step. exists rp, 0, a. split_and!; [by intros _|by intros []|unfold spec_open; cbn; by rewrite orb_true_r|].
    eapply sim_weq; [exact Hs5|..]; destruct a as [objs l lk lost wt]; cbn in *; try done; [by rewrite delete_insert_id|].
    intros p. unfold set_queue. destruct (p =? rp) eqn:E; bool_prop; by subst. }
  rewrite (proj2 (Z.eqb_neq b 0) Hb0). cbn in Hlost. wp_step. eapply wp_lock_at; [done|]. cbn zeta. intros Hs5. wp_step.
  set (a5 := with_alocked true _) in Hs5. set (w5 := MkWorld _ _ _) in *.
  assert (afind a5 (a_list a5) name = afind a (a_list a) name) as Hfind.
  { cbn. apply afind_same. intros p Hp. destruct (wf_list _ Hwf p Hp) as (? & ? & ? & ? & ? & He). unfold a5. cbn.
    rewrite lookup_insert_ne; [done|]. congruence. }
  assert (new_obj a rp /\ new_buffer a b) as [Hn1 Hn2].
  { split; [by intros _|]. intros _. split; [|done]. eapply (not_owned_new a rp (AClosing 0)); [done|exact Hown]. }
  (* what happens to the new objects when the port is not opened *)
  assert (forall w6 rc, sim a5 w6 -> rc ≠ NO_ERROR -> spec_open (Some name) ctx true rp b a = (rc, None, a) ->
    wp (_ ← thread_unlock (a_locked a); _ ← when (negb (b =? 0)) (free_buf b);
        if rc =? NO_ERROR then mret (rc, Some rp) else _ ← free_waited rp; mret (rc, None)) w6
      (fun r w' => does3 a r w' (fun p1 p2 => spec_open (Some name) ctx true p1 p2 a))) as Hfail.
  { intros w6 rc Hs6 Hrc Hspec. unfold thread_unlock. wp_step. eapply wp_set_locked; [done|]. intros w7 Hs7 _. wp_step.
    rewrite (proj2 (Z.eqb_neq b 0) Hb0). cbn [negb when]. eapply wp_free_buf; [done|done|cbn; set_solver|exact Hown|]. intros w8 Hs8 _ _.
    rewrite (proj2 (Z.eqb_neq rc NO_ERROR) Hrc). wp_step. eapply wp_free_waited; [done|apply lookup_insert_eq|by left|right; cbn; unfold set_queue; by rewrite Z.eqb_refl|].
    intros w9 Hs9. wp_step. exists rp, b, a. split_and!; [done|done|exact Hspec|]. eapply (sim_undone a rp b); [done..|].
    eapply sim_weq; [exact Hs9|..]; by destruct a. }
  unfold spec_open in Hfail |- *. cbn [negb] in *. rewrite (proj2 (Z.eqb_neq rp 0) Hrp0), (proj2 (Z.eqb_neq b 0) Hb0) in *. cbn [orb] in *.
  destruct (afind a (a_list a) name) as [[wr op]|] eqn:Hf.
  2:{ unfold port_open_link. wp_step. rewrite (sh_list _ _ (sm_shapes _ _ Hs5)). eapply wp_find_name; [done| |].
      - intros p Hp. destruct (wf_list _ Hwf p Hp) as (n & m & op & pd & rds & He). exists n, m, op, pd, rds. unfold a5. cbn.
        rewrite lookup_insert_ne; [done|congruence].
      - rewrite Hfind. intros _. rewrite wp_ret. cbn beta iota. rewrite (proj2 (Z.eqb_neq b 0) Hb0). by apply Hfail. }
  destruct (afind_in _ _ _ _ _ Hf) as (Hin & m & pd & rds & Hwr). assert (rp ≠ wr) as Hne by congruence.
  rewrite Hwr in Hfail |- *.
  eapply (wp_open_link a5 _ rp b wr name m op pd rds ctx); [done| |apply lookup_insert_eq| |exact Hfind| |by apply (wf_queues _ Hwf wr)|done|exact Hq|].
  - intros p Hp. destruct (wf_list _ Hwf p Hp) as (n' & m' & op' & pd' & rds' & He). exists n', m', op', pd', rds'. unfold a5. cbn.
    rewrite lookup_insert_ne; [done|congruence].
  - cbn. rewrite Hobjs4. unfold w3. cbn. rewrite Hraw. apply lookup_insert_eq.
  - unfold a5. cbn. by rewrite lookup_insert_ne.
  - assert (forall q w', sim (put_waiting rp (Some []) (put_obj wr (AWrite name m op None (rds ++ [rp])) (put_obj rp (ARead q ctx wr 0) a))) w' ->
      sim (put_waiting rp (Some []) (put_obj rp (ARead q ctx wr 0) (put_obj wr (AWrite name m op None (rds ++ [rp])) a))) w') as Hcomm
      by (intros ? ?; by rewrite put_obj_comm by done).
    destruct pd as [q|]; [|destruct (negb (Z.land m PORT_MODE_UNICAST =? 0)) eqn:Hu].
    + intros w6 Hs6 _. unfold thread_unlock. wp_step. eapply wp_set_locked; [done|]. intros w7 Hs7 _. wp_step.
      rewrite (proj2 (Z.eqb_neq b 0) Hb0). cbn [negb when]. eapply wp_free_buf; [done|done|cbn; set_solver| |].
      { intros [_ (p & o & Hp & Ho)]. apply Hown. split; [done|]. cbn in Hp. rewrite lookup_insert in Hp. case_decide; [by simplify_eq/=|].
        rewrite lookup_insert in Hp. case_decide; [|by exists p, o]. simplify_eq/=. exists wr, (AWrite name m op (Some q) rds).
        split; [by rewrite lookup_insert_ne|done]. }
      intros w8 Hs8 _ _. wp_step. eexists rp, b, _. split_and!; [done|done|by rewrite (proj2 (Z.eqb_neq rp 0) Hrp0), (proj2 (Z.eqb_neq b 0) Hb0)|]. apply Hcomm. eapply sim_weq; [exact Hs8|..]; destruct a; cbn in *; try done.
      * by rewrite insert_insert_eq.
      * by rewrite lost_found.
    + intros w6 Hs6 _. cbn beta iota. rewrite (proj2 (Z.eqb_neq b 0) Hb0). by apply Hfail.
    + intros w6 Hs6 _. unfold thread_unlock. wp_step. eapply wp_set_locked; [done|]. intros w7 Hs7 _. wp_step. cbn [negb when Z.eqb].
      wp_step. eexists rp, b, _. split_and!; [done|done|by rewrite (proj2 (Z.eqb_neq rp 0) Hrp0), (proj2 (Z.eqb_neq b 0) Hb0)|]. apply Hcomm. eapply (sim_found _ _ b) in Hs7.
      * eapply sim_weq; [exact Hs7|..]; destruct a; cbn in *; try done; [by rewrite insert_insert_eq|by rewrite lost_found].
      * split; [done|]. exists rp, (ARead (MkQueue b 8 []) ctx wr 0). split; [|done]. cbn. rewrite lookup_insert_ne by done. apply lookup_insert_eq.
Qed.

Lemma wp_magic_at a w p x (Q : Z -> world -> Prop) : sim a w -> a_objs a !! p = Some x -> closing_port x = false -> Q (amagic x) w -> wp (magic_at p) w Q.
Proof. intros Hs Hp Hx HQ. unfold magic_at. wp_step. eapply wp_object_at; [done..|]. intros o Ho. wp_step. by erewrite shape_magic. Qed.

Lemma wp_clear_gports l (Q : unit -> world -> Prop) : forall a w, sim a w -> (forall p, p ∈ l -> exists q c wr g, a_objs a !! p = Some (ARead q c wr g)) ->
  (forall w', sim (fold_left (fun a p => set_group 0 p a) l a) w' -> w_wait w' = w_wait w -> Q tt w') -> wp (clear_gports l) w Q.
Proof.
  induction l as [|p l IH]; intros a w Hs Hl HQ; cbn [clear_gports fold_left] in *; wp_step; [by apply HQ|].
  destruct (Hl p) as (q & c & wr & g & Hp); [by left|]. eapply wp_set_gport; [done..|]. intros w1 Hs1 Hk1. wp_step.
  assert (set_group 0 p a = put_obj p (ARead q c wr 0) a) as Hset by (unfold set_group; by rewrite Hp).
  eapply IH; [exact Hs1| |].
  - intros p' Hp'. unfold put_obj. cbn. rewrite lookup_insert. case_decide; [by eauto|]. apply Hl. by right.
  - intros w2 Hs2 Hk2. apply HQ; [by rewrite Hset|congruence].
Qed.

Lemma wp_group_ports a0 g ports (Q : Z -> world -> Prop) : g ≠ 0 -> a_objs a0 !! g = Some (AGroup []) -> forallb (alive a0) ports = true ->
  forall taken a w, sim a w -> joined a0 g taken a -> NoDup taken ->
  (if forallb (ungrouped a0) ports && bool_decide (NoDup (taken ++ ports))
   then forall w', sim (fold_left (fun a p => attach g p a) ports a) w' -> Q NO_ERROR w'
   else forall l w', sim (put_obj g (AGroup l) a0) w' -> Q ERR_BAD_HANDLE w') -> wp (group_ports g taken ports) w Q.
Proof.
  intros Hgn Hg0. induction ports as [|p ports IH]; intros Hal taken a w Hs Hj Hnd HQ; cbn [group_ports forallb fold_left] in *.
  { wp_step. rewrite (bool_decide_eq_true_2 _) in HQ by (rewrite List.app_nil_r; done). by apply HQ. }
  apply andb_true_iff in Hal as [Hp Hal]. unfold alive in Hp. destruct (a_objs a0 !! p) as [x0|] eqn:Hx0; [|done].
  assert (forall (Q' : Z -> world -> Prop), (forall l w', sim (put_obj g (AGroup l) a0) w' -> Q' ERR_BAD_HANDLE w') ->
    wp (_ ← clear_gports taken; mret ERR_BAD_HANDLE) w Q') as Hundo.
  { intros Q' HQ'. wp_step. eapply wp_clear_gports; [done| |].
    - intros p' Hp'. destruct (jn_taken _ _ _ _ Hj p' Hp') as (q & c & wr & _ & ?). eauto.
    - intros w' Hs' _. wp_step. eapply HQ'. by rewrite (joined_undo a0 g taken a) in Hs'. }
  assert (ungrouped a0 p && bool_decide (p ∉ taken) = true -> exists q c wr, a_objs a0 !! p = Some (ARead q c wr 0)) as Hfree.
  { unfold ungrouped. rewrite Hx0. intros Hu. bool_prop. destruct x0; try done. bool_prop. subst. eauto. }
  assert (exists x, a_objs a !! p = Some x /\ closing_port x = false /\
    (ungrouped a0 p && bool_decide (p ∉ taken) = false -> forall q c wr, x ≠ ARead q c wr 0)) as (x & Hx & Hcl & Hcase).
  { destruct (decide (p ∈ taken)) as [Hin|Hin].
    - destruct (jn_taken _ _ _ _ Hj p Hin) as (q & c & wr & H0 & H1). eexists. split; [done|]. split; [done|]. intros _ ? ? ? [= ? ? ? ?]. done.
    - rewrite (bool_decide_eq_true_2 (p ∉ taken)), andb_true_r by done. destruct (decide (p = g)) as [->|Hpg].
      + exists (AGroup taken). split; [apply Hj|done].
      + exists x0. rewrite (jn_other _ _ _ _ Hj) by done. split; [done|]. split; [by destruct x0|]. unfold ungrouped. rewrite Hx0.
        intros Hu q c wr ->. done. }
  assert (bool_decide (NoDup (taken ++ p :: ports)) = bool_decide (p ∉ taken) && bool_decide (NoDup ((taken ++ [p]) ++ ports))) as Hndp.
  { rewrite <- app_assoc. cbn [app]. rewrite <- bool_decide_and. apply bool_decide_ext. rewrite NoDup_app_cons. set_solver. }
  wp_step. eapply wp_object_at; [done..|]. intros o Ho. rewrite (shape_magic _ _ _ Ho Hcl).
  destruct (ungrouped a0 p && bool_decide (p ∉ taken)) eqn:Hu.
  - destruct (Hfree eq_refl) as (q & c & wr & Hp0). bool_prop.
    destruct (joined_attach a0 g taken a p q c wr) as [Hpa Hj']; [done..|]. rewrite Hpa in Hx. injection Hx as <-. cbn [amagic Z.eqb negb].
    change (READPORT_MAGIC =? READPORT_MAGIC) with true. cbn [negb]. wp_step. eapply wp_read_at; [done..|]. cbn [r_gport]. change (0 =? 0) with true. cbn [negb].
    wp_step. eapply wp_set_gport; [done..|]. intros w1 Hs1 _. wp_step. assert (p ≠ g) as Hne by (intros ->; rewrite (jn_group _ _ _ _ Hj) in Hpa; done).
    eapply wp_group_at; [done|unfold put_obj; cbn; rewrite lookup_insert_ne by done; apply Hj|]. cbn [g_rp_list]. wp_step.
    eapply wp_set_members; [done|unfold put_obj; cbn; rewrite lookup_insert_ne by done; apply Hj|]. intros w2 Hs2 _. wp_step.
    rewrite <- (attach_eq g p a taken q c wr 0) in Hs2 by (done || apply Hj).
    eapply IH; [done|exact Hs2|exact Hj'|apply NoDup_app; split_and!; [done|set_solver|apply NoDup_singleton]|].
    rewrite Hndp in HQ. rewrite bool_decide_eq_true_2 in HQ by done.
    assert (ungrouped a0 p = true) as Hup by (unfold ungrouped; by rewrite Hp0). rewrite Hup in HQ. cbn [andb] in HQ. exact HQ.
  - assert (forall l w', sim (put_obj g (AGroup l) a0) w' -> Q ERR_BAD_HANDLE w') as HQ'.
    { rewrite Hndp in HQ. apply andb_false_iff in Hu as [Hu|Hu]; rewrite Hu in HQ; cbn [andb] in HQ; [done|]. by rewrite andb_false_r in HQ. }
    destruct x as [n m op pd rds|q c wr g'|l|b|]; cbn [amagic]; [|change (negb (READPORT_MAGIC =? READPORT_MAGIC)) with false|by apply Hundo|done..].
    + destruct op; by apply Hundo.
    + wp_step. eapply wp_read_at; [done..|]. cbn [r_gport]. rewrite (proj2 (Z.eqb_neq g' 0)); [by apply Hundo|].
      intros ->. by eapply Hcase.
Qed.

Lemma group_does a w ports count group : abs a w -> allowed a (CGroup ports count group) = true ->
  wp (port_group ports count group) w (fun r w' => does3 a r w' (fun p1 p2 => spec_group ports count group p1 a)).
Proof.
  intros [Hwf Hs] Hok. cbn in Hok. bool_prop. rename H0 into Hcount, H1 into Hal. unfold port_group.
  destruct (MAX_PORT_GROUP_COUNT <? count) eqn:Hmax; [wp_step; apply does3_same; [unfold spec_group; by rewrite Hmax|done]|].
  destruct (negb (count =? 0) && bool_decide (ports = None)) eqn:Hargs; [wp_step; apply does3_same; [unfold spec_group; by rewrite Hmax, Hargs|done]|].
  destruct group; cbn [negb]; [|wp_step; apply does3_same; [unfold spec_group; by rewrite Hmax, Hargs|done]].
  wp_step. eapply wp_calloc; [done|done|]. intros g w1 Hs1 Hf1 _ _.
  destruct (Z.eqb_spec g 0) as [Hg0|Hg0]; [wp_step; apply does3_same; [unfold spec_group; by rewrite Hmax, Hargs|done]|].
  destruct (Hf1 Hg0) as (Hg & _ & _). wp_step. eapply (wp_new_object a w1 g (AGroup [])); [done..|]. intros w2 Hs2 _ _ _ _. wp_step.
  assert (a_waiting a g = None) as Hwt.
  { destruct (a_waiting a g) eqn:E; [|done]. destruct (proj1 (wf_waiting _ Hwf g)) as (o & Ho & _); [by eexists|congruence]. }
  eapply wp_wait_init; [done..|]. intros k3 Hs3. wp_step. eapply wp_lock; [done|]. intros w4 Hs4 _. wp_step.
  assert (count = Z.of_nat (length (default [] ports))) as ->.
  { destruct Hcount as [->|?]; [|done]. cbn in *. destruct (Z.eqb_spec count 0) as [->|?]; done. }
  split; [by apply Z.eqb_eq|]. set (a4 := with_alocked true _) in Hs4. set (l := default [] ports) in *.
  assert (forall x, ungrouped a4 x = ungrouped a x \/ x = g) as Hung.
  { intros x. destruct (decide (x = g)) as [->|Hne]; [by right|left]. unfold ungrouped, a4. cbn. by rewrite lookup_insert_ne. }
  assert (g ∉ l) as Hgl.
  { intros Hin. rewrite forallb_forall in Hal. apply list_elem_of_In in Hin. apply Hal in Hin. unfold alive in Hin. by rewrite Hg in Hin. }
  assert (forallb (ungrouped a4) l = forallb (ungrouped a) l) as Hungl.
  { apply forallb_ext_elem. intros x Hx. by destruct (Hung x) as [?| ->]. }
  assert (new_obj a g) as Hn by (by intros _).
  eapply (wp_group_ports a4 g l); [done|apply lookup_insert_eq| |done| |apply NoDup_nil_2|].
  - rewrite <- Hal. apply forallb_ext_elem. intros x Hx. unfold alive, a4. cbn. rewrite lookup_insert_ne; [done|set_solver].
  - split; try done; [apply lookup_insert_eq|]. intros p Hp. by apply not_elem_of_nil in Hp.
  - cbn [app]. rewrite Hungl. destruct (forallb (ungrouped a) l && bool_decide (NoDup l)) eqn:Hgo.
    + intros w5 Hs5. wp_step. eapply wp_set_locked; [done|]. intros w6 Hs6 _. wp_step. eexists g, 0, _. split_and!; [done|by intros []| |].
      * unfold spec_group. rewrite Hmax, Hargs, (proj2 (Z.eqb_neq g 0) Hg0). fold l. rewrite Hgo. done.
      * unfold a4 in Hs6. rewrite attach_locked, <- (attach_keeps_lock g l) in Hs6. by apply sim_unlock in Hs6.
    + intros l' w5 Hs5. wp_step. eapply wp_set_locked; [done|]. intros w6 Hs6 _. wp_step. change (ERR_BAD_HANDLE =? NO_ERROR) with false. cbn iota. wp_step.
      eapply wp_free_waited; [done|apply lookup_insert_eq|by left|right; cbn; unfold set_queue; by rewrite Z.eqb_refl|].
      intros w7 Hs7. wp_step. exists g, 0, a. split_and!; [done|by intros []| |].
      * unfold spec_group. rewrite Hmax, Hargs, (proj2 (Z.eqb_neq g 0) Hg0). fold l. by rewrite Hgo.
      * eapply sim_weq; [exact Hs7|..]; destruct a as [objs ls lk lost wt]; cbn in *; try done.
        -- by rewrite insert_insert_eq, delete_insert_id.
        -- intros p. unfold set_queue. destruct (p =? g) eqn:E; bool_prop; by subst.
Qed.
End props.
End PortMake.
