(* ===== verification/PortXfer.v ===== *)
(** Changes of groups, writing and reading do what [PortSpec.spec] says. *)
From S2P Require Import Prelude WaitLib Port PortSpec PortSim PortMake.
Local Open Scope Z_scope.

Module PortXfer.
Import WaitLib Port PortSpec PortSim PortMake.

Section props.
Context {K H : Type} `{!WaitOps K} `{!AllocOps H} `{!WaitLaws K} `{!AllocLaws H}.
Abbreviation world := (Port.world (K := K) (H := H)).
Implicit Types (a : aports) (w : world).

Definition does (r : Z) w' (x : Z * aports) : Prop := r = fst x /\ sim (snd x) w'.

Lemma alive_obj a p : handle_ok a p = true -> p = 0 \/ p ≠ 0 /\ exists x, a_objs a !! p = Some x /\ closing_port x = false.
Proof.
  unfold handle_ok, alive. destruct (Z.eqb_spec p 0) as [->|Hp]; [by left|]. cbn. destruct (a_objs a !! p) as [x|]; [|done].
  intros Hx. right. split; [done|]. exists x. split; [done|]. by destruct x.
Qed.

(** Queues of threads of live ports. *)
Lemma live_queue a p x : awf a -> a_objs a !! p = Some x -> has_waiters x -> exists l, a_waiting a p = Some l.
Proof. intros Hwf Hp Hx. destruct (proj2 (wf_waiting _ Hwf p)) as [l Hl]; [by exists x|by exists l]. Qed.

Lemma awake_locked p b a : awake_one p (with_alocked b a) = with_alocked b (awake_one p a).
Proof. done. Qed.

Lemma group_add_does a w group port : abs a w -> allowed a (CGroupAdd group port) = true ->
  wp (port_group_add group port) w (fun r w' => does r w' (spec_group_add group port a)).
Proof.
  intros [Hwf Hs] Hok. cbn [allowed] in Hok. apply andb_true_iff in Hok as [Hg Hp]. unfold port_group_add, spec_group_add.
  destruct (alive_obj a port Hp) as [->|(Hp0 & x & Hx & Hcl)]; [by wp_step|]. rewrite (proj2 (Z.eqb_neq port 0) Hp0). cbn [orb].
  destruct (alive_obj a group Hg) as [->|(Hg0 & y & Hy & Hcly)]; [by wp_step|]. rewrite (proj2 (Z.eqb_neq group 0) Hg0).
  rewrite Hy. wp_step. eapply wp_magic_at; [done..|].
  destruct y as [n m op pd rds|q0 c0 w0 g0|l|b|]; cbn [amagic]; [by destruct op|done| |done..].
  change (negb (PORTGROUP_MAGIC =? PORTGROUP_MAGIC)) with false. cbn iota. wp_step. eapply wp_magic_at; [done..|]. rewrite Hx.
  destruct x as [n m op pd rds|q c wr g|l'|b|]; cbn [amagic]; [by destruct op| |done..].
  change (negb (READPORT_MAGIC =? READPORT_MAGIC)) with false. cbn iota. wp_step. eapply wp_read_at; [done..|]. cbn [r_gport r_buf].
  destruct (Z.eqb_spec g 0) as [->|Hgz]; cbn [negb]; [|by destruct g].
  wp_step. eapply wp_lock; [done|]. intros w1 Hs1 _. wp_step. eapply wp_group_at; [done..|]. cbn [g_rp_list].
  destruct (Z.of_nat (length l) =? MAX_PORT_GROUP_COUNT).
  { wp_step. eapply wp_set_locked; [done|]. intros w2 Hs2 _. apply sim_unlock in Hs2. by wp_step. }
  assert (group ≠ port) as Hne by congruence.
  wp_step. eapply wp_set_gport; [done..|]. intros w2 Hs2 _. wp_step.
  eapply wp_set_members; [done|unfold put_obj; cbn; by rewrite lookup_insert_ne|]. intros w3 Hs3 _. wp_step.
  rewrite (attach_eq group port a l q c wr 0) by done. set (a3 := put_obj group _ _) in Hs3.
  assert (a3 = with_alocked true (put_obj group (AGroup (l ++ [port])) (put_obj port (ARead q c wr group) a))) as E by done.
  eapply (wp_buf_at a3 w3 port (ARead q c wr group) q); [done| |done|].
  { rewrite E. cbn. rewrite lookup_insert_ne by done. apply lookup_insert_eq. }
  intros b Hr _. wp_step. destruct (wf_queues _ Hwf port _ Hx) as (_ & Hcap & _). rewrite (buf_is_empty_spec _ _ _ Hcap Hr).
  destruct (live_queue a group _ Hwf Hy) as [ws Hws]; [done|].
  case_bool_decide; cbn [negb when].
  - wp_step. eapply wp_set_locked; [done|]. intros w4 Hs4 _. wp_step. rewrite E in Hs4. split; [done|]. cbn [snd].
    change (a_locked a) with (a_locked (put_obj group (AGroup (l ++ [port])) (put_obj port (ARead q c wr group) a))) in Hs4. by apply sim_unlock in Hs4.
  - wp_step. eapply (wp_wake_one a3 w3 group NO_ERROR ws); [done..|]. intros w4 Hs4 _. wp_step.
    eapply wp_set_locked; [done|]. intros w5 Hs5 _. wp_step. split; [done|]. cbn [snd]. rewrite E, awake_locked in Hs5.
    by apply (sim_unlock (awake_one group (put_obj group (AGroup (l ++ [port])) (put_obj port (ARead q c wr group) a)))) in Hs5.
Qed.

Lemma no_dead a : awf a -> forall x, a_objs a !! x ≠ Some ADead.
Proof. intros Hwf x Hx. by apply (wf_links _ Hwf) in Hx. Qed.

Lemma group_member a g l p : awf a -> a_objs a !! g = Some (AGroup l) -> p ∈ l -> exists q c wr, a_objs a !! p = Some (ARead q c wr g).
Proof. intros Hwf Hg Hp. destruct (wf_links _ Hwf _ _ Hg) as [_ Hm]. by apply Hm. Qed.

Lemma member_one a p g l : awf a -> a_objs a !! g = Some (AGroup l) -> p ∈ l ->
  forall g' l', a_objs a !! g' = Some (AGroup l') -> p ∈ l' -> g' = g.
Proof.
  intros Hwf Hg Hp g' l' Hg' Hp'. destruct (group_member a g l p) as (? & ? & ? & H1); [done..|].
  destruct (group_member a g' l' p) as (? & ? & ? & H2); [done..|]. congruence.
Qed.

Lemma group_remove_does a w group port : abs a w -> allowed a (CGroupRemove group port) = true ->
  wp (port_group_remove group port) w (fun r w' => does r w' (spec_group_remove group port a)).
Proof.
  intros [Hwf Hs] Hok. cbn [allowed] in Hok. apply andb_true_iff in Hok as [Hg Hp].
  unfold port_group_remove, spec_group_remove.
  destruct (alive_obj a port Hp) as [->|(Hp0 & x & Hx & Hcl)]; [by wp_step|]. rewrite (proj2 (Z.eqb_neq port 0) Hp0). cbn [orb].
  destruct (alive_obj a group Hg) as [->|(Hg0 & y & Hy & Hcly)]; [by wp_step|]. rewrite (proj2 (Z.eqb_neq group 0) Hg0).
  rewrite Hy. wp_step. eapply wp_magic_at; [done..|].
  destruct y as [n m op pd rds|q0 c0 w0 g0|l|b|]; cbn [amagic]; [by destruct op|done| |done..].
  change (negb (PORTGROUP_MAGIC =? PORTGROUP_MAGIC)) with false. cbn iota. wp_step. eapply wp_magic_at; [done..|]. rewrite Hx.
  destruct x as [n m op pd rds|q c wr g|l'|b|]; cbn [amagic]; [by destruct op| |done..].
  change (negb (READPORT_MAGIC =? READPORT_MAGIC)) with false. cbn iota. wp_step. eapply wp_read_at; [done..|]. cbn [r_gport].
  destruct (Z.eqb_spec g group) as [->|Hgz]; cbn [negb]; [|by wp_step].
  wp_step. eapply wp_lock; [done|]. intros w1 Hs1 _. wp_step. eapply wp_group_at; [done..|]. cbn [g_rp_list].
  case_bool_decide as Hin; cbn [negb]; wp_step; [|by split].
  eapply (wp_delete_g_node _ _ port group l); [done..|exact (no_dead a Hwf)|exact (member_one a port group l Hwf Hy Hin)|]. intros w2 Hs2 _. wp_step.
  eapply wp_set_locked; [done|]. intros w3 Hs3 _. wp_step. split; [done|].
  by apply (sim_unlock (put_obj group (AGroup (remove_from port l)) a)).
Qed.

(** * Writing *)

Definition has_queue a (p : Z) : Prop := is_Some (a_waiting a p).

(** What the loop over the readers needs, and keeps. *)
Definition readers_ok a (l : list Z) : Prop := distinct a /\
  forall p, p ∈ l -> has_queue a p /\ exists q c wr g, a_objs a !! p = Some (ARead q c wr g) /\ queue_ok q /\ (g ≠ 0 -> has_queue a g).

Lemma push_ok q pk q' : queue_ok q -> push q pk = Some q' -> queue_ok q' /\ q_addr q' = q_addr q.
Proof.
  unfold push. intros (? & ? & ?). destruct (Z.leb_spec (Z.of_nat (length (q_items q) + length pk)) (q_cap q)); [|done].
  intros [= <-]. split; [|done]. split_and!; cbn; try done. rewrite length_app. lia.
Qed.

(** A change of the contents of one queue. *)
Lemma distinct_requeue a p x q q' : distinct a -> a_objs a !! p = Some x -> queue_in x q -> q_addr q' = q_addr q ->
  distinct (put_obj p (requeue q' x) a).
Proof.
  intros Hd Hp Hx Ha. assert (forall p' o, a_objs (put_obj p (requeue q' x) a) !! p' = Some o ->
    exists o', a_objs a !! p' = Some o' /\ buf_of o' = buf_of o) as Hold.
  { intros p' o. unfold put_obj. cbn. rewrite lookup_insert. case_decide; [|by eauto]. intros [= <-]. subst p'. exists x.
    split; [done|]. symmetry. by apply (requeue_buf x q). }
  intros p1 p2 o1 o2 H1 H2 Hb Hb0. destruct (Hold _ _ H1) as (o1' & H1' & E1). destruct (Hold _ _ H2) as (o2' & H2' & E2).
  apply (Hd p1 p2 o1' o2'); congruence.
Qed.

Lemma queue_awake a p p' : has_queue a p' -> has_queue (awake_one p a) p'.
Proof.
  unfold has_queue, awake_one, set_queue. cbn. unfold set_queue. intros [l Hl]. destruct (p' =? p) eqn:E; bool_prop; [subst p'; rewrite Hl|]; by eexists.
Qed.

Lemma queue_wake a p g p' : has_queue a p' -> has_queue (wake_reader p g a) p'.
Proof. unfold wake_reader. destruct (_ && _); apply queue_awake. Qed.

Lemma wake_reader_objs p g a : a_objs (wake_reader p g a) = a_objs a.
Proof. unfold wake_reader. by destruct (_ && _). Qed.

Lemma readers_step a p l q c wr g q' : readers_ok a l -> a_objs a !! p = Some (ARead q c wr g) -> queue_ok q' -> q_addr q' = q_addr q ->
  readers_ok (wake_reader p g (put_obj p (ARead q' c wr g) a)) l.
Proof.
  intros [Hd Hl] Hp Hq' Ha. split.
  - pose proof (distinct_requeue a p _ q q' Hd Hp eq_refl Ha) as Hd'. unfold distinct. rewrite wake_reader_objs. exact Hd'.
  - intros p' Hp'. destruct (Hl p' Hp') as (Hw & q1 & c1 & wr1 & g1 & Ho & Hq1 & Hg1). split; [by apply queue_wake|].
    rewrite wake_reader_objs. unfold put_obj. cbn. rewrite lookup_insert. case_decide.
    + subst p'. rewrite Hp in Ho. injection Ho as <- <- <- <-. exists q', c, wr, g. split; [done|]. split; [done|]. intros Hg. apply queue_wake. by apply Hg1.
    + exists q1, c1, wr1, g1. split; [done|]. split; [done|]. intros Hg. apply queue_wake. by apply Hg1.
Qed.

Lemma readers_tail a p l : readers_ok a (p :: l) -> readers_ok a l.
Proof. intros [Hd Hl]. split; [done|]. intros p' Hp'. apply Hl. by right. Qed.

(** One thread of the group or else of the port is woken. *)
Lemma wp_wake_reader a b w p g (Q : Z -> world -> Prop) : sim (with_alocked b a) w -> has_queue a p -> (g ≠ 0 -> has_queue a g) ->
  (forall n w', sim (with_alocked b (wake_reader p g a)) w' -> calm w w' -> Q n w') ->
  wp (awaken ← (if negb (g =? 0) then on_wait (wake_one g NO_ERROR) else mret 0);
      if awaken =? 0 then on_wait (wake_one p NO_ERROR) else mret awaken) w Q.
Proof.
  intros Hs [lp Hp] Hg HQ. unfold wake_reader in HQ. wp_step. destruct (Z.eqb_spec g 0) as [->|Hg0]; cbn [negb andb] in *.
  - wp_step. change (0 =? 0) with true. cbn iota. eapply (wp_wake_one _ w p NO_ERROR lp); [done..|]. intros w' Hs' Hc. by apply HQ.
  - destruct (Hg Hg0) as [lg Hlg]. eapply (wp_wake_one _ w g NO_ERROR lg); [done..|]. intros w1 Hs1 Hc1. unfold nobody_waits in HQ. rewrite Hlg in HQ.
    destruct lg as [|t lg]; cbn [negb] in HQ.
    + assert (forall p', a_waiting (awake_one g (with_alocked b a)) p' = a_waiting a p') as Hsame.
      { intros p'. cbn. unfold set_queue. destruct (p' =? g) eqn:E; bool_prop; [subst; by rewrite Hlg|done]. }
      apply (sim_weq _ (with_alocked b a)) in Hs1; [|done..|intros p'; symmetry; apply Hsame].
      change (0 =? 0) with true. cbn iota. eapply (wp_wake_one _ w1 p NO_ERROR lp); [done..|]. intros w' Hs' Hc. apply HQ; [done|].
      unfold calm in *. auto.
    + change (1 =? 0) with false. cbn iota. wp_step. by apply HQ.
Qed.

Lemma wp_write_readers b pk rds (Q : Z * Z -> world -> Prop) : forall a w status n, sim (with_alocked b a) w -> readers_ok a rds ->
  (let x := fold_left (fun r p => spec_write_reader pk p r) rds (status, a) in
   forall n' w', sim (with_alocked b (snd x)) w' -> calm w w' -> Q (fst x, n') w') -> wp (write_readers pk rds status n) w Q.
Proof.
  induction rds as [|p rds IH]; intros a w st n Hs Hr HQ; cbn [write_readers fold_left] in *.
  { wp_step. apply HQ; [done|by intros ?]. }
  pose proof Hr as [Hd Hl]. destruct (Hl p) as (Hw & q & c & wr & g & Hp & Hq & Hg); [by left|].
  wp_step. eapply wp_read_at; [done..|]. cbn [r_buf r_gport]. wp_step.
  eapply (wp_write_buf (with_alocked b a) w p (ARead q c wr g) q); [done..|].
  assert (spec_write_reader pk p (st, a) = match push q pk with
    | Some q => (st, wake_reader p g (put_obj p (ARead q c wr g) a)) | None => (ERR_PARTIAL_WRITE, a) end) as Hstep.
  { unfold spec_write_reader. cbn [fst snd]. by rewrite Hp. }
  rewrite Hstep in HQ. clear Hstep. destruct (push q pk) as [q'|] eqn:Hpush.
  - destruct (push_ok _ _ _ Hq Hpush) as [Hq' Ha]. intros w1 Hs1 Hk1. change (NO_ERROR <? 0) with false. cbn iota.
    assert (forall (m : Z -> M world (Z * Z)) P, wp (awaken ← (awaken ← (if negb (g =? 0) then on_wait (wake_one g NO_ERROR) else mret 0);
      if awaken =? 0 then on_wait (wake_one p NO_ERROR) else mret awaken); m awaken) w1 P ->
      wp (awaken ← (if negb (g =? 0) then on_wait (wake_one g NO_ERROR) else mret 0);
      awaken ← (if awaken =? 0 then on_wait (wake_one p NO_ERROR) else mret awaken); m awaken) w1 P) as Hassoc.
    { intros m P. rewrite !wp_bind. intros Hm. eapply wp_mono; [exact Hm|]. intros. by rewrite wp_bind. }
    apply Hassoc. rewrite wp_bind. eapply (wp_wake_reader (put_obj p (ARead q' c wr g) a) b w1 p g).
    + exact Hs1.
    + done.
    + done.
    + intros k w2 Hs2 Hc2. eapply IH; [exact Hs2| |].
      * by apply readers_tail with p, (readers_step a p _ q).
      * cbn zeta. intros n' w3 Hs3 Hc3. apply HQ; [done|]. unfold calm in *. rewrite Hk1 in Hc2. auto.
  - change (ERR_NOT_ENOUGH_BUFFER <? 0) with true. cbn iota. eapply IH; [done|by apply readers_tail with p|done].
Qed.

Lemma writer_readers_ok a port n m op rds : awf a -> a_objs a !! port = Some (AWrite n m op None rds) -> readers_ok a rds.
Proof.
  intros Hwf Hp. split; [apply Hwf|]. intros p Hin. destruct (wf_links _ Hwf _ _ Hp) as (_ & _ & _ & Hr).
  destruct (Hr p Hin) as (q & c & g & Ho). split.
  { destruct (live_queue a p _ Hwf Ho) as [l Hl]; [done|by eexists]. }
  exists q, c, port, g. split; [done|]. split; [by apply (wf_queues _ Hwf p _ Ho)|]. intros Hg.
  destruct (wf_links _ Hwf _ _ Ho) as [_ Hgr]. destruct (Hgr Hg) as [l Hl]. destruct (live_queue a g _ Hwf Hl) as [ts Hts]; [done|by eexists].
Qed.

Lemma write_does a w port pk : abs a w -> allowed a (CWrite port pk) = true -> wait_may_switch (w_wait w) ->
  wp (port_write port pk) w (fun r w' => does r w' (spec_write port pk a)).
Proof.
  intros [Hwf Hs] Hok Hm. cbn [allowed] in Hok. unfold port_write, spec_write. destruct pk as [pk|]; [|by wp_step].
  destruct (alive_obj a port Hok) as [->|(Hp0 & x & Hx & Hcl)]; [by wp_step|]. rewrite (proj2 (Z.eqb_neq port 0) Hp0).
  wp_step. eapply wp_lock; [done|]. intros w1 Hs1 Hk1. wp_step. eapply wp_magic_at; [done..|]. rewrite Hx.
  assert (forall w', sim (with_alocked true a) w' -> wp (_ ← thread_unlock (a_locked a); mret ERR_BAD_HANDLE) w' (fun r w' => does r w' (ERR_BAD_HANDLE, a))) as Hbad.
  { intros w' Hs'. wp_step. eapply wp_set_locked; [done|]. intros w2 Hs2 _. apply sim_unlock in Hs2. by wp_step. }
  destruct x as [n m op pd rds|q c wr g|l|b|]; cbn [amagic]; [|by apply Hbad..].
  destruct op; [|by destruct pd; apply Hbad]. change (negb (WRITEPORT_MAGIC_W =? WRITEPORT_MAGIC_W)) with false. cbn iota.
  wp_step. eapply wp_write_at; [done..|]. cbn [w_buf w_rp_list]. destruct pd as [q|]; cbn [pending_queue].
  - pose proof (wf_queues _ Hwf _ _ Hx) as Hq. cbn in Hq. pose proof Hq as (Hq0 & _). rewrite (proj2 (Z.eqb_neq _ 0) Hq0). cbn [negb]. wp_step.
    eapply (wp_write_buf _ w1 port (AWrite n m true (Some q) rds) q); [done|exact (wf_buf _ Hwf)|done..|].
    destruct (push q pk) as [q'|] eqn:Hpush.
    + intros w2 Hs2 _. wp_step. eapply wp_set_locked; [done|]. intros w3 Hs3 _. wp_step. change (negb (0 =? 0)) with false. cbn [when]. wp_step.
      split; [done|]. by apply (sim_unlock (put_obj port (AWrite n m true (Some q') rds) a)).
    + wp_step. eapply wp_set_locked; [done|]. intros w3 Hs3 _. wp_step. change (negb (0 =? 0)) with false. cbn [when]. wp_step.
      split; [done|]. by apply sim_unlock.
  - change (negb (0 =? 0)) with false. cbn iota. wp_step. eapply (wp_write_readers true pk rds _ a); [exact Hs1|by eapply writer_readers_ok|].
    cbn zeta. intros n' w2 Hs2 Hc2. wp_step. eapply wp_set_locked; [done|]. intros w3 Hs3 Hk3. wp_step.
    set (r := fold_left _ rds (NO_ERROR, a)) in *.
    assert (a_locked (snd r) = a_locked a) as Hlk.
    { unfold r. clear. generalize NO_ERROR. revert a. induction rds as [|p rds IH]; intros a z; cbn [fold_left]; [done|].
      unfold spec_write_reader at 2. cbn [fst snd]. destruct (a_objs a !! p) as [[| | | |]|]; try apply IH.
      destruct (push _ pk); [|apply IH]. rewrite IH. unfold wake_reader. by destruct (_ && _). }
    rewrite <- Hlk in Hs3. apply sim_unlock in Hs3. destruct (negb (n' =? 0)); cbn [when]; [|by wp_step].
    eapply wp_yield; [done| |].
    { rewrite Hk3. apply Hc2. by rewrite Hk1. }
    intros w4 Hs4. by wp_step.
Qed.

(** * Reading *)

Lemma spec_take_same p result result' a a' : spec_take p result a = (false, result', a') -> a' = a.
Proof. unfold spec_take. destruct (a_objs a !! p) as [[| | | |]|]; try by intros [=]. by destruct (q_items q); intros [=]. Qed.

Lemma spec_take_any_same l result' a a' : forall result, spec_take_any l result a = (false, result', a') -> a' = a.
Proof.
  induction l as [|p l IH]; intros result; cbn [spec_take_any]; [by intros [=]|].
  destruct (spec_take p result a) as [[[] r1] a1] eqn:Ht; [done|]. apply spec_take_same in Ht as ->. apply IH.
Qed.

Lemma wp_read_no_lock a b w p q c wr g timeout result (Q : no_lock_outcome -> world -> Prop) : sim (with_alocked b a) w -> awf a ->
  a_objs a !! p = Some (ARead q c wr g) -> (timeout ≠ 0 -> wait_may_switch (w_wait w) /\ timeout_ok timeout) ->
  let '(found, result', a') := spec_take p result a in
  (if found : bool then forall w', sim (with_alocked b a') w' -> Q (NoLockDone NO_ERROR result') w'
   else if timeout =? 0 then Q (NoLockDone ERR_TIMED_OUT result') w
   else forall w', sim (with_alocked b (put_waiting p ((fun l => l ++ [wait_self (w_wait w)]) <$> a_waiting a p) a)) w' -> Q (NoLockBlocked result') w') ->
  wp (read_no_lock 1 p timeout result) w Q.
Proof.
  intros Hs Hwf Hp Ht. unfold spec_take. rewrite Hp. pose proof (wf_queues _ Hwf _ _ Hp : queue_ok q) as Hq.
  cbn [read_no_lock]. destruct (q_items q) as [|x l] eqn:Hi; intros HQ.
  - wp_step. eapply wp_read_at; [done..|]. cbn [r_buf r_ctx]. wp_step.
    eapply (wp_read_buf _ w p (ARead q c wr g) q); [done|exact (wf_buf _ Hwf)|done..|]. rewrite Hi. change (negb (ERR_NO_MSG =? ERR_NO_MSG)) with false. cbn iota.
    destruct (Z.eqb_spec timeout 0) as [->|Ht0]; [by wp_step|]. wp_step. destruct (live_queue a p _ Hwf Hp) as [ws Hws]; [done|].
    destruct (Ht Ht0) as [Hm Hto]. eapply (wp_block _ w p ws); [done|exact Hws|done..|]. rewrite (proj2 (Z.eqb_neq timeout 0) Ht0).
    intros w' Hs'. wp_step. apply HQ. by rewrite Hws.
  - wp_step. eapply wp_read_at; [done..|]. cbn [r_buf r_ctx]. wp_step.
    eapply (wp_read_buf _ w p (ARead q c wr g) q); [done|exact (wf_buf _ Hwf)|done..|]. rewrite Hi. intros w' Hs' _.
    change (negb (NO_ERROR =? ERR_NO_MSG)) with true. cbn iota. wp_step. by apply HQ.
Qed.

Lemma wp_read_members a b w g l (Q : bool * Z * port_result_t -> world -> Prop) : sim (with_alocked b a) w -> awf a ->
  (forall p, p ∈ l -> exists q c wr, a_objs a !! p = Some (ARead q c wr g)) -> forall rc result,
  let '(found, result', a') := spec_take_any l result a in
  (if found : bool then forall w', sim (with_alocked b a') w' -> Q (true, NO_ERROR, result') w' else forall rc, Q (false, rc, result') w) ->
  wp (read_members l rc result) w Q.
Proof.
  intros Hs Hwf. induction l as [|p l IH]; intros Hl rc result; cbn [spec_take_any read_members].
  { intros HQ. by wp_step. }
  destruct (Hl p) as (q & c & wr & Hp); [by left|]. pose proof (wp_read_no_lock a b w p q c wr g 0 result) as Hone.
  destruct (spec_take p result a) as [[found result'] a'] eqn:Htake. destruct found.
  - intros HQ. wp_step. apply Hone; [done..|]. intros w' Hs'. change (negb (NO_ERROR =? ERR_TIMED_OUT)) with true. cbn iota. wp_step. by apply HQ.
  - assert (a' = a) as ->.
    { unfold spec_take in Htake. rewrite Hp in Htake. by destruct (q_items q); simplify_eq. }
    specialize (IH ltac:(intros; apply Hl; by right) ERR_TIMED_OUT result').
    destruct (spec_take_any l result' a) as [[found result2] a2]. intros HQ. wp_step. apply Hone; [done..|].
    change (0 =? 0) with true. cbn iota. change (negb (ERR_TIMED_OUT =? ERR_TIMED_OUT)) with false. cbn iota. by apply IH.
Qed.

(** The part of a read under the lock. *)
Definition read_locked (group : bool) (p timeout rc : Z) (state : bool) (result : port_result_t) : M world read_outcome :=
  o ← (if group then read_group 1 p timeout rc result else read_no_lock 1 p timeout result); read_exit group timeout state o.

Definition does_read (o : read_outcome) w' (x : read_outcome * aports) : Prop := o = fst x /\ sim (snd x) w'.

Lemma wp_exit (group : bool) timeout state a o w x : sim (with_alocked true a) w ->
  x = match o with
      | NoLockDone rc result => (ReadDone rc result, with_alocked state a)
      | NoLockBlocked result => (ReadBlocked group timeout state result, with_alocked false a)
      end -> wp (read_exit group timeout state o) w (fun o' w' => does_read o' w' x).
Proof.
  intros Hs ->. destruct o; cbn [read_exit]; wp_step; (eapply wp_set_locked; [done|]); intros w' Hs' _; by wp_step.
Qed.

Lemma read_locked_does a w group p timeout rc state result : sim (with_alocked true a) w -> awf a ->
  match a_objs a !! p with Some (ARead _ _ _ _) => group = false | Some (AGroup _) => group = true | _ => False end ->
  wait_may_switch (w_wait w) /\ timeout_ok timeout ->
  wp (read_locked group p timeout rc state result) w
    (fun o w' => does_read o w' (spec_read_locked group p timeout state (wait_self (w_wait w)) result a)).
Proof.
  intros Hs Hwf Hp Hm. unfold read_locked, spec_read_locked. wp_step. destruct (a_objs a !! p) as [[n m op pd rds|q c wr g|l|b|]|] eqn:Hx; try done; subst group.
  - pose proof (wp_read_no_lock a true w p q c wr g timeout result) as Hone. destruct (spec_take p result a) as [[found result'] a'] eqn:Htake.
    apply Hone; [done..|]. clear Hone. destruct found; [|apply spec_take_same in Htake as ->; destruct (timeout =? 0)]; intros; by eapply wp_exit.
  - assert (forall p', p' ∈ l -> exists q c wr, a_objs a !! p' = Some (ARead q c wr p)) as Hl by (intros; by eapply group_member).
    pose proof (fun Q => wp_read_members a true w p l Q Hs Hwf Hl rc result) as Hone.
    destruct (spec_take_any l result a) as [[found result'] a'] eqn:Htake.
    cbn [read_group]. wp_step. eapply wp_group_at; [done..|]. cbn [g_rp_list]. wp_step. apply Hone. clear Hone. destruct found.
    + intros w' Hs'. wp_step. by eapply wp_exit.
    + intros rc'. wp_step. destruct (live_queue a p _ Hwf Hx) as [ws Hws]; [done|]. destruct Hm as [Hm Hto].
      apply spec_take_any_same in Htake as ->.
      eapply (wp_block _ w p ws); [done|exact Hws|done..|]. destruct (timeout =? 0) eqn:Ht.
      * change (negb (ERR_TIMED_OUT =? NO_ERROR)) with true. cbn iota. wp_step. by eapply wp_exit.
      * intros w' Hs'. wp_step. apply (wp_exit true timeout state (put_waiting p (Some (ws ++ [wait_self (w_wait w)])) a)); [exact Hs'|by rewrite Hws].
Qed.

Lemma read_does a w port timeout result : abs a w -> allowed a (CRead port timeout result) = true ->
  wait_may_switch (w_wait w) /\ timeout_ok timeout ->
  wp (port_read port timeout result) w (fun o w' => does_read o w' (spec_read port timeout result (wait_self (w_wait w)) a)).
Proof.
  intros [Hwf Hs] Hok Hm. cbn [allowed] in Hok. unfold port_read, spec_read. destruct result as [result|]; [|by wp_step].
  destruct (alive_obj a port Hok) as [->|(Hp0 & x & Hx & Hcl)]; [by wp_step|]. rewrite (proj2 (Z.eqb_neq port 0) Hp0).
  wp_step. eapply wp_lock; [done|]. intros w1 Hs1 Hk1. wp_step. eapply wp_magic_at; [done..|]. rewrite Hx.
  destruct x as [n m op pd rds|q c wr g|l|b|]; cbn [amagic]; [| | |done..].
  - destruct op; cbn; wp_step; (eapply wp_set_locked; [done|]); intros w2 Hs2 _; apply sim_unlock in Hs2; by wp_step.
  - change (READPORT_MAGIC =? READPORT_MAGIC) with true. cbn iota. rewrite <- Hk1 in Hm |- *.
    eapply (read_locked_does a w1 false port timeout ERR_GENERIC (a_locked a) result); [done|done|by rewrite Hx|done].
  - change (PORTGROUP_MAGIC =? READPORT_MAGIC) with false. change (PORTGROUP_MAGIC =? PORTGROUP_MAGIC) with true. cbn iota. rewrite <- Hk1 in Hm |- *.
    eapply (read_locked_does a w1 true port timeout ERR_GENERIC (a_locked a) result); [done|done|by rewrite Hx|done].
Qed.

Lemma read_resumed_does a w group port timeout state result wr : abs a w ->
  allowed a (CReadResumed group port timeout state result wr) = true -> wait_may_switch (w_wait w) /\ timeout_ok timeout ->
  wp (port_read_resumed group port timeout state result wr) w
    (fun o w' => does_read o w' (spec_read_resumed group port timeout state result wr (wait_self (w_wait w)) a)).
Proof.
  intros [Hwf Hs] Hok Hm. cbn [allowed] in Hok. unfold port_read_resumed, spec_read_resumed. wp_step.
  eapply wp_set_locked; [done|]. intros w1 Hs1 Hk1. destruct (negb (wr =? NO_ERROR)); cbn [orb] in Hok.
  - wp_step. by eapply wp_exit.
  - rewrite <- Hk1 in Hm |- *. eapply (read_locked_does a w1 group port timeout wr state result); [done|done| |done].
    destruct (a_objs a !! port) as [[| | | |]|]; try done; by destruct group.
Qed.
End props.
End PortXfer.

(** The end of ports and of groups does what [PortSpec.spec] says. *)
Module PortClose.
Import WaitLib Port PortSpec PortSim PortMake PortXfer.

(** * Cancelled readers *)

Definition unwrite (x : aport) : aport := match x with ARead q ctx _ g => ARead q ctx 0 g | _ => x end.

Record cancelled (l : list Z) (a a' : aports) : Prop := {
  cn_objs p : a_objs a' !! p = if decide (p ∈ l) then unwrite <$> (a_objs a !! p) else a_objs a !! p;
  cn_list : a_list a' = a_list a;
  cn_locked : a_locked a' = a_locked a;
  cn_lost : a_lost a' = a_lost a;
  cn_waiting p : is_Some (a_waiting a p) -> is_Some (a_waiting a' p)
}.

Lemma cancel_reader_objs p a : a_objs (cancel_reader p a) = alter unwrite p (a_objs a).
Proof.
  unfold cancel_reader. destruct (a_objs a !! p) as [x|] eqn:Hx; [|by rewrite alter_id; [|by intros ? ?; simplify_eq]].
  destruct x as [n m op pd rds|q c wr g|l|b|]; try (rewrite alter_id; [done|by intros ? ?; simplify_eq]).
  transitivity (<[p:=ARead q c 0 g]> (a_objs a)); [by destruct (g =? 0)|]. apply map_eq. intros y. rewrite lookup_insert, lookup_alter.
  case_decide; [subst; by rewrite Hx|done].
Qed.

Lemma cancel_reader_rest p a : a_list (cancel_reader p a) = a_list a /\ a_locked (cancel_reader p a) = a_locked a /\
  a_lost (cancel_reader p a) = a_lost a /\ (forall p', is_Some (a_waiting a p') -> is_Some (a_waiting (cancel_reader p a) p')).
Proof.
  unfold cancel_reader. destruct (a_objs a !! p) as [[n m op pd rds|q c wr g|l|b|]|]; try done.
  destruct (g =? 0); cbn; (split_and!; [done..|]); intros p' Hp'; unfold set_queue; repeat case_if; try done; by eexists.
Qed.

Lemma cancel_all l : forall a, cancelled l a (fold_left (fun a p => cancel_reader p a) l a).
Proof.
  induction l as [|p l IH]; intros a; cbn [fold_left].
  - split; try done.
  - destruct (IH (cancel_reader p a)) as [Ho Hl Hk Hs Hw]. destruct (cancel_reader_rest p a) as (Hl' & Hk' & Hs' & Hw').
    split; [|congruence..|auto]. intros y. rewrite Ho, cancel_reader_objs, lookup_alter.
    destruct (decide (p = y)) as [->|Hne].
    + rewrite (decide_True (P := y ∈ y :: l)) by left. destruct (a_objs a !! y) as [x|]; cbn; [|by case_decide].
      case_decide; cbn; [|done]. by destruct x.
    + destruct (decide (y ∈ l)); [rewrite decide_True by (by right)|rewrite decide_False by (rewrite elem_of_cons; naive_solver)]; done.
Qed.

Section props.
Context {K H : Type} `{!WaitOps K} `{!AllocOps H} `{!WaitLaws K} `{!AllocLaws H}.
Abbreviation world := (Port.world (K := K) (H := H)).
Implicit Types (a : aports) (w : world).

Lemma wp_cancel_readers b l (Q : unit -> world -> Prop) : forall a w, sim (with_alocked b a) w ->
  (forall p, p ∈ l -> has_queue a p /\ exists q c wr g, a_objs a !! p = Some (ARead q c wr g) /\ (g ≠ 0 -> has_queue a g)) ->
  (forall w', sim (with_alocked b (fold_left (fun a p => cancel_reader p a) l a)) w' -> Q tt w') -> wp (cancel_readers l) w Q.
Proof.
  induction l as [|p l IH]; intros a w Hs Hl HQ; cbn [cancel_readers fold_left] in *; [by apply HQ|].
  destruct (Hl p) as ([ts Hts] & q & c & wr & g & Hp & Hg); [by left|].
  wp_step. eapply wp_read_at; [done..|]. cbn [r_gport]. wp_step. eapply (wp_wake_all _ w p ERR_CANCELLED ts); [done..|]. intros n1 w1 Hs1 _.
  assert (forall w2, sim (with_alocked b (cancel_reader p a)) w2 -> wp (cancel_readers l) w2 Q) as Hrest.
  { intros w2 Hs2. eapply IH; [exact Hs2| |done]. intros p' Hp'. destruct (cancel_reader_rest p a) as (_ & _ & _ & Hw).
    destruct (Hl p') as (Hq & q' & c' & wr' & g' & Ho & Hg'); [by right|]. split; [by apply Hw|].
    rewrite cancel_reader_objs, lookup_alter, Ho. case_decide; rewrite ?Hp; cbn; [exists q, c, 0, g|exists q', c', wr', g']; (split; [done|]); intros ?; apply Hw; first [by apply Hg'|by apply Hg]. }
  assert (cancel_reader p a = (let a := put_waiting p (Some []) (put_obj p (ARead q c 0 g) a) in if g =? 0 then a else put_waiting g (Some []) a)) as E
    by (unfold cancel_reader; by rewrite Hp).
  rewrite E in Hrest. destruct (Z.eqb_spec g 0) as [->|Hg0]; cbn [negb when].
  - wp_step. eapply (wp_set_wport _ w1 p q c wr 0 0); [done..|]. intros w2 Hs2 _. apply Hrest. exact Hs2.
  - destruct (Hg Hg0) as [lg Hlg]. assert (exists lg', a_waiting (put_waiting p (Some []) a) g = Some lg') as [lg' Hlg'].
    { cbn. unfold set_queue. case_if; eauto. }
    wp_step. eapply (wp_wake_all _ w1 g ERR_CANCELLED lg'); [done..|]. intros n2 w2 Hs2 _. wp_step.
    eapply (wp_set_wport _ w2 p q c wr g 0); [done..|]. intros w3 Hs3 _. apply Hrest. exact Hs3.
Qed.

(** * Destroying a write port *)

Lemma free_buf_null w (Q : unit -> world -> Prop) : Q tt w -> wp (free_buf 0) w Q.
Proof. done. Qed.

(** The buffer [b] of [p] is freed after [p] has let go of it. *)
Lemma wp_free_own a w b (Q : unit -> world -> Prop) : sim (with_alost ({[b]} ∪ a_lost a) a) w -> b ≠ 0 -> b ∉ a_lost a -> ~ owned a b ->
  (forall w', sim a w' -> w_wait w' = w_wait w -> Q tt w') -> wp (free_buf b) w Q.
Proof.
  intros Hs Hb Hl Ho HQ. eapply wp_free_buf; [exact Hs|done|cbn; set_solver|exact Ho|]. intros w' Hs' Hk _. apply HQ; [|done].
  eapply sim_weq; [exact Hs'|..]; try done. cbn. by rewrite lost_found.
Qed.

Lemma not_owned_put a p x x' b : distinct a -> a_objs a !! p = Some x -> buf_of x = b -> buf_of x' = 0 -> ~ owned (put_obj p x' a) b.
Proof.
  intros Hd Hp Hx Hx' [Hb (p' & o & Hp' & Ho)]. cbn in Hp'. rewrite lookup_insert in Hp'. case_decide as E; [simplify_eq; congruence|].
  apply E. apply (Hd p p' x o); congruence.
Qed.

Lemma destroy_does a w port : abs a w -> allowed a (CDestroy port) = true ->
  wp (port_destroy port) w (fun r w' => does r w' (spec_destroy port a)).
Proof.
  intros [Hwf Hs] Hok. cbn [allowed] in Hok. unfold port_destroy, spec_destroy.
  destruct (alive_obj a port Hok) as [->|(Hp0 & x & Hx & Hcl)]; [by wp_step|]. rewrite (proj2 (Z.eqb_neq port 0) Hp0), Hx.
  wp_step. eapply wp_lock; [done|]. intros w1 Hs1 _. wp_step. eapply wp_magic_at; [done..|].
  assert (forall w', sim (with_alocked true a) w' -> wp (_ ← thread_unlock (a_locked a); mret ERR_BAD_HANDLE) w' (fun r w' => does r w' (ERR_BAD_HANDLE, a))) as Hbad.
  { intros w' Hs'. wp_step. eapply wp_set_locked; [done|]. intros w2 Hs2 _. apply sim_unlock in Hs2. by wp_step. }
  destruct x as [n m op pd rds|q c wr g|l|b|]; cbn [amagic]; [|by apply Hbad..]. destruct op; [by apply Hbad|].
  change (negb (WRITEPORT_MAGIC_X =? WRITEPORT_MAGIC_X)) with false. cbn iota.
  destruct (wf_links _ Hwf _ _ Hx) as (Hin & Hnd & Hpend & Hrds).
  wp_step. rewrite (sh_list _ _ (sm_shapes _ _ Hs1)). cbn [a_list with_alocked]. split; [by apply bool_decide_eq_true|].
  eapply wp_set_list; [done|]. intros w2 Hs2 _. wp_step. eapply wp_write_at; [done..|]. cbn [w_buf w_rp_list]. wp_step.
  set (a2 := with_alist (remove_from port (a_list a)) a).
  set (af := fold_left (fun a p => cancel_reader p a) rds a2).
  assert (forall p, p ∈ rds -> has_queue a2 p /\ exists q c wr g, a_objs a2 !! p = Some (ARead q c wr g) /\ (g ≠ 0 -> has_queue a2 g)) as Hready.
  { intros p Hp. destruct (Hrds p Hp) as (q & c & g & Ho). split.
    - destruct (live_queue a p _ Hwf Ho) as [l Hl]; [done|by exists l].
    - exists q, c, port, g. split; [done|]. intros Hg. destruct (wf_links _ Hwf _ _ Ho) as [_ Hgr]. destruct (Hgr Hg) as [l Hl].
      destruct (live_queue a g _ Hwf Hl) as [ts Hts]; [done|by exists ts]. }
  assert (forall w3, sim (with_alocked true af) w3 -> (pd ≠ None -> rds = []) ->
    wp (_ ← upd_write port (set_w_magic 0); _ ← thread_unlock (a_locked a); _ ← free_buf (pending_queue pd); _ ← free_object port; mret NO_ERROR) w3
      (fun r w' => does r w' (NO_ERROR, del_obj port af))) as Hend.
  { intros w3 Hs3 Hrd. destruct (cancel_all rds a2) as [Ho Hl Hk Hlo _]. fold af in Ho, Hl, Hk, Hlo.
    assert (a_objs af !! port = Some (AWrite n m false pd rds)) as Hpf.
    { rewrite Ho, decide_False; [exact Hx|]. intros Hi. destruct (Hrds _ Hi) as (? & ? & ? & ?). congruence. }
    unfold upd_write. wp_step. eapply wp_write_at; [done..|]. unfold set_object, upd_ports. wp_step.
    (* the buffer, if there is one, is given up before the object *)
    destruct pd as [q|]; cbn [pending_queue].
    - destruct (wf_queues _ Hwf _ _ Hx : queue_ok q) as (Hq0 & _).
      assert (is_Some (p_bufs (w_ports w3) !! q_addr q)) as Hbuf by (exact (sim_owned _ w3 port _ Hs3 Hpf Hq0)).
      apply (sim_lost _ _ (q_addr q)) in Hs3; [|done].
      eapply (sim_put _ w3 port _ ADead) in Hs3; [|exact Hpf|exact I|left; right; left; cbn; set_solver|by intros []].
      eapply wp_set_locked; [exact Hs3|]. intros w4 Hs4 _. wp_step.
      eapply (wp_free_own (with_alocked (a_locked a) (put_obj port ADead af))); [exact Hs4|done| | |].
      + cbn. rewrite Hlo. exact (wf_lost _ Hwf _ _ Hx Hq0).
      + apply (not_owned_put af port (AWrite n m false (Some q) rds)); [|done..]. unfold af. rewrite (Hrd ltac:(done)). exact (wf_buf _ Hwf).
      + intros w5 Hs5 _. wp_step. eapply wp_free_object; [done|apply lookup_insert_eq|by left|]. intros w6 Hs6 _. wp_step. split; [done|].
        eapply sim_weq; [exact Hs6|..]; cbn; [by rewrite delete_insert_eq|done|by rewrite Hk|done..].
    - eapply (sim_put _ w3 port _ ADead) in Hs3; [|exact Hpf|exact I|by right|by intros []].
      eapply wp_set_locked; [exact Hs3|]. intros w4 Hs4 _. wp_step. apply free_buf_null. wp_step.
      eapply wp_free_object; [done|apply lookup_insert_eq|by left|]. intros w6 Hs6 _. wp_step. split; [done|].
      eapply sim_weq; [exact Hs6|..]; cbn; [by rewrite delete_insert_eq|done|by rewrite Hk|done..]. }
  destruct pd as [q|].
  - cbn [pending_queue] in *. destruct (wf_queues _ Hwf _ _ Hx : queue_ok q) as (Hq0 & _). rewrite (proj2 (Z.eqb_neq _ 0) Hq0). cbn [negb]. rewrite wp_ret.
    assert (rds = []) as Hrd by (destruct rds; [done|]; assert (Some q = None) by (by apply Hpend); done). 
    apply Hend; [|done]. unfold af. rewrite Hrd. exact Hs2.
  - change (negb (pending_queue None =? 0)) with false. cbn iota. eapply (wp_cancel_readers true rds _ a2); [exact Hs2|exact Hready|].
    intros w3 Hs3. by apply Hend.
Qed.

(** * Closing *)

Lemma writer_one a p wr n m op pd rds : awf a -> a_objs a !! wr = Some (AWrite n m op pd rds) -> p ∈ rds ->
  forall wr' n' m' op' pd' rds', a_objs a !! wr' = Some (AWrite n' m' op' pd' rds') -> p ∈ rds' -> wr' = wr.
Proof.
  intros Hwf Hp Hin wr' n' m' op' pd' rds' Hp' Hin'. destruct (wf_links _ Hwf _ _ Hp) as (_ & _ & _ & H1).
  destruct (wf_links _ Hwf _ _ Hp') as (_ & _ & _ & H2). destruct (H1 _ Hin) as (? & ? & ? & E1). destruct (H2 _ Hin') as (? & ? & ? & E2). congruence.
Qed.

(** The reader leaves its writer; what is left of it is [AClosing]. *)
Lemma wp_leave_writer a w p q c wr g (Q : Z -> world -> Prop) : sim (with_alocked true a) w -> awf a -> a_objs a !! p = Some (ARead q c wr g) ->
  (forall b a' w', leave_writer p wr q a = (b, a') -> sim (with_alocked true (put_obj p (AClosing b) a')) w' -> w_wait w' = w_wait w -> Q b w') ->
  wp (if negb (wr =? 0) then
        _ ← delete_w_node p;
        wp ← write_at wr;
        if bool_decide (w_rp_list wp = []) then _ ← upd_write wr (set_w_buf (q_addr q)); _ ← upd_read p (set_r_buf 0); mret 0
        else mret (q_addr q)
      else mret 0) w Q.
Proof.
  intros Hs Hwf Hp HQ. destruct (wf_queues _ Hwf _ _ Hp : queue_ok q) as (Hq0 & _). destruct (wf_links _ Hwf _ _ Hp) as [Hw _].
  assert (holds_queue (p_bufs (w_ports w)) q) as Hh.
  { destruct (sim_obj _ w p _ Hs Hp) as (o & _ & _ & Hq). exact Hq. }
  destruct (Z.eqb_spec wr 0) as [->|Hwr]; cbn [negb].
  - wp_step. eapply HQ; [unfold leave_writer; by rewrite (wf_null _ Hwf)| |done].
    eapply (sim_relabel (with_alost ({[q_addr q]} ∪ a_lost a) (with_alocked true a)) w p (ARead q c 0 g) (AClosing 0)).
    + apply (sim_lost (with_alocked true a)); [done|]. exact (sim_owned _ w p _ Hs Hp Hq0).
    + exact Hp.
    + intros o [-> _]. by eexists.
    + left. right. left. cbn. set_solver.
    + by intros [].
  - destruct (Hw Hwr) as (n & m & op & pd & rds & Hx & Hin). destruct (wf_links _ Hwf _ _ Hx) as (_ & _ & Hpend & _).
    assert (pd = None) as -> by (apply Hpend; intros ->; by apply not_elem_of_nil in Hin). assert (p ≠ wr) as Hne by congruence.
    unfold leave_writer in HQ. rewrite Hx in HQ. cbn zeta in HQ.
    wp_step. eapply (wp_delete_w_node _ w p wr n m op None rds); [done|exact Hx|done|exact (no_dead a Hwf)|exact (writer_one a p wr n m op None rds Hwf Hx Hin)|].
    intros w1 Hs1 Hk1. wp_step. eapply wp_write_at; [done|apply lookup_insert_eq|]. cbn [w_rp_list].
    case_bool_decide as Hrd.
    + wp_step. assert (a_objs (put_obj wr (AWrite n m op None (remove_from p rds)) (with_alocked true a)) !! p = Some (ARead q c wr g)) as Hp1.
      { cbn. by rewrite lookup_insert_ne. }
      destruct (sim_obj _ w1 p _ Hs1 Hp1) as (o1 & _ & _ & Hh1).
      eapply (wp_upd_write _ w1 wr n m op None (remove_from p rds) op (Some q) (remove_from p rds)); [done|apply lookup_insert_eq|done|by intros ? [= <-]|by left|].
      intros w2 Hs2 Hk2 _. rewrite put_obj_twice in Hs2. wp_step. unfold upd_read. wp_step.
      eapply wp_read_at; [done|cbn; by rewrite lookup_insert_ne|]. unfold set_object, upd_ports. wp_step.
      eapply HQ; [done| |cbn; congruence]. apply (sim_put (put_obj wr (AWrite n m op (Some q) (remove_from p rds)) (with_alocked true a)) w2 p (ARead q c wr g) (AClosing 0));
        [exact Hs2|cbn; by rewrite lookup_insert_ne|by eexists| |by intros []].
      left. right. right. exists wr, (AWrite n m op (Some q) (remove_from p rds)). split; [done|]. split; [apply lookup_insert_eq|done].
    + wp_step. eapply HQ; [done| |done].
      eapply (sim_relabel (put_obj wr (AWrite n m op None (remove_from p rds)) (with_alocked true a)) w1 p (ARead q c wr g) (AClosing (q_addr q))).
      * done.
      * cbn. by rewrite lookup_insert_ne.
      * intros o [-> _]. by eexists.
      * by right.
      * intros Hb. apply (sim_owned _ w1 p (ARead q c wr g) Hs1); [cbn; by rewrite lookup_insert_ne|done].
Qed.

Lemma close_does a w port : abs a w -> allowed a (CClose port) = true -> wait_may_switch (w_wait w) ->
  wp (port_close port) w (fun o w' => o = fst (spec_close port a) /\ sim (snd (spec_close port a)) w').
Proof.
  intros [Hwf Hs] Hok Hm. cbn [allowed] in Hok. apply andb_true_iff in Hok as [Hok _]. apply andb_true_iff in Hok as [Hp Hat].
  unfold port_close, spec_close.
  destruct (alive_obj a port Hp) as [->|(Hp0 & x & Hx & Hcl)]; [by wp_step|]. rewrite (proj2 (Z.eqb_neq port 0) Hp0), Hx.
  wp_step. eapply wp_lock; [done|]. intros w1 Hs1 Hk1. wp_step. eapply wp_magic_at; [done..|].
  destruct x as [n m op pd rds|q c wr g|l|b|]; cbn [amagic]; [| | |done..].
  - destruct op; cbn [negb].
    + change (WRITEPORT_MAGIC_W =? READPORT_MAGIC) with false. change (WRITEPORT_MAGIC_W =? PORTGROUP_MAGIC) with false.
      change (WRITEPORT_MAGIC_W =? WRITEPORT_MAGIC_W) with true. cbn iota. wp_step.
      eapply (wp_set_write _ _ port n m true pd rds false rds); [done..|]. intros w2 Hs2 _. wp_step.
      eapply wp_set_locked; [done|]. intros w3 Hs3 _. wp_step. split; [done|]. by apply (sim_unlock (put_obj port (AWrite n m false pd rds) a)).
    + change (WRITEPORT_MAGIC_X =? READPORT_MAGIC) with false. change (WRITEPORT_MAGIC_X =? PORTGROUP_MAGIC) with false.
      change (WRITEPORT_MAGIC_X =? WRITEPORT_MAGIC_W) with false. cbn iota. wp_step.
      eapply wp_set_locked; [done|]. intros w3 Hs3 _. wp_step. split; [done|]. by apply sim_unlock.
  - change (READPORT_MAGIC =? READPORT_MAGIC) with true. cbn iota. wp_step. eapply wp_read_at; [done..|]. cbn [r_wport r_buf r_gport]. wp_step.
    destruct (live_queue a port _ Hwf Hx) as [ts Hts]; [done|].
    eapply (wp_leave_writer a w1 port q c wr g); [done..|]. intros b a' w2 Hleave Hs2 Hk2. rewrite Hleave. wp_step.
    assert (a_waiting a' = a_waiting a /\ (forall p o, a_objs a !! p = Some o -> (match o with AWrite _ _ _ _ _ => False | _ => True end) -> a_objs a' !! p = Some o) /\
      (forall x, a_objs a' !! x ≠ Some ADead) /\
      (forall p l, a_objs a' !! p = Some (AGroup l) -> a_objs a !! p = Some (AGroup l))) as (Hw' & Hsame & Hdead & Hgroups).
    { unfold leave_writer in Hleave. pose proof (no_dead a Hwf) as Hd0. destruct (a_objs a !! wr) as [[n m op pd rds| | | |]|] eqn:Hwr; try (injection Hleave as <- <-; by split_and!).
      destruct (bool_decide _); (injection Hleave as <- <-; cbn; split_and!;
        [done|intros y o Ho; rewrite lookup_insert; case_decide; [subst; rewrite Ho in Hwr; by simplify_eq|done]
        |intros y; rewrite lookup_insert; by case_decide|intros y l; rewrite lookup_insert; by case_decide]). }
    assert (forall w3, sim (with_alocked true (put_obj port (AClosing b) (leave_group port g a'))) w3 -> w_wait w3 = w_wait w ->
      wp (_ ← on_wait (wait_destroy port); _ ← switch_away; mret (CloseSwitched (ClosingRead (a_locked a) b))) w3
        (fun o w' => o = CloseSwitched (ClosingRead (a_locked a) b) /\
          sim (with_alocked false (put_waiting port (Some []) (put_obj port (AClosing b) (leave_group port g a')))) w')) as Hend.
    { intros w3 Hs3 Hk3. wp_step. eapply (wp_wait_destroy _ w3 port ts); [exact Hs3| |by rewrite Hk3|].
      - rewrite <- Hts, <- Hw'. unfold leave_group. by destruct (a_objs a' !! g) as [[| | | |]|].
      - intros w4 Hs4. wp_step. eapply wp_set_locked; [exact Hs4|]. intros w5 Hs5 _. by wp_step. }
    destruct (Z.eqb_spec g 0) as [->|Hg0]; cbn [negb when].
    + rewrite wp_ret. apply Hend; [|congruence]. assert (leave_group port 0 a' = a') as ->; [|done].
      unfold leave_group. destruct (a_objs a' !! 0) as [[| |l| |]|] eqn:E; try done. apply Hgroups in E. by rewrite (wf_null _ Hwf) in E.
    + unfold attached in Hat. rewrite Hx, (proj2 (Z.eqb_neq g 0) Hg0) in Hat. cbn [orb] in Hat.
      destruct (a_objs a !! g) as [[| |l| |]|] eqn:Hg; try done. apply bool_decide_eq_true in Hat. assert (g ≠ port) as Hne by congruence.
      pose proof (Hsame g _ Hg I) as Hg'.
      eapply (wp_delete_g_node _ w2 port g l); [exact Hs2|cbn; by rewrite lookup_insert_ne|done| | |].
      * intros y. cbn. rewrite lookup_insert. by case_decide.
      * intros g' l' Hg1 Hin. cbn in Hg1. rewrite lookup_insert in Hg1. case_decide; [done|]. apply Hgroups in Hg1. by eapply member_one.
      * intros w3 Hs3 Hk3. apply Hend; [|congruence]. unfold leave_group. rewrite Hg'. rewrite put_obj_comm by done. exact Hs3.
  - change (PORTGROUP_MAGIC =? READPORT_MAGIC) with false. change (PORTGROUP_MAGIC =? PORTGROUP_MAGIC) with true. cbn iota. wp_step.
    destruct (live_queue a port _ Hwf Hx) as [ts Hts]; [done|].
    eapply (wp_wait_destroy _ w1 port ts); [exact Hs1|done|by rewrite Hk1|]. intros w2 Hs2. wp_step.
    eapply wp_set_locked; [exact Hs2|]. intros w3 Hs3 _. by wp_step.
Qed.

Lemma close_resumed_does a w port c : abs a w -> allowed a (CCloseResumed port c) = true ->
  wp (port_close_resumed port c) w (fun r w' => does r w' (spec_close_resumed port c a)).
Proof.
  intros [Hwf Hs] Hok. cbn [allowed] in Hok. apply andb_true_iff in Hok as [Hwt Hok]. apply bool_decide_eq_true in Hwt.
  unfold port_close_resumed, spec_close_resumed. wp_step. eapply wp_set_locked; [exact Hs|]. intros w1 Hs1 _. wp_step.
  eapply (wp_wait_retire _ w1 port); [exact Hs1|done|]. intros w2 Hs2.
  destruct (a_objs a !! port) as [[n m op pd rds|q cx wr g|l|b|]|] eqn:Hx; try done; destruct c as [state buf|state]; try done.
  - wp_step. eapply wp_group_at; [exact Hs2|exact Hx|]. cbn [g_rp_list]. wp_step.
    eapply wp_clear_gports; [exact Hs2| |].
    { intros p Hp. destruct (group_member a port l p Hwf Hx Hp) as (q & cx & wr & Ho). by exists q, cx, wr, port. }
    intros w3 Hs3 _. wp_step. rewrite fold_set_group in Hs3. 
    assert (a_objs (with_aobjs (map_imap (fun p x => Some (if decide (p ∈ l) then regroup 0 x else x)) (a_objs a)) a) !! port = Some (AGroup l)) as Hg.
    { cbn. rewrite map_lookup_imap, Hx. cbn. by case_decide. }
    rewrite fold_set_group. set (ac := with_aobjs _ a) in *.
    unfold upd_group. wp_step. eapply wp_group_at; [exact Hs3|exact Hg|]. unfold set_object, upd_ports. wp_step.
    eapply (sim_put _ w3 port (AGroup l) ADead) in Hs3; [|exact Hg|exact I|by right|by intros []].
    eapply wp_set_locked; [exact Hs3|]. intros w4 Hs4 _. wp_step.
    eapply wp_free_waited; [exact Hs4|apply lookup_insert_eq|by left|left; cbn; unfold set_queue; by rewrite Z.eqb_refl|].
    intros w5 Hs5. wp_step. split; [done|]. eapply sim_weq; [exact Hs5|..]; cbn; try done; [by rewrite delete_insert_eq|].
    intros p'. unfold set_queue. by case_if.
  - apply Z.eqb_eq in Hok as <-. wp_step. unfold upd_read. wp_step. eapply wp_closing_at; [exact Hs2|exact Hx|]. intros r.
    unfold set_object, upd_ports. wp_step.
    assert (forall w3, sim (put_obj port (AClosing 0) (put_waiting port None (with_alocked state a))) w3 ->
      wp (_ ← free_waited port; mret NO_ERROR) w3 (fun r w' => does r w' (NO_ERROR, with_alocked state (put_waiting port None (del_obj port a))))) as Hend.
    { intros w3 Hs3. wp_step. eapply wp_free_waited; [exact Hs3|apply lookup_insert_eq|by left|left; cbn; unfold set_queue; by rewrite Z.eqb_refl|].
      intros w4 Hs4. wp_step. split; [done|]. eapply sim_weq; [exact Hs4|..]; cbn; try done; [by rewrite delete_insert_eq|].
      intros p'. unfold set_queue. by case_if. }
    destruct (Z.eq_dec b 0) as [->|Hb0].
    + eapply (sim_put _ w2 port (AClosing 0) (AClosing 0)) in Hs2; [|exact Hx|by eexists|by right|by intros []].
      eapply wp_set_locked; [exact Hs2|]. intros w3 Hs3 _. wp_step. apply free_buf_null. by apply Hend.
    + pose proof (sim_owned _ w2 port _ Hs2 Hx Hb0) as Hbuf. apply (sim_lost _ _ b) in Hs2; [|exact Hbuf].
      eapply (sim_put _ w2 port (AClosing b) (AClosing 0)) in Hs2; [|exact Hx|by eexists|left; right; left; cbn; set_solver|by intros []].
      eapply wp_set_locked; [exact Hs2|]. intros w3 Hs3 _. wp_step.
      eapply (wp_free_own (put_obj port (AClosing 0) (put_waiting port None (with_alocked state a)))); [exact Hs3|done| | |].
      * exact (wf_lost _ Hwf _ _ Hx Hb0).
      * by apply (not_owned_put a port (AClosing b) (AClosing 0)); [exact (wf_buf _ Hwf)|..].
      * intros w4 Hs4 _. by apply Hend.
Qed.
End props.
End PortClose.
