(* ===== verification/PortWf.v ===== *)
(** The calls keep the invariant [awf] of abstract port systems. *)
From S2P Require Import Prelude WaitLib Port PortSpec PortSim PortMake PortXfer.
Local Open Scope Z_scope.

Module PortWf.
Import WaitLib Port PortSpec PortSim PortMake PortXfer PortClose.

(** * Changes that keep every link *)

(** The two objects have the same links and the same buffer. *)
Inductive like : aport -> aport -> Prop :=
  | like_write n m op op' pd pd' rds : (pd = None <-> pd' = None) -> pending_queue pd = pending_queue pd' ->
      like (AWrite n m op pd rds) (AWrite n m op' pd' rds)
  | like_read q q' c w g : q_addr q = q_addr q' -> like (ARead q c w g) (ARead q' c w g)
  | like_other x : like x x.

Lemma like_sym x y : like x y -> like y x.
Proof. intros []; constructor; by try symmetry. Qed.

Lemma like_buf x y : like x y -> buf_of x = buf_of y.
Proof. by intros []. Qed.

Record alike (a a' : aports) : Prop := {
  al_objs p : match a_objs a !! p, a_objs a' !! p with Some x, Some y => like x y | None, None => True | _, _ => False end;
  al_list : a_list a' = a_list a;
  al_lost : a_lost a' = a_lost a;
  al_waiting p : is_Some (a_waiting a' p) <-> is_Some (a_waiting a p)
}.

Lemma alike_back a a' p y : alike a a' -> a_objs a' !! p = Some y -> exists x, a_objs a !! p = Some x /\ like x y.
Proof. intros Ha Hp. pose proof (al_objs _ _ Ha p) as Ho. rewrite Hp in Ho. destruct (a_objs a !! p) as [x|]; [by exists x|done]. Qed.

Lemma alike_sym a a' : alike a a' -> alike a' a.
Proof.
  intros []. split; try done. intros p. specialize (al_objs0 p). destruct (a_objs a !! p), (a_objs a' !! p); try done. by apply like_sym.
Qed.

Lemma alike_read a a' p q c w g : alike a a' -> a_objs a !! p = Some (ARead q c w g) -> exists q', a_objs a' !! p = Some (ARead q' c w g).
Proof. intros Ha Hp. destruct (alike_back a' a p _ (alike_sym _ _ Ha) Hp) as (x & Hx & Hl). inversion Hl; subst; by eexists. Qed.

Lemma alike_write a a' p n m op pd rds : alike a a' -> a_objs a !! p = Some (AWrite n m op pd rds) ->
  exists op' pd', a_objs a' !! p = Some (AWrite n m op' pd' rds).
Proof. intros Ha Hp. destruct (alike_back a' a p _ (alike_sym _ _ Ha) Hp) as (x & Hx & Hl). inversion Hl; subst; by eexists _, _. Qed.

Lemma alike_group a a' p l : alike a a' -> a_objs a !! p = Some (AGroup l) -> a_objs a' !! p = Some (AGroup l).
Proof. intros Ha Hp. destruct (alike_back a' a p _ (alike_sym _ _ Ha) Hp) as (x & Hx & Hl). by inversion Hl; subst. Qed.

Lemma alike_awf a a' : awf a -> alike a a' -> (forall p o, a_objs a' !! p = Some o -> queues_ok o) -> awf a'.
Proof.
  intros Hwf Ha Hq. pose proof (fun p y => alike_back a a' p y Ha) as Hback. split.
  - destruct (a_objs a' !! 0) as [y|] eqn:E; [|done]. destruct (Hback 0 y E) as (x & Hx & _). by rewrite (wf_null _ Hwf) in Hx.
  - intros p y Hy. destruct (Hback p y Hy) as (x & Hx & Hl). pose proof (wf_links _ Hwf p x Hx) as Hk.
    assert (well_linked a' p x) as Hk'.
    { destruct x as [n m op pd rds|q c w g|l|b|]; cbn in *; try done.
      - destruct Hk as (? & ? & ? & Hr). rewrite (al_list _ _ Ha). split_and!; [done..|]. intros r Hin. destruct (Hr r Hin) as (q & c & g & Ho).
        destruct (alike_read a a' r q c p g Ha Ho) as [q' ?]. eauto.
      - destruct Hk as [Hw Hg]. split; [intros Hw0; destruct (Hw Hw0) as (n & m & op & pd & rds & Ho & Hin)|intros Hg0; destruct (Hg Hg0) as [l Ho]].
        + destruct (alike_write a a' w n m op pd rds Ha Ho) as (op' & pd' & ?). by exists n, m, op', pd', rds.
        + exists l. by apply (alike_group a a').
      - destruct Hk as [? Hr]. split; [done|]. intros r Hin. destruct (Hr r Hin) as (q & c & w & Ho).
        destruct (alike_read a a' r q c w p Ha Ho) as [q' ?]. eauto. }
    destruct Hl as [n m op op' pd pd' rds Hpd _|q q' c w g _|x]; cbn in *; [|done..]. destruct Hk' as (? & ? & Hp & ?). split_and!; try done.
    by rewrite <- Hpd.
  - intros p. rewrite (al_list _ _ Ha). intros Hp. destruct (wf_list _ Hwf p Hp) as (n & m & op & pd & rds & Ho).
    destruct (alike_write a a' p n m op pd rds Ha Ho) as (op' & pd' & ?). eauto 6.
  - rewrite (al_list _ _ Ha). apply Hwf.
  - intros p p' n m op pd rds m' op' pd' rds' Hp Hp'. destruct (alike_write a' a p _ _ _ _ _ (alike_sym _ _ Ha) Hp) as (? & ? & ?).
    destruct (alike_write a' a p' _ _ _ _ _ (alike_sym _ _ Ha) Hp') as (? & ? & ?). by eapply (wf_names _ Hwf).
  - exact Hq.
  - intros p p' o o' Hp Hp' Hb Hb0. destruct (Hback p o Hp) as (x & Hx & Hl). destruct (Hback p' o' Hp') as (x' & Hx' & Hl').
    apply like_buf in Hl, Hl'. apply (wf_buf _ Hwf p p' x x'); congruence.
  - intros p o Hp. destruct (Hback p o Hp) as (x & Hx & Hl). rewrite (al_lost _ _ Ha), <- (like_buf _ _ Hl). by apply (wf_lost _ Hwf p).
  - intros p. rewrite (al_waiting _ _ Ha), (wf_waiting _ Hwf). split; intros (o & Ho & Hw).
    + destruct (alike_back a' a p o (alike_sym _ _ Ha) Ho) as (y & Hy & Hl). exists y. split; [done|]. by destruct Hl.
    + destruct (Hback p o Ho) as (x & Hx & Hl). exists x. split; [done|]. by destruct Hl.
Qed.

Lemma awf_locked a b : awf a -> awf (with_alocked b a).
Proof. intros []. by split. Qed.

Lemma awf_unlocked a b : awf (with_alocked b a) -> awf a.
Proof. intros []. by split. Qed.

(** Threads come and go on queues that are there. *)
Lemma awf_waiting a p l : awf a -> is_Some (a_waiting a p) -> awf (put_waiting p (Some l) a).
Proof.
  intros [] Hp. split; try done. intros p'. cbn. rewrite <- wf_waiting0. unfold set_queue. destruct (Z.eqb_spec p' p) as [->|]; [|done].
  split; [done|]. by intros _.
Qed.

Lemma awf_waiting_map a p f : awf a -> awf (put_waiting p (f <$> a_waiting a p) a).
Proof.
  intros Hwf. destruct (a_waiting a p) as [l|] eqn:E; cbn; [apply awf_waiting; [done|by eexists]|].
  destruct Hwf. split; try done. intros p'. cbn. rewrite <- wf_waiting0. unfold set_queue. destruct (Z.eqb_spec p' p) as [->|]; [|done].
  by rewrite E.
Qed.

(** A like object takes the place of another. *)
Lemma awf_put_like a p x y : awf a -> a_objs a !! p = Some x -> like x y -> queues_ok y -> awf (put_obj p y a).
Proof.
  intros Hwf Hp Hl Hq. apply (alike_awf a); [done|split; try done|].
  - intros p'. cbn. rewrite lookup_insert. case_decide; [subst; by rewrite Hp|]. destruct (a_objs a !! p'); [apply like_other|done].
  - intros p' o. cbn. rewrite lookup_insert. case_decide; [by intros [= <-]|]. by apply (wf_queues _ Hwf).
Qed.


(** * Transfers *)

Lemma awf_push a p q q' pk x : awf a -> a_objs a !! p = Some x -> queue_in x q -> push q pk = Some q' -> awf (put_obj p (requeue q' x) a).
Proof.
  intros Hwf Hp Hx Hq. assert (queue_ok q) as Hok.
  { pose proof (wf_queues _ Hwf p x Hp) as Ho. by destruct x as [? ? ? [?|] ?| | | |]; cbn in *; subst. }
  destruct (push_ok _ _ _ Hok Hq) as [Hok' Ha].
  eapply awf_put_like; [done..| |]; destruct x as [? ? ? [?|] ?| | | |]; cbn in *; try done; subst; by constructor.
Qed.

Lemma awf_wake a p g : awf a -> awf (wake_reader p g a).
Proof. intros. unfold wake_reader. destruct (_ && _); by apply awf_waiting_map. Qed.

Lemma write_awf a port pk : awf a -> awf (snd (spec_write port pk a)).
Proof.
  intros Hwf. unfold spec_write. destruct pk as [pk|]; [|done]. destruct (port =? 0); [done|].
  destruct (a_objs a !! port) as [[n m [] [q|] rds| | | |]|] eqn:Hp; try done.
  - destruct (push q pk) as [q'|] eqn:Hq; [|done]. by apply (awf_push a port q q' pk (AWrite n m true (Some q) rds)).
  - clear Hp. generalize NO_ERROR. revert a Hwf. induction rds as [|p rds IH]; intros a Hwf z; cbn [fold_left]; [done|].
    unfold spec_write_reader at 2. cbn [fst snd]. destruct (a_objs a !! p) as [[|q c w g| | |]|] eqn:Hp; try by apply IH.
    destruct (push q pk) as [q'|] eqn:Hq; apply IH; [|done]. apply awf_wake. by apply (awf_push a p q q' pk (ARead q c w g)).
Qed.

Lemma take_awf a p result : awf a -> awf (snd (spec_take p result a)).
Proof.
  intros Hwf. unfold spec_take. destruct (a_objs a !! p) as [[|q c w g| | |]|] eqn:Hp; try done. destruct (q_items q) as [|x l] eqn:Hi; [done|].
  cbn [snd]. eapply awf_put_like; [done..|by constructor|]. destruct (wf_queues _ Hwf _ _ Hp : queue_ok q) as (? & ? & Hl). rewrite Hi in Hl.
  split_and!; cbn in *; [done..|lia].
Qed.

Lemma take_any_awf a l result : awf a -> awf (snd (spec_take_any l result a)).
Proof.
  revert result. induction l as [|p l IH]; intros result Hwf; cbn [spec_take_any]; [done|].
  pose proof (take_awf a p result Hwf) as Ht. destruct (spec_take p result a) as [[[] r] a'] eqn:E; [done|].
  apply spec_take_same in E as ->. by apply IH.
Qed.

Lemma read_locked_awf a group p timeout state self result : awf a -> awf (snd (spec_read_locked group p timeout state self result a)).
Proof.
  intros Hwf. unfold spec_read_locked.
  assert (awf (snd (if group then match a_objs a !! p with Some (AGroup l) => spec_take_any l result a | _ => (false, result, a) end else spec_take p result a))) as Ha.
  { destruct group; [destruct (a_objs a !! p) as [[| | | |]|]; try done; by apply take_any_awf|by apply take_awf]. }
  destruct (if group then _ else _) as [[found r] a']. cbn [snd] in Ha. destruct found; [|destruct (timeout =? 0)]; cbn [snd]; try by apply awf_locked.
  apply awf_locked. by apply awf_waiting_map.
Qed.

Lemma read_awf a p timeout result self : awf a -> awf (snd (spec_read p timeout result self a)).
Proof.
  intros Hwf. unfold spec_read. destruct result as [result|]; [|done]. destruct (p =? 0); [done|].
  destruct (a_objs a !! p) as [[| | | |]|]; try done; by apply read_locked_awf.
Qed.

Lemma read_resumed_awf a group p timeout state result wr self : awf a -> awf (snd (spec_read_resumed group p timeout state result wr self a)).
Proof. intros Hwf. unfold spec_read_resumed. destruct (negb _); [by apply awf_locked|by apply read_locked_awf]. Qed.

(** * New objects *)

Lemma links_new a p x p' o : a_objs a !! p = None -> well_linked a p' o -> well_linked (put_obj p x a) p' o.
Proof.
  intros Hp. assert (forall r y, a_objs a !! r = Some y -> a_objs (put_obj p x a) !! r = Some y) as Hk.
  { intros r y Hr. cbn. rewrite lookup_insert_ne; [done|congruence]. }
  destruct o as [n m op pd rds|q c w g|l|b|]; cbn [well_linked]; try done.
  - intros (? & ? & ? & Hr). split_and!; [done..|]. intros r Hin. destruct (Hr r Hin) as (q & c & g & ?). eauto.
  - intros [Hw Hg]. split; [intros Hw0; destruct (Hw Hw0) as (n & m & op & pd & rds & ? & ?); eauto 10|intros Hg0; destruct (Hg Hg0) as [l ?]; eauto].
  - intros [? Hr]. split; [done|]. intros r Hin. destruct (Hr r Hin) as (q & c & w & ?). eauto.
Qed.

(** An object without a buffer that has a wait queue. *)
Lemma awf_new_waited a p x : awf a -> a_objs a !! p = None -> p ≠ 0 -> x = AGroup [] \/ x = AClosing 0 -> awf (put_waiting p (Some []) (put_obj p x a)).
Proof.
  intros Hwf Hp Hp0 Hx. pose proof Hwf as []. split; cbn; try done.
  - by rewrite lookup_insert_ne.
  - intros p' o. rewrite lookup_insert. case_decide.
    + intros [= <-]. destruct Hx as [-> | ->]; [|done]. split; [apply NoDup_nil_2|]. intros r Hr. by apply not_elem_of_nil in Hr.
    + intros Ho. apply (links_new a p x p' o); [done|]. by apply wf_links0.
  - intros p' Hin. destruct (wf_list0 p' Hin) as (n & m & op & pd & rds & Ho). exists n, m, op, pd, rds. rewrite lookup_insert_ne; [done|congruence].
  - intros p1 p2 n m op pd rds m' op' pd' rds'. rewrite !lookup_insert. case_decide; [intros [= ->]; by destruct Hx|]. case_decide; [intros ? [= ->]; by destruct Hx|]. apply wf_names0.
  - intros p' o. rewrite lookup_insert. case_decide; [intros [= <-]; by destruct Hx as [-> | ->]|apply wf_queues0].
  - intros p1 p2 o1 o2. cbn. rewrite !lookup_insert. assert (buf_of x = 0) as Hb by (by destruct Hx as [-> | ->]).
    case_decide; [intros [= <-]; congruence|]. case_decide; [intros ? [= <-]; congruence|]. apply wf_buf0.
  - intros p' o. rewrite lookup_insert. case_decide; [|apply wf_lost0]. intros [= <-]. by destruct Hx as [-> | ->].
  - intros p'. unfold set_queue. destruct (Z.eqb_spec p' p) as [->|Hne].
    + rewrite lookup_insert_eq. split; [|by eexists]. intros _. exists x. split; [done|]. by destruct Hx as [-> | ->].
    + rewrite wf_waiting0, lookup_insert_ne by done. done.
Qed.

Lemma afind_none a l name : afind a l name = None -> forall p n m op pd rds, p ∈ l -> a_objs a !! p = Some (AWrite n m op pd rds) -> n ≠ name.
Proof.
  induction l as [|x l IH]; cbn; [intros _ ? ? ? ? ? ? Hin; by apply not_elem_of_nil in Hin|].
  intros Hf p n m op pd rds [->|Hin]%elem_of_cons Hp.
  - rewrite Hp in Hf. case_bool_decide; done.
  - eapply IH; [|done..]. destruct (a_objs a !! x) as [[| | | |]|]; try done. by case_bool_decide.
Qed.

Lemma new_buf_other a b p o : ~ owned a b -> a_objs a !! p = Some o -> buf_of o ≠ 0 -> buf_of o ≠ b.
Proof. intros Ho Hp Hb0 <-. apply Ho. split; [done|]. by exists p, o. Qed.

Lemma create_awf a name mode port p1 p2 : awf a -> new_obj a p1 -> new_buffer a p2 -> awf (snd (spec_create name mode port p1 p2 a)).
Proof.
  intros Hwf Hn1 Hn2. unfold spec_create. destruct name as [name|]; [|done]. destruct (_ || _); [done|].
  destruct (afind a (a_list a) name) as [[p [|]]|] eqn:Hf; [done..|].
  destruct (Z.eqb_spec p1 0) as [->|Hp0]; [done|]. destruct (Z.eqb_spec p2 0) as [->|Hb0]; [done|]. cbn [orb snd].
  pose proof (Hn1 Hp0) as Hp. destruct (Hn2 Hb0) as [Hown Hlost]. set (x := AWrite name mode true (Some (MkQueue p2 (cap_of mode) [])) []).
  assert (forall p', p' ∈ a_list a -> p' ≠ p1) as Hne.
  { intros p' Hin ->. destruct (wf_list _ Hwf p1 Hin) as (? & ? & ? & ? & ? & ?). congruence. }
  pose proof (afind_none _ _ _ Hf) as Hnames. pose proof Hwf as []. split; cbn.
  - by rewrite lookup_insert_ne.
  - intros p' o. rewrite lookup_insert. case_decide as E.
    + intros [= <-]. subst p'. split; [set_solver|]. split; [apply NoDup_nil_2|]. split; [done|]. intros r Hr. by apply not_elem_of_nil in Hr.
    + intros Ho. pose proof (links_new a p1 x p' o Hp (wf_links0 _ _ Ho)) as Hl. destruct o; cbn in *; try done.
      destruct Hl as (? & ? & ? & ?). split_and!; [set_solver|done..].
  - intros p' [Hin|Hin]%elem_of_app.
    + destruct (wf_list0 p' Hin) as (n & m & op & pd & rds & Ho). exists n, m, op, pd, rds. rewrite lookup_insert_ne; [done|congruence].
    + apply list_elem_of_singleton in Hin as ->. rewrite lookup_insert_eq. by eexists _, _, _, _, _.
  - apply NoDup_app. split; [done|]. split; [|apply NoDup_singleton]. intros p' Hin Hin'. apply list_elem_of_singleton in Hin'. by apply (Hne p').
  - assert (forall p' n m op pd rds, a_objs a !! p' = Some (AWrite n m op pd rds) -> n ≠ name) as Hn.
    { intros p' n m op pd rds Ho. destruct (wf_links0 _ _ Ho) as (Hin & _). by eapply Hnames. }
    intros q1 q2 n m op pd rds m' op' pd' rds'. rewrite !lookup_insert. repeat case_decide; subst; [done| | |by apply wf_names0].
    + intros Hx Ho. unfold x in Hx. simplify_eq. by destruct (Hn _ _ _ _ _ _ Ho).
    + intros Ho Hx. unfold x in Hx. simplify_eq. by destruct (Hn _ _ _ _ _ _ Ho).
  - intros p' o. rewrite lookup_insert. case_decide; [|apply wf_queues0]. intros [= <-]. split; [done|]. cbn. unfold cap_of.
    destruct (_ =? 0); cbn; lia.
  - intros q1 q2 o1 o2. cbn. rewrite !lookup_insert. repeat case_decide; subst; [done| | |apply wf_buf0].
    + intros [= <-] Ho Hb Hb'. cbn in Hb. by destruct (new_buf_other a p2 q2 o2 Hown Ho); [rewrite <- Hb|].
    + intros Ho [= <-] Hb Hb'. cbn in Hb. by destruct (new_buf_other a p2 q1 o1 Hown Ho).
  - intros p' o. rewrite lookup_insert. case_decide; [|apply wf_lost0]. by intros [= <-].
  - intros p'. rewrite wf_waiting0. rewrite lookup_insert. case_decide; [|done]. subst p'. rewrite Hp. split; intros (o & Ho & Hw); by simplify_eq.
Qed.

(** A reader joins its writer: with the packets waiting there, or with a buffer
    of its own. *)
Lemma awf_join a rp wr n m op pd rds q ctx : awf a -> a_objs a !! rp = Some (AClosing 0) -> a_objs a !! wr = Some (AWrite n m op pd rds) ->
  queue_ok q -> (pd = Some q \/ pd = None /\ ~ owned a (q_addr q) /\ q_addr q ∉ a_lost a) ->
  awf (put_obj rp (ARead q ctx wr 0) (put_obj wr (AWrite n m op None (rds ++ [rp])) a)).
Proof.
  intros Hwf Hrp Hwr Hq Hpd. assert (rp ≠ wr) as Hne by congruence. pose proof Hwf as [].
  destruct (wf_links0 _ _ Hwr) as (Hin & Hnd & Hpn & Hrd).
  assert (rp ∉ rds) as Hnr by (intros Hi; destruct (Hrd rp Hi) as (? & ? & ? & ?); congruence).
  assert (forall p o, a_objs a !! p = Some o -> p ≠ wr -> buf_of o ≠ 0 -> buf_of o ≠ q_addr q) as Hbuf.
  { intros p o Ho Hpw Hb0 Hb. destruct Hpd as [-> |(-> & Hown & _)].
    - apply Hpw. by apply (wf_buf0 p wr o (AWrite n m op (Some q) rds)).
    - by apply (new_buf_other a (q_addr q) p o Hown). }
  split; cbn.
  - rewrite !lookup_insert_ne; [done|congruence..].
  - intros p o. rewrite lookup_insert. case_decide as E1; [subst p|rewrite lookup_insert; case_decide as E2; [subst p|]].
    + intros [= <-]. cbn. split; [|done]. intros _. exists n, m, op, None, (rds ++ [rp]). rewrite lookup_insert_ne, lookup_insert_eq by done. split; [done|set_solver].
    + intros [= <-]. cbn. split; [done|]. split; [apply NoDup_app; split; [done|]; split; [intros ? ? ->%list_elem_of_singleton; done|apply NoDup_singleton]|].
      split; [split; [intros _; by destruct rds|done]|]. intros r [Hi|Hi]%elem_of_app.
      * destruct (Hrd r Hi) as (q' & c' & g' & Ho). exists q', c', g'. rewrite !lookup_insert_ne; [done|congruence..].
      * apply list_elem_of_singleton in Hi as ->. exists q, ctx, 0. by rewrite lookup_insert_eq.
    + intros Ho. pose proof (wf_links0 p o Ho) as Hk. destruct o as [n' m' op' pd' rds'|q' c' w' g'|l'|b'|]; cbn in *; try done.
      * destruct Hk as (? & ? & ? & Hr). split_and!; [done..|]. intros r Hi. destruct (Hr r Hi) as (q' & c' & g' & ?). exists q', c', g'.
        rewrite !lookup_insert_ne; [done|congruence..].
      * destruct Hk as [Hw Hg]. split.
        -- intros Hw0. destruct (Hw Hw0) as (n' & m' & op' & pd' & rds' & Hw' & Hi). destruct (decide (w' = wr)) as [->|Hww].
           ++ simplify_eq. exists n, m, op, None, (rds ++ [rp]). rewrite lookup_insert_ne, lookup_insert_eq by done. split; [done|set_solver].
           ++ exists n', m', op', pd', rds'. rewrite !lookup_insert_ne; [done|congruence..].
        -- intros Hg0. destruct (Hg Hg0) as [l ?]. exists l. rewrite !lookup_insert_ne; [done|congruence..].
      * destruct Hk as [? Hr]. split; [done|]. intros r Hi. destruct (Hr r Hi) as (q' & c' & w' & ?). exists q', c', w'. rewrite !lookup_insert_ne; [done|congruence..].
  - intros p Hi. destruct (wf_list0 p Hi) as (n' & m' & op' & pd' & rds' & Ho). rewrite lookup_insert_ne by congruence. rewrite lookup_insert.
    case_decide; [by eexists _, _, _, _, _|by exists n', m', op', pd', rds'].
  - done.
  - assert (forall p n' m' op' pd' rds', <[rp:=ARead q ctx wr 0]> (<[wr:=AWrite n m op None (rds ++ [rp])]> (a_objs a)) !! p = Some (AWrite n' m' op' pd' rds') ->
      exists m' op' pd' rds', a_objs a !! p = Some (AWrite n' m' op' pd' rds')) as Hold.
    { intros p n' m' op' pd' rds'. rewrite lookup_insert. case_decide; [done|]. rewrite lookup_insert. case_decide; [|by eauto 6].
      intros ?. simplify_eq. by eauto 6. }
    intros p p' n' m' op' pd' rds' m'' op'' pd'' rds'' H1 H2. destruct (Hold _ _ _ _ _ _ H1) as (? & ? & ? & ? & ?). destruct (Hold _ _ _ _ _ _ H2) as (? & ? & ? & ? & ?).
    by eapply wf_names0.
  - intros p o. rewrite lookup_insert. case_decide; [by intros [= <-]|]. rewrite lookup_insert. case_decide; [by intros [= <-]|]. apply wf_queues0.
  - intros p p' o o'. cbn. rewrite !lookup_insert.
    repeat case_decide; subst; try done; intros; simplify_eq/=; try congruence; try done;
      first [by destruct (Hbuf p' o'); congruence|by destruct (Hbuf p o); congruence|by eapply wf_buf0].
  - intros p o. rewrite !lookup_insert. case_decide; [intros [= <-]; cbn; intros _|case_decide; [by intros [= <-]|apply wf_lost0]].
    destruct Hpd as [-> |(_ & _ & ?)]; [|done]. apply (wf_lost0 wr _ Hwr). apply Hq.
  - intros p. rewrite wf_waiting0. rewrite !lookup_insert. repeat case_decide; subst.
    + split; intros (o & Ho & Hw); [by eexists|]. eexists. split; [done|done].
    + split; intros (o & Ho & Hw); by simplify_eq.
    + done.
Qed.

(** The same objects. *)
Lemma awf_weq a a' : awf a -> a_objs a' = a_objs a -> a_list a' = a_list a -> a_lost a' = a_lost a ->
  (forall p, is_Some (a_waiting a' p) <-> is_Some (a_waiting a p)) -> awf a'.
Proof.
  intros Hwf Ho Hl Hs Hw. apply (alike_awf a); [done|split; try done|].
  - intros p. rewrite Ho. destruct (a_objs a !! p); [apply like_other|done].
  - rewrite Ho. apply (wf_queues _ Hwf).
Qed.

Lemma fresh_waiting a p : awf a -> a_objs a !! p = None -> a_waiting a p = None.
Proof.
  intros Hwf Hp. destruct (a_waiting a p) eqn:E; [|done]. destruct (proj1 (wf_waiting _ Hwf p)) as (o & Ho & _); [by eexists|congruence].
Qed.

Lemma open_awf a name ctx port p1 p2 : awf a -> new_obj a p1 -> new_buffer a p2 -> awf (snd (spec_open name ctx port p1 p2 a)).
Proof.
  intros Hwf Hn1 Hn2. unfold spec_open. destruct name as [name|]; [|done]. destruct (negb port); [done|].
  destruct (Z.eqb_spec p1 0) as [->|Hp0]; [done|]. destruct (Z.eqb_spec p2 0) as [->|Hb0]; [done|]. cbn [orb].
  destruct (afind a (a_list a) name) as [[wr op0]|] eqn:Hf; [|done]. destruct (a_objs a !! wr) as [[n m op pd rds| | | |]|] eqn:Hwr; try done.
  pose proof (Hn1 Hp0) as Hp. destruct (Hn2 Hb0) as [Hown Hlost]. assert (p1 ≠ wr) as Hne by congruence.
  set (a0 := put_waiting p1 (Some []) (put_obj p1 (AClosing 0) a)).
  assert (awf a0) as Hwf0 by (apply awf_new_waited; auto).
  assert (forall q, queue_ok q -> (pd = Some q \/ pd = None /\ ~ owned a (q_addr q) /\ q_addr q ∉ a_lost a) ->
    awf (put_waiting p1 (Some []) (put_obj p1 (ARead q ctx wr 0) (put_obj wr (AWrite n m op None (rds ++ [p1])) a)))) as Hjoin.
  { intros q Hq Hpd. eapply awf_weq; [eapply (awf_join a0 p1 wr n m op pd rds q ctx)|..]; try done; cbn.
    - apply lookup_insert_eq.
    - by rewrite lookup_insert_ne.
    - destruct Hpd as [?|(? & Ho & ?)]; [by left|right]. split_and!; [done| |done]. intros [? (p & o & Hp' & Hb)]. apply Ho. split; [done|].
      cbn in Hp'. rewrite lookup_insert in Hp'. case_decide; [by simplify_eq/=|]. by exists p, o.
    - apply map_eq. intros y. rewrite !lookup_insert. by repeat case_decide. }
  destruct pd as [q|].
  - cbn [snd]. apply Hjoin; [|by left]. exact (wf_queues _ Hwf _ _ Hwr).
  - destruct (negb (Z.land m PORT_MODE_UNICAST =? 0)); [done|]. cbn [snd]. apply Hjoin; [|by right].
    split_and!; cbn; [done|by left|lia].
Qed.

(** * Groups *)

(** A read port changes its group, and a group its members. *)
Lemma awf_attach a g p l q c w : awf a -> a_objs a !! g = Some (AGroup l) -> a_objs a !! p = Some (ARead q c w 0) ->
  awf (put_obj g (AGroup (l ++ [p])) (put_obj p (ARead q c w g) a)).
Proof.
  intros Hwf Hg Hp. assert (g ≠ p) as Hne by congruence. pose proof Hwf as [].
  assert (g ≠ 0) as Hg0 by (intros ->; congruence).
  destruct (wf_links0 _ _ Hg) as [Hnd Hl]. assert (p ∉ l) as Hnp.
  { intros Hi. destruct (Hl p Hi) as (? & ? & ? & ?). congruence. }
  set (objs := <[g:=AGroup (l ++ [p])]> (<[p:=ARead q c w g]> (a_objs a))).
  assert (forall r q' c' w' g', r ≠ p -> a_objs a !! r = Some (ARead q' c' w' g') -> objs !! r = Some (ARead q' c' w' g')) as Hr.
  { intros r q' c' w' g' Hrp Hr. unfold objs. rewrite !lookup_insert_ne; [done|congruence..]. }
  assert (forall r n m op pd rds, a_objs a !! r = Some (AWrite n m op pd rds) <-> objs !! r = Some (AWrite n m op pd rds)) as Hw.
  { intros r n m op pd rds. unfold objs. rewrite !lookup_insert. repeat case_decide; subst; [split; intros; congruence..|done]. }
  assert (forall r o, objs !! r = Some o -> exists o', a_objs a !! r = Some o' /\ buf_of o' = buf_of o /\ (queues_ok o' -> queues_ok o) /\ (has_waiters o' <-> has_waiters o)) as Hold.
  { intros r o. unfold objs. rewrite !lookup_insert. repeat case_decide; subst; [intros [= <-]..|by eauto]; eexists; by split_and!. }
  split; cbn; fold objs; try done.
  - unfold objs. rewrite !lookup_insert_ne; [done|congruence..].
  - intros r o Ho. unfold objs in Ho. rewrite lookup_insert in Ho. case_decide; [|rewrite lookup_insert in Ho; case_decide].
    + simplify_eq. split.
      * apply NoDup_app. split; [done|]. split; [intros ? ? ->%list_elem_of_singleton; done|apply NoDup_singleton].
      * cbn. intros r' [Hi|Hi]%elem_of_app.
        -- destruct (Hl r' Hi) as (q' & c' & w' & Ho'). exists q', c', w'. apply Hr; [|done]. intros ->. done.
        -- apply list_elem_of_singleton in Hi as ->. exists q, c, w. unfold objs. rewrite lookup_insert_ne by done. apply lookup_insert_eq.
    + simplify_eq. destruct (wf_links0 _ _ Hp) as [Hwl _]. split.
      * intros Hw0. destruct (Hwl Hw0) as (n & m & op & pd & rds & Ho & Hi). exists n, m, op, pd, rds. split; [by apply Hw|done].
      * intros _. exists (l ++ [r]). cbn. fold objs. unfold objs. by rewrite lookup_insert_eq.
    + pose proof (wf_links0 r o Ho) as Hk. destruct o as [n' m' op' pd' rds'|q' c' w' g'|l'|b'|]; cbn in *; fold objs; try done.
      * destruct Hk as (? & ? & ? & Hk). split_and!; [done..|]. intros r' Hi. destruct (Hk r' Hi) as (q' & c' & g' & Ho').
        destruct (decide (r' = p)) as [->|Hrp]; [|by exists q', c', g'; apply Hr]. simplify_eq. exists q, c, g. unfold objs. rewrite lookup_insert_ne by done. apply lookup_insert_eq.
      * destruct Hk as [Hk1 Hk2]. split.
        -- intros Hw0. destruct (Hk1 Hw0) as (n' & m' & op' & pd' & rds' & Ho' & Hi). exists n', m', op', pd', rds'. split; [by apply Hw|done].
        -- intros Hg1. destruct (Hk2 Hg1) as [l' Ho']. destruct (decide (g' = g)) as [->|Hgg]; [exists (l ++ [p]); unfold objs; by rewrite lookup_insert_eq|].
           exists l'. unfold objs. rewrite !lookup_insert_ne; [done|congruence..].
      * destruct Hk as [? Hk]. split; [done|]. intros r' Hi. destruct (Hk r' Hi) as (q' & c' & w' & Ho'). exists q', c', w'. apply Hr; [|done].
        intros ->. congruence.
  - intros r Hi. destruct (wf_list0 r Hi) as (n & m & op & pd & rds & Ho). exists n, m, op, pd, rds. by apply Hw.
  - intros r r' n m op pd rds m' op' pd' rds' H1 H2. apply Hw in H1, H2. by eapply wf_names0.
  - intros r o Ho. destruct (Hold r o Ho) as (o' & Ho' & _ & Hq & _). by apply Hq, (wf_queues0 r).
  - intros r r' o o' H1 H2 Hb Hb0. destruct (Hold _ _ H1) as (x & Hx & E & _). destruct (Hold _ _ H2) as (x' & Hx' & E' & _). apply (wf_buf0 r r' x x'); congruence.
  - intros r o Ho. destruct (Hold r o Ho) as (o' & Ho' & E & _). rewrite <- E. by apply (wf_lost0 r).
  - intros r. rewrite wf_waiting0. split; intros (o & Ho & Hwt).
    + unfold objs. rewrite !lookup_insert. repeat case_decide; [by eexists..|by exists o].
    + destruct (Hold r o Ho) as (o' & Ho' & _ & _ & E). exists o'. split; [done|]. by apply E.
Qed.

Lemma attach_awf a g l ps : awf a -> a_objs a !! g = Some (AGroup l) -> (forall p, p ∈ ps -> exists q c w, a_objs a !! p = Some (ARead q c w 0)) ->
  NoDup ps -> awf (fold_left (fun a p => attach g p a) ps a).
Proof.
  revert a l. induction ps as [|p ps IH]; intros a l Hwf Hg Hps Hnd; cbn [fold_left]; [done|].
  destruct (Hps p) as (q & c & w & Hp); [by left|]. apply NoDup_cons in Hnd as [Hnp Hnd]. assert (g ≠ p) as Hne by congruence.
  rewrite (attach_eq g p a l q c w 0) by done. apply (IH _ (l ++ [p])); [by apply awf_attach|apply lookup_insert_eq| |done].
  intros p' Hp'. destruct (Hps p') as (q' & c' & w' & Ho); [by right|]. exists q', c', w'. cbn. rewrite !lookup_insert_ne; [done|congruence..].
Qed.

Lemma ungrouped_read a p : ungrouped a p = true -> exists q c w, a_objs a !! p = Some (ARead q c w 0).
Proof.
  unfold ungrouped. destruct (a_objs a !! p) as [[|q c w g| | |]|]; try done. intros ->%Z.eqb_eq. by exists q, c, w.
Qed.

Lemma group_awf a ports count group p1 : awf a -> new_obj a p1 -> awf (snd (spec_group ports count group p1 a)).
Proof.
  intros Hwf Hn. unfold spec_group. repeat (case_match; [done|]).
  match goal with E : (p1 =? 0) = false |- _ => apply Z.eqb_neq in E as Hp0 end. pose proof (Hn Hp0) as Hp.
  destruct (forallb _ _ && _) eqn:Eu; [|exact Hwf]. apply andb_true_iff in Eu as [Hu Hnd%bool_decide_eq_true]. cbn [snd].
  eapply (attach_awf _ p1 []); [by apply awf_new_waited; auto|apply lookup_insert_eq| |done].
  intros p Hi. rewrite forallb_forall in Hu. destruct (ungrouped_read a p) as (q & c & w & Ho); [by apply Hu, list_elem_of_In|].
  exists q, c, w. cbn. rewrite lookup_insert_ne; [done|congruence].
Qed.

Lemma group_add_awf a group port : awf a -> awf (snd (spec_group_add group port a)).
Proof.
  intros Hwf. unfold spec_group_add. destruct (_ || _); [done|]. destruct (a_objs a !! group) as [[| |l| |]|] eqn:Hg; try done.
  destruct (a_objs a !! port) as [[|q c w [| |]| | |]|] eqn:Hp; try done. destruct (_ =? _); [done|]. cbn [snd].
  assert (awf (attach group port a)) as Ha by (rewrite (attach_eq group port a l q c w 0) by done; by apply awf_attach).
  case_bool_decide; [done|]. by apply awf_waiting_map.
Qed.

(** Fewer members. *)
Lemma awf_leave_group a p g : awf a -> awf (leave_group p g a).
Proof.
  intros Hwf. unfold leave_group. destruct (a_objs a !! g) as [[| |l| |]|] eqn:Hg; try done. pose proof Hwf as [].
  assert (forall r o, <[g:=AGroup (remove_from p l)]> (a_objs a) !! r = Some o -> exists o', a_objs a !! r = Some o' /\ (r ≠ g -> o' = o) /\ (r = g -> o' = AGroup l /\ o = AGroup (remove_from p l))) as Hold.
  { intros r o. rewrite lookup_insert. case_decide; [subst|intros Ho; exists o; split_and!; [done|done|congruence]]. intros [= <-]. by exists (AGroup l). }
  assert (forall r o, a_objs a !! r = Some o -> r ≠ g -> <[g:=AGroup (remove_from p l)]> (a_objs a) !! r = Some o) as Hnew.
  { intros r o Ho Hne. by rewrite lookup_insert_ne. }
  split; cbn; try done.
  - rewrite lookup_insert_ne; [done|congruence].
  - intros r o Ho. destruct (Hold r o Ho) as (o' & Ho' & Hn & Hgg). destruct (decide (r = g)) as [->|Hne].
    + destruct (Hgg eq_refl) as [-> ->]. destruct (wf_links0 _ _ Hg) as [Hnd Hl]. split; [by apply NoDup_filter|]. intros r Hr.
      apply list_elem_of_filter in Hr as [_ Hr]. destruct (Hl r Hr) as (q & c & w & Hr'). exists q, c, w. apply Hnew; congruence.
    + rewrite (Hn Hne) in Ho'. pose proof (wf_links0 _ _ Ho') as Hk. destruct o as [n' m' op' pd' rds'|q' c' w' g'|l'|b'|]; cbn in *; try done.
      * destruct Hk as (? & ? & ? & Hk). split_and!; [done..|]. intros r' Hi. destruct (Hk r' Hi) as (q' & c' & g' & ?). exists q', c', g'. apply Hnew; congruence.
      * destruct Hk as [Hk1 Hk2]. split.
        -- intros Hw0. destruct (Hk1 Hw0) as (n' & m' & op' & pd' & rds' & ? & ?). exists n', m', op', pd', rds'. split; [apply Hnew; congruence|done].
        -- intros Hg0. destruct (Hk2 Hg0) as [l' ?]. rewrite lookup_insert. case_decide; [by eexists|by exists l'].
      * destruct Hk as [? Hk]. split; [done|]. intros r' Hi. destruct (Hk r' Hi) as (q' & c' & w' & ?). exists q', c', w'. apply Hnew; congruence.
  - intros r Hi. destruct (wf_list0 r Hi) as (n & m & op & pd & rds & Ho). exists n, m, op, pd, rds. apply Hnew; congruence.
  - intros r r' n m op pd rds m' op' pd' rds'. rewrite !lookup_insert. repeat case_decide; try done. apply wf_names0.
  - intros r o. rewrite lookup_insert. case_decide; [by intros [= <-]|apply wf_queues0].
  - intros r r' o o'. cbn. rewrite !lookup_insert. repeat case_decide; subst; try done; intros; simplify_eq/=; try congruence. by eapply wf_buf0.
  - intros r o. rewrite lookup_insert. case_decide; [by intros [= <-]|apply wf_lost0].
  - intros r. rewrite wf_waiting0, lookup_insert. case_decide; [|done]. subst. split; intros (o & Ho & _); [by eexists|by exists (AGroup l)].
Qed.

Lemma group_remove_awf a group port : awf a -> awf (snd (spec_group_remove group port a)).
Proof.
  intros Hwf. unfold spec_group_remove. destruct (_ || _); [done|]. pose proof (awf_leave_group a port group Hwf) as Hl. unfold leave_group in Hl.
  destruct (a_objs a !! group) as [[| |l| |]|]; try done. destruct (a_objs a !! port) as [[|q c w g| | |]|]; try done.
  destruct (g =? group); [|done]. cbn [negb]. by case_bool_decide; [|apply awf_locked].
Qed.

(** * Ends *)

Lemma cancel_queues l : forall a, (forall p, p ∈ l -> has_queue a p /\ exists q c wr g, a_objs a !! p = Some (ARead q c wr g) /\ (g ≠ 0 -> has_queue a g)) ->
  forall p, is_Some (a_waiting (fold_left (fun a p => cancel_reader p a) l a) p) <-> is_Some (a_waiting a p).
Proof.
  induction l as [|x l IH]; intros a Hl p; cbn [fold_left]; [done|]. destruct (Hl x) as (Hx & q & c & wr & g & Ho & Hg); [by left|].
  assert (forall p, is_Some (a_waiting (cancel_reader x a) p) <-> is_Some (a_waiting a p)) as Hone.
  { intros p'. split; [|apply cancel_reader_rest]. unfold cancel_reader. rewrite Ho. destruct (Z.eqb_spec g 0) as [->|Hg0]; cbn; unfold set_queue.
    - destruct (Z.eqb_spec p' x) as [->|]; [by intros _|done].
    - destruct (Z.eqb_spec p' g) as [->|]; [intros _; by apply Hg|]. destruct (Z.eqb_spec p' x) as [->|]; [by intros _|done]. }
  rewrite IH; [apply Hone|]. intros y Hy. destruct (Hl y) as (Hqy & q' & c' & wr' & g' & Ho' & Hg'); [by right|]. split; [by apply Hone|].
  rewrite cancel_reader_objs, lookup_alter. case_decide; [subst; rewrite Ho; exists q, c, 0, g|exists q', c', wr', g']; (split; [done|]); intros ?; apply Hone; first [by apply Hg|by apply Hg'].
Qed.

Lemma readers_queues a port n m op pd rds : awf a -> a_objs a !! port = Some (AWrite n m op pd rds) ->
  forall p, p ∈ rds -> has_queue a p /\ exists q c wr g, a_objs a !! p = Some (ARead q c wr g) /\ (g ≠ 0 -> has_queue a g).
Proof.
  intros Hwf Hp p Hin. destruct (wf_links _ Hwf _ _ Hp) as (_ & _ & _ & Hr). destruct (Hr p Hin) as (q & c & g & Ho). split.
  - destruct (live_queue a p _ Hwf Ho) as [l Hl]; [done|by exists l].
  - exists q, c, port, g. split; [done|]. intros Hg. destruct (wf_links _ Hwf _ _ Ho) as [_ Hgr]. destruct (Hgr Hg) as [l Hl].
    destruct (live_queue a g _ Hwf Hl) as [ts Hts]; [done|by exists ts].
Qed.

Lemma destroy_awf a port : awf a -> awf (snd (spec_destroy port a)).
Proof.
  intros Hwf. unfold spec_destroy. destruct (port =? 0); [done|]. destruct (a_objs a !! port) as [[n m [] pd rds| | | |]|] eqn:Hport; try done. cbn [snd].
  set (a1 := with_alist (remove_from port (a_list a)) a). set (af := fold_left _ rds a1).
  destruct (cancel_all rds a1) as [Ho Hl _ Hlo _]. pose proof (cancel_queues rds a1 (readers_queues a port _ _ _ _ _ Hwf Hport)) as Hw. fold af in Ho, Hl, Hlo, Hw.
  pose proof Hwf as []. destruct (wf_links0 _ _ Hport) as (Hin & Hnd & _ & Hrd).
  assert (port ∉ rds) as Hnp by (intros Hi; destruct (Hrd _ Hi) as (? & ? & ? & ?); congruence).
  assert (forall p, a_objs (del_obj port af) !! p = if decide (port = p) then None else if decide (p ∈ rds) then unwrite <$> (a_objs a !! p) else a_objs a !! p) as Hobj.
  { intros p. cbn. rewrite lookup_delete, Ho. done. }
  assert (forall p o, a_objs (del_obj port af) !! p = Some o -> p ≠ port /\ exists o', a_objs a !! p = Some o' /\ (o = o' \/ p ∈ rds /\ o = unwrite o')) as Hold.
  { intros p o. rewrite Hobj. repeat case_decide; [done| |by eauto]. intros Hp. destruct (a_objs a !! p) as [o'|] eqn:E; [|done].
    injection Hp as <-. split; [done|]. exists o'. auto. }
  assert (forall p o, a_objs a !! p = Some o -> p ≠ port -> p ∉ rds -> a_objs (del_obj port af) !! p = Some o) as Hnew.
  { intros p o Hp Hne Hnr. rewrite Hobj, !decide_False by congruence. done. }
  assert (forall p q c w g, a_objs a !! p = Some (ARead q c w g) -> exists w', a_objs (del_obj port af) !! p = Some (ARead q c w' g)) as Hread.
  { intros p q c w g Hp. rewrite Hobj, decide_False by congruence. case_decide; rewrite Hp; by eexists. }
  assert (forall p, match a_objs a !! p with Some (ARead _ _ _ _) => True | _ => p ∉ rds end) as Hnr.
  { intros p. destruct (a_objs a !! p) as [[| | | |]|] eqn:E; try done; intros Hi; destruct (Hrd _ Hi) as (? & ? & ? & ?); congruence. }
  split.
  - rewrite Hobj. repeat case_decide; [done| |done]. by rewrite wf_null0.
  - intros p o Hp. destruct (Hold p o Hp) as (Hne & o' & Ho' & Hcase). pose proof (wf_links0 _ _ Ho') as Hk. pose proof (Hnr p) as Hpr. rewrite Ho' in Hpr.
    destruct o' as [n' m' op' pd' rds'|q' c' w' g'|l'|b'|]; (destruct Hcase as [-> |[Hpi ->]]; cbn [unwrite]; [|try done]); try done.
    + destruct Hk as (? & ? & ? & Hk). cbn. rewrite Hl. cbn. split_and!; [by apply list_elem_of_filter|done..|]. intros r Hi. destruct (Hk r Hi) as (q' & c' & g' & Hr).
      exists q', c', g'. apply Hnew; [done|congruence|]. intros Hi'. destruct (Hrd _ Hi') as (? & ? & ? & ?). congruence.
    + destruct Hk as [Hk1 Hk2]. split.
      * intros Hw0. destruct (Hk1 Hw0) as (n' & m' & op' & pd' & rds' & Hw' & Hi). exists n', m', op', pd', rds'. split; [|done]. pose proof (Hnr w') as Hwr. rewrite Hw' in Hwr.
        apply Hnew; [done| |done]. intros ->. rewrite Hport in Hw'. injection Hw' as <- <- <- <- <-. rewrite Hobj, decide_False, decide_True in Hp by done.
        rewrite Ho' in Hp. by injection Hp as Hw0'.
      * intros Hg0. destruct (Hk2 Hg0) as [l Hg]. exists l. pose proof (Hnr g') as Hgr. rewrite Hg in Hgr. apply Hnew; [done|congruence|done].
    + destruct Hk as [_ Hk2]. split; [done|]. intros Hg0. destruct (Hk2 Hg0) as [l Hg]. exists l. pose proof (Hnr g') as Hgr. rewrite Hg in Hgr. apply Hnew; [done|congruence|done].
    + destruct Hk as [? Hk]. split; [done|]. intros r Hi. destruct (Hk r Hi) as (q' & c' & w' & Hr). destruct (Hread _ _ _ _ _ Hr) as [w'' ?]. by exists q', c', w''.
  - cbn. rewrite Hl. cbn. intros p [Hne Hi]%list_elem_of_filter. destruct (wf_list0 p Hi) as (n' & m' & op' & pd' & rds' & Hp). exists n', m', op', pd', rds'.
    pose proof (Hnr p) as Hpr. rewrite Hp in Hpr. by apply Hnew.
  - cbn. rewrite Hl. by apply NoDup_filter.
  - assert (forall p n m op pd rds, a_objs (del_obj port af) !! p = Some (AWrite n m op pd rds) -> a_objs a !! p = Some (AWrite n m op pd rds)) as Hwr.
    { intros p ? ? ? ? ? Hp. destruct (Hold p _ Hp) as (_ & o' & Ho' & [<-|[_ E]]); [done|]. by destruct o'; simplify_eq/=. }
    intros p p' ? ? ? ? ? ? ? ? ? H1%Hwr H2%Hwr. by eapply wf_names0.
  - intros p o Hp. destruct (Hold p o Hp) as (_ & o' & Ho' & [-> |[_ ->]]); [by apply (wf_queues0 p)|]. pose proof (wf_queues0 p o' Ho'). by destruct o'.
  - intros p p' o o' H1 H2 Hb Hb0. destruct (Hold _ _ H1) as (_ & x & Hx & Ex). destruct (Hold _ _ H2) as (_ & x' & Hx' & Ex').
    assert (buf_of o = buf_of x) by (destruct Ex as [-> |[_ ->]]; [done|by destruct x]).
    assert (buf_of o' = buf_of x') by (destruct Ex' as [-> |[_ ->]]; [done|by destruct x']). apply (wf_buf0 p p' x x'); congruence.
  - intros p o Hp. destruct (Hold p o Hp) as (_ & o' & Ho' & E). assert (buf_of o = buf_of o') as -> by (destruct E as [-> |[_ ->]]; [done|by destruct o']).
    cbn. rewrite Hlo. by apply (wf_lost0 p).
  - intros p. cbn. rewrite Hw. cbn. rewrite wf_waiting0. split; intros (o & Hp & Hwt).
    + rewrite lookup_delete, Ho. case_decide; [subst; by simplify_eq|]. case_decide; [|by exists o]. exists (unwrite o). cbn. rewrite Hp. split; [done|by destruct o].
    + destruct (Hold p o Hp) as (_ & o' & Ho' & E). exists o'. split; [done|]. destruct E as [-> |[_ ->]]; [done|by destruct o'].
Qed.

(** The reader [p], in no group any more, leaves its writer. *)
Lemma awf_leave a p q c w g b a' : awf a -> a_objs a !! p = Some (ARead q c w g) -> (forall g' l, a_objs a !! g' = Some (AGroup l) -> p ∉ l) ->
  leave_writer p w q a = (b, a') -> awf (put_obj p (AClosing b) a').
Proof.
  intros Hwf Hp Hfree Hleave. pose proof Hwf as []. destruct (wf_links0 _ _ Hp) as [Hw _]. pose proof (wf_queues0 _ _ Hp : queue_ok q) as Hq.
  (* what changes but for the reader itself *)
  assert (exists wx lost, a' = with_alost lost (with_aobjs (match wx with Some (n, m, op, pd, rds) => <[w:=AWrite n m op pd (remove_from p rds)]> (a_objs a) | None => a_objs a end) a) /\
    (forall x, x ∈ lost -> x ∈ a_lost a \/ x = q_addr q /\ wx = None) /\
    match wx with
    | Some (n, m, op, pd, rds) => w ≠ p /\ a_objs a !! w = Some (AWrite n m op None rds) /\ p ∈ rds /\ (pd = None <-> remove_from p rds ≠ []) /\ lost = a_lost a /\
        (pd = Some q /\ b = 0 \/ pd = None /\ b = q_addr q)
    | None => w = 0 /\ b = 0 end) as (wx & lost & -> & Hlost & Hwx).
  { unfold leave_writer in Hleave. destruct (Z.eq_dec w 0) as [->|Hw0].
    - rewrite wf_null0 in Hleave. injection Hleave as <- <-. exists None, ({[q_addr q]} ∪ a_lost a). split; [by destruct a|]. split; [set_solver|done].
    - destruct (Hw Hw0) as (n & m & op & pd & rds & Hwr & Hin). rewrite Hwr in Hleave. destruct (wf_links0 _ _ Hwr) as (_ & _ & Hpn & _).
      assert (pd = None) as -> by (apply Hpn; intros ->; by apply not_elem_of_nil in Hin). cbn zeta in Hleave.
      case_bool_decide as E; injection Hleave as <- <-; [exists (Some (n, m, op, Some q, rds))|exists (Some (n, m, op, None, rds))]; exists (a_lost a);
        (split; [by destruct a|]); (split; [auto|]); split_and!; try done; try congruence; auto. }
  set (objs' := <[p:=AClosing b]> (match wx with Some (n, m, op, pd, rds) => <[w:=AWrite n m op pd (remove_from p rds)]> (a_objs a) | None => a_objs a end)).
  assert (forall r o, r ≠ p -> r ≠ w -> objs' !! r = Some o <-> a_objs a !! r = Some o) as Hsame.
  { intros r o Hrp Hrw. unfold objs'. rewrite lookup_insert_ne by done. destruct wx as [[[[[n m] op] pd] rds]|]; [|done]. by rewrite lookup_insert_ne. }
  assert (objs' !! p = Some (AClosing b)) as Hpc by apply lookup_insert_eq.
  assert (w ≠ p) as Hwp by (destruct wx as [[[[[n m] op] pd] rds]|]; [by destruct Hwx|destruct Hwx as [-> _]; congruence]).
  assert (forall n m op pd rds, objs' !! w = Some (AWrite n m op pd rds) -> exists rds0, a_objs a !! w = Some (AWrite n m op None rds0) /\ p ∈ rds0 /\ rds = remove_from p rds0 /\
    (pd = None <-> rds ≠ []) /\ (pd = Some q /\ b = 0 \/ pd = None)) as Hww.
  { intros n m op pd rds. unfold objs'. rewrite lookup_insert_ne by done. destruct wx as [[[[[n' m'] op'] pd'] rds']|].
    - rewrite lookup_insert_eq. intros [= <- <- <- <- <-]. destruct Hwx as (_ & ? & ? & ? & _ & E). exists rds'. split_and!; try done. destruct E as [?|[? _]]; auto.
    - destruct Hwx as [-> _]. by rewrite wf_null0. }
  assert (forall n m op pd rds, a_objs a !! w = Some (AWrite n m op pd rds) -> exists pd', objs' !! w = Some (AWrite n m op pd' (remove_from p rds))) as Hwn.
  { intros n m op pd rds Hwr. unfold objs'. rewrite lookup_insert_ne by done. destruct wx as [[[[[n' m'] op'] pd'] rds']|].
    - rewrite lookup_insert_eq. destruct Hwx as (_ & E & _). rewrite E in Hwr. injection Hwr as <- <- <- <- <-. by eexists.
    - destruct Hwx as [-> _]. by rewrite wf_null0 in Hwr. }
  assert (forall r o, objs' !! r = Some o -> r = p /\ o = AClosing b \/ r ≠ p /\ r ≠ w /\ a_objs a !! r = Some o \/ r = w /\ exists n m op pd rds, o = AWrite n m op pd rds) as Hold.
  { intros r o Ho. destruct (decide (r = p)) as [->|Hrp]; [left; split; [done|congruence]|]. destruct (decide (r = w)) as [->|Hrw]; [|right; left; split_and!; [done..|by apply Hsame]].
    right; right. split; [done|]. unfold objs' in Ho. rewrite lookup_insert_ne in Ho by done. destruct wx as [[[[[n' m'] op'] pd'] rds']|].
    - rewrite lookup_insert_eq in Ho. injection Ho as <-. by eexists _, _, _, _, _.
    - destruct Hwx as [-> _]. by rewrite wf_null0 in Ho. }
  assert (forall r q c w' g, a_objs a !! r = Some (ARead q c w' g) -> r ≠ p -> objs' !! r = Some (ARead q c w' g)) as Hread.
  { intros r q' c' w' g' Hr Hrp. apply Hsame; [done| |done]. intros ->. destruct wx as [[[[[n m] op] pd] rds]|]; [|destruct Hwx as [-> _]; congruence].
    destruct Hwx as (_ & E & _). congruence. }
  assert (forall r o, a_objs a !! r = Some o -> r ≠ p -> buf_of o ≠ 0 -> buf_of o ≠ q_addr q) as Hqn.
  { intros r o Hr Hrp Hb0 Hb. apply Hrp. by apply (wf_buf0 r p o (ARead q c w g)). }
  assert (b ≠ 0 -> b = q_addr q /\ forall n m op pd rds, objs' !! w = Some (AWrite n m op pd rds) -> pd = None) as Hb.
  { intros Hb0. destruct wx as [[[[[n m] op] pd] rds]|]; [|by destruct Hwx]. destruct Hwx as (_ & _ & _ & _ & _ & [[_ ?]|[-> ->]]); [done|]. split; [done|].
    unfold objs'. rewrite lookup_insert_ne, lookup_insert_eq by done. intros ? ? ? ? ? ?. by simplify_eq. }
  assert (forall r o, objs' !! r = Some o -> buf_of o ≠ 0 -> r ≠ p -> r = w /\ buf_of o = q_addr q /\ b = 0 \/ a_objs a !! r = Some o /\ buf_of o ≠ q_addr q) as Hbufs.
  { intros r o Ho Hb0 Hrp. destruct (Hold r o Ho) as [[? _]|[(_ & _ & Hr)|(-> & n & m & op & pd & rds & ->)]]; [done|right; split; [done|by eapply Hqn]|left].
    destruct (Hww _ _ _ _ _ Ho) as (_ & _ & _ & _ & _ & [[-> ->]| ->]); [done|by destruct Hb0]. }
  split; cbn; fold objs'; try done.
  - destruct (objs' !! 0) as [o|] eqn:E; [|done]. destruct (Hold 0 o E) as [[<- _]|[(_ & _ & Hr)|(<- & n & m & op & pd & rds & ->)]]; [congruence..|].
    destruct (Hww _ _ _ _ _ E) as (? & ? & _). congruence.
  - intros r o Ho. destruct (Hold r o Ho) as [[-> ->]|[(Hrp & Hrw & Hr)|(-> & n & m & op & pd & rds & ->)]]; [done| |].
    + pose proof (wf_links0 _ _ Hr) as Hk. destruct o as [n' m' op' pd' rds'|q' c' w' g'|l'|b'|]; cbn in *; fold objs'; try done.
      * destruct Hk as (? & ? & ? & Hk). split_and!; [done..|]. intros x Hi. destruct (Hk x Hi) as (q' & c' & g' & Hx). exists q', c', g'. apply Hread; [done|congruence].
      * destruct Hk as [Hk1 Hk2]. split.
        -- intros Hw0. destruct (Hk1 Hw0) as (n' & m' & op' & pd' & rds' & Hx & Hi). destruct (decide (w' = w)) as [->|Hne].
           ++ destruct (Hwn _ _ _ _ _ Hx) as [pd'' ?]. exists n', m', op', pd'', (remove_from p rds'). split; [done|]. by apply list_elem_of_filter.
           ++ exists n', m', op', pd', rds'. split; [|done]. apply Hsame; [congruence|done|done].
        -- intros Hg0. destruct (Hk2 Hg0) as [l Hx]. exists l. apply Hsame; [congruence| |done]. intros ->.
           destruct wx as [[[[[n m] op] pd] rds]|]; [destruct Hwx as (_ & E & _); congruence|destruct Hwx as [-> _]; congruence].
      * destruct Hk as [? Hk]. split; [done|]. intros x Hi. destruct (Hk x Hi) as (q' & c' & w' & Hx). exists q', c', w'. apply Hread; [done|].
        intros ->. by apply (Hfree r l').
    + destruct (Hww _ _ _ _ _ Ho) as (rds0 & Hx & Hi & -> & Hpd & _). destruct (wf_links0 _ _ Hx) as (? & ? & ? & Hk). split_and!; [done|by apply NoDup_filter|done|].
      intros x [Hne Hxi]%list_elem_of_filter. destruct (Hk x Hxi) as (q' & c' & g' & Hx'). exists q', c', g'. by apply Hread.
  - intros r Hi. destruct (wf_list0 r Hi) as (n & m & op & pd & rds & Hr). destruct (decide (r = w)) as [->|Hne].
    + destruct (Hwn _ _ _ _ _ Hr) as [pd' ?]. by eexists _, _, _, _, _.
    + exists n, m, op, pd, rds. apply Hsame; [congruence|done|done].
  - assert (forall r n m op pd rds, objs' !! r = Some (AWrite n m op pd rds) -> exists m op pd rds, a_objs a !! r = Some (AWrite n m op pd rds)) as Hwr.
    { intros r n m op pd rds Ho. destruct (Hold _ _ Ho) as [[_ ?]|[(_ & _ & ?)|(-> & _)]]; [done|by eauto|]. destruct (Hww _ _ _ _ _ Ho) as (? & ? & _). eauto. }
    intros r r' n m op pd rds m' op' pd' rds' H1 H2. destruct (Hwr _ _ _ _ _ _ H1) as (? & ? & ? & ? & ?). destruct (Hwr _ _ _ _ _ _ H2) as (? & ? & ? & ? & ?). by eapply wf_names0.
  - intros r o Ho. destruct (Hold r o Ho) as [[-> ->]|[(_ & _ & Hr)|(-> & n & m & op & pd & rds & ->)]]; [done|by apply (wf_queues0 r)|].
    destruct (Hww _ _ _ _ _ Ho) as (_ & _ & _ & _ & _ & [[-> _]| ->]); done.
  - intros r r' o o' H1 H2 E Hb0. cbn in H1, H2. fold objs' in H1, H2. destruct (decide (r = p)) as [->|Hrp], (decide (r' = p)) as [->|Hrp']; [done|..].
    + rewrite Hpc in H1. injection H1 as <-. cbn in *. destruct (Hb Hb0) as [Eb _]. destruct (Hbufs r' o' H2) as [(_ & _ & ?)|[_ ?]]; congruence.
    + rewrite Hpc in H2. injection H2 as <-. cbn in *. rewrite E in Hb0. destruct (Hb Hb0) as [Eb _]. destruct (Hbufs r o H1) as [(_ & _ & ?)|[_ ?]]; congruence.
    + destruct (Hbufs r o H1) as [(-> & ? & _)|[Hr ?]]; [done..| |]; (destruct (Hbufs r' o' H2) as [(-> & ? & _)|[Hr' ?]]; [congruence|done|..]); try congruence. by apply (wf_buf0 r r' o o').
  - intros r o Ho Hb0 [Hi|Hi]%Hlost.
    + destruct (decide (r = p)) as [->|Hrp].
      * rewrite Hpc in Ho. injection Ho as <-. cbn in *. destruct (Hb Hb0) as [-> _]. by apply (wf_lost0 p _ Hp).
      * destruct (Hbufs r o Ho Hb0 Hrp) as [(_ & E & _)|[Hr _]]; [rewrite E in Hi; apply (wf_lost0 p _ Hp); [apply Hq|done]|by apply (wf_lost0 r o)].
    + destruct Hi as [Hi ->]. destruct Hwx as [_ ->]. destruct (decide (r = p)) as [->|Hrp].
      * rewrite Hpc in Ho. by injection Ho as <-.
      * destruct (Hold r o Ho) as [[? _]|[(_ & _ & Hr)|(-> & n & m & op & pd & rds & ->)]]; [done|by apply (Hqn r o)|].
        destruct (Hww _ _ _ _ _ Ho) as (? & Hx & _). unfold objs' in Ho. rewrite lookup_insert_ne in Ho by done.
        destruct (wf_links0 _ _ Hx) as (_ & _ & [Hn _] & _). rewrite Hx in Ho. injection Ho as <- <-. done.
  - intros r. rewrite wf_waiting0. split; intros (o & Ho & Hwt).
    + destruct (decide (r = p)) as [->|Hrp]; [by eexists|]. exists o. split; [|done]. apply Hsame; [done| |done]. intros ->.
      destruct wx as [[[[[n m] op] pd] rds]|]; [destruct Hwx as (_ & E & _); by simplify_eq|destruct Hwx as [-> _]; congruence].
    + destruct (Hold r o Ho) as [[-> ->]|[(_ & _ & Hr)|(-> & n & m & op & pd & rds & ->)]]; [by eexists|by exists o|done].
Qed.

(** A closed port is gone. *)
Lemma leave_comm p wr q g a : (forall l, a_objs a !! wr ≠ Some (AGroup l)) -> (forall n m op pd rds, a_objs a !! g ≠ Some (AWrite n m op pd rds)) ->
  leave_writer p wr q (leave_group p g a) = (fst (leave_writer p wr q a), leave_group p g (snd (leave_writer p wr q a))).
Proof.
  intros Hw Hg. assert (a_objs (snd (leave_writer p wr q a)) !! g = a_objs a !! g) as Hsame.
  { unfold leave_writer. destruct (a_objs a !! wr) as [[n m op pd rds| | | |]|] eqn:Hwr; try done. assert (wr ≠ g) as Hne by (intros ->; by eapply Hg).
    cbn zeta. case_bool_decide; cbn; by rewrite lookup_insert_ne. }
  unfold leave_group. rewrite Hsame. destruct (a_objs a !! g) as [[n m op pd rds|q' c w g'|l| |]|] eqn:Eg; try by destruct (leave_writer _ _ _ _).
  assert (wr ≠ g) as Hne by (intros ->; by eapply Hw). unfold leave_writer. cbn [a_objs put_obj with_aobjs]. rewrite lookup_insert_ne by done.
  destruct (a_objs a !! wr) as [[n m op pd rds| | | |]|]; try done. cbn zeta. case_bool_decide; cbn [fst snd]; f_equal; by rewrite put_obj_comm.
Qed.

Lemma close_awf a port : awf a -> allowed a (CClose port) = true -> awf (snd (spec_close port a)).
Proof.
  intros Hwf Hok. cbn [allowed] in Hok. apply andb_true_iff in Hok as [Hok _]. apply andb_true_iff in Hok as [_ Hat].
  unfold spec_close. destruct (port =? 0); [done|]. destruct (a_objs a !! port) as [[n m [] pd rds|q c w g|l| |]|] eqn:Hp; try done.
  - cbn [snd]. eapply awf_put_like; [done..|by constructor|]. pose proof (wf_queues _ Hwf _ _ Hp) as Hq. done.
  - destruct (leave_writer port w q a) as [b a'] eqn:Hleave. cbn [snd]. apply awf_locked.
    assert (leave_writer port w q (leave_group port g a) = (b, leave_group port g a')) as Hl.
    { rewrite leave_comm, Hleave; [done|..]. 
      - intros l Hw. destruct (wf_links _ Hwf _ _ Hp) as [Hwl _]. destruct (Hwl) as (n & m & op & pd & rds & Hx & _); [|congruence].
        intros ->. by rewrite (wf_null _ Hwf) in Hw.
      - intros n m op pd rds Hg. destruct (wf_links _ Hwf _ _ Hp) as [_ Hgl]. destruct (Hgl) as [l Hx]; [|congruence].
        intros ->. by rewrite (wf_null _ Hwf) in Hg. }
    apply awf_waiting.
    + eapply (awf_leave (leave_group port g a) port q c w g b); [by apply awf_leave_group| | |done].
      * unfold leave_group. destruct (a_objs a !! g) as [[| |l| |]|] eqn:Hg; try done. cbn. rewrite lookup_insert_ne; [done|congruence].
      * intros g' l Hg' Hin. unfold attached in Hat. rewrite Hp in Hat. unfold leave_group in Hg'.
        destruct (Z.eqb_spec g 0) as [Hg0|Hg0]; cbn [orb] in Hat.
        -- rewrite Hg0, (wf_null _ Hwf) in Hg'. destruct (group_member a g' l port Hwf Hg' Hin) as (q' & c' & w' & E).
           assert (g' = 0) as -> by congruence. by rewrite (wf_null _ Hwf) in Hg'.
        -- destruct (a_objs a !! g) as [[| |l0| |]|] eqn:Hg; try done. cbn in Hg'. rewrite lookup_insert in Hg'. case_decide.
           ++ injection Hg' as <-. by apply list_elem_of_filter in Hin as [? _].
           ++ destruct (group_member a g' l port Hwf Hg' Hin) as (q' & c' & w' & E). congruence.
    + destruct (live_queue a port _ Hwf Hp) as [ts Hts]; [done|]. exists ts. rewrite <- Hts. cbn.
      unfold leave_writer in Hleave. destruct (a_objs a !! w) as [[| | | |]|]; try (injection Hleave as <- <-; unfold leave_group; cbn; by repeat case_match).
      destruct (bool_decide _); injection Hleave as <- <-; unfold leave_group; cbn; by repeat case_match.
  - cbn [snd]. apply awf_locked, awf_waiting; [done|]. destruct (live_queue a port _ Hwf Hp) as [ts Hts]; [done|by exists ts].
Qed.

Lemma regroup_buf (P : Prop) `{Decision P} g x : buf_of (if decide P then regroup g x else x) = buf_of x.
Proof. case_decide; [by destruct x|done]. Qed.

Lemma close_resumed_awf a port c : awf a -> allowed a (CCloseResumed port c) = true -> awf (snd (spec_close_resumed port c a)).
Proof.
  intros Hwf Hok. cbn [allowed] in Hok. apply andb_true_iff in Hok as [_ Hok]. unfold spec_close_resumed.
  destruct (a_objs a !! port) as [[n m op pd rds|q cx w g|l|b|]|] eqn:Hx; try done; destruct c as [state buf|state]; try done; cbn [snd]; apply awf_locked.
  - unfold all_attached in Hok. rewrite Hx in Hok. apply bool_decide_eq_true in Hok. rewrite fold_set_group. set (ac := with_aobjs _ a).
    pose proof Hwf as []. destruct (wf_links0 _ _ Hx) as [_ Hmem].
    assert (forall p o, a_objs (del_obj port ac) !! p = Some o -> p ≠ port /\ exists o', a_objs a !! p = Some o' /\ o = (if decide (p ∈ l) then regroup 0 o' else o')) as Hold.
    { intros p o. cbn. rewrite lookup_delete. destruct (decide (port = p)) as [|Hpp]; [done|]. rewrite map_lookup_imap. destruct (a_objs a !! p) as [o'|]; [|done]. cbn. intros [= <-].
      split; [done|]. by exists o'. }
    assert (forall p o, a_objs a !! p = Some o -> p ≠ port -> a_objs (del_obj port ac) !! p = Some (if decide (p ∈ l) then regroup 0 o else o)) as Hnew.
    { intros p o Hp Hne. cbn. rewrite lookup_delete_ne by done. by rewrite map_lookup_imap, Hp. }
    assert (forall p o, a_objs a !! p = Some o -> (match o with ARead _ _ _ g => g ≠ port | _ => True end) -> (if decide (p ∈ l) then regroup 0 o else o) = o) as Hkeep.
    { intros p o Hp Ho. destruct (decide (p ∈ l)) as [Hi|]; [|done]. destruct (Hmem p Hi) as (q & c & w & E). by simplify_eq. }
    assert (forall p q c w g, a_objs a !! p = Some (ARead q c w g) -> exists g', a_objs (del_obj port ac) !! p = Some (ARead q c w g')) as Hread.
    { intros p q c w g Hp. rewrite (Hnew _ _ Hp) by congruence. case_decide; by eexists. }
    split; change (a_objs (put_waiting port None (del_obj port ac))) with (a_objs (del_obj port ac)).
    + cbn. rewrite lookup_delete. case_decide; [done|]. by rewrite map_lookup_imap, wf_null0.
    + intros p o Hp. destruct (Hold p o Hp) as (Hne & o' & Ho' & ->). pose proof (wf_links0 _ _ Ho') as Hk.
      destruct o' as [n' m' op' pd' rds'|q' c' w' g'|l'|b'|]; [rewrite Hkeep; [|done..]| |rewrite Hkeep; [|done..]|by case_decide|done].
      * destruct Hk as (? & ? & ? & Hk). split_and!; [done..|]. intros r Hi. destruct (Hk r Hi) as (q' & c' & g' & Hr). destruct (Hread _ _ _ _ _ Hr) as [g'' ?]. by exists q', c', g''.
      * assert (exists g0, (if decide (p ∈ l) then regroup 0 (ARead q' c' w' g') else ARead q' c' w' g') = ARead q' c' w' g0 /\ (g0 = 0 \/ g0 = g' /\ g' ≠ port)) as (g0 & -> & Hg0).
        { case_decide as Hi; [by exists 0; split; [|left]|]. exists g'. split; [done|]. right. split; [done|]. specialize (Hok p _ Ho'). cbn in Hok. by destruct Hok. }
        destruct Hk as [Hk1 Hk2]. split; change (a_objs (put_waiting port None (del_obj port ac))) with (a_objs (del_obj port ac)).
        -- intros Hw0. destruct (Hk1 Hw0) as (n' & m' & op' & pd' & rds' & Hw & Hi). exists n', m', op', pd', rds'. split; [|done].
           rewrite (Hnew _ _ Hw) by congruence. by rewrite Hkeep.
        -- destruct Hg0 as [-> |[-> Hgp]]; [done|]. intros Hgz. destruct (Hk2 Hgz) as [l' Hg]. exists l'. rewrite (Hnew _ _ Hg) by done. by rewrite Hkeep.
      * destruct Hk as [? Hk]. split; [done|]. intros r Hi. destruct (Hk r Hi) as (q' & c' & w' & Hr). exists q', c', w'.
        change (a_objs (put_waiting port None (del_obj port ac))) with (a_objs (del_obj port ac)). rewrite (Hnew _ _ Hr) by congruence. by rewrite (Hkeep _ _ Hr).
    + intros p Hi. destruct (wf_list0 p Hi) as (n' & m' & op' & pd' & rds' & Hp). exists n', m', op', pd', rds'.
      change (a_objs (put_waiting port None (del_obj port ac))) with (a_objs (del_obj port ac)). rewrite (Hnew _ _ Hp) by congruence. by rewrite Hkeep.
    + exact wf_nodup0.
    + assert (forall p n m op pd rds, a_objs (del_obj port ac) !! p = Some (AWrite n m op pd rds) -> a_objs a !! p = Some (AWrite n m op pd rds)) as Hwr.
      { intros p ? ? ? ? ? Hp. destruct (Hold p _ Hp) as (_ & o' & Ho' & E). case_decide; [|congruence]. by destruct o'; simplify_eq/=. }
      intros p p' ? ? ? ? ? ? ? ? ? H1%Hwr H2%Hwr. by eapply wf_names0.
    + intros p o Hp. destruct (Hold p o Hp) as (_ & o' & Ho' & ->). pose proof (wf_queues0 p o' Ho'). case_decide; [|done]. by destruct o'.
    + intros p p' o o' H1 H2 Hb Hb0. destruct (Hold _ _ H1) as (_ & x & Hx1 & E). destruct (Hold _ _ H2) as (_ & x' & Hx2 & E').
      rewrite E, regroup_buf in Hb, Hb0. rewrite E', regroup_buf in Hb.
      apply (wf_buf0 p p' x x'); congruence.
    + intros p o Hp. destruct (Hold p o Hp) as (_ & o' & Ho' & E). rewrite E, regroup_buf. by apply (wf_lost0 p).
    + intros p. cbn. unfold set_queue. destruct (Z.eqb_spec p port) as [->|Hne].
      * rewrite lookup_delete_eq. split; [by intros []|by intros (o & ? & _)].
      * rewrite wf_waiting0. split; intros (o & Hp & Hw).
        -- eexists. split; [by apply Hnew|]. case_decide; [by destruct o|done].
        -- destruct (Hold p o Hp) as (_ & o' & Ho' & ->). exists o'. split; [done|]. destruct (decide (p ∈ l)); [by destruct o'|done].
  - pose proof Hwf as []. assert (forall p o, a_objs (del_obj port a) !! p = Some o <-> p ≠ port /\ a_objs a !! p = Some o) as Hobj.
    { intros p o. cbn. rewrite lookup_delete. case_decide; [split; [done|by intros [? _]]|]. split; [by split|by intros [_ ?]]. }
    split.
    + cbn. rewrite lookup_delete. by case_decide.
    + intros p o [Hne Hp]%Hobj. pose proof (wf_links0 _ _ Hp) as Hk. destruct o as [n' m' op' pd' rds'|q' c' w' g'|l'|b'|]; try done.
      * destruct Hk as (? & ? & ? & Hk). split_and!; [done..|]. intros r Hi. destruct (Hk r Hi) as (q' & c' & g' & ?). exists q', c', g'. apply Hobj. split; [congruence|done].
      * destruct Hk as [Hk1 Hk2]. split.
        -- intros Hw0. destruct (Hk1 Hw0) as (n' & m' & op' & pd' & rds' & ? & ?). exists n', m', op', pd', rds'. split; [apply Hobj; split; [congruence|done]|done].
        -- intros Hg0. destruct (Hk2 Hg0) as [l ?]. exists l. apply Hobj. split; [congruence|done].
      * destruct Hk as [? Hk]. split; [done|]. intros r Hi. destruct (Hk r Hi) as (q' & c' & w' & ?). exists q', c', w'. apply Hobj. split; [congruence|done].
    + intros p Hi. destruct (wf_list0 p Hi) as (n' & m' & op' & pd' & rds' & Hp). exists n', m', op', pd', rds'. apply Hobj. split; [congruence|done].
    + exact wf_nodup0.
    + intros p p' ? ? ? ? ? ? ? ? ? [_ H1]%Hobj [_ H2]%Hobj. by eapply wf_names0.
    + intros p o [_ Hp]%Hobj. by apply (wf_queues0 p).
    + intros p p' o o' [_ H1]%Hobj [_ H2]%Hobj. by apply wf_buf0.
    + intros p o [_ Hp]%Hobj. by apply (wf_lost0 p).
    + intros p. cbn. unfold set_queue. destruct (Z.eqb_spec p port) as [->|Hne].
      * rewrite lookup_delete_eq. split; [by intros []|by intros (o & ? & _)].
      * rewrite wf_waiting0. split; intros (o & Hp & Hw); exists o; (split; [|done]); [by apply Hobj|by apply Hobj in Hp as [_ ?]].
Qed.

Lemma spec_awf c a p1 p2 self : awf a -> allowed a c = true -> new_obj a p1 -> new_buffer a p2 -> awf (snd (spec c p1 p2 self a)).
Proof.
  intros Hwf Hok Hn1 Hn2. destruct c as [name mode port|name ctx port|ports count group|group port|group port|port pk|port timeout result|
    group port timeout state result wr|port|port|port cl]; cbn [spec].
  - pose proof (create_awf a name mode port p1 p2 Hwf Hn1 Hn2) as Ha. by destruct (spec_create name mode port p1 p2 a) as [[? ?] ?].
  - pose proof (open_awf a name ctx port p1 p2 Hwf Hn1 Hn2) as Ha. by destruct (spec_open name ctx port p1 p2 a) as [[? ?] ?].
  - pose proof (group_awf a ports count group p1 Hwf Hn1) as Ha. by destruct (spec_group ports count group p1 a) as [[? ?] ?].
  - by apply group_add_awf.
  - by apply group_remove_awf.
  - by apply write_awf.
  - pose proof (read_awf a port timeout result self Hwf) as Ha. by destruct (spec_read port timeout result self a) as [? ?].
  - pose proof (read_resumed_awf a group port timeout state result wr self Hwf) as Ha. by destruct (spec_read_resumed group port timeout state result wr self a) as [? ?].
  - by apply destroy_awf.
  - pose proof (close_awf a port Hwf Hok) as Ha. by destruct (spec_close port a) as [? ?].
  - by apply close_resumed_awf.
Qed.

End PortWf.
