(* ===== verification/PortProps.v ===== *)
(** Ports implement bounded queues of packets, and a call that fails changes
    nothing. *)
From S2P Require Import Prelude WaitLib Port PortSpec PortSim PortMake PortXfer PortWf.
Local Open Scope Z_scope.

Module PortProps.
Import WaitLib Port PortSpec PortSim PortMake PortXfer PortClose PortWf.

(** The answers that say that the call did not do what was asked. *)
Definition failed (r : answer) : bool :=
  match r with
  | AStatus rc _ => (rc <? 0) && negb (rc =? ERR_PARTIAL_WRITE)
  | AReadOut (ReadDone rc _) => rc <? 0
  | ACloseOut (CloseDone rc) => rc <? 0
  | _ => false
  end.

(** [port_create] alone hands out a port along with an error. *)
Definition nothing_out (r : answer) : bool :=
  match r with AStatus rc out => bool_decide (out = None) || (rc =? ERR_ALREADY_EXISTS) | _ => true end.

(** A read port that was removed from the group. *)
Definition was_removed (a : aports) (group port : Z) : bool :=
  negb (port =? 0) && negb (group =? 0) &&
  match a_objs a !! group, a_objs a !! port with
  | Some (AGroup l), Some (ARead _ _ _ g) => (g =? group) && negb (bool_decide (port ∈ l))
  | _, _ => false
  end.

(** What a failed call leaves: a thread that goes on in [port_read] gets its lock
    state back, and one that removes a port a second time keeps the lock. *)
Definition after_failure (c : call) (a : aports) : aports :=
  match c with
  | CReadResumed _ _ _ state _ _ => with_alocked state a
  | CGroupRemove group port => if was_removed a group port then with_alocked true a else a
  | _ => a
  end.

Lemma take_fails p result a result' a' : spec_take p result a = (false, result', a') -> a' = a.
Proof. unfold spec_take. destruct (a_objs a !! p) as [[| [? ? [|]] ? ? ?| | |]|]; by intros [= <- <-]. Qed.

Lemma take_any_fails l : forall result a result' a', spec_take_any l result a = (false, result', a') -> a' = a.
Proof.
  induction l as [|p l IH]; intros result a result' a'; cbn; [by intros [= <- <-]|].
  destruct (spec_take p result a) as [[[] r1] a1] eqn:Ht; [done|]. apply take_fails in Ht as ->. apply IH.
Qed.

Lemma read_locked_fails group p timeout state self result a rc result' a' :
  spec_read_locked group p timeout state self result a = (ReadDone rc result', a') -> rc <? 0 = true -> a' = with_alocked state a.
Proof.
  unfold spec_read_locked. destruct (if group then _ else _) as [[found r1] a1] eqn:Ht. destruct found.
  - by intros [= <- <- <-].
  - assert (a1 = a) as ->; [|by destruct (timeout =? 0); intros [= <- <- <-]].
    destruct group; [|by apply take_fails in Ht]. destruct (a_objs a !! p) as [[]|]; try by injection Ht.
    by apply take_any_fails in Ht.
Qed.

Lemma write_reader_status pk rds : forall rc a, rc = NO_ERROR \/ rc = ERR_PARTIAL_WRITE ->
  let r := fold_left (fun r p => spec_write_reader pk p r) rds (rc, a) in fst r = NO_ERROR \/ fst r = ERR_PARTIAL_WRITE.
Proof.
  induction rds as [|p rds IH]; intros rc a Hrc; [done|]. cbn [fold_left].
  destruct (spec_write_reader pk p (rc, a)) as [rc1 a1] eqn:E. apply IH. revert E. unfold spec_write_reader. cbn [fst snd].
  destruct (a_objs a !! p) as [[]|]; try by intros [= <- <-]. case_match; intros [= <- <-]; auto.
Qed.

#[local] Ltac by_cases := repeat (case_match; simplify_eq/=; try done).

(** What [spec] says about failures. *)
Lemma spec_fails c a p1 p2 self : failed (fst (spec c p1 p2 self a)) = true ->
  snd (spec c p1 p2 self a) = after_failure c a /\ nothing_out (fst (spec c p1 p2 self a)) = true.
Proof.
  destruct c as [name mode port|name ctx port|ports count group|group port|group port|port pk|port timeout result|
    group port timeout state result wr|port|port|port cl]; cbn [spec after_failure].
  - unfold spec_create. by_cases.
  - unfold spec_open. by_cases.
  - unfold spec_group. by_cases.
  - unfold spec_group_add. by_cases.
  - unfold spec_group_remove, was_removed. destruct (port =? 0), (group =? 0); try done. cbn [orb negb andb].
    destruct (a_objs a !! group) as [[| |l| |]|], (a_objs a !! port) as [[| | | |]|]; try done.
    destruct (_ =? group); [|done]. cbn [negb andb]. by case_bool_decide.
  - unfold spec_write. destruct pk as [pk|]; [|done]. destruct (port =? 0); [done|]. destruct (a_objs a !! port) as [[n m [] [q|] rds| | | |]|]; try done.
    + by destruct (push q pk).
    + destruct (write_reader_status pk rds NO_ERROR a (or_introl eq_refl)) as [E|E]; unfold plain; cbn in E |- *; by rewrite E.
  - unfold spec_read. destruct result as [result|]; [|done]. destruct (port =? 0); [done|].
    assert (forall g, let r := spec_read_locked g port timeout (a_locked a) self result a in failed (AReadOut (fst r)) = true -> snd r = a) as Hr.
    { intros g r. destruct (spec_read_locked g port timeout (a_locked a) self result a) as [[rc r'|] a1] eqn:E; subst r; [|done]. cbn.
      intros Hf. apply read_locked_fails in E as ->; [|done]. by destruct a. }
    destruct (a_objs a !! port) as [[| | | |]|]; try done.
    + specialize (Hr false). cbn zeta in Hr. destruct (spec_read_locked _ _ _ _ _ _ _). cbn in *. auto.
    + specialize (Hr true). cbn zeta in Hr. destruct (spec_read_locked _ _ _ _ _ _ _). cbn in *. auto.
  - unfold spec_read_resumed. destruct (negb (wr =? NO_ERROR)); [done|].
    destruct (spec_read_locked _ _ _ _ _ _ _) as [[rc r'|] a1] eqn:E; [|done]. cbn. intros Hf. by apply read_locked_fails in E as ->.
  - unfold spec_destroy. by_cases.
  - unfold spec_close. by_cases.
  - unfold spec_close_resumed. by destruct cl.
Qed.

Section props.
Context {K H : Type} `{!WaitOps K} `{!AllocOps H} `{!WaitLaws K} `{!AllocLaws H}.
Abbreviation world := (Port.world (K := K) (H := H)).
Implicit Types (a : aports) (w : world).

Lemma abs_next c a p1 p2 self w' : awf a -> allowed a c = true -> new_obj a p1 -> new_buffer a p2 ->
  sim (snd (spec c p1 p2 self a)) w' -> abs (snd (spec c p1 p2 self a)) w'.
Proof. intros. split; [|done]. by apply spec_awf. Qed.

(** The calls without allocation. *)
Lemma step_of c a w r w' : abs a w -> allowed a c = true ->
  r = fst (spec c 0 0 (wait_self (w_wait w)) a) -> sim (snd (spec c 0 0 (wait_self (w_wait w)) a)) w' ->
  exists p1 p2, new_obj a p1 /\ new_buffer a p2 /\ r = fst (spec c p1 p2 (wait_self (w_wait w)) a) /\
    abs (snd (spec c p1 p2 (wait_self (w_wait w)) a)) w'.
Proof.
  intros [Hwf _] Hok Hr Hs. exists 0, 0. split_and!; [by intros []|by intros []|done|]. by apply abs_next; [..|by intros []|by intros []|].
Qed.

(** The calls with a status and a handle to return. *)
Lemma step_of_out c a w (r : Z * option Z) w' (f : Z -> Z -> Z * option Z * aports) : abs a w -> allowed a c = true ->
  (forall p1 p2 self, spec c p1 p2 self a = out (f p1 p2)) -> does3 a r w' f ->
  exists p1 p2, new_obj a p1 /\ new_buffer a p2 /\ AStatus (fst r) (snd r) = fst (spec c p1 p2 (wait_self (w_wait w)) a) /\
    abs (snd (spec c p1 p2 (wait_self (w_wait w)) a)) w'.
Proof.
  intros [Hwf _] Hok Hc (p1 & p2 & a' & H1 & H2 & Hf & Hs). exists p1, p2. split_and!; [done..|by rewrite Hc, Hf|].
  apply abs_next; [done..|]. by rewrite Hc, Hf.
Qed.

Lemma run_does c a w : abs a w -> allowed a c = true -> may_switch c (w_wait w) ->
  wp (run c) w (fun r w' => exists p1 p2, new_obj a p1 /\ new_buffer a p2 /\
    r = fst (spec c p1 p2 (wait_self (w_wait w)) a) /\ abs (snd (spec c p1 p2 (wait_self (w_wait w)) a)) w').
Proof.
  intros Ha Hok Hm. destruct c as [name mode port|name ctx port|ports count group|group port|group port|port pk|port timeout result|
    group port timeout state result wr|port|port|port cl]; cbn [run may_switch] in *; unfold status, status_out; wp_step.
  - eapply wp_mono; [by apply create_does|]. intros r w' Hd. wp_step. by eapply step_of_out.
  - eapply wp_mono; [by apply open_does|]. intros r w' Hd. wp_step. by eapply step_of_out.
  - eapply wp_mono; [by apply group_does|]. intros r w' Hd. wp_step. by eapply step_of_out.
  - eapply wp_mono; [by apply group_add_does|]. intros r w' [-> Hs]. wp_step. by eapply step_of.
  - eapply wp_mono; [by apply group_remove_does|]. intros r w' [-> Hs]. wp_step. by eapply step_of.
  - eapply wp_mono; [by apply write_does|]. intros r w' [-> Hs]. wp_step. by eapply step_of.
  - eapply wp_mono; [by apply read_does|]. intros r w' [-> Hs]. wp_step. eapply step_of; [done|done|cbn [spec]; by destruct (spec_read _ _ _ _ _)..].
  - eapply wp_mono; [by apply read_resumed_does|]. intros r w' [-> Hs]. wp_step. eapply step_of; [done|done|cbn [spec]; by destruct (spec_read_resumed _ _ _ _ _ _ _ _)..].
  - eapply wp_mono; [by apply destroy_does|]. intros r w' [-> Hs]. wp_step. by eapply step_of.
  - eapply wp_mono; [by apply close_does|]. intros r w' [-> Hs]. wp_step. eapply step_of; [done|done|cbn [spec]; by destruct (spec_close _ _)..].
  - eapply wp_mono; [by apply close_resumed_does|]. intros r w' [-> Hs]. wp_step. by eapply step_of.
Qed.

(** C9. Ports refine bounded queues of packets: from every state that represents an abstract
    port system, each call (create, open, group, group_add, group_remove, write, read,
    destroy, close, and the second halves of a read and a close that gave the processor
    away) returns, gives the abstract call's answer and leaves its state: packets reach
    every reader in order or, before the first one, stay in the port; the first waiting
    thread of the group or the port is woken; buffers and objects are owned once. The
    abstract calls follow the code where it departs from port.h: a write may reach some
    readers only (ERR_PARTIAL_WRITE, not 'all or none'), a broadcast port may have a big
    buffer, and group_remove of a port removed before keeps the lock. For wait queues and
    allocators that keep their laws, and callers that use live handles, do not close a
    port that was removed from its group nor its old group, and free no port that a woken
    reader returns to. *)
Theorem ports_refine a w c : abs a w -> allowed a c = true -> may_switch c (w_wait w) ->
  exists r w' p1 p2 a', run c w = Some (r, w') /\ new_obj a p1 /\ new_buffer a p2 /\
    spec c p1 p2 (wait_self (w_wait w)) a = (r, a') /\ abs a' w'.
Proof.
  intros Ha Hok Hm. destruct (proj1 (wp_run _ _ _) (run_does c a w Ha Hok Hm)) as (r & w' & Hr & p1 & p2 & H1 & H2 & -> & Hs).
  exists (fst (spec c p1 p2 (wait_self (w_wait w)) a)), w', p1, p2, (snd (spec c p1 p2 (wait_self (w_wait w)) a)).
  split_and!; [done..| |done]. by destruct (spec c p1 p2 (wait_self (w_wait w)) a).
Qed.

(** C10. A call on ports that returns an error (a partial write apart, which has served some
    readers) changes nothing: the state represents the same ports, queues, waiting threads
    and lock as before, no object or buffer is left over, and no handle is stored but by
    port_create when the name exists already. Two calls change the lock, as the statement
    says: a read that goes on gets back the lock state of its caller, and
    port_group_remove of a port that was removed from that group before returns
    ERR_BAD_HANDLE with the lock held. Callers are those of ports_refine: live handles, no
    close of a port that was removed from its group nor of its old group. *)
Theorem ports_fail_clean a w c r w' : abs a w -> allowed a c = true -> may_switch c (w_wait w) ->
  run c w = Some (r, w') -> failed r = true -> abs (after_failure c a) w' /\ nothing_out r = true.
Proof.
  intros Ha Hok Hm Hr Hf. destruct (proj1 (wp_run _ _ _) (run_does c a w Ha Hok Hm)) as (r1 & w1 & Hr1 & p1 & p2 & _ & _ & -> & Hs).
  rewrite Hr in Hr1. injection Hr1 as -> <-. destruct (spec_fails _ _ _ _ _ Hf) as [Ha' Hn]. by rewrite <- Ha'.
Qed.
End props.

End PortProps.
