(* ===== verification/PortSample.v ===== *)
(** Ports over the kernel's wait queues and the heap: samples, and what the
    calls do to callers that are not careful. *)
From S2P Require Import Prelude WaitLib Timer KState Thread Sync Sched SchedOps Kernel SyncInv KernelInv Boot KernelProps Mem Page Novm NovmProps Miniheap MiniheapInv Heap HeapProps HeapSample Port PortSpec PortMake PortWf PortProps.
Local Open Scope Z_scope.

(** The kernel provides the wait queues that ports are built on. *)
Module KernelQueues.
Import KState Thread Sync Sched SchedOps Kernel SyncInv KernelInv WaitLib.

Definition on_kernel {A} (m : K A) : M machine A := fun mc =>
  match m (kernel mc) with Some (a, s) => Some (a, MkMachine s (conts mc)) | None => None end.

(** A thread that blocks is left inside [wait_queue_block]; what it does after
    it is with the caller. *)
Definition kernel_block (p timeout : Z) : M machine wait_result := fun mc =>
  match wait_queue_block (WqPort p) timeout (kernel mc) with
  | Some (Done r, s) => Some (WaitDone r, MkMachine s (conts mc))
  | Some (Switched fs, s) => Some (WaitBlocked, MkMachine s (<[k_current (kernel mc) := fs]> (conts mc)))
  | None => None
  end.

Definition port_queue (s : kstate) (p : Z) : option (list nat) :=
  match k_wait_queues s !! WqPort p with
  | Some w => if wq_magic w =? WAIT_QUEUE_MAGIC then Some (wq_list w) else None
  | None => None
  end.

(** A retired queue is empty. *)
Definition retired_empty (s : kstate) : Prop := forall p w,
  k_wait_queues s !! WqPort p = Some w -> wq_magic w ≠ WAIT_QUEUE_MAGIC -> wq_list w = [].

Definition kernel_waits : WaitOps machine := {|
  wait_init p := on_kernel (wait_queue_init (WqPort p));
  wait_block := kernel_block;
  wake_one p err := on_kernel (wait_queue_wake_one (WqPort p) false err);
  wake_all p err := on_kernel (wait_queue_wake_all (WqPort p) false err);
  wait_destroy p := on_kernel (_ ← wait_queue_destroy (WqPort p) true; mret tt);
  wait_retire p := on_kernel (wait_queue_destroy_resumed (WqPort p));
  wait_release p := on_kernel (modify (fun s => with_wait_queues (delete (WqPort p) (k_wait_queues s)) s));
  wait_yield := on_kernel thread_yield;
  wait_ok mc := ok (pend_of (conts mc)) (kernel mc) /\ retired_empty (kernel mc);
  wait_self mc := k_current (kernel mc);
  wait_may_switch mc := conts mc !! k_current (kernel mc) = None /\ k_current (kernel mc) ≠ k_idle_thread (kernel mc);
  timeout_ok t := t = INFINITE_TIME \/ delay_ok t;
  waiting mc := port_queue (kernel mc);
|}.

Lemma wp_queue_kernel {A} (m : K A) mc (Q : A -> machine -> Prop) :
  wp m (kernel mc) (fun a s => Q a (MkMachine s (conts mc))) -> wp (on_kernel m) mc Q.
Proof. unfold wp, on_kernel. by destruct (m (kernel mc)) as [[a s]|]. Qed.

Lemma port_queue_some s p l : port_queue s p = Some l ->
  exists w, k_wait_queues s !! WqPort p = Some w /\ wq_magic w = WAIT_QUEUE_MAGIC /\ wq_list w = l.
Proof.
  unfold port_queue. destruct (k_wait_queues s !! WqPort p) as [w|]; [|done]. destruct (Z.eqb_spec (wq_magic w) WAIT_QUEUE_MAGIC); [|done].
  intros [= <-]. by exists w.
Qed.

(** The queues of ports after a change of one wait queue. *)
Lemma port_queue_insert s s' p w : k_wait_queues s' = <[WqPort p := w]> (k_wait_queues s) ->
  forall q, port_queue s' q = set_queue p (if wq_magic w =? WAIT_QUEUE_MAGIC then Some (wq_list w) else None) (port_queue s) q.
Proof.
  intros Hq q. unfold port_queue, set_queue. rewrite Hq. destruct (Z.eqb_spec q p) as [->|Hne]; [by rewrite lookup_insert_eq|].
  rewrite lookup_insert_ne; [done|congruence].
Qed.

Lemma view_queues s v : view_of s = v -> k_wait_queues s = v_wq v.
Proof. by intros <-. Qed.

(** Nothing refers to a queue without waiters. *)
Lemma ok_empty_queue pend s q (wq' : gmap wqid wait_queue_t) : ok pend s ->
  (forall w, k_wait_queues s !! q = Some w -> wq_list w = []) ->
  (forall q', q' ≠ q -> wq' !! q' = k_wait_queues s !! q') ->
  (forall w, wq' !! q = Some w -> wq_list w = [] /\ wq_count w = 0) -> ok pend (with_wait_queues wq' s).
Proof.
  intros [[] ? ? ? ?] Hempty Hother Hnew.
  assert (forall t, ~ Sched.waiting (k_threads s) t q) as Hno.
  { intros t Hw. pose proof Hw as (th & Hth & Hst & Hb). specialize (si_link0 _ _ Hth (not_elem_of_empty _)). unfold link_ok in si_link0.
    rewrite decide_True in si_link0 by done. destruct si_link0 as (q' & w & Hb' & Hq' & _). rewrite Hb in Hb'. injection Hb' as <-.
    assert (t ∈ wq_list w) as Hin by (apply (si_wq0 q w t Hq'); split; [apply not_elem_of_empty|done]).
    rewrite (Hempty w Hq') in Hin. by apply not_elem_of_nil in Hin. }
  split; [split|..]; simpl; try done.
  - intros q' w t Hw. destruct (decide (q' = q)) as [->|Hne]; [|rewrite Hother in Hw by done; eauto].
    destruct (Hnew w Hw) as [-> _]. split; [by intros ?%not_elem_of_nil|]. intros [_ Hwt]. by destruct (Hno t).
  - intros q' w Hw. destruct (decide (q' = q)) as [->|Hne]; [|rewrite Hother in Hw by done; eauto]. destruct (Hnew w Hw) as [-> _]. constructor.
  - intros q' w Hw. destruct (decide (q' = q)) as [->|Hne]; [|rewrite Hother in Hw by done; eauto]. by destruct (Hnew w Hw) as [-> ->].
  - intros t th Hth HX. specialize (si_link0 _ _ Hth HX). unfold link_ok in *. case_decide as Hst; [|done].
    destruct si_link0 as (q' & w & Hb & Hq' & Hm). exists q', w. rewrite Hother; [done|]. intros ->. apply (Hno t). by exists th.
Qed.

Lemma retired_insert s s' p w : retired_empty s -> k_wait_queues s' = <[WqPort p := w]> (k_wait_queues s) ->
  wq_magic w = WAIT_QUEUE_MAGIC \/ wq_list w = [] -> retired_empty s'.
Proof.
  intros Hs Hq Hw p' w'. rewrite Hq, lookup_insert. case_decide; [|apply Hs]. intros [= <-] Hm. by destruct Hw.
Qed.

Lemma retired_delete s s' p : retired_empty s -> k_wait_queues s' = delete (WqPort p) (k_wait_queues s) -> retired_empty s'.
Proof. intros Hs Hq p' w'. rewrite Hq, lookup_delete. case_decide; [done|]. apply Hs. Qed.

(** A queue of no waiters, whether it is there or not. *)
Definition idle_queue (s : kstate) (p : Z) : Prop := forall w, k_wait_queues s !! WqPort p = Some w -> wq_list w = [].

Lemma idle_queue_of s p : retired_empty s -> port_queue s p = None \/ port_queue s p = Some [] -> idle_queue s p.
Proof.
  intros Hs Hq w Hw. destruct Hq as [Hq|Hq]; unfold port_queue in Hq; rewrite Hw in Hq; destruct (Z.eqb_spec (wq_magic w) WAIT_QUEUE_MAGIC); try done.
  - by apply (Hs p w Hw).
  - by injection Hq.
Qed.

Section laws.
Context (s : kstate) (C : contmap) (p : Z).
Hypothesis Hok : ok (pend_of C) s.
Hypothesis Hre : retired_empty s.

(** Setting an idle queue. *)
Lemma set_idle_law w : idle_queue s p -> wq_list w = [] -> wq_count w = 0 ->
  let s' := with_wait_queues (<[WqPort p := w]> (k_wait_queues s)) s in
  (ok (pend_of C) s' /\ retired_empty s') /\
  forall q, port_queue s' q = set_queue p (if wq_magic w =? WAIT_QUEUE_MAGIC then Some [] else None) (port_queue s) q.
Proof.
  intros Hi Hl Hc s'. split; [split|].
  - apply (ok_empty_queue _ s (WqPort p)); [done|done| |].
    + intros q' Hne. by rewrite lookup_insert_ne.
    + intros w'. rewrite lookup_insert_eq. by intros [= <-].
  - by apply (retired_insert s s' p w); [| |right].
  - rewrite <- Hl. by apply port_queue_insert.
Qed.

Lemma release_law : idle_queue s p ->
  let s' := with_wait_queues (delete (WqPort p) (k_wait_queues s)) s in
  (ok (pend_of C) s' /\ retired_empty s') /\ forall q, port_queue s' q = set_queue p None (port_queue s) q.
Proof.
  intros Hi s'. split; [split|].
  - apply (ok_empty_queue _ s (WqPort p)); [done|done| |].
    + intros q' Hne. by rewrite lookup_delete_ne.
    + intros w'. by rewrite lookup_delete_eq.
  - by apply (retired_delete s s' p).
  - intros q. unfold port_queue, set_queue, s'. cbn. destruct (Z.eqb_spec q p) as [->|Hne]; [by rewrite lookup_delete_eq|].
    rewrite lookup_delete_ne; [done|congruence].
Qed.

Lemma wake_one_law l err : port_queue s p = Some l ->
  wp (wait_queue_wake_one (WqPort p) false err) s (fun r s' => (ok (pend_of C) s' /\ retired_empty s') /\
    k_current s' = k_current s /\ k_idle_thread s' = k_idle_thread s /\
    r = (match l with [] => 0 | _ => 1 end) /\ forall q, port_queue s' q = set_queue p (Some (tail l)) (port_queue s) q).
Proof.
  intros Hq. destruct (port_queue_some _ _ _ Hq) as (w & Hw & Hm & <-).
  eapply wp_mono; [by apply (wake_one_spec (pend_of C) s (WqPort p) w false err)|]. intros r s' [Hok' Hr].
  destruct (wq_list w) as [|t l] eqn:Hl.
  - destruct Hr as [-> ->]. split_and!; try done. intros q. unfold set_queue. destruct (Z.eqb_spec q p) as [->|]; [|done]. by rewrite Hq.
  - destruct Hr as (-> & Hv & Hc). pose proof (view_queues _ _ Hv) as Hvq. cbn in Hvq.
    split_and!; [done|by eapply retired_insert; [..|left]|by apply Hc|by apply (f_equal v_idle) in Hv|done|].
    intros q. rewrite (port_queue_insert s s' p _ Hvq). cbn. by rewrite Hm.
Qed.

Lemma wake_all_law b l err : port_queue s p = Some l -> (b = true -> k_current s ≠ k_idle_thread s) ->
  wp (wait_queue_wake_all (WqPort p) b err) s (fun r s' => (ok (pend_of C) s' /\ retired_empty s') /\
    (b = false -> k_current s' = k_current s) /\ k_idle_thread s' = k_idle_thread s /\
    r = Z.of_nat (length l) /\ forall q, port_queue s' q = set_queue p (Some []) (port_queue s) q).
Proof.
  intros Hq Hb. destruct (port_queue_some _ _ _ Hq) as (w & Hw & Hm & <-).
  eapply wp_mono; [by apply (wake_all_spec (pend_of C) s (WqPort p) w b err)|]. intros r s' (Hok' & -> & Hc & Hv).
  pose proof (view_queues _ _ Hv) as Hvq. cbn in Hvq.
  split_and!; [done|by eapply retired_insert; [..|left]|done|by apply (f_equal v_idle) in Hv|done|].
  intros q. rewrite (port_queue_insert s s' p _ Hvq). cbn. by rewrite Hm.
Qed.

Lemma block_law l timeout : port_queue s p = Some l -> C !! k_current s = None -> k_current s ≠ k_idle_thread s ->
  timeout = INFINITE_TIME \/ delay_ok timeout ->
  wp (kernel_block p timeout) (MkMachine s C) (fun r mc => (ok (pend_of (conts mc)) (kernel mc) /\ retired_empty (kernel mc)) /\
    if timeout =? 0 then r = WaitDone ERR_TIMED_OUT /\ mc = MkMachine s C
    else r = WaitBlocked /\ forall q, port_queue (kernel mc) q = set_queue p (Some (l ++ [k_current s])) (port_queue s) q).
Proof.
  intros Hq HC Hidle Ht. destruct (port_queue_some _ _ _ Hq) as (w & Hw & Hm & <-).
  pose proof (wait_queue_block_spec (pend_of C) s (WqPort p) w timeout Hok Hidle (pend_of_none _ _ HC) Hw Hm Ht) as Hb.
  unfold wp in *. unfold kernel_block. cbn [kernel conts]. destruct (wait_queue_block (WqPort p) timeout s) as [[o s']|]; [|done].
  destruct (timeout =? 0).
  - by destruct Hb as [-> ->].
  - destruct Hb as (-> & Hok' & Hv). cbn [kernel conts]. rewrite pend_of_insert. pose proof (view_queues _ _ Hv) as Hvq. cbn in Hvq.
    split_and!; [done|by eapply retired_insert; [..|left]|done|]. intros q. rewrite (port_queue_insert s s' p _ Hvq). cbn. by rewrite Hm.
Qed.
End laws.

Lemma kernel_wait_laws : @WaitLaws machine kernel_waits.
Proof.
  split; cbn [wait_init wait_block wake_one wake_all wait_destroy wait_retire wait_release wait_yield wait_ok wait_self wait_may_switch timeout_ok waiting kernel_waits].
  - intros [s C] p [Hok Hre] Hp. apply wp_queue_kernel. unfold wait_queue_init, set_wq. wp_step.
    apply set_idle_law; [done|done| |done..]. by apply idle_queue_of; [|left].
  - intros [s C] p l timeout [Hok Hre] [HC Hi] Ht Hp. by apply block_law.
  - intros [s C] p l err [Hok Hre] Hp. apply wp_queue_kernel. eapply wp_mono; [by apply (wake_one_law s C p Hok Hre l err)|].
    cbn. intros r s' (? & Hc & Hid & ? & ?). rewrite Hc, Hid. done.
  - intros [s C] p l err [Hok Hre] Hp. apply wp_queue_kernel. eapply wp_mono; [by apply (wake_all_law s C p Hok Hre false l err)|].
    cbn. intros r s' (? & Hc & Hid & ? & ?). rewrite Hc, Hid by done. done.
  - intros [s C] p l [Hok Hre] [HC Hi] Hp. apply wp_queue_kernel. cbn [kernel conts] in *. destruct (port_queue_some _ _ _ Hp) as (w & Hw & Hm & _).
    unfold wait_queue_destroy, wq_at. wp_step. exists w. split; [done|]. wp_step. rewrite Hm. split; [done|].
    eapply wp_mono; [by apply (wake_all_law s C p Hok Hre true l)|]. intros r s' (? & _ & _ & _ & ?). by wp_step.
  - intros [s C] p [Hok Hre] Hp. apply wp_queue_kernel. cbn [kernel conts] in *. destruct (port_queue_some _ _ _ Hp) as (w & Hw & Hm & Hl).
    unfold wait_queue_destroy_resumed, wq_at, set_wq. wp_step. exists w. split; [done|]. wp_step. rewrite Hl.
    apply (set_idle_law s C p Hok Hre (MkWq 0 [] (wq_count w))); [by apply idle_queue_of; [|right]|done|].
    cbn. rewrite (si_wq_count _ _ _ _ _ _ (ok_sinv _ _ Hok) _ _ Hw), Hl. done.
  - intros [s C] p [Hok Hre] Hp. apply wp_queue_kernel. wp_step. apply release_law; [done|done|]. by apply idle_queue_of.
  - intros [s C] [Hok Hre] [HC Hi]. apply wp_queue_kernel. eapply wp_mono; [by apply (yield_quiet C)|]. cbn. intros [] s' [Hok' Hv].
    pose proof (f_equal v_wq Hv) as Hq. cbn in Hq. unfold retired_empty, port_queue. rewrite Hq. done.
Qed.

End KernelQueues.

(** The heap provides the memory that ports live in. *)
Module HeapAlloc.
Import Page Miniheap MiniheapInv HeapProps.

Section heap.
Context {P : Type} `{PageAllocLaws P}.
Context (F ilo ihi : Z).
Implicit Types w : Heap.state P.

(** The null pointer is 0. *)
Definition heap_allocs : WaitLib.AllocOps (Heap.state P) := {|
  WaitLib.malloc n := r ← Heap.malloc F n; mret (default 0 r);
  WaitLib.calloc n m := r ← Heap.calloc F n m; mret (default 0 r);
  WaitLib.free p := Heap.free F (if p =? 0 then None else Some p);
  WaitLib.alloc_ok := Inv F ilo ihi;
  WaitLib.allocated w p := p ≠ 0 /\ exists h, usable w p h;
|}.

Lemma kept_allocated rel w w' q : kept rel w w' -> ~ rel q ->
  (q ≠ 0 /\ exists h, usable w q h) -> q ≠ 0 /\ exists h, usable w' q h.
Proof. intros Hk Hr (Hq & h & Hu). split; [done|]. exists h. by apply (Hk q h). Qed.

(** A fresh block is not one the client had. *)
Lemma granted_heap w w0 w' (r : option Z) : Inv F ilo ihi w' ->
  kept (fun _ => False) w w0 -> kept (fun _ => False) w0 w' ->
  (forall p, r = Some p -> h_headers (Heap.the_heap w0) !! p = None /\ exists h, usable w' p h) ->
  @WaitLib.granted _ heap_allocs w (default 0 r) w'.
Proof.
  intros Hi Hk Hk' Hr. unfold WaitLib.granted. cbn [WaitLib.alloc_ok WaitLib.allocated heap_allocs]. split_and!; [done| |].
  - intros q Hq. apply (kept_allocated (fun _ => False) w w'); [by eapply kept_trans|by intros []|done].
  - destruct r as [p|]; [|done]. intros Hp. destruct (Hr p eq_refl) as [Hf Hu]. split; [|done].
    intros (_ & h & Hh). destruct (Hk p h Hh) as [[Hh0 _] _]; [by intros []|]. cbn in *. congruence.
Qed.

Lemma heap_alloc_laws : @WaitLib.AllocLaws (Heap.state P) heap_allocs.
Proof.
  split; cbn [WaitLib.malloc WaitLib.calloc WaitLib.free WaitLib.alloc_ok WaitLib.allocated heap_allocs].
  - intros w n Hi Hn. unfold Heap.malloc, Heap.HEAP_MALLOC. wp_step. eapply wp_mono; [by apply (drain_kept F ilo ihi)|].
    intros _ w0 (Hi0 & Hd & Hk & _). eapply wp_mono; [by apply (alloc_call_wp F ilo ihi w0 n 0 Hi0 Hd); [lia|split; [lia|]]|].
    intros r w' (Hi' & Hd' & Hk' & Hr & _). wp_step. apply (granted_heap w w0 w' r); [done..|].
    intros p ->. destruct Hr as (_ & _ & h & Hf & Hh & _). split; [done|]. exists h. split; [rewrite Hh; apply lookup_insert_eq|].
    rewrite Hd'. apply not_elem_of_nil.
  - intros w n m Hi Hn. unfold Heap.calloc. wp_step. eapply wp_mono; [by apply (drain_kept F ilo ihi)|].
    intros _ w0 (Hi0 & Hd & Hk & _). eapply wp_mono; [apply (calloc_call_wp F ilo ihi w0 n m Hi0 Hd); lia|].
    intros r w' (Hi' & Hk' & Hr). wp_step. apply (granted_heap w w0 w' r); [done..|].
    intros p Hp. by destruct (Hr p Hp) as (_ & ? & ?).
  - intros w p Hi (Hp & h & Hu). rewrite (proj2 (Z.eqb_neq p 0) Hp). eapply wp_mono; [by apply (free_call_wp F ilo ihi w p h)|].
    intros _ w' [Hi' Hk]. split; [done|]. intros q Hq Ha. by apply (kept_allocated _ w w' q Hk).
Qed.
End heap.
End HeapAlloc.

Module PortSample.
Import NovmProps Kernel KernelInv Boot KernelProps KernelQueues WaitLib HeapAlloc HeapSample Port PortSpec PortMake PortWf PortProps.

#[local] Existing Instance kernel_waits.
#[local] Existing Instance kernel_wait_laws.
Definition allocs : AllocOps (Heap.state Novm.arenas) := heap_allocs 8 area (area + 256).
#[local] Existing Instance allocs.
Definition alloc_laws : AllocLaws (Heap.state Novm.arenas) := heap_alloc_laws 8 area (area + 256).
#[local] Existing Instance alloc_laws.

Abbreviation sample_world := (Port.world (K := machine) (H := Heap.state Novm.arenas)).
Implicit Types w : sample_world.

(** Two threads that can run, and no ports. *)
Definition no_machine : machine := MkMachine (Boot.boot_state 0%nat) ∅.
Definition machine_after (es : list event) : machine :=
  match boot with Some m => default no_machine (Kernel.run m es) | None => no_machine end.

Lemma machine_after_reachable es : run_from_boot es (fun _ => true) = true -> reachable (machine_after es).
Proof.
  unfold run_from_boot, machine_after. destruct boot as [m|] eqn:Hb; [|done]. intros [Hl Hr]%andb_true_iff.
  destruct (Kernel.run m es) as [m'|] eqn:Hm; [|done]. exact (run_reachable m es m' (reachable_boot m Hb) Hl Hm).
Qed.

Definition m0 : machine := machine_after two_threads.
Definition a0 : aports := MkAPorts ∅ [] false ∅ (fun _ => None).
Definition w0 : sample_world := MkWorld (MkPorts ∅ ∅ [] false) m0 after_init.

Definition no_port_queues (m : machine) : bool :=
  forallb (fun x => match fst x with KState.WqPort _ => false | _ => true end) (map_to_list (KState.k_wait_queues (kernel m))).

Lemma no_port_queue m p : no_port_queues m = true -> KState.k_wait_queues (kernel m) !! KState.WqPort p = None.
Proof.
  unfold no_port_queues. rewrite forallb_forall. intros Hf. destruct (_ !! KState.WqPort p) as [q|] eqn:Hq; [|done].
  apply elem_of_map_to_list, list_elem_of_In in Hq. by apply Hf in Hq.
Qed.

Lemma m0_reachable : reachable m0.
Proof. apply machine_after_reachable. vm_compute. reflexivity. Qed.

Lemma awf0 : awf a0.
Proof.
  split; cbn [a0 a_objs a_list a_waiting].
  - done.
  - intros p o. by rewrite lookup_empty.
  - intros p Hp. by apply not_elem_of_nil in Hp.
  - constructor.
  - intros p p' n m op pd rds m' op' pd' rds'. by rewrite lookup_empty.
  - intros p o. by rewrite lookup_empty.
  - intros p p' o o'. cbn. by rewrite lookup_empty.
  - intros p o. by rewrite lookup_empty.
  - intros p. split; [by intros [? ?]|]. intros (o & Ho & _). by rewrite lookup_empty in Ho.
Qed.

Lemma shapes0 : shapes a0 (MkPorts ∅ ∅ [] false).
Proof.
  split; cbn; try done.
  - intros b. rewrite lookup_empty. split; [by intros [? ?]|]. intros [(_ & p & o & Ho & _)|Hb]; [by cbn in Ho; rewrite lookup_empty in Ho|set_solver].
Qed.

Lemma abs0 : abs a0 w0.
Proof.
  assert (no_port_queues m0 = true) as Hm0 by (vm_compute; reflexivity). pose proof (no_port_queue m0) as Hq.
  split; [exact awf0|]. split; cbn [w0 w_ports w_wait w_heap].
  - exact shapes0.
  - intros p. change (port_queue (kernel m0) p = None). unfold port_queue. by rewrite (Hq p Hm0).
  - split; [exact (inv_ok _ (reachable_Inv _ m0_reachable))|]. intros p q. by rewrite (Hq p Hm0).
  - exact after_init_inv.
  - intros p. cbn [p_objs p_bufs]. rewrite !lookup_empty. by intros [[? ?]|[? ?]].
Qed.

(** * A port with a waiting reader *)

Definition call_result (c : call) w : answer * sample_world := default (AStatus 1 None, w) (PortSpec.run c w).
Abbreviation after c w := (snd (call_result c w)).

Lemma step_abs a w c : abs a w -> allowed a c = true -> may_switch c (w_wait w) ->
  exists p1 p2, new_obj a p1 /\ new_buffer a p2 /\ fst (call_result c w) = fst (spec c p1 p2 (wait_self (w_wait w)) a) /\
    abs (snd (spec c p1 p2 (wait_self (w_wait w)) a)) (after c w).
Proof.
  intros Ha Hok Hm. destruct (proj1 (wp_run _ _ _) (run_does c a w Ha Hok Hm)) as (r & w' & Hr & p1 & p2 & H1 & H2 & -> & Hs).
  exists p1, p2. unfold call_result. by rewrite Hr.
Qed.

Definition can_switch w : bool :=
  let m := w_wait w in bool_decide (conts m !! KState.k_current (kernel m) = None) && negb (is_idle (kernel m)).

Lemma can_switch_ok w : can_switch w = true -> wait_may_switch (w_wait w).
Proof. unfold can_switch, is_idle. intros [H1 H2]%andb_true_iff. by bool_prop. Qed.

Definition name : list Z := [112; 49].
Definition create : call := CCreate (Some name) 0 true.
Definition open : call := COpen (Some name) 5 true.
Definition wp : Z := 1048344.
Definition rp : Z := 1048536.
Definition read : call := CRead rp Thread.INFINITE_TIME (Some no_result).
Definition hello : list port_packet_t := [[104; 101; 108; 108; 111; 0; 0; 0]; [119; 111; 114; 108; 100; 0; 0; 0]].
Definition write : call := CWrite wp (Some hello).

Definition w1 : sample_world := after create w0.
Definition w2 : sample_world := after open w1.
Definition w3 : sample_world := after read w2.

Definition a1 (b : Z) : aports := with_alist [wp] (put_obj wp (AWrite name 0 true (Some (MkQueue b 8 [])) []) a0).

Lemma sample_created : exists b, abs (a1 b) w1.
Proof.
  destruct (step_abs a0 w0 create abs0 eq_refl I) as (p1 & b & _ & _ & Hr & Hs).
  assert (fst (call_result create w0) = AStatus 0 (Some wp)) as E by (vm_compute; reflexivity). rewrite E in Hr. clear E.
  cbn [spec create spec_create name negb orb PORT_NAME_LEN length afind a0 a_list] in Hr, Hs.
  destruct ((p1 =? 0) || (b =? 0)); [done|]. injection Hr as <-. by exists b.
Qed.

(** The port with a reader, and with thread [t] in a read. *)
Definition a2 (b : Z) : aports :=
  put_waiting rp (Some []) (put_obj rp (ARead (MkQueue b 8 []) 5 wp 0) (put_obj wp (AWrite name 0 true None [rp]) (a1 b))).
Definition a3 (b : Z) (t : nat) : aports := with_alocked false (put_waiting rp (Some [t]) (a2 b)).

Lemma sample_opened : exists b, abs (a2 b) w2.
Proof.
  destruct sample_created as [b Ha].
  destruct (step_abs (a1 b) w1 open Ha eq_refl I) as (p1 & b2 & _ & _ & Hr & Hs). exists b.
  assert (fst (call_result open w1) = AStatus 0 (Some rp)) as E by (vm_compute; reflexivity). rewrite E in Hr. clear E.
  revert Hr Hs. unfold w2. cbn [spec open]. unfold spec_open, name. cbn [negb].
  destruct ((p1 =? 0) || (b2 =? 0)); [done|].
  assert (afind (a1 b) (a_list (a1 b)) [112; 49] = Some (wp, true)) as -> by reflexivity.
  assert (a_objs (a1 b) !! wp = Some (AWrite name 0 true (Some (MkQueue b 8 [])) [])) as -> by reflexivity.
  cbn [out fst snd]. by intros [= <-].
Qed.

Lemma sample_waiting : exists b t, abs (a3 b t) w3.
Proof.
  destruct sample_opened as [b Ha]. exists b, (wait_self (w_wait w2)).
  assert (can_switch w2 = true) as Hc by (vm_compute; reflexivity).
  destruct (step_abs _ w2 read Ha eq_refl (conj (can_switch_ok w2 Hc) (or_introl eq_refl))) as (p1 & b2 & _ & _ & _ & Hs).
  unfold w3. revert Hs. generalize (wait_self (w_wait w2)). intros t Hs. exact Hs.
Qed.

Lemma w3_can_switch : can_switch w3 = true.
Proof. vm_compute. reflexivity. Qed.

(** The write wakes the reader. *)
Lemma spec_hello p1 p2 self b t : exists a', spec write p1 p2 self (a3 b t) = (AStatus NO_ERROR None, a') /\
  a_objs a' !! rp = Some (ARead (MkQueue b 8 hello) 5 wp 0) /\ a_waiting a' rp = Some [].
Proof. eexists. split; [reflexivity|]. by split. Qed.

Lemma write_may_switch w : can_switch w = true -> may_switch write (w_wait w).
Proof. intros Hw. exact (can_switch_ok w Hw). Qed.

Lemma ports_refine_witness : exists b t w' a', PortSpec.run write w3 = Some (AStatus NO_ERROR None, w') /\
  a_objs a' !! rp = Some (ARead (MkQueue b 8 hello) 5 wp 0) /\ a_waiting a' rp = Some [] /\ abs (a3 b t) w3 /\ abs a' w'.
Proof.
  destruct sample_waiting as (b & t & Ha). exists b, t.
  destruct (ports_refine (a3 b t) w3 write Ha eq_refl (write_may_switch w3 w3_can_switch)) as (r & w' & p1 & p2 & a' & Hr & _ & _ & Hs & Ha').
  destruct (spec_hello p1 p2 (wait_self (w_wait w3)) b t) as (a4 & H4 & Ho & Hw). rewrite H4 in Hs. injection Hs as <- <-.
  exists w', a4. exact (conj Hr (conj Ho (conj Hw (conj Ha Ha')))).
Defined.

(** Creating it again. *)
Lemma created_twice : exists w', PortSpec.run create w2 = Some (AStatus ERR_ALREADY_EXISTS (Some wp), w').
Proof.
  assert (fst <$> PortSpec.run create w2 = Some (AStatus ERR_ALREADY_EXISTS (Some wp))) as E by (vm_compute; reflexivity).
  destruct (PortSpec.run create w2) as [[r w']|]; [|done]. injection E as ->. by exists w'.
Qed.

Lemma ports_fail_clean_witness : exists b w', PortSpec.run create w2 = Some (AStatus ERR_ALREADY_EXISTS (Some wp), w') /\ abs (a2 b) w'.
Proof.
  destruct sample_opened as [b Ha]. exists b. destruct created_twice as [w' Hr]. exists w'.
  exact (conj Hr (proj1 (ports_fail_clean (a2 b) w2 create _ w' Ha eq_refl I Hr eq_refl))).
Defined.

(** * Careless callers *)

Fixpoint calls (l : list call) w : option sample_world :=
  match l with [] => Some w | c :: l => match PortSpec.run c w with Some (_, w) => calls l w | None => None end end.

(** The answers before the first fault. *)
Fixpoint answers (l : list call) w : list answer :=
  match l with [] => [] | c :: l => match PortSpec.run c w with Some (r, w) => r :: answers l w | None => [] end end.

Definition faults (l : list call) w : bool := match calls l w with Some _ => false | None => true end.

Definition grp : Z := 1048664.
Definition done_ok : answer := AStatus NO_ERROR None.
Definition grouped : list call := [create; open; CGroup (Some [rp]) 1 true; CGroupRemove grp rp].

(** A port that was removed from its group cannot be closed: [list_delete] of a
    node whose links are null. *)
Lemma removed_port_close_faults :
  answers (grouped ++ [CClose rp]) w0 = [AStatus 0 (Some wp); AStatus 0 (Some rp); AStatus 0 (Some grp); done_ok] /\
  faults (grouped ++ [CClose rp]) w0 = true.
Proof. vm_compute. by split. Qed.

(** Nor added to a group again. *)
Lemma removed_port_add_fails : answers (grouped ++ [CGroupAdd grp rp]) w0 =
  [AStatus 0 (Some wp); AStatus 0 (Some rp); AStatus 0 (Some grp); done_ok; AStatus ERR_BAD_HANDLE None].
Proof. vm_compute. reflexivity. Qed.

(** Removed twice, it leaves the thread lock held. *)
Lemma removed_twice_keeps_lock :
  answers (grouped ++ [CGroupRemove grp rp]) w0 =
    [AStatus 0 (Some wp); AStatus 0 (Some rp); AStatus 0 (Some grp); done_ok; AStatus ERR_BAD_HANDLE None] /\
  (fun w => p_locked (w_ports w)) <$> calls (grouped ++ [CGroupRemove grp rp]) w0 = Some true.
Proof. vm_compute. by split. Qed.

(** A reader woken by a packet goes on in a port that was closed before it ran. *)
Lemma reader_after_close_faults :
  faults [CWrite wp (Some hello); CClose rp; CCloseResumed rp (ClosingRead false 0)] w3 = false /\
  faults [CWrite wp (Some hello); CClose rp; CCloseResumed rp (ClosingRead false 0);
         CReadResumed false rp Thread.INFINITE_TIME false no_result NO_ERROR] w3 = true.
Proof. vm_compute. by split. Qed.

(** A buffer that no object points to. *)
Definition lost_buffers w : bool :=
  negb (forallb (fun b => existsb (fun o => match snd o with
    | OWrite x => w_buf x =? b | ORead x => r_buf x =? b | OGroup _ => false end) (map_to_list (p_objs (w_ports w))))
    (map fst (map_to_list (p_bufs (w_ports w))))).

(** Closed after the write port is destroyed, a read port loses its buffer. *)
Lemma close_after_destroy_leaks :
  lost_buffers <$> calls [CClose wp; CDestroy wp; CClose rp; CCloseResumed rp (ClosingRead false 0)] w2 = Some true.
Proof. vm_compute. reflexivity. Qed.

(** Two threads between the two critical sections of [port_create]. *)
Definition two_creators : M sample_world (list (list Z)) :=
  r1 ← port_create_lookup (Some name) 0 true;
  r2 ← port_create_lookup (Some name) 0 true;
  match r1, r2 with
  | inr n1, inr n2 =>
      p1 ← port_create_alloc n1 0;
      p2 ← port_create_alloc n2 0;
      match p1, p2 with
      | inr p1, inr p2 =>
          _ ← port_create_link p1; _ ← port_create_link p2;
          gets (fun w => omap (fun p => match p_objs (w_ports w) !! p with Some (OWrite x) => Some (w_name x) | _ => None end)
            (write_port_list (w_ports w)))
      | _, _ => fault
      end
  | _, _ => fault
  end.

Lemma create_race : fst <$> two_creators w0 = Some [name; name].
Proof. vm_compute. reflexivity. Qed.

(** A big buffer for a broadcast port. *)
Lemma broadcast_big_accepted :
  answers [CCreate (Some name) (Z.lor PORT_MODE_BROADCAST PORT_MODE_BIG_BUFFER) true] w0 = [AStatus NO_ERROR (Some wp)].
Proof. vm_compute. reflexivity. Qed.

End PortSample.
