(* ===== verification/FsPath.v ===== *)
(** Paths, [fs_normalize_path] and [trim_name] of [lib/fs/fs.c]. *)
From S2P Require Import Prelude Mem CString.
Local Open Scope Z_scope.

Module FsPath.
Import Mem CString.

Definition FS_MAX_PATH_LEN : Z := 128.

(** [for (; *name == c; name++)]. *)
Fixpoint skip (fuel : nat) (c name : Z) : M mem Z :=
  match fuel with O => fault | S fuel => b ← rd name; if b =? c then skip fuel c (name + 1) else mret name end.
Definition trim_name (name : Z) : M mem Z :=
  name ← with_fuel (fun n => skip n 32 name);
  with_fuel (fun n => skip n 47 name).

Inductive state := INITIAL | FIELD_START | IN_FIELD | SEP | SEEN_SEP | DOT | SEEN_DOT | DOTDOT | SEEN_DOTDOT.

(** The variables of the loop. *)
Record norm := MkNorm { n_state : state; n_pos : Z; n_outpos : Z; n_done : bool }.

Definition incr (x : Z) : Z := s32 (x + 1).
Definition goto (s : state) (n : norm) : norm := MkNorm s (n_pos n) (n_outpos n) (n_done n).
Definition consume (n : norm) : norm := MkNorm (n_state n) (incr (n_pos n)) (n_outpos n) (n_done n).
Definition finish (n : norm) : norm := MkNorm (n_state n) (n_pos n) (n_outpos n) true.

(** [path[outpos++] = c]. *)
Definition emit (path c : Z) (n : norm) : M mem norm :=
  _ ← wr (path + n_outpos n) c; mret (MkNorm (n_state n) (n_pos n) (incr (n_outpos n)) (n_done n)).

(** Back to the boundary of the field before [outpos]. *)
Fixpoint walk_back (path : Z) (outpos : nat) : M mem Z :=
  match outpos with
  | O => mret 0
  | S k => b ← rd (path + Z.of_nat k); if b =? 47 then mret (Z.of_nat outpos) else walk_back path k
  end.
Definition backtrack (path : Z) (n : norm) : M mem norm :=
  if 0 <? n_outpos n then
    o ← walk_back path (Z.to_nat (n_outpos n - 1)); mret (MkNorm (n_state n) (n_pos n) o (n_done n))
  else mret n.

(** The switch, on the character [c]: [/] is 47, [.] is 46. *)
Definition norm_act (path c : Z) (n : norm) : M mem norm :=
  match n_state n with
  | INITIAL => mret (goto (if c =? 47 then SEP else if c =? 46 then DOT else FIELD_START) n)
  | FIELD_START => mret (if c =? 46 then goto DOT n else if c =? 0 then finish n else goto IN_FIELD n)
  | IN_FIELD =>
      if c =? 47 then mret (goto SEP n)
      else if c =? 0 then mret (finish n)
      else n ← emit path c n; mret (consume n)
  | SEP => n ← emit path 47 (consume n); mret (goto SEEN_SEP n)
  | SEEN_SEP => mret (if c =? 47 then consume n else if c =? 0 then finish n else goto FIELD_START n)
  | DOT => mret (goto SEEN_DOT (consume n))
  | SEEN_DOT =>
      if c =? 46 then mret (goto DOTDOT n)
      else if c =? 47 then mret (goto SEEN_SEP (consume n))
      else if c =? 0 then mret (finish n)
      else n ← emit path 46 n; mret (goto IN_FIELD n)
  | DOTDOT => mret (goto SEEN_DOTDOT (consume n))
  | SEEN_DOTDOT =>
      if (c =? 47) || (c =? 0) then
        n ← backtrack path n;
        let n := goto SEEN_SEP (consume n) in
        mret (if c =? 0 then finish n else n)
      else
        n ← emit path 46 n; n ← emit path 46 n; mret (goto IN_FIELD n)
  end.

Definition norm_round (path : Z) (n : norm) : M mem norm := c ← rd (path + n_pos n); norm_act path c n.

Fixpoint norm_loop (fuel : nat) (path : Z) (n : norm) : M mem norm :=
  match fuel with
  | O => fault
  | S fuel => n ← norm_round path n; if n_done n then mret n else norm_loop fuel path n
  end.

(** A character takes at most four rounds. *)
Definition fs_normalize_path (path : Z) : M mem unit :=
  n ← with_fuel (fun k => norm_loop (4 * k + 8) path (MkNorm INITIAL 0 0 false));
  outpos ← (if 0 <? n_outpos n then
              b ← rd (path + (n_outpos n - 1)); mret (if b =? 47 then n_outpos n - 1 else n_outpos n)
            else mret (n_outpos n));
  wr (path + outpos) 0.

(** [strlcpy] into a local array and [fs_normalize_path]. *)
Definition normalized_copy (temppath path : Z) : M mem unit :=
  _ ← strlcpy temppath path FS_MAX_PATH_LEN; fs_normalize_path temppath.

(** * What it computes *)

(** The fields between the separators of a path. *)
Fixpoint fields (l : list Z) : list (list Z) :=
  match l with
  | [] => [[]]
  | c :: l => if c =? 47 then [] :: fields l
              else match fields l with f :: fs => (c :: f) :: fs | [] => [[c]] end
  end.

(** A field joins those before it; [..] removes the last of them. *)
Definition enter (us : list (list Z)) (f : list Z) : list (list Z) :=
  if bool_decide (f = []) || bool_decide (f = [46]) then us
  else if bool_decide (f = [46; 46]) then removelast us
  else us ++ [f].

Fixpoint join (us : list (list Z)) : list Z :=
  match us with [] => [] | [u] => u | u :: us => u ++ 47 :: join us end.

(** A path that starts with a separator has an empty first field. *)
Definition walk (l : list Z) : list (list Z) :=
  match fields l with
  | f :: fs => fold_left enter fs (if bool_decide (f = []) then [[]] else enter [] f)
  | [] => []
  end.
Definition canonical (l : list Z) : list Z := join (walk l).

End FsPath.
