(* ===== verification/FsPathProps.v ===== *)
(** [fs_normalize_path] ends, in the canonical form of its path. *)
From S2P Require Import Prelude Mem CString CStringProps StrProps FsPath.
Local Open Scope Z_scope.

Module FsPathProps.
Import Mem CString CStringProps StrProps FsPath.

Notation slash := 47.
Notation dot := 46.
Abbreviation lenZ l := (Z.of_nat (length l)).

(** * Fields *)

(** A field that stays: neither empty nor [.] nor [..]. *)
Definition plain (f : list Z) : Prop := slash ∉ f /\ f ≠ [] /\ f ≠ [dot] /\ f ≠ [dot; dot].

Lemma enter_plain us f : plain f -> enter us f = us ++ [f].
Proof. intros (_ & H1 & H2 & H3). unfold enter. by rewrite !bool_decide_eq_false_2. Qed.

(** The fields so far, each behind its separator. *)
Definition flat (us : list (list Z)) : list Z := concat (map (fun u => u ++ [slash]) us).

Lemma flat_snoc us u : flat (us ++ [u]) = flat us ++ u ++ [slash].
Proof. unfold flat. rewrite map_app, concat_app. cbn. by rewrite app_nil_r. Qed.

Lemma flat_join us : us ≠ [] -> flat us = join us ++ [slash].
Proof.
  induction us as [|u [|v us] IH]; [done|unfold flat; cbn; by rewrite app_nil_r|]. intros _.
  change (flat (u :: v :: us)) with ((u ++ [slash]) ++ flat (v :: us)). rewrite IH by done.
  change (join (u :: v :: us)) with (u ++ slash :: join (v :: us)). by rewrite <- !app_assoc.
Qed.

Lemma join_snoc us u : join (us ++ [u]) = flat us ++ u.
Proof.
  induction us as [|v [|w us] IH]; [done|by unfold flat; cbn; rewrite app_nil_r, <- app_assoc|].
  change ((v :: w :: us) ++ [u]) with (v :: (w :: us) ++ [u]). change (join (v :: (w :: us) ++ [u])) with (v ++ slash :: join ((w :: us) ++ [u])).
  rewrite IH. change (flat (v :: w :: us)) with ((v ++ [slash]) ++ flat (w :: us)). by rewrite <- !app_assoc.
Qed.

Lemma fields_nonempty l : exists f fs, fields l = f :: fs.
Proof. induction l as [|c l (f & fs & E)]; cbn; [by exists [], []|]. destruct (c =? slash); [by exists [], (fields l)|]. rewrite E. by exists (c :: f), fs. Qed.

Lemma fields_plain g l : slash ∉ g -> fields (g ++ l) = match fields l with f :: fs => (g ++ f) :: fs | [] => [] end.
Proof.
  induction g as [|c g IH]; intros Hg; cbn [app].
  - destruct (fields_nonempty l) as (f & fs & ->). done.
  - apply not_elem_of_cons in Hg as [Hc Hg]. cbn. rewrite (proj2 (Z.eqb_neq c slash)) by done. rewrite IH by done.
    destruct (fields_nonempty l) as (f & fs & ->). done.
Qed.

Lemma fields_slash g l : slash ∉ g -> fields (g ++ slash :: l) = g :: fields l.
Proof. intros Hg. rewrite fields_plain by done. cbn. by rewrite app_nil_r. Qed.

Lemma fields_last g : slash ∉ g -> fields g = [g].
Proof. intros Hg. rewrite <- (app_nil_r g), fields_plain by done. cbn. by rewrite app_nil_r. Qed.

(** What remains to be done with the fields [us] entered. *)
Definition rest_walk (us : list (list Z)) (l : list Z) : list (list Z) := fold_left enter (fields l) us.

Lemma rest_walk_nil us : rest_walk us [] = us.
Proof. done. Qed.
Lemma rest_walk_slash us g l : slash ∉ g -> rest_walk us (g ++ slash :: l) = rest_walk (enter us g) l.
Proof. intros Hg. unfold rest_walk. by rewrite fields_slash. Qed.
Lemma rest_walk_last us g : slash ∉ g -> rest_walk us g = enter us g.
Proof. intros Hg. unfold rest_walk. by rewrite fields_last. Qed.

Lemma walk_slash l : walk (slash :: l) = rest_walk [[]] l.
Proof. done. Qed.
Lemma walk_other l : head l ≠ Some slash -> join (walk l) = join (rest_walk [] l).
Proof.
  intros Hl. unfold walk, rest_walk. destruct l as [|c l]; [done|]. cbn in *. destruct (Z.eqb_spec c slash) as [->|Hc]; [done|].
  destruct (fields_nonempty l) as (f & fs & ->). done.
Qed.

(** * Canonical paths *)

Definition good (us : list (list Z)) : Prop := Forall plain us \/ exists vs, us = [] :: vs /\ Forall plain vs.

Lemma removelast_Forall {A} (P : A -> Prop) l : Forall P l -> Forall P (removelast l).
Proof. induction 1 as [|x l Hx Hl IH]; cbn; [done|]. destruct l; [done|]. by constructor. Qed.

Lemma good_removelast us : good us -> good (removelast us).
Proof.
  intros [Hu|(vs & -> & Hv)]; [left; by apply removelast_Forall|]. destruct vs as [|v vs]; [by left|]. right.
  exists (removelast (v :: vs)). split; [done|]. by apply removelast_Forall.
Qed.

Lemma good_enter us f : good us -> slash ∉ f -> good (enter us f).
Proof.
  intros Hg Hf. unfold enter. repeat case_bool_decide; cbn; try done; [by apply good_removelast|].
  destruct Hg as [Hu|(vs & -> & Hv)]; [left|right; exists (vs ++ [f]); split; [done|]]; apply Forall_app; split; try done;
    by repeat constructor.
Qed.

Lemma fields_no_slash l : Forall (fun f => slash ∉ f) (fields l).
Proof.
  induction l as [|c l IH]; cbn; [apply Forall_singleton, not_elem_of_nil|]. destruct (Z.eqb_spec c slash) as [->|Hc]; [constructor; [apply not_elem_of_nil|done]|].
  destruct (fields_nonempty l) as (f & fs & E). rewrite E in *. apply Forall_cons in IH as [Hf Hfs]. constructor; [|done].
  by apply not_elem_of_cons.
Qed.

Lemma good_rest us l : good us -> good (rest_walk us l).
Proof.
  unfold rest_walk. pose proof (fields_no_slash l) as Hl. revert us. generalize dependent (fields l). intros fl Hl. induction Hl as [|f fs Hf Hfs IH]; intros us Hg; [done|].
  cbn. apply IH. by apply good_enter.
Qed.

Lemma good_walk l : good (walk l).
Proof.
  destruct l as [|c l]; [by right; exists []|]. destruct (decide (c = slash)) as [->|Hc].
  - rewrite walk_slash. apply good_rest. by right; exists [].
  - unfold walk. destruct (fields_nonempty (c :: l)) as (f & fs & E). pose proof (fields_no_slash (c :: l)) as Hf. rewrite E in *.
    apply Forall_cons in Hf as [Hf Hfs]. rewrite bool_decide_eq_false_2.
    + pose proof (good_enter [] f ltac:(by left) Hf) as Hg. revert Hg. generalize (enter [] f). clear -Hfs.
      induction Hfs as [|g fs Hg Hfs IH]; intros us Hus; [done|]. cbn. apply IH. by apply good_enter.
    + intros ->. cbn in E. rewrite (proj2 (Z.eqb_neq c slash)) in E by done. by destruct (fields l).
Qed.

(** The fields of a canonical path are those it was made of. *)
Lemma fields_join us : us ≠ [] -> Forall (fun f => slash ∉ f) us -> fields (join us) = us.
Proof.
  induction us as [|u [|v us] IH]; [done| |]; intros _ Hu; apply Forall_cons in Hu as [Hu Hus].
  - by apply fields_last.
  - change (join (u :: v :: us)) with (u ++ slash :: join (v :: us)). rewrite fields_slash by done. by rewrite IH.
Qed.

Lemma enter_all vs : forall us, Forall plain vs -> fold_left enter vs us = us ++ vs.
Proof.
  induction vs as [|v vs IH]; intros us Hv; [by rewrite app_nil_r|]. apply Forall_cons in Hv as [Hv Hvs]. cbn.
  rewrite enter_plain, IH by done. by rewrite <- app_assoc.
Qed.

Lemma good_no_slash us : good us -> Forall (fun f => slash ∉ f) us.
Proof.
  intros [Hu|(vs & -> & Hv)]; [|constructor; [apply not_elem_of_nil|]]; eapply Forall_impl; try done; by intros ? [? _].
Qed.

Lemma canonical_good us : good us -> canonical (join us) = join us.
Proof.
  intros Hg. destruct us as [|u us]; [done|]. unfold canonical, walk. rewrite fields_join; [|done|by apply good_no_slash].
  destruct Hg as [Hu|(vs & [= -> ->] & Hv)].
  - apply Forall_cons in Hu as [Hu Hus]. rewrite bool_decide_eq_false_2 by (apply Hu). rewrite enter_plain by done.
    by rewrite enter_all.
  - rewrite bool_decide_eq_true_2 by done. by rewrite enter_all.
Qed.

Lemma canonical_twice l : canonical (canonical l) = canonical l.
Proof. apply canonical_good, good_walk. Qed.

(** * The loop *)

Section loop.
Context (p : Z) (N : nat) (m0 : mem) (Hsmall : Z.of_nat N + 2 < 2 ^ 31).

(** Characters read and not yet written. *)
Definition slack (st : state) : Z := match st with SEEN_DOT | DOTDOT => 1 | SEEN_DOTDOT => 2 | _ => 0 end.

(** [out] is what is written, [rest] what is not yet read. *)
Record cfg (st : state) (out rest : list Z) (n : norm) (m : mem) : Prop := {
  c_state : n_state n = st;
  c_done : n_done n = false;
  c_outpos : n_outpos n = lenZ out;
  c_pos : n_pos n + lenZ rest = Z.of_nat N;
  c_slack : lenZ out + slack st <= n_pos n;
  c_out : bytes_at m p out;
  c_rest : cstr m (p + n_pos n) rest;
  c_mapped : mapped m p (S N);
  c_frame a : a < p \/ p + Z.of_nat N < a -> m !! a = m0 !! a
}.

Definition strip (out : list Z) : list Z := if bool_decide (last out = Some slash) then removelast out else out.

(** The end of the loop. *)
Record fin (R : list Z) (n : norm) (m : mem) : Prop := {
  f_done : n_done n = true;
  f_out : exists out, n_outpos n = lenZ out /\ bytes_at m p out /\ strip out = R /\ lenZ out <= Z.of_nat N;
  f_mapped : mapped m p (S N);
  f_frame a : a < p \/ p + Z.of_nat N < a -> m !! a = m0 !! a
}.

Abbreviation ends fuel n m R := (wp (norm_loop fuel p n) m (fin R)).

Lemma loop_round fuel n m Q : wp (norm_round p n) m (fun n' m' => if n_done n' then Q n' m' else wp (norm_loop fuel p n') m' Q) ->
  wp (norm_loop (S fuel) p n) m Q.
Proof. intros Hr. cbn [norm_loop]. wp_step. eapply wp_mono; [done|]. cbn. intros n' m' Hn. by destruct (n_done n'). Qed.

Lemma incr_small x : 0 <= x -> x + 1 < 2 ^ 31 -> incr x = x + 1.
Proof. intros. unfold incr. apply sw_small; lia. Qed.

(** The current character. *)
Lemma read_cur st out c rest n m : cfg st out (c :: rest) n m -> m !! (p + n_pos n) = Some c /\ c ≠ 0 /\ byte c /\ cstr m (p + (n_pos n + 1)) rest.
Proof. intros [_ _ _ _ _ _ Hr _ _]. apply cstr_cons in Hr. by rewrite Z.add_assoc. Qed.

Lemma read_end st out n m : cfg st out [] n m -> m !! (p + n_pos n) = Some 0.
Proof. intros [_ _ _ _ _ _ Hr _ _]. by apply cstr_nil in Hr. Qed.

(** Storing a character behind [out]. *)
Lemma wp_emit out c n m Q : n_outpos n = lenZ out -> lenZ out <= Z.of_nat N -> byte c -> bytes_at m p out -> mapped m p (S N) ->
  (forall m', m' = <[p + lenZ out := c]> m -> bytes_at m' p (out ++ [c]) -> mapped m' p (S N) ->
    Q (MkNorm (n_state n) (n_pos n) (lenZ (out ++ [c])) (n_done n)) m') -> wp (emit p c n) m Q.
Proof.
  intros Ho HN Hc Hout Hm Hk. unfold emit, wr, rd. wp_step. destruct (Hm (length out) ltac:(lia)) as [b Hb].
  exists b. rewrite Ho. split; [done|]. wp_step. rewrite uw_small by exact Hc. rewrite incr_small by lia.
  replace (lenZ out + 1) with (lenZ (out ++ [c])) by (rewrite length_app; cbn; lia). apply Hk; [done| |].
  - apply bytes_at_app. split; [|apply bytes_at_cons; split; [apply lookup_insert_eq|apply bytes_at_nil]].
    intros i x Hi. rewrite lookup_insert_ne; [by apply Hout|]. apply lookup_lt_Some in Hi. lia.
  - intros i Hi. rewrite lookup_insert. case_decide; [done|by apply Hm].
Qed.

Lemma frame_insert (m : mem) a x y : (a < p \/ p + Z.of_nat N < a -> m !! a = m0 !! a) -> p <= x <= p + Z.of_nat N ->
  a < p \/ p + Z.of_nat N < a -> <[x := y]> m !! a = m0 !! a.
Proof. intros Hf Hx Ha. rewrite lookup_insert_ne by lia. auto. Qed.

Definition cur (rest : list Z) : Z := match rest with [] => 0 | c :: _ => c end.

Lemma round_at fuel st out rest n m Q : cfg st out rest n m ->
  wp (norm_act p (cur rest) n) m (fun n' m' => if n_done n' then Q n' m' else wp (norm_loop fuel p n') m' Q) ->
  wp (norm_loop (S fuel) p n) m Q.
Proof.
  intros Hc Ha. apply loop_round. unfold norm_round, rd. wp_step. exists (cur rest). split; [|exact Ha].
  destruct rest as [|c rest]; [by eapply read_end|by eapply read_cur].
Qed.

(** Rounds that only change the state, or read a character. *)
Lemma cfg_goto st st' out rest n m : cfg st out rest n m -> slack st' <= slack st -> cfg st' out rest (goto st' n) m.
Proof. intros [] Hs. split; try done; cbn. lia. Qed.

Lemma cfg_consume st st' out c rest n m : cfg st out (c :: rest) n m -> slack st' <= slack st + 1 ->
  cfg st' out rest (goto st' (consume n)) m.
Proof.
  intros Hc Hs. pose proof (read_cur _ _ _ _ _ _ Hc) as (_ & _ & _ & Hr). destruct Hc as [H1 H2 H3 H4 H5 H6 _ H8 H9]. cbn in H4.
  assert (0 <= slack st) by (destruct st; cbn; lia).
  split; cbn; try done; rewrite ?incr_small by lia; try lia. done.
Qed.

Lemma cfg_finish st out rest n m R : cfg st out rest n m -> strip out = R -> fin R (finish n) m.
Proof.
  intros [] HR. split; cbn; try done. exists out. split_and!; try done. assert (0 <= slack st) by (destruct st; cbn; lia). lia.
Qed.

Lemma consume_pos st out c rest n m : cfg st out (c :: rest) n m -> n_pos (consume n) = n_pos n + 1.
Proof.
  intros [_ _ _ Hp Hs _ _ _ _]. cbn in Hp. assert (0 <= slack st) by (destruct st; cbn; lia). apply incr_small; lia.
Qed.

(** Writing [c]; [n] is the state once the characters before [rest] are read. *)
Lemma cfg_emit st st' out c rest n n' m Q : cfg st out rest n m -> byte c -> n_outpos n' = lenZ out ->
  lenZ out + 1 + slack st' <= n_pos n ->
  (forall m2, (forall n3, n_pos n3 = n_pos n -> n_outpos n3 = lenZ (out ++ [c]) -> n_done n3 = false ->
      cfg st' (out ++ [c]) rest (goto st' n3) m2) ->
    Q (MkNorm (n_state n') (n_pos n') (lenZ (out ++ [c])) (n_done n')) m2) -> wp (emit p c n') m Q.
Proof.
  intros [H1 H2 H3 H4 H5 H6 H7 H8 H9] Hc Ho Hpos Hk.
  assert (0 <= slack st /\ 0 <= slack st') as [Hst Hst'] by (destruct st, st'; cbn; lia).
  apply (wp_emit out c); [done|lia|done|done|done|]. intros m' -> Hout Hm. apply Hk. intros n3 Hn3 Ho3 Hd3.
  split; cbn; try done; rewrite ?Hn3; try done.
  - rewrite length_app. cbn. lia.
  - apply cstr_insert; [done|]. left. lia.
  - intros a Ha. apply frame_insert; [auto|lia|done].
Qed.

(** Dropping the last field. *)
Lemma walk_back_wp us u k (m : mem) : Forall (fun f => slash ∉ f) us -> slash ∉ u -> bytes_at m p (flat us ++ u) ->
  k = length (flat us ++ u) -> wp (walk_back p k) m (fun o m' => m' = m /\ o = lenZ (flat us)).
Proof.
  intros Hus Hu. revert k. induction u as [|c u IH] using rev_ind; intros k Hb ->.
  - rewrite app_nil_r in *. destruct us as [|v us _] using rev_ind; [by cbn; wp_step|].
    rewrite flat_snoc in *. rewrite app_assoc in *. rewrite length_app. cbn [length]. rewrite Nat.add_1_r. cbn [walk_back].
    apply bytes_at_app in Hb as [_ Hb]. apply bytes_at_cons in Hb as [Hb _]. unfold rd. wp_step. exists slash. split; [done|].
    cbn. split; [done|]. lia.
  - rewrite app_assoc in *. rewrite length_app. cbn [length]. rewrite Nat.add_1_r. cbn [walk_back].
    apply bytes_at_app in Hb as [Hb Hc]. apply bytes_at_cons in Hc as [Hc _]. unfold rd. wp_step. exists c. split; [done|].
    apply not_elem_of_app in Hu as [Hu Hcs]. rewrite (proj2 (Z.eqb_neq c slash)) by set_solver. by apply IH.
Qed.

Lemma backtrack_wp us n (m : mem) : Forall (fun f => slash ∉ f) us -> n_outpos n = lenZ (flat us) -> bytes_at m p (flat us) ->
  wp (backtrack p n) m (fun n' m' => m' = m /\ n' = MkNorm (n_state n) (n_pos n) (lenZ (flat (removelast us))) (n_done n)).
Proof.
  intros Hus Ho Hb. unfold backtrack. rewrite Ho. destruct us as [|u us _] using rev_ind.
  - cbn. wp_step. split; [done|]. destruct n. cbn in *. by subst.
  - apply Forall_app in Hus as [Hus Hu]. apply Forall_cons in Hu as [Hu _]. rewrite removelast_last.
    rewrite flat_snoc, app_assoc in *. apply bytes_at_app in Hb as [Hb _]. rewrite length_app. cbn [length].
    rewrite (proj2 (Z.ltb_lt _ _)) by lia. wp_step. eapply wp_mono; [apply (walk_back_wp us u); [done|done|done|lia]|].
    cbn. intros o m' [-> ->]. by wp_step.
Qed.

Lemma flat_removelast us : bytes_at m0 p (flat us) -> bytes_at m0 p (flat (removelast us)).
Proof.
  destruct us as [|u us _] using rev_ind; [done|]. rewrite removelast_last, flat_snoc. by intros [? _]%bytes_at_app.
Qed.

Lemma strip_flat us : strip (flat us) = join us.
Proof.
  unfold strip. destruct us as [|u us _] using rev_ind; [done|]. rewrite (flat_join (us ++ [u])) by (by destruct us).
  by rewrite last_snoc, bool_decide_eq_true_2, removelast_last.
Qed.

Lemma strip_field us g : slash ∉ g -> g ≠ [] -> strip (flat us ++ g) = join (us ++ [g]).
Proof.
  intros Hg Hne. unfold strip. destruct g as [|c g _] using rev_ind; [done|]. rewrite app_assoc, last_snoc, bool_decide_eq_false_2.
  - by rewrite join_snoc, app_assoc.
  - intros [= ->]. set_solver.
Qed.

(** ** The states *)

Definition no_slash (us : list (list Z)) : Prop := Forall (fun f => slash ∉ f) us.

(** However it goes on, the field stays. *)
Definition solid (g : list Z) : Prop := forall f, slash ∉ f -> plain (g ++ f).

Lemma solid_plain g : solid g -> plain g.
Proof. intros Hg. rewrite <- (app_nil_r g). apply Hg, not_elem_of_nil. Qed.

Lemma solid_snoc g c : solid g -> c ≠ slash -> solid (g ++ [c]).
Proof. intros Hg Hc f Hf. rewrite <- app_assoc. apply Hg. set_solver. Qed.

Definition Seen (rest : list Z) : Prop := forall us n m fuel, no_slash us -> cfg SEEN_SEP (flat us) rest n m ->
  (4 * length rest + 4 <= fuel)%nat -> ends fuel n m (join (rest_walk us rest)).

Ltac next := match goal with |- wp (norm_loop ?f p ?n) _ _ => destruct f as [|f]; [cbn in *; lia|] end.
Ltac act Hc := eapply round_at; [exact Hc|]; unfold norm_act; rewrite (c_state _ _ _ _ _ Hc); cbn [cur].

Lemma sep_round us g rest n m fuel : cfg SEP (flat us ++ g) (slash :: rest) n m -> slash ∉ g -> Seen rest -> no_slash us ->
  (4 * length rest + 5 <= fuel)%nat -> ends fuel n m (join (rest_walk (us ++ [g]) rest)).
Proof.
  intros Hc Hg Hs Hus Hf. next. act Hc. wp_step. pose proof (cfg_consume SEP SEP _ _ _ _ _ Hc) as Hc'.
  assert (lenZ (flat us ++ g) <= n_pos n) as Hpos by (destruct Hc as [_ _ _ _ Hsl _ _ _ _]; cbn in Hsl; lia).
  pose proof (consume_pos _ _ _ _ _ _ Hc) as Hn1.
  eapply (cfg_emit SEP SEEN_SEP _ slash rest _ (consume n)); [apply Hc'; cbn; lia|by unfold byte|exact (c_outpos _ _ _ _ _ Hc)|cbn [slack goto n_pos]; lia|].
  intros m2 Hk. wp_step. cbn [goto n_done consume]. rewrite (c_done _ _ _ _ _ Hc).
  apply Hs; [by apply Forall_app; split; [|apply Forall_singleton]| |lia]. rewrite flat_snoc, app_assoc.
  apply (Hk (MkNorm _ _ _ false)); [|done|done]. cbn. done.
Qed.

(** A character is written. *)
Lemma char_round out c rest n m fuel Q : cfg IN_FIELD out (c :: rest) n m -> c ≠ slash ->
  (forall n2 m2, cfg IN_FIELD (out ++ [c]) rest n2 m2 -> wp (norm_loop fuel p n2) m2 Q) -> wp (norm_loop (S fuel) p n) m Q.
Proof.
  intros Hc Hcs Hk. act Hc. rewrite (proj2 (Z.eqb_neq c slash)) by done.
  destruct (read_cur _ _ _ _ _ _ Hc) as (_ & Hc0 & Hcb & _). rewrite (proj2 (Z.eqb_neq c 0)) by done. wp_step.
  pose proof (cfg_consume _ IN_FIELD _ _ _ _ _ Hc ltac:(cbn; lia)) as Hc'. pose proof (consume_pos _ _ _ _ _ _ Hc) as Hn.
  eapply (cfg_emit IN_FIELD IN_FIELD _ c rest _ n); [exact Hc'|done|exact (c_outpos _ _ _ _ _ Hc)| |].
  { destruct Hc as [_ _ _ _ Hsl _ _ _ _]. cbn [slack goto n_pos] in *. lia. }
  intros m2 Hm2. wp_step. cbn [consume n_done n_pos n_outpos n_state]. rewrite (c_done _ _ _ _ _ Hc), (c_state _ _ _ _ _ Hc).
  apply Hk. apply (Hm2 (MkNorm IN_FIELD (incr (n_pos n)) (lenZ (out ++ [c])) false)); done.
Qed.

Lemma in_field rest : (forall r, (length r < length rest)%nat -> Seen r) -> forall us g n m fuel, no_slash us -> solid g ->
  cfg IN_FIELD (flat us ++ g) rest n m -> (4 * length rest + 2 <= fuel)%nat -> ends fuel n m (join (rest_walk us (g ++ rest))).
Proof.
  induction rest as [|c rest IH]; intros Hr us g n m fuel Hus Hg Hc Hf; next; pose proof (solid_plain g Hg) as [Hgs [Hgn _]].
  - act Hc. wp_step. cbn. eapply cfg_finish; [done|]. rewrite app_nil_r, rest_walk_last, enter_plain by (done || by apply solid_plain).
    by apply strip_field.
  - destruct (Z.eqb_spec c slash) as [->|Hcs].
    + act Hc. cbn [Z.eqb Pos.eqb]. wp_step. cbn [goto n_done]. rewrite (c_done _ _ _ _ _ Hc).
      rewrite rest_walk_slash, enter_plain by (done || by apply solid_plain).
      cbn in Hf. apply sep_round; [by eapply cfg_goto|done|apply Hr; cbn; lia|done|lia].
    + eapply char_round; [done|done|]. intros n2 m2 Hc2. replace (g ++ c :: rest) with ((g ++ [c]) ++ rest) by by rewrite <- app_assoc.
      apply IH; [intros r Hlr; apply Hr; cbn; lia|done|by apply solid_snoc|by rewrite app_assoc|cbn in Hf; lia].
Qed.

Lemma solid_start c : c ≠ slash -> c ≠ dot -> solid [c].
Proof. intros H1 H2 f Hf. split; [set_solver|]. split_and!; [done| |]; by intros [= ? ?]. Qed.
Lemma solid_dot c : c ≠ slash -> c ≠ dot -> solid ([dot] ++ [c]).
Proof. intros H1 H2 f Hf. split; [set_solver|]. split_and!; [done| |]; by intros [= ? ?]. Qed.
Lemma solid_dots c : c ≠ slash -> solid ([dot; dot] ++ [c]).
Proof. intros H1 f Hf. split; [set_solver|]. by split_and!. Qed.

(** The first character that makes a field solid. *)
Lemma first_char us g c rest n m fuel : cfg IN_FIELD (flat us ++ g) (c :: rest) n m -> c ≠ slash -> solid (g ++ [c]) ->
  (forall r, (length r < length rest)%nat -> Seen r) -> no_slash us -> (4 * length rest + 3 <= fuel)%nat ->
  ends fuel n m (join (rest_walk us (g ++ c :: rest))).
Proof.
  intros Hc Hcs Hs Hr Hus Hf. next. eapply char_round; [done|done|]. intros n2 m2 Hc2.
  replace (g ++ c :: rest) with ((g ++ [c]) ++ rest) by by rewrite <- app_assoc.
  apply in_field; [done|done|done|by rewrite app_assoc|lia].
Qed.

Lemma cfg_back us rest n m : cfg SEEN_DOTDOT (flat us) rest n m -> no_slash us ->
  wp (backtrack p n) m (fun n' m' => m' = m /\ cfg SEEN_DOTDOT (flat (removelast us)) rest n' m).
Proof.
  intros [H1 H2 H3 H4 H5 H6 H7 H8 H9] Hus. eapply wp_mono; [by apply (backtrack_wp us)|]. cbn. intros n' m' [-> ->]. split; [done|].
  assert (bytes_at m p (flat (removelast us)) /\ lenZ (flat (removelast us)) <= lenZ (flat us)) as [Hout Hlen].
  { destruct us as [|u us' _] using rev_ind; [done|]. rewrite removelast_last, flat_snoc in *.
    apply bytes_at_app in H6 as [Ho _]. split; [done|]. rewrite length_app. lia. }
  split; cbn; try done. cbn in H5. lia.
Qed.

Lemma fin_consume R st n m : fin R (finish n) m -> fin R (finish (goto st (consume n))) m.
Proof. by intros []. Qed.

(** [..] is read, or the start of a longer field. *)
Lemma dots_field us rest n m fuel : cfg SEEN_DOTDOT (flat us) rest n m -> (forall r, (length r < length rest)%nat -> Seen r) ->
  no_slash us -> (4 * length rest + 4 <= fuel)%nat -> ends fuel n m (join (rest_walk us ([dot; dot] ++ rest))).
Proof.
  intros Hc Hr Hus Hf. next. act Hc. assert (no_slash (removelast us)) as Hus' by by apply removelast_Forall.
  destruct rest as [|c rest]; cbn [cur].
  - cbn. wp_step. eapply wp_mono; [by apply cfg_back|]. cbn. intros n' m' [-> Hc']. wp_step. cbn.
    apply fin_consume. by eapply cfg_finish; [|apply strip_flat].
  - destruct (Z.eqb_spec c slash) as [->|Hcs].
    + cbn [Z.eqb orb]. wp_step. eapply wp_mono; [by apply cfg_back|]. cbn. intros n' m' [-> Hc']. wp_step. cbn [goto n_done consume].
      rewrite (c_done _ _ _ _ _ Hc'). change (rest_walk us ([dot; dot] ++ slash :: rest)) with (rest_walk (removelast us) rest).
      apply Hr; [cbn; lia|done|by eapply cfg_consume|cbn in Hf; lia].
    + destruct (read_cur _ _ _ _ _ _ Hc) as (_ & Hc0 & _). rewrite (proj2 (Z.eqb_neq c 0)) by done. cbn [orb]. wp_step.
      assert (lenZ (flat us) + 2 <= n_pos n) as Hsl by (destruct Hc; done).
      eapply (cfg_emit SEEN_DOTDOT DOT _ dot _ n n); [done|by unfold byte|exact (c_outpos _ _ _ _ _ Hc)|cbn; lia|]. intros m2 H2. wp_step.
      set (n2 := MkNorm _ _ _ _). specialize (H2 n2 eq_refl eq_refl (c_done _ _ _ _ _ Hc)).
      eapply (cfg_emit DOT IN_FIELD _ dot _ _ n2); [exact H2|by unfold byte|done|cbn; rewrite length_app; cbn; lia|]. intros m3 H3. wp_step.
      cbn [goto n_done n2]. rewrite (c_done _ _ _ _ _ Hc).
      apply first_char; [|done|by apply solid_dots|intros r Hlr; apply Hr; cbn; lia|done|cbn in Hf; lia].
      replace (flat us ++ [dot; dot]) with ((flat us ++ [dot]) ++ [dot]) by by rewrite <- app_assoc. apply (H3 (MkNorm IN_FIELD (n_pos n) _ false)); done.
Qed.

(** A field that starts with [.], before that is read. *)
Lemma dot_field us rest n m fuel : cfg DOT (flat us) (dot :: rest) n m -> (forall r, (length r < length rest)%nat -> Seen r) ->
  no_slash us -> (4 * length rest + 6 <= fuel)%nat -> ends fuel n m (join (rest_walk us (dot :: rest))).
Proof.
  intros Hc Hr Hus Hf. next. act Hc. wp_step. cbn [goto n_done consume]. rewrite (c_done _ _ _ _ _ Hc).
  apply (cfg_consume _ SEEN_DOT) in Hc; [|cbn; lia]. revert Hc. generalize (goto SEEN_DOT (consume n)). clear n. intros n Hc.
  next. act Hc. destruct rest as [|c rest]; cbn [cur].
  - cbn. wp_step. cbn. by eapply cfg_finish; [|apply strip_flat].
  - destruct (Z.eqb_spec c dot) as [->|Hcd]; [|destruct (Z.eqb_spec c slash) as [->|Hcs]].
    + wp_step. cbn [goto n_done]. rewrite (c_done _ _ _ _ _ Hc). apply (cfg_goto _ DOTDOT) in Hc; [|done].
      revert Hc. generalize (goto DOTDOT n). clear n. intros n Hc. next. act Hc. wp_step. cbn [goto n_done consume].
      rewrite (c_done _ _ _ _ _ Hc). apply (dots_field us rest); [by eapply cfg_consume|intros r Hlr; apply Hr; cbn; lia|done|cbn in Hf; lia].
    + wp_step. cbn [goto n_done consume]. rewrite (c_done _ _ _ _ _ Hc). change (rest_walk us (dot :: slash :: rest)) with (rest_walk us rest).
      apply Hr; [cbn; lia|done|eapply cfg_consume; [exact Hc|cbn; lia]|cbn in Hf; lia].
    + destruct (read_cur _ _ _ _ _ _ Hc) as (_ & Hc0 & _). rewrite (proj2 (Z.eqb_neq c 0)) by done. wp_step.
      assert (lenZ (flat us) + 1 <= n_pos n) as Hsl by (destruct Hc; done).
      eapply (cfg_emit SEEN_DOT IN_FIELD _ dot _ n n); [done|by unfold byte|exact (c_outpos _ _ _ _ _ Hc)|cbn; lia|]. intros m2 H2. wp_step.
      cbn [goto n_done]. rewrite (c_done _ _ _ _ _ Hc). change (dot :: c :: rest) with ([dot] ++ c :: rest).
      apply first_char; [|done|by apply solid_dot|intros r Hlr; apply Hr; cbn; lia|done|cbn in Hf; lia].
      apply (H2 (MkNorm IN_FIELD (n_pos n) _ false)); done.
Qed.

Lemma start_field us rest n m fuel : cfg FIELD_START (flat us) rest n m -> head rest ≠ Some slash ->
  (forall r, (length r < length rest)%nat -> Seen r) -> no_slash us -> (4 * length rest + 3 <= fuel)%nat ->
  ends fuel n m (join (rest_walk us rest)).
Proof.
  intros Hc Hh Hr Hus Hf. next. act Hc. destruct rest as [|c rest]; cbn [cur].
  - wp_step. cbn. by eapply cfg_finish; [|apply strip_flat].
  - destruct (Z.eqb_spec c dot) as [->|Hcd].
    + wp_step. cbn [goto n_done]. rewrite (c_done _ _ _ _ _ Hc).
      apply dot_field; [by eapply cfg_goto|intros r Hlr; apply Hr; cbn; lia|done|cbn in Hf; lia].
    + destruct (read_cur _ _ _ _ _ _ Hc) as (_ & Hc0 & _). rewrite (proj2 (Z.eqb_neq c 0)) by done. wp_step. cbn [goto n_done].
      rewrite (c_done _ _ _ _ _ Hc). assert (c ≠ slash) as Hcs by (intros ->; done).
      apply (first_char us []); [rewrite app_nil_r; by eapply cfg_goto|done|by apply solid_start|intros r Hlr; apply Hr; cbn; lia|done|cbn in Hf; lia].
Qed.

Lemma seen_all rest : Seen rest.
Proof.
  remember (length rest) as k eqn:Hk. revert rest Hk. induction (lt_wf k) as [k _ IH]. intros rest ->.
  assert (forall r, (length r < length rest)%nat -> Seen r) as Hr by (intros r Hlr; by eapply IH).
  intros us n m fuel Hus Hc Hf. next. act Hc. destruct rest as [|c rest]; cbn [cur].
  - wp_step. cbn. by eapply cfg_finish; [|apply strip_flat].
  - destruct (Z.eqb_spec c slash) as [->|Hcs].
    + wp_step. cbn [consume n_done]. rewrite (c_done _ _ _ _ _ Hc). change (rest_walk us (slash :: rest)) with (rest_walk us rest).
      pose proof (cfg_consume _ SEEN_SEP _ _ _ _ _ Hc ltac:(cbn; lia)) as Hc'. unfold goto in Hc'. cbn in Hc'.
      apply Hr; [cbn; lia|done| |cbn in Hf; lia]. unfold consume. rewrite (c_state _ _ _ _ _ Hc). exact Hc'.
    + destruct (read_cur _ _ _ _ _ _ Hc) as (_ & Hc0 & _). rewrite (proj2 (Z.eqb_neq c 0)) by done. wp_step. cbn [goto n_done].
      rewrite (c_done _ _ _ _ _ Hc). apply start_field; [by eapply cfg_goto|by intros [= ->]|done|done|lia].
Qed.

(** The loop from its start. *)
Lemma loop_ends rest n m fuel : cfg INITIAL [] rest n m -> (4 * length rest + 4 <= fuel)%nat -> ends fuel n m (canonical rest).
Proof.
  intros Hc Hf. next. act Hc. unfold canonical. destruct rest as [|c rest]; cbn [cur].
  - cbn [Z.eqb]. wp_step. cbn [goto n_done]. rewrite (c_done _ _ _ _ _ Hc). rewrite walk_other by done. apply (start_field []); [by eapply cfg_goto|done|intros; apply seen_all|constructor|cbn in *; lia].
  - destruct (Z.eqb_spec c slash) as [->|Hcs]; [|destruct (Z.eqb_spec c dot) as [->|Hcd]]; wp_step; cbn [goto n_done]; rewrite (c_done _ _ _ _ _ Hc).
    + rewrite walk_slash. apply (sep_round [] []); [by eapply cfg_goto|apply not_elem_of_nil|apply seen_all|constructor|cbn in Hf; lia].
    + rewrite walk_other by done. apply (dot_field []); [by eapply cfg_goto|intros; apply seen_all|constructor|cbn in Hf; lia].
    + rewrite walk_other by (by intros [= ->]). apply (start_field []); [by eapply cfg_goto|by intros [= ->]|intros; apply seen_all|constructor|cbn in *; lia].
Qed.

End loop.

Lemma canonical_bound p N m0 R n m : fin p N m0 R n m -> lenZ R <= Z.of_nat N.
Proof.
  intros [_ (out & _ & _ & HR & Hlen) _ _]. revert HR. unfold strip. case_bool_decide; intros <-; [|done].
  destruct out as [|c out _] using rev_ind; [done|]. rewrite removelast_last. rewrite length_app in Hlen. lia.
Qed.

(** The end of the function. *)
Lemma normalize_wp p m l : cstr m p l -> lenZ l + 2 < 2 ^ 31 ->
  wp (fs_normalize_path p) m (fun _ m' => bytes_at m' p (canonical l ++ [0]) /\ lenZ (canonical l) <= lenZ l /\
    (forall a, a < p \/ p + lenZ l < a -> m' !! a = m !! a)).
Proof.
  intros Hl Hsmall. unfold fs_normalize_path, with_fuel. wp_step.
  assert (cfg p (length l) m INITIAL [] l (MkNorm INITIAL 0 0 false) m) as Hc.
  { split; cbn; rewrite ?Z.add_0_r; try done; try apply bytes_at_nil.
    destruct Hl as [Hb _]. apply bytes_at_mapped in Hb. rewrite length_app in Hb. cbn in Hb. by rewrite Nat.add_1_r in Hb. }
  pose proof (cstr_fuel _ _ _ Hl) as Hfuel.
  eapply wp_mono; [eapply (loop_ends p (length l) m Hsmall l _ m); [exact Hc|lia]|].
  intros n m' Hfin. pose proof (canonical_bound _ _ _ _ _ _ Hfin) as Hbound. destruct Hfin as [_ (out & Ho & Hout & HR & Hlen) Hmap Hfr].
  assert (forall k, k = lenZ (canonical l) -> wp (wr (p + k) 0) m' (fun _ m2 => bytes_at m2 p (canonical l ++ [0]) /\
    lenZ (canonical l) <= lenZ l /\ forall a, a < p \/ p + lenZ l < a -> m2 !! a = m !! a)) as Hend.
  { intros k ->. assert (bytes_at m' p (canonical l)) as Hcan.
    { revert HR. unfold strip. case_bool_decide; intros <-; [|done]. destruct out as [|c out _] using rev_ind; [done|].
      rewrite removelast_last. by apply bytes_at_app in Hout as [? _]. }
    unfold wr, rd. wp_step. destruct (Hmap (length (canonical l)) ltac:(lia)) as [b Hb]. exists b. split; [done|]. wp_step.
    split_and!; [|done|intros a Ha; rewrite lookup_insert_ne by lia; auto]. apply bytes_at_app. split.
    - intros i x Hi. rewrite lookup_insert_ne; [by apply Hcan|]. apply lookup_lt_Some in Hi. lia.
    - apply bytes_at_cons. split; [by rewrite lookup_insert_eq|apply bytes_at_nil]. }
  wp_step. rewrite Ho. destruct out as [|c out _] using rev_ind.
  - cbn in *. wp_step. apply Hend. by rewrite <- HR.
  - rewrite length_app. cbn [length]. rewrite (proj2 (Z.ltb_lt _ _)) by lia. unfold rd. wp_step.
    apply bytes_at_app in Hout as [_ Hc1]. apply bytes_at_cons in Hc1 as [Hc1 _]. exists c.
    replace (Z.of_nat (length out + 1) - 1) with (lenZ out) by lia. split; [done|]. wp_step. apply Hend. rewrite <- HR. unfold strip.
    rewrite last_snoc, removelast_last. destruct (Z.eqb_spec c slash) as [->|Hcs]; [by rewrite bool_decide_eq_true_2|].
    rewrite bool_decide_eq_false_2, length_app by (intros [= ?]; done). cbn. lia.
Qed.

(** The canonical path is made of the path's characters. *)
Lemma canonical_chars (P : Z -> Prop) l : P slash -> Forall P l -> Forall P (canonical l).
Proof.
  intros Hs Hl. assert (Forall (Forall P) (fields l)) as Hf.
  { induction Hl as [|c l Hc Hl IH]; cbn; [by apply Forall_singleton|]. destruct (c =? slash); [by constructor|].
    destruct (fields_nonempty l) as (f & fs & E). rewrite E in *. apply Forall_cons in IH as [? ?]. by constructor; [constructor|]. }
  assert (forall us f, Forall (Forall P) us -> Forall P f -> Forall (Forall P) (enter us f)) as He.
  { intros us f Hus Hpf. unfold enter. repeat case_bool_decide; cbn; try done; [by apply removelast_Forall|].
    apply Forall_app. split; [done|by apply Forall_singleton]. }
  assert (Forall (Forall P) (walk l)) as Hw.
  { unfold walk. destruct (fields l) as [|f fs]; [done|]. apply Forall_cons in Hf as [Hpf Hfs].
    assert (Forall (Forall P) (if bool_decide (f = []) then [[]] else enter [] f)) as H0 by (case_bool_decide; [by apply Forall_singleton|by apply He]).
    revert H0. generalize (if bool_decide (f = []) then [[]] else enter [] f). induction Hfs as [|g gs Hg Hgs IH]; intros us Hus; [done|].
    cbn. apply IH. by apply He. }
  unfold canonical. induction Hw as [|u us Hu Hus IH]; [constructor|]. destruct us as [|v us]; [done|].
  change (join (u :: v :: us)) with (u ++ slash :: join (v :: us)). apply Forall_app. by split; [|constructor].
Qed.

Lemma normalized_cstr p m l : bytes_at m p (canonical l ++ [0]) -> Forall (fun b => b ≠ 0 /\ byte b) l -> cstr m p (canonical l).
Proof. intros Hb Hl. split; [done|]. apply canonical_chars; [split; [done|by unfold byte]|done]. Qed.

Lemma length_fields l : length (flat (fields l)) = S (length l).
Proof.
  unfold flat. induction l as [|c l IH]; [done|]. cbn [fields length]. rewrite <- IH. destruct (c =? slash); [done|].
  destruct (fields_nonempty l) as (f & fs & ->). done.
Qed.

Lemma length_enter us f : (length (flat (enter us f)) <= length (flat us) + S (length f))%nat.
Proof.
  unfold enter. destruct (_ || _); [lia|]. case_bool_decide.
  - destruct us as [|u us _] using rev_ind; [cbn; lia|]. rewrite removelast_last, flat_snoc, length_app. lia.
  - rewrite flat_snoc, !length_app. cbn. lia.
Qed.

Lemma length_walk l : (length (flat (walk l)) <= S (length l))%nat.
Proof.
  rewrite <- length_fields. unfold walk. destruct (fields_nonempty l) as (f & fs & ->).
  assert (length (flat (if bool_decide (f = []) then [[]] else enter [] f)) <= S (length f))%nat as H0.
  { case_bool_decide; [by subst|]. pose proof (length_enter [] f). cbn in *. lia. }
  assert (length (flat (f :: fs)) = S (length f) + length (flat fs))%nat as -> by (unfold flat; cbn; rewrite !length_app; cbn; lia).
  revert H0. generalize (if bool_decide (f = []) then [[]] else enter [] f) (S (length f)). clear f.
  induction fs as [|g fs IH]; intros us k Hk; [change (flat []) with (@nil Z); cbn [fold_left length]; lia|]. cbn [fold_left].
  pose proof (length_enter us g) as He. specialize (IH (enter us g) (k + S (length g))%nat ltac:(lia)).
  assert (length (flat (g :: fs)) = S (length g) + length (flat fs))%nat as -> by (unfold flat; cbn; rewrite !length_app; cbn; lia). lia.
Qed.

Lemma length_canonical l : (length (canonical l) <= length l)%nat.
Proof.
  pose proof (length_walk l) as Hl. unfold canonical. destruct (walk l) as [|u us]; [cbn; lia|].
  rewrite flat_join, length_app in Hl by done. cbn [length] in Hl. lia.
Qed.

(** The function on the copy of a path. *)
Lemma normalized_copy_wp m t s l : cstr m s l -> mapped m t 128 -> disjoint_ranges t 128 s (S (length l)) ->
  wp (normalized_copy t s) m (fun _ m' => cstr m' t (canonical (take 127 l)) /\ (forall a, a < t \/ t + 128 <= a -> m' !! a = m !! a)).
Proof.
  intros Hs Hm Hd. unfold normalized_copy. wp_step. apply wp_run.
  exists (Z.of_nat (length l)), (put m t (take 127 l ++ [0])). split.
  - unfold strlcpy. change (FS_MAX_PATH_LEN =? 0) with false. change (Z.to_nat (FS_MAX_PATH_LEN - 1)) with 127%nat. cbn iota.
    rewrite (lcopy_nul_run Z.add _ _ _ l); [cbn zeta; do 2 f_equal; lia|done|eapply mapped_le; [exact Hm|lia]|done].
  - assert (Forall (fun b => b ≠ 0 /\ byte b) (take 127 l)) as Hb by (destruct Hs as [_ Hf]; by apply Forall_take).
    assert (lenZ (take 127 l) <= 127) as Hlen by (rewrite length_take; lia).
    eapply wp_mono; [apply (normalize_wp t _ (take 127 l)); [split; [apply put_bytes_at|done]|lia]|].
    intros _ m' (Hc & _ & Hfr). split; [by apply normalized_cstr|]. intros a Ha. rewrite Hfr by lia. apply put_lookup_out.
    rewrite length_app. cbn. lia.
Qed.

(** No field of a path is empty, [.] or [..], but for the one before a leading
    separator. *)
Definition clean (l : list Z) : Prop := Forall plain (fields l) \/ exists vs, fields l = [] :: vs /\ Forall plain vs.

Lemma canonical_clean l : clean (canonical l).
Proof.
  pose proof (good_walk l) as Hg. unfold canonical, clean. destruct (walk l) as [|u us]; [right; by exists []|].
  rewrite fields_join; [exact Hg|done|by apply good_no_slash].
Qed.

(** C14. The local copy of a path that fs_mount and the other calls normalize ends up as the
    canonical path: fs_normalize_path returns on every string, writes nothing outside the
    128 bytes of the copy, and leaves the fields of the first 127 characters joined by
    single separators, with the empty and dot fields dropped and each double dot taking
    away the field before it; the result has no such field and no separator at its end,
    and normalizing it again changes nothing. *)
Theorem paths_normalized m t s l : cstr m s l -> mapped m t 128 -> disjoint_ranges t 128 s (S (length l)) ->
  let path := canonical (take 127 l) in
  clean path /\
  exists m', normalized_copy t s m = Some (tt, m') /\ cstr m' t path /\
    (forall a, a < t \/ t + 128 <= a -> m' !! a = m !! a) /\
    exists m2, fs_normalize_path t m' = Some (tt, m2) /\ cstr m2 t path.
Proof.
  intros Hs Hm Hd path. split; [apply canonical_clean|].
  destruct (proj1 (wp_run _ _ _) (normalized_copy_wp m t s l Hs Hm Hd)) as ([] & m' & Hr & Hc & Hf).
  exists m'. split; [done|]. split; [done|]. split; [done|].
  assert (lenZ path + 2 < 2 ^ 31) as Hlen.
  { pose proof (length_canonical (take 127 l)) as Hl. unfold path. rewrite length_take in Hl. lia. }
  destruct (proj1 (wp_run _ _ _) (normalize_wp t m' path Hc Hlen)) as ([] & m2 & Hr2 & Hc2 & _ & _).
  exists m2. split; [done|]. unfold path in Hc2 at 1. rewrite canonical_twice in Hc2. split; [done|]. by destruct Hc.
Qed.

Definition slashes : list Z := [47; 97; 47; 46; 47; 98; 47; 47; 46; 46; 47; 99; 47].
Definition path_mem : mem := put (put ∅ 0 (replicate 128 7)) 1000 (slashes ++ [0]).

(** [/a/./b//../c/]. *)
Lemma paths_normalized_witness : exists m', normalized_copy 0 1000 path_mem = Some (tt, m') /\ cstr m' 0 [47; 97; 47; 99].
Proof.
  assert (cstr path_mem 1000 slashes) as Hs by (apply cstr_check; vm_compute; reflexivity).
  assert (mapped path_mem 0 128) as Hm by (apply mapped_check; vm_compute; reflexivity).
  assert (disjoint_ranges 0 128 1000 (S (length slashes))) as Hd by (left; vm_compute; discriminate).
  destruct (paths_normalized path_mem 0 1000 slashes Hs Hm Hd) as (_ & m' & Hr & Hc & _). exists m'. exact (conj Hr Hc).
Defined.

(** A path that goes above its root loses it: [/../a] is [a]. *)
Lemma above_root : canonical [47; 46; 46; 47; 97] = [97].
Proof. reflexivity. Qed.
End FsPathProps.
