(* ===== verification/Bdevs.v ===== *)
(** The list of block devices with its reference counts ([lib/bio/bio.c]) and
    subdevices ([lib/bio/subdev.c]), over an allocator.  Each function holds the
    lock of the list or changes one count, so it is atomic. *)
From S2P Require Import Prelude Pow2 BlockDev Bio WaitLib.
Local Open Scope Z_scope.

Module Bdevs.
Import Pow2 BlockDev WaitLib.

Record bio_erase_geometry_info_t := MkGeometry { geo_start : Z; geo_size : Z; geo_erase_size : Z; geo_erase_shift : Z }.

(** A [bdev_t], and of a [subdev_t] its parent and offset.  The name of [dev] is
    the string at [d_name]; [d_subdev] says that the close hook is
    [subdev_close], else there is none.  The geometry is a list, a null pointer
    or a count of 0 the empty one. *)
Record device := MkDevice {
  dev : bdev_t;
  d_name : Z;
  d_geometry : list bio_erase_geometry_info_t;
  d_subdev : bool;
  d_parent : Z;
  d_offset : Z
}.

Definition set_ref (x : Z) (d : device) : device :=
  let b := dev d in
  MkDevice (MkBdev x (name b) (total_size b) (block_size b) (block_shift b) (block_count b) (max_blkcnt_per_cmd b) (erase_byte b)
    (erase_size b) (flags b)) (d_name d) (d_geometry d) (d_subdev d) (d_parent d) (d_offset d).
Definition set_parent (x : Z) (d : device) : device :=
  MkDevice (dev d) (d_name d) (d_geometry d) (d_subdev d) x (d_offset d).
Definition sizeof_subdev_t : Z := 296.

Record bdevs := MkBdevs { b_devs : gmap Z device; b_names : gmap Z (list Z); b_list : list Z }.
Definition with_devs x s := MkBdevs x (b_names s) (b_list s).
Definition with_names x s := MkBdevs (b_devs s) x (b_list s).
Definition with_blist x s := MkBdevs (b_devs s) (b_names s) x.

Definition bio_contains_range (container_start container_len contained_start contained_len : Z) : option bool :=
  let container_end := u64 (container_start + container_len) in
  let contained_end := u64 (contained_start + contained_len) in
  if (container_start <=? container_end) && (contained_start <=? contained_end)
  then Some ((container_start <=? contained_start) && (contained_end <=? container_end)) else None.

Section bdevs.
Context {H : Type} `{!AllocOps H}.

Record world := MkWorld { w_bdevs : bdevs; w_heap : H }.
Abbreviation B := (M world).

Definition on_heap {A} (m : M H A) : B A := fun w =>
  match m (w_heap w) with Some (a, h) => Some (a, MkWorld (w_bdevs w) h) | None => None end.
Definition upd_bdevs (f : bdevs -> bdevs) : B unit := modify (fun w => MkWorld (f (w_bdevs w)) (w_heap w)).
Definition dev_at (p : Z) : B device := deref (fun w => b_devs (w_bdevs w) !! p).
Definition set_dev (p : Z) (d : device) : B unit := upd_bdevs (fun s => with_devs (<[p := d]> (b_devs s)) s).
Definition upd_dev (p : Z) (f : device -> device) : B unit := d ← dev_at p; set_dev p (f d).
(** The string at an address. *)
Definition string_at (p : Z) : B (list Z) := deref (fun w => b_names (w_bdevs w) !! p).

Definition strdup (nm : list Z) : B Z :=
  copy ← on_heap (malloc (Z.of_nat (length nm) + 1));
  if copy =? 0 then mret 0 else _ ← upd_bdevs (fun s => with_names (<[copy := nm]> (b_names s)) s); mret copy.
Definition free_string (p : Z) : B unit :=
  if p =? 0 then mret tt else
  _ ← string_at p; _ ← upd_bdevs (fun s => with_names (delete p (b_names s)) s); on_heap (free p).

Definition bdev_inc_ref (p : Z) : B unit := upd_dev p (fun d => set_ref (s32 (ref (dev d) + 1)) d).

(** The close hook of a subdevice closes its parent. *)
Fixpoint bdev_dec_ref (fuel : nat) (p : Z) : B unit :=
  match fuel with
  | O => fault
  | S fuel =>
      d ← dev_at p;
      let oldval := ref (dev d) in
      _ ← upd_dev p (set_ref (s32 (oldval - 1)));
      if oldval =? 1 then
        _ ← (if d_subdev d then
               d ← dev_at p;
               _ ← assert_ (negb (d_parent d =? 0));
               _ ← bdev_dec_ref fuel (d_parent d);
               upd_dev p (set_parent 0)
             else mret tt);
        d ← dev_at p;
        free_string (d_name d)
      else mret tt
  end.
Definition dec_ref (p : Z) : B unit := fun w => bdev_dec_ref (S (size (b_devs (w_bdevs w)))) p w.

(** The loop of [bio_open]. *)
Fixpoint find_open (l : list Z) (nm : list Z) : B Z :=
  match l with
  | [] => mret 0
  | entry :: l =>
      d ← dev_at entry;
      _ ← assert_ (0 <? ref (dev d));
      s ← string_at (d_name d);
      if bool_decide (s = nm) then _ ← bdev_inc_ref entry; mret entry else find_open l nm
  end.
Definition bio_open (nm : list Z) : B Z := l ← gets (fun w => b_list (w_bdevs w)); find_open l nm.

Fixpoint find_prefix (l : list Z) (nm : list Z) : B Z :=
  match l with
  | [] => mret 0
  | entry :: l =>
      d ← dev_at entry;
      s ← string_at (d_name d);
      if bool_decide (take (length nm) s = nm) then mret entry else find_prefix l nm
  end.
Definition bio_get_with_prefix (nm : list Z) : B Z := l ← gets (fun w => b_list (w_bdevs w)); find_prefix l nm.

Definition bio_close (p : Z) : B unit := _ ← assert_ (negb (p =? 0)); dec_ref p.

(** [junk] is what the memory of the structure held. *)
Definition initialize_device (p : Z) (junk : device) (nm : list Z) (block_size block_count : Z)
    (geometry : list bio_erase_geometry_info_t) (flags : Z) : B unit :=
  _ ← assert_ (negb (p =? 0));
  _ ← assert_ (negb (block_size =? 0) && ispow2 (u32 block_size));
  copy ← strdup nm;
  b ← deref (fun _ => Bio.Bio.bio_initialize_bdev (dev junk) nm block_size block_count flags);
  set_dev p (MkDevice b copy geometry false (d_parent junk) (d_offset junk)).

Definition bio_register_device (p : Z) : B unit :=
  _ ← assert_ (negb (p =? 0));
  _ ← bdev_inc_ref p;
  upd_bdevs (fun s => with_blist (b_list s ++ [p]) s).

Definition bio_unregister_device (p : Z) : B unit :=
  _ ← assert_ (negb (p =? 0));
  l ← gets (fun w => b_list (w_bdevs w));
  _ ← assert_ (bool_decide (p ∈ l));
  _ ← upd_bdevs (with_blist (filter (fun q => q ≠ p) l));
  dec_ref p.

(** The first region that contains the range, or the last one. *)
Fixpoint find_geometry (l : list bio_erase_geometry_info_t) (geo : option bio_erase_geometry_info_t) (byte_start byte_size : Z) :
    option (option bio_erase_geometry_info_t) :=
  match l with
  | [] => Some geo
  | g :: l =>
      match bio_contains_range (geo_start g) (geo_size g) byte_start byte_size with
      | None => None
      | Some true => Some (Some g)
      | Some false => find_geometry l (Some g) byte_start byte_size
      end
  end.

(** The checks of the range: the geometry of the subdevice, or an error.  The
    outer [None] is a failed assertion. *)
Definition subdev_geometry (parent : device) (startblock block_count : Z) : option (Z + list bio_erase_geometry_info_t) :=
  if bool_decide (d_geometry parent = []) then
    let endblock := u32 (startblock + block_count) in
    Some (if (endblock <? startblock) || (BlockDev.block_count (dev parent) <? endblock) then inl ERR_INVALID_ARGS else inr [])
  else
    let byte_start := u64 (Z.shiftl startblock (block_shift (dev parent))) in
    let byte_size := u64 (Z.shiftl block_count (block_shift (dev parent))) in
    match find_geometry (d_geometry parent) None byte_start byte_size with
    | None => None
    | Some None => Some (inl ERR_INVALID_ARGS)
    | Some (Some geo) =>
        let erase_mask := u64 (u64 (Z.shiftl 1 (geo_erase_shift geo)) - 1) in
        Some (if negb (Z.land byte_start erase_mask =? 0) || negb (Z.land byte_size erase_mask =? 0) then inl ERR_INVALID_ARGS
              else inr [MkGeometry 0 byte_size (geo_erase_size geo) (geo_erase_shift geo)])
    end.

(** [junk] is the contents of the allocated structure. *)
Definition bio_publish_subdevice (junk : device) (parent_dev subdev : list Z) (startblock block_count : Z) : B Z :=
  parent ← bio_open parent_dev;
  if parent =? 0 then mret ERR_NOT_FOUND
  else
    sub ← on_heap (malloc sizeof_subdev_t);
    if sub =? 0 then _ ← bio_close parent; mret ERR_NO_MEMORY
    else
      d ← dev_at parent;
      g ← deref (fun _ => subdev_geometry d startblock block_count);
      match g with
      | inl err => _ ← bio_close parent; _ ← on_heap (free sub); mret err
      | inr geometry =>
          _ ← initialize_device sub junk subdev (block_size (dev d)) block_count geometry 0;
          _ ← upd_dev sub (fun s => MkDevice (dev s) (d_name s) (d_geometry s) true parent startblock);
          _ ← bio_register_device sub;
          mret NO_ERROR
      end.

End bdevs.

End Bdevs.
