(* ===== verification/BdevsProps.v ===== *)
(** The reference counts of block devices. *)
From S2P Require Import Prelude WaitLib Pow2 BlockDev Bio Bdevs.
Local Open Scope Z_scope.

Module BdevsProps.
Import Pow2 BlockDev WaitLib AllocLib Counts Bdevs.

Notation one b := (if b then 1 else 0).

Section props.
Context {H : Type} `{!AllocOps H} `{!AllocLaws H}.
Abbreviation world := (Bdevs.world (H := H)).
Implicit Types w : world.
Abbreviation devs w := (b_devs (w_bdevs w)).
Abbreviation names w := (b_names (w_bdevs w)).
Abbreviation dlist w := (b_list (w_bdevs w)).

Definition is_live (d : device) : bool := 0 <? ref (dev d).
(** A live subdevice holds a reference to its parent. *)
Definition kid (p : Z) (d : device) : bool := d_subdev d && is_live d && (d_parent d =? p).

(** The references that callers of [bio_open] hold: what is left of the count
    without the list and the subdevices. *)
Definition opens w (p : Z) : Z :=
  match devs w !! p with
  | Some d => ref (dev d) - one (bool_decide (p ∈ dlist w)) - count (kid p) (devs w)
  | None => 0
  end.

Definition size_ok (bs : Z) : bool := (0 <? bs) && (bs <? 2 ^ 32) && ispow2 bs.

Record Inv w : Prop := {
  iv_null : devs w !! 0 = None;
  iv_noname : names w !! 0 = None;
  iv_ref p d : devs w !! p = Some d -> 0 <= ref (dev d) < 2 ^ 31;
  iv_opens p : 0 <= opens w p;
  iv_nodup : NoDup (dlist w);
  iv_list p : p ∈ dlist w -> is_Some (devs w !! p);
  iv_parent c d : devs w !! c = Some d -> d_subdev d = true -> is_live d = true -> is_Some (devs w !! d_parent d);
  iv_name p d : devs w !! p = Some d -> is_live d = true -> names w !! d_name d = Some (name (dev d));
  iv_apart p p' d d' : devs w !! p = Some d -> devs w !! p' = Some d' -> is_live d = true -> is_live d' = true ->
    d_name d = d_name d' -> p = p';
  iv_heap : alloc_ok (w_heap w);
  iv_alloc p : is_Some (devs w !! p) \/ is_Some (names w !! p) -> allocated (w_heap w) p;
  iv_kinds p : is_Some (devs w !! p) -> names w !! p = None;
  iv_size p d : devs w !! p = Some d -> size_ok (block_size (dev d)) = true
}.

Lemma listed_live w p d : Inv w -> devs w !! p = Some d -> p ∈ dlist w -> 0 < ref (dev d).
Proof.
  intros Hi Hp Hl. pose proof (iv_opens _ Hi p) as Ho. unfold opens in Ho. rewrite Hp, bool_decide_eq_true_2 in Ho by done.
  pose proof (count_nonneg (kid p) (devs w)). lia.
Qed.

Lemma opens_live w p d : Inv w -> devs w !! p = Some d -> 1 <= opens w p -> 0 < ref (dev d).
Proof.
  intros Hi Hp Ho. unfold opens in Ho. rewrite Hp in Ho. pose proof (count_nonneg (kid p) (devs w)). destruct (bool_decide _); lia.
Qed.

Definition put_dev (p : Z) (d : device) w : world := MkWorld (with_devs (<[p := d]> (devs w)) (w_bdevs w)) (w_heap w).

(** Changing what a device refers to. *)
Lemma Inv_put w p d d' : Inv w -> devs w !! p = Some d -> d_name d' = d_name d -> name (dev d') = name (dev d) ->
  block_size (dev d') = block_size (dev d) -> 0 <= ref (dev d') < 2 ^ 31 -> (is_live d' = true -> is_live d = true /\ d_subdev d' = d_subdev d /\ d_parent d' = d_parent d) ->
  (forall q, 0 <= opens (put_dev p d' w) q) -> Inv (put_dev p d' w).
Proof.
  intros [] Hp Hn Hnm Hbs Hr Hlive Hop.
  assert (forall q, is_Some (<[p := d']> (devs w) !! q) <-> is_Some (devs w !! q)) as Hdom.
  { intros q. rewrite lookup_insert. case_decide as E; [|done]. subst. rewrite Hp. by split; intros _; eexists. }
  assert (forall q e, <[p := d']> (devs w) !! q = Some e -> is_live e = true -> exists e0, devs w !! q = Some e0 /\ is_live e0 = true /\
    d_name e = d_name e0 /\ name (dev e) = name (dev e0) /\ d_subdev e = d_subdev e0 /\ d_parent e = d_parent e0) as Hold.
  { intros q e. rewrite lookup_insert. case_decide as E; [|by intros ? ?; exists e]. subst. intros [= <-] He.
    destruct (Hlive He) as (? & ? & ?). by exists d. }
  split; cbn; try done.
  - rewrite lookup_insert_ne; [done|congruence].
  - intros q e. rewrite lookup_insert. case_decide; [by intros [= <-]|]. apply iv_ref0.
  - intros q Hq. by apply Hdom, iv_list0.
  - intros c e Hc Hs He. destruct (Hold c e Hc He) as (e0 & H0 & Hl0 & _ & _ & Hs0 & ->). apply Hdom. apply (iv_parent0 c e0); congruence.
  - intros q e Hq He. destruct (Hold q e Hq He) as (e0 & H0 & Hl0 & -> & -> & _). eauto.
  - intros q q' e e' Hq Hq' He He' Hnn. destruct (Hold q e Hq He) as (e0 & H0 & Hl0 & E0 & _), (Hold q' e' Hq' He') as (e1 & H1 & Hl1 & E1 & _).
    apply (iv_apart0 q q' e0 e1); congruence.
  - intros q Hq. apply iv_alloc0. destruct Hq; [left; by apply Hdom|by right].
  - intros q Hq. by apply iv_kinds0, Hdom.
  - intros q e. rewrite lookup_insert. case_decide; [intros [= <-]; rewrite Hbs; eauto|eauto].
Qed.

(** Open references after a change of one device. *)
Lemma opens_put w p d d' q : devs w !! p = Some d ->
  opens (put_dev p d' w) q = opens w q + (if bool_decide (q = p) then ref (dev d') - ref (dev d) else 0) +
    (if bool_decide (is_Some (devs w !! q)) then one (kid q d) - one (kid q d') else 0).
Proof.
  intros Hp. unfold opens. cbn. rewrite (count_update _ _ _ _ d' Hp), lookup_insert. destruct (decide (p = q)) as [<-|Hne].
  - rewrite Hp, (bool_decide_eq_true_2 (p = p)), (bool_decide_eq_true_2 (is_Some (Some d))) by (done || by eexists). lia.
  - rewrite (bool_decide_eq_false_2 (q = p)) by congruence. destruct (devs w !! q) as [e|].
    + rewrite (bool_decide_eq_true_2 (is_Some (Some e))) by by eexists. lia.
    + rewrite (bool_decide_eq_false_2 (is_Some None)) by by intros [? ?]. lia.
Qed.

(** * Dropping a reference *)

(** What the rest of the system keeps: dead devices, and the names of no live
    device. *)
Definition same_dead w w' : Prop :=
  (forall q e, devs w !! q = Some e -> is_live e = false -> devs w' !! q = Some e) /\
  (forall a, (forall q e, devs w !! q = Some e -> is_live e = true -> d_name e ≠ a) -> names w' !! a = names w !! a).

(** Devices keep their names, and none comes to life. *)
Definition fewer w w' : Prop := forall q e, devs w' !! q = Some e -> exists e0, devs w !! q = Some e0 /\
  d_name e = d_name e0 /\ (is_live e = true -> is_live e0 = true).

Lemma fewer_trans w w' w'' : fewer w w' -> fewer w' w'' -> fewer w w''.
Proof. intros H1 H2 q e Hq. destruct (H2 q e Hq) as (e1 & Hq1 & -> & Hl). destruct (H1 q e1 Hq1) as (e0 & ? & ? & ?). exists e0. auto. Qed.

Lemma fewer_put w p d d' : devs w !! p = Some d -> d_name d' = d_name d -> (is_live d' = true -> is_live d = true) -> fewer w (put_dev p d' w).
Proof.
  intros Hp Hn Hl q e. cbn. rewrite lookup_insert. case_decide as E; [subst; intros [= <-]; by exists d|]. intros Hq. by exists e.
Qed.

(** No name is new, and what is no name stays allocated. *)
Definition calm w w' : Prop := forall q, names w !! q = None ->
  names w' !! q = None /\ (allocated (w_heap w) q -> allocated (w_heap w') q).

Lemma calm_trans w w' w'' : calm w w' -> calm w' w'' -> calm w w''.
Proof. intros H1 H2 q Hq. destruct (H1 q Hq) as [Hq' Ha]. destruct (H2 q Hq') as [? ?]. auto. Qed.

(** The name of a device that dies is freed. *)
Definition dies q w' : Prop := forall e, devs w' !! q = Some e -> is_live e = false.
Definition freed w w' : Prop := forall q e, devs w !! q = Some e -> is_live e = true -> dies q w' -> names w' !! d_name e = None.

Lemma freed_none w w' : (forall q e, devs w !! q = Some e -> is_live e = true -> exists e', devs w' !! q = Some e' /\ is_live e' = true) -> freed w w'.
Proof. intros Hl q e Hq He Hd. destruct (Hl q e Hq He) as (e' & Hq' & He'). rewrite (Hd e' Hq') in He'. done. Qed.

Definition dropped (p : Z) w w' : Prop :=
  Inv w' /\ dlist w' = dlist w /\ (forall q, opens w' q = opens w q - one (bool_decide (q = p))) /\
  same_dead w w' /\ fewer w w' /\ calm w w' /\ freed w w'.

Lemma wp_upd_dev w p d f (Q : unit -> world -> Prop) : devs w !! p = Some d -> Q tt (put_dev p (f d) w) -> wp (upd_dev p f) w Q.
Proof. intros Hp HQ. unfold upd_dev, dev_at, set_dev, upd_bdevs. wp_step. exists d. split; [done|]. by wp_step. Qed.

Lemma wp_dev_at w p d (Q : device -> world -> Prop) : devs w !! p = Some d -> Q d w -> wp (dev_at p) w Q.
Proof. intros Hp HQ. unfold dev_at. wp_step. by exists d. Qed.

(** Releasing the name of a dead device. *)
Definition drop_name (a : Z) w (h : H) : world := MkWorld (with_names (delete a (names w)) (w_bdevs w)) h.

Lemma free_string_ok w a : Inv w -> is_Some (names w !! a) -> (forall q e, devs w !! q = Some e -> is_live e = true -> d_name e ≠ a) ->
  wp (free_string a) w (fun _ w' => Inv w' /\ devs w' = devs w /\ dlist w' = dlist w /\ (forall b, b ≠ a -> names w' !! b = names w !! b) /\
    calm w w' /\ names w' !! a = None).
Proof.
  intros Hi [nm Hnm] Hno. unfold free_string. destruct (Z.eqb_spec a 0) as [->|Ha0]; [by rewrite (iv_noname _ Hi) in Hnm|].
  unfold string_at, upd_bdevs. wp_step. exists nm. split; [done|]. wp_step.
  pose proof (free_ok (w_heap w) a (iv_heap _ Hi) (iv_alloc _ Hi a (or_intror (ex_intro _ nm Hnm)))) as Hf.
  unfold wp, on_heap in *. cbn. destruct (free a (w_heap w)) as [[[] h]|]; [|done]. destruct Hf as [Hok Hal]. cbn.
  split_and!; try done; [|intros b Hb; by rewrite lookup_delete_ne| |apply lookup_delete_eq];
    [|intros q Hq; cbn; assert (q ≠ a) by (intros ->; congruence); rewrite lookup_delete_ne by done; auto].
  destruct Hi. split; cbn; try done.
  - by rewrite lookup_delete_ne.
  - intros p d Hp Hl. rewrite lookup_delete_ne; [eauto|]. intros E. by apply (Hno p d).
  - intros p Hp. apply Hal; [|apply iv_alloc0; destruct Hp as [Hp|Hp]; [by left|right; by apply lookup_delete_is_Some in Hp as [_ ?]]].
    intros ->. destruct Hp as [Hp|Hp]; [|by rewrite lookup_delete_eq in Hp; destruct Hp]. by rewrite (iv_kinds0 a Hp) in Hnm.
  - intros p Hp. rewrite lookup_delete. case_decide; [done|]. by apply iv_kinds0.
Qed.

Definition live_count w : Z := count is_live (devs w).

Lemma set_ref_live x d : is_live (set_ref x d) = (0 <? x).
Proof. done. Qed.

(** One reference less, of several. *)
Lemma drop_several w p d : Inv w -> devs w !! p = Some d -> 1 <= opens w p -> 1 < ref (dev d) ->
  dropped p w (put_dev p (set_ref (ref (dev d) - 1) d) w).
Proof.
  intros Hi Hp Ho Hr. pose proof (iv_ref _ Hi p d Hp) as Hrange.
  assert (is_live (set_ref (ref (dev d) - 1) d) = true) as Hl by (rewrite set_ref_live; apply Z.ltb_lt; lia).
  assert (is_live d = true) as Hld by (apply Z.ltb_lt; lia).
  assert (forall q, opens (put_dev p (set_ref (ref (dev d) - 1) d) w) q = opens w q - one (bool_decide (q = p))) as Hop.
  { intros q. rewrite (opens_put w p d _ q Hp).
    assert (kid q (set_ref (ref (dev d) - 1) d) = kid q d) as ->. { unfold kid. rewrite Hl, Hld. done. }
    cbn. destruct (bool_decide (q = p)), (bool_decide (is_Some _)), (kid q d); lia. }
  split; [|split; [done|split; [done|split; [split|split]]]].
  - apply (Inv_put w p d); try done; [cbn; lia|]. intros q. rewrite Hop. pose proof (iv_opens _ Hi q). case_bool_decide; [subst; lia|lia].
  - intros q e Hq He. cbn. rewrite lookup_insert_ne; [done|]. intros <-. congruence.
  - done.
  - by apply (fewer_put w p d).
  - split; [by intros q Hq|]. apply freed_none. intros q e Hq He. cbn. rewrite lookup_insert.
    case_decide; [by eexists|by exists e].
Qed.

(** The last reference: the device is dead, and its parent has one reference
    that nobody counts. *)
Lemma drop_last w p d : Inv w -> devs w !! p = Some d -> 1 <= opens w p -> ref (dev d) = 1 ->
  let w1 := put_dev p (set_ref 0 d) w in
  Inv w1 /\ live_count w1 = live_count w - 1 /\
  (forall q, opens w1 q = opens w q - one (bool_decide (q = p)) +
    one (d_subdev d && bool_decide (q = d_parent d) && bool_decide (is_Some (devs w !! q)))) /\
  (d_subdev d = true -> d_parent d ≠ p).
Proof.
  intros Hi Hp Ho Hr w1. assert (is_live d = true) as Hld by (apply Z.ltb_lt; lia).
  assert (kid p d = false) as Hself.
  { pose proof Ho as Hk. unfold opens in Hk. rewrite Hp, Hr in Hk.
    apply (count_zero (kid p) (devs w) p d); [|done]. pose proof (count_nonneg (kid p) (devs w)). destruct (bool_decide _); lia. }
  assert (forall q, kid q d = d_subdev d && bool_decide (q = d_parent d)) as Hkid.
  { intros q. unfold kid. rewrite Hld, andb_true_r. f_equal. destruct (Z.eqb_spec (d_parent d) q) as [->|Hne];
      [by rewrite bool_decide_eq_true_2|rewrite bool_decide_eq_false_2; congruence]. }
  assert (forall q, opens w1 q = opens w q - one (bool_decide (q = p)) +
    one (d_subdev d && bool_decide (q = d_parent d) && bool_decide (is_Some (devs w !! q)))) as Hop.
  { intros q. unfold w1. rewrite (opens_put w p d _ q Hp), <- Hkid.
    assert (kid q (set_ref 0 d) = false) as -> by (unfold kid; cbn; by rewrite andb_false_r).
    cbn [set_ref dev ref]. rewrite Hr. destruct (bool_decide (q = p)), (bool_decide (is_Some _)), (kid q d); cbn; lia. }
  split; [|split; [|split; [exact Hop|]]].
  - apply (Inv_put w p d); try done. intros q. fold w1. rewrite Hop. pose proof (iv_opens _ Hi q) as Hq.
    destruct (bool_decide_reflect (q = p)) as [->|]; destruct (_ && _); lia.
  - unfold live_count, w1, put_dev. cbn. rewrite (count_update _ _ _ _ _ Hp), Hld. cbn. lia.
  - intros Hs Heq. rewrite Hkid, Hs, bool_decide_eq_true_2 in Hself by done. done.
Qed.

(** Clearing the parent of a dead device. *)
Lemma clear_parent w p d x : Inv w -> devs w !! p = Some d -> is_live d = false ->
  Inv (put_dev p (set_parent x d) w) /\ (forall q, opens (put_dev p (set_parent x d) w) q = opens w q).
Proof.
  intros Hi Hp Hd. assert (forall q, opens (put_dev p (set_parent x d) w) q = opens w q) as Hop.
  { intros q. rewrite (opens_put w p d _ q Hp).
    assert (kid q d = false /\ kid q (set_parent x d) = false) as [-> ->].
    { unfold kid. change (is_live (set_parent x d)) with (is_live d). by rewrite Hd, !andb_false_r. }
    cbn. destruct (bool_decide (q = p)), (bool_decide (is_Some _)); cbn; lia. }
  split; [|done]. apply (Inv_put w p d); try done; [exact (iv_ref _ Hi p d Hp)|change (is_live (set_parent x d)) with (is_live d); by rewrite Hd|].
  intros q. rewrite Hop. by apply iv_opens.
Qed.

(** The close hook of a device that died: its parent is closed. *)
Definition close_hook (fuel : nat) (p : Z) (d : device) : M world unit :=
  if d_subdev d then d ← dev_at p; _ ← assert_ (negb (d_parent d =? 0)); _ ← bdev_dec_ref fuel (d_parent d); upd_dev p (set_parent 0)
  else mret tt.

Definition hooked (p : Z) (d : device) w w2 : Prop :=
  Inv w2 /\ dlist w2 = dlist w /\ (forall q, opens w2 q = opens w q - one (bool_decide (q = p))) /\
  (exists d2, devs w2 !! p = Some d2 /\ is_live d2 = false /\ d_name d2 = d_name d) /\
  (forall q e, devs w !! q = Some e -> is_live e = false -> devs w2 !! q = Some e) /\
  fewer (put_dev p (set_ref 0 d) w) w2 /\ calm w w2 /\ freed (put_dev p (set_ref 0 d) w) w2 /\
  (forall a, (forall q e, devs (put_dev p (set_ref 0 d) w) !! q = Some e -> is_live e = true -> d_name e ≠ a) -> names w2 !! a = names w !! a).

Lemma close_hook_ok fuel w p d : Inv w -> devs w !! p = Some d -> 1 <= opens w p -> ref (dev d) = 1 ->
  (d_subdev d = true -> forall w p d, Inv w -> devs w !! p = Some d -> 1 <= opens w p -> live_count w <= Z.of_nat fuel ->
    wp (bdev_dec_ref fuel p) w (fun _ w' => dropped p w w')) -> live_count w <= Z.of_nat (S fuel) ->
  wp (close_hook fuel p d) (put_dev p (set_ref 0 d) w) (fun _ w2 => hooked p d w w2).
Proof.
  intros Hi Hp Ho Hr1 IH Hf. destruct (drop_last w p d Hi Hp Ho Hr1) as (Hi1 & Hlive & Hop & Hpar). unfold hooked.
  assert (is_live d = true) as Hld by (apply Z.ltb_lt; lia).
  set (w1 := put_dev p (set_ref 0 d) w) in *. set (d1 := set_ref 0 d) in *. assert (devs w1 !! p = Some d1) as Hp1 by apply lookup_insert_eq.
  assert (forall q e, devs w !! q = Some e -> is_live e = false -> devs w1 !! q = Some e /\ q ≠ p) as Hdead1.
  { intros q e Hq Hl. assert (q ≠ p) by (intros ->; congruence). split; [|done]. unfold w1. cbn. by rewrite lookup_insert_ne. }
  unfold close_hook. destruct (d_subdev d) eqn:Hs.
  - wp_step. eapply wp_dev_at; [done|]. wp_step. change (d_parent d1) with (d_parent d). destruct (iv_parent _ Hi p d Hp Hs Hld) as [e He].
    split; [apply negb_true_iff, Z.eqb_neq; intros E; rewrite E, (iv_null _ Hi) in He; done|]. assert (d_parent d ≠ p) as Hne by auto.
    assert (devs w1 !! d_parent d = Some e) as He1 by (unfold w1; cbn; by rewrite lookup_insert_ne by done).
    assert (1 <= opens w1 (d_parent d)) as Ho1.
    { rewrite Hop. cbn. rewrite bool_decide_eq_false_2, !bool_decide_eq_true_2 by (done || by eexists). pose proof (iv_opens _ Hi (d_parent d)). cbn. lia. }
    eapply wp_mono; [apply (IH eq_refl w1 _ e); [done|done|done|lia]|]. intros _ w2 (Hi2 & Hl2 & Ho2 & [Hd2 Hn2] & Hf2 & Hc2 & Hfr2).
    assert (devs w2 !! p = Some d1) as Hp2 by by apply Hd2. eapply wp_upd_dev; [done|].
    destruct (clear_parent w2 p d1 0 Hi2 Hp2 eq_refl) as [Hi3 Ho3]. split_and!; [done|done| | | | |exact Hc2| |done].
    + intros q. rewrite Ho3, Ho2, Hop. cbn. destruct (bool_decide_reflect (q = d_parent d)) as [->|]; cbn; [|lia].
      rewrite (bool_decide_eq_true_2 (is_Some _)) by by eexists. lia.
    + exists (set_parent 0 d1). split; [apply lookup_insert_eq|done].
    + intros q e' Hq Hl. destruct (Hdead1 q e' Hq Hl) as [Hq1 Hqp]. cbn. rewrite lookup_insert_ne by done. by apply Hd2.
    + eapply fewer_trans; [exact Hf2|]. by apply (fewer_put w2 p d1).
    + intros q e' Hq Hl Hdie. apply (Hfr2 q e'); [done|done|]. intros e2 He2. apply Hdie. cbn.
      rewrite lookup_insert_ne; [done|]. intros <-. fold w1 in Hq. rewrite Hp1 in Hq. by injection Hq as <-.
  - wp_step. split_and!; [done|done| |by exists d1|by intros q e Hq Hl; apply Hdead1|by intros q e Hq; exists e|by intros q Hq|apply freed_none; eauto|done].
    intros q. rewrite Hop. cbn. lia.
Qed.

Lemma dec_ref_ok fuel : forall w p d, Inv w -> devs w !! p = Some d -> 1 <= opens w p -> live_count w <= Z.of_nat fuel ->
  wp (bdev_dec_ref fuel p) w (fun _ w' => dropped p w w').
Proof.
  induction fuel as [|fuel IH]; intros w p d Hi Hp Ho Hf; pose proof (opens_live _ _ _ Hi Hp Ho) as Hr;
    assert (is_live d = true) as Hld by (by apply Z.ltb_lt).
  { pose proof (count_pos is_live (devs w) p d Hp Hld). unfold live_count in Hf. lia. }
  pose proof (iv_ref _ Hi _ _ Hp) as Hrange. cbn [bdev_dec_ref]. wp_step. eapply wp_dev_at; [done|]. wp_step. eapply wp_upd_dev; [done|].
  rewrite sw_small by lia. destruct (Z.eqb_spec (ref (dev d)) 1) as [Hr1|Hr1]; [|wp_step; apply drop_several; [done..|lia]].
  rewrite Hr1. change (1 - 1) with 0. rewrite wp_bind.
  eapply wp_mono; [apply (close_hook_ok fuel w p d Hi Hp Ho Hr1 (fun _ => IH) Hf)|].
  intros _ w2 (Hi2 & Hl2 & Ho2 & (d2 & Hp2 & Hd2 & Hn2) & Hdead & Hfew & Hcalm & Hfr & Hnames). wp_step. eapply wp_dev_at; [done|]. rewrite Hn2.
  assert (forall q e, devs (put_dev p (set_ref 0 d) w) !! q = Some e -> is_live e = true -> d_name e ≠ d_name d) as Hfresh.
  { intros q e. cbn. rewrite lookup_insert. case_decide as E; [by intros [= <-]|]. intros Hq Hl Hn. apply E. symmetry. by apply (iv_apart _ Hi q p e d). }
  assert (fewer w w2) as Hfew2 by (eapply fewer_trans; [apply (fewer_put w p d (set_ref 0 d)); done|exact Hfew]).
  eapply wp_mono; [apply free_string_ok; [done| |]|].
  - rewrite Hnames by done. by rewrite (iv_name _ Hi p d Hp Hld).
  - intros q e Hq Hl. destruct (Hfew q e Hq) as (e0 & Hq0 & -> & Hl0). apply (Hfresh q e0); auto.
  - intros _ w3 (Hi3 & Hd3 & Hl3 & Hn3 & Hc3 & Hgone). split; [done|]. split; [congruence|].
    split; [|split; [split|split; [|split; [by eapply calm_trans|]]]].
    + intros q. unfold opens in *. rewrite Hd3, Hl3. apply Ho2.
    + intros q e Hq Hl. rewrite Hd3. by apply Hdead.
    + intros a Ha. rewrite Hn3 by (intros ->; by apply (Ha p d)). apply Hnames. intros q e. cbn. rewrite lookup_insert.
      case_decide as E; [by intros [= <-]|]. apply Ha.
    + intros q e. rewrite Hd3. apply Hfew2.
    + intros q e Hq Hl Hdie. unfold dies in Hdie. rewrite Hd3 in Hdie. destruct (decide (q = p)) as [->|Hne]; [congruence|].
      apply Hc3, (Hfr q e); [|done|done]. cbn. by rewrite lookup_insert_ne.
Qed.

(** * Opening and closing *)

Lemma inc_live w p d : Inv w -> devs w !! p = Some d -> is_live d = true -> ref (dev d) + 1 < 2 ^ 31 ->
  let w' := put_dev p (set_ref (ref (dev d) + 1) d) w in
  Inv w' /\ forall q, opens w' q = opens w q + one (bool_decide (q = p)).
Proof.
  intros Hi Hp Hl Hr w'. assert (0 < ref (dev d)) as Hpos by by apply Z.ltb_lt.
  assert (is_live (set_ref (ref (dev d) + 1) d) = true) as Hl' by (rewrite set_ref_live; apply Z.ltb_lt; lia).
  assert (forall q, opens w' q = opens w q + one (bool_decide (q = p))) as Hop.
  { intros q. unfold w'. rewrite (opens_put w p d _ q Hp).
    assert (kid q (set_ref (ref (dev d) + 1) d) = kid q d) as ->. { unfold kid. rewrite Hl, Hl'. done. }
    cbn. destruct (bool_decide (q = p)), (bool_decide (is_Some _)), (kid q d); lia. }
  split; [|done]. apply (Inv_put w p d); try done; [cbn; lia|]. intros q. fold w'. rewrite Hop. pose proof (iv_opens _ Hi q).
  destruct (bool_decide _); lia.
Qed.

(** The first listed device with a name. *)
Definition named w (nm : list Z) (p : Z) : bool :=
  match devs w !! p with Some d => bool_decide (name (dev d) = nm) | None => false end.
Definition find_dev w (nm : list Z) : option Z := List.find (named w nm) (dlist w).

Definition small_refs w : Prop := forall p d, devs w !! p = Some d -> ref (dev d) + 1 < 2 ^ 31.

Definition opened (nm : list Z) w (r : Z) w' : Prop :=
  Inv w' /\ r = default 0 (find_dev w nm) /\ dlist w' = dlist w /\ names w' = names w /\ w_heap w' = w_heap w /\
  (forall q, opens w' q = opens w q + one (bool_decide (r ≠ 0 /\ q = r))).

Lemma find_open_ok w nm l : Inv w -> small_refs w -> (forall p, p ∈ l -> p ∈ dlist w) ->
  wp (find_open l nm) w (fun r w' => Inv w' /\ r = default 0 (List.find (named w nm) l) /\
    dlist w' = dlist w /\ names w' = names w /\ w_heap w' = w_heap w /\
    (forall q, opens w' q = opens w q + one (bool_decide (r ≠ 0 /\ q = r))) /\
    (forall q, is_Some (devs w !! q) -> is_Some (devs w' !! q)) /\
    (forall q e, devs w' !! q = Some e -> exists e0, devs w !! q = Some e0 /\ e = set_ref (ref (dev e)) e0)).
Proof.
  intros Hi Hs. induction l as [|p l IH]; intros Hl; cbn [find_open].
  - wp_step. cbn. split_and!; try done; [intros q; rewrite bool_decide_eq_false_2 by (by intros [? _]); lia|].
    intros q e Hq. exists e. split; [done|]. by destruct e as [[] ? ? ? ? ?].
  - destruct (iv_list _ Hi p ltac:(set_solver)) as [d Hp]. wp_step. eapply wp_dev_at; [done|]. wp_step.
    pose proof (listed_live w p d Hi Hp ltac:(set_solver)) as Hr. assert (is_live d = true) as Hld by by apply Z.ltb_lt.
    split; [done|]. unfold string_at. wp_step. exists (name (dev d)). split; [by apply iv_name with p|].
    cbn [List.find]. assert (named w nm p = bool_decide (name (dev d) = nm)) as -> by (unfold named; by rewrite Hp).
    case_bool_decide as Hn.
    + cbn [default]. unfold bdev_inc_ref. wp_step. eapply wp_upd_dev; [done|]. wp_step.
      specialize (Hs p d Hp). pose proof (iv_ref _ Hi _ _ Hp). rewrite sw_small by lia.
      destruct (inc_live w p d Hi Hp Hld Hs) as [Hi' Hop]. split_and!; try done.
      * intros q. rewrite Hop. assert (p ≠ 0) by (intros ->; rewrite (iv_null _ Hi) in Hp; done).
        by rewrite (bool_decide_ext (p ≠ 0 /\ q = p) (q = p)) by tauto.
      * intros q Hq. cbn. rewrite lookup_insert. case_decide; [by eexists|done].
      * intros q e. cbn. rewrite lookup_insert. case_decide; [subst; intros [= <-]; by exists d|]. intros Hq. exists e. split; [done|]. by destruct e as [[] ? ? ? ? ?].
    + apply IH. set_solver.
Qed.

Lemma bio_close_ok w p : Inv w -> 1 <= opens w p -> wp (bio_close p) w (fun _ w' => dropped p w w').
Proof.
  intros Hi Ho. destruct (devs w !! p) as [d|] eqn:Hp; [|unfold opens in Ho; rewrite Hp in Ho; lia].
  unfold bio_close. wp_step. split; [apply negb_true_iff, Z.eqb_neq; intros ->; rewrite (iv_null _ Hi) in Hp; done|].
  unfold dec_ref. pose proof (count_size is_live (devs w)) as Hc.
  pose proof (dec_ref_ok (S (size (devs w))) w p d Hi Hp Ho ltac:(unfold live_count; lia)) as Hd. exact Hd.
Qed.

(** * New devices *)

Lemma wp_on_dev_heap {A} (m : M H A) w (Q : A -> world -> Prop) :
  wp m (w_heap w) (fun a h => Q a (MkWorld (w_bdevs w) h)) -> wp (on_heap m) w Q.
Proof. unfold wp, on_heap. by destruct (m (w_heap w)) as [[a h]|]. Qed.

(** More memory. *)
Lemma Inv_heap w h : Inv w -> alloc_ok h -> (forall q, allocated (w_heap w) q -> allocated h q) -> Inv (MkWorld (w_bdevs w) h).
Proof. intros [] Hh Ha. split; cbn; try done. intros p Hp. auto. Qed.

(** A structure that is no device yet. *)
Definition vacant w (p : Z) : Prop := p ≠ 0 /\ devs w !! p = None /\ names w !! p = None /\ allocated (w_heap w) p.

Lemma Inv_new w p d : Inv w -> vacant w p -> ref (dev d) = 0 -> size_ok (block_size (dev d)) = true ->
  Inv (put_dev p d w) /\ forall q, opens (put_dev p d w) q = opens w q.
Proof.
  intros Hi (Hp0 & Hp & Hnp & Hal) Hr Hbs. assert (is_live d = false) as Hd by (unfold is_live; by rewrite Hr).
  assert (forall q, kid q d = false) as Hk by (intros q; unfold kid; by rewrite Hd, andb_false_r).
  assert (forall q e, <[p := d]> (devs w) !! q = Some e -> is_live e = true -> devs w !! q = Some e) as Hold.
  { intros q e. rewrite lookup_insert. case_decide; [intros [= <-]; congruence|done]. }
  assert (forall q, is_Some (devs w !! q) -> is_Some (<[p := d]> (devs w) !! q)) as Hmore.
  { intros q Hq. rewrite lookup_insert. case_decide; [by eexists|done]. }
  assert (forall q, opens (put_dev p d w) q = opens w q) as Hop.
  { intros q. unfold opens. cbn. rewrite count_new, Hk, lookup_insert by done. case_decide as E; [|destruct (devs w !! q); lia].
    subst q. rewrite Hp, Hr. rewrite bool_decide_eq_false_2 by (intros Hin; destruct (iv_list _ Hi p Hin); congruence).
    rewrite count_none; [done|]. intros c e Hc. unfold kid. destruct (d_subdev e) eqn:Hs, (is_live e) eqn:Hl; try done. cbn.
    apply Z.eqb_neq. intros E. destruct (iv_parent _ Hi c e Hc Hs Hl). congruence. }
  split; [|done]. destruct Hi. split; cbn; try done.
  - by rewrite lookup_insert_ne.
  - intros q e. rewrite lookup_insert. case_decide; [intros [= <-]; lia|]. apply iv_ref0.
  - intros q. unfold put_dev in Hop. rewrite Hop. apply iv_opens0.
  - auto.
  - intros c e Hc Hs Hl. eauto.
  - intros q e Hq Hl. eauto.
  - intros q q' e e' Hq Hq' Hl Hl'. eauto.
  - intros q Hq. rewrite lookup_insert in Hq. case_decide; [by subst|]. by apply iv_alloc0.
  - intros q Hq. rewrite lookup_insert in Hq. case_decide; [by subst|]. by apply iv_kinds0.
  - intros q e. rewrite lookup_insert. case_decide; [by intros [= <-]|eauto].
Qed.

(** Putting a device on the list; the reference of a subdevice to its parent
    was an open one. *)
Definition is_parent (q : Z) (d : device) : bool := d_subdev d && bool_decide (q = d_parent d).

Lemma register_ok w p d : Inv w -> devs w !! p = Some d -> ref (dev d) = 0 -> p ∉ dlist w -> names w !! d_name d = Some (name (dev d)) ->
  (forall q e, devs w !! q = Some e -> is_live e = true -> d_name e ≠ d_name d) -> opens w p = 0 ->
  (d_subdev d = true -> 1 <= opens w (d_parent d)) ->
  wp (bio_register_device p) w (fun _ w' => Inv w' /\ (forall q, opens w' q = opens w q - one (is_parent q d)) /\
    dlist w' = dlist w ++ [p] /\ devs w' = <[p := set_ref 1 d]> (devs w) /\ names w' = names w).
Proof.
  intros Hi Hp Hr Hl Hn Hfresh Ho Hpar. unfold bio_register_device, bdev_inc_ref, upd_bdevs. wp_step.
  split; [apply negb_true_iff, Z.eqb_neq; intros ->; rewrite (iv_null _ Hi) in Hp; done|].
  eapply wp_upd_dev; [done|]. rewrite Hr. change (s32 (0 + 1)) with 1. set (d' := set_ref 1 d). wp_step.
  assert (forall q e, <[p := d']> (devs w) !! q = Some e -> (q = p /\ e = d') \/ (q ≠ p /\ devs w !! q = Some e)) as Hold.
  { intros q e. rewrite lookup_insert. case_decide as E; [intros [= <-]; by left|]. right. split; [congruence|done]. }
  assert (forall q, is_Some (<[p := d']> (devs w) !! q) <-> is_Some (devs w !! q)) as Hdom.
  { intros q. rewrite lookup_insert. case_decide; [|done]. subst. rewrite Hp. by split; intros _; eexists. }
  assert (forall q, kid q d = false) as Hk0. { intros q. unfold kid, is_live. by rewrite Hr, andb_false_r. }
  assert (forall q, kid q d' = is_parent q d) as Hk.
  { intros q. unfold kid, is_parent. cbn. rewrite andb_true_r. f_equal. destruct (Z.eqb_spec (d_parent d) q) as [->|];
      [by rewrite bool_decide_eq_true_2|rewrite bool_decide_eq_false_2; congruence]. }
  assert (d_subdev d = true -> d_parent d ≠ p) as Hne by (intros Hs E; specialize (Hpar Hs); rewrite E in Hpar; lia).
  set (w' := MkWorld _ _). assert (forall q, opens w' q = opens w q - one (is_parent q d)) as Hop.
  { intros q. unfold opens, w'. cbn. rewrite (count_update _ _ _ _ d' Hp), Hk0, Hk, lookup_insert. case_decide as E.
    - subst q. rewrite Hp, Hr. cbn. rewrite (bool_decide_eq_false_2 (p ∈ dlist w)) by done.
      rewrite bool_decide_eq_true_2 by (apply elem_of_app; right; by apply list_elem_of_singleton).
      assert (is_parent p d = false) as ->; [|lia]. unfold is_parent. destruct (d_subdev d); [|done]. cbn.
      apply bool_decide_eq_false_2. intros E. by apply Hne.
    - destruct (devs w !! q) as [e|] eqn:Hq.
      + rewrite (bool_decide_ext (q ∈ dlist w ++ [p]) (q ∈ dlist w)); [lia|].
        rewrite elem_of_app, list_elem_of_singleton. split; [by intros [?| ->]|by left].
      + unfold is_parent. destruct (d_subdev d) eqn:Hs; [|done]. cbn. rewrite bool_decide_eq_false_2; [done|]. intros E'.
        specialize (Hpar eq_refl). unfold opens in Hpar. rewrite <- E', Hq in Hpar. lia. }
  split; [|done]. pose proof (iv_opens _ Hi) as Hall. destruct Hi. split; unfold w'; cbn; try done.
  - rewrite lookup_insert_ne; [done|]. intros ->. congruence.
  - intros q e [[-> ->]|[_ Hq]]%Hold; [cbn; lia|eauto].
  - intros q. fold w'. rewrite Hop. specialize (Hall q). destruct (is_parent q d) eqn:E; [|lia]. unfold is_parent in E.
    apply andb_true_iff in E as [Hs E]. apply bool_decide_eq_true in E. subst. specialize (Hpar Hs). lia.
  - apply NoDup_app. split; [done|]. split; [by intros q Hq ->%list_elem_of_singleton|]. apply NoDup_singleton.
  - intros q [Hq|Hq]%elem_of_app; apply Hdom; [auto|]. apply list_elem_of_singleton in Hq as ->. by eexists.
  - intros c e [[-> ->]|[_ Hc]]%Hold Hs Hlv; apply Hdom; [|eauto]. cbn in *. specialize (Hpar Hs). unfold opens in Hpar.
    destruct (devs w !! d_parent d); [by eexists|lia].
  - intros q e [[-> ->]|[_ Hq]]%Hold Hlv; [done|eauto].
  - intros q q' e e' [[-> ->]|[Hqp Hq]]%Hold [[-> ->]|[Hqp' Hq']]%Hold Hlv Hlv' E; cbn in E; [done| | |eauto].
    + exfalso. by apply (Hfresh q' e').
    + exfalso. by apply (Hfresh q e).
  - intros q Hq. apply iv_alloc0. destruct Hq as [Hq|Hq]; [left; by apply Hdom|by right].
  - intros q Hq. by apply iv_kinds0, Hdom.
  - intros q e Hq. apply Hold in Hq as [[-> ->]|[_ Hq]]; [exact (iv_size0 p d Hp)|exact (iv_size0 q e Hq)].
Qed.

(** Taking a device off the list leaves a reference open. *)
Lemma unregister_ok w p : Inv w -> p ∈ dlist w ->
  wp (bio_unregister_device p) w (fun _ w' => Inv w' /\ (forall q, opens w' q = opens w q) /\
    dlist w' = filter (fun q => q ≠ p) (dlist w) /\ freed w w').
Proof.
  intros Hi Hl. destruct (iv_list _ Hi p Hl) as [d Hp]. unfold bio_unregister_device, upd_bdevs. wp_step.
  split; [apply negb_true_iff, Z.eqb_neq; intros ->; rewrite (iv_null _ Hi) in Hp; done|]. wp_step.
  split; [by apply bool_decide_eq_true_2|]. wp_step. set (w1 := MkWorld _ _).
  assert (forall q, q ∈ dlist w1 <-> q ≠ p /\ q ∈ dlist w) as Hl1 by (intros q; unfold w1; cbn; by rewrite list_elem_of_filter).
  assert (forall q, opens w1 q = opens w q + one (bool_decide (q = p))) as Hop.
  { intros q. unfold opens. change (devs w1) with (devs w). destruct (devs w !! q) as [e|] eqn:Hq; [|rewrite bool_decide_eq_false_2; [done|congruence]].
    destruct (decide (q = p)) as [->|Hne].
    - rewrite (bool_decide_eq_false_2 (p ∈ dlist w1)), (bool_decide_eq_true_2 (p ∈ dlist w)), bool_decide_eq_true_2 by (done || (rewrite Hl1; by intros [])). lia.
    - rewrite (bool_decide_eq_false_2 (q = p)) by done. rewrite (bool_decide_ext (q ∈ dlist w1) (q ∈ dlist w)) by (rewrite Hl1; tauto). lia. }
  assert (Inv w1) as Hi1.
  { pose proof (iv_opens _ Hi) as Hall. destruct Hi. split; try done.
    - intros q. rewrite Hop. specialize (Hall q). destruct (bool_decide _); lia.
    - unfold w1. cbn. by apply NoDup_filter.
    - intros q [_ Hq]%Hl1. auto. }
  pose proof (count_size is_live (devs w1)) as Hc.
  assert (1 <= opens w1 p) as Ho1 by (rewrite Hop, bool_decide_eq_true_2 by done; pose proof (iv_opens _ Hi p); lia).
  eapply wp_mono; [apply (dec_ref_ok (S (size (devs w1))) w1 p d Hi1 Hp Ho1); unfold live_count; lia|].
  intros _ w2 (Hi2 & Hl2 & Ho2 & _ & _ & _ & Hfr). split; [done|]. split; [intros q; rewrite Ho2, Hop; lia|].
  split; [by rewrite Hl2|exact Hfr].
Qed.

Context `{!AllocTotal H}.

Lemma strdup_ok w nm : Inv w -> Z.of_nat (length nm) < 2 ^ 16 - 1 ->
  wp (strdup nm) w (fun r w' => Inv w' /\ devs w' = devs w /\ dlist w' = dlist w /\ names w !! r = None /\ devs w !! r = None /\
    names w' !! r = Some nm /\ (forall q, q ≠ r -> names w' !! q = names w !! q) /\ ~ allocated (w_heap w) r /\
    (forall q, allocated (w_heap w) q -> allocated (w_heap w') q)).
Proof.
  intros Hi Hn. unfold strdup. wp_step. apply wp_on_dev_heap. eapply wp_mono; [apply malloc_granted; [apply (iv_heap _ Hi)|lia]|].
  intros r h ((Hh & Hal & Hnew) & Hr0). destruct (Hnew Hr0) as [Hr Hr']. rewrite (proj2 (Z.eqb_neq r 0)) by done.
  assert (names w !! r = None /\ devs w !! r = None) as [Hnr Hdr].
  { split; apply eq_None_not_Some; intros Hx; apply Hr, (iv_alloc _ Hi); auto. }
  unfold upd_bdevs. wp_step. cbn. split_and!; try done; [|apply lookup_insert_eq|intros q Hq; by rewrite lookup_insert_ne].
  pose proof (Inv_heap w h Hi Hh Hal) as []. split; cbn; try done.
  - by rewrite lookup_insert_ne.
  - intros p d Hp Hl. rewrite lookup_insert_ne; [eauto|]. intros E. specialize (iv_name0 p d Hp Hl). cbn in iv_name0. congruence.
  - intros p Hp. rewrite lookup_insert in Hp. case_decide as E; [by subst|]. by apply iv_alloc0.
  - intros p Hp. rewrite lookup_insert_ne; [by apply iv_kinds0|]. intros E. destruct Hp. congruence.
Qed.

Lemma initialize_ok w p junk nm bs count geo fl : Inv w -> vacant w p -> Z.of_nat (length nm) < 2 ^ 16 - 1 -> size_ok bs = true ->
  wp (initialize_device p junk nm bs count geo fl) w (fun _ w' => Inv w' /\ dlist w' = dlist w /\ (forall q, opens w' q = opens w q) /\
    (forall q, q ≠ p -> devs w' !! q = devs w !! q) /\
    exists d, devs w' !! p = Some d /\ ref (dev d) = 0 /\ d_subdev d = false /\ name (dev d) = nm /\ names w' !! d_name d = Some nm /\
      (exists b, Bio.Bio.bio_initialize_bdev (dev junk) nm bs count fl = Some b /\
        d = MkDevice b (d_name d) geo false (d_parent junk) (d_offset junk)) /\
      (forall q e, devs w' !! q = Some e -> is_live e = true -> d_name e ≠ d_name d)).
Proof.
  intros Hi Hv Hn Hbs. pose proof Hv as (Hp0 & Hp & Hnp & Hal). pose proof Hbs as Hbs'. unfold size_ok in Hbs'. bool_prop. unfold initialize_device. wp_step.
  split; [by apply negb_true_iff, Z.eqb_neq|]. rewrite uw_small by lia. wp_step. split; [rewrite (proj2 (Z.eqb_neq bs 0)) by lia; done|].
  eapply wp_mono; [by apply strdup_ok|]. intros r w1 (Hi1 & Hd1 & Hl1 & Hnr & Hdr & Hr1 & Hsame & Hfresh & Hal1). wp_step.
  destruct (Bio.Bio.bio_initialize_bdev (dev junk) nm bs count fl) as [b|] eqn:Eb; revert Eb;
    unfold Bio.Bio.bio_initialize_bdev; rewrite uw_small by lia; rewrite (proj2 (Z.eqb_neq bs 0)) by lia;
    match goal with Hb : ispow2 bs = true |- _ => rewrite Hb end; cbn [negb andb]; [|done].
  intros [= Eb]. assert (ref b = 0 /\ name b = nm /\ block_size b = bs) as (Hb0 & Hbn & Hbb) by (by rewrite <- Eb). exists b.
  split; [done|]. unfold set_dev, upd_bdevs. wp_step.
  set (d := MkDevice _ _ _ _ _ _).
  assert (vacant w1 p) as Hv1.
  { split_and!; [done|by rewrite Hd1| |by apply Hal1]. rewrite Hsame; [done|]. intros ->. done. }
  destruct (Inv_new w1 p d Hi1 Hv1 Hb0 ltac:(cbn; by rewrite Hbb)) as [Hi2 Ho2]. unfold put_dev in *. split_and!; [done|done| | |].
  - intros q. rewrite Ho2. unfold opens. by rewrite Hd1, Hl1.
  - intros q Hq. cbn. by rewrite lookup_insert_ne, Hd1.
  - exists d. cbn. split_and!; [apply lookup_insert_eq|done..|by exists b|]. intros q e. rewrite lookup_insert.
    case_decide; [intros [= <-]; unfold is_live; cbn; by rewrite Hb0|].
    rewrite Hd1. intros Hq Hl E. pose proof (iv_name _ Hi q e Hq Hl) as Hx. cbn in E. rewrite E in Hx. congruence.
Qed.

(** * The interface *)

Inductive op :=
  | Open (nm : list Z)
  | GetWithPrefix (nm : list Z)
  | Close (p : Z)
  | AddDevice (p : Z) (junk : device) (nm : list Z) (bs count flags : Z)
  | Unregister (p : Z)
  | Publish (junk : device) (parent subdev : list Z) (startblock block_count : Z).

(** A driver sets up the device of its structure and puts it on the list. *)
Definition run_op (o : op) : M world Z :=
  match o with
  | Open nm => bio_open nm
  | GetWithPrefix nm => bio_get_with_prefix nm
  | Close p => _ ← bio_close p; mret 0
  | AddDevice p junk nm bs count flags => _ ← initialize_device p junk nm bs count [] flags; _ ← bio_register_device p; mret 0
  | Unregister p => _ ← bio_unregister_device p; mret 0
  | Publish junk parent subdev startblock block_count => bio_publish_subdevice junk parent subdev startblock block_count
  end.

(** What callers keep to: references they hold, structures of their own, block
    sizes that are powers of two, fewer than 2^31 - 1 references, names of less
    than 2^16 characters, and a geometry whose ends do not wrap around. *)
Definition op_ok w (o : op) : Prop :=
  match o with
  | Open _ => small_refs w
  | GetWithPrefix _ => True
  | Close p => 1 <= opens w p
  | AddDevice p junk nm bs count flags => vacant w p /\ Z.of_nat (length nm) < 2 ^ 16 - 1 /\ size_ok bs = true
  | Unregister p => p ∈ dlist w
  | Publish junk parent subdev startblock block_count => small_refs w /\ Z.of_nat (length subdev) < 2 ^ 16 - 1 /\
      forall p d, find_dev w parent = Some p -> devs w !! p = Some d -> subdev_geometry d startblock block_count ≠ None
  end.

(** Open references a call adds to a device. *)
Definition effect (o : op) (r q : Z) : Z :=
  match o with
  | Open _ => one (bool_decide (r ≠ 0 /\ q = r))
  | Close p => - one (bool_decide (q = p))
  | _ => 0
  end.

(** The first listed device whose name begins with [nm]. *)
Definition prefixed w (nm : list Z) (p : Z) : bool :=
  match devs w !! p with Some d => bool_decide (take (length nm) (name (dev d)) = nm) | None => false end.

(** The structure at [p], new to the list, is the device with this name, sizes and
    geometry, and has one reference. *)
Definition added w (p : Z) (junk : device) (nm : list Z) (bs count : Z) (geo : list bio_erase_geometry_info_t) (flags : Z)
    (sub : bool) (parent offset : Z) w' : Prop :=
  dlist w' = dlist w ++ [p] /\ devs w !! p = None /\
  exists b a, Bio.Bio.bio_initialize_bdev (dev junk) nm bs count flags = Some b /\
    devs w' !! p = Some (set_ref 1 (MkDevice b a geo sub parent offset)) /\ names w' !! a = Some nm.

(** What a call returns, and leaves on the list. *)
Definition answer w (o : op) (r : Z) w' : Prop :=
  match o with
  | Open nm => r = default 0 (find_dev w nm) /\ dlist w' = dlist w /\ names w' = names w
  | GetWithPrefix nm => r = default 0 (List.find (prefixed w nm) (dlist w)) /\ w' = w
  | Close p => dlist w' = dlist w /\ freed w w'
  | AddDevice p junk nm bs count flags => r = 0 /\
      added w p junk nm bs count [] flags false (d_parent junk) (d_offset junk) w' /\
      forall q, q ≠ p -> devs w' !! q = devs w !! q
  | Unregister p => r = 0 /\ dlist w' = filter (fun q => q ≠ p) (dlist w) /\ freed w w'
  | Publish junk parent subdev startblock block_count =>
      match find_dev w parent with
      | None => r = ERR_NOT_FOUND /\ dlist w' = dlist w
      | Some p => exists d, devs w !! p = Some d /\
          match subdev_geometry d startblock block_count with
          | Some (inl err) => r = err /\ dlist w' = dlist w
          | Some (inr geo) => r = NO_ERROR /\
              exists s, added w s junk subdev (block_size (dev d)) block_count geo 0 true p startblock w'
          | None => False
          end
      end
  end.

Lemma geometry_ref x d startblock block_count : subdev_geometry (set_ref x d) startblock block_count = subdev_geometry d startblock block_count.
Proof. done. Qed.

Lemma find_dev_some w nm p : Inv w -> find_dev w nm = Some p -> exists d, devs w !! p = Some d /\ p ∈ dlist w /\ p ≠ 0.
Proof.
  intros Hi Hf. apply find_some in Hf as [Hl _]. apply list_elem_of_In in Hl. destruct (iv_list _ Hi p Hl) as [d Hd].
  exists d. split_and!; try done. intros ->. rewrite (iv_null _ Hi) in Hd. done.
Qed.

Lemma find_prefix_ok w nm l : Inv w -> (forall p, p ∈ l -> p ∈ dlist w) ->
  wp (find_prefix l nm) w (fun r w' => r = default 0 (List.find (prefixed w nm) l) /\ w' = w).
Proof.
  intros Hi. induction l as [|p l IH]; intros Hl; cbn [find_prefix]; [by wp_step|].
  destruct (iv_list _ Hi p ltac:(set_solver)) as [d Hp]. wp_step. eapply wp_dev_at; [done|]. unfold string_at. wp_step.
  pose proof (listed_live w p d Hi Hp ltac:(set_solver)) as Hr. exists (name (dev d)).
  split; [apply iv_name with p; try done; by apply Z.ltb_lt|]. cbn [List.find].
  assert (prefixed w nm p = bool_decide (take (length nm) (name (dev d)) = nm)) as -> by (unfold prefixed; by rewrite Hp).
  case_bool_decide; [by wp_step|]. apply IH. set_solver.
Qed.

(** Giving back memory that is no device and no name. *)
Lemma free_other w p : Inv w -> devs w !! p = None -> names w !! p = None -> allocated (w_heap w) p ->
  wp (on_heap (free p)) w (fun _ w' => Inv w' /\ w_bdevs w' = w_bdevs w).
Proof.
  intros Hi Hp Hn Ha. apply wp_on_dev_heap. eapply wp_mono; [apply free_ok; [apply (iv_heap _ Hi)|done]|]. intros _ h [Hh Hal].
  split; [|done]. destruct Hi. split; cbn; try done. intros q Hq. apply Hal; [|auto]. intros ->. destruct Hq as [[? Hq]|[? Hq]]; congruence.
Qed.

(** The failure of [bio_publish_subdevice] after the allocation. *)
Lemma publish_bail w p sub (err : Z) : Inv w -> 1 <= opens w p -> vacant w sub ->
  wp (_ ← bio_close p; _ ← on_heap (free sub); mret err) w (fun r w' => r = err /\ Inv w' /\ (forall q, opens w' q = opens w q - one (bool_decide (q = p))) /\ dlist w' = dlist w).
Proof.
  intros Hi Ho (Hs0 & Hs & Hns & Hal). wp_step. eapply wp_mono; [by apply bio_close_ok|]. intros _ w1 (Hi1 & Hl1 & Ho1 & _ & Hf & Hc & _).
  destruct (Hc sub Hns) as [Hns1 Hal1].
  assert (devs w1 !! sub = None) as Hs1.
  { destruct (devs w1 !! sub) as [e|] eqn:E; [|done]. destruct (Hf sub e E) as (e0 & ? & _). congruence. }
  wp_step. eapply wp_mono; [by apply free_other; auto|]. intros _ w2 [Hi2 Hw2]. wp_step. split_and!; [done|done| |by rewrite Hw2].
  intros q. rewrite <- Ho1. unfold opens. by rewrite Hw2.
Qed.

(** Its success: the open reference to the parent becomes the subdevice's. *)
Lemma publish_end w p sub junk nm bs count geo start : Inv w -> 1 <= opens w p -> vacant w sub -> size_ok bs = true ->
  Z.of_nat (length nm) < 2 ^ 16 - 1 ->
  wp (_ ← initialize_device sub junk nm bs count geo 0;
      _ ← upd_dev sub (fun s => MkDevice (dev s) (d_name s) (d_geometry s) true p start);
      _ ← bio_register_device sub; mret NO_ERROR) w
    (fun r w' => r = NO_ERROR /\ Inv w' /\ (forall q, opens w' q = opens w q - one (bool_decide (q = p))) /\
      added w sub junk nm bs count geo 0 true p start w').
Proof.
  intros Hi Ho Hv Hbs Hn. pose proof Hv as (_ & Hs & _ & _). wp_step. eapply wp_mono; [by apply initialize_ok|].
  intros _ w1 (Hi1 & Hl1 & Ho1 & Hd1 & d & Hd & Hr & Hsub & Hnm & Hname & (b & Hb & Ed) & Hfresh). wp_step. eapply wp_upd_dev; [done|].
  set (d' := MkDevice _ _ _ _ _ _). set (w2 := put_dev sub d' w1).
  assert (is_live d = false /\ is_live d' = false) as [Hdl Hdl'] by (unfold is_live, d'; cbn; by rewrite Hr).
  assert (forall q, opens w2 q = opens w q) as Ho2.
  { intros q. unfold w2. rewrite (opens_put w1 sub d d' q Hd), <- Ho1. unfold kid. rewrite Hdl, Hdl', !andb_false_r. cbn.
    destruct (bool_decide (q = sub)), (bool_decide (is_Some _)); lia. }
  assert (Inv w2) as Hi2.
  { apply (Inv_put w1 sub d); try done; [exact (iv_ref _ Hi1 sub d Hd)|by rewrite Hdl'|]. intros q. fold w2. rewrite Ho2. by apply iv_opens. }
  assert (devs w2 !! sub = Some d') as Hs2 by apply lookup_insert_eq. wp_step.
  eapply wp_mono; [apply (register_ok w2 sub d'); try done|].
  - change (dlist w2) with (dlist w1). rewrite Hl1. intros Hin. destruct (iv_list _ Hi sub Hin). congruence.
  - change (names w2) with (names w1). unfold d'. cbn. by rewrite Hname, Hnm.
  - intros q e. unfold w2. cbn. rewrite lookup_insert. case_decide as E; [intros [= <-]; congruence|]. apply Hfresh.
  - rewrite Ho2. unfold opens. by rewrite Hs.
  - intros _. unfold d'. cbn. by rewrite Ho2.
  - intros _ w3 (Hi3 & Ho3 & Hl3 & Hd3 & Hn3). wp_step. split_and!; [done|done| |].
    { intros q. rewrite Ho3, Ho2. unfold is_parent, d'. cbn. lia. }
    split; [rewrite Hl3; change (dlist w2) with (dlist w1); by rewrite Hl1|]. split; [done|].
    exists b, (d_name d). split; [done|]. split; [|by rewrite Hn3].
    rewrite Hd3, lookup_insert_eq. unfold d'. by rewrite Ed.
Qed.

Lemma publish_ok w junk parent nm start count : Inv w -> op_ok w (Publish junk parent nm start count) ->
  wp (bio_publish_subdevice junk parent nm start count) w (fun r w' => Inv w' /\ (forall q, opens w' q = opens w q) /\
    answer w (Publish junk parent nm start count) r w').
Proof.
  intros Hi (Hsm & Hn & Hgeo). unfold bio_publish_subdevice, bio_open. cbn [answer]. wp_step. eapply wp_mono; [by apply find_open_ok|].
  intros p w1 (Hi1 & Hp & Hl1 & Hn1 & Hh1 & Ho1 & Hd1' & Hd1). fold (find_dev w parent) in Hp.
  destruct (find_dev w parent) as [p'|] eqn:Hf; cbn in Hp; subst p.
  - destruct (find_dev_some w parent p' Hi Hf) as (d & Hd & Hlist & Hp0). rewrite (proj2 (Z.eqb_neq p' 0)) by done. wp_step.
    apply wp_on_dev_heap. eapply wp_mono; [apply malloc_granted; [apply (iv_heap _ Hi1)|done]|]. intros sub h ((Hh & Hal & Hnew) & Hs0).
    destruct (Hnew Hs0) as [Hs Hs']. rewrite (proj2 (Z.eqb_neq sub 0)) by done. set (w2 := MkWorld (w_bdevs w1) h).
    assert (Inv w2) as Hi2 by (by apply Inv_heap).
    assert (vacant w2 sub) as Hv.
    { split_and!; try done; apply eq_None_not_Some; intros Hx; apply Hs, (iv_alloc _ Hi1); auto. }
    destruct (iv_list _ Hi1 p' ltac:(by rewrite Hl1)) as [d1 Hp1]. destruct (Hd1 p' d1 Hp1) as (d0 & Hd0 & Hdd). rewrite Hd in Hd0. injection Hd0 as <-.
    wp_step. eapply wp_dev_at; [exact Hp1|]. wp_step. rewrite Hdd, geometry_ref. specialize (Hgeo p' d eq_refl Hd).
    destruct (subdev_geometry d start count) as [g|] eqn:Hg; [|done]. eexists. split; [done|].
    assert (1 <= opens w2 p') as Ho2.
    { change (opens w2 p') with (opens w1 p'). rewrite Ho1, bool_decide_eq_true_2 by done. pose proof (iv_opens _ Hi p'). lia. }
    assert (forall q, opens w2 q - one (bool_decide (q = p')) = opens w q) as Hback.
    { intros q. change (opens w2 q) with (opens w1 q). rewrite Ho1, (bool_decide_ext (p' ≠ 0 /\ q = p') (q = p')) by tauto. lia. }
    destruct g as [err|geo].
    + eapply wp_mono; [by apply publish_bail|]. cbn. intros r w3 (-> & Hi3 & Ho3 & Hl3). split; [done|]. split; [intros q; by rewrite Ho3|].
      exists d. rewrite Hg. split_and!; [done|done|]. by rewrite Hl3.
    + eapply wp_mono; [apply publish_end; [done|done|done|exact (iv_size _ Hi p' d Hd)|done]|]. cbn. intros r w3 (-> & Hi3 & Ho3 & Hl3 & Hs3 & Had).
      split; [done|]. split; [intros q; by rewrite Ho3|]. exists d. rewrite Hg. split_and!; [done|done|]. exists sub.
      split; [rewrite Hl3; change (dlist w2) with (dlist w1); by rewrite Hl1|].
      split; [|exact Had]. apply eq_None_not_Some. intros Hx. apply Hs, (iv_alloc _ Hi1). left. by apply Hd1'.
  - cbn. wp_step. split; [done|]. split; [|by split]. intros q. rewrite Ho1, bool_decide_eq_false_2 by (by intros [? _]). lia.
Qed.


End props.

End BdevsProps.

(** A device with a subdevice, over the allocator of [AllocLib]. *)
Module BdevsSample.
Import BlockDev WaitLib AllocLib Bdevs BdevsProps.

Abbreviation world := (Bdevs.world (H := bump)).
Definition junk : device := MkDevice (MkBdev 7 [] 0 0 0 0 0 0 0 0) 0 [] true 99 99.
Definition flash : list Z := [102; 108; 97; 115; 104].
Definition boot : list Z := [98; 111; 111; 116].

(** The structure of a driver at 8. *)
Definition w0 : world := MkWorld (MkBdevs ∅ ∅ []) (MkBump 100 {[8]}).
Definition add : op := AddDevice 8 junk flash 512 64 0.
Definition after (o : op) (w : world) : world := match run_op o w with Some (_, w) => w | None => w end.
Definition w1 : world := after add w0.
Definition publish : op := Publish junk flash boot 16 8.

Lemma Inv0 : Inv w0.
Proof.
  split; cbn; try done; try (intros ? ?; by rewrite lookup_empty).
  - constructor.
  - intros p Hp. by apply not_elem_of_nil in Hp.
  - split; [lia|]. intros p ->%elem_of_singleton. lia.
  - intros p. rewrite !lookup_empty. by intros [[? ?]|[? ?]].
Qed.

Lemma added : run_op add w0 = Some (0, w1).
Proof. vm_compute. reflexivity. Qed.

Lemma add_ok : op_ok w0 add.
Proof. split; [|done]. split_and!; [done|done|done|]. change (8 ∈ ({[8]} : gset Z)). by apply elem_of_singleton. Qed.

Lemma small_check (w : world) : forallb (fun x => ref (dev x.2) + 1 <? 2 ^ 31) (map_to_list (b_devs (w_bdevs w))) = true -> small_refs w.
Proof.
  rewrite forallb_forall. intros Hf p d Hp. apply elem_of_map_to_list, list_elem_of_In in Hp. apply Hf in Hp. by apply Z.ltb_lt.
Qed.

Lemma flash_found : find_dev w1 flash = Some 8.
Proof. vm_compute. reflexivity. Qed.

Lemma flash_geometry d : b_devs (w_bdevs w1) !! 8 = Some d -> subdev_geometry d 16 8 = Some (inr []).
Proof.
  assert (match b_devs (w_bdevs w1) !! 8 with
    | Some b => match subdev_geometry b 16 8 with Some (inr []) => true | _ => false end | None => false end = true) as E by (vm_compute; reflexivity).
  intros Hd. rewrite Hd in E. by destruct (subdev_geometry d 16 8) as [[|[]]|].
Qed.

Lemma publish_allowed : op_ok w1 publish.
Proof.
  split; [apply small_check; vm_compute; reflexivity|]. split; [done|]. intros p d Hf Hd.
  rewrite flash_found in Hf. injection Hf as <-. by rewrite (flash_geometry d Hd).
Qed.


(** A region behind the only erase region of the device is accepted. *)
Definition regions : list bio_erase_geometry_info_t := [MkGeometry 0 4096 512 9].
Lemma uncontained_accepted :
  bio_contains_range 0 4096 8192 4096 = Some false /\
  subdev_geometry (MkDevice (MkBdev 1 flash 32768 512 9 64 0 0 0 0) 0 regions false 0 0) 16 8 = Some (inr [MkGeometry 0 4096 512 9]).
Proof. by split. Qed.

(** The structure of a subdevice is never freed. *)
Lemma subdevice_leaks : let w2 := after publish w1 in
  match run_op (Unregister 106) w2 with
  | Some (_, w3) => ref (dev (default junk (b_devs (w_bdevs w3) !! 106))) = 0 /\ bool_decide (106 ∈ b_live (w_heap w3)) = true
  | None => False
  end.
Proof. vm_compute. by split. Qed.

(** The pointers a subdevice inherits from the memory [malloc] gave it:
    [bio_initialize_bdev] keeps what it does not set. *)
Lemma junk_kept : forall b, Bio.Bio.bio_initialize_bdev (dev junk) boot 512 8 0 = Some b -> max_blkcnt_per_cmd b = max_blkcnt_per_cmd (dev junk).
Proof. by intros b [= <-]. Qed.

End BdevsSample.
