(* ===== verification/Subdev.v ===== *)
(** The transfer hooks of subdevices, [lib/bio/subdev.c]: a subdevice is a range
    of blocks of its parent. *)
From S2P Require Import Prelude Mem BlockDev Bio ByteIo.
Local Open Scope Z_scope.

Module Subdev.
Import Mem BlockDev Bio.

Section subdev.
Context {K : Type} `{!ByteIo.ByteIoOps K} `{!DriverOps K}.
(** The parent, its [bio_erase], the subdevice and its first block. *)
Context (parent : bdev_t) (parent_erase : Z -> Z -> M (iostate K) Z) (sub : bdev_t) (start : Z).
Abbreviation IO := (M (iostate K)).

(** [offset + subdev->offset * subdev->dev.block_size], an [off_t]. *)
Definition byte_offset (offset : Z) : Z := s64 (u64 (offset + u64 (start * block_size sub))).

Definition subdev_read (buf offset len : Z) : IO Z := ByteIo.bio_read buf (byte_offset offset) len.
Definition subdev_write (buf offset len : Z) : IO Z := ByteIo.bio_write buf (byte_offset offset) len.
Definition subdev_erase (offset len : Z) : IO Z := parent_erase (byte_offset offset) len.
Definition subdev_read_block (buf block count : Z) : IO Z := bio_read_block parent buf (u32 (block + start)) count.
Definition subdev_write_block (buf block count : Z) : IO Z := bio_write_block parent buf (u32 (block + start)) count.

(** Transfers by bytes to and from the subdevice. *)
Definition sub_read : Z -> Z -> Z -> IO Z := bio_read sub subdev_read.
Definition sub_write : Z -> Z -> Z -> IO Z := bio_write sub subdev_write.

(** * The range as a disk of its own *)

Definition first_byte : Z := start * block_size sub.
Definition window (m : mem) : mem := filter (fun x => 0 <= x.1 < total_size sub) (kmap (fun a => a - first_byte) m).

Definition sub_bytes : ByteIo.ByteIoOps K := {|
  ByteIo.bio_read := sub_read;
  ByteIo.bio_write := sub_write;
  ByteIo.io_disk k := window (ByteIo.io_disk k);
  ByteIo.io_size := total_size sub;
  ByteIo.io_ok := ByteIo.io_ok;
  ByteIo.io_stack := ByteIo.io_stack;
|}.
End subdev.
End Subdev.
