(* ===== verification/SubdevProps.v ===== *)
(** A subdevice behaves as a device whose disk is its range of the parent's. *)
From S2P Require Import Prelude Mem Pow2 BlockDev Bio BlockProps BioSample ByteIo BcacheProps Subdev.
Local Open Scope Z_scope.

Module SubdevProps.
Import Mem BlockDev Bio BlockProps ByteIo Subdev.

Section window.
Context (sub : bdev_t) (start : Z).
Abbreviation F := (first_byte sub start).
Abbreviation win := (window sub start).

#[local] Instance shift_inj : Inj (=) (=) (fun a => a - F).
Proof. intros x y Hxy. lia. Qed.

Lemma window_lookup m a : win m !! a = if decide (0 <= a < total_size sub) then m !! (a + F) else None.
Proof.
  unfold window. case_decide as Ha.
  - rewrite <- (lookup_kmap (fun a => a - F) m (a + F)). replace (a + F - F) with a by lia.
    destruct (kmap (fun a => a - F) m !! a) as [b|] eqn:E.
    + by apply map_lookup_filter_Some.
    + apply map_lookup_filter_None. by left.
  - apply map_lookup_filter_None. right. intros b _. done.
Qed.

Lemma window_bytes m a l : 0 <= a -> a + lenZ l <= total_size sub -> bytes_at m (a + F) l <-> bytes_at (win m) a l.
Proof.
  intros Ha Hl. split; intros Hb i b Hi; pose proof (lookup_lt_Some _ _ _ Hi); specialize (Hb i b Hi).
  - rewrite window_lookup, decide_True by lia. by replace (a + Z.of_nat i + F) with (a + F + Z.of_nat i) by lia.
  - rewrite window_lookup, decide_True in Hb by lia. by replace (a + F + Z.of_nat i) with (a + Z.of_nat i + F) by lia.
Qed.

Lemma window_put m a l : 0 <= a -> a + lenZ l <= total_size sub -> win (put m (a + F) l) = put (win m) a l.
Proof.
  intros Ha Hl. apply map_eq. intros x. destruct (decide (a <= x < a + lenZ l)) as [Hx|Hx].
  - pose proof (put_bytes_at m (a + F) l) as Hb. rewrite window_bytes in Hb by lia. pose proof (put_bytes_at (win m) a l) as Hb'.
    destruct (lookup_lt_is_Some_2 l (Z.to_nat (x - a))) as [b Hi]; [lia|].
    specialize (Hb _ b Hi). specialize (Hb' _ b Hi). replace (a + Z.of_nat (Z.to_nat (x - a))) with x in * by lia. congruence.
  - rewrite (put_lookup_out (win m)) by lia. rewrite !window_lookup. case_decide; [|done]. rewrite put_lookup_out by lia. done.
Qed.

Lemma window_byte_mem m : byte_mem m -> byte_mem (win m).
Proof. intros Hm a b Ha. rewrite window_lookup in Ha. case_decide; [|done]. by eapply Hm. Qed.
End window.

Section laws.
Context {K : Type} `{Hops : ByteIoOps K} `{!ByteIoLaws K}.
Context (sub : bdev_t) (start : Z).
Abbreviation F := (first_byte sub start).
#[local] Existing Instance Hops | 0.
Abbreviation sub_ops := (sub_bytes sub start).

(** A subdevice within its parent, as [bio_publish_subdevice] leaves it. *)
Record sub_ok : Prop := {
  s_ref : 0 < ref sub;
  s_size : 0 < block_size sub;
  s_start : 0 <= start;
  s_total : 0 <= total_size sub;
  s_fits : F + total_size sub <= io_size < 2 ^ 63;
}.
Context (Hsub : sub_ok).

Lemma first_byte_pos : 0 <= F.
Proof. destruct Hsub. unfold first_byte. nia. Qed.

Lemma byte_offset_ok off : 0 <= off <= total_size sub -> byte_offset sub start off = off + F.
Proof.
  intros Ho. pose proof first_byte_pos. destruct Hsub as [_ _ _ _ Hf]. unfold byte_offset. fold F.
  rewrite (uw_small 64 F), (uw_small 64 (off + F)), (sw_small 64) by lia. done.
Qed.

(** The part of a request inside the subdevice. *)
Definition kept (off n : Z) : Z := Z.max 0 (Z.min n (total_size sub - off)).

Lemma trim_kept off n : 0 <= off -> 0 <= n -> off + n < 2 ^ 63 -> bio_trim_range sub off n = kept off n.
Proof.
  intros Ho Hn Hs. pose proof first_byte_pos. destruct Hsub as [_ _ _ _ Hf]. unfold bio_trim_range, kept.
  destruct (Z.ltb_spec off 0); [lia|]. destruct (Z.leb_spec (total_size sub) off); [lia|]. destruct (Z.eqb_spec n 0); [lia|].
  rewrite (uw_small 64 (off + n)), (sw_small 64) by lia. destruct (Z.ltb_spec (total_size sub) (off + n)); [rewrite uw_small by lia|]; lia.
Qed.

(** A request becomes the parent's request for the part inside. *)
Lemma sub_read_eq buf off n : 0 <= off -> 0 <= n -> off + n < 2 ^ 63 -> forall s,
  sub_read sub start buf off n s = if kept off n =? 0 then Some (0, s) else bio_read buf (off + F) (kept off n) s.
Proof.
  intros Ho Hn Hs s. pose proof (s_ref Hsub) as Hr. unfold sub_read, Bio.bio_read. rewrite trim_kept by done.
  apply Z.ltb_lt in Hr. unfold mbind, M_bind, assert_. rewrite Hr. destruct (Z.eqb_spec (kept off n) 0) as [E|E]; [done|].
  unfold subdev_read. rewrite byte_offset_ok by (unfold kept in E; lia). done.
Qed.

Lemma sub_write_eq buf off n : 0 <= off -> 0 <= n -> off + n < 2 ^ 63 -> forall s,
  sub_write sub start buf off n s = if kept off n =? 0 then Some (0, s) else bio_write buf (off + F) (kept off n) s.
Proof.
  intros Ho Hn Hs s. pose proof (s_ref Hsub) as Hr. unfold sub_write, Bio.bio_write. rewrite trim_kept by done.
  apply Z.ltb_lt in Hr. unfold mbind, M_bind, assert_. rewrite Hr. destruct (Z.eqb_spec (kept off n) 0) as [E|E]; [done|].
  unfold subdev_write. rewrite byte_offset_ok by (unfold kept in E; lia). done.
Qed.

(** What is written goes to the parent's bytes from [first_byte] on, and nowhere else. *)
Lemma sub_write_parent s buf off l : io_ready s -> 0 <= off -> 0 < lenZ l < 2 ^ 31 -> off + lenZ l <= total_size sub ->
  bytes_at (io_mem s) buf l -> Forall byte l -> (forall a, within buf (lenZ l) a -> ~ io_stack a) ->
  wp (sub_write sub start buf off (lenZ l)) s (fun r s' => r = lenZ l /\ io_ready s' /\
    io_disk (io_dev s') = put (io_disk (io_dev s)) (off + F) l /\ changed io_stack (io_mem s) (io_mem s')).
Proof.
  intros Hs Ho Hn Ht Hb Hl Hap. pose proof first_byte_pos. pose proof (s_fits Hsub) as Hf. unfold wp.
  rewrite sub_write_eq by lia. assert (kept off (lenZ l) = lenZ l) as -> by (unfold kept; lia). rewrite (proj2 (Z.eqb_neq _ _)) by lia.
  apply (bio_write_ok (H := Hops) s buf (off + F) l); (done || lia).
Qed.

Lemma sub_laws : @ByteIoLaws K sub_ops.
Proof.
  pose proof first_byte_pos. pose proof (s_fits Hsub) as Hf. split.
  - intros k Hk. destruct (io_disk_ok (H := Hops) k Hk) as [Hr Hb]. split; [|by apply window_byte_mem]. intros a Ha. cbn in Ha |- *.
    rewrite window_lookup, decide_True by lia. apply Hr. unfold first_byte in *. lia.
  - intros s buf off n Hs Ho Hn Ht Hr Hap. unfold wp. cbn [ByteIo.bio_read sub_bytes ByteIo.io_size] in *.
    rewrite sub_read_eq by lia. assert (kept off n = n) as -> by (unfold kept; lia). rewrite (proj2 (Z.eqb_neq _ _)) by lia.
    pose proof (bio_read_ok (H := Hops) s buf (off + F) n Hs ltac:(lia) Hn ltac:(lia) Hr Hap) as Hw. unfold wp in Hw.
    destruct (bio_read buf (off + F) n s) as [[r s']|]; [|done]. destruct Hw as (-> & Hs' & Hd & Hch & l & Hl & Hbl & Hbd & Hbm).
    split; [done|]. split; [done|]. cbn [ByteIo.io_disk sub_bytes]. split; [by rewrite Hd|]. split; [done|]. exists l. split; [done|]. split; [done|].
    split; [|done]. apply window_bytes; (done || lia).
  - intros s buf off l Hs Ho Hn Ht Hb Hl Hap. eapply wp_mono; [by apply sub_write_parent|].
    intros r s' (-> & Hs' & Hd & Hch). split; [done|]. split; [done|]. split; [|done]. cbn [ByteIo.io_disk sub_bytes]. cbn in Ht. rewrite Hd. apply window_put; lia.
Qed.

(** C15. A subdevice within its parent is a device of its own: its reads and writes by bytes
    keep the laws that clients of the block layer rely on (ByteIoLaws), for the disk that
    is its range of the parent's; a write puts its bytes into the parent at the first byte
    of the subdevice plus the offset and leaves every other byte of the parent alone; a
    request that reaches past the end is cut there, and one behind it moves nothing. *)
Theorem subdevice_is_window :
  @ByteIoLaws K sub_ops /\
  (forall s buf off l, io_ready s -> 0 <= off -> 0 < lenZ l < 2 ^ 31 -> off + lenZ l <= total_size sub ->
    bytes_at (io_mem s) buf l -> Forall byte l -> (forall a, within buf (lenZ l) a -> ~ io_stack a) ->
    wp (sub_write sub start buf off (lenZ l)) s (fun r s' => r = lenZ l /\
      io_disk (io_dev s') = put (io_disk (io_dev s)) (off + F) l)) /\
  (forall s buf off n, 0 <= off -> 0 <= n -> off + n < 2 ^ 63 ->
    sub_read sub start buf off n s = (if kept off n =? 0 then Some (0, s) else sub_read sub start buf off (kept off n) s) /\
    sub_write sub start buf off n s = (if kept off n =? 0 then Some (0, s) else sub_write sub start buf off (kept off n) s)).
Proof.
  split; [exact sub_laws|]. split.
  - intros s buf off l Hs Ho Hn Ht Hb Hl Hap. eapply wp_mono; [by apply sub_write_parent|]. tauto.
  - intros s buf off n Ho Hn Hf. rewrite !sub_read_eq, !sub_write_eq by (unfold kept; lia).
    replace (kept off (kept off n)) with (kept off n) by (unfold kept; lia). by destruct (kept off n =? 0).
Qed.
End laws.
End SubdevProps.

(** Two blocks in the middle of the disk of [BioSample] as a device of their own. *)
Module SubdevSample.
Import Mem BlockDev BioSample ByteIo BcacheSample Subdev SubdevProps.

#[local] Existing Instance sample_bytes.
#[local] Existing Instance sample_bytes_laws.

Definition half : bdev_t := MkBdev 1 [104; 97; 108; 102] 2048 1024 10 2 0 255 0 0.

Lemma half_ok : sub_ok half 1.
Proof. split; vm_compute; repeat split; discriminate. Qed.

Lemma sample_ready : io_ready sample_io.
Proof. split; [split; [exact sample_ok|done]|]. intros a Ha. apply (sample_room 13000 1024); [lia|vm_compute; discriminate|exact Ha]. Qed.

Lemma buffer_free a : within 10100 1000 a -> ~ io_stack a.
Proof. intros Ha Hs. change (within 13000 1024 a) in Hs. unfold within in *. lia. Qed.

(** 1000 bytes at 700 of the subdevice are bytes 1724 to 2723 of the disk. *)
Lemma subdevice_is_window_witness : sub_ok half 1 /\
  wp (sub_write half 1 10100 700 1000) sample_io (fun r s' => r = 1000 /\
    io_disk (io_dev s') = put (io_disk (io_dev sample_io)) (700 + first_byte half 1) (replicate 1000 0)).
Proof.
  split; [exact half_ok|].
  exact (proj1 (proj2 (subdevice_is_window half 1 half_ok)) sample_io 10100 700 (replicate 1000 0) sample_ready
    ltac:(lia) ltac:(rewrite length_replicate; lia) ltac:(rewrite length_replicate; vm_compute; discriminate)
    (sample_zeros 10100 1000 ltac:(lia) ltac:(lia)) ltac:(apply Forall_replicate; unfold byte; lia)
    (fun a Ha => buffer_free a Ha)).
Defined.

(** The block cache works on a subdevice as on any device. *)
Lemma half_laws : @ByteIoLaws ram (sub_bytes half 1).
Proof. exact (sub_laws half 1 half_ok). Qed.
End SubdevSample.
