(* ===== verification/FsLib.v ===== *)
(** What the mount table relies on: the hooks of a file system, an allocator and
    the device list, all over one state. *)
From S2P Require Import Prelude WaitLib.
From stdpp Require Import gmultiset.
Local Open Scope Z_scope.

Module FsLib.
Import WaitLib.

(** * The hooks *)

(** [struct fs_api]; [None] is a null pointer.  A cookie that a hook stores comes
    with its status; what [read] stores in the buffer, and the size that [stat]
    stores if it does, are results too, a byte nobody wrote being [None]. *)
Record fs_api (K : Type) := MkApi {
  api_format : option (Z -> Z -> M K Z);
  api_fs_stat : option (Z -> Z -> M K Z);
  api_mount : Z -> M K (Z * Z);
  api_unmount : Z -> M K Z;
  api_open : Z -> list Z -> M K (Z * Z);
  api_create : option (Z -> list Z -> Z -> M K (Z * Z));
  api_remove : option (Z -> list Z -> M K Z);
  api_truncate : option (Z -> Z -> M K Z);
  api_stat : Z -> M K (Z * option Z);
  api_read : Z -> Z -> Z -> M K (Z * list (option Z));
  api_write : option (Z -> list (option Z) -> Z -> M K Z);
  api_close : Z -> M K Z;
  api_mkdir : option (Z -> list Z -> M K Z);
  api_opendir : option (Z -> list Z -> M K (Z * Z));
  api_readdir : option (Z -> M K (Z * option (list Z)));
  api_closedir : option (Z -> M K Z);
  api_file_ioctl : option (Z -> Z -> Z -> M K Z);
}.
Arguments MkApi {K}.
Arguments api_format {K}.
Arguments api_fs_stat {K}.
Arguments api_mount {K}.
Arguments api_unmount {K}.
Arguments api_open {K}.
Arguments api_create {K}.
Arguments api_remove {K}.
Arguments api_truncate {K}.
Arguments api_stat {K}.
Arguments api_read {K}.
Arguments api_write {K}.
Arguments api_close {K}.
Arguments api_mkdir {K}.
Arguments api_opendir {K}.
Arguments api_readdir {K}.
Arguments api_closedir {K}.
Arguments api_file_ioctl {K}.

(** [struct fs_impl]. *)
Record fs_impl (K : Type) := MkImpl { impl_name : list Z; impl_api : fs_api K }.
Arguments MkImpl {K}.
Arguments impl_name {K}.
Arguments impl_api {K}.

(** * What the layer holds of file systems and devices *)

(** The cookies of a file system (its place in the table of file systems): a
    mounted one, and the files and directories opened there. *)
Inductive item := Live (i : nat) (c : Z) | File (i : nat) (c fc : Z) | Dir (i : nat) (c dc : Z).

#[export] Instance item_eq_dec : EqDecision item.
Proof. solve_decision. Defined.
#[export] Instance item_countable : Countable item.
Proof.
  refine (inj_countable' (fun x => match x with Live i c => (0, i, c, 0) | File i c fc => (1, i, c, fc) | Dir i c dc => (2, i, c, dc) end)
    (fun y => match y with (0, i, c, _) => Live i c | (1, i, c, fc) => File i c fc | (_, i, c, dc) => Dir i c dc end) _).
  by intros [].
Defined.

Abbreviation view := (gmultiset item).

(** Files and directories of a cookie. *)
Definition open_at (v : view) (i : nat) (c : Z) : Prop := exists x, File i c x ∈ v \/ Dir i c x ∈ v.

Class DevOps (K : Type) := {
  dev_open : list Z -> M K Z;
  dev_close : Z -> M K unit;
  dev_handles : K -> Z -> Z;
  (** one more handle is possible *)
  dev_spare : K -> Prop;
}.

(** The file systems: [fs_rep] relates their state to what was handed out;
    [remove_ok], [io_fits] are the conditions of the calls that have some. *)
Class FsOps (K : Type) := {
  fs_impls : list (fs_impl K);
  fs_rep : K -> view -> Prop;
  remove_ok : K -> view -> nat -> Z -> list Z -> Prop;
  io_fits : Z -> Prop;
}.

Section env.
Context {K : Type} `{!AllocOps K, !DevOps K}.

(** Memory stays the layer's, and the handles of devices. *)
Definition steady (k k' : K) : Prop :=
  alloc_ok k' /\ (forall q, allocated k q -> allocated k' q) /\ (forall p, dev_handles k' p = dev_handles k p).

(** The allocator and the device list, for their other clients. *)
Class DevEnv : Prop := {
  d_malloc (k : K) n : alloc_ok k -> 0 < n < 2 ^ 16 ->
    wp (malloc n) k (fun p k' => p ≠ 0 /\ ~ allocated k p /\ allocated k' p /\ steady k k');
  d_calloc (k : K) n m : alloc_ok k -> 0 < n * m < 2 ^ 16 ->
    wp (calloc n m) k (fun p k' => p ≠ 0 /\ ~ allocated k p /\ allocated k' p /\ steady k k');
  d_free (k : K) p : alloc_ok k -> allocated k p ->
    wp (free p) k (fun _ k' => alloc_ok k' /\ (forall q, q ≠ p -> allocated k q -> allocated k' q) /\
      (forall q, dev_handles k' q = dev_handles k q));
  d_open (k : K) nm : alloc_ok k -> dev_spare k ->
    wp (dev_open nm) k (fun r k' => alloc_ok k' /\ (forall q, allocated k q -> allocated k' q) /\
      forall q, dev_handles k' q = dev_handles k q + (if bool_decide (r ≠ 0 /\ q = r) then 1 else 0));
  d_close (k : K) p : alloc_ok k -> p ≠ 0 -> 1 <= dev_handles k p ->
    wp (dev_close p) k (fun _ k' => alloc_ok k' /\ (forall q, allocated k q -> allocated k' q) /\
      forall q, dev_handles k' q = dev_handles k q - (if bool_decide (q = p) then 1 else 0));
}.

End env.
Arguments DevEnv K {_ _}.

Section laws.
Context {K : Type} `{!AllocOps K, !DevOps K, !FsOps K}.

Definition rep_kept (k k' : K) : Prop := forall v, fs_rep k v -> fs_rep k' v.

(** They leave the file systems alone. *)
Class FsEnv : Prop := {
  env_malloc (k : K) n : alloc_ok k -> 0 < n < 2 ^ 16 ->
    wp (malloc n) k (fun p k' => p ≠ 0 /\ ~ allocated k p /\ allocated k' p /\ steady k k' /\ rep_kept k k');
  env_free (k : K) p : alloc_ok k -> allocated k p ->
    wp (free p) k (fun _ k' => alloc_ok k' /\ (forall q, q ≠ p -> allocated k q -> allocated k' q) /\
      (forall q, dev_handles k' q = dev_handles k q) /\ rep_kept k k');
  env_open (k : K) nm : alloc_ok k -> dev_spare k ->
    wp (dev_open nm) k (fun r k' => alloc_ok k' /\ (forall q, allocated k q -> allocated k' q) /\ rep_kept k k' /\
      forall q, dev_handles k' q = dev_handles k q + (if bool_decide (r ≠ 0 /\ q = r) then 1 else 0));
  env_close (k : K) p : alloc_ok k -> p ≠ 0 -> 1 <= dev_handles k p ->
    wp (dev_close p) k (fun _ k' => alloc_ok k' /\ (forall q, allocated k q -> allocated k' q) /\ rep_kept k k' /\
      forall q, dev_handles k' q = dev_handles k q - (if bool_decide (q = p) then 1 else 0));
}.

(** A call that keeps the view, and one that adds to it unless it fails. *)
Definition keeps {A} (m : M K A) (k : K) (v : view) : Prop := wp m k (fun _ k' => steady k k' /\ fs_rep k' v).
Definition takes (m : M K (Z * Z)) (k : K) (v : view) (it : Z -> item) (fresh : bool) : Prop :=
  wp m k (fun r k' => steady k k' /\ if r.1 <? 0 then fs_rep k' v
    else (fresh = true -> it r.2 ∉ v) /\ fs_rep k' ({[+ it r.2 +]} ⊎ v)).
Definition gives (m : M K Z) (k : K) (v : view) (x : item) : Prop :=
  wp m k (fun r k' => steady k k' /\ fs_rep k' (if r <? 0 then v else v ∖ {[+ x +]})).

(** What one file system promises. *)
Record ApiLaws (i : nat) (a : fs_api K) : Prop := {
  l_format f k v d args : api_format a = Some f -> alloc_ok k -> fs_rep k v -> keeps (f d args) k v;
  l_fs_stat f k v c st : api_fs_stat a = Some f -> alloc_ok k -> fs_rep k v -> Live i c ∈ v -> keeps (f c st) k v;
  l_mount k v d : alloc_ok k -> fs_rep k v -> takes (api_mount a d) k v (Live i) true;
  l_unmount k v c : alloc_ok k -> fs_rep k v -> Live i c ∈ v -> ~ open_at v i c ->
    wp (api_unmount a c) k (fun _ k' => steady k k' /\ fs_rep k' (v ∖ {[+ Live i c +]}));
  l_open k v c path : alloc_ok k -> fs_rep k v -> Live i c ∈ v -> takes (api_open a c path) k v (File i c) false;
  l_create f k v c path len : api_create a = Some f -> alloc_ok k -> fs_rep k v -> Live i c ∈ v -> io_fits len ->
    Z.of_nat (length path) < 128 -> takes (f c path len) k v (File i c) false;
  l_remove f k v c path : api_remove a = Some f -> alloc_ok k -> fs_rep k v -> Live i c ∈ v -> remove_ok k v i c path ->
    keeps (f c path) k v;
  l_truncate f k v c fc len : api_truncate a = Some f -> alloc_ok k -> fs_rep k v -> File i c fc ∈ v -> io_fits len ->
    keeps (f fc len) k v;
  l_stat k v c fc : alloc_ok k -> fs_rep k v -> File i c fc ∈ v ->
    wp (api_stat a fc) k (fun r k' => steady k k' /\ fs_rep k' v /\ forall n, r.2 = Some n -> 0 <= n);
  l_read k v c fc off len : alloc_ok k -> fs_rep k v -> File i c fc ∈ v -> 0 <= len -> off + len < 2 ^ 63 -> keeps (api_read a fc off len) k v;
  l_write f k v c fc data off : api_write a = Some f -> alloc_ok k -> fs_rep k v -> File i c fc ∈ v ->
    io_fits (off + Z.of_nat (length data)) -> keeps (f fc data off) k v;
  l_close k v c fc : alloc_ok k -> fs_rep k v -> File i c fc ∈ v -> gives (api_close a fc) k v (File i c fc);
  l_mkdir f k v c path : api_mkdir a = Some f -> alloc_ok k -> fs_rep k v -> Live i c ∈ v -> keeps (f c path) k v;
  l_opendir f k v c path : api_opendir a = Some f -> alloc_ok k -> fs_rep k v -> Live i c ∈ v -> takes (f c path) k v (Dir i c) false;
  l_readdir f k v c dc : api_readdir a = Some f -> alloc_ok k -> fs_rep k v -> Dir i c dc ∈ v -> keeps (f dc) k v;
  l_closedir f k v c dc : api_closedir a = Some f -> alloc_ok k -> fs_rep k v -> Dir i c dc ∈ v -> gives (f dc) k v (Dir i c dc);
  l_ioctl f k v c fc req argp : api_file_ioctl a = Some f -> alloc_ok k -> fs_rep k v -> File i c fc ∈ v -> keeps (f fc req argp) k v;
}.

Class FsLaws : Prop := fs_laws i x : fs_impls !! i = Some x -> ApiLaws i (impl_api x).
End laws.
Arguments FsEnv K {_ _ _}.
Arguments FsLaws K {_ _ _}.

End FsLib.
