(* ===== verification/Fs.v ===== *)
(** The mount table and the calls on files and directories, [lib/fs/fs.c], for
    calls that do not overlap.  The local copy of a path is a value, the one that
    [fs_normalize_path] leaves ([FsPath]). *)
From S2P Require Import Prelude WaitLib FsPath FsLib.
Local Open Scope Z_scope.

Module Fs.
Import WaitLib FsLib.

Definition ERR_NOT_SUPPORTED : Z := -24.
Definition ERR_BAD_PATH : Z := -18.
Definition ERR_ALREADY_MOUNTED : Z := -19.

(** What [malloc] was asked for: a [struct fs_mount] ([m_api] is the place of its
    file system in the table), a string, a handle. *)
Record struct_fs_mount := MkMount { m_path : Z; m_dev : Z; m_cookie : Z; m_ref : Z; m_api : nat }.
Record handle := MkHandle { h_cookie : Z; h_mount : Z }.
Inductive object := OMount (m : struct_fs_mount) | OString (s : list Z) | OFile (f : handle) | ODir (d : handle).
Definition set_mref (x : Z) (m : struct_fs_mount) : struct_fs_mount := MkMount (m_path m) (m_dev m) (m_cookie m) x (m_api m).
Definition sizeof_fs_mount : Z := 56.
Definition sizeof_handle : Z := 16.

(** The memory of the layer, and [mounts]. *)
Record fs := MkFs { f_objs : gmap Z object; f_mounts : list Z }.

(** The copy of a path on the stack of a call. *)
Definition temppath (path : list Z) : list Z := FsPath.canonical (take (Z.to_nat (FsPath.FS_MAX_PATH_LEN - 1)) path).

Section fs.
Context {K : Type} `{!AllocOps K, !DevOps K, !FsOps K}.

Record world := MkWorld { w_fs : fs; w_env : K }.
Abbreviation B := (M world).

Definition on_env {A} (m : M K A) : B A := fun w =>
  match m (w_env w) with Some (a, k) => Some (a, MkWorld (w_fs w) k) | None => None end.
Definition upd_fs (f : fs -> fs) : B unit := modify (fun w => MkWorld (f (w_fs w)) (w_env w)).
Definition obj_at (p : Z) : B object := deref (fun w => f_objs (w_fs w) !! p).
Definition mount_at (p : Z) : B struct_fs_mount := o ← obj_at p; match o with OMount m => mret m | _ => fault end.
Definition file_at (p : Z) : B handle := o ← obj_at p; match o with OFile h => mret h | _ => fault end.
Definition dir_at (p : Z) : B handle := o ← obj_at p; match o with ODir h => mret h | _ => fault end.
Definition string_at (p : Z) : B (list Z) := o ← obj_at p; match o with OString s => mret s | _ => fault end.
(** Storing to memory from [malloc]; a null pointer faults. *)
Definition store (p : Z) (o : object) : B unit :=
  _ ← assert_ (negb (p =? 0)); upd_fs (fun f => MkFs (<[p := o]> (f_objs f)) (f_mounts f)).
Definition new (size : Z) (o : object) : B Z := p ← on_env (malloc size); _ ← store p o; mret p.
Definition release (p : Z) : B unit :=
  if p =? 0 then mret tt else
  _ ← obj_at p; _ ← upd_fs (fun f => MkFs (delete p (f_objs f)) (f_mounts f)); on_env (free p).
Definition api_of (i : nat) : B (fs_api K) := x ← deref (fun _ => fs_impls !! i); mret (impl_api x).
(** A call of a hook; a null pointer faults. *)
Definition call {A} (h : option A) : B A := deref (fun _ => h).

Definition find_fs (name : list Z) : option nat := fst <$> list_find (fun x => name = impl_name x) fs_impls.

(** A mount and the rest of the path. *)
Fixpoint find_mount_in (l : list Z) (path : list Z) : B (option (Z * list Z)) :=
  match l with
  | [] => mret None
  | p :: l =>
      m ← mount_at p;
      s ← string_at (m_path m);
      if (length path <? length s)%nat then find_mount_in l path
      else if bool_decide (take (length s) path = s)
      then _ ← store p (OMount (set_mref (s32 (m_ref m + 1)) m)); mret (Some (p, drop (length s) path))
      else find_mount_in l path
  end.
Definition find_mount (path : list Z) : B (option (Z * list Z)) :=
  l ← gets (fun w => f_mounts (w_fs w)); find_mount_in l path.

Definition put_mount (p : Z) : B unit :=
  m ← mount_at p;
  let r := s32 (m_ref m - 1) in
  _ ← store p (OMount (set_mref r m));
  if r =? 0 then
    l ← gets (fun w => f_mounts (w_fs w));
    _ ← assert_ (bool_decide (p ∈ l));
    _ ← upd_fs (fun f => MkFs (f_objs f) (filter (fun q => q ≠ p) (f_mounts f)));
    a ← api_of (m_api m);
    _ ← on_env (api_unmount a (m_cookie m));
    _ ← release (m_path m);
    _ ← (if m_dev m =? 0 then mret tt else on_env (dev_close (m_dev m)));
    release p
  else mret tt.

Definition strdup (s : list Z) : B Z :=
  p ← on_env (malloc (Z.of_nat (length s) + 1));
  if p =? 0 then mret 0 else _ ← store p (OString s); mret p.

(** An empty [device] or a null pointer is no device. *)
Definition mount (path device : list Z) (api : nat) : B Z :=
  let path := temppath path in
  if negb (bool_decide (head path = Some 47)) then mret ERR_BAD_PATH
  else
    found ← find_mount path;
    match found with
    | Some (m, _) => _ ← put_mount m; mret ERR_ALREADY_MOUNTED
    | None =>
        dev ← (if bool_decide (device = []) then mret 0 else on_env (dev_open device));
        if negb (bool_decide (device = [])) && (dev =? 0) then mret ERR_NOT_FOUND
        else
          a ← api_of api;
          '(err, cookie) ← on_env (api_mount a dev);
          if err <? 0 then _ ← (if dev =? 0 then mret tt else on_env (dev_close dev)); mret err
          else
            m ← on_env (malloc sizeof_fs_mount);
            s ← strdup path;
            _ ← store m (OMount (MkMount s dev cookie 1 api));
            _ ← upd_fs (fun f => MkFs (f_objs f) (m :: f_mounts f));
            mret 0
    end.

Definition fs_format_device (fsname device : list Z) (args : Z) : B Z :=
  match find_fs fsname with
  | None => mret ERR_NOT_FOUND
  | Some i =>
      a ← api_of i;
      match api_format a with
      | None => mret ERR_NOT_SUPPORTED
      | Some format =>
          dev ← (if bool_decide (device = []) then mret 0 else on_env (dev_open device));
          if negb (bool_decide (device = [])) && (dev =? 0) then mret ERR_NOT_FOUND else on_env (format dev args)
      end
  end.

Definition fs_mount (path fsname device : list Z) : B Z :=
  match find_fs fsname with None => mret ERR_NOT_FOUND | Some i => mount path device i end.

Definition fs_unmount (path : list Z) : B Z :=
  found ← find_mount (temppath path);
  match found with
  | None => mret ERR_NOT_FOUND
  | Some (m, _) => _ ← put_mount m; _ ← put_mount m; mret 0
  end.

(** The mount of a path, or an error. *)
Definition with_mount {A} (path : list Z) (none : A) (f : Z -> struct_fs_mount -> fs_api K -> list Z -> B A) : B A :=
  found ← find_mount path;
  match found with
  | None => mret none
  | Some (p, newpath) => m ← mount_at p; a ← api_of (m_api m); f p m a newpath
  end.

(** The handle for a cookie that a hook stored; [*handle] stays as it is on an error. *)
Definition with_handle (mk : handle -> object) (p : Z) (r : Z * Z) : B (Z * option Z) :=
  if r.1 <? 0 then _ ← put_mount p; mret (r.1, None)
  else h ← new sizeof_handle (mk (MkHandle r.2 p)); mret (0, Some h).

Definition fs_open_file (path : list Z) : B (Z * option Z) :=
  with_mount (temppath path) (ERR_NOT_FOUND, None) (fun p m a newpath =>
    r ← on_env (api_open a (m_cookie m) newpath); with_handle OFile p r).

Definition fs_create_file (path : list Z) (len : Z) : B (Z * option Z) :=
  with_mount (temppath path) (ERR_NOT_FOUND, None) (fun p m a newpath =>
    match api_create a with
    | None => _ ← put_mount p; mret (ERR_NOT_SUPPORTED, None)
    | Some create => r ← on_env (create (m_cookie m) newpath len); with_handle OFile p r
    end).

Definition fs_open_dir (path : list Z) : B (Z * option Z) :=
  with_mount (temppath path) (ERR_NOT_FOUND, None) (fun p m a newpath =>
    match api_opendir a with
    | None => _ ← put_mount p; mret (ERR_NOT_SUPPORTED, None)
    | Some opendir => r ← on_env (opendir (m_cookie m) newpath); with_handle ODir p r
    end).

(** A hook on a path, if there is one, and the reference given back. *)
Definition on_path (path : list Z) (hook : fs_api K -> option (Z -> list Z -> M K Z)) : B Z :=
  with_mount path ERR_NOT_FOUND (fun p m a newpath =>
    match hook a with
    | None => _ ← put_mount p; mret ERR_NOT_SUPPORTED
    | Some f => err ← on_env (f (m_cookie m) newpath); _ ← put_mount p; mret err
    end).
Definition fs_remove_file (path : list Z) : B Z := on_path (temppath path) api_remove.
Definition fs_make_dir (path : list Z) : B Z := on_path (temppath path) api_mkdir.
(** This path is taken as it is. *)
Definition fs_stat_fs (mountpoint : list Z) (stat : Z) : B Z :=
  if stat =? 0 then mret ERR_INVALID_ARGS
  else on_path mountpoint (fun a => (fun f c _ => f c stat) <$> api_fs_stat a).

(** * Calls on handles *)

Definition mount_api (h : handle) : B (fs_api K) := m ← mount_at (h_mount h); api_of (m_api m).

Definition fs_file_ioctl (h request argp : Z) : B Z :=
  if h =? 0 then mret ERR_INVALID_ARGS
  else
    f ← file_at h;
    if h_mount f =? 0 then mret ERR_INVALID_ARGS
    else
      a ← mount_api f;
      match api_file_ioctl a with
      | None => mret ERR_INVALID_ARGS
      | Some ioctl => on_env (ioctl (h_cookie f) request argp)
      end.

Definition fs_truncate_file (h len : Z) : B Z :=
  if h =? 0 then mret ERR_INVALID_ARGS
  else f ← file_at h; a ← mount_api f; truncate ← call (api_truncate a); on_env (truncate (h_cookie f) len).

Definition fs_read_file (h offset len : Z) : B (Z * list (option Z)) :=
  f ← file_at h; a ← mount_api f; on_env (api_read a (h_cookie f) offset len).

Definition fs_write_file (h : Z) (data : list (option Z)) (offset : Z) : B Z :=
  f ← file_at h; a ← mount_api f;
  match api_write a with
  | None => mret ERR_NOT_SUPPORTED
  | Some write => on_env (write (h_cookie f) data offset)
  end.

Definition fs_stat_file (h : Z) : B (Z * option Z) :=
  f ← file_at h; a ← mount_api f; on_env (api_stat a (h_cookie f)).

(** The end of a handle, unless the hook failed. *)
Definition end_handle (h : Z) (mp err : Z) : B Z :=
  if err <? 0 then mret err else _ ← put_mount mp; _ ← release h; mret 0.

Definition fs_close_file (h : Z) : B Z :=
  f ← file_at h; a ← mount_api f; err ← on_env (api_close a (h_cookie f)); end_handle h (h_mount f) err.

Definition fs_read_dir (h : Z) : B (Z * option (list Z)) :=
  f ← dir_at h; a ← mount_api f;
  match api_readdir a with
  | None => mret (ERR_NOT_SUPPORTED, None)
  | Some readdir => on_env (readdir (h_cookie f))
  end.

Definition fs_close_dir (h : Z) : B Z :=
  f ← dir_at h; a ← mount_api f;
  match api_closedir a with
  | None => mret ERR_NOT_SUPPORTED
  | Some closedir => err ← on_env (closedir (h_cookie f)); end_handle h (h_mount f) err
  end.

(** [junk] is what the local [stat] held before the call that fills it. *)
Definition fs_load_file (junk : Z) (path : list Z) (maxlen : Z) : B (Z * list (option Z)) :=
  '(err, h) ← fs_open_file path;
  if err <? 0 then mret (err, [])
  else
    h ← call h;
    '(_, size) ← fs_stat_file h;
    r ← fs_read_file h 0 (Z.min maxlen (default junk size));
    _ ← fs_close_file h;
    mret r.
End fs.

End Fs.
