(* ===== verification/FsProps.v ===== *)
(** The mount table: what its references and the file systems' cookies amount to,
    and that each call keeps it. *)
From S2P Require Import Prelude WaitLib FsPath FsPathProps FsLib Fs.
From stdpp Require Import gmultiset.
Local Open Scope Z_scope.

Module FsProps.
Import WaitLib Counts FsLib Fs.

#[local] Arguments disj_union : simpl never.
#[local] Arguments difference : simpl never.
#[local] Arguments singletonMS : simpl never.

Abbreviation one b := (if b then 1 else 0).
Abbreviation objects := (gmap Z object).

(** * What the objects hold *)

(** The file system and cookie of a mount. *)
Definition mkey (L : objects) (p : Z) : option (nat * Z) :=
  match L !! p with Some (OMount m) => Some (m_api m, m_cookie m) | _ => None end.

Definition held (key : Z -> option (nat * Z)) (o : object) : view :=
  match o with
  | OMount m => {[+ Live (m_api m) (m_cookie m) +]}
  | OString _ => ∅
  | OFile h => match key (h_mount h) with Some (i, c) => {[+ File i c (h_cookie h) +]} | None => ∅ end
  | ODir h => match key (h_mount h) with Some (i, c) => {[+ Dir i c (h_cookie h) +]} | None => ∅ end
  end.
Definition total (key : Z -> option (nat * Z)) (L : objects) : view := map_fold (fun _ o acc => held key o ⊎ acc) ∅ L.
Definition view_of (L : objects) : view := total (mkey L) L.

Lemma total_new key L p o : L !! p = None -> total key (<[p := o]> L) = held key o ⊎ total key L.
Proof. intros Hp. unfold total. rewrite map_fold_insert_L; [done| |done]. intros. multiset_solver. Qed.

Lemma total_delete key L p o : L !! p = Some o -> total key L = held key o ⊎ total key (delete p L).
Proof. intros Hp. rewrite <- (insert_delete_id L p o Hp) at 1. by rewrite total_new by apply lookup_delete_eq. Qed.

Lemma total_ext key key' L : (forall p o, L !! p = Some o -> held key o = held key' o) -> total key L = total key' L.
Proof.
  induction L as [|p o L Hp IH] using map_ind; intros He; [done|]. rewrite !total_new by done.
  rewrite (He p o) by apply lookup_insert_eq. rewrite IH; [done|]. intros q x Hq. apply (He q x). rewrite lookup_insert_ne; [done|congruence].
Qed.

Lemma elem_of_total key L x : x ∈ total key L <-> exists p o, L !! p = Some o /\ x ∈ held key o.
Proof.
  induction L as [|p o L Hp IH] using map_ind.
  - split; [by intros ?%gmultiset_not_elem_of_empty|]. intros (p & o & Ho & _). by rewrite lookup_empty in Ho.
  - rewrite total_new, gmultiset_elem_of_disj_union, IH by done. split.
    + intros [Hx|(q & y & Hq & Hx)]; [exists p, o; by rewrite lookup_insert_eq|]. exists q, y. split; [|done].
      rewrite lookup_insert_ne; [done|congruence].
    + intros (q & y & Hq & Hx). apply lookup_insert_Some in Hq as [[-> ->]|[_ Hq]]; [by left|]. right. by exists q, y.
Qed.

(** Handles of the mount [p], and mounts of the device [d]. *)
Definition refers (p : Z) (o : object) : bool :=
  match o with OFile h | ODir h => h_mount h =? p | _ => false end.
Definition uses (L : objects) (p : Z) : Z := count (refers p) L.
Definition on_dev (d : Z) (o : object) : bool := match o with OMount m => m_dev m =? d | _ => false end.

(** The references to a mount that are no handle's: the one of the table, gone
    when it is unmounted, and those of a call that is under way. *)
Definition base (L : objects) (p : Z) : Z :=
  match L !! p with Some (OMount m) => m_ref m - uses L p | _ => 0 end.

Definition is_handle (o : object) : Prop := match o with OFile _ | ODir _ => True | _ => False end.
Definition handle_of (o : object) : option handle := match o with OFile h | ODir h => Some h | _ => None end.

(** Mounts keep their cookies, whatever else changes. *)
Definition same_keys (L L' : objects) : Prop := forall p, mkey L p = mkey L' p.

Lemma held_ext L L' o : same_keys L L' -> held (mkey L) o = held (mkey L') o.
Proof. intros He. destruct o; cbn; by rewrite ?He. Qed.

Lemma view_new L p o : L !! p = None -> (forall h, handle_of o = Some h -> h_mount h ≠ p) ->
  (forall q x h, L !! q = Some x -> handle_of x = Some h -> h_mount h ≠ p) ->
  view_of (<[p := o]> L) = held (mkey L) o ⊎ view_of L.
Proof.
  intros Hp Ho HL. unfold view_of. rewrite total_new by done. f_equal.
  - assert (forall h, handle_of o = Some h -> mkey (<[p := o]> L) (h_mount h) = mkey L (h_mount h)) as He.
    { intros h Hh. unfold mkey. rewrite lookup_insert_ne; [done|]. intros E. by apply (Ho h). }
    destruct o; cbn; rewrite ?He by done; done.
  - apply total_ext. intros q x Hq. assert (forall h, handle_of x = Some h -> mkey (<[p := o]> L) (h_mount h) = mkey L (h_mount h)) as He.
    { intros h Hh. unfold mkey. rewrite lookup_insert_ne; [done|]. intros E. by apply (HL q x h). }
    destruct x; cbn; rewrite ?He by done; done.
Qed.

(** Removing an object that no handle refers to. *)
Lemma view_delete L p o : L !! p = Some o -> (forall q x h, delete p L !! q = Some x -> handle_of x = Some h -> h_mount h ≠ p) ->
  (forall h, handle_of o = Some h -> h_mount h ≠ p) -> view_of L = held (mkey L) o ⊎ view_of (delete p L).
Proof.
  intros Hp HL Ho. rewrite <- (insert_delete_id L p o Hp) at 1. rewrite view_new; [|apply lookup_delete_eq|done|done]. f_equal.
  assert (forall h, handle_of o = Some h -> mkey (delete p L) (h_mount h) = mkey L (h_mount h)) as He.
  { intros h Hh. unfold mkey. rewrite lookup_delete_ne; [done|]. intros E. by apply (Ho h). }
  destruct o; cbn; rewrite ?He by done; done.
Qed.

(** Changing the count of a mount. *)
Lemma view_ref L p m r : L !! p = Some (OMount m) -> view_of (<[p := OMount (set_mref r m)]> L) = view_of L.
Proof.
  intros Hp. unfold view_of. assert (same_keys (<[p := OMount (set_mref r m)]> L) L) as Hk.
  { intros q. unfold mkey. rewrite lookup_insert. case_decide; [subst; by rewrite Hp|done]. }
  rewrite (total_ext _ (mkey L)) by (intros; by apply held_ext). rewrite (total_delete (mkey L) L p _ Hp).
  rewrite <- insert_delete_eq, total_new by apply lookup_delete_eq. done.
Qed.

Lemma uses_none L p : uses L p = 0 -> forall q x h, L !! q = Some x -> handle_of x = Some h -> h_mount h ≠ p.
Proof.
  intros Hu q x h Hq Hh E. pose proof (count_zero (refers p) L q x Hu Hq) as Hr. destruct x; simplify_eq/=; by rewrite Z.eqb_refl in Hr.
Qed.

Lemma uses_pos L p q x h : L !! q = Some x -> handle_of x = Some h -> h_mount h = p -> 1 <= uses L p.
Proof.
  intros Hq Hh E. assert (refers p x = true) as Hr by (destruct x; simplify_eq/=; by rewrite Z.eqb_refl).
  pose proof (count_pos _ _ _ _ Hq Hr). unfold uses. lia.
Qed.


(** * The invariant *)

Section props.
Context {K : Type} `{!AllocOps K, !DevOps K, !FsOps K}.
Abbreviation world := (Fs.world (K := K)).
Implicit Types w : world.
Abbreviation objs w := (f_objs (w_fs w)).
Abbreviation mlist w := (f_mounts (w_fs w)).
Abbreviation env w := (w_env w).

(** The handles of a device that are no mount's. *)
Definition other w (d : Z) : Z := dev_handles (env w) d - count (on_dev d) (objs w).

(** What holds while a call runs: [z] is a handle that the call has ended but not
    freed (0 for none), [x] the items that it holds in no object yet. *)
Record Inv (z : Z) (x : view) w : Prop := {
  i_null : objs w !! 0 = None;
  i_list p : p ∈ mlist w <-> exists m, delete z (objs w) !! p = Some (OMount m);
  i_nodup : NoDup (mlist w);
  i_ref p m : delete z (objs w) !! p = Some (OMount m) -> 1 <= m_ref m < 2 ^ 31;
  i_base p : 0 <= base (delete z (objs w)) p;
  i_path p m : delete z (objs w) !! p = Some (OMount m) -> exists s, delete z (objs w) !! m_path m = Some (OString s) /\ head s = Some 47;
  i_apart p q m n : delete z (objs w) !! p = Some (OMount m) -> delete z (objs w) !! q = Some (OMount n) ->
    m_path m = m_path n \/ (m_api m, m_cookie m) = (m_api n, m_cookie n) -> p = q;
  i_handle p o h : delete z (objs w) !! p = Some o -> handle_of o = Some h -> exists m, delete z (objs w) !! h_mount h = Some (OMount m);
  i_api p m : delete z (objs w) !! p = Some (OMount m) -> is_Some (fs_impls !! m_api m);
  i_alloc p : is_Some (objs w !! p) -> allocated (env w) p;
  i_ok : alloc_ok (env w);
  i_rep : fs_rep (env w) (x ⊎ view_of (delete z (objs w)));
  i_other d : d ≠ 0 -> 0 <= other w d;
}.

(** Between two calls, a mount that is still in the table has one reference more than handles. *)
Definition Wf w : Prop := Inv 0 ∅ w /\ forall p, base (objs w) p <= 1.

(** Room for the counts. *)
Definition small w : Prop := Z.of_nat (size (objs w)) + 4 < 2 ^ 31.

(** * Calls of the environment *)

Definition with_env (k : K) w : world := MkWorld (w_fs w) k.
Definition with_objs (L : objects) w : world := MkWorld (MkFs L (mlist w)) (env w).

Lemma wp_on_env {A} (m : M K A) w (Q : A -> world -> Prop) : wp (on_env m) w Q <-> wp m (env w) (fun a k => Q a (with_env k w)).
Proof. unfold wp, on_env. by destruct (m (env w)) as [[a k]|]. Qed.

(** ... with the run of the environment's function. *)
Lemma wp_env_ran {A} (m : M K A) w (Q : A -> world -> Prop) :
  wp m (env w) (fun a k => m (env w) = Some (a, k) -> Q a (with_env k w)) -> wp (on_env m) w Q.
Proof. unfold wp, on_env. destruct (m (env w)) as [[a k]|]; [by auto|done]. Qed.

(** A function of the environment ran, on the layer's behalf, and that is all that happened. *)
Definition ran {A} (m : M K A) w (r : A) w' : Prop := w_fs w' = w_fs w /\ m (env w) = Some (r, env w').

Lemma ran_with {A} (m : M K A) w r k : m (env w) = Some (r, k) -> ran m w r (with_env k w).
Proof. by split. Qed.

Lemma Inv_env z x x' w k : Inv z x w -> steady (env w) k -> fs_rep k (x' ⊎ view_of (delete z (objs w))) -> Inv z x' (with_env k w).
Proof.
  intros [] (Hok & Hal & Hd) Hrep. split; cbn; try done; [auto|]. intros d Hd0. specialize (i_other0 d Hd0). unfold other in *. cbn. by rewrite Hd.
Qed.

Lemma other_env w k d : steady (env w) k -> other (with_env k w) d = other w d.
Proof. intros (_ & _ & Hd). unfold other. cbn. by rewrite Hd. Qed.

(** * Reading objects *)

Lemma wp_mount_at w p m (Q : struct_fs_mount -> world -> Prop) : objs w !! p = Some (OMount m) -> Q m w -> wp (mount_at p) w Q.
Proof. intros Hp HQ. unfold mount_at, obj_at. wp_step. exists (OMount m). split; [done|]. by wp_step. Qed.

Lemma wp_string_at w p s (Q : list Z -> world -> Prop) : objs w !! p = Some (OString s) -> Q s w -> wp (string_at p) w Q.
Proof. intros Hp HQ. unfold string_at, obj_at. wp_step. exists (OString s). split; [done|]. by wp_step. Qed.

Lemma wp_file_at w p h (Q : handle -> world -> Prop) : objs w !! p = Some (OFile h) -> Q h w -> wp (file_at p) w Q.
Proof. intros Hp HQ. unfold file_at, obj_at. wp_step. exists (OFile h). split; [done|]. by wp_step. Qed.

Lemma wp_dir_at w p h (Q : handle -> world -> Prop) : objs w !! p = Some (ODir h) -> Q h w -> wp (dir_at p) w Q.
Proof. intros Hp HQ. unfold dir_at, obj_at. wp_step. exists (ODir h). split; [done|]. by wp_step. Qed.

Lemma wp_store w p o (Q : unit -> world -> Prop) : p ≠ 0 -> Q tt (with_objs (<[p := o]> (objs w)) w) -> wp (store p o) w Q.
Proof. intros Hp HQ. unfold store, upd_fs. wp_step. split; [by apply negb_true_iff, Z.eqb_neq|done]. Qed.

Lemma wp_api_of w i a (Q : fs_api K -> world -> Prop) : fs_impls !! i = Some a -> Q (impl_api a) w -> wp (api_of i) w Q.
Proof. intros Hi HQ. unfold api_of. wp_step. exists a. by rewrite wp_ret. Qed.

Lemma live_get (L : objects) z p (o : object) : delete z L !! p = Some o -> L !! p = Some o.
Proof. by intros [_ ?]%lookup_delete_Some. Qed.

(** * Counting references *)

(** The count of a mount set to [r]. *)
Definition set_count (p r : Z) w : world :=
  match objs w !! p with Some (OMount m) => with_objs (<[p := OMount (set_mref r m)]> (objs w)) w | _ => w end.

Lemma set_count_eq p r w m : objs w !! p = Some (OMount m) -> set_count p r w = with_objs (<[p := OMount (set_mref r m)]> (objs w)) w.
Proof. intros Hp. unfold set_count. by rewrite Hp. Qed.

Lemma set_count_twice p r m w : objs w !! p = Some (OMount m) -> set_count p (m_ref m) (set_count p r w) = w.
Proof.
  intros Hp. rewrite (set_count_eq p r w m) by done. rewrite (set_count_eq _ _ _ (set_mref r m)) by apply lookup_insert_eq.
  destruct w as [[L l] k], m. cbn in *. unfold with_objs, set_mref. cbn. by rewrite insert_insert_eq, insert_id.
Qed.

Lemma uses_ref L p m r q : L !! p = Some (OMount m) -> uses (<[p := OMount (set_mref r m)]> L) q = uses L q.
Proof. intros Hp. unfold uses. rewrite (count_update _ _ _ _ _ Hp). cbn. lia. Qed.

Lemma base_ref L p m r q : L !! p = Some (OMount m) ->
  base (<[p := OMount (set_mref r m)]> L) q = base L q + (if bool_decide (q = p) then r - m_ref m else 0).
Proof.
  intros Hp. unfold base. rewrite (uses_ref _ _ _ _ _ Hp), lookup_insert. destruct (decide (p = q)) as [<-|Hne].
  - rewrite Hp, bool_decide_eq_true_2 by done. cbn. lia.
  - rewrite bool_decide_eq_false_2 by done. lia.
Qed.

Lemma other_count p r w d : other (set_count p r w) d = other w d.
Proof.
  unfold set_count. destruct (objs w !! p) as [[m| | |]|] eqn:Hp; try done. unfold other. cbn. rewrite (count_update _ _ _ _ _ Hp). cbn. lia.
Qed.

Lemma Inv_count z x w p m r : Inv z x w -> delete z (objs w) !! p = Some (OMount m) -> 1 <= r < 2 ^ 31 ->
  uses (delete z (objs w)) p <= r -> Inv z x (set_count p r w).
Proof.
  intros Hi Hp Hr Hu. pose proof (live_get _ _ _ _ Hp) as Hp'. pose proof (fun d => other_count p r w d) as Ho.
  rewrite (set_count_eq _ _ _ _ Hp') in *. assert (p ≠ z) as Hpz by (intros ->; by rewrite lookup_delete_eq in Hp). set (L := delete z (objs w)) in *.
  assert (delete z (<[p := OMount (set_mref r m)]> (objs w)) = <[p := OMount (set_mref r m)]> L) as E by by rewrite delete_insert_ne.
  assert (forall q o, <[p := OMount (set_mref r m)]> L !! q = Some o -> exists o', L !! q = Some o' /\ handle_of o = handle_of o' /\
    (forall n, o = OMount n -> exists n', o' = OMount n' /\ m_path n = m_path n' /\ m_api n = m_api n' /\ m_cookie n = m_cookie n' /\
      (m_ref n = m_ref n' \/ m_ref n = r))) as Hold.
  { intros q o [[-> <-]|[_ Hq]]%lookup_insert_Some; [exists (OMount m); split; [done|]; split; [done|]; intros n [= <-]; exists m; cbn; auto 10|].
    exists o. split; [done|]. split; [done|]. intros n ->. exists n. auto 10. }
  assert (forall q n, L !! q = Some (OMount n) -> exists n', <[p := OMount (set_mref r m)]> L !! q = Some (OMount n')) as Hnew.
  { intros q n Hq. rewrite lookup_insert. case_decide; [eauto|eauto]. }
  destruct Hi. fold L in i_list0, i_ref0, i_base0, i_path0, i_apart0, i_handle0, i_api0, i_rep0. split; cbn; rewrite ?E; try done.
  - rewrite lookup_insert_ne; [done|congruence].
  - intros q. rewrite i_list0. split; intros [n Hq]; [by apply Hnew in Hq|]. destruct (Hold q _ Hq) as (o' & Hq' & _ & Hn).
    destruct (Hn n eq_refl) as (n' & -> & _). by exists n'.
  - intros q n Hq. destruct (Hold q _ Hq) as (o' & Hq' & _ & Hn). destruct (Hn n eq_refl) as (n' & -> & _ & _ & _ & [->| ->]); [eauto|lia].
  - intros q. rewrite (base_ref _ _ _ _ _ Hp). specialize (i_base0 q). case_bool_decide; [subst|lia].
    assert (base L p = m_ref m - uses L p) as Hb by (unfold base; by rewrite Hp). lia.
  - intros q n Hq. destruct (Hold q _ Hq) as (o' & Hq' & _ & Hn). destruct (Hn n eq_refl) as (n' & -> & -> & _).
    destruct (i_path0 q n' Hq') as (s & Hs & Hhd). exists s. split; [|done]. rewrite lookup_insert_ne; [done|]. congruence.
  - intros q q' n n' Hq Hq' Hk. destruct (Hold q _ Hq) as (o & Hqo & _ & Hn), (Hold q' _ Hq') as (o' & Hqo' & _ & Hn').
    destruct (Hn n eq_refl) as (a & -> & E1 & E2 & E3 & _), (Hn' n' eq_refl) as (a' & -> & E1' & E2' & E3' & _).
    apply (i_apart0 q q' a a'); [done|done|]. rewrite E1, E1', E2, E2', E3, E3' in Hk. done.
  - intros q o h Hq Hh. destruct (Hold q o Hq) as (o' & Hq' & Ho' & _). destruct (i_handle0 q o' h Hq' ltac:(congruence)) as [n Hn]. eauto.
  - intros q n Hq. destruct (Hold q _ Hq) as (o' & Hq' & _ & Hn). destruct (Hn n eq_refl) as (n' & -> & _ & -> & _). eauto.
  - intros q Hq. apply i_alloc0. rewrite lookup_insert in Hq. case_decide; [subst; by eexists|done].
  - rewrite (view_ref _ _ _ _ Hp). done.
  - intros d Hd. rewrite Ho. auto.
Qed.

(** * Finding a mount *)

Definition path_of w (p : Z) : option (list Z) :=
  match objs w !! p with
  | Some (OMount m) => match objs w !! m_path m with Some (OString s) => Some s | _ => None end
  | _ => None
  end.

(** The first mount whose path is a prefix, and what follows. *)
Fixpoint cover_in w (l : list Z) (path : list Z) : option (Z * list Z) :=
  match l with
  | [] => None
  | p :: l =>
      match path_of w p with
      | Some s => if bool_decide (s `prefix_of` path) then Some (p, drop (length s) path) else cover_in w l path
      | None => cover_in w l path
      end
  end.
Definition cover w path := cover_in w (mlist w) path.

Definition room_left z w : Prop := forall p m, delete z (objs w) !! p = Some (OMount m) -> m_ref m + 1 < 2 ^ 31.

Lemma Wf_room w : Wf w -> small w -> room_left 0 w.
Proof.
  intros [Hi Hb] Hs p m Hp. apply live_get in Hp. specialize (Hb p). unfold base in Hb. rewrite Hp in Hb.
  pose proof (count_size (refers p) (objs w)). unfold uses in Hb. unfold small in Hs. lia.
Qed.

Lemma prefix_take (s path : list Z) : s `prefix_of` path <-> take (length s) path = s.
Proof.
  split; [intros [k ->]; by rewrite take_app_length|]. intros E. exists (drop (length s) path). rewrite <- E at 1. by rewrite take_drop.
Qed.

Lemma find_mount_in_ok z x w path l : Inv z x w -> room_left z w -> (forall p, p ∈ l -> p ∈ mlist w) ->
  wp (find_mount_in l path) w (fun r w' => r = cover_in w l path /\
    match r with
    | None => w' = w
    | Some (p, _) => exists m, delete z (objs w) !! p = Some (OMount m) /\ w' = set_count p (m_ref m + 1) w
    end).
Proof.
  intros Hi Hr. induction l as [|p l IH]; intros Hl; cbn [find_mount_in cover_in].
  - by wp_step.
  - destruct (proj1 (i_list _ _ _ Hi p) (Hl p ltac:(left))) as [m Hp]. pose proof (live_get _ _ _ _ Hp) as Hp'.
    destruct (i_path _ _ _ Hi p m Hp) as (s & Hs%live_get & _). wp_step. eapply wp_mount_at; [done|]. wp_step. eapply wp_string_at; [done|].
    unfold path_of. rewrite Hp', Hs. rewrite (bool_decide_ext (s `prefix_of` path) (take (length s) path = s)) by apply prefix_take.
    destruct (Nat.ltb_spec (length path) (length s)) as [Hlt|Hge].
    + rewrite bool_decide_eq_false_2; [apply IH; set_solver|]. intros E. apply (f_equal length) in E. rewrite length_take in E. lia.
    + case_bool_decide; [|apply IH; set_solver]. wp_step. specialize (Hr p m Hp). pose proof (i_ref _ _ _ Hi p m Hp).
      rewrite sw_small by lia. apply wp_store; [intros ->; by rewrite (i_null _ _ _ Hi) in Hp'|]. wp_step. split; [done|]. exists m. split; [done|].
      by rewrite (set_count_eq _ _ _ _ Hp').
Qed.

Lemma find_mount_ok z x w path : Inv z x w -> room_left z w -> wp (find_mount path) w (fun r w' => r = cover w path /\
    match r with
    | None => w' = w
    | Some (p, _) => exists m, delete z (objs w) !! p = Some (OMount m) /\ w' = set_count p (m_ref m + 1) w
    end).
Proof. intros Hi Hr. unfold find_mount. wp_step. by apply (find_mount_in_ok z x). Qed.

(** * Dropping a reference *)

Context `{!FsEnv K, !FsLaws K}.

Definition freed (p : Z) (k k' : K) : Prop :=
  alloc_ok k' /\ (forall q, q ≠ p -> allocated k q -> allocated k' q) /\ (forall q, dev_handles k' q = dev_handles k q) /\ rep_kept k k'.

Lemma wp_release w p (Q : unit -> world -> Prop) : p ≠ 0 -> is_Some (objs w !! p) -> alloc_ok (env w) -> allocated (env w) p ->
  (forall k, freed p (env w) k -> Q tt (MkWorld (MkFs (delete p (objs w)) (mlist w)) k)) -> wp (release p) w Q.
Proof.
  intros Hp [o Ho] Hok Hal HQ. unfold release, obj_at, upd_fs. rewrite (proj2 (Z.eqb_neq _ _)) by done. wp_step. exists o. split; [done|].
  wp_step. rewrite wp_on_env. eapply wp_mono; [by apply env_free|]. intros [] k Hk. by apply HQ.
Qed.

(** The mount [p] without its table entry and path. *)
Definition without (p : Z) (m : struct_fs_mount) w (k : K) : world :=
  MkWorld (MkFs (delete p (delete (m_path m) (objs w))) (filter (fun q => q ≠ p) (mlist w))) k.

Definition closes (m : struct_fs_mount) (d : Z) : Z := if bool_decide (m_dev m ≠ 0 /\ d = m_dev m) then 1 else 0.

Lemma other_without z x w p m k : Inv z x w -> delete z (objs w) !! p = Some (OMount m) ->
  (forall d, dev_handles k d = dev_handles (env w) d - closes m d) -> forall d, d ≠ 0 -> other (without p m w k) d = other w d.
Proof.
  intros Hi Hp Hd d Hd0. destruct (i_path _ _ _ Hi p m Hp) as (s & Hs%live_get & _). apply live_get in Hp. assert (p ≠ m_path m) by congruence.
  unfold other. cbn. rewrite Hd, (count_delete _ (delete (m_path m) (objs w)) p (OMount m)) by by rewrite lookup_delete_ne.
  rewrite (count_delete _ _ _ _ Hs). unfold closes. cbn. destruct (Z.eqb_spec (m_dev m) d) as [<-|Hne].
  - rewrite bool_decide_eq_true_2 by done. lia.
  - rewrite bool_decide_eq_false_2; [lia|]. intros [_ E]. congruence.
Qed.

Lemma Inv_without z w p m k : Inv z ∅ w -> delete z (objs w) !! p = Some (OMount m) -> uses (delete z (objs w)) p = 0 ->
  alloc_ok k -> (forall q, q ≠ p -> q ≠ m_path m -> allocated (env w) q -> allocated k q) ->
  (forall d, dev_handles k d = dev_handles (env w) d - closes m d) ->
  fs_rep k (view_of (delete z (objs w)) ∖ {[+ Live (m_api m) (m_cookie m) +]}) -> Inv z ∅ (without p m w k).
Proof.
  intros Hi Hp Hu Hok Hal Hd Hrep. pose proof (other_without _ _ _ _ _ k Hi Hp Hd) as Ho. destruct (i_path _ _ _ Hi p m Hp) as (s & Hs & _).
  assert (p ≠ m_path m) as Hne by congruence. pose proof (uses_none _ _ Hu) as Hun. destruct Hi. set (L := delete z (objs w)) in *.
  assert (delete z (delete p (delete (m_path m) (objs w))) = delete p (delete (m_path m) L)) as E.
  { unfold L. by rewrite (delete_delete _ z p), (delete_delete _ z (m_path m)). }
  assert (forall q o, delete p (delete (m_path m) L) !! q = Some o -> L !! q = Some o /\ q ≠ p /\ q ≠ m_path m) as Hold.
  { intros q o [? [? ?]%lookup_delete_Some]%lookup_delete_Some. auto. }
  assert (forall q o, L !! q = Some o -> q ≠ p -> q ≠ m_path m -> delete p (delete (m_path m) L) !! q = Some o) as Hnew.
  { intros q o Hq H1 H2. by rewrite !lookup_delete_ne. }
  assert (forall q o h, L !! q = Some o -> handle_of o = Some h -> h_mount h ≠ m_path m) as Hstr.
  { intros q o h Hq Hh F. destruct (i_handle0 q o h Hq Hh) as [n Hn]. congruence. }
  split; cbn; rewrite ?E; try done.
  - rewrite !lookup_delete. by repeat case_decide.
  - intros q. rewrite list_elem_of_filter, i_list0. split.
    + intros [Hqp [n Hq]]. exists n. apply Hnew; [done|done|congruence].
    + intros [n Hq]. destruct (Hold _ _ Hq) as (? & ? & ?). eauto.
  - by apply list.NoDup_filter.
  - intros q n Hq. destruct (Hold _ _ Hq) as (? & _). eauto.
  - intros q. specialize (i_base0 q). unfold base in *. destruct (delete p (delete (m_path m) L) !! q) as [[n| | |]|] eqn:Hq; try lia.
    destruct (Hold _ _ Hq) as (Hq' & _). rewrite Hq' in i_base0. unfold uses in *.
    rewrite (count_delete _ (delete (m_path m) L) p (OMount m)) by by rewrite lookup_delete_ne. rewrite (count_delete _ _ _ _ Hs). cbn. lia.
  - intros q n Hq. destruct (Hold _ _ Hq) as (Hq' & Hqp & _). destruct (i_path0 q n Hq') as (s' & Hs' & Hhd). exists s'. split; [|done].
    apply Hnew; [done|congruence|]. intros F. by apply Hqp, (i_apart0 q p n m); [..|left].
  - intros q q' n n' Hq Hq'. apply (i_apart0 q q' n n'); by apply Hold.
  - intros q o h Hq Hh. destruct (Hold _ _ Hq) as (Hq' & _). destruct (i_handle0 q o h Hq' Hh) as [n Hn]. exists n. apply Hnew; [done|eauto|eauto].
  - intros q n Hq. destruct (Hold _ _ Hq) as (? & _). eauto.
  - intros q Hq. rewrite !lookup_delete in Hq. repeat case_decide; try by destruct Hq. apply Hal; [done|done|auto].
  - rewrite (left_id_L ∅ (⊎)). rewrite (view_delete L (m_path m) (OString s)), (view_delete (delete (m_path m) L) p (OMount m)) in Hrep; try done.
    + cbn [held] in Hrep. replace (∅ ⊎ _) with ({[+ Live (m_api m) (m_cookie m) +]} ⊎ view_of (delete p (delete (m_path m) L))) in Hrep by multiset_solver.
      by replace (_ ∖ _) with (view_of (delete p (delete (m_path m) L))) in Hrep by multiset_solver.
    + by rewrite lookup_delete_ne.
    + intros q o h Hq Hh. destruct (Hold _ _ Hq) as (Hq' & _). eauto.
    + intros q o h (_ & Hq)%lookup_delete_Some Hh. eauto.
  - intros d Hd0. rewrite Ho by done. auto.
Qed.

Lemma live_item w p m : objs w !! p = Some (OMount m) -> Live (m_api m) (m_cookie m) ∈ view_of (objs w).
Proof. intros Hp. apply elem_of_total. exists p, (OMount m). split; [done|]. cbn. multiset_solver. Qed.

Lemma mount_cookies_apart L p m : L !! p = Some (OMount m) -> uses L p = 0 ->
  (forall q n, L !! q = Some (OMount n) -> (m_api m, m_cookie m) = (m_api n, m_cookie n) -> p = q) ->
  ~ open_at (view_of L) (m_api m) (m_cookie m).
Proof.
  intros Hp Hu Hap [y Hy]. pose proof (uses_none _ _ Hu) as Hun.
  assert (exists q o h, L !! q = Some o /\ handle_of o = Some h /\ mkey L (h_mount h) = Some (m_api m, m_cookie m)) as (q & o & h & Hq & Hh & Hk).
  { destruct Hy as [Hy|Hy]; apply elem_of_total in Hy as (q & o & Hq & Ho); destruct o as [n|s|h|h]; cbn in Ho;
      try (apply gmultiset_elem_of_singleton in Ho; congruence); try (by apply gmultiset_not_elem_of_empty in Ho);
      destruct (mkey L (h_mount h)) as [[i c]|] eqn:Hk; try (by apply gmultiset_not_elem_of_empty in Ho);
      apply gmultiset_elem_of_singleton in Ho; try congruence; injection Ho as <- <- _; [exists q, (OFile h), h|exists q, (ODir h), h]; done. }
  unfold mkey in Hk. destruct (L !! h_mount h) as [[n| | |]|] eqn:Hn; simplify_eq. apply (Hun q o h Hq Hh). symmetry. apply (Hap _ n); [done|]. congruence.
Qed.

(** The last reference of a mount: it is unmounted and gone, its device closed. *)
Definition gone (p : Z) (m : struct_fs_mount) w w' : Prop :=
  w_fs w' = w_fs (without p m w (env w)) /\ forall d, d ≠ 0 -> other w' d = other w d.

Lemma on_dev_pos z x w p m : Inv z x w -> delete z (objs w) !! p = Some (OMount m) -> m_dev m ≠ 0 -> 1 <= dev_handles (env w) (m_dev m).
Proof.
  intros Hi Hp%live_get Hd. pose proof (i_other _ _ _ Hi _ Hd) as Ho. unfold other in Ho.
  assert (on_dev (m_dev m) (OMount m) = true) as Ht by apply Z.eqb_refl. pose proof (count_pos _ _ _ _ Hp Ht). lia.
Qed.

Lemma put_mount_last z w p m : Inv z ∅ w -> delete z (objs w) !! p = Some (OMount m) -> 1 <= base (delete z (objs w)) p -> m_ref m = 1 ->
  wp (put_mount p) w (fun _ w' => Inv z ∅ w' /\ gone p m w w').
Proof.
  intros Hi Hp Hb Hr. assert (uses (delete z (objs w)) p = 0) as Hu.
  { unfold base in Hb. rewrite Hp in Hb. pose proof (count_nonneg (refers p) (delete z (objs w))). unfold uses in *. lia. }
  pose proof (live_get _ _ _ _ Hp) as Hp'. destruct (i_path _ _ _ Hi p m Hp) as (s & Hs & _). pose proof (live_get _ _ _ _ Hs) as Hs'.
  assert (p ≠ m_path m) as Hne by congruence. assert (p ≠ 0 /\ m_path m ≠ 0) as [Hp0 Hs0].
  { split; intros F; [rewrite F, (i_null _ _ _ Hi) in Hp'|rewrite F, (i_null _ _ _ Hi) in Hs']; done. }
  destruct (i_api _ _ _ Hi p m Hp) as [a Ha]. pose proof (fs_laws _ _ Ha) as Hl.
  unfold put_mount. wp_step. eapply wp_mount_at; [done|]. rewrite Hr. change (s32 (1 - 1)) with 0. wp_step. apply wp_store; [done|]. cbn [Z.eqb].
  wp_step. split; [apply bool_decide_eq_true_2, (i_list _ _ _ Hi); by exists m|]. unfold upd_fs. wp_step. cbn.
  eapply wp_api_of; [done|]. wp_step. apply wp_on_env. cbn. pose proof (i_rep _ _ _ Hi) as Hrep. rewrite (left_id_L ∅ (⊎)) in Hrep.
  eapply wp_mono; [apply (l_unmount _ _ Hl _ _ _ (i_ok _ _ _ Hi) Hrep)|].
  { apply elem_of_total. exists p, (OMount m). split; [done|]. cbn. multiset_solver. }
  { eapply mount_cookies_apart; [done|done|]. intros q n Hq E. apply (i_apart _ _ _ Hi p q m n); auto. }
  intros _ k1 [(Hok1 & Hal1 & Hd1) Hrep1]. wp_step.
  apply wp_release; cbn; [done|by rewrite lookup_insert_ne, Hs'|done|apply Hal1, (i_alloc _ _ _ Hi); by rewrite Hs'|].
  intros k2 (Hok2 & Hal2 & Hd2 & Hrep2). wp_step.
  assert (wp (if m_dev m =? 0 then mret tt else on_env (dev_close (m_dev m)))
    (MkWorld (MkFs (delete (m_path m) (<[p:=OMount (set_mref 0 m)]> (objs w))) (filter (fun q => q ≠ p) (mlist w))) k2)
    (fun _ w3 => exists k3, w3 = MkWorld (MkFs (delete (m_path m) (<[p:=OMount (set_mref 0 m)]> (objs w))) (filter (fun q => q ≠ p) (mlist w))) k3 /\
      alloc_ok k3 /\ (forall q, allocated k2 q -> allocated k3 q) /\ rep_kept k2 k3 /\
      forall d, dev_handles k3 d = dev_handles k2 d - closes m d)) as Hclose.
  { destruct (Z.eqb_spec (m_dev m) 0) as [E|E].
    - wp_step. exists k2. split_and!; [done|done|done|by intros v|]. intros d. unfold closes. rewrite bool_decide_eq_false_2; [lia|]. by intros [? _].
    - apply wp_on_env. cbn. pose proof (on_dev_pos z _ w p m Hi Hp E). eapply wp_mono; [apply env_close; [done|done|rewrite Hd2, Hd1; done]|].
      intros _ k3 (? & ? & ? & Hd3). exists k3. split_and!; try done. intros d. rewrite Hd3. unfold closes.
      by rewrite (bool_decide_ext (m_dev m ≠ 0 /\ d = m_dev m) (d = m_dev m)) by tauto. }
  eapply wp_mono; [exact Hclose|]. intros _ w3 (k3 & -> & Hok3 & Hal3 & Hrep3 & Hd3).
  apply wp_release; cbn; [done|rewrite lookup_delete_ne, lookup_insert_eq by done; by eexists|done|
    apply Hal3, Hal2, Hal1, (i_alloc _ _ _ Hi); [done|by rewrite Hp']|].
  intros k4 (Hok4 & Hal4 & Hd4 & Hrep4).
  rewrite (delete_delete _ p), delete_insert_eq, (delete_delete _ (m_path m)).
  assert (forall d, dev_handles k4 d = dev_handles (env w) d - closes m d) as Hd by (intros d; by rewrite Hd4, Hd3, Hd2, Hd1).
  fold (without p m w k4). split; [|split; [done|exact (other_without _ _ _ _ _ _ Hi Hp Hd)]].
  apply (Inv_without z w p m k4); try done; [|by apply Hrep4, Hrep3, Hrep2]. intros q H1 H2 H3. auto.
Qed.

Lemma put_mount_more z w p m : Inv z ∅ w -> objs w !! p = Some (OMount m) -> 1 < m_ref m < 2 ^ 31 ->
  forall Q, Q tt (set_count p (m_ref m - 1) w) -> wp (put_mount p) w Q.
Proof.
  intros Hi Hp Hr Q HQ. unfold put_mount. wp_step. eapply wp_mount_at; [done|]. rewrite sw_small by lia. wp_step.
  apply wp_store; [intros ->; by rewrite (i_null _ _ _ Hi) in Hp|]. rewrite (proj2 (Z.eqb_neq _ _)) by lia. wp_step.
  by rewrite (set_count_eq _ _ _ _ Hp) in HQ.
Qed.

Lemma put_mount_ok z w p m : Inv z ∅ w -> delete z (objs w) !! p = Some (OMount m) -> 1 <= base (delete z (objs w)) p ->
  wp (put_mount p) w (fun _ w' => Inv z ∅ w' /\ (forall d, d ≠ 0 -> other w' d = other w d) /\
    if m_ref m =? 1 then gone p m w w' else w' = set_count p (m_ref m - 1) w).
Proof.
  intros Hi Hp Hb. pose proof (i_ref _ _ _ Hi p m Hp) as Hr. destruct (Z.eqb_spec (m_ref m) 1) as [E|E].
  - eapply wp_mono; [by apply put_mount_last|]. intros _ w' [? [? ?]]. split_and!; done.
  - eapply put_mount_more; [done|by apply live_get in Hp|lia|]. split; [|split; [|done]].
    + eapply Inv_count; [done|done|lia|]. unfold base in Hb. rewrite Hp in Hb. lia.
    + intros d _. apply other_count.
Qed.

(** * Calls with a path *)

Lemma delete_null x w : Inv 0 x w -> delete 0 (objs w) = objs w.
Proof. intros Hi. apply delete_id, (i_null _ _ _ Hi). Qed.

(** A call leaves the layer well-formed, and the handles of devices that are no mount's. *)
Definition settled w w' : Prop := Wf w' /\ forall d, d ≠ 0 -> other w' d = other w d.

Lemma settled_refl w : Wf w -> settled w w.
Proof. by split. Qed.

Lemma Wf_env w k : Wf w -> steady (env w) k -> fs_rep k (view_of (objs w)) -> settled w (with_env k w).
Proof.
  intros [Hi Hb] Hs Hr. split; [|intros d _; by apply other_env]. split; [|done]. eapply Inv_env; [done|done|].
  by rewrite (delete_null _ _ Hi), (left_id_L ∅ (⊎)).
Qed.

Lemma Wf_rep w : Wf w -> fs_rep (env w) (view_of (objs w)) /\ alloc_ok (env w).
Proof.
  intros [Hi _]. pose proof (i_rep _ _ _ Hi) as Hr. rewrite (delete_null _ _ Hi), (left_id_L ∅ (⊎)) in Hr. split; [done|]. by apply (i_ok _ _ _ Hi).
Qed.

Lemma Wf_mount w p m : Wf w -> objs w !! p = Some (OMount m) -> p ≠ 0 /\ uses (objs w) p <= m_ref m <= uses (objs w) p + 1 /\ 1 <= m_ref m < 2 ^ 31.
Proof.
  intros [Hi Hb] Hp. specialize (Hb p). pose proof (i_base _ _ _ Hi p) as Hb'. pose proof (i_ref _ _ _ Hi p m) as Hr.
  rewrite (delete_null _ _ Hi) in *. unfold base in *. rewrite Hp in *. split; [intros ->; by rewrite (i_null _ _ _ Hi) in Hp|]. split; [lia|auto].
Qed.

(** While a call holds a mount it found. *)
Definition grabbed (p : Z) (m : struct_fs_mount) w : world := set_count p (m_ref m + 1) w.

Lemma grabbed_fs p m w : objs w !! p = Some (OMount m) -> w_fs (grabbed p m w) = MkFs (<[p := OMount (set_mref (m_ref m + 1) m)]> (objs w)) (mlist w) /\
  env (grabbed p m w) = env w.
Proof. intros Hp. unfold grabbed. by rewrite (set_count_eq _ _ _ _ Hp). Qed.

Lemma grabbed_Inv p m w : Wf w -> small w -> objs w !! p = Some (OMount m) -> Inv 0 ∅ (grabbed p m w).
Proof.
  intros Hw Hs Hp. pose proof (Wf_mount _ _ _ Hw Hp) as (_ & Hu & Hr). pose proof (Wf_room _ Hw Hs) as Hrm. destruct Hw as [Hi _].
  pose proof (delete_null _ _ Hi) as E. specialize (Hrm p m). rewrite E in Hrm. specialize (Hrm Hp).
  apply (Inv_count 0 ∅ w p m); [done|by rewrite E|lia|rewrite E; lia].
Qed.

Lemma with_mount_ok {A} w path (none : A) f Q : Wf w -> small w ->
  (cover w path = None -> Q none w) ->
  (forall p rest m a, cover w path = Some (p, rest) -> objs w !! p = Some (OMount m) -> fs_impls !! m_api m = Some a ->
    wp (f p (set_mref (m_ref m + 1) m) (impl_api a) rest) (grabbed p m w) Q) ->
  wp (with_mount path none f) w Q.
Proof.
  intros Hw Hs Hn Hf. unfold with_mount. wp_step. pose proof Hw as [Hi _].
  eapply wp_mono; [apply (find_mount_ok 0 ∅); [done|by apply Wf_room]|]. intros [[p rest]|] w'; [|by intros [E ->]; wp_step; apply Hn].
  intros [E (m & Hp & ->)]. destruct (i_api _ _ _ Hi p m Hp) as [a Ha]. apply live_get in Hp. wp_step. fold (grabbed p m w).
  destruct (grabbed_fs p m w Hp) as [Hg _]. eapply wp_mount_at; [rewrite Hg; apply lookup_insert_eq|]. wp_step. eapply wp_api_of; [exact Ha|]. eauto.
Qed.

(** Giving the mount back. *)
Lemma put_grabbed p m w k Q : Wf w -> small w -> objs w !! p = Some (OMount m) -> steady (env w) k -> fs_rep k (view_of (objs w)) ->
  Q tt (with_env k w) -> wp (put_mount p) (with_env k (grabbed p m w)) Q.
Proof.
  intros Hw Hs Hp Hst Hrep HQ. destruct (grabbed_fs p m w Hp) as [Hg He]. pose proof (grabbed_Inv p m w Hw Hs Hp) as Hi.
  pose proof (Wf_mount _ _ _ Hw Hp) as (_ & _ & Hr). pose proof (Wf_room _ Hw Hs p m) as Hrm. destruct Hw as [Hi0 _]. rewrite (delete_null _ _ Hi0) in Hrm.
  apply (put_mount_more 0 _ p (set_mref (m_ref m + 1) m)).
  - apply (Inv_env 0 ∅ ∅ (grabbed p m w)); [done|by rewrite He|]. rewrite (left_id_L ∅ (⊎)), (delete_null _ _ Hi), Hg. cbn. by rewrite (view_ref _ _ _ _ Hp).
  - cbn. rewrite Hg. apply lookup_insert_eq.
  - cbn. specialize (Hrm Hp). lia.
  - cbn [set_mref m_ref]. replace (m_ref m + 1 - 1) with (m_ref m) by lia.
    assert (set_count p (m_ref m) (with_env k (grabbed p m w)) = with_env k w) as ->; [|done].
    unfold with_env. rewrite Hg. erewrite set_count_eq by apply lookup_insert_eq. unfold with_objs. cbn. rewrite insert_insert_eq.
    destruct w as [[L l] k0], m. cbn in *. unfold set_mref. cbn. by rewrite insert_id.
Qed.

(** The answers of these calls: what was found, and the tables as they were. *)
Lemma view_grabbed p m w : objs w !! p = Some (OMount m) -> view_of (objs (grabbed p m w)) = view_of (objs w).
Proof. intros Hp. destruct (grabbed_fs p m w Hp) as [-> _]. cbn. by apply view_ref. Qed.

(** A call on a path: what the hook of the file system found there does and returns. *)
Definition path_answer w (path : list Z) (hook : fs_api K -> option (Z -> list Z -> M K Z)) (r : Z) w' : Prop :=
  match cover w path with
  | None => r = ERR_NOT_FOUND /\ w' = w
  | Some (p, rest) => exists m a, objs w !! p = Some (OMount m) /\ fs_impls !! m_api m = Some a /\
      match hook (impl_api a) with
      | None => r = ERR_NOT_SUPPORTED /\ w' = w
      | Some f => ran (f (m_cookie m) rest) w r w'
      end
  end.

Lemma on_path_ok w path hook : Wf w -> small w ->
  (forall p rest m a f, cover w path = Some (p, rest) -> objs w !! p = Some (OMount m) -> fs_impls !! m_api m = Some a -> hook (impl_api a) = Some f ->
    keeps (f (m_cookie m) rest) (env w) (view_of (objs w))) ->
  wp (on_path path hook) w (fun r w' => settled w w' /\ path_answer w path hook r w').
Proof.
  intros Hw Hs Hf. unfold on_path, path_answer. apply with_mount_ok; [done|done| |].
  - intros ->. split_and!; try done.
  - intros p rest m a Hc Hp Ha. rewrite Hc. destruct (grabbed_fs p m w Hp) as [Hg He]. pose proof (Wf_rep _ Hw) as [Hrep Hok].
    destruct (hook (impl_api a)) as [f|] eqn:Hh.
    + wp_step. apply wp_env_ran. rewrite He. eapply wp_mono; [exact (Hf p rest m a f Hc Hp Ha Hh)|]. intros err k [Hst Hr] Hran. wp_step.
      eapply put_grabbed; [done..|]. wp_step. split; [by apply Wf_env|]. exists m, a. rewrite Hh. split; [done|]. split; [done|]. by apply ran_with.
    + wp_step. replace (grabbed p m w) with (with_env (env w) (grabbed p m w)) by (rewrite <- He; by destruct (grabbed p m w)).
      assert (steady (env w) (env w)) by (unfold steady; auto). eapply put_grabbed; [done..|]. wp_step. split; [by apply Wf_env|].
      exists m, a. rewrite Hh. split_and!; try done. by destruct w.
Qed.

(** * Opening *)

(** A new object that is no mount. *)
Lemma Inv_object x x' w k h o : Inv 0 x w -> steady (env w) k -> h ≠ 0 -> objs w !! h = None -> allocated k h ->
  (forall m, o ≠ OMount m) -> (forall f, handle_of o = Some f -> 1 <= base (objs w) (h_mount f)) ->
  fs_rep k (x' ⊎ (held (mkey (objs w)) o ⊎ view_of (objs w))) ->
  Inv 0 x' (with_objs (<[h := o]> (objs w)) (with_env k w)) /\
  (forall p, base (<[h := o]> (objs w)) p = base (objs w) p - one (refers p o)) /\
  (forall d, other (with_objs (<[h := o]> (objs w)) (with_env k w)) d = other w d).
Proof.
  intros Hi (Hok & Hal & Hd) Hh0 Hh Hha Hnm Hb Hrep. pose proof (delete_null _ _ Hi) as E. set (L := objs w) in *.
  assert (delete 0 (<[h := o]> L) = <[h := o]> L) as E' by (apply delete_id; rewrite lookup_insert_ne by done; exact (i_null _ _ _ Hi)).
  assert (forall p m, <[h := o]> L !! p = Some (OMount m) <-> L !! p = Some (OMount m)) as Hm.
  { intros p m. rewrite lookup_insert. case_decide; [subst|done]. split; [intros [= F]; by destruct (Hnm m)|]. intros F. by rewrite Hh in F. }
  assert (forall p y, L !! p = Some y -> <[h := o]> L !! p = Some y) as Hold by (intros p y Hp; rewrite lookup_insert_ne; [done|congruence]).
  assert (forall p, base (<[h := o]> L) p = base L p - one (refers p o)) as Hbase.
  { intros p. unfold base. assert (uses (<[h := o]> L) p = uses L p + one (refers p o)) as Hus by by apply count_new.
    rewrite lookup_insert. case_decide as Eh; [subst|].
    - rewrite Hh. destruct o as [m| |f|f]; [by destruct (Hnm m)|cbn; lia|..]; cbn; destruct (Z.eqb_spec (h_mount f) p) as [F|F]; try done;
        specialize (Hb f eq_refl); unfold base in Hb; rewrite F, Hh in Hb; lia.
    - rewrite Hus. destruct (L !! p) as [[m| |f'|f']|] eqn:Hp; [lia|..];
      (destruct o as [m'| |f|f]; [by destruct (Hnm m')|cbn; lia|..]; cbn; destruct (Z.eqb_spec (h_mount f) p) as [F|F]; try done;
        specialize (Hb f eq_refl); unfold base in Hb; rewrite F, Hp in Hb; lia). }
  assert (forall d, other (with_objs (<[h := o]> L) (with_env k w)) d = other w d) as Ho.
  { intros d. unfold other. cbn. rewrite Hd, count_new by done. destruct o as [m| | |]; [by destruct (Hnm m)|..]; cbn; fold L; lia. }
  split; [|done]. destruct Hi. fold L in i_list0, i_ref0, i_base0, i_path0, i_apart0, i_handle0, i_api0, i_rep0, i_null0, i_alloc0. rewrite E in *.
  split; cbn; rewrite ?E'; try done.
  - by rewrite lookup_insert_ne.
  - intros p. rewrite i_list0. by setoid_rewrite Hm.
  - intros p m Hp%Hm. eauto.
  - intros p. rewrite Hbase. specialize (i_base0 p). destruct o as [m'| |f|f]; [by destruct (Hnm m')|cbn; lia|..]; cbn;
      (destruct (Z.eqb_spec (h_mount f) p) as [F|F]; [|lia]); specialize (Hb f eq_refl); rewrite F in Hb; lia.
  - intros p m Hp%Hm. destruct (i_path0 p m Hp) as (s & Hs & Hhd). exists s. auto.
  - intros p q m n Hp%Hm Hq%Hm. eauto.
  - intros p y f Hp Hy. setoid_rewrite Hm. apply lookup_insert_Some in Hp as [[-> ->]|[_ Hp]]; [|by eapply i_handle0].
    specialize (Hb f Hy). unfold base in Hb. destruct (L !! h_mount f) as [[m| | |]|]; try lia. by exists m.
  - intros p m Hp%Hm. eauto.
  - intros p. rewrite lookup_insert. case_decide; [by subst|]. intros Hp. auto.
  - rewrite view_new; [done|done| |].
    + intros f Hf F. specialize (Hb f Hf). unfold base in Hb. rewrite F, Hh in Hb. lia.
    + intros q y f Hq Hy F. destruct (i_handle0 q y f Hq Hy) as [m Hmm]. congruence.
  - intros d Hd0. rewrite Ho. auto.
Qed.

Lemma wp_new w size o (Q : Z -> world -> Prop) : alloc_ok (env w) -> 0 < size < 2 ^ 16 ->
  (forall h k, h ≠ 0 -> ~ allocated (env w) h -> allocated k h -> steady (env w) k -> rep_kept (env w) k -> malloc size (env w) = Some (h, k) -> Q h (with_objs (<[h := o]> (objs w)) (with_env k w))) ->
  wp (new size o) w Q.
Proof.
  intros Hok Hs HQ. unfold new. wp_step. apply wp_env_ran. eapply wp_mono; [by apply env_malloc|]. intros h k (Hh & Hn & Ha & Hst & Hr) Hran. wp_step.
  apply wp_store; [done|]. wp_step. by apply HQ.
Qed.

(** A handle for the cookie [c] of the mount [p]. *)
Definition gets_handle (mk : handle -> object) (p : Z) (m : struct_fs_mount) (c h : Z) w w' : Prop :=
  h ≠ 0 /\ objs w !! h = None /\
  w_fs w' = MkFs (<[h := mk (MkHandle c p)]> (<[p := OMount (set_mref (m_ref m + 1) m)]> (objs w))) (mlist w).

Definition makes_handle (mk : handle -> object) (it : nat -> Z -> Z -> item) : Prop := forall h, handle_of (mk h) = Some h /\
  (forall m, mk h ≠ OMount m) /\ forall key, held key (mk h) = match key (h_mount h) with Some (i, c) => {[+ it i c (h_cookie h) +]} | None => ∅ end.

Lemma with_handle_ok mk it p m w k r : makes_handle mk it -> Wf w -> small w -> objs w !! p = Some (OMount m) -> steady (env w) k ->
  (if r.1 <? 0 then fs_rep k (view_of (objs w)) else fs_rep k ({[+ it (m_api m) (m_cookie m) r.2 +]} ⊎ view_of (objs w))) ->
  wp (with_handle mk p r) (with_env k (grabbed p m w)) (fun r' w' => settled w w' /\
    if r.1 <? 0 then r' = (r.1, None) /\ w' = with_env k w
    else exists h, r' = (0, Some h) /\ malloc sizeof_handle k = Some (h, env w') /\ gets_handle mk p m r.2 h w w').
Proof.
  intros Hmk Hw Hs Hp Hst Hrep. destruct r as [err c]. cbn in *. unfold with_handle. cbn. destruct (grabbed_fs p m w Hp) as [Hg He].
  destruct (err <? 0).
  - wp_step. eapply put_grabbed; [done..|]. wp_step. split; [by apply Wf_env|done].
  - pose proof (grabbed_Inv p m w Hw Hs Hp) as Hi. pose proof (Wf_mount _ _ _ Hw Hp) as (_ & Hu & _). wp_step. destruct Hst as (Hok & Hal & Hd).
    set (w1 := with_env k (grabbed p m w)). assert (objs w1 = <[p:=OMount (set_mref (m_ref m + 1) m)]> (objs w)) as Hw1 by (unfold w1; cbn; by rewrite Hg).
    assert (Inv 0 {[+ it (m_api m) (m_cookie m) c +]} w1) as Hi1.
    { apply (Inv_env 0 ∅ _ (grabbed p m w)); [done|rewrite He; by split_and!|]. by rewrite (delete_null _ _ Hi), view_grabbed. }
    apply wp_new; [exact Hok|unfold sizeof_handle; lia|]. intros h k2 Hh Hna Ha Hst2 Hr2 Hran. wp_step.
    destruct (Hmk (MkHandle c p)) as (Hof & Hnm & Hheld). assert (objs w1 !! h = None) as Hhn.
    { destruct (objs w1 !! h) as [o|] eqn:Ho; [|done]. destruct Hna. apply (i_alloc _ _ _ Hi1). by eexists. }
    assert (p ≠ h) as Hph by (intros ->; by rewrite Hw1, lookup_insert_eq in Hhn).
    assert (mkey (objs w1) p = Some (m_api m, m_cookie m)) as Hkey by (unfold mkey; by rewrite Hw1, lookup_insert_eq).
    assert (base (objs w1) p = base (objs w) p + 1) as Hb1 by (rewrite Hw1, (base_ref _ _ _ _ _ Hp), bool_decide_eq_true_2 by done; lia).
    assert (0 <= base (objs w) p) as Hb0 by (unfold base; rewrite Hp; lia).
    destruct (Inv_object _ ∅ w1 k2 h (mk (MkHandle c p)) Hi1 Hst2 Hh Hhn Ha Hnm) as (Hi2 & Hb2 & Ho2).
    + intros f Hf. rewrite Hof in Hf. injection Hf as <-. cbn [h_mount]. lia.
    + rewrite Hheld. cbn [h_mount h_cookie]. rewrite Hkey, (left_id_L ∅ (⊎)). apply Hr2. pose proof (i_rep _ _ _ Hi1) as Hr. by rewrite (delete_null _ _ Hi1) in Hr.
    + split.
      * split; [split; [exact Hi2|]|].
        -- intros q. cbn. rewrite Hb2. assert (refers q (mk (MkHandle c p)) = (p =? q)) as ->.
           { destruct (mk (MkHandle c p)); cbn in Hof; simplify_eq; done. }
           destruct Hw as [_ Hb]. specialize (Hb q). rewrite Hw1, (base_ref _ _ _ _ _ Hp). destruct (Z.eqb_spec p q) as [->|Hpq].
           ++ rewrite bool_decide_eq_true_2 by done. lia.
           ++ rewrite bool_decide_eq_false_2 by done. lia.
        -- intros d Hd0. rewrite Ho2. unfold w1. rewrite other_env by (rewrite He; by split_and!). unfold grabbed. apply other_count.
      * exists h. split; [done|]. split; [exact Hran|]. split; [done|]. split.
        -- rewrite Hw1, lookup_insert_ne in Hhn by done. done.
        -- cbn. by rewrite Hg.
Qed.

Lemma makes_file : makes_handle OFile File.
Proof. by intros h. Qed.
Lemma makes_dir : makes_handle ODir Dir.
Proof. by intros h. Qed.

(** * Closing *)

Lemma item_held L p o f m : L !! p = Some o -> handle_of o = Some f -> L !! h_mount f = Some (OMount m) ->
  exists it, held (mkey L) o = {[+ it +]} /\ it ∈ view_of L /\ it = (match o with ODir _ => Dir | _ => File end) (m_api m) (m_cookie m) (h_cookie f).
Proof.
  intros Hp Hf Hm. assert (mkey L (h_mount f) = Some (m_api m, m_cookie m)) as Hk by (unfold mkey; by rewrite Hm).
  destruct o as [n|s|f'|f']; simplify_eq/=; rewrite Hk; (eexists; split; [done|]; split; [|done]);
    (apply elem_of_total; eexists p, _; split; [exact Hp|]; cbn; rewrite Hk; multiset_solver).
Qed.

(** A handle that the hook closed is none any more. *)
Lemma Inv_end w k h o f : Inv 0 ∅ w -> objs w !! h = Some o -> handle_of o = Some f -> steady (env w) k ->
  fs_rep k (view_of (objs w) ∖ held (mkey (objs w)) o) ->
  Inv h ∅ (with_env k w) /\ forall p, base (delete h (objs w)) p = base (objs w) p + one (refers p o).
Proof.
  intros Hi Hh Hf (Hok & Hal & Hd) Hrep. pose proof (delete_null _ _ Hi) as E. pose proof Hi as []. rewrite E in *. set (L := objs w) in *.
  assert (forall p y, delete h L !! p = Some y <-> L !! p = Some y /\ p ≠ h) as Hold.
  { intros p y. rewrite lookup_delete_Some. naive_solver. }
  assert (forall m, o ≠ OMount m) as Hnm by (intros m ->; done). assert (forall s, o ≠ OString s) as Hns by (intros s ->; done).
  assert (forall p m, delete h L !! p = Some (OMount m) <-> L !! p = Some (OMount m)) as Hm.
  { intros p m. rewrite Hold. split; [tauto|]. intros Hp. split; [done|]. intros ->. rewrite Hh in Hp. injection Hp as F. by apply (Hnm m). }
  assert (forall p s, L !! p = Some (OString s) -> delete h L !! p = Some (OString s)) as Hs.
  { intros p s Hp. apply Hold. split; [done|]. intros ->. rewrite Hh in Hp. injection Hp as F. by apply (Hns s). }
  assert (forall p, base (delete h L) p = base L p + one (refers p o)) as Hbase.
  { intros p. destruct (i_handle0 h o f Hh Hf) as [n Hn]. assert (refers p o = (h_mount f =? p)) as -> by (destruct o; simplify_eq/=; done). unfold base, uses.
    destruct (L !! p) as [[m| |f'|f']|] eqn:Hp.
    - rewrite (proj2 (Hm p m) Hp), (count_delete _ _ _ _ Hh). assert (refers p o = (h_mount f =? p)) as -> by (destruct o; simplify_eq/=; done). lia.
    - rewrite (Hs _ _ Hp). destruct (Z.eqb_spec (h_mount f) p); [congruence|done].
    - rewrite lookup_delete. case_decide; [|rewrite Hp]; (destruct (Z.eqb_spec (h_mount f) p); [congruence|done]).
    - rewrite lookup_delete. case_decide; [|rewrite Hp]; (destruct (Z.eqb_spec (h_mount f) p); [congruence|done]).
    - rewrite lookup_delete. case_decide; [|rewrite Hp]; (destruct (Z.eqb_spec (h_mount f) p); [congruence|done]). }
  split; [|done]. split; cbn; fold L; try done.
  - intros p. rewrite i_list0. by setoid_rewrite Hm.
  - intros p m Hp%Hm. eauto.
  - intros p. rewrite Hbase. specialize (i_base0 p). destruct (refers p o); lia.
  - intros p m Hp%Hm. destruct (i_path0 p m Hp) as (s & ? & ?). exists s. auto.
  - intros p q m n Hp%Hm Hq%Hm. eauto.
  - intros p y f' [Hp _]%Hold Hy. destruct (i_handle0 p y f' Hp Hy) as [m Hmm]. exists m. by apply Hm.
  - intros p m Hp%Hm. eauto.
  - intros p Hp. auto.
  - rewrite (left_id_L ∅ (⊎)). rewrite (view_delete L h o Hh) in Hrep.
    + replace (_ ∖ _) with (view_of (delete h L)) in Hrep by multiset_solver. done.
    + intros q y f' [Hq _]%Hold Hy F. destruct (i_handle0 q y f' Hq Hy) as [m Hmm]. rewrite F, Hh in Hmm. injection Hmm as Hmm. by apply (Hnm m).
    + intros f' Hf' F. destruct (i_handle0 h o f' Hh Hf') as [m Hmm]. rewrite F, Hh in Hmm. injection Hmm as Hmm. by apply (Hnm m).
  - intros d Hd0. specialize (i_other0 d Hd0). unfold other in *. cbn. by rewrite Hd.
Qed.

Lemma Inv_free z w k : z ≠ 0 -> Inv z ∅ w -> freed z (env w) k -> (forall o, objs w !! z = Some o -> is_handle o) ->
  Inv 0 ∅ (MkWorld (MkFs (delete z (objs w)) (mlist w)) k) /\ forall d, other (MkWorld (MkFs (delete z (objs w)) (mlist w)) k) d = other w d.
Proof.
  intros Hz Hi (Hok & Hal & Hd & Hr) Ho. assert (delete 0 (delete z (objs w)) = delete z (objs w)) as E.
  { apply delete_id. rewrite lookup_delete_ne by done. by apply (i_null _ _ _ Hi). }
  assert (forall d, other (MkWorld (MkFs (delete z (objs w)) (mlist w)) k) d = other w d) as Hoth.
  { intros d. unfold other. cbn. rewrite Hd. destruct (objs w !! z) as [o|] eqn:Hz'; [|by rewrite delete_id].
    rewrite (count_delete _ _ _ _ Hz'). specialize (Ho o eq_refl). destruct o; try done; cbn; lia. }
  split; [|done]. destruct Hi. split; cbn; rewrite ?E; try done.
  - rewrite lookup_delete_ne; done.
  - intros p Hp. assert (p ≠ z) by (intros ->; rewrite lookup_delete_eq in Hp; by destruct Hp). rewrite lookup_delete_ne in Hp by done. auto.
  - auto.
  - intros d Hd0. rewrite Hoth. auto.
Qed.

(** What a closed handle leaves. *)
Definition dropped (h : Z) (f : handle) w w' : Prop := exists m, objs w !! h_mount f = Some (OMount m) /\
  if m_ref m =? 1 then w_fs w' = MkFs (delete h (f_objs (w_fs (without (h_mount f) m w (env w))))) (filter (fun q => q ≠ h_mount f) (mlist w))
  else w_fs w' = MkFs (delete h (<[h_mount f := OMount (set_mref (m_ref m - 1) m)]> (objs w))) (mlist w).

Lemma end_handle_ok w k h o f r : Wf w -> objs w !! h = Some o -> handle_of o = Some f -> steady (env w) k ->
  fs_rep k (if r <? 0 then view_of (objs w) else view_of (objs w) ∖ held (mkey (objs w)) o) ->
  wp (end_handle h (h_mount f) r) (with_env k w) (fun r' w' => settled w w' /\
    if r <? 0 then r' = r /\ w' = with_env k w else r' = 0 /\ dropped h f w w').
Proof.
  intros Hw Hh Hf Hst Hrep. unfold end_handle. destruct (r <? 0); [wp_step; split; [by apply Wf_env|done]|].
  pose proof Hw as [Hi Hb]. pose proof (delete_null _ _ Hi) as E. destruct (Inv_end w k h o f Hi Hh Hf Hst Hrep) as [Hi1 Hb1].
  assert (h ≠ 0) as Hh0 by (intros ->; by rewrite (i_null _ _ _ Hi) in Hh).
  destruct (i_handle _ _ _ Hi h o f) as [m Hm]; [by rewrite E|done|]. rewrite E in Hm.
  assert (h_mount f ≠ h) as Hne by (intros F; rewrite F, Hh in Hm; injection Hm as ->; done).
  assert (refers (h_mount f) o = true) as Hrf by (destruct o; simplify_eq/=; apply Z.eqb_refl).
  pose proof (i_base _ _ _ Hi (h_mount f)) as Hb0. rewrite E in Hb0. wp_step.
  eapply wp_mono; [apply (put_mount_ok h (with_env k w) (h_mount f) m Hi1)|].
  { cbn. by rewrite lookup_delete_ne. }
  { cbn [with_env w_fs]. rewrite Hb1, Hrf. lia. }
  intros _ w2 (Hi2 & Ho2 & Hcase). wp_step.
  assert (objs w2 !! h = Some o) as Hh2.
  { destruct (m_ref m =? 1).
    - destruct Hcase as [-> _]. cbn. destruct (i_path _ _ _ Hi (h_mount f) m) as (s & Hs & _); [by rewrite E|]. rewrite E in Hs.
      rewrite !lookup_delete_ne; [done| |done]. intros F. rewrite F, Hh in Hs. injection Hs as ->. done.
    - subst w2. rewrite (set_count_eq _ _ (with_env k w) m) by done. cbn. by rewrite lookup_insert_ne. }
  apply wp_release; [done|by rewrite Hh2|apply (i_ok _ _ _ Hi2)|apply (i_alloc _ _ _ Hi2); by rewrite Hh2|].
  intros k3 Hk3. wp_step. destruct (Inv_free h w2 k3 Hh0 Hi2 Hk3) as [Hi3 Ho3].
  { intros o' Ho'. rewrite Hh2 in Ho'. injection Ho' as <-. destruct o; done. }
  split; [split; [split; [exact Hi3|]|]|split; [done|]].
  - intros p. cbn. destruct (m_ref m =? 1) eqn:Hr1.
    + destruct Hcase as [-> _]. cbn [without with_env w_fs f_objs]. destruct (i_path _ _ _ Hi (h_mount f) m) as (s & Hs & _); [by rewrite E|]. rewrite E in Hs.
      rewrite (delete_delete _ h (h_mount f)), (delete_delete _ h (m_path m)).
      assert (m_path m ≠ h_mount f) by congruence. assert (m_path m ≠ h) by (intros F; rewrite F, Hh in Hs; injection Hs as ->; done).
      specialize (Hb p). specialize (Hb1 p). apply Z.eqb_eq in Hr1. unfold base in *. rewrite lookup_delete. case_decide; [lia|].
      rewrite lookup_delete. case_decide; [lia|]. destruct (delete h (objs w) !! p) as [[n| | |]|] eqn:Hp; try lia.
      apply lookup_delete_Some in Hp as [Hph Hp]. rewrite Hp in Hb, Hb1.
      unfold uses in *. rewrite (count_delete _ (delete (m_path m) (delete h (objs w))) (h_mount f) (OMount m)) by by rewrite !lookup_delete_ne.
      rewrite (count_delete _ (delete h (objs w)) (m_path m) (OString s)) by by rewrite lookup_delete_ne. cbn.
      assert (refers p o = false) as Hrp; [|rewrite Hrp in Hb1; lia].
      destruct (refers p o) eqn:Hrp; [|done]. assert (h_mount f = p) by (destruct o; simplify_eq/=; by apply Z.eqb_eq in Hrp). done.
    + subst w2. rewrite (set_count_eq _ _ (with_env k w) m) by done. cbn. rewrite delete_insert_ne by done.
      rewrite (base_ref _ _ m) by by rewrite lookup_delete_ne. rewrite Hb1. specialize (Hb p).
      assert (refers p o = (h_mount f =? p)) as -> by (destruct o; simplify_eq/=; done).
      destruct (Z.eqb_spec (h_mount f) p) as [<-|Hp]; [rewrite bool_decide_eq_true_2 by done; lia|rewrite bool_decide_eq_false_2 by done; lia].
  - intros d Hd. rewrite Ho3, Ho2 by done. by apply other_env.
  - exists m. split; [done|]. destruct (m_ref m =? 1).
    + destruct Hcase as [-> _]. done.
    + subst w2. by rewrite (set_count_eq _ _ (with_env k w) m) by done.
Qed.

(** * Mounting *)

(** The new mount goes to the front of the table. *)
Lemma Inv_mount w p s path dev i c : Inv 0 {[+ Live i c +]} w -> p ≠ 0 -> objs w !! p = None -> allocated (env w) p ->
  objs w !! s = Some (OString path) -> head path = Some 47 -> (forall q n, objs w !! q = Some (OMount n) -> m_path n ≠ s) ->
  Live i c ∉ view_of (objs w) -> is_Some (fs_impls !! i) -> (dev ≠ 0 -> 1 <= other w dev) ->
  let m := MkMount s dev c 1 i in let w' := MkWorld (MkFs (<[p := OMount m]> (objs w)) (p :: mlist w)) (env w) in
  Inv 0 ∅ w' /\ (forall q, base (objs w') q = if bool_decide (q = p) then 1 else base (objs w) q) /\
  (forall d, d ≠ 0 -> other w' d = other w d - closes m d).
Proof.
  intros Hi Hp0 Hp Hpa Hs Hhd Hsf Hlive Himpl Hdev m w'. pose proof (delete_null _ _ Hi) as E. pose proof Hi as []. rewrite E in *. subst w'. set (L := objs w) in *.
  assert (delete 0 (<[p := OMount m]> L) = <[p := OMount m]> L) as E' by (apply delete_id; by rewrite lookup_insert_ne).
  assert (forall q y, L !! q = Some y -> <[p := OMount m]> L !! q = Some y) as Hold by (intros q y Hq; rewrite lookup_insert_ne; [done|congruence]).
  assert (forall q y f, L !! q = Some y -> handle_of y = Some f -> h_mount f ≠ p) as Hfree.
  { intros q y f Hq Hy F. destruct (i_handle0 q y f Hq Hy) as [n Hn]. congruence. }
  assert (forall q, uses (<[p := OMount m]> L) q = uses L q) as Hus by (intros q; unfold uses; rewrite count_new by done; cbn; lia).
  assert (uses L p = 0) as Hu0.
  { apply count_none. intros q y Hq. destruct y as [| |f|f]; try done; (apply Z.eqb_neq; eapply Hfree; [exact Hq|done]). }
  assert (forall q, base (<[p := OMount m]> L) q = if bool_decide (q = p) then 1 else base L q) as Hbase.
  { intros q. unfold base. rewrite Hus, lookup_insert. destruct (decide (p = q)) as [<-|Hne].
    - rewrite bool_decide_eq_true_2 by done. cbn. lia.
    - by rewrite bool_decide_eq_false_2 by done. }
  assert (forall q n, L !! q = Some (OMount n) -> (m_api n, m_cookie n) ≠ (i, c)) as Hcook.
  { intros q n Hq F. apply Hlive, elem_of_total. exists q, (OMount n). split; [done|]. cbn. simplify_eq. multiset_solver. }
  assert (forall d, d ≠ 0 -> other (MkWorld (MkFs (<[p := OMount m]> L) (p :: mlist w)) (env w)) d = other w d - closes m d) as Ho.
  { intros d Hd. unfold other, closes. cbn [w_fs f_objs w_env]. rewrite count_new by done. cbn. fold L. destruct (Z.eqb_spec dev d) as [<-|Hne].
    - rewrite bool_decide_eq_true_2 by done. lia.
    - rewrite bool_decide_eq_false_2; [lia|]. intros [_ F]. congruence. }
  split; [|split; [exact Hbase|exact Ho]]. split; cbn; rewrite ?E'; try done.
  - by rewrite lookup_insert_ne.
  - intros q. rewrite elem_of_cons, i_list0. split.
    + intros [->|[n Hq]]; [exists m; by rewrite lookup_insert_eq|eauto].
    + intros [n [[-> _]|[_ Hq]]%lookup_insert_Some]; [by left|right; eauto].
  - constructor; [|done]. intros [n Hn]%i_list0. congruence.
  - intros q n [[-> [= <-]]|[_ Hq]]%lookup_insert_Some; [done|eauto].
  - intros q. rewrite Hbase. case_bool_decide; [lia|done].
  - intros q n [[-> [= <-]]|[_ Hq]]%lookup_insert_Some; [exists path; auto|]. destruct (i_path0 q n Hq) as (t & ? & ?). exists t. auto.
  - intros q q' n n' [[-> [= <-]]|[_ Hq]]%lookup_insert_Some [[-> [= <-]]|[_ Hq']]%lookup_insert_Some Hk; [done| | |eauto]; exfalso.
    + cbn in Hk. destruct Hk as [F|F]; [by apply (Hsf q' n')|by apply (Hcook q' n')].
    + cbn in Hk. destruct Hk as [F|F]; [by apply (Hsf q n)|by apply (Hcook q n)].
  - intros q y f [[-> <-]|[_ Hq]]%lookup_insert_Some Hy; [done|]. destruct (i_handle0 q y f Hq Hy) as [n Hn]. eauto.
  - intros q n [[-> [= <-]]|[_ Hq]]%lookup_insert_Some; [done|eauto].
  - intros q. rewrite lookup_insert. case_decide; [by subst|]. auto.
  - rewrite view_new by done. by rewrite (left_id_L ∅ (⊎)).
  - intros d Hd0. rewrite Ho by done. unfold closes. case_bool_decide as F; [|specialize (i_other0 d Hd0); lia].
    destruct F as [F ->]. cbn in *. specialize (Hdev F). lia.
Qed.
End props.
End FsProps.
