(* ===== verification/FsCalls.v ===== *)
(** Each call of the mount table: what it returns and what it leaves. *)
From S2P Require Import Prelude WaitLib FsPath FsPathProps FsLib Fs FsProps.
From stdpp Require Import gmultiset.
Local Open Scope Z_scope.

Module FsCalls.
Import WaitLib Counts FsLib Fs FsProps.

#[local] Arguments disj_union : simpl never.
#[local] Arguments difference : simpl never.
#[local] Arguments singletonMS : simpl never.

Lemma temppath_short path : Z.of_nat (length (temppath path)) <= 127.
Proof. unfold temppath. pose proof (FsPathProps.length_canonical (take 127 path)) as Hl. rewrite length_take in Hl. change (Z.to_nat _) with 127%nat. lia. Qed.

Section calls.
Context {K : Type} `{!AllocOps K, !DevOps K, !FsOps K} `{!FsEnv K, !FsLaws K}.
Abbreviation world := (Fs.world (K := K)).
Implicit Types w : world.
Abbreviation objs w := (f_objs (w_fs w)).
Abbreviation mlist w := (f_mounts (w_fs w)).
Abbreviation env w := (w_env w).

(** A call that changes no object and no mount. *)
Definition same w w' : Prop := w_fs w' = w_fs w.

Lemma settled_same w k : Wf w -> steady (env w) k -> fs_rep k (view_of (objs w)) -> settled w (with_env k w) /\ same w (with_env k w).
Proof. intros. split; [by apply Wf_env|done]. Qed.

Lemma cover_short w path p rest : cover w path = Some (p, rest) -> (length rest <= length path)%nat.
Proof.
  unfold cover. induction (mlist w) as [|q l IH]; cbn [cover_in]; [done|]. destruct (path_of w q) as [s|]; [|done]. case_bool_decide; [|done].
  intros [= <- <-]. rewrite length_drop. lia.
Qed.

(** * Mounting *)

(** The device named, if one is. *)
Definition opens (device : list Z) w (dev : Z) w' : Prop :=
  if bool_decide (device = []) then dev = 0 /\ w' = w else ran (dev_open device) w dev w'.
Definition no_device (device : list Z) (dev : Z) : bool := negb (bool_decide (device = [])) && (dev =? 0).

Definition mounted (path : list Z) (dev c : Z) (i : nat) w w' : Prop := exists p s,
  objs w !! p = None /\ objs w !! s = None /\ p ≠ s /\
  w_fs w' = MkFs (<[p := OMount (MkMount s dev c 1 i)]> (<[s := OString (temppath path)]> (objs w))) (p :: mlist w).

Definition mount_answer (path device : list Z) (i : nat) w (r : Z) w' : Prop :=
  if bool_decide (head (temppath path) = Some 47) then
    match cover w (temppath path) with
    | Some _ => r = ERR_ALREADY_MOUNTED /\ w' = w
    | None => exists dev w1, opens device w dev w1 /\
        if no_device device dev then r = ERR_NOT_FOUND /\ w' = w1
        else exists a err c k, fs_impls !! i = Some a /\ api_mount (impl_api a) dev (env w1) = Some ((err, c), k) /\
          if err <? 0 then r = err /\ same w w' else r = 0 /\ mounted path dev c i w w'
    end
  else r = ERR_BAD_PATH /\ w' = w.

(** From a mounted file system to its entry. *)
Lemma add_mount_ok w k path dev i c : Wf w -> steady (env w) k -> fs_rep k ({[+ Live i c +]} ⊎ view_of (objs w)) -> Live i c ∉ view_of (objs w) ->
  is_Some (fs_impls !! i) -> head (temppath path) = Some 47 -> (dev ≠ 0 -> 1 <= other w dev) ->
  wp (m ← on_env (malloc sizeof_fs_mount); s ← strdup (temppath path); _ ← store m (OMount (MkMount s dev c 1 i));
      _ ← upd_fs (fun f => MkFs (f_objs f) (m :: f_mounts f)); mret 0) (with_env k w) (fun r w' => r = 0 /\ Wf w' /\
    (forall d, d ≠ 0 -> other w' d = other w d - (if bool_decide (dev ≠ 0 /\ d = dev) then 1 else 0)) /\ exists p s,
    objs w !! p = None /\ objs w !! s = None /\ p ≠ s /\
    w_fs w' = MkFs (<[p := OMount (MkMount s dev c 1 i)]> (<[s := OString (temppath path)]> (objs w))) (p :: mlist w)).
Proof.
  intros [Hi Hb] Hst Hrep Hlive Himpl Hhd Hdev. pose proof (temppath_short path) as Hlen. unfold strdup, upd_fs, sizeof_fs_mount.
  pose proof (delete_null _ _ Hi) as E. assert (Inv 0 {[+ Live i c +]} (with_env k w)) as Hi1 by (apply (Inv_env 0 ∅); [done|done|by rewrite E]).
  wp_step. apply wp_on_env. eapply wp_mono; [apply env_malloc; [apply (i_ok _ _ _ Hi1)|lia]|]. intros p k1 (Hp0 & Hpn & Hpa & Hst1 & Hr1). cbn [w_env with_env] in *.
  assert (Inv 0 {[+ Live i c +]} (with_env k1 w)) as Hi2.
  { apply (Inv_env 0 {[+ Live i c +]} {[+ Live i c +]} (with_env k w)); [done|done|]. cbn [with_env w_fs]. rewrite E. by apply Hr1. }
  assert (forall q, ~ allocated k q -> objs w !! q = None) as Hfresh.
  { intros q Hq. destruct (objs w !! q) eqn:Ho; [|done]. destruct Hq. apply (i_alloc _ _ _ Hi1). by eexists. }
  wp_step. apply wp_on_env. eapply wp_mono; [apply env_malloc; [apply (i_ok _ _ _ Hi2)|lia]|]. intros s k2 (Hs0 & Hsn & Hsa & Hst2 & Hr2). cbn [w_env with_env w_fs] in *.
  rewrite (proj2 (Z.eqb_neq _ _)) by done. wp_step. apply wp_store; [done|]. wp_step. apply wp_store; [done|]. wp_step. split; [done|].
  assert (p ≠ s) as Hps by (intros ->; done). pose proof (Hfresh p Hpn) as Hpo.
  assert (objs w !! s = None) as Hso.
  { destruct (objs w !! s) eqn:Ho; [|done]. destruct Hsn. apply (i_alloc _ _ _ Hi2). by eexists. }
  destruct (Inv_object {[+ Live i c +]} {[+ Live i c +]} (with_env k1 w) k2 s (OString (temppath path)) Hi2 Hst2 Hs0 Hso Hsa) as (Hi3 & Hb3 & Ho3); [done|done| |].
  { cbn [held with_env w_fs]. rewrite (left_id_L ∅ (⊎)). apply Hr2, Hr1. done. }
  assert (forall d, other (with_env k1 w) d = other w d) as Hok1.
  { intros d. destruct Hst as (_ & _ & Hd), Hst1 as (_ & _ & Hd1). unfold other. cbn. by rewrite Hd1, Hd. }
  pose proof (view_new (objs w) s (OString (temppath path)) Hso) as Hview. cbn [held] in Hview. rewrite (left_id_L ∅ (⊎)) in Hview.
  destruct (Inv_mount _ p s (temppath path) dev i c Hi3) as (Hi4 & Hb4 & Ho4); try done.
  - cbn. by rewrite lookup_insert_ne.
  - cbn. apply Hst2. done.
  - cbn. apply lookup_insert_eq.
  - intros q n. cbn. intros [[_ F]|[_ Hq]]%lookup_insert_Some F'; [done|]. pose proof (i_path _ _ _ Hi q n) as Hn. rewrite E in Hn.
    destruct (Hn Hq) as (t & Ht & _). congruence.
  - cbn. rewrite Hview; [done|done|]. intros q x h Hq Hh F. pose proof (i_handle _ _ _ Hi q x h) as Hn. rewrite E in Hn. destruct (Hn Hq Hh) as [n Hm]. congruence.
  - intros Hd. rewrite Ho3, Hok1. exact (Hdev Hd).
  - split; [split; [exact Hi4|]|split].
    + intros q. rewrite Hb4. case_bool_decide; [lia|]. cbn. rewrite Hb3. cbn. specialize (Hb q). lia.
    + intros d Hd. by rewrite Ho4, Ho3, Hok1 by done.
    + exists p, s. done.
Qed.

(** A device opened by the call. *)
Definition extra (dev d : Z) : Z := if bool_decide (dev ≠ 0 /\ d = dev) then 1 else 0.

Definition opened_env (dev : Z) w k : Prop := Wf (with_env k w) /\ forall d, d ≠ 0 -> other (with_env k w) d = other w d + extra dev d.

Lemma open_device_ok w device : Wf w -> (device ≠ [] -> dev_spare (env w)) ->
  wp (if bool_decide (device = []) then mret 0 else on_env (dev_open device)) w (fun dev w' => (device = [] -> dev = 0) /\
    opens device w dev w' /\ exists k, w' = with_env k w /\ opened_env dev w k).
Proof.
  intros Hw Hsp. unfold opens. case_bool_decide as Hd.
  - wp_step. split; [done|]. split; [done|]. exists (env w). split; [by destruct w|]. assert (with_env (env w) w = w) as E by by destruct w.
    split; rewrite E; [done|]. intros d _. unfold extra. rewrite bool_decide_eq_false_2; [lia|]. by intros [? _].
  - apply wp_env_ran. destruct (Wf_rep w Hw) as [Hrep Hok]. eapply wp_mono; [apply env_open; [done|auto]|].
    intros dev k (Hok' & Hal & Hr & Hd') Hran. split; [done|]. split; [by apply ran_with|]. exists k. split; [done|].
    assert (forall d, other (with_env k w) d = other w d + extra dev d) as Ho by (intros d; unfold other, extra; cbn; rewrite Hd'; lia).
    split; [|by intros]. destruct Hw as [Hi Hb]. split; [|done]. pose proof Hi as []. split; try done; [cbn; auto|cbn; auto|].
    intros d Hd0. rewrite Ho. unfold extra. specialize (i_other0 d Hd0). destruct (bool_decide _); lia.
Qed.

Lemma close_device_ok w dev : Wf w -> (dev ≠ 0 -> 1 <= other w dev) ->
  wp (if dev =? 0 then mret tt else on_env (dev_close dev)) w (fun _ w' => w_fs w' = w_fs w /\ Wf w' /\ forall d, d ≠ 0 -> other w' d = other w d - extra dev d).
Proof.
  intros Hw Hd. destruct (Z.eqb_spec dev 0) as [->|Hne].
  - wp_step. split_and!; try done. intros d _. unfold extra. rewrite bool_decide_eq_false_2; [lia|]. by intros [? _].
  - apply wp_on_env. destruct (Wf_rep w Hw) as [Hrep Hok]. specialize (Hd Hne).
    assert (1 <= dev_handles (env w) dev) as Hh by (unfold other in Hd; pose proof (count_nonneg (on_dev dev) (objs w)); lia).
    eapply wp_mono; [by apply env_close|]. intros _ k (Hok' & Hal & Hr & Hd'). split; [done|].
    assert (forall d, other (with_env k w) d = other w d - extra dev d) as Ho.
    { intros d. unfold other, extra. cbn [with_env w_env w_fs]. rewrite Hd', (bool_decide_ext (dev ≠ 0 /\ d = dev) (d = dev)) by tauto. lia. }
    split; [|by intros]. destruct Hw as [Hi Hb]. split; [|done]. pose proof Hi as []. split; try done; [cbn; auto|cbn; auto|].
    intros d Hd0. rewrite Ho. unfold extra. case_bool_decide as F; [destruct F as [_ ->]; lia|]. specialize (i_other0 d Hd0). lia.
Qed.

(** The rest of [mount], with the device open. *)
Definition mount_rest (path : list Z) (i : nat) (dev : Z) : M world Z :=
  a ← api_of i;
  '(err, cookie) ← on_env (api_mount a dev);
  if err <? 0 then _ ← (if dev =? 0 then mret tt else on_env (dev_close dev)); mret err
  else
    m ← on_env (malloc sizeof_fs_mount); s ← strdup (temppath path); _ ← store m (OMount (MkMount s dev cookie 1 i));
    _ ← upd_fs (fun f => MkFs (f_objs f) (m :: f_mounts f)); mret 0.

Lemma mount_rest_ok w path i dev k : Wf w -> opened_env dev w k -> is_Some (fs_impls !! i) ->
  head (temppath path) = Some 47 ->
  wp (mount_rest path i dev) (with_env k w) (fun r w' => settled w w' /\ exists a err c k1, fs_impls !! i = Some a /\
    api_mount (impl_api a) dev k = Some ((err, c), k1) /\ if err <? 0 then r = err /\ same w w' else r = 0 /\ mounted path dev c i w w').
Proof.
  intros Hw [Hw1 Ho1] [a Ha] Hhd. unfold mount_rest. wp_step. eapply wp_api_of; [exact Ha|]. wp_step. apply wp_env_ran.
  destruct (Wf_rep _ Hw1) as [Hrep Hok]. pose proof (fs_laws _ _ Ha) as Hl. eapply wp_mono; [by apply (l_mount _ _ Hl _ _ dev Hok Hrep)|].
  intros [err c] k2 [Hst Hr] Hran. cbn in Hr. cbn [fst snd] in *.
  assert (forall d, d ≠ 0 -> other (with_env k2 (with_env k w)) d = other w d + extra dev d) as Ho2.
  { intros d Hd. rewrite <- Ho1 by done. by apply other_env. }
  assert (dev ≠ 0 -> 1 <= other (with_env k w) dev) as Hd1.
  { intros Hd. rewrite Ho1 by done. pose proof (i_other _ _ _ (proj1 Hw) dev Hd). unfold extra. rewrite bool_decide_eq_true_2 by done. lia. }
  destruct (err <? 0) eqn:He.
  - wp_step. eapply wp_mono; [apply (close_device_ok _ dev); [by apply Wf_env|intros Hd; rewrite other_env by done; auto]|]. intros _ w3 (Hf3 & Hw3 & Ho3). wp_step.
    split; [split; [done|]; intros d Hd; rewrite Ho3, Ho2 by done; lia|]. exists a, err, c, k2. rewrite He. done.
  - destruct Hr as [Hlive Hr]. eapply wp_mono; [apply (add_mount_ok (with_env k w) k2 path dev i c); try done; by eauto|].
    intros r w3 (-> & Hw3 & Ho3 & p & s & Hp & Hsn & Hps & Hfs). split; [split; [done|]|].
    + intros d Hd. rewrite Ho3, Ho1 by done. unfold extra. lia.
    + exists a, err, c, k2. rewrite He. split_and!; try done. by exists p, s.
Qed.

Lemma mount_ok w path device i : Wf w -> small w -> is_Some (fs_impls !! i) -> (device ≠ [] -> dev_spare (env w)) ->
  wp (mount path device i) w (fun r w' => settled w w' /\ mount_answer path device i w r w').
Proof.
  intros Hw Hs Ha Hsp. unfold mount, mount_answer. case_bool_decide as Hhd; cbn [negb]; [|wp_step; by split; [apply settled_refl|]].
  wp_step. pose proof Hw as [Hi _]. eapply wp_mono; [apply (find_mount_ok 0 ∅); [done|by apply Wf_room]|]. intros [[p rest]|] w1 [Hc H1]; rewrite <- Hc.
  - destruct H1 as (m & Hp%live_get & ->). fold (grabbed p m w). wp_step. destruct (Wf_rep w Hw) as [Hrep Hok].
    replace (grabbed p m w) with (with_env (env w) (grabbed p m w)) by (destruct (grabbed_fs p m w Hp) as [_ <-]; by destruct (grabbed p m w)).
    assert (steady (env w) (env w)) as Hst by (unfold steady; auto). apply (put_grabbed p m w _ _ Hw Hs Hp Hst Hrep). wp_step.
    replace (with_env (env w) w) with w by by destruct w. split; [by apply settled_refl|done].
  - subst w1. wp_step. eapply wp_mono; [by apply open_device_ok|]. intros dev w1 (Hnd & Hop & k & -> & Hw1). fold (mount_rest path i dev).
    fold (no_device device dev). destruct (no_device device dev) eqn:Hno.
    + wp_step. destruct Hw1 as [Hw1 Ho1]. split; [|by exists dev, (with_env k w); rewrite Hno]. split; [done|]. intros d Hd0.
      unfold no_device in Hno. apply andb_true_iff in Hno as [_ ->%Z.eqb_eq]. rewrite Ho1 by done. unfold extra.
      rewrite bool_decide_eq_false_2; [lia|]. by intros [? _].
    + eapply wp_mono; [by apply (mount_rest_ok w path i dev k)|]. intros r w2 [Hset Hr]. split; [done|].
      exists dev, (with_env k w). by rewrite Hno.
Qed.

(** * Unmounting *)

(** The mount of a path leaves the table when no handle is left, else with the last handle. *)
Definition unmounted (p : Z) w w' : Prop := exists m, objs w !! p = Some (OMount m) /\
  if m_ref m =? 1 then w_fs w' = w_fs (without p m w (env w))
  else w_fs w' = MkFs (<[p := OMount (set_mref (m_ref m - 1) m)]> (objs w)) (mlist w).

Lemma gone_base z x w p m k q : Inv z x w -> delete z (objs w) !! p = Some (OMount m) -> uses (objs w) p = 0 ->
  base (objs (without p m w k)) q <= Z.max 0 (base (objs w) q).
Proof.
  intros Hi Hp Hu. destruct (i_path _ _ _ Hi p m Hp) as (s & Hs%live_get & _). apply live_get in Hp. assert (p ≠ m_path m) by congruence.
  cbn [without w_fs f_objs]. unfold base. rewrite lookup_delete. case_decide; [lia|]. rewrite lookup_delete. case_decide; [lia|].
  destruct (objs w !! q) as [[n| | |]|]; try lia. unfold uses. rewrite (count_delete _ (delete (m_path m) (objs w)) p (OMount m)) by by rewrite lookup_delete_ne.
  rewrite (count_delete _ (objs w) (m_path m) (OString s)) by done. cbn [refers]. lia.
Qed.

Lemma fs_unmount_ok w path : Wf w -> small w -> (forall p rest, cover w (temppath path) = Some (p, rest) -> base (objs w) p = 1) ->
  wp (fs_unmount path) w (fun r w' => settled w w' /\ match cover w (temppath path) with
    | None => r = ERR_NOT_FOUND /\ w' = w
    | Some (p, _) => r = 0 /\ unmounted p w w'
    end).
Proof.
  intros Hw Hs Hb1. unfold fs_unmount. wp_step. pose proof Hw as [Hi Hb]. pose proof (delete_null _ _ Hi) as E.
  eapply wp_mono; [apply (find_mount_ok 0 ∅); [done|by apply Wf_room]|]. intros [[p rest]|] w1 [Hc H1]; rewrite <- Hc.
  - destruct H1 as (m & Hp%live_get & ->). fold (grabbed p m w). wp_step. destruct (Wf_rep w Hw) as [Hrep Hok]. symmetry in Hc. specialize (Hb1 _ _ Hc).
    replace (grabbed p m w) with (with_env (env w) (grabbed p m w)) by (destruct (grabbed_fs p m w Hp) as [_ <-]; by destruct (grabbed p m w)).
    assert (steady (env w) (env w)) as Hst by (unfold steady; auto). apply (put_grabbed p m w _ _ Hw Hs Hp Hst Hrep). wp_step.
    replace (with_env (env w) w) with w by by destruct w. eapply wp_mono; [apply (put_mount_ok 0 w p m Hi); [by rewrite E|rewrite E; lia]|].
    intros _ w2 (Hi2 & Ho2 & Hcase). wp_step. split; [split; [split; [done|]|done]|split; [done|]].
    + intros q. specialize (Hb q). destruct (Z.eqb_spec (m_ref m) 1) as [Hr|Hr].
      * destruct Hcase as [Hfs _]. pose proof (gone_base 0 ∅ w p m (env w) q Hi) as Hg. rewrite E in Hg. rewrite Hfs.
        assert (uses (objs w) p = 0) as Hu by (unfold base in Hb1; rewrite Hp in Hb1; lia). specialize (Hg Hp Hu). lia.
      * subst w2. rewrite (set_count_eq _ _ _ _ Hp). cbn. rewrite (base_ref _ _ _ _ _ Hp). destruct (bool_decide _); lia.
    + exists m. split; [done|]. destruct (m_ref m =? 1); [by destruct Hcase|]. subst w2. by rewrite (set_count_eq _ _ _ _ Hp).
  - subst w1. wp_step. by split; [apply settled_refl|].
Qed.

(** * Opening *)

(** The handle for the cookie that a hook stored, or the error that it returned. *)
Definition hook_handle (mk : handle -> object) (p : Z) (m : struct_fs_mount) (f : M K (Z * Z)) w (r : Z * option Z) w' : Prop :=
  exists err c k, f (env w) = Some ((err, c), k) /\
    if err <? 0 then r = (err, None) /\ w' = with_env k w
    else exists h, r = (0, Some h) /\ malloc sizeof_handle k = Some (h, env w') /\ gets_handle mk p m c h w w'.

(** The answer of a call that opens. *)
Definition open_answer (mk : handle -> object) (hook : fs_api K -> option (Z -> list Z -> M K (Z * Z))) (path : list Z)
    w (r : Z * option Z) w' : Prop :=
  match cover w (temppath path) with
  | None => r = (ERR_NOT_FOUND, None) /\ w' = w
  | Some (p, rest) => exists m a, objs w !! p = Some (OMount m) /\ fs_impls !! m_api m = Some a /\
      match hook (impl_api a) with
      | Some f => hook_handle mk p m (f (m_cookie m) rest) w r w'
      | None => r = (ERR_NOT_SUPPORTED, None) /\ w' = w
      end
  end.
Definition create_hook (len : Z) (a : fs_api K) : option (Z -> list Z -> M K (Z * Z)) := (fun f c path => f c path len) <$> api_create a.

Lemma not_hooked p m w (Q : Z * option Z -> world -> Prop) : Wf w -> small w -> objs w !! p = Some (OMount m) -> (settled w w -> Q (ERR_NOT_SUPPORTED, None) w) ->
  wp (_ ← put_mount p; mret (ERR_NOT_SUPPORTED, None)) (grabbed p m w) Q.
Proof.
  intros Hw Hs Hp HQ. destruct (Wf_rep w Hw) as [Hrep Hok]. wp_step.
  replace (grabbed p m w) with (with_env (env w) (grabbed p m w)) by (destruct (grabbed_fs p m w Hp) as [_ <-]; by destruct (grabbed p m w)).
  assert (steady (env w) (env w)) as Hst by (unfold steady; auto). apply (put_grabbed p m w _ _ Hw Hs Hp Hst Hrep). wp_step.
  replace (with_env (env w) w) with w by by destruct w. by apply HQ, settled_refl.
Qed.

Lemma hooked_ok mk it p m w (h : M K (Z * Z)) Q : makes_handle mk it -> Wf w -> small w -> objs w !! p = Some (OMount m) ->
  takes h (env w) (view_of (objs w)) (it (m_api m) (m_cookie m)) false ->
  (forall r w', settled w w' -> hook_handle mk p m h w r w' -> Q r w') ->
  wp (r ← on_env h; with_handle mk p r) (grabbed p m w) Q.
Proof.
  intros Hmk Hw Hs Hp Ht HQ. destruct (grabbed_fs p m w Hp) as [_ He]. wp_step. apply wp_env_ran. rewrite He.
  eapply wp_mono; [exact Ht|]. intros [err c] k [Hst Hr] Hran. cbn [fst snd] in *.
  eapply wp_mono; [apply (with_handle_ok mk it p m w k (err, c)); try done|].
  - cbn [fst snd]. destruct (err <? 0); [done|by destruct Hr].
  - intros r w' [Hset Hr']. cbn [fst snd] in *. apply HQ; [done|]. by exists err, c, k.
Qed.

Lemma fs_open_file_ok w path : Wf w -> small w ->
  wp (fs_open_file path) w (fun r w' => settled w w' /\ open_answer OFile (fun a => Some (api_open a)) path w r w').
Proof.
  intros Hw Hs. unfold fs_open_file, open_answer. destruct (Wf_rep w Hw) as [Hrep Hok]. apply with_mount_ok; [done|done|intros ->; by split; [apply settled_refl|]|].
  intros p rest m a Hc Hp Ha. rewrite Hc. apply (hooked_ok OFile File p m w _ _ makes_file Hw Hs Hp).
  - apply (l_open _ _ (fs_laws _ _ Ha)); [done|done|]. by apply live_item with p.
  - intros r w' Hset Hr. split; [done|]. by exists m, a.
Qed.

Lemma fs_create_file_ok w path len : Wf w -> small w -> io_fits len ->
  wp (fs_create_file path len) w (fun r w' => settled w w' /\ open_answer OFile (create_hook len) path w r w').
Proof.
  intros Hw Hs Hl. unfold fs_create_file, open_answer. destruct (Wf_rep w Hw) as [Hrep Hok]. apply with_mount_ok; [done|done|intros ->; by split; [apply settled_refl|]|].
  intros p rest m a Hc Hp Ha. rewrite Hc. destruct (api_create (impl_api a)) as [create|] eqn:Hh.
  - apply (hooked_ok OFile File p m w _ _ makes_file Hw Hs Hp).
    + apply (l_create _ _ (fs_laws _ _ Ha) create); [done|done|done|by apply live_item with p|done|].
      pose proof (temppath_short path). pose proof (cover_short _ _ _ _ Hc). lia.
    + intros r w' Hset Hr. split; [done|]. exists m, a. split; [done|]. split; [done|]. unfold create_hook. by rewrite Hh.
  - apply not_hooked; [done..|]. intros Hset. split; [done|]. exists m, a. split; [done|]. split; [done|]. unfold create_hook. by rewrite Hh.
Qed.

Lemma fs_open_dir_ok w path : Wf w -> small w ->
  wp (fs_open_dir path) w (fun r w' => settled w w' /\ open_answer ODir api_opendir path w r w').
Proof.
  intros Hw Hs. unfold fs_open_dir, open_answer. destruct (Wf_rep w Hw) as [Hrep Hok]. apply with_mount_ok; [done|done|intros ->; by split; [apply settled_refl|]|].
  intros p rest m a Hc Hp Ha. rewrite Hc. destruct (api_opendir (impl_api a)) as [opendir|] eqn:Hh.
  - apply (hooked_ok ODir Dir p m w _ _ makes_dir Hw Hs Hp).
    + apply (l_opendir _ _ (fs_laws _ _ Ha) opendir); [done|done|done|]. by apply live_item with p.
    + intros r w' Hset Hr. split; [done|]. exists m, a. split; [done|]. split; [done|]. by rewrite Hh.
  - apply not_hooked; [done..|]. intros Hset. split; [done|]. exists m, a. split; [done|]. split; [done|]. by rewrite Hh.
Qed.

(** * Calls on handles *)

(** What a handle stands for. *)
Lemma handle_ok w h o f : Wf w -> objs w !! h = Some o -> handle_of o = Some f ->
  exists m a, objs w !! h_mount f = Some (OMount m) /\ fs_impls !! m_api m = Some a /\
    held (mkey (objs w)) o = {[+ (match o with ODir _ => Dir | _ => File end) (m_api m) (m_cookie m) (h_cookie f) +]} /\
    (match o with ODir _ => Dir | _ => File end) (m_api m) (m_cookie m) (h_cookie f) ∈ view_of (objs w).
Proof.
  intros [Hi _] Ho Hf. pose proof (delete_null _ _ Hi) as E. destruct (i_handle _ _ _ Hi h o f) as [m Hm]; [by rewrite E|done|]. rewrite E in Hm.
  destruct (i_api _ _ _ Hi (h_mount f) m) as [a Ha]; [by rewrite E|]. destruct (item_held _ _ _ _ _ Ho Hf Hm) as (it & Hh & Hin & ->). by exists m, a.
Qed.

Lemma wp_mount_api w f m a (Q : fs_api K -> world -> Prop) : objs w !! h_mount f = Some (OMount m) -> fs_impls !! m_api m = Some a -> Q (impl_api a) w ->
  wp (mount_api f) w Q.
Proof. intros Hm Ha HQ. unfold mount_api. wp_step. eapply wp_mount_at; [done|]. by eapply wp_api_of. Qed.

(** A hook that keeps what the layer holds. *)
Lemma keeps_ok {A} (m : M K A) w (Q : A -> world -> Prop) : Wf w -> keeps m (env w) (view_of (objs w)) ->
  (forall r w', settled w w' -> ran m w r w' -> Q r w') -> wp (on_env m) w Q.
Proof.
  intros Hw Hm HQ. apply wp_env_ran. eapply wp_mono; [exact Hm|]. intros r k [Hst Hr] Hran. destruct (settled_same w k Hw Hst Hr).
  apply HQ; [done|]. by apply ran_with.
Qed.

Lemma on_file {B} w h f (body : handle -> fs_api K -> M world B) Q : Wf w -> objs w !! h = Some (OFile f) ->
  (forall m a, objs w !! h_mount f = Some (OMount m) -> fs_impls !! m_api m = Some a -> ApiLaws (m_api m) (impl_api a) ->
    File (m_api m) (m_cookie m) (h_cookie f) ∈ view_of (objs w) -> wp (body f (impl_api a)) w Q) ->
  wp (f ← file_at h; a ← mount_api f; body f a) w Q.
Proof.
  intros Hw Hh Hb. destruct (handle_ok w h _ f Hw Hh eq_refl) as (m & a & Hm & Ha & _ & Hin). wp_step. eapply wp_file_at; [done|]. wp_step.
  eapply wp_mount_api; [done|done|]. apply (Hb m a); try done. by apply fs_laws.
Qed.

Lemma on_dir {B} w h f (body : handle -> fs_api K -> M world B) Q : Wf w -> objs w !! h = Some (ODir f) ->
  (forall m a, objs w !! h_mount f = Some (OMount m) -> fs_impls !! m_api m = Some a -> ApiLaws (m_api m) (impl_api a) ->
    Dir (m_api m) (m_cookie m) (h_cookie f) ∈ view_of (objs w) -> wp (body f (impl_api a)) w Q) ->
  wp (f ← dir_at h; a ← mount_api f; body f a) w Q.
Proof.
  intros Hw Hh Hb. destruct (handle_ok w h _ f Hw Hh eq_refl) as (m & a & Hm & Ha & _ & Hin). wp_step. eapply wp_dir_at; [done|]. wp_step.
  eapply wp_mount_api; [done|done|]. apply (Hb m a); try done. by apply fs_laws.
Qed.

(** The file system of a handle. *)
Definition api_of_handle w (f : handle) : option (fs_api K) :=
  match objs w !! h_mount f with Some (OMount m) => impl_api <$> fs_impls !! m_api m | _ => None end.

Lemma api_of_handle_eq w f m a : objs w !! h_mount f = Some (OMount m) -> fs_impls !! m_api m = Some a -> api_of_handle w f = Some (impl_api a).
Proof. intros Hm Ha. unfold api_of_handle. by rewrite Hm, Ha. Qed.

(** What the file system of a handle has to do with an answer. *)
Definition on_api w (f : handle) (P : fs_api K -> Prop) : Prop := exists a, api_of_handle w f = Some a /\ P a.

Lemma on_api_intro w f m a (P : fs_api K -> Prop) : objs w !! h_mount f = Some (OMount m) -> fs_impls !! m_api m = Some a -> P (impl_api a) -> on_api w f P.
Proof. intros Hm Ha HP. exists (impl_api a). split; [by apply (api_of_handle_eq w f m)|done]. Qed.

(** What a hook that may be missing did, or the error for a missing one. *)
Definition hook_answer {A B} (hook : option A) (run : A -> M K B) (none : B) w (r : B) w' : Prop :=
  match hook with Some g => ran (run g) w r w' | None => r = none /\ w' = w end.

Section file.
Context (w : world) (Hw : Wf w) (h : Z) (f : handle) (Hh : objs w !! h = Some (OFile f)).

Lemma file_not_null : h ≠ 0 /\ h_mount f ≠ 0.
Proof.
  pose proof Hw as [Hi _]. pose proof (delete_null _ _ Hi) as E. split; [intros ->; by rewrite (i_null _ _ _ Hi) in Hh|]. intros F.
  destruct (i_handle _ _ _ Hi h (OFile f) f) as [m Hm]; [by rewrite E|done|]. rewrite E, F, (i_null _ _ _ Hi) in Hm. done.
Qed.

Lemma fs_read_file_ok off len : 0 <= len -> off + len < 2 ^ 63 -> wp (fs_read_file h off len) w (fun r w' => settled w w' /\
  on_api w f (fun a => ran (api_read a (h_cookie f) off len) w r w')).
Proof.
  intros Hl0 Hl1. destruct (Wf_rep w Hw) as [Hrep Hok]. unfold fs_read_file. apply (on_file w h f _ _ Hw Hh). intros m a Hm Ha Hl Hin.
  apply keeps_ok; [done|by eapply (l_read _ _ Hl)|]. intros r w' ? ?. split; [done|]. by eapply on_api_intro.
Qed.

Lemma fs_stat_file_ok : wp (fs_stat_file h) w (fun r w' => settled w w' /\ on_api w f (fun a => ran (api_stat a (h_cookie f)) w r w') /\
  forall n, r.2 = Some n -> 0 <= n).
Proof.
  destruct (Wf_rep w Hw) as [Hrep Hok]. unfold fs_stat_file. apply (on_file w h f _ _ Hw Hh). intros m a Hm Ha Hl Hin.
  apply wp_env_ran. eapply wp_mono; [by eapply (l_stat _ _ Hl)|]. intros r k (Hst & Hr & Hn) Hran. destruct (settled_same w k Hw Hst Hr).
  split; [done|]. split; [|done]. eapply on_api_intro; [done|done|]. by apply ran_with.
Qed.

Lemma fs_write_file_ok data off : io_fits (off + Z.of_nat (length data)) ->
  wp (fs_write_file h data off) w (fun r w' => settled w w' /\
    on_api w f (fun a => hook_answer (api_write a) (fun g => g (h_cookie f) data off) ERR_NOT_SUPPORTED w r w')).
Proof.
  intros Hf. destruct (Wf_rep w Hw) as [Hrep Hok]. unfold fs_write_file. apply (on_file w h f _ _ Hw Hh). intros m a Hm Ha Hl Hin.
  destruct (api_write (impl_api a)) as [write|] eqn:He.
  - apply keeps_ok; [done|by eapply (l_write _ _ Hl)|]. intros r w' ? ?. split; [done|]. eapply on_api_intro; [done|done|]. by rewrite He.
  - wp_step. split; [by apply settled_refl|]. eapply on_api_intro; [done|done|]. by rewrite He.
Qed.

Lemma fs_truncate_file_ok len : io_fits len -> (forall a, api_of_handle w f = Some a -> is_Some (api_truncate a)) ->
  wp (fs_truncate_file h len) w (fun r w' => settled w w' /\
    on_api w f (fun a => exists g, api_truncate a = Some g /\ ran (g (h_cookie f) len) w r w')).
Proof.
  intros Hf Ht. destruct (Wf_rep w Hw) as [Hrep Hok]. destruct file_not_null as [Hh0 _]. unfold fs_truncate_file. rewrite (proj2 (Z.eqb_neq _ _)) by done.
  apply (on_file w h f (fun f a => truncate ← call (api_truncate a); on_env (truncate (h_cookie f) len)) _ Hw Hh). intros m a Hm Ha Hl Hin.
  destruct (Ht _ (api_of_handle_eq w f m a Hm Ha)) as [t He]. unfold call. wp_step. exists t. split; [done|].
  apply keeps_ok; [done|by eapply (l_truncate _ _ Hl)|]. intros r w' ? ?. split; [done|]. eapply on_api_intro; [done|done|]. by exists t.
Qed.

Lemma fs_file_ioctl_ok req argp : wp (fs_file_ioctl h req argp) w (fun r w' => settled w w' /\
  on_api w f (fun a => hook_answer (api_file_ioctl a) (fun g => g (h_cookie f) req argp) ERR_INVALID_ARGS w r w')).
Proof.
  destruct (Wf_rep w Hw) as [Hrep Hok]. destruct file_not_null as [Hh0 Hm0]. unfold fs_file_ioctl. rewrite (proj2 (Z.eqb_neq h 0)) by done.
  destruct (handle_ok w h _ f Hw Hh eq_refl) as (m & a & Hm & Ha & _ & Hin). wp_step. eapply wp_file_at; [done|].
  rewrite (proj2 (Z.eqb_neq _ _)) by done. wp_step. eapply wp_mount_api; [done|done|].
  destruct (api_file_ioctl (impl_api a)) as [ioctl|] eqn:He.
  - apply keeps_ok; [done|by eapply (l_ioctl _ _ (fs_laws _ _ Ha))|]. intros r w' ? ?. split; [done|]. eapply on_api_intro; [done|done|]. by rewrite He.
  - wp_step. split; [by apply settled_refl|]. eapply on_api_intro; [done|done|]. by rewrite He.
Qed.

(** A handle ends, or the hook's error is passed on. *)
Definition close_answer (hook : M K Z) (r : Z) w' : Prop := exists err k, hook (env w) = Some (err, k) /\
  if err <? 0 then r = err /\ w' = with_env k w else r = 0 /\ dropped h f w w'.

Lemma fs_close_file_ok : wp (fs_close_file h) w (fun r w' => settled w w' /\ on_api w f (fun a => close_answer (api_close a (h_cookie f)) r w')).
Proof.
  destruct (Wf_rep w Hw) as [Hrep Hok]. unfold fs_close_file. destruct (handle_ok w h _ f Hw Hh eq_refl) as (m0 & a0 & Hm0 & _ & Hheld & _).
  apply (on_file w h f (fun f a => err ← on_env (api_close a (h_cookie f)); end_handle h (h_mount f) err) _ Hw Hh). intros m a Hm Ha Hl Hin.
  rewrite Hm in Hm0. injection Hm0 as <-. wp_step. apply wp_env_ran. eapply wp_mono; [by apply (l_close _ _ Hl _ _ _ _ Hok Hrep Hin)|]. intros err k [Hst Hr] Hran.
  eapply wp_mono; [apply (end_handle_ok w k h (OFile f) f err Hw Hh eq_refl Hst); by rewrite Hheld|].
  intros r w' [Hset Hr']. split; [done|]. eapply on_api_intro; [done|done|]. by exists err, k.
Qed.
End file.

Lemma fs_read_dir_ok w h f : Wf w -> objs w !! h = Some (ODir f) -> wp (fs_read_dir h) w (fun r w' => settled w w' /\
  on_api w f (fun a => hook_answer (api_readdir a) (fun g => g (h_cookie f)) (ERR_NOT_SUPPORTED, None) w r w')).
Proof.
  intros Hw Hh. destruct (Wf_rep w Hw) as [Hrep Hok]. unfold fs_read_dir. apply (on_dir w h f _ _ Hw Hh). intros m a Hm Ha Hl Hin.
  destruct (api_readdir (impl_api a)) as [readdir|] eqn:He.
  - apply keeps_ok; [done|by eapply (l_readdir _ _ Hl)|]. intros r w' ? ?. split; [done|]. eapply on_api_intro; [done|done|]. by rewrite He.
  - wp_step. split; [by apply settled_refl|]. eapply on_api_intro; [done|done|]. by rewrite He.
Qed.

Lemma fs_close_dir_ok w h f : Wf w -> objs w !! h = Some (ODir f) -> wp (fs_close_dir h) w (fun r w' => settled w w' /\ on_api w f (fun a => match api_closedir a with
    | Some closedir => close_answer w h f (closedir (h_cookie f)) r w'
    | None => r = ERR_NOT_SUPPORTED /\ w' = w
    end)).
Proof.
  intros Hw Hh. destruct (Wf_rep w Hw) as [Hrep Hok]. unfold fs_close_dir. destruct (handle_ok w h _ f Hw Hh eq_refl) as (m0 & a0 & Hm0 & _ & Hheld & _).
  apply (on_dir w h f (fun f a => match api_closedir a with None => mret ERR_NOT_SUPPORTED |
    Some closedir => err ← on_env (closedir (h_cookie f)); end_handle h (h_mount f) err end) _ Hw Hh). intros m a Hm Ha Hl Hin.
  rewrite Hm in Hm0. injection Hm0 as <-. destruct (api_closedir (impl_api a)) as [closedir|] eqn:He.
  - wp_step. apply wp_env_ran. eapply wp_mono; [by apply (l_closedir _ _ Hl _ _ _ _ _ He Hok Hrep Hin)|]. intros err k [Hst Hr] Hran.
    eapply wp_mono; [apply (end_handle_ok w k h (ODir f) f err Hw Hh eq_refl Hst); by rewrite Hheld|].
    intros r w' [Hset Hr']. split; [done|]. eapply on_api_intro; [done|done|]. rewrite He. by exists err, k.
  - wp_step. split; [by apply settled_refl|]. eapply on_api_intro; [done|done|]. by rewrite He.
Qed.

(** * Formatting: the device stays open *)

Definition format_answer (fsname device : list Z) (args : Z) w (r : Z) w' : Prop :=
  match find_fs fsname with
  | None => r = ERR_NOT_FOUND /\ w' = w
  | Some i => exists a, fs_impls !! i = Some a /\ match api_format (impl_api a) with
      | None => r = ERR_NOT_SUPPORTED /\ w' = w
      | Some format => exists dev w1, opens device w dev w1 /\
          if no_device device dev then r = ERR_NOT_FOUND /\ w' = w1 else ran (format dev args) w1 r w'
      end
  end.

Lemma fs_format_device_ok w fsname device args : Wf w -> (device ≠ [] -> dev_spare (env w)) ->
  wp (fs_format_device fsname device args) w (fun r w' => Wf w' /\ same w w' /\ format_answer fsname device args w r w' /\
    exists dev, (device = [] -> dev = 0) /\ forall d, d ≠ 0 -> other w' d = other w d + extra dev d).
Proof.
  intros Hw Hsp. unfold fs_format_device, format_answer. destruct (find_fs fsname) as [i|] eqn:Hf.
  2: { wp_step. split_and!; try done. exists 0. split; [done|]. intros d _. unfold extra. rewrite bool_decide_eq_false_2; [lia|]. by intros [? _]. }
  assert (exists a, fs_impls !! i = Some a) as [a Ha].
  { unfold find_fs in Hf. apply fmap_Some in Hf as ([j a] & Hj & ->). apply list_find_Some in Hj as (Hj & _). by exists a. }
  wp_step. eapply wp_api_of; [done|]. destruct (api_format (impl_api a)) as [format|] eqn:He.
  2: { wp_step. split_and!; try done; [exists a; by rewrite He|]. exists 0. split; [done|]. intros d _. unfold extra. rewrite bool_decide_eq_false_2; [lia|]. by intros [? _]. }
  wp_step. eapply wp_mono; [by apply open_device_ok|]. intros dev w1 (Hnd & Hop & k & -> & Hw1 & Ho1).
  fold (no_device device dev). destruct (no_device device dev) eqn:Hno.
  { wp_step. split_and!; try done; [|by exists dev]. exists a. split; [done|]. rewrite He. exists dev, (with_env k w). by rewrite Hno. }
  destruct (Wf_rep _ Hw1) as [Hrep Hok].
  apply (keeps_ok (format dev args) (with_env k w)); [done|by eapply (l_format _ _ (fs_laws _ _ Ha))|]. intros r w2 [Hw2 Ho2] Hs2.
  split; [done|]. split; [by destruct Hs2|]. split.
  { exists a. split; [done|]. rewrite He. exists dev, (with_env k w). by rewrite Hno. }
  exists dev. split; [done|]. intros d Hd. by rewrite Ho2, Ho1.
Qed.

(** * Loading a file *)

Lemma settled_trans w w1 w2 : settled w w1 -> settled w1 w2 -> settled w w2.
Proof. intros [_ H1] [Hw H2]. split; [done|]. intros d Hd. by rewrite H2, H1. Qed.

Lemma handle_closed p m c h w w1 w2 : objs w !! p = Some (OMount m) -> 1 <= m_ref m -> gets_handle OFile p m c h w w1 -> dropped h (MkHandle c p) w1 w2 -> same w w2.
Proof.
  intros Hp Hr (Hh0 & Hh & E1) (m1 & Hm1 & E2). cbn [h_mount] in *. assert (p ≠ h) by congruence. unfold same. rewrite E1 in *. cbn [f_objs f_mounts] in *.
  rewrite lookup_insert_ne, lookup_insert_eq in Hm1 by done. injection Hm1 as <-. cbn [set_mref m_ref] in E2. rewrite (proj2 (Z.eqb_neq _ _)) in E2 by lia.
  rewrite E2. replace (m_ref m + 1 - 1) with (m_ref m) by lia. rewrite insert_insert_ne, delete_insert_eq by done.
  rewrite delete_id by by rewrite insert_insert_eq, lookup_insert_ne. rewrite insert_insert_eq, insert_id; [by destruct w as [[] ?]|].
  by destruct m.
Qed.

(** The file is opened, sized, read and closed; the bytes of the read are the answer, or the error of the open. *)
Definition load_answer (junk : Z) (path : list Z) (maxlen : Z) w (r : Z * list (option Z)) w' : Prop :=
  exists x w1, open_answer OFile (fun a => Some (api_open a)) path w x w1 /\
    match x.2 with
    | None => r = (x.1, []) /\ w' = w1
    | Some h => exists f sz w2 w3 err, objs w1 !! h = Some (OFile f) /\
        on_api w1 f (fun a => ran (api_stat a (h_cookie f)) w1 sz w2) /\
        on_api w2 f (fun a => ran (api_read a (h_cookie f) 0 (Z.min maxlen (default junk sz.2))) w2 r w3) /\
        on_api w3 f (fun a => close_answer w3 h f (api_close a (h_cookie f)) err w')
    end.

(** An error of the open is passed on; a file that is closed again leaves nothing. *)
Lemma fs_load_file_ok w junk path maxlen : Wf w -> small w -> 0 <= junk -> 0 <= maxlen < 2 ^ 63 ->
  wp (fs_load_file junk path maxlen) w (fun r w' => settled w w' /\ load_answer junk path maxlen w r w' /\
    (same w w' \/ exists p m c h, objs w !! p = Some (OMount m) /\ gets_handle OFile p m c h w w')).
Proof.
  intros Hw Hs Hj Hml. unfold fs_load_file. wp_step. eapply wp_mono; [by apply fs_open_file_ok|]. intros [err h] w1 [Hset Ha]. pose proof Ha as Hans. unfold open_answer in Ha.
  destruct (cover w (temppath path)) as [[p rest]|]; [|destruct Ha as [[= -> ->] ->]; cbn; wp_step; split_and!; [done|by eexists _, w|by left]].
  destruct Ha as (m & a & Hp & Himpl & e0 & c & k & Hk & Ha). destruct (e0 <? 0) eqn:He0.
  - destruct Ha as [[= -> ->] ->]. rewrite He0. wp_step. split_and!; [done|by eexists _, (with_env k w)|by left].
  - destruct Ha as (hd & [= -> ->] & _ & Hg). cbn [Z.ltb]. change (0 <? 0) with false. cbn. unfold call. wp_step. exists hd. split; [done|]. wp_step. destruct Hset as [Hw1 Ho1].
    assert (objs w1 !! hd = Some (OFile (MkHandle c p))) as Hhd by (destruct Hg as (_ & _ & ->); apply lookup_insert_eq).
    eapply wp_mono; [by apply (fs_stat_file_ok w1 Hw1 hd _ Hhd)|]. intros [st sz] w2 ([Hw2 Ho2] & Hst2 & Hsz). wp_step. cbn [snd] in Hsz.
    assert (same w1 w2) as Hs2 by (by destruct Hst2 as (? & _ & ? & _)).
    assert (0 <= default junk sz) as Hdj by (destruct sz as [n|]; [by apply Hsz|done]).
    assert (objs w2 !! hd = Some (OFile (MkHandle c p))) as Hhd2 by by rewrite Hs2.
    eapply wp_mono; [apply (fs_read_file_ok w2 Hw2 hd _ Hhd2); lia|]. intros data w3 [[Hw3 Ho3] Hrd]. wp_step.
    assert (same w2 w3) as Hs3 by (by destruct Hrd as (? & _ & ? & _)).
    assert (objs w3 !! hd = Some (OFile (MkHandle c p))) as Hhd3 by by rewrite Hs3.
    eapply wp_mono; [by apply (fs_close_file_ok w3 Hw3 hd _ Hhd3)|]. intros r w4 [[Hw4 Ho4] Hcl]. wp_step. pose proof Hcl as (ap & Hap & ec & kc & Hec & Hr).
    assert (gets_handle OFile p m c hd w w3) as Hg3 by (destruct Hg as (? & ? & Hg); split; [done|]; split; [done|]; by rewrite Hs3, Hs2).
    split; [split; [done|]; intros d Hd; by rewrite Ho4, Ho3, Ho2, Ho1|]. split.
    { exists (0, Some hd), w1. split; [exact Hans|]. exists (MkHandle c p), (st, sz), w2, w3, r. done. }
    destruct (ec <? 0); [destruct Hr as [_ ->]|destruct Hr as [_ Hdr]].
    + right. exists p, m, c, hd. split; [done|]. destruct Hg3 as (? & ? & Hg3). split; [done|]. split; [done|]. exact Hg3.
    + left. pose proof (Wf_mount w p m Hw Hp) as (_ & _ & Hr). by apply (handle_closed p m c hd w w3 w4 Hp); [lia|..].
Qed.

(** * The interface *)

Inductive op :=
| Mount (path fsname device : list Z) | Unmount (path : list Z) | FormatDevice (fsname device : list Z) (args : Z)
| OpenFile (path : list Z) | CreateFile (path : list Z) (len : Z) | OpenDir (path : list Z)
| RemoveFile (path : list Z) | MakeDir (path : list Z) | StatFs (path : list Z) (st : Z)
| ReadFile (h off len : Z) | WriteFile (h : Z) (data : list (option Z)) (off : Z) | TruncateFile (h len : Z) | StatFile (h : Z)
| FileIoctl (h req argp : Z) | CloseFile (h : Z) | ReadDir (h : Z) | CloseDir (h : Z) | LoadFile (junk : Z) (path : list Z) (maxlen : Z).

Inductive result := RStatus (r : Z) | RHandle (r : Z * option Z) | RData (r : Z * list (option Z)) | RSize (r : Z * option Z)
| REntry (r : Z * option (list Z)).

Definition returning {A} (f : A -> result) (m : M world A) : M world result := r ← m; mret (f r).

Definition run (o : op) : M world result :=
  match o with
  | Mount path fsname device => returning RStatus (fs_mount path fsname device)
  | Unmount path => returning RStatus (fs_unmount path)
  | FormatDevice fsname device args => returning RStatus (fs_format_device fsname device args)
  | OpenFile path => returning RHandle (fs_open_file path)
  | CreateFile path len => returning RHandle (fs_create_file path len)
  | OpenDir path => returning RHandle (fs_open_dir path)
  | RemoveFile path => returning RStatus (fs_remove_file path)
  | MakeDir path => returning RStatus (fs_make_dir path)
  | StatFs path st => returning RStatus (fs_stat_fs path st)
  | ReadFile h off len => returning RData (fs_read_file h off len)
  | WriteFile h data off => returning RStatus (fs_write_file h data off)
  | TruncateFile h len => returning RStatus (fs_truncate_file h len)
  | StatFile h => returning RSize (fs_stat_file h)
  | FileIoctl h req argp => returning RStatus (fs_file_ioctl h req argp)
  | CloseFile h => returning RStatus (fs_close_file h)
  | ReadDir h => returning REntry (fs_read_dir h)
  | CloseDir h => returning RStatus (fs_close_dir h)
  | LoadFile junk path maxlen => returning RData (fs_load_file junk path maxlen)
  end.

(** What a caller must keep to: handles are open ones, a mount is unmounted
    once, and what a file system asks of sizes and of removed files. *)
Definition op_ok w (o : op) : Prop :=
  small w /\
  match o with
  | Mount _ _ device | FormatDevice _ device _ => device ≠ [] -> dev_spare (env w)
  | Unmount path => forall p rest, cover w (temppath path) = Some (p, rest) -> base (objs w) p = 1
  | CreateFile _ len => io_fits len
  | RemoveFile path => forall p rest m, cover w (temppath path) = Some (p, rest) -> objs w !! p = Some (OMount m) ->
      remove_ok (env w) (view_of (objs w)) (m_api m) (m_cookie m) rest
  | ReadFile h off len => (exists f, objs w !! h = Some (OFile f)) /\ 0 <= len /\ off + len < 2 ^ 63
  | StatFile h | CloseFile h => exists f, objs w !! h = Some (OFile f)
  | LoadFile junk _ maxlen => 0 <= junk /\ 0 <= maxlen < 2 ^ 63
  | WriteFile h data off => (exists f, objs w !! h = Some (OFile f)) /\ io_fits (off + Z.of_nat (length data))
  | TruncateFile h len => h = 0 \/ ((exists f, objs w !! h = Some (OFile f) /\ forall a, api_of_handle w f = Some a -> is_Some (api_truncate a)) /\ io_fits len)
  | FileIoctl h _ _ => h = 0 \/ exists f, objs w !! h = Some (OFile f)
  | ReadDir h | CloseDir h => exists f, objs w !! h = Some (ODir f)
  | _ => True
  end.

Definition stat_hook (st : Z) (a : fs_api K) : option (Z -> list Z -> M K Z) := (fun f c (_ : list Z) => f c st) <$> api_fs_stat a.

(** The answer of a call and the tables it leaves. *)
Definition answer w (o : op) (r : result) w' : Prop :=
  match o with
  | Mount path fsname device => exists x, r = RStatus x /\ match find_fs fsname with
      | None => x = ERR_NOT_FOUND /\ w' = w
      | Some i => mount_answer path device i w x w'
      end
  | Unmount path => match cover w (temppath path) with
      | None => r = RStatus ERR_NOT_FOUND /\ w' = w
      | Some (p, _) => r = RStatus 0 /\ unmounted p w w'
      end
  | FormatDevice fsname device args => exists x, r = RStatus x /\ same w w' /\ format_answer fsname device args w x w'
  | OpenFile path => exists x, r = RHandle x /\ open_answer OFile (fun a => Some (api_open a)) path w x w'
  | CreateFile path len => exists x, r = RHandle x /\ open_answer OFile (create_hook len) path w x w'
  | OpenDir path => exists x, r = RHandle x /\ open_answer ODir api_opendir path w x w'
  | RemoveFile path => exists x, r = RStatus x /\ path_answer w (temppath path) api_remove x w'
  | MakeDir path => exists x, r = RStatus x /\ path_answer w (temppath path) api_mkdir x w'
  | StatFs path st => exists x, r = RStatus x /\
      if st =? 0 then x = ERR_INVALID_ARGS /\ w' = w else path_answer w path (stat_hook st) x w'
  | ReadFile h off len => exists f x, objs w !! h = Some (OFile f) /\ r = RData x /\
      on_api w f (fun a => ran (api_read a (h_cookie f) off len) w x w')
  | WriteFile h data off => exists f x, objs w !! h = Some (OFile f) /\ r = RStatus x /\
      on_api w f (fun a => hook_answer (api_write a) (fun g => g (h_cookie f) data off) ERR_NOT_SUPPORTED w x w')
  | StatFile h => exists f x, objs w !! h = Some (OFile f) /\ r = RSize x /\
      on_api w f (fun a => ran (api_stat a (h_cookie f)) w x w')
  | ReadDir h => exists f x, objs w !! h = Some (ODir f) /\ r = REntry x /\
      on_api w f (fun a => hook_answer (api_readdir a) (fun g => g (h_cookie f)) (ERR_NOT_SUPPORTED, None) w x w')
  | TruncateFile h len => (h = 0 /\ r = RStatus ERR_INVALID_ARGS /\ w' = w) \/
      exists f x, objs w !! h = Some (OFile f) /\ r = RStatus x /\
        on_api w f (fun a => exists g, api_truncate a = Some g /\ ran (g (h_cookie f) len) w x w')
  | FileIoctl h req argp => (h = 0 /\ r = RStatus ERR_INVALID_ARGS /\ w' = w) \/
      exists f x, objs w !! h = Some (OFile f) /\ r = RStatus x /\
        on_api w f (fun a => hook_answer (api_file_ioctl a) (fun g => g (h_cookie f) req argp) ERR_INVALID_ARGS w x w')
  | CloseFile h => exists f x, objs w !! h = Some (OFile f) /\ r = RStatus x /\
      on_api w f (fun a => close_answer w h f (api_close a (h_cookie f)) x w')
  | CloseDir h => exists f x, objs w !! h = Some (ODir f) /\ r = RStatus x /\
      on_api w f (fun a => match api_closedir a with
        | Some closedir => close_answer w h f (closedir (h_cookie f)) x w'
        | None => x = ERR_NOT_SUPPORTED /\ w' = w
        end)
  | LoadFile junk path maxlen => exists x, r = RData x /\ load_answer junk path maxlen w x w' /\
      (same w w' \/ exists p m c h, objs w !! p = Some (OMount m) /\ gets_handle OFile p m c h w w')
  end.

(** The handle of a device that a call leaves open. *)
Definition device_left (o : op) w w' : Prop :=
  match o with
  | FormatDevice _ device _ => exists dev, (device = [] -> dev = 0) /\ forall d, d ≠ 0 -> other w' d = other w d + extra dev d
  | _ => forall d, d ≠ 0 -> other w' d = other w d
  end.

Lemma wp_returning {A} (f : A -> result) (m : M world A) w Q : wp (returning f m) w Q <-> wp m w (fun r w' => Q (f r) w').
Proof. unfold returning. wp_step. split; intros Hm; (eapply wp_mono; [exact Hm|]); intros r w'; by wp_step. Qed.

Lemma settled_left o w w' : settled w w' -> Wf w' /\ device_left o w w'.
Proof.
  intros [Hw Ho]. split; [done|]. destruct o; try exact Ho. exists 0. split; [done|]. intros d Hd. rewrite Ho by done. unfold extra.
  rewrite bool_decide_eq_false_2; [lia|]. by intros [? _].
Qed.

Lemma path_call_ok o w path hook : Wf w -> small w ->
  (forall p rest m a f, cover w path = Some (p, rest) -> objs w !! p = Some (OMount m) -> fs_impls !! m_api m = Some a -> hook (impl_api a) = Some f ->
    keeps (f (m_cookie m) rest) (env w) (view_of (objs w))) ->
  wp (on_path path hook) w (fun r w' => Wf w' /\ device_left o w w' /\ exists x, RStatus r = RStatus x /\ path_answer w path hook x w').
Proof.
  intros Hw Hs Hk. eapply wp_mono; [by apply on_path_ok|]. intros r w' [Hset Ha]. destruct (settled_left o w w' Hset). split_and!; try done. by exists r.
Qed.

Lemma answered o w w' (P : Prop) : settled w w' -> P -> Wf w' /\ device_left o w w' /\ P.
Proof. intros Hset HP. destruct (settled_left o w w' Hset). auto. Qed.

Lemma run_mount_ok w path fsname device : Wf w -> op_ok w (Mount path fsname device) ->
  wp (run (Mount path fsname device)) w (fun r w' => Wf w' /\ device_left (Mount path fsname device) w w' /\ answer w (Mount path fsname device) r w').
Proof.
  intros Hw [Hs Hsp]. cbn [run answer]. rewrite wp_returning. unfold fs_mount. destruct (find_fs fsname) as [i|] eqn:Hf.
  - assert (is_Some (fs_impls !! i)) as Hi.
    { unfold find_fs in Hf. apply fmap_Some in Hf as ([j a] & Hj & ->). apply list_find_Some in Hj as (Hj & _). by exists a. }
    eapply wp_mono; [by apply mount_ok|]. intros r w' [Hset Ha]. apply answered; [done|]. by exists r.
  - wp_step. apply answered; [by apply settled_refl|]. by exists ERR_NOT_FOUND.
Qed.

(** C12. Every call of lib/fs returns and keeps the mount table well-formed, over file systems
    that keep the contract of the hooks (FsLaws): each mount has a path, a live cookie and
    a count of one for the table (none once unmounted) and one for each open file or
    directory; handles belong to mounts; the file systems hold exactly what was handed
    out. A path finds the first mount whose path it starts with; the call then runs that
    file system's hook on its arguments and returns what the hook returns, or the error
    for a missing hook; handles go to their file system the same way. A failed call leaves
    no reference, the last one gives back cookie and device. Conditions: open handles; no
    second unmount with a file open; truncate only with a hook; sizes and removals the
    file system allows; read and load sizes from 0, ends below 2^63; small counts; an
    allocator that never fails, devices that can be opened. Device handles balance but for
    fs_format_device. *)
Theorem mounts_kept w o : Wf w -> op_ok w o ->
  exists r w', run o w = Some (r, w') /\ Wf w' /\ device_left o w w' /\ answer w o r w'.
Proof.
  intros Hw Hok. assert (wp (run o) w (fun r w' => Wf w' /\ device_left o w w' /\ answer w o r w')) as Hrun;
    [|destruct (proj1 (wp_run _ _ _) Hrun) as (r & w' & ? & ?); by exists r, w'].
  pose proof Hok as [Hs Ho]. destruct (Wf_rep w Hw) as [Hrep Hal]. pose proof (settled_refl w Hw) as Hrefl.
  destruct o; try (by apply run_mount_ok); cbn [run answer op_ok] in *; rewrite ?wp_returning.
  - eapply wp_mono; [by apply fs_unmount_ok|]. intros r w' [Hset Ha]. apply answered; [done|].
    destruct (cover w (temppath path)) as [[p rest]|]; destruct Ha as [-> ?]; done.
  - eapply wp_mono; [by apply fs_format_device_ok|]. intros r w' (? & ? & ? & ?). split_and!; try done. by exists r.
  - eapply wp_mono; [by apply fs_open_file_ok|]. intros r w' [Hset Ha]. apply answered; [done|]. by exists r.
  - eapply wp_mono; [by apply fs_create_file_ok|]. intros r w' [Hset Ha]. apply answered; [done|]. by exists r.
  - eapply wp_mono; [by apply fs_open_dir_ok|]. intros r w' [Hset Ha]. apply answered; [done|]. by exists r.
  - eapply wp_mono; [apply (path_call_ok (RemoveFile path)); [done|done|]|by intros]. intros p rest m a f Hc Hp Ha Hf.
    apply (l_remove _ _ (fs_laws _ _ Ha) f); [done|done|done|by apply live_item with p|by eapply Ho].
  - eapply wp_mono; [apply (path_call_ok (MakeDir path)); [done|done|]|by intros]. intros p rest m a f Hc Hp Ha Hf.
    apply (l_mkdir _ _ (fs_laws _ _ Ha) f); [done|done|done|by apply live_item with p].
  - unfold fs_stat_fs. destruct (st =? 0); [wp_step; apply answered; [done|by eexists]|].
    apply (path_call_ok (StatFs path st) w path (stat_hook st) Hw Hs).
    intros p rest m a f Hc Hm Ha Hf. apply fmap_Some in Hf as (g & Hg & ->). apply (l_fs_stat _ _ (fs_laws _ _ Ha) g); [done|done|done|by apply live_item with p].
  - destruct Ho as ([f Hh] & ? & ?). eapply wp_mono; [by apply (fs_read_file_ok w Hw h f)|]. intros r w' [Hset Ha]. apply answered; [done|]. by exists f, r.
  - destruct Ho as [[f Hh] Hio]. eapply wp_mono; [by apply (fs_write_file_ok w Hw h f)|]. intros r w' [Hset Ha]. apply answered; [done|]. by exists f, r.
  - destruct Ho as [->|[(f & Hh & Ht) Hio]]; [wp_step; apply answered; [done|by left]|]. destruct (file_not_null w Hw h f Hh) as [Hh0 _].
    eapply wp_mono; [by apply (fs_truncate_file_ok w Hw h f)|]. intros r w' [Hset Ha]. apply answered; [done|]. right. by exists f, r.
  - destruct Ho as [f Hh]. eapply wp_mono; [by apply (fs_stat_file_ok w Hw h f)|]. intros r w' (Hset & Ha & _). apply answered; [done|]. by exists f, r.
  - destruct Ho as [->|[f Hh]]; [wp_step; apply answered; [done|by left]|]. destruct (file_not_null w Hw h f Hh) as [Hh0 _].
    eapply wp_mono; [by apply (fs_file_ioctl_ok w Hw h f)|]. intros r w' [Hset Ha]. apply answered; [done|]. right. by exists f, r.
  - destruct Ho as [f Hh]. eapply wp_mono; [by apply (fs_close_file_ok w Hw h f)|]. intros r w' [Hset Ha]. apply answered; [done|]. by exists f, r.
  - destruct Ho as [f Hh]. eapply wp_mono; [by apply (fs_read_dir_ok w h f)|]. intros r w' [Hset Ha]. apply answered; [done|]. by exists f, r.
  - destruct Ho as [f Hh]. eapply wp_mono; [by apply (fs_close_dir_ok w h f)|]. intros r w' [Hset Ha]. apply answered; [done|]. by exists f, r.
  - destruct Ho as [? ?]. eapply wp_mono; [by apply fs_load_file_ok|]. intros r w' (Hset & Hl & Ha). apply answered; [done|]. by exists r.
Qed.
End calls.
End FsCalls.
