(* ===== verification/MemFs.v ===== *)
(** The file system in memory, [lib/fs/memfs/memfs.c], over an allocator; its
    calls hold the lock of the file system, so they are atomic. *)
From S2P Require Import Prelude WaitLib FsLib Fs.
Local Open Scope Z_scope.

Module MemFs.
Import WaitLib FsLib.

Definition ERR_ALREADY_EXISTS : Z := -14.

(** What [malloc] was asked for: a file system with its files and directory
    cookies, in order; a file; a cookie with the file it returns next (0 for
    none); a block of bytes.  A file's name [mf_str] is the string at [mf_name],
    its data [mf_data] the block at [mf_ptr], where a byte nobody wrote is [None]. *)
Record memfs_t := MkMemfs { ms_files : list Z; ms_dcookies : list Z }.
Record memfs_file_t := MkFile { mf_fs : Z; mf_name : Z; mf_str : list Z; mf_ptr : Z; mf_data : list (option Z); mf_len : Z }.
Record dircookie := MkDcookie { dc_fs : Z; dc_next : Z }.
Inductive mobject := MFs (s : memfs_t) | MFile (f : memfs_file_t) | MDir (d : dircookie) | MBlock.

Definition sizeof_memfs_t : Z := 88.
Definition sizeof_memfs_file_t : Z := 48.
Definition sizeof_dircookie : Z := 32.
Definition ULONG_MAX : Z := 2 ^ 64 - 1.

(** [realloc], of a block that is not null. *)
Class ReallocOps (H : Type) := realloc : Z -> Z -> M H Z.

(** [trim_name] on the value of a string. *)
Fixpoint skip (c : Z) (l : list Z) : list Z :=
  match l with [] => [] | b :: t => if b =? c then skip c t else l end.
Definition trim_name (name : list Z) : list Z := skip 47 (skip 32 name).

Section memfs.
Context {H : Type} `{!AllocOps H, !ReallocOps H}.

Record world := MkWorld { w_objs : gmap Z mobject; w_heap : H }.
Abbreviation B := (M world).

Definition on_heap {A} (m : M H A) : B A := fun w =>
  match m (w_heap w) with Some (a, h) => Some (a, MkWorld (w_objs w) h) | None => None end.
Definition obj_at (p : Z) : B mobject := deref (fun w => w_objs w !! p).
Definition fs_at (p : Z) : B memfs_t := o ← obj_at p; match o with MFs s => mret s | _ => fault end.
Definition file_at (p : Z) : B memfs_file_t := o ← obj_at p; match o with MFile f => mret f | _ => fault end.
Definition dir_at (p : Z) : B dircookie := o ← obj_at p; match o with MDir d => mret d | _ => fault end.
Definition block_at (p : Z) : B unit := o ← obj_at p; match o with MBlock => mret tt | _ => fault end.
Definition store (p : Z) (o : mobject) : B unit := modify (fun w => MkWorld (<[p := o]> (w_objs w)) (w_heap w)).
Definition release (p : Z) : B unit :=
  if p =? 0 then mret tt else
  _ ← obj_at p; _ ← modify (fun w => MkWorld (delete p (w_objs w)) (w_heap w)); on_heap (free p).
Definition strdup (s : list Z) : B Z :=
  p ← on_heap (malloc (Z.of_nat (length s) + 1));
  if p =? 0 then mret 0 else _ ← store p MBlock; mret p.
(** A block of another size: its bytes, and bytes nobody wrote. *)
Definition resize (n : Z) (l : list (option Z)) : list (option Z) :=
  take (Z.to_nat n) l ++ replicate (Z.to_nat n - length l) None.
Definition realloc_block (p n : Z) : B Z :=
  _ ← block_at p;
  q ← on_heap (realloc p n);
  if q =? 0 then mret 0
  else _ ← modify (fun w => MkWorld (<[q := MBlock]> (delete p (w_objs w))) (w_heap w)); mret q.
(** The bytes of a block from [off] on; reading and writing behind its end faults. *)
Definition inside (f : memfs_file_t) (off len : Z) : bool := (len =? 0) || (off + len <=? Z.of_nat (length (mf_data f))).

(** The loop of [find_file]. *)
Fixpoint find_in (l : list Z) (name : list Z) : B Z :=
  match l with
  | [] => mret 0
  | p :: l =>
      f ← file_at p; _ ← block_at (mf_name f);
      if bool_decide (name = mf_str f) then mret p else find_in l name
  end.
Definition find_file (mem : Z) (name : list Z) : B Z := s ← fs_at mem; find_in (ms_files s) name.

Definition memfs_mount (dev : Z) : B (Z * Z) :=
  mem ← on_heap (malloc sizeof_memfs_t);
  if mem =? 0 then mret (ERR_NO_MEMORY, 0)
  else _ ← store mem (MFs (MkMemfs [] [])); mret (NO_ERROR, mem).

Definition free_file (file : Z) : B unit :=
  f ← file_at file; _ ← release (mf_ptr f); _ ← release (mf_name f); release file.

(** Takes the first file off the list until there is none. *)
Fixpoint free_files (fuel : nat) (mem : Z) : B unit :=
  match fuel with
  | O => fault
  | S fuel =>
      s ← fs_at mem;
      match ms_files s with
      | [] => mret tt
      | file :: l => _ ← store mem (MFs (MkMemfs l (ms_dcookies s))); _ ← free_file file; free_files fuel mem
      end
  end.
Definition memfs_unmount (mem : Z) : B Z :=
  s ← fs_at mem;
  _ ← free_files (S (length (ms_files s))) mem;
  _ ← release mem;
  mret NO_ERROR.

Definition memfs_create (mem : Z) (name : list Z) (len : Z) : B (Z * Z) :=
  if ULONG_MAX <=? len then mret (ERR_NO_MEMORY, 0)
  else
    let name := trim_name name in
    if bool_decide (47 ∈ name) then mret (Fs.ERR_NOT_SUPPORTED, 0)
    else
      found ← find_file mem name;
      if negb (found =? 0) then mret (ERR_ALREADY_EXISTS, 0)
      else
        file ← on_heap (malloc sizeof_memfs_file_t);
        if file =? 0 then mret (ERR_NO_MEMORY, 0)
        else
          ptr ← on_heap (calloc 1 len);
          if ptr =? 0 then _ ← on_heap (free file); mret (ERR_NO_MEMORY, 0)
          else
            _ ← store ptr MBlock;
            s ← strdup name;
            _ ← store file (MFile (MkFile mem s name ptr (replicate (Z.to_nat len) (Some 0)) len));
            fs ← fs_at mem;
            _ ← store mem (MFs (MkMemfs (ms_files fs ++ [file]) (ms_dcookies fs)));
            mret (NO_ERROR, file).

Definition memfs_open (mem : Z) (name : list Z) : B (Z * Z) :=
  file ← find_file mem (trim_name name);
  if file =? 0 then mret (ERR_NOT_FOUND, 0) else mret (NO_ERROR, file).

Definition memfs_remove (mem : Z) (name : list Z) : B Z :=
  file ← find_file mem (trim_name name);
  if file =? 0 then mret ERR_NOT_FOUND
  else
    fs ← fs_at mem;
    _ ← store mem (MFs (MkMemfs (filter (fun p => p ≠ file) (ms_files fs)) (ms_dcookies fs)));
    _ ← free_file file;
    mret NO_ERROR.

Definition memfs_close (file : Z) : B Z := mret NO_ERROR.

(** [off] and [len] are added as 64-bit numbers without a sign. *)
Definition memfs_read (file off len : Z) : B (Z * list (option Z)) :=
  if off <? 0 then mret (ERR_INVALID_ARGS, [])
  else
    f ← file_at file;
    _ ← fs_at (mf_fs f);
    let len := if mf_len f <=? off then 0 else if mf_len f <? u64 (off + len) then mf_len f - off else len in
    _ ← block_at (mf_ptr f);
    _ ← assert_ (inside f off len);
    mret (len, take (Z.to_nat len) (drop (Z.to_nat off) (mf_data f))).

Definition set_file (len ptr : Z) (data : list (option Z)) (f : memfs_file_t) : memfs_file_t :=
  MkFile (mf_fs f) (mf_name f) (mf_str f) ptr data len.

Definition memfs_truncate (file len : Z) : B Z :=
  f ← file_at file;
  _ ← fs_at (mf_fs f);
  if mf_len f <? len then mret ERR_INVALID_ARGS
  else
    let size := if len =? 0 then 1 else len in
    ptr ← realloc_block (mf_ptr f) size;
    if ptr =? 0 then mret ERR_NO_MEMORY
    else _ ← store file (MFile (set_file len ptr (resize size (mf_data f)) f)); mret NO_ERROR.

(** [memcpy] into the file. *)
Definition copy_to (file : Z) (buf : list (option Z)) (off : Z) : B Z :=
  f ← file_at file;
  _ ← block_at (mf_ptr f);
  _ ← assert_ (inside f off (Z.of_nat (length buf)));
  _ ← store file (MFile (set_file (mf_len f) (mf_ptr f) (list_inserts (Z.to_nat off) buf (mf_data f)) f));
  mret (Z.of_nat (length buf)).

Definition memfs_write (file : Z) (buf : list (option Z)) (off : Z) : B Z :=
  let len := Z.of_nat (length buf) in
  if off <? 0 then mret ERR_INVALID_ARGS
  else
    f ← file_at file;
    _ ← fs_at (mf_fs f);
    let end_ := u64 (off + len) in
    if mf_len f <? end_ then
      ptr ← realloc_block (mf_ptr f) end_;
      if ptr =? 0 then mret ERR_NO_MEMORY
      else _ ← store file (MFile (set_file end_ ptr (resize end_ (mf_data f)) f)); copy_to file buf off
    else copy_to file buf off.

(** The size, which is what a caller of this file system gets. *)
Definition memfs_stat (file : Z) : B (Z * option Z) :=
  f ← file_at file; _ ← fs_at (mf_fs f); mret (NO_ERROR, Some (mf_len f)).

Definition memfs_opendir (mem : Z) (name : list Z) : B (Z * Z) :=
  if negb (bool_decide (trim_name name = [])) then mret (ERR_NOT_FOUND, 0)
  else
    dir ← on_heap (malloc sizeof_dircookie);
    if dir =? 0 then mret (ERR_NO_MEMORY, 0)
    else
      fs ← fs_at mem;
      _ ← store dir (MDir (MkDcookie mem (default 0 (head (ms_files fs)))));
      _ ← store mem (MFs (MkMemfs (ms_files fs) (dir :: ms_dcookies fs)));
      mret (NO_ERROR, dir).

(** The element behind [p] in a list, 0 at its end. *)
Fixpoint next_in (l : list Z) (p : Z) : Z :=
  match l with [] => 0 | q :: l => if q =? p then default 0 (head l) else next_in l p end.

(** [ent] holds 64 characters. *)
Definition memfs_readdir (dir : Z) : B (Z * option (list Z)) :=
  d ← dir_at dir;
  fs ← fs_at (dc_fs d);
  if negb (dc_next d =? 0) then
    f ← file_at (dc_next d);
    _ ← block_at (mf_name f);
    _ ← store dir (MDir (MkDcookie (dc_fs d) (next_in (ms_files fs) (dc_next d))));
    mret (NO_ERROR, Some (take 63 (mf_str f)))
  else mret (ERR_NOT_FOUND, None).

Definition memfs_closedir (dir : Z) : B Z :=
  d ← dir_at dir;
  fs ← fs_at (dc_fs d);
  _ ← assert_ (bool_decide (dir ∈ ms_dcookies fs));
  _ ← store (dc_fs d) (MFs (MkMemfs (ms_files fs) (filter (fun p => p ≠ dir) (ms_dcookies fs))));
  _ ← release dir;
  mret NO_ERROR.

Definition memfs_api : fs_api world := {|
  api_format := None;
  api_fs_stat := None;
  api_mount := memfs_mount;
  api_unmount := memfs_unmount;
  api_open := memfs_open;
  api_create := Some memfs_create;
  api_remove := Some memfs_remove;
  api_truncate := Some memfs_truncate;
  api_stat := memfs_stat;
  api_read := memfs_read;
  api_write := Some memfs_write;
  api_close := memfs_close;
  api_mkdir := None;
  api_opendir := Some memfs_opendir;
  api_readdir := Some memfs_readdir;
  api_closedir := Some memfs_closedir;
  api_file_ioctl := None;
|}.
Definition memfs_impl : fs_impl world := MkImpl [109; 101; 109; 102; 115] memfs_api.
End memfs.

End MemFs.
