(* ===== verification/MemFsProps.v ===== *)
(** The file system in memory keeps its structures, and what its calls do to
    the files. *)
From S2P Require Import Prelude WaitLib FsLib Fs MemFs.
From stdpp Require Import gmultiset.
Local Open Scope Z_scope.

Module MemFsProps.
Import WaitLib FsLib MemFs.

#[local] Arguments disj_union : simpl never.
#[local] Arguments difference : simpl never.
#[local] Arguments singletonMS : simpl never.

Abbreviation objects := (gmap Z mobject).

Definition as_fs (o : mobject) : option memfs_t := match o with MFs s => Some s | _ => None end.
Definition as_file (o : mobject) : option memfs_file_t := match o with MFile f => Some f | _ => None end.
Definition as_dir (o : mobject) : option dircookie := match o with MDir d => Some d | _ => None end.
Definition as_block (o : mobject) : option unit := match o with MBlock => Some tt | _ => None end.

(** The file system, file, cookie or block at an address. *)
Definition fsys (L : objects) p := L !! p ≫= as_fs.
Definition file (L : objects) p := L !! p ≫= as_file.
Definition cursor (L : objects) p := L !! p ≫= as_dir.
Definition block (L : objects) p := L !! p ≫= as_block.

Section look.
Context {A} (as_ : mobject -> option A).
Lemma look_insert (L : objects) p q o : (<[p := o]> L !! q ≫= as_) = if decide (q = p) then as_ o else L !! q ≫= as_.
Proof. rewrite lookup_insert. repeat case_decide; congruence || done. Qed.
Lemma look_delete (L : objects) p q : (delete p L !! q ≫= as_) = if decide (q = p) then None else L !! q ≫= as_.
Proof. rewrite lookup_delete. repeat case_decide; congruence || done. Qed.
End look.

Lemma fsys_at L p s : fsys L p = Some s <-> L !! p = Some (MFs s).
Proof. unfold fsys. destruct (L !! p) as [[]|]; naive_solver. Qed.
Lemma file_is L p f : file L p = Some f <-> L !! p = Some (MFile f).
Proof. unfold file. destruct (L !! p) as [[]|]; naive_solver. Qed.
Lemma cursor_at L p d : cursor L p = Some d <-> L !! p = Some (MDir d).
Proof. unfold cursor. destruct (L !! p) as [[]|]; naive_solver. Qed.
Lemma block_is L p : block L p = Some tt <-> L !! p = Some MBlock.
Proof. unfold block. destruct (L !! p) as [[]|]; naive_solver. Qed.

Lemma flag_ext (P Q : Prop) `{!Decision P, !Decision Q} : (P <-> Q) -> (if bool_decide P then 1%nat else 0%nat) = (if bool_decide Q then 1%nat else 0%nat).
Proof. intros E. by rewrite (bool_decide_ext P Q). Qed.

(** The structures, and what the layer above holds of them: this file system is
    number 0 of the table. *)
Record MRep (L : objects) (v : view) : Prop := {
  r_null : L !! 0 = None;
  r_nodup c s : fsys L c = Some s -> NoDup (ms_files s) /\ NoDup (ms_dcookies s);
  r_files c s f : fsys L c = Some s -> f ∈ ms_files s -> exists x, file L f = Some x /\ mf_fs x = c;
  r_cookies c s d : fsys L c = Some s -> d ∈ ms_dcookies s -> exists x, cursor L d = Some x /\ dc_fs x = c;
  r_listed f x : file L f = Some x -> exists s, fsys L (mf_fs x) = Some s /\ f ∈ ms_files s;
  r_blocks f x : file L f = Some x -> block L (mf_name x) = Some tt /\ block L (mf_ptr x) = Some tt /\ mf_name x ≠ mf_ptr x;
  r_len f x : file L f = Some x -> 0 <= mf_len x < 2 ^ 16 /\ mf_len x <= Z.of_nat (length (mf_data x));
  r_apart f g x y : file L f = Some x -> file L g = Some y -> f ≠ g ->
    mf_name x ≠ mf_name y /\ mf_name x ≠ mf_ptr y /\ mf_ptr x ≠ mf_ptr y;
  r_unique f g x y : file L f = Some x -> file L g = Some y -> mf_fs x = mf_fs y -> mf_str x = mf_str y -> f = g;
  r_dir d x : cursor L d = Some x -> exists s, fsys L (dc_fs x) = Some s /\ d ∈ ms_dcookies s /\ (dc_next x = 0 \/ dc_next x ∈ ms_files s);
  r_live i c : multiplicity (Live i c) v = if bool_decide (i = O /\ is_Some (fsys L c)) then 1%nat else 0%nat;
  r_open i c f : File i c f ∈ v -> i = O /\ exists x, file L f = Some x /\ mf_fs x = c;
  r_dirs i c d : multiplicity (Dir i c d) v = if bool_decide (i = O /\ dc_fs <$> cursor L d = Some c) then 1%nat else 0%nat;
}.

Ltac looks := unfold fsys, file, cursor, block; repeat (rewrite look_insert || rewrite look_delete); cbn [as_fs as_file as_dir as_block].

(** ** Blocks come and go *)

Lemma MRep_block L v p : MRep L v -> p ≠ 0 -> L !! p = None -> MRep (<[p := MBlock]> L) v.
Proof.
  intros [] Hp Hn. assert (fsys L p = None /\ file L p = None /\ cursor L p = None /\ block L p = None) as (H1 & H2 & H3 & H4).
  { unfold fsys, file, cursor, block. by rewrite Hn. }
  assert (forall q, fsys (<[p := MBlock]> L) q = fsys L q) as E1 by (intros q; looks; case_decide; subst; by rewrite ?Hn).
  assert (forall q, file (<[p := MBlock]> L) q = file L q) as E2 by (intros q; looks; case_decide; subst; by rewrite ?Hn).
  assert (forall q, cursor (<[p := MBlock]> L) q = cursor L q) as E3 by (intros q; looks; case_decide; subst; by rewrite ?Hn).
  assert (forall q, block L q = Some tt -> block (<[p := MBlock]> L) q = Some tt) as E4 by (intros q; looks; case_decide; subst; by rewrite ?Hn).
  split; intros *; rewrite ?E1, ?E2, ?E3; try done; eauto.
  - by rewrite lookup_insert_ne.
  - intros Hf. destruct (r_blocks0 _ _ Hf) as (? & ? & ?). auto.
Qed.

Lemma MRep_unblock L v p : MRep L v -> block L p = Some tt -> (forall f x, file L f = Some x -> mf_name x ≠ p /\ mf_ptr x ≠ p) -> MRep (delete p L) v.
Proof.
  intros [] Hp Hn. apply block_is in Hp.
  assert (fsys L p = None /\ file L p = None /\ cursor L p = None) as (H1 & H2 & H3).
  { unfold fsys, file, cursor. by rewrite Hp. }
  assert (forall q, fsys (delete p L) q = fsys L q) as E1 by (intros q; looks; case_decide; subst; by rewrite ?Hp).
  assert (forall q, file (delete p L) q = file L q) as E2 by (intros q; looks; case_decide; subst; by rewrite ?Hp).
  assert (forall q, cursor (delete p L) q = cursor L q) as E3 by (intros q; looks; case_decide; subst; by rewrite ?Hp).
  split; intros *; rewrite ?E1, ?E2, ?E3; try done; eauto.
  - rewrite lookup_delete. by case_decide.
  - intros Hf. destruct (r_blocks0 _ _ Hf) as (? & ? & ?), (Hn _ _ Hf). looks. split_and!; [by case_decide|by case_decide|done].
Qed.

(** ** Files *)

Definition with_files (l : list Z) (s : memfs_t) : mobject := MFs (MkMemfs l (ms_dcookies s)).
Definition with_dcookies (l : list Z) (s : memfs_t) : mobject := MFs (MkMemfs (ms_files s) l).

Lemma MRep_create L v c s f x : MRep L v -> fsys L c = Some s -> f ≠ 0 -> L !! f = None -> mf_fs x = c ->
  block L (mf_name x) = Some tt -> block L (mf_ptr x) = Some tt -> mf_name x ≠ mf_ptr x -> 0 <= mf_len x < 2 ^ 16 -> mf_len x <= Z.of_nat (length (mf_data x)) ->
  (forall g y, file L g = Some y -> mf_name x ≠ mf_name y /\ mf_name x ≠ mf_ptr y /\ mf_ptr x ≠ mf_name y /\ mf_ptr x ≠ mf_ptr y) ->
  (forall g y, file L g = Some y -> mf_fs y = c -> mf_str y ≠ mf_str x) ->
  MRep (<[c := with_files (ms_files s ++ [f]) s]> (<[f := MFile x]> L)) v.
Proof.
  intros [] Hc Hf0 Hf Hx Hbn Hbp Hnp Hlen Hdl Hap Huniq. pose proof (proj1 (fsys_at _ _ _) Hc) as Hc'. assert (c ≠ f) as Hcf by congruence.
  set (L' := <[c := _]> _).
  assert (forall q, fsys L' q = if decide (q = c) then Some (MkMemfs (ms_files s ++ [f]) (ms_dcookies s)) else fsys L q) as E1.
  { intros q. unfold L'. looks. repeat case_decide; subst; try done. by rewrite Hf. }
  assert (forall q, file L' q = if decide (q = f) then Some x else file L q) as E2.
  { intros q. unfold L'. looks. repeat case_decide; subst; try done. by rewrite Hc'. }
  assert (forall q, cursor L' q = cursor L q) as E3.
  { intros q. unfold L'. looks. repeat case_decide; subst; try done; by rewrite ?Hc', ?Hf. }
  assert (forall q, block L' q = block L q) as E4.
  { intros q. unfold L'. looks. repeat case_decide; subst; try done; by rewrite ?Hc', ?Hf. }
  assert (file L f = None) as Hfn by (unfold file; by rewrite Hf).
  split; intros *; rewrite ?E1, ?E2, ?E3, ?E4; try done; eauto.
  - unfold L'. rewrite !lookup_insert_ne; try done. by intros ->; rewrite r_null0 in Hc'.
  - case_decide; [|eauto]. intros [= <-]. destruct (r_nodup0 _ _ Hc). split; [|done]. cbn. apply list.NoDup_app. split; [done|]. split; [|apply NoDup_singleton].
    intros g Hg ->%list_elem_of_singleton. destruct (r_files0 _ _ _ Hc Hg) as (y & Hy & _). congruence.
  - case_decide; [intros [= <-]|]; cbn.
    + intros [Hg|Hg%list_elem_of_singleton]%elem_of_app; [|subst; case_decide; [by exists x|done]]. destruct (r_files0 _ _ _ Hc Hg) as (y & Hy & ?).
      case_decide; [congruence|]. subst. by exists y.
    + intros Hs Hg. destruct (r_files0 _ _ _ Hs Hg) as (y & Hy & ?). case_decide; [congruence|]. by exists y.
  - case_decide; [intros [= <-]; cbn; subst; eauto|eauto].
  - case_decide; [intros [= <-]|].
    + exists (MkMemfs (ms_files s ++ [f]) (ms_dcookies s)). rewrite ?E1, decide_True by done. split; [done|]. cbn. set_solver.
    + intros Hg. destruct (r_listed0 _ _ Hg) as (t & Ht & Hin). rewrite ?E1. case_decide as F; [|by exists t]. eexists. split; [done|]. cbn.
      rewrite F, Hc in Ht. simplify_eq. set_solver.
  - case_decide; [intros [= <-]; by rewrite ?E4|]. intros Hg. rewrite ?E4. eauto.
  - case_decide; [by intros [= <-]|eauto].
  - repeat case_decide; subst; try done; [intros [= <-] Hg _|intros Hg [= <-] _|eauto].
    + destruct (Hap _ _ Hg) as (? & ? & ? & ?). done.
    + destruct (Hap _ _ Hg) as (? & ? & ? & ?). split_and!; congruence.
  - repeat case_decide; subst; try done; [intros [= <-] Hg Hfs Hstr|intros Hg [= <-] Hfs Hstr|eauto]; exfalso; by apply (Huniq _ _ Hg).
  - intros Hd. destruct (r_dir0 _ _ Hd) as (t & Ht & Hin & Hnx). rewrite ?E1. case_decide as F; [|by exists t]. eexists. split; [done|]. cbn.
    rewrite F, Hc in Ht. simplify_eq. split; [done|]. set_solver.
  - rewrite r_live0. case_decide; [|done]. subst. rewrite Hc. apply flag_ext. naive_solver.
  - intros Hin. destruct (r_open0 _ _ _ Hin) as (? & y & Hy & ?). split; [done|]. case_decide; [congruence|]. by exists y.
Qed.

(** The files of [c], but one, and its memory gone. *)
Definition drop_file (c f : Z) (x : memfs_file_t) (s : memfs_t) (L : objects) : objects :=
  delete f (delete (mf_name x) (delete (mf_ptr x) (<[c := with_files (filter (fun p => p ≠ f) (ms_files s)) s]> L))).

Lemma MRep_remove L v s f x : MRep L v -> file L f = Some x -> fsys L (mf_fs x) = Some s -> (forall i c, File i c f ∉ v) ->
  (forall d y, cursor L d = Some y -> dc_next y ≠ f) -> MRep (drop_file (mf_fs x) f x s L) v.
Proof.
  intros [] Hf Hs Hno Hcur. destruct (r_blocks0 _ _ Hf) as (Hbn & Hbp & Hnp). set (L' := drop_file _ _ _ _ _).
  pose proof (proj1 (fsys_at _ _ _) Hs) as Hs'. pose proof (proj1 (file_is _ _ _) Hf) as Hf'.
  pose proof (proj1 (block_is _ _) Hbn) as Hbn'. pose proof (proj1 (block_is _ _) Hbp) as Hbp'.
  assert (forall q, fsys L' q = if decide (q = mf_fs x) then Some (MkMemfs (filter (fun p => p ≠ f) (ms_files s)) (ms_dcookies s)) else fsys L q) as E1.
  { intros q. unfold L', drop_file. looks. repeat case_decide; subst; try congruence; by rewrite ?Hf', ?Hbn', ?Hbp'. }
  assert (forall q, file L' q = if decide (q = f) then None else file L q) as E2.
  { intros q. unfold L', drop_file. looks. repeat case_decide; subst; try congruence; by rewrite ?Hbn', ?Hbp', ?Hs'. }
  assert (forall q, cursor L' q = cursor L q) as E3.
  { intros q. unfold L', drop_file. looks. repeat case_decide; subst; try congruence; by rewrite ?Hf', ?Hbn', ?Hbp', ?Hs'. }
  assert (forall q, block L q = Some tt -> q ≠ mf_name x -> q ≠ mf_ptr x -> block L' q = Some tt) as E4.
  { intros q Hq Hq1 Hq2. unfold L', drop_file. looks. repeat case_decide; subst; try congruence; unfold block in *; try done; (by rewrite Hf' in Hq) || (by rewrite Hs' in Hq). }
  split; intros *; rewrite ?E1, ?E2, ?E3; try done; eauto.
  - unfold L', drop_file. rewrite !lookup_delete, lookup_insert. repeat case_decide; try done. congruence.
  - case_decide; [|eauto]. intros [= <-]. destruct (r_nodup0 _ _ Hs). cbn. split; [by apply list.NoDup_filter|done].
  - case_decide; [intros [= <-]; cbn|].
    + intros [Hg1 Hg]%list_elem_of_filter. destruct (r_files0 _ _ _ Hs Hg) as (y & Hy & ?). rewrite decide_False by done. subst. by exists y.
    + intros Ht Hg. destruct (r_files0 _ _ _ Ht Hg) as (y & Hy & ?). rewrite decide_False; [by exists y|]. intros ->. congruence.
  - case_decide; [intros [= <-]; cbn; subst; eauto|eauto].
  - case_decide; [done|]. intros Hg. destruct (r_listed0 _ _ Hg) as (t & Ht & Hin). rewrite ?E1. case_decide as F; [|by exists t]. eexists. split; [done|]. cbn.
    rewrite F, Hs in Ht. simplify_eq. by apply list_elem_of_filter.
  - case_decide; [done|]. intros Hg. destruct (r_blocks0 _ _ Hg) as (? & ? & ?). destruct (r_apart0 _ _ _ _ Hg Hf ltac:(done)) as (? & ? & ?).
    destruct (r_apart0 _ _ _ _ Hf Hg ltac:(done)) as (? & ? & ?). split_and!; [apply E4; [done|done|done]|apply E4; [done|congruence|done]|done].
  - case_decide; [done|eauto].
  - repeat case_decide; try done. eauto.
  - repeat case_decide; try done. eauto.
  - intros Hd. destruct (r_dir0 _ _ Hd) as (t & Ht & Hin & Hnx). rewrite ?E1. case_decide as F; [|by exists t]. eexists. split; [done|]. cbn.
    rewrite F, Hs in Ht. simplify_eq. split; [done|]. destruct Hnx as [?|Hnx]; [by left|right]. apply list_elem_of_filter. split; [|done]. eauto.
  - rewrite r_live0. case_decide; [|done]. subst. rewrite Hs. apply flag_ext. naive_solver.
  - intros Hin. destruct (r_open0 _ _ _ Hin) as (? & y & Hy & ?). split; [done|]. rewrite decide_False; [by exists y|]. intros ->. by eapply Hno.
Qed.

(** New data for a file, in its block or in another one. *)
Definition put_data (f : Z) (x : memfs_file_t) (len q : Z) (data : list (option Z)) (L : objects) : objects :=
  <[f := MFile (set_file len q data x)]> (<[q := MBlock]> (delete (mf_ptr x) L)).

Lemma MRep_data L v f x len q data : MRep L v -> file L f = Some x -> q ≠ 0 -> q = mf_ptr x \/ L !! q = None -> 0 <= len < 2 ^ 16 ->
  len <= Z.of_nat (length data) -> MRep (put_data f x len q data L) v.
Proof.
  intros [] Hf Hq0 Hq Hlen Hdl. destruct (r_blocks0 _ _ Hf) as (Hbn & Hbp & Hnp). set (L' := put_data _ _ _ _ _ _).
  pose proof (proj1 (file_is _ _ _) Hf) as Hf'. pose proof (proj1 (block_is _ _) Hbn) as Hbn'. pose proof (proj1 (block_is _ _) Hbp) as Hbp'.
  assert (q ≠ f) as Hqf by (destruct Hq; congruence). assert (q ≠ mf_name x) as Hqn by (destruct Hq; congruence).
  assert (forall p, fsys L' p = fsys L p) as E1.
  { intros p. unfold L', put_data. looks. repeat case_decide; subst; try congruence; rewrite ?Hf', ?Hbp'; try done. destruct Hq as [->|Hq]; by rewrite ?Hbp', ?Hq. }
  assert (forall p, cursor L' p = cursor L p) as E3.
  { intros p. unfold L', put_data. looks. repeat case_decide; subst; try congruence; rewrite ?Hf', ?Hbp'; try done. destruct Hq as [->|Hq]; by rewrite ?Hbp', ?Hq. }
  assert (forall p, file L' p = if decide (p = f) then Some (set_file len q data x) else file L p) as E2.
  { intros p. unfold L', put_data. looks. repeat case_decide; subst; try congruence; rewrite ?Hbp'; try done. destruct Hq as [->|Hq]; by rewrite ?Hbp', ?Hq. }
  assert (forall p, block L p = Some tt -> p ≠ mf_ptr x -> block L' p = Some tt) as E4.
  { intros p Hp Hpp. unfold L', put_data. looks. repeat case_decide; subst; try congruence; unfold block in *; try done; by rewrite Hf' in Hp. }
  assert (block L' q = Some tt) as E5 by (unfold L', put_data; looks; by rewrite decide_False, decide_True).
  assert (forall g y, file L g = Some y -> g ≠ f -> mf_name y ≠ q /\ mf_ptr y ≠ q) as Hfresh.
  { intros g y Hg Hgf. destruct (r_blocks0 _ _ Hg) as (B1 & B2 & _). destruct Hq as [->|Hq].
    - destruct (r_apart0 _ _ _ _ Hg Hf Hgf) as (? & ? & ?). done.
    - unfold block in *. split; intros F; rewrite F, Hq in *; done. }
  split; intros *; rewrite ?E1, ?E2, ?E3; try done; eauto.
  - unfold L', put_data. rewrite !lookup_insert_ne, lookup_delete_ne; try done; intros F; congruence.
  - intros Hs Hg. destruct (r_files0 _ _ _ Hs Hg) as (y & Hy & ?). case_decide; [|by exists y]. subst. rewrite Hf in Hy. simplify_eq. by eexists.
  - case_decide; [|eauto]. intros [= <-]. subst. cbn. eauto.
  - case_decide; [intros [= <-]; cbn; split_and!; [apply E4; done|done|congruence]|]. intros Hg. destruct (r_blocks0 _ _ Hg) as (? & ? & ?).
    destruct (r_apart0 _ _ _ _ Hg Hf ltac:(done)) as (? & ? & ?). split_and!; [by apply E4|by apply E4|done].
  - case_decide; [by intros [= <-]|eauto].
  - repeat case_decide; subst; try done; [intros [= <-] Hg Hne|intros Hg [= <-] Hne|eauto]; cbn.
    + destruct (r_apart0 _ _ _ _ Hf Hg Hne) as (? & ? & ?), (Hfresh _ _ Hg ltac:(done)). split_and!; congruence.
    + destruct (r_apart0 _ _ _ _ Hg Hf Hne) as (? & ? & ?), (Hfresh _ _ Hg ltac:(done)). split_and!; congruence.
  - repeat case_decide; subst; try done; [intros [= <-] Hg|intros Hg [= <-]|eauto]; cbn; eauto.
  - intros Hin. destruct (r_open0 _ _ _ Hin) as (? & y & Hy & ?). split; [done|]. case_decide; [|by exists y]. subst. rewrite Hf in Hy. simplify_eq. by eexists.
Qed.

(** ** File systems and directory cookies *)

Lemma multiplicity_one (x y : item) : multiplicity x ({[+ y +]} : view) = if bool_decide (x = y) then 1%nat else 0%nat.
Proof.
  case_bool_decide; [subst; apply multiplicity_singleton_eq|by apply multiplicity_singleton_ne].
Qed.

Lemma not_there (x : item) (v : view) : multiplicity x v = 0%nat -> x ∉ v.
Proof. intros Hm Hx. rewrite elem_of_multiplicity, Hm in Hx. lia. Qed.

Lemma MRep_mount L v c : MRep L v -> c ≠ 0 -> L !! c = None -> MRep (<[c := MFs (MkMemfs [] [])]> L) ({[+ Live 0 c +]} ⊎ v) /\ Live 0 c ∉ v.
Proof.
  intros [] Hc0 Hc. set (L' := insert _ _ _).
  assert (forall q, fsys L' q = if decide (q = c) then Some (MkMemfs [] []) else fsys L q) as E1 by (intros q; unfold L'; looks; done).
  assert (forall q, file L' q = file L q) as E2 by (intros q; unfold L'; looks; case_decide; subst; by rewrite ?Hc).
  assert (forall q, cursor L' q = cursor L q) as E3 by (intros q; unfold L'; looks; case_decide; subst; by rewrite ?Hc).
  assert (forall q, block L' q = block L q) as E4 by (intros q; unfold L'; looks; case_decide; subst; by rewrite ?Hc).
  assert (fsys L c = None) as Hcn by (unfold fsys; by rewrite Hc).
  split.
  2: { apply not_there. rewrite r_live0, Hcn. rewrite bool_decide_eq_false_2; [done|]. by intros [_ [? ?]]. }
  split; intros *; rewrite ?E1, ?E2, ?E3, ?E4; try done; eauto.
  - unfold L'. by rewrite lookup_insert_ne.
  - case_decide; [|eauto]. intros [= <-]. split; constructor.
  - case_decide; [|eauto]. intros [= <-] Hx. by apply not_elem_of_nil in Hx.
  - case_decide; [|eauto]. intros [= <-] Hx. by apply not_elem_of_nil in Hx.
  - intros Hg. destruct (r_listed0 _ _ Hg) as (t & Ht & Hin). rewrite decide_False by congruence. by exists t.
  - intros Hg. destruct (r_dir0 _ _ Hg) as (t & Ht & Hin). rewrite decide_False by congruence. by exists t.
  - rewrite multiplicity_disj_union, multiplicity_one, r_live0. case_decide as F; [subst|].
    + destruct (decide (i = O)) as [->|Hi].
      * rewrite (bool_decide_eq_true_2 (Live 0 c = Live 0 c)) by done. rewrite bool_decide_eq_false_2 by (rewrite Hcn; by intros [_ [? ?]]).
        by rewrite bool_decide_eq_true_2.
      * rewrite !bool_decide_eq_false_2; [done|intros [? _]; done|intros [? _]; done|congruence].
    + rewrite (bool_decide_eq_false_2 (Live i c0 = Live 0 c)) by congruence. done.
  - intros [Hin%gmultiset_elem_of_singleton|Hin]%gmultiset_elem_of_disj_union; [done|eauto].
  - rewrite multiplicity_disj_union, multiplicity_one, (bool_decide_eq_false_2 (Dir _ _ _ = _)) by done. apply r_dirs0.
Qed.

Lemma MRep_unmount L v c s : MRep L v -> fsys L c = Some s -> ms_files s = [] -> (forall d, Dir 0 c d ∉ v) ->
  MRep (delete c L) (v ∖ {[+ Live 0 c +]}).
Proof.
  intros [] Hc He Hd. pose proof (proj1 (fsys_at _ _ _) Hc) as Hc'. set (L' := delete _ _).
  assert (forall q, fsys L' q = if decide (q = c) then None else fsys L q) as E1 by (intros q; unfold L'; looks; done).
  assert (forall q, file L' q = file L q) as E2 by (intros q; unfold L'; looks; case_decide; subst; by rewrite ?Hc').
  assert (forall q, cursor L' q = cursor L q) as E3 by (intros q; unfold L'; looks; case_decide; subst; by rewrite ?Hc').
  assert (forall q, block L' q = block L q) as E4 by (intros q; unfold L'; looks; case_decide; subst; by rewrite ?Hc').
  split; intros *; rewrite ?E1, ?E2, ?E3, ?E4; try done; eauto.
  - unfold L'. rewrite lookup_delete. by case_decide.
  - case_decide; [done|eauto].
  - case_decide; [done|eauto].
  - case_decide; [done|eauto].
  - intros Hg. destruct (r_listed0 _ _ Hg) as (t & Ht & Hin). rewrite decide_False; [by exists t|]. intros F. rewrite F, Hc in Ht. simplify_eq.
    rewrite He in Hin. by apply not_elem_of_nil in Hin.
  - intros Hg. destruct (r_dir0 _ _ Hg) as (t & Ht & Hin). rewrite decide_False; [by exists t|]. intros F.
    apply (Hd d), elem_of_multiplicity. rewrite r_dirs0, Hg. rewrite bool_decide_eq_true_2; [lia|]. by rewrite <- F.
  - rewrite multiplicity_difference, multiplicity_one, r_live0. case_decide as F; [subst|].
    + rewrite Hc. destruct (decide (i = O)) as [->|Hi].
      * rewrite !bool_decide_eq_true_2 by done. rewrite bool_decide_eq_false_2; [done|]. by intros [_ [? ?]].
      * rewrite !bool_decide_eq_false_2; [done|intros [? _]; done|congruence|intros [? _]; done].
    + rewrite (bool_decide_eq_false_2 (Live i c0 = Live 0 c)) by congruence. lia.
  - intros Hin. apply (r_open0 i c0 f). multiset_solver.
  - rewrite multiplicity_difference, multiplicity_one, (bool_decide_eq_false_2 (Dir _ _ _ = _)) by done. rewrite r_dirs0. lia.
Qed.

Lemma MRep_opendir L v c s d nx : MRep L v -> fsys L c = Some s -> d ≠ 0 -> L !! d = None -> nx = 0 \/ nx ∈ ms_files s ->
  MRep (<[c := with_dcookies (d :: ms_dcookies s) s]> (<[d := MDir (MkDcookie c nx)]> L)) ({[+ Dir 0 c d +]} ⊎ v).
Proof.
  intros [] Hc Hd0 Hd Hnx. pose proof (proj1 (fsys_at _ _ _) Hc) as Hc'. assert (c ≠ d) as Hcd by congruence. set (L' := insert c _ _).
  assert (forall q, fsys L' q = if decide (q = c) then Some (MkMemfs (ms_files s) (d :: ms_dcookies s)) else fsys L q) as E1.
  { intros q. unfold L'. looks. repeat case_decide; subst; try done. by rewrite Hd. }
  assert (forall q, cursor L' q = if decide (q = d) then Some (MkDcookie c nx) else cursor L q) as E3.
  { intros q. unfold L'. looks. repeat case_decide; subst; try done. by rewrite Hc'. }
  assert (forall q, file L' q = file L q) as E2 by (intros q; unfold L'; looks; repeat case_decide; subst; try done; by rewrite ?Hc', ?Hd).
  assert (forall q, block L' q = block L q) as E4 by (intros q; unfold L'; looks; repeat case_decide; subst; try done; by rewrite ?Hc', ?Hd).
  assert (cursor L d = None) as Hdn by (unfold cursor; by rewrite Hd).
  split; intros *; rewrite ?E1, ?E2, ?E3, ?E4; try done; eauto.
  - unfold L'. rewrite !lookup_insert_ne; try done. by intros ->; rewrite r_null0 in Hc'.
  - case_decide; [|eauto]. intros [= <-]. destruct (r_nodup0 _ _ Hc). split; [done|]. constructor; [|done].
    intros Hin. destruct (r_cookies0 _ _ _ Hc Hin) as (y & Hy & _). congruence.
  - case_decide; [intros [= <-]; cbn; subst; eauto|eauto].
  - case_decide; [intros [= <-]; cbn|].
    + intros [->|Hin]%elem_of_cons; [rewrite decide_True by done; subst; by eexists|]. destruct (r_cookies0 _ _ _ Hc Hin) as (y & Hy & ?).
      subst. rewrite decide_False by congruence. by exists y.
    + intros Hs Hin. destruct (r_cookies0 _ _ _ Hs Hin) as (y & Hy & ?). rewrite decide_False by congruence. by exists y.
  - intros Hg. destruct (r_listed0 _ _ Hg) as (t & Ht & Hin). case_decide as F; [|by exists t]. eexists. split; [done|]. cbn. rewrite F in Ht. by simplify_eq.
  - case_decide as F; [intros [= <-]; subst|].
    + cbn. rewrite decide_True by done. eexists. split; [done|]. cbn. split; [left|done].
    + intros Hg. destruct (r_dir0 _ _ Hg) as (t & Ht & Hin & Hn). case_decide as F'; [|by exists t]. eexists. split; [done|]. cbn.
      rewrite F' in Ht. simplify_eq. split; [by right|done].
  - rewrite multiplicity_disj_union, multiplicity_one, (bool_decide_eq_false_2 (Live _ _ = _)) by done. rewrite r_live0. case_decide; [|done]. subst. rewrite Hc.
    apply flag_ext. naive_solver.
  - intros [Hin%gmultiset_elem_of_singleton|Hin]%gmultiset_elem_of_disj_union; [done|eauto].
  - rewrite multiplicity_disj_union, multiplicity_one, r_dirs0. case_decide as F; [subst|].
    + cbn. rewrite Hdn. cbn. rewrite (bool_decide_eq_false_2 (_ /\ None = _)) by by intros [_ ?]. rewrite Nat.add_0_r. apply flag_ext. naive_solver.
    + rewrite (bool_decide_eq_false_2 (Dir i c0 d0 = Dir 0 c d)) by congruence. done.
Qed.

Lemma MRep_readdir L v d x s nx : MRep L v -> cursor L d = Some x -> fsys L (dc_fs x) = Some s -> nx = 0 \/ nx ∈ ms_files s ->
  MRep (<[d := MDir (MkDcookie (dc_fs x) nx)]> L) v.
Proof.
  intros [] Hd Hs Hnx. pose proof (proj1 (cursor_at _ _ _) Hd) as Hd'. set (L' := insert _ _ _).
  assert (forall q, cursor L' q = if decide (q = d) then Some (MkDcookie (dc_fs x) nx) else cursor L q) as E3 by (intros q; unfold L'; looks; done).
  assert (forall q, fsys L' q = fsys L q) as E1 by (intros q; unfold L'; looks; case_decide; subst; by rewrite ?Hd').
  assert (forall q, file L' q = file L q) as E2 by (intros q; unfold L'; looks; case_decide; subst; by rewrite ?Hd').
  assert (forall q, block L' q = block L q) as E4 by (intros q; unfold L'; looks; case_decide; subst; by rewrite ?Hd').
  split; intros *; rewrite ?E1, ?E2, ?E3, ?E4; try done; eauto.
  - unfold L'. rewrite lookup_insert_ne; [done|]. intros ->. congruence.
  - intros Ht Hin. destruct (r_cookies0 _ _ _ Ht Hin) as (y & Hy & ?). case_decide; [|by exists y]. subst. rewrite Hd in Hy. simplify_eq. by eexists.
  - case_decide as F; [intros [= <-]; subst; cbn|by eauto]. destruct (r_dir0 _ _ Hd) as (t & Ht & Hin & _). exists t. split; [done|]. split; [done|].
    rewrite Hs in Ht. by simplify_eq.
  - rewrite r_dirs0. case_decide as F; [|done]. subst. by rewrite Hd.
Qed.

Lemma MRep_closedir L v d x s : MRep L v -> cursor L d = Some x -> fsys L (dc_fs x) = Some s ->
  MRep (delete d (<[dc_fs x := with_dcookies (filter (fun p => p ≠ d) (ms_dcookies s)) s]> L)) (v ∖ {[+ Dir 0 (dc_fs x) d +]}).
Proof.
  intros [] Hd Hs. pose proof (proj1 (cursor_at _ _ _) Hd) as Hd'. pose proof (proj1 (fsys_at _ _ _) Hs) as Hs'. set (L' := delete _ _).
  assert (forall q, fsys L' q = if decide (q = dc_fs x) then Some (MkMemfs (ms_files s) (filter (fun p => p ≠ d) (ms_dcookies s))) else fsys L q) as E1.
  { intros q. unfold L'. looks. repeat case_decide; subst; try congruence; by rewrite ?Hd'. }
  assert (forall q, cursor L' q = if decide (q = d) then None else cursor L q) as E3.
  { intros q. unfold L'. looks. repeat case_decide; subst; try congruence; by rewrite ?Hs'. }
  assert (forall q, file L' q = file L q) as E2 by (intros q; unfold L'; looks; repeat case_decide; subst; by rewrite ?Hd', ?Hs').
  assert (forall q, block L' q = block L q) as E4 by (intros q; unfold L'; looks; repeat case_decide; subst; by rewrite ?Hd', ?Hs').
  split; intros *; rewrite ?E1, ?E2, ?E3, ?E4; try done; eauto.
  - unfold L'. rewrite lookup_delete. case_decide; [done|]. rewrite lookup_insert_ne; [done|]. congruence.
  - case_decide; [|eauto]. intros [= <-]. destruct (r_nodup0 _ _ Hs). split; [done|]. by apply list.NoDup_filter.
  - case_decide; [intros [= <-]; cbn; subst; eauto|eauto].
  - case_decide; [intros [= <-]; cbn|].
    + intros [Hne Hin]%list_elem_of_filter. destruct (r_cookies0 _ _ _ Hs Hin) as (y & Hy & ?). rewrite decide_False by done. subst. by exists y.
    + intros Ht Hin. destruct (r_cookies0 _ _ _ Ht Hin) as (y & Hy & ?). rewrite decide_False by congruence. by exists y.
  - intros Hg. destruct (r_listed0 _ _ Hg) as (t & Ht & Hin). case_decide as F; [|by exists t]. eexists. split; [done|]. cbn. rewrite F in Ht. by simplify_eq.
  - case_decide as F; [done|]. intros Hg. destruct (r_dir0 _ _ Hg) as (t & Ht & Hin & Hn). case_decide as F'; [|by exists t]. eexists. split; [done|]. cbn.
    rewrite F' in Ht. simplify_eq. split; [by apply list_elem_of_filter|done].
  - rewrite multiplicity_difference, multiplicity_one, (bool_decide_eq_false_2 (Live _ _ = _)) by done. rewrite Nat.sub_0_r, r_live0. case_decide; [|done].
    subst. rewrite Hs. apply flag_ext. naive_solver.
  - intros Hin. apply (r_open0 i c f). multiset_solver.
  - rewrite multiplicity_difference, multiplicity_one, r_dirs0. case_decide as F; [subst|].
    + rewrite Hd. cbn. rewrite (bool_decide_eq_false_2 (_ /\ None = _)) by by intros [_ ?].
      rewrite (bool_decide_ext (Dir i c d = Dir 0 (dc_fs x) d) (i = 0%nat /\ Some (dc_fs x) = Some c)) by naive_solver. lia.
    + rewrite (bool_decide_eq_false_2 (Dir i c d0 = Dir 0 (dc_fs x) d)) by congruence. lia.
Qed.

(** What the layer opens and closes. *)
Lemma MRep_open L v c f x : MRep L v -> file L f = Some x -> mf_fs x = c -> MRep L ({[+ File 0 c f +]} ⊎ v).
Proof.
  intros [] Hf Hx. split; intros *; try done; eauto.
  - rewrite multiplicity_disj_union, multiplicity_one, (bool_decide_eq_false_2 (Live _ _ = _)) by done. apply r_live0.
  - intros [Hin%gmultiset_elem_of_singleton|Hin]%gmultiset_elem_of_disj_union; [|eauto]. simplify_eq. eauto.
  - rewrite multiplicity_disj_union, multiplicity_one, (bool_decide_eq_false_2 (Dir _ _ _ = _)) by done. apply r_dirs0.
Qed.

Lemma MRep_close L v i c f : MRep L v -> MRep L (v ∖ {[+ File i c f +]}).
Proof.
  intros []. split; intros *; try done; eauto.
  - rewrite multiplicity_difference, multiplicity_one, (bool_decide_eq_false_2 (Live _ _ = _)), Nat.sub_0_r by done. apply r_live0.
  - intros Hin. apply (r_open0 i0 c0 f0). multiset_solver.
  - rewrite multiplicity_difference, multiplicity_one, (bool_decide_eq_false_2 (Dir _ _ _ = _)), Nat.sub_0_r by done. apply r_dirs0.
Qed.
End MemFsProps.
