(* ===== verification/MemFsHooks.v ===== *)
(** The hooks of the file system in memory: what each returns and does to the
    files, and that they are what the mount table relies on. *)
From S2P Require Import Prelude WaitLib FsLib Fs MemFs MemFsProps.
From stdpp Require Import gmultiset.
Local Open Scope Z_scope.

Module MemFsHooks.
Import WaitLib FsLib MemFs MemFsProps.

#[local] Arguments disj_union : simpl never.
#[local] Arguments difference : simpl never.
#[local] Arguments singletonMS : simpl never.

Class ReallocLaws (H : Type) `{!AllocOps H, !DevOps H, !ReallocOps H} := {
  realloc_ok (h : H) p n : alloc_ok h -> allocated h p -> 0 < n < 2 ^ 16 ->
    wp (realloc p n) h (fun q h' => alloc_ok h' /\ (forall d, dev_handles h' d = dev_handles h d) /\
      if q =? 0 then forall x, allocated h x -> allocated h' x
      else allocated h' q /\ (q = p \/ ~ allocated h q) /\ forall x, x ≠ p -> allocated h x -> allocated h' x);
}.

Section hooks.
Context {H : Type} `{!AllocOps H, !DevOps H, !ReallocOps H, !DevEnv H, !ReallocLaws H}.
Abbreviation world := (MemFs.world (H := H)).
Implicit Types w : world.
Abbreviation objs w := (w_objs w).
Abbreviation heap w := (w_heap w).

(** The structures are allocated memory; the rest is for other clients. *)
Definition Ok w : Prop := alloc_ok (heap w) /\ forall p, is_Some (objs w !! p) -> allocated (heap w) p.

#[export] Instance memfs_allocs : AllocOps world := {|
  malloc n := on_heap (malloc n);
  calloc n m := on_heap (calloc n m);
  free p := on_heap (free p);
  alloc_ok := Ok;
  allocated w q := allocated (heap w) q /\ objs w !! q = None;
|}.

#[export] Instance memfs_devs : DevOps world := {|
  dev_open nm := on_heap (dev_open nm);
  dev_close p := on_heap (dev_close p);
  dev_handles w d := dev_handles (heap w) d;
  dev_spare w := dev_spare (heap w);
|}.

(** The file of a name. *)
Definition named w (c : Z) (nm : list Z) (f : Z) : Prop := exists x, file (objs w) f = Some x /\ mf_fs x = c /\ mf_str x = nm.

#[export] Instance memfs_fs : FsOps world := {|
  fs_impls := [memfs_impl];
  fs_rep w v := MRep (objs w) v;
  remove_ok w v i c path := forall f, named w c (trim_name path) f ->
    (forall c', File 0 c' f ∉ v) /\ forall d y, cursor (objs w) d = Some y -> dc_next y ≠ f;
  io_fits n := 0 < n < 2 ^ 16;
|}.

(** * Steps *)

Lemma wpm_on_heap {A} (m : M H A) w (Q : A -> world -> Prop) : wp (on_heap m) w Q <-> wp m (heap w) (fun a h => Q a (MkWorld (objs w) h)).
Proof. unfold wp, on_heap. by destruct (m (heap w)) as [[a h]|]. Qed.

(** The heap serves the structures of [L] as well, and the others as before. *)
Definition served w (L : objects) (h : H) : Prop :=
  alloc_ok h /\ (forall q, allocated (heap w) q -> objs w !! q = None -> allocated h q /\ L !! q = None) /\
  (forall d, dev_handles h d = dev_handles (heap w) d) /\ forall q, is_Some (L !! q) -> allocated h q.

Lemma served_steady w L h : served w L h -> steady w (MkWorld L h).
Proof. intros (Hok & Hal & Hd & HL). split; [by split|]. split; [|done]. intros q [Ha Hq]. cbn. auto. Qed.

Lemma served_refl w : Ok w -> served w (objs w) (heap w).
Proof. intros [Hok Ha]. by split_and!. Qed.

(** Changing an object, freeing one. *)
Lemma served_insert w L h p o : served w L h -> is_Some (L !! p) -> served w (<[p := o]> L) h.
Proof.
  intros (Hok & Hal & Hd & HL) [y Hp]. split_and!; try done.
  - intros q Hq Hn. destruct (Hal q Hq Hn) as [? Hl]. split; [done|]. rewrite lookup_insert_ne; [done|]. congruence.
  - intros q. rewrite lookup_insert. case_decide; [subst; intros _; apply HL; by eexists|apply HL].
Qed.

(** An allocation: [V] is the table and what is not stored in it yet. *)
Lemma wp_alloc (m : M H Z) w V L h Q : served w V h ->
  wp m h (fun p h' => p ≠ 0 /\ ~ allocated h p /\ allocated h' p /\ steady h h') ->
  (forall p h', p ≠ 0 -> V !! p = None -> (forall o, served w (<[p := o]> V) h') -> Q p (MkWorld L h')) -> wp (on_heap m) (MkWorld L h) Q.
Proof.
  intros (Hok & Hal & Hd & HL) Hm HQ. apply wpm_on_heap. eapply wp_mono; [exact Hm|]. intros p h' (Hp & Hn & Ha & Hok' & Hal' & Hd'). cbn.
  assert (V !! p = None) as HLp by (destruct (V !! p) eqn:E; [destruct Hn; apply HL; by eexists|done]).
  apply HQ; [done|done|]. intros o. split_and!; [done| |intros d; by rewrite Hd', Hd|].
  - intros q Hq Hq'. destruct (Hal q Hq Hq') as [Hh HLq]. split; [auto|]. rewrite lookup_insert_ne; [done|]. intros ->. done.
  - intros q. rewrite lookup_insert. case_decide; [by subst|auto].
Qed.

Lemma wp_malloc w V L h n Q : served w V h -> 0 < n < 2 ^ 16 ->
  (forall p h', p ≠ 0 -> V !! p = None -> (forall o, served w (<[p := o]> V) h') -> Q p (MkWorld L h')) -> wp (on_heap (malloc n)) (MkWorld L h) Q.
Proof. intros Hs Hn HQ. eapply wp_alloc; [done| |done]. apply d_malloc; [by destruct Hs|done]. Qed.

Lemma wpm_calloc w V L h n m Q : served w V h -> 0 < n * m < 2 ^ 16 ->
  (forall p h', p ≠ 0 -> V !! p = None -> (forall o, served w (<[p := o]> V) h') -> Q p (MkWorld L h')) -> wp (on_heap (calloc n m)) (MkWorld L h) Q.
Proof. intros Hs Hn HQ. eapply wp_alloc; [done| |done]. apply d_calloc; [by destruct Hs|done]. Qed.

Lemma served_dom w V L h : (forall q, L !! q = None <-> V !! q = None) -> served w V h -> served w L h.
Proof.
  intros HD (Hok & Hal & Hd & HL). split_and!; try done.
  - intros q Hq Hn. rewrite HD. auto.
  - intros q Hq. apply HL. destruct (V !! q) eqn:E; [by eexists|]. apply HD in E. rewrite E in Hq. by destruct Hq.
Qed.

Lemma wpm_release w L h p Q : served w L h -> p ≠ 0 -> is_Some (L !! p) -> (forall h', served w (delete p L) h' -> Q tt (MkWorld (delete p L) h')) ->
  wp (release p) (MkWorld L h) Q.
Proof.
  intros (Hok & Hal & Hd & HL) Hp [o Ho] HQ. unfold release, obj_at. rewrite (proj2 (Z.eqb_neq _ _)) by done. wp_step. exists o. split; [done|]. wp_step.
  apply wpm_on_heap. cbn. eapply wp_mono; [apply d_free; [done|apply HL; by eexists]|]. intros [] h' (Hok' & Hal' & Hd'). apply HQ. split_and!; [done| |intros d; by rewrite Hd', Hd|].
  - intros q Hq Hq'. destruct (Hal q Hq Hq') as [Hh HLq]. assert (q ≠ p) by congruence. split; [auto|]. by rewrite lookup_delete_ne.
  - intros q. rewrite lookup_delete. case_decide; [by intros []|]. intros Hq. apply Hal'; [congruence|auto].
Qed.

Lemma wp_realloc_block w L h p n Q : served w L h -> block L p = Some tt -> 0 < n < 2 ^ 16 ->
  (forall h', served w L h' -> Q 0 (MkWorld L h')) ->
  (forall q h', q ≠ 0 -> q = p \/ L !! q = None -> served w (<[q := MBlock]> (delete p L)) h' -> Q q (MkWorld (<[q := MBlock]> (delete p L)) h')) ->
  wp (realloc_block p n) (MkWorld L h) Q.
Proof.
  intros (Hok & Hal & Hd & HL) Hb%block_is Hn HQ0 HQ. unfold realloc_block, block_at, obj_at. wp_step. exists MBlock. split; [done|]. wp_step. apply wpm_on_heap. cbn.
  eapply wp_mono; [apply realloc_ok; [done|apply HL; by eexists|done]|]. intros q h' (Hok' & Hd' & Hq). destruct (Z.eqb_spec q 0) as [->|Hq0]; wp_step.
  - apply HQ0. split_and!; [done| |intros d; by rewrite Hd', Hd|auto]. intros x Hx Hx'. destruct (Hal x Hx Hx'). auto.
  - destruct Hq as (Hqa & Hqp & Hal'). assert (q = p \/ L !! q = None) as Hqn.
    { destruct Hqp as [->|Hn']; [by left|right]. destruct (L !! q) eqn:E; [|done]. destruct Hn'. apply HL. by eexists. }
    apply HQ; [done|done|]. split_and!; [done| |intros d; by rewrite Hd', Hd|].
    + intros x Hx Hx'. destruct (Hal x Hx Hx') as [Hh HLx]. assert (x ≠ p) by congruence. split; [auto|].
      rewrite lookup_insert_ne, lookup_delete_ne; [done|congruence|]. intros ->. destruct Hqp; [congruence|done].
    + intros x. rewrite lookup_insert. case_decide; [by subst|]. rewrite lookup_delete. case_decide; [by intros []|]. intros Hx. apply Hal'; [congruence|auto].
Qed.

Lemma wp_fs_at w p s (Q : memfs_t -> world -> Prop) : fsys (objs w) p = Some s -> Q s w -> wp (fs_at p) w Q.
Proof. intros Hp%fsys_at HQ. unfold fs_at, obj_at. wp_step. exists (MFs s). split; [done|]. by wp_step. Qed.
Lemma wpm_file_at w p s (Q : memfs_file_t -> world -> Prop) : file (objs w) p = Some s -> Q s w -> wp (file_at p) w Q.
Proof. intros Hp%file_is HQ. unfold file_at, obj_at. wp_step. exists (MFile s). split; [done|]. by wp_step. Qed.
Lemma wpm_dir_at w p s (Q : dircookie -> world -> Prop) : cursor (objs w) p = Some s -> Q s w -> wp (dir_at p) w Q.
Proof. intros Hp%cursor_at HQ. unfold dir_at, obj_at. wp_step. exists (MDir s). split; [done|]. by wp_step. Qed.
Lemma wp_block_at w p (Q : unit -> world -> Prop) : block (objs w) p = Some tt -> Q tt w -> wp (block_at p) w Q.
Proof. intros Hp%block_is HQ. unfold block_at, obj_at. wp_step. exists MBlock. split; [done|]. by wp_step. Qed.
Lemma wpm_store w p o (Q : unit -> world -> Prop) : Q tt (MkWorld (<[p := o]> (objs w)) (heap w)) -> wp (store p o) w Q.
Proof. intros HQ. unfold store. by wp_step. Qed.

(** * Looking for a file *)

(** The files that a list names, in its order. *)
Fixpoint find_name (L : objects) (l : list Z) (nm : list Z) : Z :=
  match l with
  | [] => 0
  | p :: l => match file L p with Some x => if bool_decide (nm = mf_str x) then p else find_name L l nm | None => find_name L l nm end
  end.

Lemma find_in_ok w v l nm : MRep (objs w) v -> (forall f, f ∈ l -> is_Some (file (objs w) f)) ->
  wp (find_in l nm) w (fun r w' => w' = w /\ r = find_name (objs w) l nm).
Proof.
  intros HM. induction l as [|p l IH]; intros Hl; cbn [find_in find_name]; [by wp_step|]. destruct (Hl p) as [x Hx]; [left|]. rewrite Hx.
  wp_step. eapply wpm_file_at; [done|]. wp_step. apply wp_block_at; [by apply (r_blocks _ _ HM _ _ Hx)|].
  case_bool_decide; [by wp_step|]. apply IH. intros f Hf. apply Hl. by right.
Qed.

Lemma find_name_spec w v c s nm : MRep (objs w) v -> fsys (objs w) c = Some s ->
  if find_name (objs w) (ms_files s) nm =? 0 then forall f, ~ named w c nm f else named w c nm (find_name (objs w) (ms_files s) nm).
Proof.
  intros HM Hs. assert (forall l, (forall f, f ∈ l -> f ∈ ms_files s) -> if find_name (objs w) l nm =? 0 then forall f, f ∈ l -> ~ named w c nm f
    else named w c nm (find_name (objs w) l nm)) as Hl.
  { induction l as [|p l IH]; intros Hsub; cbn [find_name]; [intros f Hf; by apply not_elem_of_nil in Hf|].
    destruct (r_files _ _ HM _ _ _ Hs (Hsub p ltac:(left))) as (x & Hx & Hxc). rewrite Hx. case_bool_decide as Hn.
    - assert (p ≠ 0) by (intros ->; unfold file in Hx; by rewrite (r_null _ _ HM) in Hx). rewrite (proj2 (Z.eqb_neq _ _)) by done. exists x. subst. done.
    - specialize (IH ltac:(set_solver)). destruct (_ =? 0); [|done]. intros f [->|Hf]%elem_of_cons; [|auto]. intros (y & Hy & _ & Hny). congruence. }
  specialize (Hl (ms_files s) ltac:(auto)). destruct (_ =? 0); [|done]. intros f Hf. apply (Hl f); [|done]. destruct Hf as (x & Hx & <- & _).
  destruct (r_listed _ _ HM _ _ Hx) as (t & Ht & Hin). rewrite Hs in Ht. by simplify_eq.
Qed.

(** The file of a name, or 0. *)
Definition lookup_file w (c : Z) (nm : list Z) (f : Z) : Prop := if f =? 0 then forall g, ~ named w c nm g else named w c nm f.

Lemma find_file_ok w v c s nm : MRep (objs w) v -> fsys (objs w) c = Some s ->
  wp (find_file c nm) w (fun r w' => w' = w /\ lookup_file w c nm r).
Proof.
  intros HM Hs. unfold find_file. wp_step. eapply wp_fs_at; [done|]. eapply wp_mono; [apply (find_in_ok w v)|].
  - done.
  - intros f Hf. destruct (r_files _ _ HM _ _ _ Hs Hf) as (x & Hx & _). by exists x.
  - intros r w' [-> ->]. split; [done|]. exact (find_name_spec w v c s nm HM Hs).
Qed.

(** * The hooks *)

(** What a client sees: the files of a file system in order; a file's file
    system, name and bytes; where a directory cookie stands. *)
Definition contents (x : memfs_file_t) : list (option Z) := take (Z.to_nat (mf_len x)) (mf_data x).
Definition listing (L : objects) (c : Z) : option (list Z) := ms_files <$> fsys L c.
Definition entry (L : objects) (f : Z) : option (Z * list Z * list (option Z)) := (fun x => (mf_fs x, mf_str x, contents x)) <$> file L f.
Definition place (L : objects) (d : Z) : option (Z * Z) := (fun y => (dc_fs y, dc_next y)) <$> cursor L d.

Definition fupd {A} (g : Z -> option A) (k : Z) (x : option A) : Z -> option A := fun q => if decide (q = k) then x else g q.
Definition tables (L : objects) (lst : Z -> option (list Z)) (ent : Z -> option (Z * list Z * list (option Z))) (plc : Z -> option (Z * Z)) : Prop :=
  (forall c, listing L c = lst c) /\ (forall f, entry L f = ent f) /\ forall d, place L d = plc d.

(** A call that changes no table. *)
Definition unchanged w w' : Prop := tables (objs w') (listing (objs w)) (entry (objs w)) (place (objs w)).

Lemma tables_same L : tables L (listing L) (entry L) (place L).
Proof. done. Qed.

Lemma world_eq w : w = MkWorld (objs w) (heap w).
Proof. by destruct w. Qed.

Lemma memfs_mount_ok w v dev : Ok w -> MRep (objs w) v ->
  wp (memfs_mount dev) w (fun r w' => steady w w' /\ r.1 = 0 /\ Live 0 r.2 ∉ v /\ MRep (objs w') ({[+ Live 0 r.2 +]} ⊎ v) /\
    listing (objs w) r.2 = None /\ tables (objs w') (fupd (listing (objs w)) r.2 (Some [])) (entry (objs w)) (place (objs w))).
Proof.
  intros Hok HM. unfold memfs_mount. wp_step. rewrite (world_eq w) at 1. apply (wp_malloc w (objs w)); [by apply served_refl|unfold sizeof_memfs_t; lia|].
  intros c h Hc Hn Hins. rewrite (proj2 (Z.eqb_neq _ _)) by done. wp_step. apply wpm_store. wp_step. cbn [fst snd w_objs w_heap].
  destruct (MRep_mount _ _ _ HM Hc Hn) as [HM' Hlive]. split; [by apply served_steady|]. split_and!; try done.
  - unfold listing, fsys. by rewrite Hn.
  - split_and!; intros q; unfold listing, entry, place, fupd; looks; case_decide; subst; by rewrite ?Hn.
Qed.

(** The files go one after the other. *)
Definition without_fs (c : Z) (g : Z -> option (Z * list Z * list (option Z))) : Z -> option (Z * list Z * list (option Z)) :=
  fun f => match g f with Some (c', nm, d) => if decide (c' = c) then None else Some (c', nm, d) | None => None end.

Lemma free_file_ok w L h v s f x Q : served w L h -> MRep L v -> file L f = Some x -> fsys L (mf_fs x) = Some s -> (forall i c, File i c f ∉ v) ->
  (forall d y, cursor L d = Some y -> dc_next y ≠ f) ->
  (forall h', served w (drop_file (mf_fs x) f x s L) h' -> Q tt (MkWorld (drop_file (mf_fs x) f x s L) h')) ->
  wp (_ ← store (mf_fs x) (with_files (filter (fun p => p ≠ f) (ms_files s)) s); free_file f) (MkWorld L h) Q.
Proof.
  intros Hsv HM Hf Hs Hno Hcur HQ. destruct (r_blocks _ _ HM _ _ Hf) as (Hbn%block_is & Hbp%block_is & Hnp).
  pose proof (proj1 (file_is _ _ _) Hf) as Hf'. pose proof (proj1 (fsys_at _ _ _) Hs) as Hs'. pose proof (r_null _ _ HM) as H0.
  wp_step. apply wpm_store. cbn. unfold free_file. wp_step. eapply wpm_file_at; [apply file_is; cbn; rewrite lookup_insert_ne; [done|congruence]|].
  assert (forall p, L !! p = Some MBlock -> p ≠ 0 /\ p ≠ mf_fs x /\ p ≠ f) as Hb by (intros p Hp; split_and!; congruence).
  destruct (Hb _ Hbn) as (? & ? & ?), (Hb _ Hbp) as (? & ? & ?). wp_step.
  eapply wpm_release; [apply served_insert; [done|by rewrite Hs']|done|rewrite lookup_insert_ne, Hbp by done; by eexists|]. intros h1 Hsv1. wp_step.
  eapply wpm_release; [done|done|rewrite lookup_delete_ne, lookup_insert_ne, Hbn by done; by eexists|]. intros h2 Hsv2.
  eapply wpm_release; [done|congruence|rewrite !lookup_delete_ne, lookup_insert_ne, Hf'; [by eexists|congruence..]|]. intros h3 Hsv3. by apply HQ.
Qed.

Lemma drop_file_tables L v s f x : MRep L v -> file L f = Some x -> fsys L (mf_fs x) = Some s ->
  tables (drop_file (mf_fs x) f x s L) (fupd (listing L) (mf_fs x) (Some (filter (fun p => p ≠ f) (ms_files s)))) (fupd (entry L) f None) (place L).
Proof.
  intros HM Hf Hs. destruct (r_blocks _ _ HM _ _ Hf) as (Hbn%block_is & Hbp%block_is & Hnp).
  pose proof (proj1 (file_is _ _ _) Hf) as Hf'. pose proof (proj1 (fsys_at _ _ _) Hs) as Hs'.
  split_and!; intros q; unfold listing, entry, place, fupd, drop_file; looks; repeat case_decide; subst; try congruence; by rewrite ?Hf', ?Hbn, ?Hbp, ?Hs'.
Qed.

Lemma head_filter (f : Z) l : NoDup (f :: l) -> filter (fun p => p ≠ f) (f :: l) = l.
Proof.
  intros [Hf Hl]%list.NoDup_cons. rewrite filter_cons_False by tauto. clear Hl. induction l as [|g l IH]; [done|].
  rewrite filter_cons_True by set_solver. f_equal. apply IH. set_solver.
Qed.

Lemma free_files_ok w c v fuel : forall L h s, served w L h -> MRep L v -> fsys L c = Some s -> (length (ms_files s) < fuel)%nat ->
  (forall i f, File i c f ∉ v) -> (forall d, Dir 0 c d ∉ v) ->
  wp (free_files fuel c) (MkWorld L h) (fun _ w' => exists L' h', w' = MkWorld L' h' /\ served w L' h' /\ MRep L' v /\
    (exists s', fsys L' c = Some s' /\ ms_files s' = []) /\ tables L' (fupd (listing L) c (Some [])) (without_fs c (entry L)) (place L)).
Proof.
  induction fuel as [|fuel IH]; intros L h s Hsv HM Hs Hlen Hno Hnd; [lia|]. cbn [free_files]. wp_step. eapply wp_fs_at; [done|].
  destruct (ms_files s) as [|f l] eqn:El.
  - wp_step. exists L, h. split_and!; try done; [by exists s|]. split_and!; intros q; [| |done].
    + unfold fupd, listing. case_decide; [subst; rewrite Hs; cbn; by rewrite El|done].
    + unfold without_fs, entry. destruct (file L q) as [y|] eqn:Hy; [|done]. cbn. case_decide as F; [|done]. destruct (r_listed _ _ HM _ _ Hy) as (t & Ht & Hin).
      rewrite F, Hs in Ht. simplify_eq. rewrite El in Hin. by apply not_elem_of_nil in Hin.
  - destruct (r_files _ _ HM _ _ f Hs) as (x & Hx & Hxc); [rewrite El; left|]. destruct (r_nodup _ _ HM _ _ Hs) as [Hnodup _].
    rewrite El in Hnodup. pose proof (head_filter f l Hnodup) as Hfl.
    assert (forall i c', File i c' f ∉ v) as Hnof.
    { intros i c' Hin. destruct (r_open _ _ HM _ _ _ Hin) as (-> & y & Hy & Hyc). assert (c' = c) as -> by congruence. by apply (Hno 0%nat f). }
    assert (forall d y, cursor L d = Some y -> dc_next y ≠ f) as Hcur.
    { intros d y Hy F. destruct (r_dir _ _ HM _ _ Hy) as (t & Ht & _ & [Hn|Hn]).
      - apply file_is in Hx. by rewrite <- F, Hn, (r_null _ _ HM) in Hx.
      - rewrite F in Hn. destruct (r_files _ _ HM _ _ _ Ht Hn) as (y' & Hy' & Hyc). apply (Hnd d), elem_of_multiplicity. rewrite (r_dirs _ _ HM), Hy, bool_decide_eq_true_2; [lia|].
        split; [done|]. cbn. f_equal. congruence. }
    subst c. pose proof (free_file_ok w L h v s f x (fun _ w' => wp (free_files fuel (mf_fs x)) w' (fun _ w' => exists L' h', w' = MkWorld L' h' /\ served w L' h' /\ MRep L' v /\
      (exists s', fsys L' (mf_fs x) = Some s' /\ ms_files s' = []) /\ tables L' (fupd (listing L) (mf_fs x) (Some [])) (without_fs (mf_fs x) (entry L)) (place L)))
      Hsv HM Hx Hs Hnof Hcur) as Hstep. rewrite El, Hfl in Hstep. unfold with_files in Hstep. rewrite wp_bind. rewrite !wp_bind in Hstep. eapply wp_mono; [apply Hstep; clear Hstep|].
    + intros h' Hsv'. pose proof (drop_file_tables L v s f x HM Hx Hs) as (T1 & T2 & T3). pose proof (MRep_remove L v s f x HM Hx Hs Hnof Hcur) as HM'.
      assert (fsys (drop_file (mf_fs x) f x s L) (mf_fs x) = Some (MkMemfs l (ms_dcookies s))) as Hs1.
      { pose proof (proj1 (file_is _ _ _) Hx) as Hf'. pose proof (proj1 (fsys_at _ _ _) Hs) as Hs'. destruct (r_blocks _ _ HM _ _ Hx) as (Hbn%block_is & Hbp%block_is & _).
        unfold drop_file. looks. rewrite El, Hfl. repeat case_decide; congruence || done. }
      eapply wp_mono; [apply (IH _ h' (MkMemfs l (ms_dcookies s))); try done; cbn in *; lia|]. intros _ w' (L' & h2 & -> & ? & ? & ? & U1 & U2 & U3).
      exists L', h2. split_and!; try done. split_and!; intros q.
      * rewrite U1. unfold fupd. case_decide as F; [done|]. rewrite T1. unfold fupd. by rewrite decide_False.
      * rewrite U2. unfold without_fs. rewrite T2. unfold fupd. case_decide as F; [|done]. subst. unfold entry. rewrite Hx. cbn. by rewrite decide_True.
      * by rewrite U3, T3.
    + intros [] w' Hw'. by wp_step.
Qed.

Lemma memfs_unmount_ok w v c : Ok w -> MRep (objs w) v -> Live 0 c ∈ v -> ~ open_at v 0 c ->
  wp (memfs_unmount c) w (fun r w' => steady w w' /\ r = 0 /\ MRep (objs w') (v ∖ {[+ Live 0 c +]}) /\
    tables (objs w') (fupd (listing (objs w)) c None) (without_fs c (entry (objs w))) (place (objs w))).
Proof.
  intros Hok HM Hlive Hno. assert (exists s, fsys (objs w) c = Some s) as [s Hs].
  { rewrite elem_of_multiplicity, (r_live _ _ HM) in Hlive. case_bool_decide as F; [|lia]. destruct F as [_ [s ?]]. by exists s. }
  assert (forall i f, File i c f ∉ v) as Hnf.
  { intros i f Hin. destruct (r_open _ _ HM _ _ _ Hin) as [-> _]. apply Hno. exists f. by left. }
  assert (forall d, Dir 0 c d ∉ v) as Hnd by (intros d Hin; apply Hno; exists d; by right).
  unfold memfs_unmount. wp_step. eapply wp_fs_at; [done|]. wp_step. rewrite (world_eq w) at 1.
  eapply wp_mono; [apply (free_files_ok w c v _ _ _ s); [by apply served_refl|done|done|lia|done|done]|].
  intros _ w' (L' & h' & -> & Hsv & HM' & (s' & Hs' & He) & T1 & T2 & T3). wp_step. pose proof (proj1 (fsys_at _ _ _) Hs') as Hs''.
  eapply wpm_release; [done|intros ->; by rewrite (r_null _ _ HM') in Hs''|by rewrite Hs''|]. intros h2 Hsv2. wp_step. cbn [w_objs].
  split; [by apply served_steady|]. split; [done|]. split; [by apply (MRep_unmount _ _ _ s')|].
  split_and!; intros q.
  - unfold fupd. unfold listing at 1. looks. case_decide; [done|]. specialize (T1 q). unfold fupd in T1. rewrite decide_False in T1 by done. exact T1.
  - rewrite <- T2. unfold entry. looks. case_decide; [subst; by rewrite Hs''|done].
  - rewrite <- T3. unfold place. looks. case_decide; [subst; by rewrite Hs''|done].
Qed.

Lemma steady_refl w : Ok w -> steady w w.
Proof. intros Hok. split; [exact Hok|]. by split. Qed.

Lemma live_fs w v c : MRep (objs w) v -> Live 0 c ∈ v -> exists s, fsys (objs w) c = Some s.
Proof.
  intros HM Hlive. rewrite elem_of_multiplicity, (r_live _ _ HM) in Hlive. case_bool_decide as F; [|lia]. destruct F as [_ [s ?]]. by exists s.
Qed.

(** A failure that changes nothing. *)
Definition refused (r : Z * Z) (err : Z) w w' : Prop := r.1 = err /\ unchanged w w'.

Lemma unchanged_refl w : unchanged w w.
Proof. exact (tables_same (objs w)). Qed.

Definition zeros (len : Z) : list (option Z) := replicate (Z.to_nat len) (Some 0).

(** The answer of [memfs_create]. *)
Definition create_answer (c : Z) (path : list Z) (len : Z) w (r : Z * Z) w' : Prop :=
  let nm := trim_name path in
  if bool_decide (47 ∈ nm) then refused r Fs.ERR_NOT_SUPPORTED w w'
  else (refused r ERR_ALREADY_EXISTS w w' /\ exists f, named w c nm f) \/
       (r.1 = 0 /\ (forall f, ~ named w c nm f) /\ entry (objs w) r.2 = None /\ tables (objs w')
          (fupd (listing (objs w)) c ((fun l => l ++ [r.2]) <$> listing (objs w) c)) (fupd (entry (objs w)) r.2 (Some (c, nm, zeros len))) (place (objs w))).

(** The objects of a new file. *)
Definition add_file (c f nm ptr : Z) (str : list Z) (len : Z) (s : memfs_t) (L : objects) : objects :=
  <[c := with_files (ms_files s ++ [f]) s]> (<[f := MFile (MkFile c nm str ptr (zeros len) len)]> (<[nm := MBlock]> (<[ptr := MBlock]> L))).

Lemma add_file_rep w v c f nm ptr str len s : MRep (objs w) v -> fsys (objs w) c = Some s -> (forall g, ~ named w c str g) -> 0 < len < 2 ^ 16 ->
  f ≠ 0 -> nm ≠ 0 -> ptr ≠ 0 -> objs w !! f = None -> objs w !! nm = None -> objs w !! ptr = None -> f ≠ nm -> f ≠ ptr -> nm ≠ ptr ->
  MRep (add_file c f nm ptr str len s (objs w)) ({[+ File 0 c f +]} ⊎ v) /\
  tables (add_file c f nm ptr str len s (objs w)) (fupd (listing (objs w)) c (Some (ms_files s ++ [f])))
    (fupd (entry (objs w)) f (Some (c, str, zeros len))) (place (objs w)).
Proof.
  intros HM Hs Hno Hlen Hf0 Hn0 Hp0 Hf Hn Hp Hfn Hfp Hnp. pose proof (proj1 (fsys_at _ _ _) Hs) as Hs'. unfold add_file.
  pose proof (MRep_block _ _ nm (MRep_block _ _ ptr HM Hp0 Hp) Hn0 ltac:(by rewrite lookup_insert_ne)) as HM2. set (L2 := <[nm := MBlock]> _) in *.
  assert (forall q, file L2 q = file (objs w) q) as EF.
  { intros q. unfold L2. looks. repeat case_decide; subst; by rewrite ?Hn, ?Hp. }
  assert (fsys L2 c = Some s) as Hs2 by (unfold L2; looks; rewrite !decide_False by congruence; exact Hs).
  assert (zeros len = zeros len /\ length (zeros len) = Z.to_nat len) as [_ Hz] by (split; [done|apply length_replicate]).
  assert (forall g y, file (objs w) g = Some y -> mf_name y ≠ nm /\ mf_name y ≠ ptr /\ mf_ptr y ≠ nm /\ mf_ptr y ≠ ptr) as Hfresh.
  { intros g y Hg. destruct (r_blocks _ _ HM _ _ Hg) as (B1%block_is & B2%block_is & _). split_and!; congruence. }
  split.
  - eapply MRep_open; [apply (MRep_create L2 v c s f (MkFile c nm str ptr (zeros len) len)); try done|apply file_is; rewrite lookup_insert_ne, lookup_insert_eq; [done|congruence]|done].
    + unfold L2. by rewrite !lookup_insert_ne.
    + cbn. unfold L2. looks. by rewrite decide_True.
    + cbn. unfold L2. looks. rewrite decide_False, decide_True by done. done.
    + cbn. lia.
    + cbn. rewrite Hz. lia.
    + intros g y. rewrite EF. cbn. intros Hg. destruct (Hfresh _ _ Hg) as (? & ? & ? & ?). split_and!; congruence.
    + intros g y. rewrite EF. cbn. intros Hg Hc Hstr. apply (Hno g). by exists y.
  - split_and!; intros q; unfold fupd.
    + unfold listing. looks. case_decide; [done|]. unfold L2. looks. repeat case_decide; subst; by rewrite ?Hf, ?Hn, ?Hp.
    + unfold entry. looks. assert (take (Z.to_nat len) (zeros len) = zeros len) as Ht by (apply take_ge; lia).
      repeat case_decide; subst; try congruence; cbn; [by rewrite Hs'|unfold contents; cbn; by rewrite Ht|]. fold (file L2 q). by rewrite EF.
    + unfold place. looks. repeat case_decide; subst; try congruence; cbn; rewrite ?Hs', ?Hf; [done|done|]. unfold L2. looks.
      repeat case_decide; subst; by rewrite ?Hn, ?Hp.
Qed.

Lemma memfs_create_ok w v c path len : Ok w -> MRep (objs w) v -> Live 0 c ∈ v -> 0 < len < 2 ^ 16 -> Z.of_nat (length path) < 2 ^ 15 ->
  wp (memfs_create c path len) w (fun r w' => steady w w' /\ create_answer c path len w r w' /\
    if r.1 <? 0 then MRep (objs w') v else MRep (objs w') ({[+ File 0 c r.2 +]} ⊎ v)).
Proof.
  intros Hok HM Hlive Hlen Hpath. destruct (live_fs w v c HM Hlive) as [s Hs]. pose proof (proj1 (fsys_at _ _ _) Hs) as Hs'.
  unfold memfs_create, create_answer, ULONG_MAX. rewrite (proj2 (Z.leb_gt _ _)) by lia.
  case_bool_decide as Hsl; [wp_step; split; [by apply steady_refl|]; split; [by split; [|apply unchanged_refl]|done]|]. wp_step.
  eapply wp_mono; [by apply (find_file_ok w v c s)|]. intros r w' [-> Hr]. unfold lookup_file in Hr. destruct (Z.eqb_spec r 0) as [Hr0|Hr0]; cbn [negb].
  2: { wp_step. split; [by apply steady_refl|]. split; [left; split; [by split; [|apply unchanged_refl]|by exists r]|done]. }
  assert (length (trim_name path) <= length path)%nat as Hshort.
  { assert (forall b l, (length (skip b l) <= length l)%nat) as Hsk by (intros b l; induction l; cbn; [done|case_match; cbn; lia]).
    unfold trim_name. pose proof (Hsk 47 (skip 32 path)). pose proof (Hsk 32 path). lia. }
  wp_step. rewrite (world_eq w) at 1. apply (wp_malloc w (objs w)); [by apply served_refl|unfold sizeof_memfs_file_t; lia|]. intros f h1 Hf0 Hf Hins1.
  rewrite (proj2 (Z.eqb_neq _ _)) by done. wp_step. apply (wpm_calloc w _ _ _ _ _ _ (Hins1 MBlock)); [lia|]. intros ptr h2 Hp0 Hp Hins2.
  rewrite (proj2 (Z.eqb_neq _ _)) by done. wp_step. apply wpm_store. unfold strdup. wp_step. cbn [w_objs w_heap].
  apply (wp_malloc w _ _ _ _ _ (Hins2 MBlock)); [lia|]. intros nm h3 Hn0 Hn Hins3. rewrite (proj2 (Z.eqb_neq _ _)) by done. wp_step. apply wpm_store. wp_step.
  apply wpm_store. cbn [w_objs w_heap]. assert (f ≠ ptr) as Hfp by (intros ->; by rewrite lookup_insert_eq in Hp). rewrite lookup_insert_ne in Hp by done.
  assert (nm ≠ ptr) as Hnp by (intros ->; by rewrite lookup_insert_eq in Hn). rewrite lookup_insert_ne in Hn by done.
  assert (f ≠ nm) as Hfn by (intros ->; by rewrite lookup_insert_eq in Hn). rewrite lookup_insert_ne in Hn by done.
  wp_step. eapply wp_fs_at; [apply fsys_at; cbn; rewrite !lookup_insert_ne; [exact Hs'|congruence..]|]. wp_step. apply wpm_store. wp_step. cbn [fst snd w_objs w_heap].
  destruct (add_file_rep w v c f nm ptr (trim_name path) len s) as [HM' HT]; try done.
  split; [|split; [right|exact HM']].
  - apply served_steady. eapply served_dom; [|apply (Hins3 MBlock)]. intros q. rewrite !lookup_insert. repeat case_decide; subst; try done. by rewrite Hs'.
  - split_and!; [done|done|unfold entry; assert (file (objs w) f = None) as ->; [unfold file; by rewrite Hf|done]|]. unfold listing at 2. rewrite Hs. exact HT.
Qed.

Lemma memfs_open_ok w v c path : Ok w -> MRep (objs w) v -> Live 0 c ∈ v ->
  wp (memfs_open c path) w (fun r w' => w' = w /\ if r.1 <? 0 then r.1 = ERR_NOT_FOUND /\ forall f, ~ named w c (trim_name path) f
    else r.1 = 0 /\ named w c (trim_name path) r.2).
Proof.
  intros Hok HM Hlive. destruct (live_fs w v c HM Hlive) as [s Hs]. unfold memfs_open. wp_step.
  eapply wp_mono; [by apply (find_file_ok w v c s)|]. intros r w' [-> Hr]. unfold lookup_file in Hr. destruct (r =? 0); by wp_step.
Qed.

(** The answer of [memfs_remove]. *)
Definition remove_answer (c : Z) (path : list Z) w (r : Z) w' : Prop :=
  (r = ERR_NOT_FOUND /\ (forall f, ~ named w c (trim_name path) f) /\ unchanged w w') \/
  (exists f, r = 0 /\ named w c (trim_name path) f /\ tables (objs w')
     (fupd (listing (objs w)) c (filter (fun p => p ≠ f) <$> listing (objs w) c)) (fupd (entry (objs w)) f None) (place (objs w))).

Lemma memfs_remove_ok w v c path : Ok w -> MRep (objs w) v -> Live 0 c ∈ v -> remove_ok w v 0 c path ->
  wp (memfs_remove c path) w (fun r w' => steady w w' /\ MRep (objs w') v /\ remove_answer c path w r w').
Proof.
  intros Hok HM Hlive Hrm. destruct (live_fs w v c HM Hlive) as [s Hs]. unfold memfs_remove. wp_step.
  eapply wp_mono; [by apply (find_file_ok w v c s)|]. intros r w' [-> Hr]. unfold lookup_file in Hr. destruct (r =? 0).
  - wp_step. split; [by apply steady_refl|]. split; [done|]. left. split_and!; [done|done|apply unchanged_refl].
  - destruct (Hrm r Hr) as [Hno Hcur]. pose proof Hr as (x & Hx & Hxc & Hxn). wp_step. eapply wp_fs_at; [done|]. subst c.
    assert (forall i c', File i c' r ∉ v) as Hno' by (intros i c' Hin; destruct (r_open _ _ HM _ _ _ Hin) as [-> _]; by apply (Hno c')).
    pose proof (free_file_ok w (objs w) (heap w) v s r x (fun _ w' => steady w w' /\ MRep (objs w') v /\ remove_answer (mf_fs x) path w 0 w')
      (served_refl w Hok) HM Hx Hs Hno' Hcur) as Hfree. unfold with_files in Hfree. rewrite !wp_bind in Hfree. rewrite <- world_eq in Hfree. rewrite wp_bind.
    eapply wp_mono; [apply Hfree; clear Hfree|].
    + intros h' Hsv. cbn. split; [by apply served_steady|]. split; [by apply MRep_remove|]. right. exists r. split; [done|]. split; [done|].
      unfold listing at 2. rewrite Hs. exact (drop_file_tables _ v s r x HM Hx Hs).
    + intros [] w' Hw'. rewrite wp_bind. eapply wp_mono; [exact Hw'|]. intros [] w2 Hw2. by wp_step.
Qed.

Lemma file_of_open w v c f : MRep (objs w) v -> File 0 c f ∈ v -> exists x s, file (objs w) f = Some x /\ mf_fs x = c /\ fsys (objs w) c = Some s.
Proof.
  intros HM Hin. destruct (r_open _ _ HM _ _ _ Hin) as (_ & x & Hx & Hxc). destruct (r_listed _ _ HM _ _ Hx) as (s & Hs & _). exists x, s. by subst.
Qed.

Lemma memfs_read_ok w v c f off len : MRep (objs w) v -> File 0 c f ∈ v -> 0 <= len -> off + len < 2 ^ 63 ->
  wp (memfs_read f off len) w (fun r w' => w' = w /\ if off <? 0 then r = (ERR_INVALID_ARGS, []) else
    exists nm d, entry (objs w) f = Some (c, nm, d) /\ r = (Z.of_nat (length r.2), take (Z.to_nat len) (drop (Z.to_nat off) d))).
Proof.
  intros HM Hin Hl0 Hl. destruct (file_of_open w v c f HM Hin) as (x & s & Hx & Hxc & Hs). destruct (r_len _ _ HM _ _ Hx) as [Hlen Hdl].
  unfold memfs_read. destruct (Z.ltb_spec off 0) as [Ho|Ho]; [by wp_step|]. wp_step. eapply wpm_file_at; [done|]. wp_step. rewrite Hxc.
  eapply wp_fs_at; [done|]. wp_step. apply wp_block_at; [by apply (r_blocks _ _ HM _ _ Hx)|]. rewrite uw_small by lia.
  set (n := if mf_len x <=? off then 0 else if mf_len x <? off + len then mf_len x - off else len).
  assert (n = Z.max 0 (Z.min len (mf_len x - off))) as En.
  { unfold n. destruct (Z.leb_spec (mf_len x) off); [lia|]. destruct (Z.ltb_spec (mf_len x) (off + len)); lia. }
  wp_step. split; [unfold inside; apply orb_true_iff; destruct (Z.eqb_spec n 0); [by left|right; apply Z.leb_le; lia]|]. wp_step. split; [done|].
  exists (mf_str x), (contents x). split; [unfold entry; rewrite Hx; cbn; by rewrite Hxc|]. cbn [snd].
  assert (take (Z.to_nat n) (drop (Z.to_nat off) (mf_data x)) = take (Z.to_nat len) (drop (Z.to_nat off) (contents x))) as ->.
  { unfold contents. rewrite skipn_firstn_comm, take_take. f_equal. lia. }
  f_equal. unfold contents. rewrite length_take, length_drop, length_take. lia.
Qed.

(** The files but one, which has other bytes. *)
Definition rewritten (f : Z) (c : Z) (nm : list Z) (d : list (option Z)) w w' : Prop :=
  tables (objs w') (listing (objs w)) (fupd (entry (objs w)) f (Some (c, nm, d))) (place (objs w)).

Lemma put_data_tables L v f x len q data : MRep L v -> file L f = Some x -> q = mf_ptr x \/ L !! q = None ->
  tables (put_data f x len q data L) (listing L) (fupd (entry L) f (Some (mf_fs x, mf_str x, take (Z.to_nat len) data))) (place L).
Proof.
  intros HM Hx Hq. destruct (r_blocks _ _ HM _ _ Hx) as (_ & Hbp%block_is & _). pose proof (proj1 (file_is _ _ _) Hx) as Hx'.
  assert (q ≠ f) as Hqf by (destruct Hq; congruence). assert (L !! q = Some MBlock \/ L !! q = None) as Hq' by (destruct Hq as [->|?]; auto).
  split_and!; intros p; unfold listing, entry, place, fupd, put_data; looks; repeat case_decide; subst; try congruence; rewrite ?Hx', ?Hbp; try done;
    destruct Hq' as [E|E]; by rewrite ?E.
Qed.

Lemma memfs_truncate_ok w v c f len : Ok w -> MRep (objs w) v -> File 0 c f ∈ v -> 0 <= len < 2 ^ 16 ->
  wp (memfs_truncate f len) w (fun r w' => steady w w' /\ MRep (objs w') v /\ exists nm d, entry (objs w) f = Some (c, nm, d) /\
    if Z.of_nat (length d) <? len then r = ERR_INVALID_ARGS /\ unchanged w w'
    else (r = ERR_NO_MEMORY /\ unchanged w w') \/ (r = 0 /\ rewritten f c nm (take (Z.to_nat len) d) w w')).
Proof.
  intros Hok HM Hin Hl. destruct (file_of_open w v c f HM Hin) as (x & s & Hx & Hxc & Hs). destruct (r_len _ _ HM _ _ Hx) as [Hlen Hdl].
  assert (entry (objs w) f = Some (c, mf_str x, contents x)) as He by (unfold entry; rewrite Hx; cbn; by rewrite Hxc).
  assert (Z.of_nat (length (contents x)) = mf_len x) as Hc by (unfold contents; rewrite length_take; lia).
  unfold memfs_truncate. wp_step. eapply wpm_file_at; [done|]. wp_step. rewrite Hxc. eapply wp_fs_at; [done|].
  destruct (Z.ltb_spec (mf_len x) len).
  { wp_step. split; [by apply steady_refl|]. split; [done|]. exists (mf_str x), (contents x). split; [done|]. rewrite Hc, (proj2 (Z.ltb_lt _ _)) by done.
    split; [done|apply unchanged_refl]. }
  set (size := if len =? 0 then 1 else len). assert (len <= size /\ 0 < size < 2 ^ 16) as [Hsz Hs1] by (unfold size; destruct (Z.eqb_spec len 0); lia).
  wp_step. rewrite (world_eq w) at 1. eapply wp_realloc_block; [by apply served_refl|by apply (r_blocks _ _ HM _ _ Hx)|done| |].
  - intros h' Hsv. wp_step. split; [by apply served_steady|]. split; [done|]. exists (mf_str x), (contents x). split; [done|]. rewrite Hc, (proj2 (Z.ltb_ge _ _)) by done.
    left. split; [done|]. apply tables_same.
  - intros q h' Hq0 Hq Hsv. rewrite (proj2 (Z.eqb_neq _ _)) by done. wp_step. apply wpm_store. wp_step. cbn [w_objs w_heap].
    fold (put_data f x len q (resize size (mf_data x)) (objs w)). pose proof (proj1 (file_is _ _ _) Hx) as Hx'.
    destruct (r_blocks _ _ HM _ _ Hx) as (_ & Hbp%block_is & _).
    assert (Z.of_nat (length (resize size (mf_data x))) = size) as Hrl by (unfold resize; rewrite length_app, length_take, length_replicate; lia).
    split; [|split; [apply MRep_data; (done || lia)|]].
    + apply served_steady, served_insert; [done|]. rewrite lookup_insert_ne, lookup_delete_ne, Hx' by (destruct Hq; congruence). by eexists.
    + exists (mf_str x), (contents x). split; [done|]. rewrite Hc, (proj2 (Z.ltb_ge _ _)) by done. right. split; [done|]. unfold rewritten.
      assert (take (Z.to_nat len) (contents x) = take (Z.to_nat len) (resize size (mf_data x))) as ->.
      { unfold contents, resize. rewrite take_take, take_app_le by (rewrite length_take; lia). rewrite take_take. f_equal. lia. }
      rewrite <- Hxc. eapply put_data_tables; done.
Qed.

(** The bytes [d] with [buf] written at [off]. *)
Definition spliced (off : Z) (buf d d' : list (option Z)) : Prop :=
  Z.of_nat (length d') = Z.max (Z.of_nat (length d)) (off + Z.of_nat (length buf)) /\
  take (length buf) (drop (Z.to_nat off) d') = buf /\
  forall i, Z.of_nat i < Z.of_nat (length d) -> Z.of_nat i < off \/ off + Z.of_nat (length buf) <= Z.of_nat i -> d' !! i = d !! i.

Lemma inserts_spliced off buf data d n : 0 <= off -> d = take (Z.to_nat n) data -> 0 <= n -> Z.of_nat (length d) <= n <= Z.of_nat (length data) ->
  off + Z.of_nat (length buf) <= n -> n = Z.max (Z.of_nat (length d)) (off + Z.of_nat (length buf)) ->
  spliced off buf d (take (Z.to_nat n) (list_inserts (Z.to_nat off) buf data)).
Proof.
  intros Ho -> Hn Hl Hb Hmax. split_and!.
  - rewrite length_take, length_inserts. lia.
  - apply list_eq. intros j. destruct (decide (j < length buf)%nat) as [Hj|Hj].
    + rewrite lookup_take_lt, lookup_drop, lookup_take_lt, list_lookup_inserts by lia. f_equal. lia.
    + rewrite lookup_take_ge by lia. symmetry. apply lookup_ge_None. lia.
  - intros j Hj Hout. rewrite length_take in Hj. rewrite !lookup_take_lt by lia. destruct Hout; [rewrite list_lookup_inserts_lt by lia|rewrite list_lookup_inserts_ge by lia]; done.
Qed.

(** [memcpy] into a file whose block is there. *)
Lemma copy_to_ok w v L h f x buf off Q : served w L h -> MRep L v -> file L f = Some x -> 0 <= off -> off + Z.of_nat (length buf) <= mf_len x ->
  (forall h', served w (put_data f x (mf_len x) (mf_ptr x) (list_inserts (Z.to_nat off) buf (mf_data x)) L) h' ->
    Q (Z.of_nat (length buf)) (MkWorld (put_data f x (mf_len x) (mf_ptr x) (list_inserts (Z.to_nat off) buf (mf_data x)) L) h')) ->
  wp (copy_to f buf off) (MkWorld L h) Q.
Proof.
  intros Hsv HM Hx Ho Hb HQ. destruct (r_len _ _ HM _ _ Hx) as [Hlen Hdl]. destruct (r_blocks _ _ HM _ _ Hx) as (_ & Hbp & _). pose proof (proj1 (block_is _ _) Hbp) as Hbp'.
  unfold copy_to. wp_step. eapply wpm_file_at; [done|]. wp_step. apply wp_block_at; [done|]. wp_step. split; [unfold inside; apply orb_true_iff; right; apply Z.leb_le; lia|].
  wp_step. apply wpm_store. wp_step. cbn [w_objs w_heap]. unfold put_data in HQ. rewrite insert_delete_eq, (insert_id L _ MBlock) in HQ by done. apply HQ.
  apply served_insert; [done|]. apply file_is in Hx. by rewrite Hx.
Qed.

Lemma put_data_twice f x n q d d' n' (L : objects) : q = mf_ptr x \/ L !! q = None -> f ≠ q ->
  put_data f (set_file n q d x) n' q d' (put_data f x n q d L) = put_data f x n' q d' L.
Proof.
  intros Hq Hf. unfold put_data. cbn [set_file mf_ptr mf_fs mf_name mf_str]. apply map_eq. intros p.
  repeat (rewrite lookup_insert || rewrite lookup_delete). repeat case_decide; subst; try done; congruence.
Qed.

Definition write_answer (c f : Z) (buf : list (option Z)) (off : Z) w (r : Z) w' : Prop :=
  if off <? 0 then r = ERR_INVALID_ARGS /\ unchanged w w'
  else exists nm d, entry (objs w) f = Some (c, nm, d) /\
    ((r = ERR_NO_MEMORY /\ unchanged w w') \/ (r = Z.of_nat (length buf) /\ exists d', spliced off buf d d' /\ rewritten f c nm d' w w')).

Lemma memfs_write_ok w v c f buf off : Ok w -> MRep (objs w) v -> File 0 c f ∈ v -> 0 < off + Z.of_nat (length buf) < 2 ^ 16 ->
  wp (memfs_write f buf off) w (fun r w' => steady w w' /\ MRep (objs w') v /\ write_answer c f buf off w r w').
Proof.
  intros Hok HM Hin Hl. destruct (file_of_open w v c f HM Hin) as (x & s & Hx & Hxc & Hs). destruct (r_len _ _ HM _ _ Hx) as [Hlen Hdl].
  assert (entry (objs w) f = Some (c, mf_str x, contents x)) as He by (unfold entry; rewrite Hx; cbn; by rewrite Hxc).
  assert (Z.of_nat (length (contents x)) = mf_len x) as Hc by (unfold contents; rewrite length_take; lia).
  pose proof (proj1 (file_is _ _ _) Hx) as Hx'. destruct (r_blocks _ _ HM _ _ Hx) as (_ & Hbp & _). pose proof (proj1 (block_is _ _) Hbp) as Hbp'.
  unfold memfs_write, write_answer. destruct (Z.ltb_spec off 0) as [Ho|Ho]; [wp_step; split; [by apply steady_refl|]; split; [done|]; split; [done|apply unchanged_refl]|].
  wp_step. eapply wpm_file_at; [done|]. wp_step. rewrite Hxc. eapply wp_fs_at; [done|]. rewrite uw_small by lia.
  destruct (Z.ltb_spec (mf_len x) (off + Z.of_nat (length buf))) as [Hgt|Hle].
  - wp_step. rewrite (world_eq w) at 1. eapply wp_realloc_block; [by apply served_refl|done|done| |].
    + intros h' Hsv. wp_step. split; [by apply served_steady|]. split; [done|]. exists (mf_str x), (contents x). split; [done|]. left. split; [done|]. apply tables_same.
    + intros q h' Hq0 Hq Hsv. rewrite (proj2 (Z.eqb_neq _ _)) by done. wp_step. apply wpm_store. cbn [w_objs w_heap]. set (n := off + Z.of_nat (length buf)) in *.
      fold (put_data f x n q (resize n (mf_data x)) (objs w)).
      assert (Z.of_nat (length (resize n (mf_data x))) = n) as Hrl by (unfold resize; rewrite length_app, length_take, length_replicate; lia).
      assert (f ≠ q) as Hfq by (destruct Hq; congruence).
      pose proof (MRep_data (objs w) v f x n q (resize n (mf_data x)) HM Hx Hq0 Hq ltac:(lia) ltac:(lia)) as HM1.
      set (x1 := set_file n q (resize n (mf_data x)) x). assert (file (put_data f x n q (resize n (mf_data x)) (objs w)) f = Some x1) as Hx1.
      { apply file_is. unfold put_data. apply lookup_insert_eq. }
      eapply (copy_to_ok w v _ _ f x1); [|done|done|done|cbn; lia|].
      { apply served_insert; [done|]. rewrite lookup_insert_ne, lookup_delete_ne, Hx' by (destruct Hq; congruence). by eexists. }
      intros h2 Hsv2. change (mf_len x1) with n in *. change (mf_ptr x1) with q in *. change (mf_data x1) with (resize n (mf_data x)) in *.
      unfold x1 in Hsv2 |- *. rewrite (put_data_twice f x n q) in Hsv2 |- * by done. split; [by apply served_steady|].
      split; [apply MRep_data; try done; rewrite ?length_inserts; lia|]. exists (mf_str x), (contents x). split; [done|]. right. split; [done|].
      exists (take (Z.to_nat n) (list_inserts (Z.to_nat off) buf (resize n (mf_data x)))). split.
      * assert (spliced off buf (take (Z.to_nat n) (resize n (mf_data x))) (take (Z.to_nat n) (list_inserts (Z.to_nat off) buf (resize n (mf_data x))))) as (S1 & S2 & S3).
        { apply inserts_spliced; try done; rewrite ?length_take; lia. }
        split_and!; [rewrite S1, length_take; lia|done|]. intros j Hj Hout. rewrite S3 by (try done; rewrite length_take; lia).
        rewrite lookup_take_lt by lia. unfold resize, contents. rewrite lookup_app_l by (rewrite length_take; lia). by rewrite !lookup_take_lt by lia.
      * rewrite <- Hxc. eapply put_data_tables; done.
  - rewrite (world_eq w) at 1. eapply (copy_to_ok w v); [by apply served_refl|done|done|done|done|]. intros h2 Hsv2. split; [by apply served_steady|].
    split; [apply MRep_data; rewrite ?length_inserts; try done; [intros F; rewrite F in Hbp'; by rewrite (r_null _ _ HM) in Hbp'|by left]|].
    exists (mf_str x), (contents x). split; [done|]. right. split; [done|]. exists (take (Z.to_nat (mf_len x)) (list_inserts (Z.to_nat off) buf (mf_data x))). split.
    + apply inserts_spliced; try done; lia.
    + rewrite <- Hxc. eapply put_data_tables; [done|done|by left].
Qed.

Lemma memfs_stat_ok w v c f : MRep (objs w) v -> File 0 c f ∈ v ->
  wp (memfs_stat f) w (fun r w' => w' = w /\ exists nm d, entry (objs w) f = Some (c, nm, d) /\ r = (NO_ERROR, Some (Z.of_nat (length d)))).
Proof.
  intros HM Hin. destruct (file_of_open w v c f HM Hin) as (x & s & Hx & Hxc & Hs). destruct (r_len _ _ HM _ _ Hx) as [Hlen Hdl].
  unfold memfs_stat. wp_step. eapply wpm_file_at; [done|]. wp_step. rewrite Hxc. eapply wp_fs_at; [done|]. wp_step. split; [done|].
  exists (mf_str x), (contents x). split; [unfold entry; rewrite Hx; cbn; by rewrite Hxc|]. unfold contents. rewrite length_take. do 2 f_equal. lia.
Qed.

(** * Directories *)

Definition opendir_answer (c : Z) (path : list Z) w (r : Z * Z) w' : Prop :=
  if bool_decide (trim_name path = []) then r.1 = 0 /\ place (objs w) r.2 = None /\ exists l, listing (objs w) c = Some l /\
    tables (objs w') (listing (objs w)) (entry (objs w)) (fupd (place (objs w)) r.2 (Some (c, default 0 (head l))))
  else refused r ERR_NOT_FOUND w w'.

Lemma memfs_opendir_ok w v c path : Ok w -> MRep (objs w) v -> Live 0 c ∈ v ->
  wp (memfs_opendir c path) w (fun r w' => steady w w' /\ opendir_answer c path w r w' /\
    if r.1 <? 0 then MRep (objs w') v else MRep (objs w') ({[+ Dir 0 c r.2 +]} ⊎ v)).
Proof.
  intros Hok HM Hlive. destruct (live_fs w v c HM Hlive) as [s Hs]. pose proof (proj1 (fsys_at _ _ _) Hs) as Hs'. unfold memfs_opendir, opendir_answer.
  case_bool_decide as Hn; cbn [negb]; [|wp_step; split; [by apply steady_refl|]; split; [by split; [|apply unchanged_refl]|done]].
  wp_step. rewrite (world_eq w) at 1. apply (wp_malloc w (objs w)); [by apply served_refl|unfold sizeof_dircookie; lia|]. intros d h Hd0 Hd Hins.
  rewrite (proj2 (Z.eqb_neq _ _)) by done. assert (c ≠ d) as Hcd by congruence. wp_step. eapply wp_fs_at; [exact Hs|]. wp_step. apply wpm_store. wp_step. apply wpm_store. wp_step.
  cbn [fst snd w_objs w_heap]. fold (with_dcookies (d :: ms_dcookies s) s). split; [|split].
  - apply served_steady. apply served_insert; [done|]. by rewrite lookup_insert_ne, Hs'.
  - split; [done|]. split; [unfold place, cursor; by rewrite Hd|]. exists (ms_files s). split; [unfold listing; by rewrite Hs|].
    split_and!; intros q; unfold listing, entry, place, fupd; looks; repeat case_decide; subst; try congruence; by rewrite ?Hs', ?Hd.
  - apply MRep_opendir; [done|done|done|done|]. destruct (ms_files s); [by left|right; left].
Qed.

Definition readdir_answer (d : Z) w (r : Z * option (list Z)) w' : Prop := exists c f l, place (objs w) d = Some (c, f) /\ listing (objs w) c = Some l /\
  if f =? 0 then r = (ERR_NOT_FOUND, None) /\ unchanged w w'
  else exists nm x, entry (objs w) f = Some (c, nm, x) /\ r = (NO_ERROR, Some (take 63 nm)) /\
    tables (objs w') (listing (objs w)) (entry (objs w)) (fupd (place (objs w)) d (Some (c, next_in l f))).

Lemma next_in_spec l p : next_in l p = 0 \/ next_in l p ∈ l.
Proof.
  induction l as [|q l IH]; cbn; [by left|]. destruct (q =? p); [destruct l as [|r l]; [by left|right; right; left]|].
  destruct IH; [by left|by right; right].
Qed.

Lemma memfs_readdir_ok w v c d : Ok w -> MRep (objs w) v -> Dir 0 c d ∈ v ->
  wp (memfs_readdir d) w (fun r w' => steady w w' /\ MRep (objs w') v /\ readdir_answer d w r w').
Proof.
  intros Hok HM Hin. rewrite elem_of_multiplicity, (r_dirs _ _ HM) in Hin. case_bool_decide as F; [|lia]. destruct F as [_ F].
  apply fmap_Some in F as (y & Hy & ->). destruct (r_dir _ _ HM _ _ Hy) as (s & Hs & Hds & Hnx). unfold readdir_answer.
  assert (place (objs w) d = Some (dc_fs y, dc_next y)) as Hpl by (unfold place; by rewrite Hy).
  assert (listing (objs w) (dc_fs y) = Some (ms_files s)) as Hls by (unfold listing; by rewrite Hs).
  unfold memfs_readdir. wp_step. eapply wpm_dir_at; [done|]. wp_step. eapply wp_fs_at; [done|]. destruct (Z.eqb_spec (dc_next y) 0) as [E|E]; cbn [negb].
  - wp_step. split; [by apply steady_refl|]. split; [done|]. exists (dc_fs y), (dc_next y), (ms_files s). split; [done|]. split; [done|]. rewrite (proj2 (Z.eqb_eq _ _)) by done.
    split; [done|apply unchanged_refl].
  - destruct Hnx as [?|Hnx]; [done|]. destruct (r_files _ _ HM _ _ _ Hs Hnx) as (x & Hx & Hxc). wp_step. eapply wpm_file_at; [done|]. wp_step.
    apply wp_block_at; [by apply (r_blocks _ _ HM _ _ Hx)|]. wp_step. apply wpm_store. wp_step. pose proof (proj1 (cursor_at _ _ _) Hy) as Hy'.
    split; [|split].
    + apply served_steady. apply served_insert; [by apply served_refl|]. by rewrite Hy'.
    + cbn. eapply MRep_readdir; [done|done|done|]. apply next_in_spec.
    + exists (dc_fs y), (dc_next y), (ms_files s). split; [done|]. split; [done|]. rewrite (proj2 (Z.eqb_neq _ _)) by done. exists (mf_str x), (contents x).
      split; [unfold entry; rewrite Hx; cbn; by rewrite Hxc|]. split; [done|]. cbn.
      split_and!; intros q; unfold listing, entry, place, fupd; looks; repeat case_decide; subst; try congruence; by rewrite ?Hy'.
Qed.

Lemma memfs_closedir_ok w v c d : Ok w -> MRep (objs w) v -> Dir 0 c d ∈ v ->
  wp (memfs_closedir d) w (fun r w' => steady w w' /\ r = 0 /\ MRep (objs w') (v ∖ {[+ Dir 0 c d +]}) /\
    tables (objs w') (listing (objs w)) (entry (objs w)) (fupd (place (objs w)) d None)).
Proof.
  intros Hok HM Hin. rewrite elem_of_multiplicity, (r_dirs _ _ HM) in Hin. case_bool_decide as F; [|lia]. destruct F as [_ F].
  apply fmap_Some in F as (y & Hy & ->). destruct (r_dir _ _ HM _ _ Hy) as (s & Hs & Hds & Hnx). pose proof (proj1 (cursor_at _ _ _) Hy) as Hy'.
  pose proof (proj1 (fsys_at _ _ _) Hs) as Hs'. assert (dc_fs y ≠ d) as Hne by congruence.
  unfold memfs_closedir. wp_step. eapply wpm_dir_at; [done|]. wp_step. eapply wp_fs_at; [done|]. wp_step. split; [by apply bool_decide_eq_true_2|]. wp_step.
  apply wpm_store. wp_step. fold (with_dcookies (filter (fun p => p ≠ d) (ms_dcookies s)) s).
  eapply wpm_release; [apply served_insert; [by apply served_refl|by rewrite Hs']|intros ->; by rewrite (r_null _ _ HM) in Hy'|by rewrite lookup_insert_ne, Hy'|].
  intros h Hsv. wp_step. split; [by apply served_steady|]. split; [done|]. split; [by apply MRep_closedir|]. cbn.
  split_and!; intros q; unfold listing, entry, place, fupd; looks; repeat case_decide; subst; try congruence; by rewrite ?Hs', ?Hy'.
Qed.
End hooks.
End MemFsHooks.

(** The file system in memory as a store of named byte strings, and as a file
    system for the mount table. *)
Module MemFsLaws.
Import WaitLib FsLib MemFs MemFsProps MemFsHooks.

#[local] Arguments disj_union : simpl never.
#[local] Arguments difference : simpl never.
#[local] Arguments singletonMS : simpl never.

Section laws.
Context {H : Type} `{!AllocOps H, !DevOps H, !ReallocOps H, !DevEnv H, !ReallocLaws H}.
Abbreviation world := (MemFs.world (H := H)).
Implicit Types w : world.
Abbreviation objs w := (w_objs w).
Abbreviation heap w := (w_heap w).

(** * For the mount table *)

(** The heap serves other clients: no structure changes. *)
Lemma steady_rep w h : steady (heap w) h -> Ok w -> steady w (MkWorld (objs w) h) /\ rep_kept w (MkWorld (objs w) h).
Proof.
  intros (Hok & Hal & Hd) [Ha Ho]. split; [|by intros v]. split; [split; [done|]; intros p Hp; cbn; auto|]. split; [|done].
  intros q [? ?]. split; cbn; auto.
Qed.

#[export] Instance memfs_env : FsEnv world.
Proof.
  split.
  - intros w n [Ha Ho] Hn. apply wpm_on_heap. eapply wp_mono; [by apply d_malloc|]. intros p h (Hp & Hna & Hal & Hst).
    split; [done|]. split; [by intros [? _]|]. destruct (steady_rep w h Hst) as [? ?]; [by split|]. split; [|by split].
    split; [done|]. destruct (objs w !! p) eqn:E; [|done]. destruct Hna. apply Ho. by eexists.
  - intros w p [Ha Ho] [Hp Hn]. apply wpm_on_heap. eapply wp_mono; [by apply d_free|]. intros _ h (Hok & Hal & Hd).
    split; [|split; [|split; [done|by intros v]]].
    + split; [done|]. intros q Hq. cbn. apply Hal; [|auto]. cbn in Hq. intros ->. rewrite Hn in Hq. by destruct Hq.
    + intros q Hq [? ?]. split; cbn; auto.
  - intros w nm [Ha Ho] Hs. apply wpm_on_heap. eapply wp_mono; [by apply d_open|]. intros r h (Hok & Hal & Hd).
    split; [split; [done|]; intros q Hq; cbn; auto|]. split; [|split; [by intros v|done]]. intros q [? ?]. split; cbn; auto.
  - intros w p [Ha Ho] Hp Hh. apply wpm_on_heap. eapply wp_mono; [by apply d_close|]. intros r h (Hok & Hal & Hd).
    split; [split; [done|]; intros q Hq; cbn; auto|]. split; [|split; [by intros v|done]]. intros q [? ?]. split; cbn; auto.
Qed.

(** What each hook promises, from what it does. *)
Lemma memfs_laws_at : ApiLaws 0 (memfs_api (H := H)).
Proof.
  split; cbn [memfs_api api_format api_fs_stat api_mount api_unmount api_open api_create api_remove api_truncate api_stat api_read api_write api_close
    api_mkdir api_opendir api_readdir api_closedir api_file_ioctl]; try done; unfold keeps, takes, gives.
  - intros w v d Hok HM. eapply wp_mono; [by apply (memfs_mount_ok w v)|]. intros r w' (Hst & Hr & Hn & HM' & _). rewrite Hr. cbn. done.
  - intros w v c Hok HM Hl Hno. eapply wp_mono; [by apply (memfs_unmount_ok w v)|]. intros r w' (Hst & _ & HM' & _). done.
  - intros w v c path Hok HM Hl. eapply wp_mono; [by apply (memfs_open_ok w v)|]. intros r w' [-> Hr]. split; [by apply steady_refl|].
    destruct (r.1 <? 0); [done|]. split; [done|]. destruct Hr as (_ & x & Hx & Hxc & _). by eapply MRep_open.
  - intros f w v c path len [= <-] Hok HM Hl Hio Hp. eapply wp_mono; [by apply (memfs_create_ok w v); try lia|]. intros r w' (Hst & _ & HM').
    split; [done|]. by destruct (r.1 <? 0).
  - intros f w v c path [= <-] Hok HM Hl Hrm. eapply wp_mono; [by apply (memfs_remove_ok w v)|]. intros r w' (Hst & HM' & _). done.
  - intros f w v c fc len [= <-] Hok HM Hin Hio. eapply wp_mono; [apply (memfs_truncate_ok w v c); try done; destruct Hio; lia|]. intros r w' (Hst & HM' & _). done.
  - intros w v c fc Hok HM Hin. eapply wp_mono; [by apply (memfs_stat_ok w v c)|]. intros r w' (-> & nm & d & _ & ->). split; [by apply steady_refl|].
    split; [done|]. intros n [= <-]. lia.
  - intros w v c fc off len Hok HM Hin Hl Hf. eapply wp_mono; [by apply (memfs_read_ok w v c)|]. intros r w' [-> _]. split; [by apply steady_refl|done].
  - intros f w v c fc data off [= <-] Hok HM Hin Hio. eapply wp_mono; [by apply (memfs_write_ok w v c)|]. intros r w' (Hst & HM' & _). done.
  - intros w v c fc Hok HM Hin. unfold memfs_close. wp_step. split; [by apply steady_refl|]. cbn. by apply MRep_close.
  - intros f w v c path [= <-] Hok HM Hl. eapply wp_mono; [by apply (memfs_opendir_ok w v)|]. intros r w' (Hst & _ & HM'). split; [done|]. by destruct (r.1 <? 0).
  - intros f w v c dc [= <-] Hok HM Hin. eapply wp_mono; [by apply (memfs_readdir_ok w v c)|]. intros r w' (Hst & HM' & _). done.
  - intros f w v c dc [= <-] Hok HM Hin. eapply wp_mono; [by apply (memfs_closedir_ok w v c)|]. intros r w' (Hst & -> & HM' & _). done.
Qed.

#[export] Instance memfs_laws : FsLaws world.
Proof. intros [|i] x; cbn; [intros [= <-]; exact memfs_laws_at|done]. Qed.

(** * The store *)

Inductive mop := MMount (dev : Z) | MUnmount (c : Z) | MCreate (c : Z) (path : list Z) (len : Z) | MOpen (c : Z) (path : list Z)
| MRemove (c : Z) (path : list Z) | MRead (f off len : Z) | MWrite (f : Z) (buf : list (option Z)) (off : Z) | MTruncate (f len : Z)
| MStat (f : Z) | MClose (f : Z) | MOpendir (c : Z) (path : list Z) | MReaddir (d : Z) | MClosedir (d : Z).

Inductive mresult := MStatus (r : Z) | MCookie (r : Z * Z) | MData (r : Z * list (option Z)) | MSize (r : Z * option Z) | MName (r : Z * option (list Z)).

Definition returning {A} (f : A -> mresult) (m : M world A) : M world mresult := r ← m; mret (f r).

Definition mrun (o : mop) : M world mresult :=
  match o with
  | MMount dev => returning MCookie (memfs_mount dev)
  | MUnmount c => returning MStatus (memfs_unmount c)
  | MCreate c path len => returning MCookie (memfs_create c path len)
  | MOpen c path => returning MCookie (memfs_open c path)
  | MRemove c path => returning MStatus (memfs_remove c path)
  | MRead f off len => returning MData (memfs_read f off len)
  | MWrite f buf off => returning MStatus (memfs_write f buf off)
  | MTruncate f len => returning MStatus (memfs_truncate f len)
  | MStat f => returning MSize (memfs_stat f)
  | MClose f => returning MStatus (memfs_close f)
  | MOpendir c path => returning MCookie (memfs_opendir c path)
  | MReaddir d => returning MName (memfs_readdir d)
  | MClosedir d => returning MStatus (memfs_closedir d)
  end.

(** File systems are mounted, files and cookies open; sizes are small, and what is created or written is not empty. *)
Definition mop_ok w (v : view) (o : mop) : Prop :=
  match o with
  | MMount _ => True
  | MUnmount c => Live 0 c ∈ v /\ ~ open_at v 0 c
  | MCreate c path len => Live 0 c ∈ v /\ 0 < len < 2 ^ 16 /\ Z.of_nat (length path) < 2 ^ 15
  | MOpen c _ | MOpendir c _ => Live 0 c ∈ v
  | MRemove c path => Live 0 c ∈ v /\ remove_ok w v 0 c path
  | MRead f off len => (exists c, File 0 c f ∈ v) /\ 0 <= len /\ off + len < 2 ^ 63
  | MWrite f buf off => (exists c, File 0 c f ∈ v) /\ 0 < off + Z.of_nat (length buf) < 2 ^ 16
  | MTruncate f len => (exists c, File 0 c f ∈ v) /\ 0 <= len < 2 ^ 16
  | MStat f | MClose f => exists c, File 0 c f ∈ v
  | MReaddir d | MClosedir d => exists c, Dir 0 c d ∈ v
  end.

(** What a caller holds after a call. *)
Definition held_after (v : view) (o : mop) (r : mresult) (v' : view) : Prop :=
  match o, r with
  | MMount _, MCookie r => Live 0 r.2 ∉ v /\ v' = {[+ Live 0 r.2 +]} ⊎ v
  | MUnmount c, _ => v' = v ∖ {[+ Live 0 c +]}
  | (MCreate c _ _ | MOpen c _), MCookie r => v' = if r.1 <? 0 then v else {[+ File 0 c r.2 +]} ⊎ v
  | MClose f, _ => exists c, File 0 c f ∈ v /\ v' = v ∖ {[+ File 0 c f +]}
  | MOpendir c _, MCookie r => v' = if r.1 <? 0 then v else {[+ Dir 0 c r.2 +]} ⊎ v
  | MClosedir d, _ => exists c, Dir 0 c d ∈ v /\ v' = v ∖ {[+ Dir 0 c d +]}
  | _, _ => v' = v
  end.

(** The result, and the tables that the call leaves. *)
Definition manswer w (o : mop) (r : mresult) w' : Prop :=
  match o with
  | MMount _ => exists c, r = MCookie (NO_ERROR, c) /\ listing (objs w) c = None /\
      tables (objs w') (fupd (listing (objs w)) c (Some [])) (entry (objs w)) (place (objs w))
  | MUnmount c => r = MStatus NO_ERROR /\ tables (objs w') (fupd (listing (objs w)) c None) (without_fs c (entry (objs w))) (place (objs w))
  | MCreate c path len => exists x, r = MCookie x /\ create_answer c path len w x w'
  | MOpen c path => unchanged w w' /\ exists x, r = MCookie x /\
      if x.1 <? 0 then x.1 = ERR_NOT_FOUND /\ forall f, ~ named w c (trim_name path) f else x.1 = NO_ERROR /\ named w c (trim_name path) x.2
  | MRemove c path => exists x, r = MStatus x /\ remove_answer c path w x w'
  | MRead f off len => unchanged w w' /\ if off <? 0 then r = MData (ERR_INVALID_ARGS, []) else
      exists c nm d, entry (objs w) f = Some (c, nm, d) /\
        let got := take (Z.to_nat len) (drop (Z.to_nat off) d) in r = MData (Z.of_nat (length got), got)
  | MWrite f buf off => exists c x, r = MStatus x /\ write_answer c f buf off w x w'
  | MTruncate f len => exists c nm d x, entry (objs w) f = Some (c, nm, d) /\ r = MStatus x /\
      if Z.of_nat (length d) <? len then x = ERR_INVALID_ARGS /\ unchanged w w'
      else (x = ERR_NO_MEMORY /\ unchanged w w') \/ (x = NO_ERROR /\ rewritten f c nm (take (Z.to_nat len) d) w w')
  | MStat f => unchanged w w' /\ exists c nm d, entry (objs w) f = Some (c, nm, d) /\ r = MSize (NO_ERROR, Some (Z.of_nat (length d)))
  | MClose f => unchanged w w' /\ r = MStatus NO_ERROR
  | MOpendir c path => exists x, r = MCookie x /\ opendir_answer c path w x w'
  | MReaddir d => exists x, r = MName x /\ readdir_answer d w x w'
  | MClosedir d => r = MStatus NO_ERROR /\ tables (objs w') (listing (objs w)) (entry (objs w)) (fupd (place (objs w)) d None)
  end.

Lemma wp_mreturning {A} (f : A -> mresult) (m : M world A) w Q : wp (returning f m) w Q <-> wp m w (fun r w' => Q (f r) w').
Proof. unfold returning. wp_step. split; intros Hm; (eapply wp_mono; [exact Hm|]); intros r w'; by wp_step. Qed.

End laws.
End MemFsLaws.
