(* ===== verification/FsSample.v ===== *)
(** The file system in memory under the mount table, over the device list and the
    allocator of [AllocLib]. *)
From S2P Require Import Prelude WaitLib BlockDev FsPath Bdevs BdevsProps FsLib Fs FsProps FsCalls MemFs MemFsProps MemFsHooks.
From stdpp Require Import gmultiset.
Local Open Scope Z_scope.

(** The device list of [Bdevs] and its allocator as what the mount table and the
    file systems stand on. *)
Module FsDevices.
Import WaitLib AllocLib BlockDev Bdevs BdevsProps FsLib MemFs MemFsHooks.

(** An allocator whose [calloc] does not run out, and with [realloc]. *)
Class CallocTotal (H : Type) `{AllocOps H} := {
  calloc_total (h : H) n m : alloc_ok h -> 0 < n * m < 2 ^ 16 -> wp (calloc n m) h (fun p _ => p ≠ 0);
}.
Class HeapRealloc (H : Type) `{!AllocOps H, !ReallocOps H} := {
  heap_realloc (h : H) p n : alloc_ok h -> allocated h p -> 0 < n < 2 ^ 16 ->
    wp (MemFs.realloc p n) h (fun q h' => alloc_ok h' /\
      if q =? 0 then forall x, allocated h x -> allocated h' x
      else allocated h' q /\ (q = p \/ ~ allocated h q) /\ forall x, x ≠ p -> allocated h x -> allocated h' x);
}.

Section devices.
Context {H : Type} `{!AllocOps H, !ReallocOps H, !AllocLaws H, !AllocTotal H, !CallocTotal H, !HeapRealloc H}.
Abbreviation world := (Bdevs.world (H := H)).
Implicit Types w : world.

(** Memory that is no device and no name is for the clients of the list. *)
#[export] Instance list_allocs : AllocOps world := {|
  malloc n := Bdevs.on_heap (malloc n);
  calloc n m := Bdevs.on_heap (calloc n m);
  free p := Bdevs.on_heap (free p);
  alloc_ok := BdevsProps.Inv;
  allocated w q := allocated (Bdevs.w_heap w) q /\ b_devs (w_bdevs w) !! q = None /\ b_names (w_bdevs w) !! q = None;
|}.

#[export] Instance list_devs : DevOps world := {|
  dev_open := bio_open;
  dev_close := bio_close;
  dev_handles := opens;
  dev_spare := small_refs;
|}.

#[export] Instance list_realloc : ReallocOps world := fun p n => Bdevs.on_heap (MemFs.realloc p n).

(** Nothing is at an address that was not allocated. *)
Lemma nothing_at w p : BdevsProps.Inv w -> ~ allocated (Bdevs.w_heap w) p -> b_devs (w_bdevs w) !! p = None /\ b_names (w_bdevs w) !! p = None.
Proof.
  intros Hi Hp. split.
  - destruct (b_devs (w_bdevs w) !! p) eqn:E; [|done]. destruct Hp. apply (iv_alloc _ Hi). left. by eexists.
  - destruct (b_names (w_bdevs w) !! p) eqn:E; [|done]. destruct Hp. apply (iv_alloc _ Hi). right. by eexists.
Qed.

Lemma list_granted (m : M H Z) w : alloc_ok w -> wp m (Bdevs.w_heap w) (fun p h => granted (Bdevs.w_heap w) p h /\ p ≠ 0) ->
  wp (Bdevs.on_heap m) w (fun p w' => p ≠ 0 /\ ~ allocated w p /\ allocated w' p /\ steady w w').
Proof.
  intros Hi Hm. apply wp_on_dev_heap. eapply wp_mono; [exact Hm|]. intros p h [(Hok & Hal & Hp) Hp0]. destruct (Hp Hp0) as [Hn Ha].
  destruct (nothing_at w p Hi Hn). split; [done|]. split; [by intros [? _]|]. split; [by split_and!|].
  split; [by apply Inv_heap|]. split; [|done]. intros q (? & ? & ?). split_and!; cbn; auto.
Qed.

#[export] Instance list_env : DevEnv world.
Proof.
  split.
  - intros w n Hi Hn. apply list_granted; [done|]. apply malloc_granted; [apply (iv_heap _ Hi)|done].
  - intros w n m Hi Hn. apply list_granted; [done|]. apply wp_conj; [apply calloc_ok; [apply (iv_heap _ Hi)|done]|apply calloc_total; [apply (iv_heap _ Hi)|done]].
  - intros w p Hi (Hp & Hd & Hn). apply wp_on_dev_heap. eapply wp_mono; [apply free_ok; [apply (iv_heap _ Hi)|done]|]. intros _ h [Hok Hal].
    split; [|split; [|done]].
    + destruct Hi. split; cbn; try done. intros q Hq. apply Hal; [|auto]. intros ->. rewrite Hd, Hn in Hq. by destruct Hq as [[]|[]].
    + intros q Hq (? & ? & ?). split_and!; cbn; auto.
  - intros w nm Hi Hs. eapply wp_mono; [by apply (find_open_ok w nm)|]. intros r w' (Hi' & Hr & Hl & Hn & Hh & Ho & _ & Hd).
    split; [done|]. split; [|done]. intros q (Hq & Hq1 & Hq2). cbn. split_and!; [by rewrite Hh| |by rewrite Hn].
    destruct (b_devs (w_bdevs w') !! q) as [e|] eqn:E; [|done]. destruct (Hd q e E) as (e0 & ? & _). congruence.
  - intros w p Hi Hp Ho. eapply wp_mono; [by apply bio_close_ok|]. intros _ w' (Hi' & Hl & Ho' & _ & Hf & Hc & _).
    split; [done|]. split; [|done]. intros q (Hq & Hq1 & Hq2). destruct (Hc q Hq2) as [? ?]. cbn. split_and!; [auto| |done].
    destruct (b_devs (w_bdevs w') !! q) as [e|] eqn:E; [|done]. destruct (Hf q e E) as (e0 & ? & _). congruence.
Qed.

#[export] Instance list_realloc_laws : ReallocLaws world.
Proof.
  split. intros w p n Hi (Hp & Hd & Hn) Hl. apply wp_on_dev_heap. eapply wp_mono; [apply heap_realloc; [apply (iv_heap _ Hi)|done|done]|].
  intros q h [Hok Hq].
  assert (forall x, is_Some (b_devs (w_bdevs w) !! x) \/ is_Some (b_names (w_bdevs w) !! x) -> allocated h x) as Hal.
  { intros x Hx. pose proof (iv_alloc _ Hi x Hx) as Ha. destruct (q =? 0); [by apply Hq|]. apply Hq; [|done]. intros ->. rewrite Hd, Hn in Hx. by destruct Hx as [[]|[]]. }
  split; [destruct Hi; by split|]. split; [done|]. destruct (Z.eqb_spec q 0) as [->|Hq0].
  - intros x (? & ? & ?). split_and!; cbn; auto.
  - destruct Hq as (Ha & Hor & Hx). cbn. split_and!.
    + done.
    + destruct Hor as [->|Hna]; [done|]. by apply (nothing_at w q Hi).
    + destruct Hor as [->|Hna]; [done|]. by apply (nothing_at w q Hi).
    + destruct Hor as [->|Hna]; [by left|right]. by intros [? _].
    + intros x Hxp (? & ? & ?). split_and!; cbn; auto.
Qed.
End devices.

(** The allocator of [AllocLib] moves a block that is resized. *)
#[export] Instance bump_realloc : ReallocOps bump := fun p n => q ← bump_malloc n; _ ← free p; mret q.

#[export] Instance bump_calloc_total : CallocTotal bump.
Proof. split. intros h n m [Hn _] _. unfold wp. cbn. lia. Qed.

#[export] Instance bump_realloc_laws : HeapRealloc bump.
Proof.
  split. intros h p n [Hn Hl] Hp Hsz. unfold MemFs.realloc, bump_realloc. wp_step.
  assert (wp (bump_malloc n) h (fun q h' => q = b_next h /\ h' = MkBump (b_next h + n) ({[b_next h]} ∪ b_live h))) as Hm by by unfold wp.
  eapply wp_mono; [exact Hm|]. intros q h' [-> ->]. unfold free; cbn [bump_allocs]. wp_step. rewrite (proj2 (Z.eqb_neq _ _)) by lia. pose proof (Hl p Hp). cbn. split_and!.
  - lia.
  - intros q. rewrite elem_of_difference, elem_of_union, !elem_of_singleton. intros [[->|Hq%Hl] _]; lia.
  - rewrite elem_of_difference, elem_of_union, !elem_of_singleton. split; [by left|lia].
  - right. intros Hin%Hl. lia.
  - set_solver.
Qed.
End FsDevices.

Module FsSample.
Import WaitLib AllocLib FsLib Fs FsProps FsCalls MemFs MemFsProps MemFsHooks MemFsLaws FsDevices.

Abbreviation store_world := (MemFs.world (H := BdevsSample.world)).
Abbreviation fs_world := (Fs.world (K := store_world)).

Definition memfs : list Z := [109; 101; 109; 102; 115].
Definition mnt : list Z := [47; 109; 110; 116].
Definition file_a : list Z := [47; 109; 110; 116; 47; 97].

Definition s0 : store_world := MemFs.MkWorld ∅ BdevsSample.w0.
Definition w0 : fs_world := Fs.MkWorld (MkFs ∅ []) s0.
Definition after (o : op) (w : fs_world) : fs_world := match run o w with Some (_, w) => w | None => w end.
Definition w1 : fs_world := after (Mount mnt memfs []) w0.
Definition w2 : fs_world := after (CreateFile file_a 4) w1.

Lemma MRep0 : MRep ∅ ∅.
Proof.
  split; try done; try (intros *; unfold fsys, file, cursor; by rewrite lookup_empty).
  - intros i c. rewrite multiplicity_empty. unfold fsys. rewrite lookup_empty. rewrite bool_decide_eq_false_2; [done|]. by intros [_ [? ?]].
  - intros i c f. intros []%gmultiset_not_elem_of_empty.
  - intros i c d. rewrite multiplicity_empty. unfold cursor. rewrite lookup_empty. rewrite bool_decide_eq_false_2; [done|]. by intros [_ ?].
Qed.

Lemma Ok0 : Ok s0.
Proof. split; [exact BdevsSample.Inv0|]. intros p [x Hp]. cbn in Hp. by rewrite lookup_empty in Hp. Qed.

Lemma Wf0 : Wf w0.
Proof.
  split; [|intros p; unfold base; cbn; rewrite lookup_empty; lia].
  assert (view_of (delete 0 (∅ : gmap Z object)) = ∅) as Hv by (rewrite delete_empty; apply map_fold_empty).
  split; cbn [w0 w_fs w_env f_objs f_mounts]; rewrite ?delete_empty; try done; try (intros *; rewrite lookup_empty; by intros [? ?] || done).
  - intros p. rewrite lookup_empty. split; [by intros ?%not_elem_of_nil|by intros [? ?]].
  - constructor.
  - exact Ok0.
  - rewrite delete_empty in Hv. rewrite Hv, gmultiset_disj_union_right_id. exact MRep0.
Qed.

Lemma mounted : run (Mount mnt memfs []) w0 = Some (RStatus 0, w1).
Proof. vm_compute. reflexivity. Qed.

(** A mount in the table, a file created in it. *)
Lemma mounts_kept_witness : Wf w1 /\ exists h, run (CreateFile file_a 4) w1 = Some (RHandle (0, Some h), w2) /\ Wf w2.
Proof.
  destruct (mounts_kept w0 (Mount mnt memfs []) Wf0) as (r & w & Hr & Hw & _); [split; [done|by intros []]|].
  rewrite mounted in Hr. injection Hr as _ <-. split; [exact Hw|].
  destruct (mounts_kept w1 (CreateFile file_a 4) Hw) as (r2 & w & Hr2 & Hw2 & _); [split; [vm_compute; reflexivity|done]|].
  destruct r2 as [|[e [h|]]| | |]; try (exfalso; revert Hr2; vm_compute; discriminate).
  assert (w2 = w) as E2 by (unfold w2, after; by rewrite Hr2).
  assert (e = 0) as E0 by (assert (match run (CreateFile file_a 4) w1 with Some (RHandle (e, _), _) => e =? 0 | _ => false end = true) as Ee by (vm_compute; reflexivity); rewrite Hr2 in Ee; by apply Z.eqb_eq).
  exists h. rewrite E2, Hr2, E0. by split.
Defined.

(** A mount path is compared without a separator behind it: /mnta is the file a of /mnt. *)
Lemma mount_prefix : run (OpenFile (mnt ++ [97])) w2 = Some (RHandle (0, Some 319), after (OpenFile (mnt ++ [97])) w2).
Proof. vm_compute. reflexivity. Qed.

(** An unmount gives back the reference of the table each time: with a file still
    open, the second one frees the mount, and the file cannot be closed. *)
Lemma unmount_twice : let w3 := after (Unmount mnt) w2 in let w4 := after (Unmount mnt) w3 in
  f_mounts (w_fs w3) = [188] /\ f_mounts (w_fs w4) = [] /\ run (CloseFile 303) w4 = None.
Proof. vm_compute. by split_and!. Qed.

(** * The store alone *)

Definition step (o : mop) (w : store_world) : store_world := match mrun o w with Some (_, w) => w | None => w end.
Definition s1 : store_world := step (MMount 0) s0.
Definition create : mop := MCreate 100 [47; 97] 2.
Definition s2 : store_world := step create s1.
Definition write : mop := MWrite 188 [Some 1; Some 2; Some 3] 1.
Definition s3 : store_world := step write s2.

Lemma created : mrun (MMount 0) s0 = Some (MCookie (0, 100), s1) /\ mrun create s1 = Some (MCookie (0, 188), s2).
Proof. by vm_compute. Qed.

Lemma written : mrun write s2 = Some (MStatus 3, s3).
Proof. vm_compute. reflexivity. Qed.


(** A write behind the end leaves bytes that nobody wrote. *)
Lemma write_gap : (match mrun (MWrite 188 [Some 7] 4) s2 with Some (_, w) => fst <$> mrun (MRead 188 0 9) w | None => None end) =
  Some (MData (5, [Some 0; Some 0; None; None; Some 7])).
Proof. vm_compute. reflexivity. Qed.

(** The end of a read is computed modulo 2^64: a length close to that is not cut. *)
Lemma read_wraps : mrun (MRead 188 1 (2 ^ 64 - 1)) s2 = None.
Proof. vm_compute. reflexivity. Qed.

(** Removing a file frees it whether or not it is open. *)
Lemma removed_in_use : (match mrun (MRemove 100 [97]) s2 with Some (MStatus 0, w) => bool_decide (mrun (MStat 188) w = None) | _ => false end) = true.
Proof. vm_compute. reflexivity. Qed.
End FsSample.
